(* ===== verification/_CoqProject ===== *)
-Q . S2P
Prelude.v
JsString.v
JsDate.v
Cron.v
MidTurnDelta.v
WakeDrain.v
ToolRegistry.v
ToolCatalog.v
ToolSelection.v
Json.v
DebugStore.v
ProviderDebug.v
ToolCallDebug.v
Paths.v
PatchTool.v
BrowserSession.v
CdpConnection.v
ContextPolicy.v
SlashCommands.v
JsonParse.v
CodexCodec.v
CodexText.v
CodexEvents.v
CodexCoordination.v
CodexRequests.v
CodexDriver.v
CodexDriverFacts.v
ExternalRuntime.v
ExternalRuntimeFacts.v
ExternalInteractions.v
ThreadLifecycle.v
ThreadLifecycleFacts.v
TurnCursor.v
ThreadTurns.v
AsyncCalls.v
NativeThread.v
SteerDelivery.v
SteerDeliveryFacts.v
SteerScenario.v
TurnDispatch.v
TurnDispatchFacts.v
TurnScenario.v
WakeChat.v
CompactionArtifact.v
WakeDispatch.v
WakeDispatchFacts.v
WakeScenario.v
ConstrainedFiles.v
ConstrainedFilesFacts.v
CrewSessions.v
CrewSessionsFacts.v
MutationQueue.v
CrewQueue.v
Curator.v
CuratorLifecycle.v
CuratorNative.v
StaticSite.v
ToolExecution.v
BrainHost.v
BrainHostFacts.v
