(* ===== verification/Prelude.v ===== *)
(** * Rusty Crew: a verification library for the TypeScript service

    Rusty Crew runs AI agents as sessions.  A Rust core keeps the durable state; the
    TypeScript service under [ts/packages] wakes the agents' brains, gives them
    tools, schedules work and shows operators what happened.  This library models
    the service's own decision logic, of [brain-island] and of the driver of Codex in
    [external-runtime-codex], and leaves out the parts that only move data: HTTP routes, the
    native bridge to the Rust core, generated contracts, the input of model providers and channel
    adapters.

    ** How the parts interact

    A scheduler wakes a session at the time a cron expression names ([Cron]).  Wake
    requests of the core are drained and dispatched, except those an operator's own
    turn has already served ([WakeDrain]).  The dispatch of a wake ([WakeDispatch]) holds the
    session while it runs the brain, projects the brain's events to the chat log
    ([WakeChat]), keeps the artifacts of compactions ([CompactionArtifact]) and tells the
    core how it ended; a wake that finds the session held is taken up when it is free.  A
    brain whose model the core talks to is run by a host that drains the core's run and
    executes the tools it asks for ([BrainHost] over [ToolExecution]).
    Sessions are created, moved to another workspace and archived by requests that change
    both the core and the configuration file ([CrewSessions]); a queue runs them one after
    the other ([MutationQueue], [CrewQueue]).
    Messages that arrive during a turn wait in a bounded queue ([MidTurnDelta]).  For a wake the service selects the tools the
    session may use: the registry ([ToolRegistry]) is built from the shipped catalog
    ([ToolCatalog]) and narrowed by profile, session and resource limits
    ([ToolSelection]); the context policy and estimate say how much of the model's
    window the wake may use ([ContextPolicy]).  Among the tools, the patch tool edits
    files ([PatchTool]), which it opens below a pinned directory when the agent is confined
    to a workspace ([ConstrainedFiles]), and the browser tools share browser processes
    ([BrowserSession]) that they drive over a websocket ([CdpConnection]).  What was
    sent to a model provider and what each tool call did is kept, redacted and for a
    while, for debugging ([ProviderDebug], [ToolCallDebug] over [DebugStore]).
    Operators type slash commands, which are answered or turned into control requests
    before any model sees them ([SlashCommands]).

    A session can also run on a Codex app-server.  The driver ([CodexRequests],
    [CodexDriver], [CodexDriverFacts]) speaks JSON-RPC with it: the codec checks each
    message against the schemas it consumes ([CodexCodec] over [JsonParse]), the event
    mapper turns notifications into the service's own events ([CodexEvents]) with
    bounded diagnostics and evidence free of secrets ([CodexText]), and the app-server
    may call the coordination tools it was given ([CodexCoordination]).  The controller
    ([ExternalRuntime]) connects a driver per registered runtime, holds its lease, recovers
    lost connections and parks the app-server's questions until an operator answers.  Turns
    that the core accepted are handed to the app-server and followed to their end
    ([TurnDispatch]), messages for an agent in a turn are steered into it
    ([SteerDelivery]), and operators read the threads ([NativeThread]), page through their
    turns ([TurnCursor], [ThreadTurns]), archive and delete them ([ThreadLifecycle]).  The curator
    proposes changes of skills; its governance store keeps the candidates, their
    approvals and the mutations applied, in memory, in a file ([Curator]) or in the core
    ([CuratorNative]), and a lifecycle pass ages them ([CuratorLifecycle]).  The host
    serves the operators' site from a directory ([StaticSite]).

    ** Files

    - [Prelude]: thrown errors as the monad [result], JavaScript maps and sets as
      insertion-ordered lists with their laws, list lemmas, notation and tactics.
    - [JsString], [JsDate], [Json], [Paths]: the part of the language and of Node that
      the sources use: string operations on code units, UTC dates by ECMA-262, JSON
      values, POSIX path resolution.
    - [Cron]: [cron-expression.ts].  [new_CronExpression] parses, [nextAfter] searches
      minute by minute.  Parsed fields are non-empty and in range; a step range is its
      arithmetic progression; [nextAfter] always returns, with the first matching
      minute of its window or the error exactly when there is none; the printed time
      reads back.
    - [MidTurnDelta]: [mid-turn-delta.ts].  The queue's index loops refine a list-level
      specification over every run of operations; the cap and the expiry hold.
    - [WakeDrain]: [service-wake-event-drain.ts], [channel-wake-policy.ts].  Exactly the
      wakes beyond the pending suppressions are dispatched.
    - [ToolRegistry]: [tool-registry.ts].  An accepted registry resolves every name and
      alias to one entry and binding; an inventory selects exactly the permitted tools
      and gives every other name its first applicable reason.
    - [ToolCatalog]: [tool-registry-portable-catalog.ts], [tool-registry-artifact.ts] and
      the shipped data: the program's own registry is accepted.
    - [ToolSelection]: [tool-profile-selection.ts], [tool-session-selection.ts], proved
      against the interface [MandatoryHelp] of a registry: exact selection, read-only
      sessions, delegation depth, callable tools.
    - [DebugStore], [ProviderDebug], [ToolCallDebug]: [provider-request-debug-store.ts],
      [tool-call-debug-store.ts].  The generic store is proved for every instance of the
      class [StoredRecord]; the two stores stay within their limits over every run,
      return exactly the live record asked for, and keep nothing that redaction hides.
    - [PatchTool]: [patch-tool.ts] over the class [PatchFiles] with the laws
      [PatchFilesLaws].  Matching terminates and finds exactly the occurrences;
      replacements are the content cut there and joined; replace mode is all or
      nothing but for writes that fail; scoped paths stay in the work directory; printed patches parse back;
      diffs keep both versions.
    - [BrowserSession], [CdpConnection]: [browser-session-manager.ts].  The manager's
      methods are cut at their awaits and interleave by the relation [step] over a heap
      of shared records; invariants go by induction over [reachable].  With the calls on
      one session serialized, limits hold and no process is lost; references keep their
      meaning within a generation in any interleaving, until the session is closed and opened
      again; [closeAll] and [sweep] are
      exact.  A CDP call settles once.
    - [ContextPolicy]: [context-strategy.ts], [context-estimate.ts].  Policies read from
      any value are in range and their diagnostics exact, valid ones round-trip; the
      floating-point estimate equals the exact one.
    - [SlashCommands]: [slash-command-router.ts], [reasoning-effort-policy.ts] and the
      commands of [api-command-registry.ts].  A control request is made exactly for an
      authorized caller, on its own session.
    - [JsonParse]: the grammar of JSON texts; the class [JsonText] is what the sources
      use of [JSON.parse], with its law of round trips, and [grammar_json] the instance.
    - [CodexCodec]: [codec.ts], [consumed-contract.ts].  A message is decoded exactly
      when it has one of the five shapes and its schema accepts it, with the error of
      its defect otherwise; written messages decode to themselves; schemas are relaxed
      exactly in their additional members.
    - [CodexText]: [error-diagnostics.ts], [agent-message-file-links.ts], [raw-detail.ts].
      Diagnostics stay in their limits, links are recognized exactly, evidence does not
      depend on what it hides.
    - [CodexEvents]: [event-mapper.ts], and the fields that are lost.
    - [CodexCoordination]: [coordination.ts] and the driver's check of the tool catalog.
    - [CodexRequests], [CodexDriver], [CodexDriverFacts]: [driver.ts].  The class cut at
      its awaits: tasks wait for the transport, the authority or a promise, and every
      order of their events is a run of the relation [step].  The codec is used through
      the class [CodecContract], which [CodexCodec] discharges.  Every request is
      settled exactly once and, when timers fire, in the end; server requests get one
      reply, sent only under the controller's lease; probe reports are complete.
    - [ExternalRuntime], [ExternalRuntimeFacts], [ExternalInteractions]:
      [ServiceExternalRuntimeController] of [service-external-runtime.ts], cut at its awaits
      like the driver, as runs of the relation [ctl_step].  A runtime has one connection at
      most and a driver that was replaced was closed; the delay before a new attempt grows
      and is kept to; every interaction is pending with its timer, about to be settled, or
      settled, and is answered in the end.
    - [ThreadLifecycle], [ThreadLifecycleFacts]: archiving, restoring and deleting a
      native thread over the classes [ThreadServices] and [BindingStore].  The scope of a
      deletion is exact, over the threads that descend from the deleted one and their
      bindings as the connecting of the runtime leaves them; a deletion that throws has put
      every binding back or says that it has not.
    - [TurnCursor], [ThreadTurns], [NativeThread]: cursors and pages of the turns, the
      items made of durable events, and the projection of native threads.  Cursors read
      back and are refused for any other thread.
    - [AsyncCalls]: operations as trees of awaited calls, [Io], for the protocols below.
      A pool of operations over a shared world makes one call at a time in any order, any
      call may be lost or rejected, and a process may die between two; the rely-guarantee
      lemmas say what an operation may assume between its calls and must keep at each,
      [pool_debts] accounts for what operations owe, and [ensures] is total correctness of
      one operation among interfering others.
    - [SteerDelivery], [SteerDeliveryFacts], [SteerScenario]: steered messages.  With the
      calls for one delivery serialized a message is steered once at most, also over
      crashes, and one that is reported as accepted was seen by the app-server.
    - [TurnDispatch], [TurnDispatchFacts], [TurnScenario]: dispatch, start and end of
      turns.  The app-server is asked once at most for a turn, one that is reported as
      failed before its start was never asked for, and a dispatch over a working bridge
      settles every turn it found.
    - [WakeChat], [CompactionArtifact], [WakeDispatch], [WakeDispatchFacts],
      [WakeScenario]: [service-wake-dispatch.ts], [runtime-activity-settlement.ts],
      [chat-wake-failure-summary.ts].  No wake is lost, one dispatch works on a session at a
      time and its brain only while it holds the session, but for a brain whose dispatch had a
      chat write or a drain rejected, and the end of an activity that was begun is reported or
      retried.
    - [ConstrainedFiles], [ConstrainedFilesFacts]: [constrained-filesystem.ts] over a
      kernel whose tree anyone may change at any time.  What is opened was reached by
      directory entries alone, nothing else stays open, and replacing a file's content ends
      with exactly that content.
    - [CrewSessions], [CrewSessionsFacts]: [service-crew-session-lifecycle.ts] with
      [mcp-binding-identity.ts] and the reading of the configuration.  A move ends with
      file and core at the new directory, back at the old one, or with an error that says
      truly where they are, but for a first update that the core rejects after its effect; an
      archive removes exactly the session's entries or puts them back; a creation whose change
      of the file fails is taken back, one that cannot read the file leaves the session.
    - [MutationQueue]: the queue of [service-app.ts], for any operations: they work one at a
      time in order, and an error does not block those behind.
    - [CrewQueue]: the three requests of [CrewSessions] behind the queue: the file has one
      entry at most for a session, and one for every session that is not archived unless one
      of the mishaps it lists has happened.
    - [ToolExecution], [BrainHost], [BrainHostFacts]: [tool-execution-host.ts] and
      [buffered-brain-host.ts].  A run over boundedly many drains ends; requests for tools are
      answered in order and none twice, debug records agree with the answers and the run is
      cancelled at most once, whatever the services answer.  A run that returns has answered
      every request and handed on every event; one that throws had a reason.
    - [Curator]: the memory and file stores, the governance requests and the rollback of
      [curator-mutations.ts].  A refused request changes nothing, any other has exactly
      its effect: one about a candidate was accepted by the planner and changes that candidate
      alone, a scan files its batch; the state file always
      reads back as the store after the last operation that returned.
    - [CuratorNative]: the native store and the snapshots of skill files of
      [curator-mutations.ts].  A persist that returns leaves nothing to send; a mutation
      read back after a restart has the same rollback.
    - [StaticSite]: [static-site-routes.ts] and [host-shell-routes.ts] of
      [service-host].  Only existing files below the site directory are served.
    - [CuratorLifecycle]: [curator-lifecycle.ts].  A pass tells the planner of each candidate what
      is known of it, makes of it what the plan says, and reports exactly that.

    ** Conventions

    Definitions carry the names of the source.  Pure functions are functions; methods
    take the object's state and return it changed; a method that can throw returns a
    [result].  Clock readings, random bytes, SHA-256, [localeCompare],
    [JSON.parse], compiled schemas, [Date.parse] beyond ISO texts, the file system, sockets, launchers, planners and
    dispatchers are arguments or classes with named laws, and each property that uses
    such laws has a witness at a concrete instance.  Numbers are integers where the code
    only stores whole ones; the one product with a fraction is rounded to 53 bits as
    doubles are.  Strings are sequences of 8-bit code units.

    ** Loops and fuel

    Loops over an index, a list or a map recurse on it.  Four loops of the source have
    no structural bound and carry fuel: [Cron.search] gets one unit per minute of its
    window and two more, [Cron.addRange] one per number of its range,
    [MidTurnDelta.enforceCap_loop] one per entry and one more,
    [PatchTool.allIndices_loop] one per code unit and two more; each is proved to
    return with that fuel, and [PatchTool] shows the one input for which no fuel is
    enough because the source does not terminate.  Code of [AsyncCalls] that runs out of its
    fuel is [Endless]: [ensures] holds of no such code, so that a claim made with it
    includes termination ([ConstrainedFiles.write_rest] has one unit per byte;
    [BrainHost.drain_run] one per drain that does not end the native run, and one more).  The drain of
    a wake's events makes at most 512 rounds, which is the source's own limit; the loops
    over pages of turns carry the number of pages the source allows.  The parser of [JsonParse] gets twice
    the length of its text and one more, proved enough for every text that
    [JSON.stringify] writes.

    ** Behaviour that is not what the code means to do

    The files state these as examples: a browser process lost when a close overtakes a
    launch, references of a closed page that resolve in its successor, a console ring
    of size zero that keeps everything ([BrowserSession]); a search for white space that
    never returns, overlapping replacements, trimmed lines outside an edit, dashed
    removals ([PatchTool]); a latest-of-wake entry removed with an older record
    ([ProviderDebug]); image values that keep secret members and a finish that throws
    half done ([ToolCallDebug]); parameters of notifications that never reach an event
    ([CodexEvents]); a link inside a link that survives in evidence ([CodexText]); a
    driver that becomes ready on a transport that is gone or was closed, and one that is
    declared incompatible because a reply could not be sent ([CodexDriverFacts]); a scan
    that makes archived candidates active ([Curator]); a store that writes the time of its
    loading ([CuratorNative]); hidden files of the site behind an encoded slash
    ([StaticSite]); a connection opened after a stop, an operator's answer that is lost, one
    runtime that keeps the others from being served ([ExternalRuntime]); a message steered
    twice by overlapping calls, one that was steered and is reported as expired
    ([SteerScenario]); a turn whose end comes before its id, and one that waits for ever
    after an expired interaction ([TurnScenario]); two brains of one session when the chat
    log fails, and an activity left open when it fails twice ([WakeScenario]); repeated
    words lost from a summary ([WakeChat]); a failed compaction that enters the context
    ([CompactionArtifact]); an archive that is announced and then refused, one that cannot be
    completed, and an update of the core that fails after its effect ([CrewSessionsFacts]); a
    native run that is left behind when its host fails ([BrainHostFacts]).

    ** Not modelled, and why

    The launcher of Chromium, the websocket transport of Codex and the tools' network calls
    are behind the interfaces above, and so are the planners of the Rust core and the skill
    tool: they are input and output without decisions of their own.  The service
    application, the HTTP and roleplay routes and the adapters of channels wire these parts
    to requests; the hosts of single model providers assemble the input of a run.  Profile and model
    administration, coordination tools and the background loops mostly validate and forward
    to the native bridge.  Generated code, the bridge, rendering and the Rust crates are
    left out for good. *)

From Stdlib Require Export ZArith Lia Ascii.
From stdpp Require Export base tactics option pretty strings list.

(** ** JavaScript control effects: a value or a thrown error message *)

Inductive result (A : Type) : Type :=
| Ok (a : A)
| Throw (message : string).
Arguments Ok {A} a.
Arguments Throw {A} message.

#[global] Instance result_ret : MRet result := fun A => @Ok A.
#[global] Instance result_bind : MBind result := fun A B f m =>
  match m with
  | Ok a => f a
  | Throw e => Throw e
  end.
#[global] Instance result_fmap : FMap result := fun A B f m =>
  match m with
  | Ok a => Ok (f a)
  | Throw e => Throw e
  end.

Lemma ok_bind {A B} (a : A) (f : A → result B) : (Ok a ≫= f) = f a.
Proof. reflexivity. Qed.

Lemma bind_Ok {A B} (m : result A) (f : A → result B) b :
  m ≫= f = Ok b ↔ ∃ a, m = Ok a ∧ f a = Ok b.
Proof. destruct m as [a|e]; cbn; naive_solver. Qed.

Lemma bind_Throw {A B} (m : result A) (f : A → result B) e :
  m ≫= f = Throw e ↔ m = Throw e ∨ ∃ a, m = Ok a ∧ f a = Throw e.
Proof. destruct m as [a|e']; cbn; naive_solver. Qed.

(** [for (const x of xs) acc = step(acc, x)] where a step may throw. *)
Fixpoint foldM {A B} (step : B → A → result B) (acc : B) (xs : list A) : result B :=
  match xs with
  | [] => Ok acc
  | x :: xs' => acc' ← step acc x; foldM step acc' xs'
  end.

(** [xs.map(f)] where [f] may throw. *)
Fixpoint mapR {A B} (f : A → result B) (xs : list A) : result (list B) :=
  match xs with
  | [] => Ok []
  | x :: xs' => y ← f x; ys ← mapR f xs'; Ok (y :: ys)
  end.

Lemma mapR_Forall2 {A B} (f : A → result B) xs ys :
  mapR f xs = Ok ys ↔ Forall2 (λ x y, f x = Ok y) xs ys.
Proof.
  revert ys; induction xs as [|x xs IH]; intros ys; cbn.
  - split; [by intros [= <-]|by inversion 1].
  - rewrite bind_Ok; setoid_rewrite bind_Ok; split.
    + intros (y & Hy & ys' & Hys' & [= <-]); constructor; [done|by apply IH].
    + inversion 1; subst; eexists; split; [done|].
      eexists; split; [by apply IH|done].
Qed.

Lemma Forall_filter {A} (P Q : A → Prop) `{!∀ x, Decision (Q x)} (l : list A) :
  Forall P l → Forall P (filter Q l).
Proof.
  rewrite !Forall_forall; intros Hall x [_ Hx]%list_elem_of_filter; auto.
Qed.

(** [a ?? b] on optional values *)
Definition or_else {A} (a b : option A) : option A :=
  match a with Some _ => a | None => b end.

Lemma elem_of_List_filter {A} (p : A → bool) (l : list A) x :
  x ∈ List.filter p l ↔ x ∈ l ∧ p x = true.
Proof. by rewrite list_elem_of_In, filter_In, list_elem_of_In. Qed.

Lemma List_filter_fmap {A B} (f : A → B) (p : B → bool) (l : list A) :
  List.filter p (f <$> l) = f <$> List.filter (λ x, p (f x)) l.
Proof.
  induction l as [|x l IH]; [done|]; rewrite fmap_cons; cbn [List.filter].
  destruct (p (f x)); [rewrite fmap_cons; by f_equal|done].
Qed.

Lemma List_filter_ext_elem {A} (p q : A → bool) (l : list A) :
  (∀ x, x ∈ l → p x = q x) → List.filter p l = List.filter q l.
Proof. intros Hpq; apply filter_ext_in; intros x Hx; apply Hpq; by apply list_elem_of_In. Qed.

Lemma List_filter_all {A} (p : A → bool) (l : list A) :
  (∀ x, x ∈ l → p x = true) → List.filter p l = l.
Proof.
  induction l as [|x l IH]; intros Hp; simpl; [done|].
  rewrite Hp by left; f_equal; apply IH; intros; apply Hp; by right.
Qed.

Lemma Forall2_List_filter {A B} (R : A → B → Prop) (p : A → bool) (q : B → bool) l k :
  (∀ x y, x ∈ l → R x y → p x = q y) →
  Forall2 R l k → Forall2 R (List.filter p l) (List.filter q k).
Proof.
  intros Hpq Hl; induction Hl as [|x y l k HR Hl IH]; simpl; [constructor|].
  rewrite <- (Hpq x y) by (done || left).
  specialize (IH (λ x y Hx, Hpq x y (list_elem_of_further _ _ _ Hx))).
  destruct (p x); [by constructor|done].
Qed.

Lemma Forall2_elem_r {A B} (R : A → B → Prop) l k y :
  Forall2 R l k → y ∈ k → ∃ x, x ∈ l ∧ R x y.
Proof.
  intros Hl [i Hy]%list_elem_of_lookup.
  destruct (Forall2_lookup_r _ _ _ _ _ Hl Hy) as (x & Hx & HR).
  exists x; split; [by eapply list_elem_of_lookup_2|done].
Qed.

(** ** JavaScript [Map]: entries in insertion order *)

Abbreviation jsmap K V := (list (K * V)).

Section jsmap.
Context {K : Type} `{!EqDecision K} {V : Type}.
Implicit Types (m : jsmap K V) (k : K) (v : V).

Fixpoint map_get k m : option V :=
  match m with
  | [] => None
  | (k', v) :: m' => if decide (k = k') then Some v else map_get k m'
  end.

(** Setting a present key keeps its position; a new key goes to the end. *)
Fixpoint map_set k v m : jsmap K V :=
  match m with
  | [] => [(k, v)]
  | (k', v') :: m' =>
      if decide (k = k') then (k, v) :: m' else (k', v') :: map_set k v m'
  end.

Fixpoint map_delete k m : jsmap K V :=
  match m with
  | [] => []
  | (k', v') :: m' =>
      if decide (k = k') then map_delete k m' else (k', v') :: map_delete k m'
  end.

Definition map_has k m : bool :=
  match map_get k m with Some _ => true | None => false end.
Definition map_keys m : list K := m.*1.
Definition map_values m : list V := m.*2.

(** [new Map(entries)] *)
Definition map_of_entries (l : list (K * V)) : jsmap K V :=
  fold_left (λ m '(k, v), map_set k v m) l [].

(** The invariant every JavaScript map has. *)
Definition map_wf m : Prop := NoDup (map_keys m).

Lemma map_get_set_eq k v m : map_get k (map_set k v m) = Some v.
Proof. induction m as [|[k' v'] m IH]; cbn; repeat (case_decide; cbn); naive_solver. Qed.

Lemma map_get_set_ne k k' v m : k ≠ k' → map_get k' (map_set k v m) = map_get k' m.
Proof.
  intros; induction m as [|[k1 v1] m IH]; cbn; repeat (case_decide; cbn); naive_solver.
Qed.

Lemma map_get_delete_eq k m : map_get k (map_delete k m) = None.
Proof. induction m as [|[k' v'] m IH]; cbn; repeat (case_decide; cbn); naive_solver. Qed.

Lemma map_get_delete_ne k k' m : k ≠ k' → map_get k' (map_delete k m) = map_get k' m.
Proof.
  intros; induction m as [|[k1 v1] m IH]; cbn; repeat (case_decide; cbn); naive_solver.
Qed.

Lemma map_get_elem k v m : map_get k m = Some v → (k, v) ∈ m.
Proof.
  induction m as [|[k' v'] m IH]; cbn; [done|].
  case_decide; intros ?; simplify_eq; [left|right; auto].
Qed.

Lemma map_get_None k m : map_get k m = None ↔ k ∉ map_keys m.
Proof.
  induction m as [|[k' v'] m IH]; cbn; [split; [intros _; by apply not_elem_of_nil|done]|].
  rewrite not_elem_of_cons; case_decide; naive_solver.
Qed.

Lemma map_get_wf k v m : map_wf m → (k, v) ∈ m → map_get k m = Some v.
Proof.
  unfold map_wf; induction m as [|[k' v'] m IH]; cbn; [by intros _ ?%not_elem_of_nil|].
  rewrite NoDup_cons; intros [Hk Hm] [[= -> ->]|Hin]%elem_of_cons.
  - by rewrite decide_True.
  - case_decide; subst; [|by auto].
    exfalso; apply Hk, list_elem_of_fmap; by exists (k', v).
Qed.

Lemma map_keys_set k v m k' : k' ∈ map_keys (map_set k v m) ↔ k' = k ∨ k' ∈ map_keys m.
Proof.
  induction m as [|[k1 v1] m IH]; cbn.
  - rewrite elem_of_cons. naive_solver.
  - case_decide; cbn; rewrite !elem_of_cons; [naive_solver|].
    rewrite IH; naive_solver.
Qed.

Lemma map_set_wf k v m : map_wf m → map_wf (map_set k v m).
Proof.
  unfold map_wf; induction m as [|[k1 v1] m IH]; cbn; intros Hm.
  - apply NoDup_singleton.
  - apply NoDup_cons in Hm as [H1 Hm]; case_decide; cbn; apply NoDup_cons.
    + by subst.
    + split; [|auto]. by rewrite map_keys_set; intros [->|].
Qed.

Lemma map_keys_delete k m : map_keys (map_delete k m) = filter (λ k', k' ≠ k) (map_keys m).
Proof.
  induction m as [|[k1 v1] m IH]; [done|]; simpl.
  rewrite filter_cons; repeat case_decide; simpl; naive_solver congruence.
Qed.

Lemma map_delete_wf k m : map_wf m → map_wf (map_delete k m).
Proof. unfold map_wf; intros; rewrite map_keys_delete; by apply NoDup_filter. Qed.

Lemma map_delete_notin k m : map_get k m = None → map_delete k m = m.
Proof.
  induction m as [|[k1 v1] m IH]; cbn; [done|].
  case_decide; [done|]; intros; f_equal; auto.
Qed.

Lemma map_delete_elem k k' v m : (k', v) ∈ map_delete k m ↔ k' ≠ k ∧ (k', v) ∈ m.
Proof.
  induction m as [|[k1 v1] m IH]; cbn; [rewrite elem_of_nil; naive_solver|].
  case_decide; subst; rewrite ?elem_of_cons, ?IH; naive_solver congruence.
Qed.

Lemma map_get_is_Some k m : k ∈ map_keys m ↔ is_Some (map_get k m).
Proof.
  rewrite <- not_eq_None_Some, map_get_None; split; [naive_solver|].
  intros Hn; destruct (decide (k ∈ map_keys m)); [done|naive_solver].
Qed.

Lemma map_set_length k v m :
  length (map_set k v m) = if map_has k m then length m else S (length m).
Proof.
  unfold map_has; induction m as [|[k1 v1] m IH]; cbn; [done|].
  case_decide; cbn; [done|]. rewrite IH; by destruct (map_get k m).
Qed.

Lemma map_set_absent k v m : map_get k m = None → map_set k v m = m ++ [(k, v)].
Proof.
  induction m as [|[k1 v1] m IH]; cbn; [done|].
  case_decide; [done|]; intros; f_equal; auto.
Qed.

Lemma map_keys_app m1 m2 : map_keys (m1 ++ m2) = map_keys m1 ++ map_keys m2.
Proof. apply fmap_app. Qed.

Lemma map_wf_snoc k v m : map_wf m → map_get k m = None → map_wf (m ++ [(k, v)]).
Proof. intros ? Hk; rewrite <- (map_set_absent _ _ _ Hk); by apply map_set_wf. Qed.

Lemma fold_map_set_wf l m :
  map_wf (m ++ l) → fold_left (λ m '(k, v), map_set k v m) l m = m ++ l.
Proof.
  revert m; induction l as [|[k v] l IH]; intros m Hwf; cbn; [by rewrite app_nil_r|].
  assert (map_get k m = None) as Hk.
  { apply map_get_None; unfold map_wf in Hwf; rewrite map_keys_app, NoDup_app in Hwf.
    intros Hin; apply (proj1 (proj2 Hwf) k Hin); left. }
  rewrite map_set_absent, IH, <- app_assoc by (by rewrite <- ?app_assoc). done.
Qed.

Lemma map_of_entries_wf l : map_wf l → map_of_entries l = l.
Proof. apply (fold_map_set_wf l []). Qed.

Lemma map_set_elem k v m p : p ∈ map_set k v m → p = (k, v) ∨ p ∈ m.
Proof.
  induction m as [|[k1 v1] m IH]; cbn; [by rewrite list_elem_of_singleton; auto|].
  case_decide; rewrite !elem_of_cons; naive_solver.
Qed.

Lemma map_of_entries_elem l p : p ∈ map_of_entries l → p ∈ l.
Proof.
  unfold map_of_entries; enough (∀ m, p ∈ fold_left (λ m '(k, v), map_set k v m) l m →
    p ∈ m ∨ p ∈ l) as Hm by (intros [?%not_elem_of_nil|]%Hm; done).
  induction l as [|[k v] l IH]; intros m; cbn; [auto|].
  rewrite elem_of_cons; intros [[->|]%map_set_elem|]%IH; auto.
Qed.

Lemma map_wf_middle m1 m2 k v : map_wf (m1 ++ (k, v) :: m2) → map_wf (m1 ++ m2).
Proof.
  unfold map_wf; rewrite !map_keys_app, !NoDup_app; simpl; rewrite NoDup_cons.
  intros (? & Hd & ? & ?); split_and!; [done| |done].
  intros x Hx Hx'; apply (Hd x Hx); by right.
Qed.

Lemma map_delete_app k m1 m2 : map_delete k (m1 ++ m2) = map_delete k m1 ++ map_delete k m2.
Proof. induction m1 as [|[k1 v1] m1 IH]; cbn; [done|]. case_decide; [done|]; cbn; by f_equal. Qed.

Lemma map_delete_middle m1 m2 k v :
  map_wf (m1 ++ (k, v) :: m2) → map_delete k (m1 ++ (k, v) :: m2) = m1 ++ m2.
Proof.
  unfold map_wf; rewrite map_keys_app, NoDup_app; simpl; rewrite NoDup_cons.
  intros (_ & Hd & Hk & _); rewrite map_delete_app; cbn; rewrite decide_True by done.
  rewrite !map_delete_notin; [done|by apply map_get_None|].
  apply map_get_None; intros Hin; apply (Hd k Hin); left.
Qed.

Lemma map_of_entries_keys l k : k ∈ map_keys (map_of_entries l) ↔ k ∈ l.*1.
Proof.
  unfold map_of_entries; enough (∀ m, k ∈ map_keys (fold_left (λ m '(k, v), map_set k v m) l m)
    ↔ k ∈ map_keys m ∨ k ∈ l.*1) as Hm.
  { rewrite Hm; split; [intros [?%not_elem_of_nil|]; done|auto]. }
  induction l as [|[k' v] l IH]; intros m; cbn.
  - rewrite elem_of_nil; naive_solver.
  - rewrite IH, map_keys_set, elem_of_cons; naive_solver.
Qed.

Lemma map_has_true k m : map_has k m = true ↔ k ∈ map_keys m.
Proof. rewrite map_get_is_Some; unfold map_has; destruct (map_get k m); naive_solver. Qed.

Lemma map_get_app k m1 m2 :
  map_get k (m1 ++ m2) = or_else (map_get k m1) (map_get k m2).
Proof. induction m1 as [|[k1 v1] m1 IH]; cbn; [done|]. by case_decide. Qed.
End jsmap.

(** ** JavaScript [Set]: distinct values in insertion order *)

Section jsset.
Context {A : Type} `{!EqDecision A}.
Implicit Types (s : list A) (x : A).

Definition set_has x s : bool := bool_decide (x ∈ s).
Definition set_add x s : list A := if decide (x ∈ s) then s else s ++ [x].
Definition set_delete x s : list A := filter (λ y, y ≠ x) s.
(** [new Set(l)] *)
Definition set_of_list (l : list A) : list A := fold_left (λ s x, set_add x s) l [].

Lemma elem_of_set_add x y s : y ∈ set_add x s ↔ y = x ∨ y ∈ s.
Proof.
  unfold set_add; case_decide; [naive_solver|].
  rewrite elem_of_app, list_elem_of_singleton; naive_solver.
Qed.

Lemma set_add_NoDup x s : NoDup s → NoDup (set_add x s).
Proof.
  unfold set_add; case_decide; [done|]; intros; apply NoDup_app; split_and!; [done| |].
  - by intros y Hy ->%list_elem_of_singleton.
  - apply NoDup_singleton.
Qed.

Lemma fold_set_add l s x :
  x ∈ fold_left (λ s x, set_add x s) l s ↔ x ∈ s ∨ x ∈ l.
Proof.
  revert s; induction l as [|y l IH]; intros s; cbn.
  - rewrite elem_of_nil; naive_solver.
  - rewrite IH, elem_of_set_add, elem_of_cons; naive_solver.
Qed.

Lemma elem_of_set_of_list l x : x ∈ set_of_list l ↔ x ∈ l.
Proof. unfold set_of_list; rewrite fold_set_add, elem_of_nil; naive_solver. Qed.

Lemma set_of_list_NoDup l : NoDup (set_of_list l).
Proof.
  unfold set_of_list; enough (∀ s, NoDup s → NoDup (fold_left (λ s x, set_add x s) l s)) as H
    by (apply H; constructor).
  induction l as [|x l IH]; intros s Hs; [done|]; by apply IH, set_add_NoDup.
Qed.

Lemma elem_of_set_delete x y s : y ∈ set_delete x s ↔ y ≠ x ∧ y ∈ s.
Proof. unfold set_delete; by rewrite list_elem_of_filter. Qed.

Lemma set_has_true x s : set_has x s = true ↔ x ∈ s.
Proof. unfold set_has; apply bool_decide_eq_true. Qed.

Lemma set_has_false x s : set_has x s = false ↔ x ∉ s.
Proof. unfold set_has; apply bool_decide_eq_false. Qed.
End jsset.

(** ** [Array.prototype.sort] with a comparator: stable insertion *)

Section sorting.
Context {A : Type} (cmp : A → A → comparison).

Fixpoint insert_sorted (x : A) (l : list A) : list A :=
  match l with
  | [] => [x]
  | y :: l' => match cmp x y with Gt => y :: insert_sorted x l' | _ => x :: l end
  end.
Definition sort_by (l : list A) : list A := foldr insert_sorted [] l.

Lemma insert_sorted_perm x l : insert_sorted x l ≡ₚ x :: l.
Proof.
  induction l as [|y l IH]; simpl; [done|]. destruct (cmp x y); [done|done|].
  rewrite IH; apply perm_swap.
Qed.

Lemma sort_by_perm l : sort_by l ≡ₚ l.
Proof. induction l as [|x l IH]; simpl; [done|]. by rewrite insert_sorted_perm, IH. Qed.
End sorting.

(** ** Truthiness of optional strings: [undefined] and the empty string are falsy *)

Definition truthy (s : option string) : bool :=
  match s with Some s => negb (String.eqb s EmptyString) | None => false end.


Lemma fold_set_delete {A} `{!EqDecision A} (l s : list A) x :
  x ∈ fold_left (λ s n, set_delete n s) l s ↔ x ∈ s ∧ x ∉ l.
Proof.
  revert s; induction l as [|y l IH]; intros s; simpl.
  - rewrite elem_of_nil; naive_solver.
  - rewrite IH, elem_of_set_delete, elem_of_cons; naive_solver.
Qed.

(** ** Notation and automation *)

Declare Scope js_scope.
Delimit Scope js_scope with js.
(** JavaScript's [a ?? b] on a value that may be undefined *)
Notation "a ⁇ b" := (default b a) (at level 55, right associativity) : js_scope.

Create HintDb js.
#[export] Hint Resolve map_set_wf map_delete_wf map_get_elem map_get_wf : js.

(** Reads through writes of the same or of another key. *)
Ltac simplify_map :=
  repeat first
    [ rewrite map_get_set_eq in * | rewrite map_get_delete_eq in *
    | rewrite map_get_set_ne in * by congruence | rewrite map_get_delete_ne in * by congruence ].

(** Splits on a key equal to the one written or not. *)
Ltac by_key k k' := destruct (decide (k = k')) as [->|?]; simplify_map.
