(* ===== verification/JsString.v ===== *)
(** * JavaScript strings

    The String.prototype operations the modelled sources call, over the code
    units U+0000..U+00FF ([ascii] is an eight-bit code unit).  Lengths, offsets
    and slices count code units as JavaScript does; an offset [-1] is [None].
    The white space of [trim] and of the regular expression class [\s] is, on
    these code units: tab, line feed, vertical tab, form feed, carriage return,
    space and U+00A0. *)

From S2P Require Import Prelude.

(** Text is a list of code units; [chars] and [str] convert to and from the
    [string] type that names and identifiers use. *)
Abbreviation text := (list ascii).
Definition chars (s : string) : text := String.list_ascii_of_string s.
Definition str (t : text) : string := String.string_of_list_ascii t.

Lemma str_chars s : str (chars s) = s.
Proof. apply String.string_of_list_ascii_of_string. Qed.
Lemma chars_str t : chars (str t) = t.
Proof. apply String.list_ascii_of_string_of_list_ascii. Qed.
Lemma chars_inj s1 s2 : chars s1 = chars s2 → s1 = s2.
Proof. intros E; rewrite <- (str_chars s1), <- (str_chars s2); congruence. Qed.
Lemma chars_app s1 s2 : chars (s1 +:+ s2) = chars s1 ++ chars s2.
Proof. induction s1 as [|c s1 IH]; simpl; [done|]. unfold chars in *; simpl. by rewrite IH. Qed.

Lemma length_chars s : length (chars s) = String.length s.
Proof. induction s as [|c s IH]; [done|]; simpl; by f_equal. Qed.

Definition code (c : ascii) : N := Ascii.N_of_ascii c.

Definition is_ws (c : ascii) : bool :=
  let n := code c in
  ((9 <=? n) && (n <=? 13) || (n =? 32) || (n =? 160))%N.
Definition is_digit (c : ascii) : bool :=
  let n := code c in ((48 <=? n) && (n <=? 57))%N.
Definition is_lower (c : ascii) : bool :=
  let n := code c in ((97 <=? n) && (n <=? 122))%N.
Definition is_upper (c : ascii) : bool :=
  let n := code c in ((65 <=? n) && (n <=? 90))%N.

(** [toLowerCase] on one code unit: ASCII letters and U+00C0..U+00DE but U+00D7. *)
Definition lower_char (c : ascii) : ascii :=
  let n := code c in
  if (is_upper c || ((192 <=? n) && (n <=? 222) && negb (n =? 215)))%N
  then Ascii.ascii_of_N (n + 32) else c.

Module Text.
(** ** Trimming *)
Fixpoint drop_ws (t : text) : text :=
  match t with
  | c :: t' => if is_ws c then drop_ws t' else t
  | [] => []
  end.
Definition trimStart (t : text) : text := drop_ws t.
Definition trimEnd (t : text) : text := reverse (drop_ws (reverse t)).
Definition trim (t : text) : text := trimEnd (trimStart t).
Definition toLowerCase (t : text) : text := lower_char <$> t.

(** ** Searching *)
Fixpoint startsWith (p t : text) : bool :=
  match p, t with
  | [], _ => true
  | a :: p', b :: t' => bool_decide (a = b) && startsWith p' t'
  | _, [] => false
  end.

(** The least offset of [needle] at or after the head of [t], counted from [k]. *)
Fixpoint find_from (needle t : text) (k : nat) : option nat :=
  if startsWith needle t then Some k
  else match t with
       | [] => None
       | _ :: t' => find_from needle t' (S k)
       end.

(** [t.indexOf(needle, from)]: [from] is clamped to the length. *)
Definition indexOf (t needle : text) (from : nat) : option nat :=
  let k := Nat.min from (length t) in find_from needle (drop k t) k.
Definition includes (t needle : text) : bool :=
  match indexOf t needle 0 with Some _ => true | None => false end.
Definition endsWith (t p : text) : bool := startsWith (reverse p) (reverse t).

(** [t.slice(i, j)] for [0 <= i] *)
Definition slice (t : text) (i j : nat) : text := take (j - i) (drop i t).
Definition slice_from (t : text) (i : nat) : text := drop i t.

(** ** Splitting and joining *)
Fixpoint split_go (c : ascii) (t cur : text) : list text :=
  match t with
  | [] => [reverse cur]
  | a :: t' =>
      if decide (a = c) then reverse cur :: split_go c t' []
      else split_go c t' (a :: cur)
  end.
(** [t.split(c)] for a separator of one code unit *)
Definition split (c : ascii) (t : text) : list text := split_go c t [].

Fixpoint split_ws_go (t cur : text) (in_gap : bool) : list text :=
  match t with
  | [] => [reverse cur]
  | a :: t' =>
      if is_ws a then
        if in_gap then split_ws_go t' [] true
        else reverse cur :: split_ws_go t' [] true
      else split_ws_go t' (a :: cur) false
  end.
(** [t.split(/\s+/)]: a leading gap gives a leading empty piece. *)
Definition split_ws (t : text) : list text := split_ws_go t [] false.

Fixpoint join (sep : text) (ts : list text) : text :=
  match ts with
  | [] => []
  | [t] => t
  | t :: ts' => t ++ sep ++ join sep ts'
  end.

(** ** Decimal numerals: [/^\d+$/] and [Number] of such a string *)
Definition all_digits (t : text) : bool :=
  match t with [] => false | _ => forallb is_digit t end.
Definition digit_value (c : ascii) : Z := Z.of_N (code c) - 48.
Definition number (t : text) : Z := fold_left (λ n c, 10 * n + digit_value c)%Z t 0%Z.

(** ** Facts *)
Lemma startsWith_spec p t : startsWith p t = true ↔ ∃ r, t = p ++ r.
Proof.
  revert t; induction p as [|a p IH]; intros t; simpl; [by split; eauto|].
  destruct t as [|b t]; [naive_solver|].
  rewrite andb_true_iff, bool_decide_eq_true, IH; naive_solver.
Qed.

Lemma startsWith_drop p t : startsWith p t = true → t = p ++ drop (length p) t.
Proof. intros [r ->]%startsWith_spec. by rewrite drop_app_length. Qed.

Definition occurs_at (needle t : text) (i : nat) : Prop :=
  startsWith needle (drop i t) = true.

Lemma find_from_Some needle t k i :
  find_from needle t k = Some i →
  k ≤ i ≤ k + length t ∧ occurs_at needle t (i - k) ∧
  ∀ j, k ≤ j < i → ¬ occurs_at needle t (j - k).
Proof.
  revert k; induction t as [|c t IH]; intros k; simpl; case_match eqn:E; intros ?; simplify_eq.
  1,2: unfold occurs_at; rewrite Nat.sub_diag; split_and!; simpl; auto; lia.
  apply IH in H as ([Hk Hi] & Ho & Hmin); split_and!; [lia|lia| |].
  - unfold occurs_at in *. by replace (i - k) with (S (i - S k)) by lia.
  - intros j [Hj1 Hj2] Ho'. destruct (decide (j = k)) as [->|].
    + unfold occurs_at in Ho'. rewrite Nat.sub_diag in Ho'. simpl in Ho'. congruence.
    + apply (Hmin j); [lia|]. unfold occurs_at in *.
      by replace (j - k) with (S (j - S k)) in Ho' by lia.
Qed.

Lemma find_from_None needle t k i :
  find_from needle t k = None → i ≤ length t → ¬ occurs_at needle t i.
Proof.
  revert k i; induction t as [|c t IH]; intros k i; simpl; case_match eqn:E; try done.
  - intros _ ?; destruct i; [|lia]. unfold occurs_at; simpl; congruence.
  - intros Hf Hi. destruct i; [unfold occurs_at; simpl; congruence|].
    unfold occurs_at; simpl. apply (IH (S k)); [done|lia].
Qed.

Lemma indexOf_Some t needle from i :
  from ≤ length t →
  indexOf t needle from = Some i →
  from ≤ i ≤ length t ∧ occurs_at needle t i ∧
  ∀ j, from ≤ j < i → ¬ occurs_at needle t j.
Proof.
  unfold indexOf; intros Hle; rewrite Nat.min_l by done; intros Hf.
  apply find_from_Some in Hf as ([? Hlen] & Ho & Hmin).
  rewrite length_drop in Hlen. unfold occurs_at in *; split_and!; [lia|lia| |].
  - rewrite drop_drop in Ho. by replace i with (from + (i - from)) by lia.
  - intros j Hj Ho'. apply (Hmin j Hj). rewrite drop_drop.
    by replace (from + (j - from)) with j by lia.
Qed.

Lemma indexOf_None t needle from i :
  indexOf t needle from = None → from ≤ i ≤ length t → ¬ occurs_at needle t i.
Proof.
  unfold indexOf; intros Hf [H1 H2]. rewrite Nat.min_l in Hf by lia.
  pose proof (find_from_None _ _ _ (i - from) Hf) as Hn. unfold occurs_at in *.
  rewrite length_drop, drop_drop in Hn.
  replace (from + (i - from)) with i in Hn by lia. apply Hn; lia.
Qed.

Lemma occurs_at_length needle t i :
  occurs_at needle t i → needle ≠ [] → i + length needle ≤ length t.
Proof.
  unfold occurs_at; intros [r E]%startsWith_spec Hne.
  apply (f_equal length) in E. rewrite length_drop, length_app in E.
  destruct needle; [done|simpl in *; lia].
Qed.

Lemma find_from_char c t r k :
  c ∉ t → find_from [c] (t ++ c :: r) k = Some (k + length t).
Proof.
  revert k; induction t as [|a t IH]; intros k; cbn.
  - intros _; rewrite bool_decide_true by done; simpl; f_equal; lia.
  - rewrite not_elem_of_cons; intros [Ha Ht]; rewrite bool_decide_false by done.
    simpl; rewrite IH by done; f_equal; lia.
Qed.

Lemma indexOf_char c t r : c ∉ t → indexOf (t ++ c :: r) [c] 0 = Some (length t).
Proof. intros; unfold indexOf; simpl Nat.min; cbv zeta; rewrite drop_0. by rewrite find_from_char. Qed.

Lemma split_go_notin c t cur : c ∉ t → split_go c t cur = [reverse cur ++ t].
Proof.
  revert cur; induction t as [|a t IH]; intros cur; cbn [split_go]; [by rewrite app_nil_r|].
  rewrite not_elem_of_cons; intros [Ha Ht]; rewrite decide_False by done.
  rewrite IH, reverse_cons, <- app_assoc by done; done.
Qed.

Lemma split_go_sep c t r cur :
  c ∉ t → split_go c (t ++ c :: r) cur = (reverse cur ++ t) :: split c r.
Proof.
  revert cur; induction t as [|a t IH]; intros cur; cbn [split_go app].
  - intros _; by rewrite decide_True, app_nil_r.
  - rewrite not_elem_of_cons; intros [Ha Ht]; rewrite decide_False by done.
    rewrite IH, reverse_cons, <- app_assoc by done; done.
Qed.

Lemma split_one c t : c ∉ t → split c t = [t].
Proof. intros; unfold split; by rewrite split_go_notin. Qed.

Lemma split_two c t r : c ∉ t → split c (t ++ c :: r) = t :: split c r.
Proof. intros; unfold split at 1; by rewrite split_go_sep. Qed.

(** Splitting undoes joining pieces that lack the separator ... *)
Lemma split_join c ts :
  ts ≠ [] → Forall (λ t, c ∉ t) ts → split c (join [c] ts) = ts.
Proof.
  induction ts as [|t [|t' ts] IH]; intros Hne Hf; [done| |].
  - cbn [join]; apply split_one; by inversion Hf.
  - inversion Hf; subst; cbn [join app].
    rewrite split_two by done; f_equal; apply IH; done.
Qed.

(** ... and joining undoes splitting. *)
Lemma split_go_nonempty c t cur : split_go c t cur ≠ [].
Proof. revert cur; induction t; intros cur; cbn [split_go]; [done|case_decide; naive_solver]. Qed.

Lemma join_cons c t ts : ts ≠ [] → join c (t :: ts) = t ++ c ++ join c ts.
Proof. by destruct ts. Qed.

Lemma join_split_go c t cur : join [c] (split_go c t cur) = reverse cur ++ t.
Proof.
  revert cur; induction t as [|a t IH]; intros cur; cbn [split_go].
  - by rewrite app_nil_r.
  - case_decide; subst.
    + rewrite join_cons by apply split_go_nonempty. by rewrite IH.
    + by rewrite IH, reverse_cons, <- app_assoc.
Qed.

Lemma join_split c t : join [c] (split c t) = t.
Proof. apply join_split_go. Qed.
End Text.

(** The same operations on [string], for the sources that treat short names. *)
Module Str.
Definition trim (s : string) : string := str (Text.trim (chars s)).
Definition toLowerCase (s : string) : string := str (Text.toLowerCase (chars s)).
Definition startsWith (s p : string) : bool := Text.startsWith (chars p) (chars s).
Definition endsWith (s p : string) : bool := Text.endsWith (chars s) (chars p).
Definition slice_from (s : string) (i : nat) : string := str (drop i (chars s)).
Definition slice (s : string) (i j : nat) : string := str (Text.slice (chars s) i j).
Definition split (c : ascii) (s : string) : list string := str <$> Text.split c (chars s).
Definition split_ws (s : string) : list string := str <$> Text.split_ws (chars s).
Definition join (sep : string) (l : list string) : string :=
  str (Text.join (chars sep) (chars <$> l)).
Definition length (s : string) : nat := String.length s.
End Str.
