(* ===== verification/JsDate.v ===== *)
(** * JavaScript dates

    A time value is a number of milliseconds since 1970-01-01T00:00:00Z; [None]
    is the invalid date (NaN).  The UTC getters, [setUTCSeconds],
    [setUTCMinutes], [TimeClip] and [toISOString] are written as ECMA-262
    defines them, the calendar by the days-to-civil computation of the proleptic
    Gregorian calendar.  [DateText] is what the components rely on about
    [Date.parse]: it reads back what [toISOString] prints; [iso_date_text] is an
    instance. *)

From S2P Require Import Prelude JsString.
Open Scope Z_scope.

Definition msPerMinute : Z := 60000.
Definition msPerHour : Z := 3600000.
Definition msPerDay : Z := 86400000.

(** A JavaScript [Date]: its time value, [None] when it is NaN. *)
Abbreviation date := (option Z).

Definition maxTime : Z := 8640000000000000.
Definition TimeClip (t : Z) : date := if Z.abs t <=? maxTime then Some t else None.

Definition Day (t : Z) : Z := t / msPerDay.
Definition TimeWithinDay (t : Z) : Z := t mod msPerDay.
Definition getUTCHours (t : Z) : Z := TimeWithinDay t / msPerHour.
Definition getUTCMinutes (t : Z) : Z := (TimeWithinDay t / msPerMinute) mod 60.
Definition getUTCSeconds (t : Z) : Z := (TimeWithinDay t / 1000) mod 60.
Definition getUTCMilliseconds (t : Z) : Z := TimeWithinDay t mod 1000.
Definition getUTCDay (t : Z) : Z := (Day t + 4) mod 7.

(** [MakeTime] and [MakeDate] *)
Definition MakeTime (h m s ms : Z) : Z := h * msPerHour + m * msPerMinute + s * 1000 + ms.
Definition MakeDate (day time : Z) : Z := day * msPerDay + time.

Definition setUTCSeconds (t s ms : Z) : date :=
  TimeClip (MakeDate (Day t) (MakeTime (getUTCHours t) (getUTCMinutes t) s ms)).
Definition setUTCMinutes (t m : Z) : date :=
  TimeClip (MakeDate (Day t)
    (MakeTime (getUTCHours t) m (getUTCSeconds t) (getUTCMilliseconds t))).

(** ** The calendar *)

Definition yoe_of_doe (doe : Z) : Z := (doe - doe / 1460 + doe / 36524 - doe / 146096) / 365.
Definition doy_of_doe (doe : Z) : Z :=
  let yoe := yoe_of_doe doe in doe - (365 * yoe + yoe / 4 - yoe / 100).

(** Year, month (1..12) and day of month of a day number. *)
Definition civil_of_day (day : Z) : Z * Z * Z :=
  let z := day + 719468 in
  let doe := z mod 146097 in
  let doy := doy_of_doe doe in
  let mp := (5 * doy + 2) / 153 in
  let d := doy - (153 * mp + 2) / 5 + 1 in
  let m := if mp <? 10 then mp + 3 else mp - 9 in
  let y := yoe_of_doe doe + z / 146097 * 400 + (if m <=? 2 then 1 else 0) in
  (y, m, d).

Definition day_of_civil (c : Z * Z * Z) : Z :=
  let '(y0, m, d) := c in
  let y := if m <=? 2 then y0 - 1 else y0 in
  let yoe := y mod 400 in
  let mp := if 2 <? m then m - 3 else m + 9 in
  let doy := (153 * mp + 2) / 5 + d - 1 in
  let doe := yoe * 365 + yoe / 4 - yoe / 100 + doy in
  y / 400 * 146097 + doe - 719468.

Definition getUTCFullYear (t : Z) : Z := (civil_of_day (Day t)).1.1.
Definition getUTCMonth (t : Z) : Z := (civil_of_day (Day t)).1.2 - 1.
Definition getUTCDate (t : Z) : Z := (civil_of_day (Day t)).2.

(** Number of days in a month of a year. *)
Definition leap (y : Z) : bool :=
  ((y mod 4 =? 0) && negb (y mod 100 =? 0)) || (y mod 400 =? 0).
Definition days_in_month (y m : Z) : Z :=
  if m =? 2 then (if leap y then 29 else 28)
  else if (m =? 4) || (m =? 6) || (m =? 9) || (m =? 11) then 30 else 31.

(** Evaluates the conditions of the goal's conditionals that are closed. *)
Ltac eval_ifs :=
  repeat match goal with
  | |- context [if ?b then _ else _] =>
      let r := eval vm_compute in b in
      first [constr_eq r true | constr_eq r false]; change b with r; cbv iota
  end.

(** Within an era of 146097 days: the year, the day of the year counted from
    March, and the leap years, which are those that have a day 365. *)
Lemma era_year doe :
  0 <= doe < 146097 → 0 <= yoe_of_doe doe < 400 ∧ 0 <= doy_of_doe doe <= 365.
Proof. unfold doy_of_doe, yoe_of_doe; intros; Z.to_euclidean_division_equations; lia. Qed.

Lemma era_leap doe :
  0 <= doe < 146097 → doy_of_doe doe = 365 → leap (yoe_of_doe doe + 1) = true.
Proof.
  intros Hd H; cut ((yoe_of_doe doe + 1) mod 4 = 0 ∧
    ((yoe_of_doe doe + 1) mod 100 ≠ 0 ∨ (yoe_of_doe doe + 1) mod 400 = 0)).
  { unfold leap; rewrite orb_true_iff, andb_true_iff, negb_true_iff, !Z.eqb_eq, Z.eqb_neq; tauto. }
  revert Hd H; unfold doy_of_doe, yoe_of_doe; intros; Z.to_euclidean_division_equations; lia.
Qed.

Lemma month_of_doy doy y (mp := (5 * doy + 2) / 153) :
  0 <= doy <= 365 → (doy = 365 → leap y = true) →
  0 <= mp < 12 ∧
  1 <= doy - (153 * mp + 2) / 5 + 1 <= days_in_month y (if mp <? 10 then mp + 3 else mp - 9).
Proof.
  intros H L.
  assert (Hd : 153 * mp <= 5 * doy + 2 < 153 * mp + 153)
    by (subst mp; Z.to_euclidean_division_equations; lia).
  clearbody mp. split; [lia|]. unfold days_in_month.
  assert (mp = 0 ∨ mp = 1 ∨ mp = 2 ∨ mp = 3 ∨ mp = 4 ∨ mp = 5 ∨ mp = 6 ∨ mp = 7 ∨ mp = 8
          ∨ mp = 9 ∨ mp = 10 ∨ mp = 11) as Hc by lia.
  assert (Hl : leap y = true ∨ leap y = false ∧ doy <= 364).
  { destruct (leap y) eqn:E; [by left|right; split; [done|]].
    destruct (decide (doy = 365)) as [->|]; [by specialize (L eq_refl)|lia]. }
  destruct Hl as [->|[-> ?]]; repeat destruct Hc as [->|Hc]; subst; eval_ifs;
    vm_compute Z.div; lia.
Qed.

Lemma days_in_month_era y e m : days_in_month (y + e * 400) m = days_in_month y m.
Proof.
  unfold days_in_month, leap.
  replace ((y + e * 400) mod 4) with (y mod 4) by (replace (e * 400) with (e * 100 * 4) by lia; by rewrite Z_mod_plus_full).
  replace ((y + e * 400) mod 100) with (y mod 100) by (replace (e * 400) with (e * 4 * 100) by lia; by rewrite Z_mod_plus_full).
  by rewrite Z_mod_plus_full.
Qed.

Lemma civil_of_day_valid day :
  let '(y, m, d) := civil_of_day day in 1 <= m <= 12 ∧ 1 <= d <= days_in_month y m.
Proof.
  unfold civil_of_day; set (z := day + 719468).
  pose proof (Z.mod_pos_bound z 146097 ltac:(lia)) as Hb.
  set (doe := z mod 146097) in *; set (mp := (5 * doy_of_doe doe + 2) / 153).
  set (m := if mp <? 10 then mp + 3 else mp - 9).
  destruct (era_year _ Hb) as [_ Hy].
  destruct (month_of_doy (doy_of_doe doe) (yoe_of_doe doe + (if m <=? 2 then 1 else 0)) Hy)
    as [Hm Hd].
  { intros E. replace (m <=? 2) with true; [by apply era_leap|].
    subst m mp; rewrite E; reflexivity. }
  fold mp in Hm, Hd; fold m in Hd.
  replace (yoe_of_doe doe + z / 146097 * 400 + (if m <=? 2 then 1 else 0))
    with (yoe_of_doe doe + (if m <=? 2 then 1 else 0) + z / 146097 * 400) by lia.
  rewrite days_in_month_era. split; [|done].
  subst m; destruct (Z.ltb_spec mp 10); lia.
Qed.

Lemma day_of_civil_of_day day : day_of_civil (civil_of_day day) = day.
Proof.
  unfold civil_of_day; set (z := day + 719468).
  pose proof (Z.mod_pos_bound z 146097 ltac:(lia)) as Hb.
  pose proof (Z.div_mod z 146097 ltac:(lia)) as Hz.
  set (doe := z mod 146097) in *; set (mp := (5 * doy_of_doe doe + 2) / 153).
  destruct (era_year _ Hb) as [Hyoe Hy].
  assert (Hm : 0 <= mp < 12) by (subst mp; Z.to_euclidean_division_equations; lia).
  set (m := if mp <? 10 then mp + 3 else mp - 9).
  unfold day_of_civil.
  assert (Hmp : (if 2 <? m then m - 3 else m + 9) = mp).
  { subst m; destruct (Z.ltb_spec mp 10); case_match eqn:E;
      rewrite ?Z.ltb_lt, ?Z.ltb_ge in E; lia. }
  rewrite Hmp.
  assert (Hyr : (if m <=? 2 then yoe_of_doe doe + z / 146097 * 400 + (if m <=? 2 then 1 else 0) - 1
                else yoe_of_doe doe + z / 146097 * 400 + (if m <=? 2 then 1 else 0))
               = yoe_of_doe doe + z / 146097 * 400) by (destruct (m <=? 2); lia).
  rewrite Hyr, Z_mod_plus_full, Z_div_plus by lia.
  rewrite (Z.mod_small (yoe_of_doe doe)) by lia; rewrite (Z.div_small (yoe_of_doe doe)) by lia.
  set (q := (153 * mp + 2) / 5). unfold doy_of_doe. lia.
Qed.

(** ** Time arithmetic the components use *)

Lemma time_fields t :
  t = MakeDate (Day t) (MakeTime (getUTCHours t) (getUTCMinutes t) (getUTCSeconds t)
                                 (getUTCMilliseconds t)).
Proof.
  unfold MakeDate, MakeTime, getUTCHours, getUTCMinutes, getUTCSeconds, getUTCMilliseconds.
  unfold Day, TimeWithinDay, msPerDay, msPerHour, msPerMinute.
  Z.to_euclidean_division_equations; lia.
Qed.

Lemma time_field_bounds t :
  0 <= getUTCHours t < 24 ∧ 0 <= getUTCMinutes t < 60 ∧
  0 <= getUTCSeconds t < 60 ∧ 0 <= getUTCMilliseconds t < 1000.
Proof.
  unfold getUTCHours, getUTCMinutes, getUTCSeconds, getUTCMilliseconds.
  unfold TimeWithinDay, msPerDay, msPerHour, msPerMinute.
  Z.to_euclidean_division_equations; lia.
Qed.

Lemma setUTCMinutes_succ t :
  setUTCMinutes t (getUTCMinutes t + 1) = TimeClip (t + msPerMinute).
Proof.
  unfold setUTCMinutes; f_equal. pose proof (time_fields t) as E.
  unfold MakeDate, MakeTime, msPerMinute, msPerHour, msPerDay in *. lia.
Qed.

Lemma setUTCSeconds_floor t :
  setUTCSeconds t 0 0 = TimeClip (t - t mod msPerMinute).
Proof.
  unfold setUTCSeconds; f_equal. unfold MakeDate, MakeTime, getUTCHours, getUTCMinutes.
  unfold Day, TimeWithinDay, msPerDay, msPerHour, msPerMinute.
  Z.to_euclidean_division_equations; lia.
Qed.

(** ** ISO text *)

Definition digit_char (n : Z) : ascii := Ascii.ascii_of_N (Z.to_N (48 + n)).

(** [n] in decimal, padded with zeros to a width *)
Fixpoint digits (w : nat) (n : Z) : text :=
  match w with
  | O => []
  | S w' => digits w' (n / 10) ++ [digit_char (n mod 10)]
  end.

Lemma digit_value_char n : 0 <= n < 10 → Text.digit_value (digit_char n) = n.
Proof.
  intros; unfold Text.digit_value, digit_char, code.
  rewrite Ascii.N_ascii_embedding by lia. lia.
Qed.

Lemma number_digits w n : 0 <= n < 10 ^ Z.of_nat w → Text.number (digits w n) = n.
Proof.
  unfold Text.number; revert n; induction w as [|w IH]; intros n Hn; cbn [digits].
  - cbn in *; lia.
  - rewrite fold_left_app; cbn [fold_left].
    rewrite Nat2Z.inj_succ, Z.pow_succ_r in Hn by lia.
    rewrite IH by (split; [apply Z.div_pos|apply Z.div_lt_upper_bound]; lia).
    rewrite digit_value_char by (apply Z.mod_pos_bound; lia).
    symmetry; apply Z.div_mod; lia.
Qed.

Lemma is_digit_char n : 0 <= n < 10 → is_digit (digit_char n) = true.
Proof.
  intros; unfold is_digit, digit_char, code.
  rewrite Ascii.N_ascii_embedding by lia.
  apply andb_true_iff; split; apply N.leb_le; lia.
Qed.

Lemma digits_all w n : Forall (λ c, is_digit c = true) (digits w n).
Proof.
  revert n; induction w as [|w IH]; intros n; cbn [digits]; [constructor|].
  apply Forall_app; split; [done|]. apply Forall_singleton, is_digit_char, Z.mod_pos_bound; lia.
Qed.

Lemma digits_length w n : length (digits w n) = w.
Proof. revert n; induction w; intros; cbn [digits]; [done|]. rewrite length_app; simpl; rewrite IHw; lia. Qed.

Lemma digits_notin c w n : is_digit c = false → c ∉ digits w n.
Proof. intros Hc Hin. pose proof (digits_all w n) as Hd. eapply Forall_forall in Hd; [|done]. congruence. Qed.

Lemma all_digits_digits w n : (0 < w)%nat → Text.all_digits (digits w n) = true.
Proof.
  intros; unfold Text.all_digits.
  destruct (digits w n) as [|c t] eqn:E; [apply (f_equal length) in E; rewrite digits_length in E; simpl in E; lia|].
  rewrite <- E. apply forallb_forall. intros x Hx%list_elem_of_In.
  pose proof (digits_all w n) as Hd. by eapply Forall_forall in Hd.
Qed.

Definition iso_year (y : Z) : text :=
  if (0 <=? y) && (y <=? 9999) then digits 4 y
  else (if y <? 0 then chars "-" else chars "+") ++ digits 6 (Z.abs y).

Definition iso_text (t : Z) : text :=
  iso_year (getUTCFullYear t) ++ chars "-" ++ digits 2 (getUTCMonth t + 1) ++ chars "-"
  ++ digits 2 (getUTCDate t) ++ chars "T" ++ digits 2 (getUTCHours t) ++ chars ":"
  ++ digits 2 (getUTCMinutes t) ++ chars ":" ++ digits 2 (getUTCSeconds t) ++ chars "."
  ++ digits 3 (getUTCMilliseconds t) ++ chars "Z".

(** [Date.prototype.toISOString]: a RangeError on an invalid date *)
Definition toISOString (d : date) : result string :=
  match d with
  | Some t => Ok (str (iso_text t))
  | None => Throw "Invalid time value"
  end.

(** Reading the format back *)
Definition iso_time (y : Z) (r : text) : Z :=
  let field i w := Text.number (take w (drop i r)) in
  MakeDate (day_of_civil (y, field 1%nat 2%nat, field 4%nat 2%nat))
           (MakeTime (field 7%nat 2%nat) (field 10%nat 2%nat) (field 13%nat 2%nat)
                     (field 16%nat 3%nat)).

Definition parse_iso (s : string) : date :=
  let c := chars s in
  let t :=
    match c with
    | "-"%char :: c' => iso_time (- Text.number (take 6 c')) (drop 6 c')
    | "+"%char :: c' => iso_time (Text.number (take 6 c')) (drop 6 c')
    | _ => iso_time (Text.number (take 4 c)) (drop 4 c)
    end in
  if decide (iso_text t = c) then TimeClip t else None.

Lemma year_bound t : Z.abs t <= maxTime → -300000 < getUTCFullYear t < 300000.
Proof.
  unfold getUTCFullYear, civil_of_day, maxTime; intros Ht; cbn [fst].
  set (z := Day t + 719468).
  pose proof (era_year _ (Z.mod_pos_bound z 146097 ltac:(lia))) as [Hy _].
  assert (-700 <= z / 146097 <= 700)
    by (subst z; unfold Day, msPerDay; Z.to_euclidean_division_equations; lia).
  case_match; lia.
Qed.

Definition iso_tail (t : Z) : text :=
  chars "-" ++ digits 2 (getUTCMonth t + 1) ++ chars "-"
  ++ digits 2 (getUTCDate t) ++ chars "T" ++ digits 2 (getUTCHours t) ++ chars ":"
  ++ digits 2 (getUTCMinutes t) ++ chars ":" ++ digits 2 (getUTCSeconds t) ++ chars "."
  ++ digits 3 (getUTCMilliseconds t) ++ chars "Z".

Lemma iso_time_tail t : iso_time (getUTCFullYear t) (iso_tail t) = t.
Proof.
  pose proof (time_field_bounds t) as (Hh & Hm & Hs & Hms).
  pose proof (civil_of_day_valid (Day t)) as Hc.
  unfold iso_time, iso_tail.
  set (mo := digits 2 (getUTCMonth t + 1)); set (da := digits 2 (getUTCDate t)).
  set (ho := digits 2 (getUTCHours t)); set (mi := digits 2 (getUTCMinutes t)).
  set (se := digits 2 (getUTCSeconds t)); set (ml := digits 3 (getUTCMilliseconds t)).
  change (day_of_civil (getUTCFullYear t, Text.number mo, Text.number da) * msPerDay
    + MakeTime (Text.number ho) (Text.number mi) (Text.number se) (Text.number ml) = t).
  subst mo da ho mi se ml; unfold getUTCMonth, getUTCDate, getUTCFullYear in *.
  destruct (civil_of_day (Day t)) as [[y m] d] eqn:E; cbn [fst snd] in *.
  assert (d < 100) by (destruct Hc; unfold days_in_month in *; repeat case_match; lia).
  rewrite !number_digits by (cbn; lia). rewrite Z.sub_add.
  rewrite <- E, day_of_civil_of_day. symmetry; apply time_fields.
Qed.

Lemma digit_char_not_sign n : 0 <= n < 10 → digit_char n ≠ "-"%char ∧ digit_char n ≠ "+"%char.
Proof.
  intros; split; intros E; apply (f_equal Text.digit_value) in E;
    rewrite digit_value_char in E by done; vm_compute in E; lia.
Qed.

Lemma parse_iso_text t : Z.abs t <= maxTime → parse_iso (str (iso_text t)) = Some t.
Proof.
  intros Ht; pose proof (year_bound t Ht) as Hy.
  unfold parse_iso; rewrite chars_str.
  match goal with |- context [iso_text ?x = _] => enough (x = t) as -> end.
  { rewrite decide_True by done. unfold TimeClip. by rewrite (proj2 (Z.leb_le _ _) Ht). }
  change (iso_text t) with (iso_year (getUTCFullYear t) ++ iso_tail t).
  unfold iso_year. set (y := getUTCFullYear t) in *.
  destruct ((0 <=? y) && (y <=? 9999)) eqn:E.
  - apply andb_true_iff in E as [E1%Z.leb_le E2%Z.leb_le].
    pose proof (number_digits 4 y ltac:(simpl Z.of_nat; lia)) as Hn.
    destruct (digits 4 y) as [|c1 [|c2 [|c3 [|c4 [|? ?]]]]] eqn:Ed; try discriminate Ed.
    assert (Hc : c1 ≠ "-"%char ∧ c1 ≠ "+"%char).
    { injection Ed as <- _ _ _. apply digit_char_not_sign, Z.mod_pos_bound; lia. }
    cbn [app]. replace (take 4 _) with [c1; c2; c3; c4] by done.
    replace (drop 4 _) with (iso_tail t) by done. rewrite Hn.
    destruct Hc; repeat case_match; simplify_eq; apply iso_time_tail.
  - pose proof (number_digits 6 (Z.abs y) ltac:(simpl Z.of_nat; lia)) as Hn.
    destruct (digits 6 (Z.abs y)) as [|c1 [|c2 [|c3 [|c4 [|c5 [|c6 [|? ?]]]]]]] eqn:Ed;
      try discriminate Ed.
    destruct (Z.ltb_spec y 0); cbn [app chars String.list_ascii_of_string].
    + change (iso_time (- Text.number [c1; c2; c3; c4; c5; c6]) (iso_tail t) = t).
      rewrite Hn. replace (- Z.abs y) with y by lia. apply iso_time_tail.
    + change (iso_time (Text.number [c1; c2; c3; c4; c5; c6]) (iso_tail t) = t).
      rewrite Hn. replace (Z.abs y) with y by lia. apply iso_time_tail.
Qed.

(** ** The interface *)

(** [Date.parse] as the components use it: a function that reads back what
    [toISOString] prints.  Other accepted formats are left open. *)
Class DateText := {
  date_parse : string → date;
  date_parse_iso t : Z.abs t <= maxTime → date_parse (str (iso_text t)) = Some t
}.

Definition iso_date_text : DateText :=
  {| date_parse := parse_iso; date_parse_iso := parse_iso_text |}.
