(* ===== verification/Cron.v ===== *)
(** * UTC cron expressions

    [ts/packages/brain-island/src/cron-expression.ts]: the five-field parser and
    the minute-by-minute search of [CronExpression.nextAfter].  A field is the
    set of numbers it stands for; [Number] of a digit string is exact here (a
    numeral beyond 2^53 is above every range bound and every range width, so its
    rounding changes nothing). *)

From S2P Require Import Prelude JsString JsDate.
Open Scope Z_scope.

(** ** Data *)

Record CronFieldRange := { min : Z; max : Z }.

Definition fieldRanges : list CronFieldRange :=
  [ {| min := 0; max := 59 |};
    {| min := 0; max := 23 |};
    {| min := 1; max := 31 |};
    {| min := 1; max := 12 |};
    {| min := 0; max := 6 |} ].

Record CronExpression := {
  expression : string;
  fields : list (list Z)
}.

(** ** Parsing *)

Definition parsePositiveOrZeroInt (raw : text) (label : string) : result Z :=
  if Text.all_digits raw then Ok (Text.number raw)
  else Throw ("invalid cron " +:+ label +:+ ": " +:+ str raw).

Definition parsePositiveInt (raw : text) (label : string) : result Z :=
  value ← parsePositiveOrZeroInt raw label;
  if value <=? 0
  then Throw ("cron " +:+ label +:+ " must be positive: " +:+ str raw)
  else Ok value.

Definition parseCronValue (raw : text) (range : CronFieldRange) : result Z :=
  value ← parsePositiveOrZeroInt raw "field";
  if (value <? min range) || (max range <? value)
  then Throw ("cron value out of range: " +:+ str raw)
  else Ok value.

Definition parseBase (raw : text) (range : CronFieldRange) : result (Z * Z) :=
  if decide (raw = chars "*") then Ok (min range, max range)
  else match Text.indexOf raw (chars "-") 0 with
       | Some dash =>
           start ← parseCronValue (Text.slice raw 0 dash) range;
           stop ← parseCronValue (Text.slice_from raw (dash + 1)) range;
           if stop <? start
           then Throw ("invalid descending range: " +:+ str raw)
           else Ok (start, stop)
       | None =>
           value ← parseCronValue raw range;
           Ok (value, value)
       end.

(** [for (let value = start; value <= end; value += step) values.add(value)];
    one unit of fuel per number between [value] and [stop] is enough. *)
Fixpoint addRange (fuel : nat) (value stop step : Z) (values : list Z) : list Z :=
  match fuel with
  | O => values
  | S fuel' =>
      if value <=? stop
      then addRange fuel' (value + step) stop step (set_add value values)
      else values
  end.

Definition addPart (values : list Z) (raw : text) (range : CronFieldRange) : result (list Z) :=
  let parts := Text.split "/" raw in
  let base := default [] (parts !! 0%nat) in
  match parts !! 2%nat with
  | Some _ => Throw ("invalid cron step expression: " +:+ str raw)
  | None =>
      step ← match parts !! 1%nat with
             | None => Ok 1
             | Some stepRaw => parsePositiveInt stepRaw "step"
             end;
      '(start, stop) ← parseBase base range;
      Ok (addRange (Z.to_nat (stop - start + 1)) start stop step values)
  end.

Definition parseField (raw : text) (range : CronFieldRange) : result (list Z) :=
  values ← foldM (λ values part, addPart values part range) [] (Text.split "," raw);
  match values with
  | [] => Throw ("empty cron field: " +:+ str raw)
  | _ => Ok values
  end.

Definition requireRange (index : nat) : result CronFieldRange :=
  match fieldRanges !! index with
  | Some range => Ok range
  | None => Throw "missing cron field range"
  end.

Definition new_CronExpression (e : string) : result CronExpression :=
  let fields := Text.split_ws (Text.trim (chars e)) in
  if negb (length fields =? 5)%nat
  then Throw "cron schedule must contain exactly 5 fields"
  else
    sets ← mapR (λ '(index, field), range ← requireRange index; parseField field range)
                (imap pair fields);
    Ok {| expression := e; fields := sets |}.

(** ** Matching and searching *)

Definition matches (c : CronExpression) (d : date) : bool :=
  match d with
  | None => false
  | Some t =>
      let values := [getUTCMinutes t; getUTCHours t; getUTCDate t; getUTCMonth t + 1;
                     getUTCDay t] in
      forallb (λ '(index, value),
        match fields c !! index with
        | Some field => set_has value field
        | None => false
        end) (imap pair values)
  end.

Definition no_run : string := "cron schedule has no run within one year".

(** The loop of [nextAfter]; [None] when the fuel runs out.  A cursor moved past
    the last representable time is NaN, and [NaN <= deadline] is false. *)
Fixpoint search (c : CronExpression) (fuel : nat) (cursor : date) (deadline : Z)
    : option (result date) :=
  match fuel with
  | O => None
  | S fuel' =>
      match cursor with
      | None => Some (Throw no_run)
      | Some t =>
          if t <=? deadline then
            if matches c cursor then Some (Ok (Some t))
            else search c fuel' (setUTCMinutes t (getUTCMinutes t + 1)) deadline
          else Some (Throw no_run)
      end
  end.

Definition defaultMaxSearchMinutes : Z := 366 * 24 * 60.

Definition nextAfter (c : CronExpression) (d : date) (maxSearchMinutes : option Z)
    : option (result date) :=
  match d with
  | None => Some (Throw "cron nextAfter requires a valid date")
  | Some t =>
      let maxSearch := default defaultMaxSearchMinutes maxSearchMinutes in
      match setUTCSeconds t 0 0 with
      | None => Some (Throw no_run)
      | Some t0 =>
          match setUTCMinutes t0 (getUTCMinutes t0 + 1) with
          | None => Some (Throw no_run)
          | Some cursor =>
              let deadline := cursor + maxSearch * 60 * 1000 in
              search c (Z.to_nat maxSearch + 2) (Some cursor) deadline
          end
      end
  end.

Inductive after_arg := AfterString (s : string) | AfterDate (d : date).

Definition nextCronDueAt `{DateText} (e : string) (after : after_arg) : option (result string) :=
  let d := match after with AfterString s => date_parse s | AfterDate d => d end in
  match new_CronExpression e with
  | Throw m => Some (Throw m)
  | Ok c =>
      match nextAfter c d None with
      | Some (Ok d') => Some (toISOString d')
      | Some (Throw m) => Some (Throw m)
      | None => None
      end
  end.

(** ** The loop of [addPart] *)

Lemma mod_step v value step : (v - (value + step)) mod step = (v - value) mod step.
Proof. rewrite <- (Z_mod_plus_full (v - (value + step)) 1). f_equal; lia. Qed.

(** With a unit of fuel per candidate the loop adds exactly the arithmetic
    progression from [start] that stays within [stop]. *)
Lemma addRange_spec fuel value stop step values v :
  0 < step → stop - value < Z.of_nat fuel →
  v ∈ addRange fuel value stop step values ↔
  v ∈ values ∨ (value <= v <= stop ∧ (v - value) mod step = 0).
Proof.
  intros Hstep; revert value values; induction fuel as [|fuel IH]; intros value values Hf;
    cbn [addRange]; [naive_solver lia|].
  destruct (Z.leb_spec value stop); [|naive_solver lia].
  rewrite IH, elem_of_set_add by lia; split.
  - intros [[->|?]|[? Hm]]; [right|by left|right].
    + rewrite Z.sub_diag; split; [lia|apply Z.mod_0_l; lia].
    + split; [lia|]. by rewrite mod_step in Hm.
  - intros [?|[Hv Hm]]; [by left; right|].
    destruct (decide (v = value)) as [->|]; [by left; left|right].
    assert (step <= v - value).
    { apply Z.mod_divide in Hm as [q Hq]; [|lia]. assert (0 < q) by nia. nia. }
    split; [lia|]. by rewrite mod_step.
Qed.

(** ** What a parsed field contains *)

Lemma parseCronValue_range raw range v :
  parseCronValue raw range = Ok v → min range <= v <= max range.
Proof.
  unfold parseCronValue; rewrite bind_Ok; intros (x & _ & Hx).
  destruct (Z.ltb_spec x (min range)), (Z.ltb_spec (max range) x); simplify_eq/=; lia.
Qed.

Lemma parseBase_range raw range a b :
  min range <= max range → parseBase raw range = Ok (a, b) →
  min range <= a ∧ a <= b ∧ b <= max range.
Proof.
  intros Hr; unfold parseBase; case_decide; [intros [= <- <-]; lia|].
  destruct (Text.indexOf raw (chars "-") 0) as [dash|].
  - rewrite bind_Ok; intros (x & Hx%parseCronValue_range & Hk); revert Hk.
    rewrite bind_Ok; intros (y & Hy%parseCronValue_range & Hk); revert Hk.
    destruct (Z.ltb_spec y x); intros ?; simplify_eq; lia.
  - rewrite bind_Ok; intros (x & Hx%parseCronValue_range & [= <- <-]); lia.
Qed.

Lemma parsePositiveInt_pos raw label v : parsePositiveInt raw label = Ok v → 0 < v.
Proof.
  unfold parsePositiveInt; rewrite bind_Ok; intros (x & _ & Hx).
  destruct (Z.leb_spec x 0); simplify_eq; lia.
Qed.

(** A part adds a non-empty set of numbers of the range. *)
Lemma addPart_inv values raw range values' :
  min range <= max range → addPart values raw range = Ok values' →
  ∃ start stop step, 0 < step ∧ min range <= start ∧ start <= stop ∧ stop <= max range ∧
    ∀ v, v ∈ values' ↔ v ∈ values ∨ (start <= v <= stop ∧ (v - start) mod step = 0).
Proof.
  intros Hr; unfold addPart; case_match; [done|].
  rewrite bind_Ok; intros (step & Hs & H'); revert H'.
  rewrite bind_Ok; intros ([a b] & Hb%parseBase_range & [= <-]); [|done].
  assert (0 < step).
  { case_match; [by eapply parsePositiveInt_pos|simplify_eq; lia]. }
  exists a, b, step; split_and!; try lia.
  intros v; apply addRange_spec; lia.
Qed.

Lemma parts_in_range range parts values values' :
  min range <= max range →
  foldM (λ values part, addPart values part range) values parts = Ok values' →
  Forall (λ v, min range <= v <= max range) values →
  Forall (λ v, min range <= v <= max range) values' ∧
  (parts ≠ [] → values' ≠ []) ∧ values ⊆ values'.
Proof.
  intros Hr; revert values; induction parts as [|p parts IH]; intros values; cbn [foldM].
  - by intros [= <-].
  - rewrite bind_Ok; intros (vs & Hp & Hf) Hall.
    apply addPart_inv in Hp as (a & b & s & ? & ? & ? & ? & Hvs); [|done].
    destruct (IH vs Hf) as (Hall' & _ & Hsub).
    { apply Forall_forall; intros v [Hv|[]]%Hvs; [by eapply Forall_forall in Hall|lia]. }
    split_and!; [done| |].
    + intros _ E. assert (a ∈ values') as Hin.
      { apply Hsub, Hvs; right. rewrite Z.sub_diag, Z.mod_0_l by lia. lia. }
      rewrite E in Hin; by apply not_elem_of_nil in Hin.
    + intros v Hv; apply Hsub, Hvs; by left.
Qed.

Lemma parseField_in_range raw range values :
  min range <= max range → parseField raw range = Ok values →
  values ≠ [] ∧ Forall (λ v, min range <= v <= max range) values.
Proof.
  intros Hr; unfold parseField; rewrite bind_Ok; intros (vs & Hf & Hne).
  apply parts_in_range in Hf as (Hall & _ & _); [|done|constructor].
  destruct vs; simplify_eq; by split.
Qed.

(** ** The search *)

(** The minutes a search may return: later than [t], not later than [deadline],
    and representable. *)
Definition in_window (lo hi u : Z) : Prop :=
  lo <= u <= hi ∧ u <= maxTime ∧ u mod msPerMinute = 0.

(** The outcome of a search for a minute of a window: the first minute that
    matches, or the error when none does. *)
Definition first_match (c : CronExpression) (lo hi : Z) (r : result date) : Prop :=
  (∃ u, r = Ok (Some u) ∧ in_window lo hi u ∧ matches c (Some u) = true ∧
        ∀ w, in_window lo hi w → w < u → matches c (Some w) = false)
  ∨ (r = Throw no_run ∧ ∀ w, in_window lo hi w → matches c (Some w) = false).

Lemma next_multiple u w :
  u mod msPerMinute = 0 → w mod msPerMinute = 0 → u <= w → w = u ∨ u + msPerMinute <= w.
Proof. unfold msPerMinute; intros; Z.to_euclidean_division_equations; lia. Qed.

Lemma first_match_step c lo hi r :
  lo mod msPerMinute = 0 → matches c (Some lo) = false →
  first_match c (lo + msPerMinute) hi r → first_match c lo hi r.
Proof.
  intros Hlo Hm.
  assert (Hw : ∀ w, in_window lo hi w → w = lo ∨ in_window (lo + msPerMinute) hi w).
  { intros w ([? ?] & ? & Hw). destruct (next_multiple lo w) as [?|?]; auto.
    right; unfold in_window; auto. }
  intros [(u & -> & Hu & Hmu & Hmin)|[-> Hmin]]; [left|right].
  - exists u; split_and!; [done| |done|].
    + destruct Hu as ([? ?] & ? & ?); unfold in_window, msPerMinute in *; lia.
    + intros w Hw' ?; destruct (Hw w Hw') as [->|]; auto.
  - split; [done|]; intros w Hw'; destruct (Hw w Hw') as [->|]; auto.
Qed.

Lemma first_match_empty c lo hi :
  hi < lo ∨ maxTime < lo → first_match c lo hi (Throw no_run).
Proof. intros; right; split; [done|]; intros w ([? ?] & ? & ?); lia. Qed.

Lemma search_spec c fuel t deadline :
  - maxTime <= t → t mod msPerMinute = 0 →
  deadline + msPerMinute < t + Z.of_nat fuel * msPerMinute → (0 < fuel)%nat →
  ∃ r, search c fuel (TimeClip t) deadline = Some r ∧ first_match c t deadline r.
Proof.
  revert t; induction fuel as [|fuel IH]; intros t Hlo Hmod Hf Hpos; [lia|].
  unfold TimeClip; destruct (Z.leb_spec (Z.abs t) maxTime) as [Hc|Hc]; cbn [search];
    [|eexists; split; [done|apply first_match_empty; lia]].
  destruct (Z.leb_spec t deadline); [|eexists; split; [done|apply first_match_empty; lia]].
  destruct (matches c (Some t)) eqn:Hm.
  - eexists; split; [done|]; left; exists t; split_and!; [done| |done|].
    + unfold in_window; lia.
    + intros w ([? ?] & _); lia.
  - rewrite setUTCMinutes_succ.
    assert (Hmod' : (t + msPerMinute) mod msPerMinute = 0)
      by (by rewrite <- (Z_mod_plus_full t 1), Z.mul_1_l in Hmod).
    assert (0 < fuel)%nat by (unfold msPerMinute in *; lia).
    destruct (IH (t + msPerMinute)) as (r & -> & Hr); try (unfold msPerMinute in *; lia).
    exists r; split; [done|]. by apply first_match_step.
Qed.

Lemma matches_wf c t :
  matches c (Some t) = true ↔
  ∃ mi h d mo wd, take 5 (fields c) = [mi; h; d; mo; wd] ∧
    getUTCMinutes t ∈ mi ∧ getUTCHours t ∈ h ∧ getUTCDate t ∈ d ∧
    getUTCMonth t + 1 ∈ mo ∧ getUTCDay t ∈ wd.
Proof.
  unfold matches.
  destruct (fields c) as [|mi [|h [|d [|mo [|wd rest]]]]]; cbn;
    rewrite ?andb_false_r, ?andb_true_r, ?andb_true_iff, ?set_has_true; split;
    try naive_solver; intros (? & ? & ? & ? & ? & ? & _); simplify_eq.
Qed.

(** ** Properties *)

(** The first whole minute after a time. *)
Definition next_minute (t : Z) : Z := t - t mod msPerMinute + msPerMinute.

Lemma next_minute_gt t : t < next_minute t ∧ next_minute t mod msPerMinute = 0.
Proof. unfold next_minute, msPerMinute; Z.to_euclidean_division_equations; lia. Qed.

Lemma nextAfter_search c t maxSearch :
  Z.abs t <= maxTime →
  ∃ r, nextAfter c (Some t) maxSearch = Some r ∧
       first_match c (next_minute t)
         (next_minute t + default defaultMaxSearchMinutes maxSearch * msPerMinute) r.
Proof.
  intros Ht; unfold nextAfter; set (n := default defaultMaxSearchMinutes maxSearch).
  assert (Hlo : Z.abs (t - t mod msPerMinute) <= maxTime)
    by (unfold maxTime, msPerMinute in *; Z.to_euclidean_division_equations; lia).
  rewrite setUTCSeconds_floor; unfold TimeClip at 1; rewrite (proj2 (Z.leb_le _ _) Hlo).
  rewrite setUTCMinutes_succ. change (t - t mod msPerMinute + msPerMinute) with (next_minute t).
  destruct (next_minute_gt t) as [Hgt Hmod].
  unfold TimeClip; destruct (Z.leb_spec (Z.abs (next_minute t)) maxTime) as [Hc|Hc].
  - replace (Some (next_minute t)) with (TimeClip (next_minute t))
      by (unfold TimeClip; by rewrite (proj2 (Z.leb_le _ _) Hc)).
    replace (n * 60 * 1000) with (n * msPerMinute) by (unfold msPerMinute; lia).
    apply search_spec; [lia|done| |lia]. unfold msPerMinute; lia.
  - eexists; split; [done|]. apply first_match_empty; unfold next_minute, msPerMinute in *; lia.
Qed.

(** C36.  [CronExpression.nextAfter] on a valid date always returns (its loop
    terminates with the fuel given): it returns the first whole minute after the
    date that the expression matches, no earlier minute matching, when there is
    one within the search window and the range of dates, and it throws the
    no-run error exactly when there is none. *)
Theorem nextAfter_first_match c t maxSearch :
  Z.abs t <= maxTime →
  ∃ r, nextAfter c (Some t) maxSearch = Some r ∧
       first_match c (next_minute t)
         (next_minute t + default defaultMaxSearchMinutes maxSearch * msPerMinute) r.
Proof. apply nextAfter_search. Qed.

Lemma nextAfter_first_match_witness :
  let c := {| expression := "0 12 * * *";
              fields := [[0]; [12]; seqZ 1 31; seqZ 1 12; seqZ 0 7] |} in
  ∃ r, nextAfter c (Some 0) (Some 1440) = Some r ∧
       first_match c (next_minute 0) (next_minute 0 + 1440 * msPerMinute) r.
Proof.
  intros c. apply (nextAfter_first_match c 0 (Some 1440)). vm_compute. discriminate.
Defined.

(**  An expression the parser accepts has exactly five fields, each a
    non-empty set of numbers within the bounds of its position: minutes 0..59,
    hours 0..23, days 1..31, months 1..12, weekdays 0..6. *)
Theorem new_CronExpression_fields e c :
  new_CronExpression e = Ok c →
  Forall2 (λ range field, field ≠ [] ∧ Forall (λ v, min range <= v <= max range) field)
          fieldRanges (fields c).
Proof.
  unfold new_CronExpression; case_match eqn:Hlen; [done|].
  rewrite bind_Ok; intros (sets & Hs%mapR_Forall2 & [= <-]); cbn [fields].
  apply negb_false_iff, Nat.eqb_eq in Hlen.
  destruct (Text.split_ws _) as [|f0 [|f1 [|f2 [|f3 [|f4 [|? ?]]]]]]; try discriminate Hlen.
  change (imap pair [f0; f1; f2; f3; f4])
    with [(0%nat, f0); (1%nat, f1); (2%nat, f2); (3%nat, f3); (4%nat, f4)] in Hs.
  assert (Hf : ∀ i f range s, requireRange i = Ok range → min range <= max range →
    (range' ← requireRange i; parseField f range') = Ok s →
    s ≠ [] ∧ Forall (λ v, min range <= v <= max range) s).
  { intros i f range s Hr Hle Hp. rewrite Hr in Hp. by eapply parseField_in_range. }
  repeat (apply Forall2_cons_inv_l in Hs as (? & ? & ? & Hs & ->)).
  apply Forall2_nil_inv_l in Hs as ->.
  unfold fieldRanges.
  repeat (apply Forall2_cons; split;
    [match goal with
     | H : requireRange ?i ≫= _ = Ok ?s |- ?s ≠ [] ∧ _ => eapply (Hf i); [reflexivity|cbn; lia|exact H]
     end|]).
  constructor.
Qed.

Lemma new_CronExpression_fields_witness :
  ∃ c, new_CronExpression "*/15 9-17 1,15 * 1-5" = Ok c ∧
  Forall2 (λ range field, field ≠ [] ∧ Forall (λ v, min range <= v <= max range) field)
          fieldRanges (fields c).
Proof.
  eexists; split; [vm_compute; reflexivity|].
  apply (new_CronExpression_fields "*/15 9-17 1,15 * 1-5"). vm_compute. reflexivity.
Defined.

Lemma parseCronValue_digits v range :
  0 <= min range → max range < 100 → min range <= v <= max range →
  parseCronValue (digits 2 v) range = Ok v.
Proof.
  intros; unfold parseCronValue, parsePositiveOrZeroInt.
  rewrite all_digits_digits, number_digits by (simpl Z.of_nat; lia); cbn.
  destruct (Z.ltb_spec v (min range)), (Z.ltb_spec (max range) v); cbn; done || lia.
Qed.

Lemma parseBase_digits a b range :
  0 <= min range → max range < 100 → min range <= a → a <= b → b <= max range →
  parseBase (digits 2 a ++ "-"%char :: digits 2 b) range = Ok (a, b).
Proof.
  intros; unfold parseBase. rewrite decide_False by (cbn; done).
  change (chars "-") with ["-"%char].
  rewrite Text.indexOf_char by (by apply digits_notin).
  unfold Text.slice, Text.slice_from.
  rewrite digits_length, Nat.sub_0_r, drop_0, take_app_length' by (by rewrite digits_length).
  rewrite parseCronValue_digits, ok_bind by lia.
  replace (drop (2 + 1) (digits 2 a ++ "-"%char :: digits 2 b)) with (digits 2 b) by done.
  rewrite parseCronValue_digits, ok_bind by lia.
  destruct (Z.ltb_spec b a); [lia|done].
Qed.

(**  A step range [a-b/s] adds exactly the numbers [a], [a+s], [a+2s], ... not
    above [b] to the field, whatever the field already holds: the loop of
    [addPart] stands for its arithmetic progression. *)
Theorem addPart_step_range range a b s values :
  0 <= min range → max range < 100 → min range <= a → a <= b → b <= max range →
  0 < s < 100 →
  ∃ values',
    addPart values (digits 2 a ++ "-"%char :: digits 2 b ++ "/"%char :: digits 2 s) range
      = Ok values' ∧
    ∀ v, v ∈ values' ↔ v ∈ values ∨ (a <= v <= b ∧ (v - a) mod s = 0).
Proof.
  intros; unfold addPart.
  replace (digits 2 a ++ "-"%char :: digits 2 b ++ "/"%char :: digits 2 s)
    with ((digits 2 a ++ "-"%char :: digits 2 b) ++ "/"%char :: digits 2 s)
    by (by rewrite <- app_assoc).
  rewrite Text.split_two.
  2:{ rewrite not_elem_of_app, not_elem_of_cons; split_and!; try done; by apply digits_notin. }
  rewrite Text.split_one by (by apply digits_notin); cbn [lookup list_lookup].
  unfold parsePositiveInt, parsePositiveOrZeroInt.
  rewrite all_digits_digits, number_digits, ok_bind by (simpl Z.of_nat; lia).
  destruct (Z.leb_spec s 0); [lia|].
  rewrite ok_bind.
  change (default [] (Some ?x)) with x; rewrite parseBase_digits, ok_bind by lia.
  eexists; split; [done|]. intros v; apply addRange_spec; lia.
Qed.

Lemma addPart_step_range_witness :
  ∃ values',
    addPart [] (chars "09-17/04") {| min := 0; max := 23 |} = Ok values' ∧
    ∀ v, v ∈ values' ↔ v ∈ [] ∨ (9 <= v <= 17 ∧ (v - 9) mod 4 = 0).
Proof.
  apply (addPart_step_range {| min := 0; max := 23 |} 9 17 4 []); cbn; lia.
Defined.

(**  [nextCronDueAt] from a valid instant returns an ISO timestamp that reads
    back as the first matching minute, or throws the no-run error when the year
    ahead has none; for every reading of dates that reads ISO text back. *)
Theorem nextCronDueAt_iso `{DateText} e c t :
  Z.abs t <= maxTime → new_CronExpression e = Ok c →
  ∃ r, nextCronDueAt e (AfterString (str (iso_text t))) = Some r ∧
    ((∃ s u, r = Ok s ∧ date_parse s = Some u ∧ t < u ∧ matches c (Some u) = true)
     ∨ r = Throw no_run ∧
       ∀ u, in_window (next_minute t)
              (next_minute t + defaultMaxSearchMinutes * msPerMinute) u →
            matches c (Some u) = false).
Proof.
  intros Ht Hc; unfold nextCronDueAt. rewrite (date_parse_iso t Ht), Hc.
  destruct (nextAfter_search c t None Ht) as (r & -> & Hr).
  destruct Hr as [(u & -> & Hw & Hm & _)|[-> Hmin]]; eexists; (split; [done|]); [left|by right].
  exists (str (iso_text u)), u. pose proof (next_minute_gt t) as [? _].
  destruct Hw as ([? ?] & ? & ?); split_and!; [done| |lia|done].
  apply date_parse_iso; lia.
Qed.

Lemma nextCronDueAt_iso_witness :
  ∃ r, @nextCronDueAt iso_date_text "30 6 * * *" (AfterString (str (iso_text 0))) = Some r ∧
    ((∃ s u, r = Ok s ∧ @date_parse iso_date_text s = Some u ∧ 0 < u ∧
        matches {| expression := "30 6 * * *";
                   fields := [[30]; [6]; seqZ 1 31; seqZ 1 12; seqZ 0 7] |} (Some u) = true)
     ∨ r = Throw no_run ∧
       ∀ u, in_window (next_minute 0)
              (next_minute 0 + defaultMaxSearchMinutes * msPerMinute) u →
            matches {| expression := "30 6 * * *";
                       fields := [[30]; [6]; seqZ 1 31; seqZ 1 12; seqZ 0 7] |} (Some u) = false).
Proof.
  apply (@nextCronDueAt_iso iso_date_text).
  - vm_compute; discriminate.
  - vm_compute. reflexivity.
Defined.
