(* ===== verification/MidTurnDelta.v ===== *)
(** * Messages queued while a turn runs

    [ts/packages/brain-island/src/mid-turn-delta.ts]: [BodyControlledDeltaQueue].
    The array [entries] is a list; its in-place loops (a descending index with
    [splice], a [while] with [shift]) are written as loops and shown equal to
    their list-level meaning. *)

From S2P Require Import Prelude.
Open Scope Z_scope.

(** [Array.prototype.splice(index, 1)] *)
Definition splice1 {A} (i : nat) (l : list A) : list A := take i l ++ drop (S i) l.

Section delta_queue.
Context {AgentMessage : Type}.

Record BodyDeltaPolicy := {
  mode : string;
  queueOwner : string;
  queuedMessageTtlMs : Z;
  maxQueuedMessages : Z
}.

Record QueuedMidTurnMessage := {
  sessionId : string;
  activeWakeId : string;
  message : AgentMessage;
  enqueuedAtMs : Z;
  expiresAtMs : Z
}.

Record DrainResult := { messages : list AgentMessage; droppedExpired : Z }.

Record BodyControlledDeltaQueue := {
  entries : list QueuedMidTurnMessage;
  policy : BodyDeltaPolicy
}.

Definition with_entries (q : BodyControlledDeltaQueue) (es : list QueuedMidTurnMessage) :=
  {| entries := es; policy := policy q |}.

Definition new_BodyControlledDeltaQueue (p : BodyDeltaPolicy)
    : result BodyControlledDeltaQueue :=
  if decide (mode p ≠ "frozen_snapshot_next_wake")
  then Throw ("unsupported mid-turn delta mode " +:+ mode p)
  else if decide (queueOwner p ≠ "body")
  then Throw ("unsupported delta queue owner " +:+ queueOwner p)
  else Ok {| entries := []; policy := p |}.

(** [for (let index = n - 1; index >= 0; index -= 1)] *)
Fixpoint dropExpired_loop (n : nat) (nowMs : Z) (es : list QueuedMidTurnMessage) :=
  match n with
  | O => es
  | S index =>
      match es !! index with
      | Some e =>
          if expiresAtMs e <=? nowMs
          then dropExpired_loop index nowMs (splice1 index es)
          else dropExpired_loop index nowMs es
      | None => es
      end
  end.

Definition dropExpired (q : BodyControlledDeltaQueue) (nowMs : Z) :=
  with_entries q (dropExpired_loop (length (entries q)) nowMs (entries q)).

(** [while (entries.length > max) entries.shift()]; [None] when out of fuel *)
Fixpoint enforceCap_loop (fuel : nat) (cap : Z) (es : list QueuedMidTurnMessage) :=
  match fuel with
  | O => None
  | S fuel' =>
      if cap <? Z.of_nat (length es) then enforceCap_loop fuel' cap (tail es) else Some es
  end.

Definition enforceCap (q : BodyControlledDeltaQueue) : option BodyControlledDeltaQueue :=
  with_entries q <$>
    enforceCap_loop (S (length (entries q))) (maxQueuedMessages (policy q)) (entries q).

Definition enqueue (q : BodyControlledDeltaQueue) (sid wake : string) (m : AgentMessage)
    (nowMs : Z) : option (QueuedMidTurnMessage * BodyControlledDeltaQueue) :=
  let q1 := dropExpired q nowMs in
  let entry := {| sessionId := sid; activeWakeId := wake; message := m;
                  enqueuedAtMs := nowMs;
                  expiresAtMs := nowMs + queuedMessageTtlMs (policy q1) |} in
  q2 ← enforceCap (with_entries q1 (entries q1 ++ [entry]));
  Some (entry, q2).

(** The loop of [drainForNextWake]: the entries left, the messages gathered by
    [unshift] and the count of expired ones. *)
Fixpoint drain_loop (n : nat) (sid : string) (nowMs : Z)
    (es : list QueuedMidTurnMessage) (ms : list AgentMessage) (dropped : Z) :=
  match n with
  | O => (es, ms, dropped)
  | S index =>
      match es !! index with
      | Some e =>
          if decide (sessionId e ≠ sid) then drain_loop index sid nowMs es ms dropped
          else
            let es' := splice1 index es in
            if expiresAtMs e <=? nowMs
            then drain_loop index sid nowMs es' ms (dropped + 1)
            else drain_loop index sid nowMs es' (message e :: ms) dropped
      | None => (es, ms, dropped)
      end
  end.

Definition drainForNextWake (q : BodyControlledDeltaQueue) (sid : string) (nowMs : Z)
    : DrainResult * BodyControlledDeltaQueue :=
  let '(es, ms, dropped) := drain_loop (length (entries q)) sid nowMs (entries q) [] 0 in
  ({| messages := ms; droppedExpired := dropped |}, with_entries q es).

Definition clear (q : BodyControlledDeltaQueue) := with_entries q [].
Definition size (q : BodyControlledDeltaQueue) : nat := length (entries q).

(** ** The loops *)

Definition live (nowMs : Z) (e : QueuedMidTurnMessage) : Prop := nowMs < expiresAtMs e.
#[global] Instance live_dec nowMs e : Decision (live nowMs e) := Z_lt_dec _ _.

Lemma splice1_snoc {A} (l r : list A) x : splice1 (length l) (l ++ x :: r) = l ++ r.
Proof.
  unfold splice1. rewrite take_app_length.
  replace (S (length l)) with (length l + 1)%nat by lia.
  by rewrite <- drop_drop, drop_app_length.
Qed.

Lemma lookup_snoc {A} (l r : list A) x : (l ++ x :: r) !! length l = Some x.
Proof. by apply list_lookup_middle. Qed.

(** The descending loop visits a prefix [l]; what is behind it is done. *)
Lemma dropExpired_loop_spec nowMs l r :
  dropExpired_loop (length l) nowMs (l ++ r) = filter (live nowMs) l ++ r.
Proof.
  revert r; induction l as [|e l IH] using rev_ind; intros r; [done|].
  rewrite length_app, Nat.add_1_r, <- app_assoc; cbn [dropExpired_loop app].
  rewrite lookup_snoc, filter_app, filter_cons, filter_nil.
  destruct (Z.leb_spec (expiresAtMs e) nowMs) as [Hle|Hgt].
  - rewrite splice1_snoc, IH, decide_False, app_nil_r by (unfold live; lia); done.
  - rewrite IH, decide_True, <- app_assoc by (unfold live; lia); done.
Qed.

Lemma dropExpired_filter q nowMs :
  entries (dropExpired q nowMs) = filter (live nowMs) (entries q).
Proof.
  pose proof (dropExpired_loop_spec nowMs (entries q) []) as H.
  rewrite !app_nil_r in H. exact H.
Qed.

Lemma enforceCap_loop_spec fuel cap es :
  0 <= cap → (length es < fuel)%nat →
  enforceCap_loop fuel cap es = Some (drop (length es - Z.to_nat cap) es).
Proof.
  intros Hcap; revert es; induction fuel as [|fuel IH]; intros es Hf; [lia|].
  cbn [enforceCap_loop]. destruct (Z.ltb_spec cap (Z.of_nat (length es))) as [Hlt|Hge].
  - destruct es as [|e es]; [simpl in Hlt; lia|]. cbn [tail length] in *.
    rewrite IH by lia.
    replace (S (length es) - Z.to_nat cap)%nat with (S (length es - Z.to_nat cap)) by lia.
    done.
  - by replace (length es - Z.to_nat cap)%nat with 0%nat by lia.
Qed.

(** The three-way split the drain makes of the entries. *)
Definition of_session (sid : string) (e : QueuedMidTurnMessage) : Prop := sessionId e = sid.
#[global] Instance of_session_dec sid e : Decision (of_session sid e) :=
  decide (sessionId e = sid).

Lemma drain_loop_spec sid nowMs l r ms k :
  drain_loop (length l) sid nowMs (l ++ r) ms k =
    (filter (λ e, ¬ of_session sid e) l ++ r,
     (message <$> filter (λ e, of_session sid e ∧ live nowMs e) l) ++ ms,
     k + Z.of_nat (length (filter (λ e, of_session sid e ∧ ¬ live nowMs e) l))).
Proof.
  revert r ms k; induction l as [|e l IH] using rev_ind; intros r ms k.
  { cbn; by rewrite Z.add_0_r. }
  rewrite length_app, Nat.add_1_r, <- app_assoc; cbn [drain_loop app].
  rewrite lookup_snoc, !filter_app, !filter_cons, !filter_nil.
  case_decide as Hs.
  - rewrite IH, (decide_True (P := ¬ of_session sid e)) by done.
    rewrite !decide_False by (intros [? _]; done).
    by rewrite !app_nil_r, <- app_assoc.
  - rewrite splice1_snoc, (decide_False (P := ¬ of_session sid e)), app_nil_r by auto.
    destruct (Z.leb_spec (expiresAtMs e) nowMs) as [Hle|Hgt]; rewrite IH.
    + rewrite decide_False, decide_True by (unfold live; naive_solver lia).
      rewrite app_nil_r, length_app; cbn [length]. f_equal; lia.
    + rewrite decide_True, decide_False by (unfold live; naive_solver lia).
      rewrite app_nil_r, fmap_app, <- app_assoc; done.
Qed.

(** ** Runs of operations and their specification *)

Inductive op :=
| OpEnqueue (sid wake : string) (m : AgentMessage) (nowMs : Z)
| OpDrain (sid : string) (nowMs : Z)
| OpClear.

Inductive output :=
| OutEntry (e : QueuedMidTurnMessage)
| OutDrain (d : DrainResult)
| OutNone.

Definition step (q : BodyControlledDeltaQueue) (o : op)
    : option (output * BodyControlledDeltaQueue) :=
  match o with
  | OpEnqueue sid wake m nowMs =>
      '(e, q') ← enqueue q sid wake m nowMs; Some (OutEntry e, q')
  | OpDrain sid nowMs => let '(d, q') := drainForNextWake q sid nowMs in Some (OutDrain d, q')
  | OpClear => Some (OutNone, clear q)
  end.

Fixpoint run (q : BodyControlledDeltaQueue) (os : list op)
    : option (list output * BodyControlledDeltaQueue) :=
  match os with
  | [] => Some ([], q)
  | o :: os' =>
      '(out, q') ← step q o;
      '(outs, q'') ← run q' os';
      Some (out :: outs, q'')
  end.

(** The specification: a list of pending entries.  Enqueuing forgets what has
    expired and keeps the newest [cap] entries; draining hands over the live
    messages of the session in arrival order and removes the session's entries. *)
Definition last_n {A} (n : nat) (l : list A) : list A := drop (length l - n) l.

Definition spec_entry (p : BodyDeltaPolicy) sid wake m nowMs : QueuedMidTurnMessage :=
  {| sessionId := sid; activeWakeId := wake; message := m; enqueuedAtMs := nowMs;
     expiresAtMs := nowMs + queuedMessageTtlMs p |}.

Definition spec_step (p : BodyDeltaPolicy) (es : list QueuedMidTurnMessage) (o : op)
    : output * list QueuedMidTurnMessage :=
  match o with
  | OpEnqueue sid wake m nowMs =>
      let e := spec_entry p sid wake m nowMs in
      (OutEntry e, last_n (Z.to_nat (maxQueuedMessages p)) (filter (live nowMs) es ++ [e]))
  | OpDrain sid nowMs =>
      (OutDrain
         {| messages := message <$> filter (λ e, of_session sid e ∧ live nowMs e) es;
            droppedExpired :=
              Z.of_nat (length (filter (λ e, of_session sid e ∧ ¬ live nowMs e) es)) |},
       filter (λ e, ¬ of_session sid e) es)
  | OpClear => (OutNone, [])
  end.

Fixpoint spec_run (p : BodyDeltaPolicy) (es : list QueuedMidTurnMessage) (os : list op)
    : list output * list QueuedMidTurnMessage :=
  match os with
  | [] => ([], es)
  | o :: os' =>
      let '(out, es') := spec_step p es o in
      let '(outs, es'') := spec_run p es' os' in
      (out :: outs, es'')
  end.

Lemma step_spec q o :
  0 <= maxQueuedMessages (policy q) →
  step q o = Some ((spec_step (policy q) (entries q) o).1,
                   with_entries q (spec_step (policy q) (entries q) o).2).
Proof.
  intros Hcap; destruct o as [sid wake m nowMs|sid nowMs|]; cbn [step spec_step fst snd]; [| |done].
  - unfold enqueue, enforceCap. rewrite dropExpired_filter; cbn [entries policy with_entries].
    rewrite enforceCap_loop_spec; [done|done|lia].
  - unfold drainForNextWake. pose proof (drain_loop_spec sid nowMs (entries q) [] [] 0) as H.
    rewrite !app_nil_r in H. by rewrite H.
Qed.

Lemma run_spec q os :
  0 <= maxQueuedMessages (policy q) →
  run q os = Some ((spec_run (policy q) (entries q) os).1,
                   with_entries q (spec_run (policy q) (entries q) os).2).
Proof.
  revert q; induction os as [|o os IH]; intros q Hcap; [by destruct q|].
  cbn [run spec_run]. rewrite step_spec by done; cbn.
  destruct (spec_step (policy q) (entries q) o) as [out es']; cbn [fst snd].
  rewrite (IH (with_entries q es')) by done; cbn.
  by destruct (spec_run (policy q) es' os).
Qed.

(** ** Properties *)

(** C37.  The queue implements its specification: for a policy with a
    non-negative cap, every run of enqueue, drain and clear operations from an
    empty queue terminates, returns the outputs of the list-level specification
    and leaves its entries, whatever the times and sessions. *)
Theorem run_refines_spec p q os :
  new_BodyControlledDeltaQueue p = Ok q → 0 <= maxQueuedMessages p →
  run q os = Some ((spec_run p [] os).1, with_entries q (spec_run p [] os).2).
Proof.
  unfold new_BodyControlledDeltaQueue; repeat case_decide; intros [= <-] Hcap.
  by apply run_spec.
Qed.

Lemma last_n_length {A} n (l : list A) : (length (last_n n l) <= n)%nat.
Proof. unfold last_n; rewrite length_drop; lia. Qed.

Lemma last_n_subseteq {A} n (l : list A) x : x ∈ last_n n l → x ∈ l.
Proof.
  intros Hx. rewrite <- (take_drop (length l - n) l). apply elem_of_app. by right.
Qed.

(** What holds of the entries at any time. *)
Definition queue_inv (p : BodyDeltaPolicy) (es : list QueuedMidTurnMessage) : Prop :=
  Z.of_nat (length es) <= maxQueuedMessages p ∧
  Forall (λ e, expiresAtMs e = enqueuedAtMs e + queuedMessageTtlMs p) es.

Lemma spec_step_inv p es o :
  0 <= maxQueuedMessages p → queue_inv p es → queue_inv p (spec_step p es o).2.
Proof.
  intros Hcap [Hlen Hall]; destruct o as [sid wake m nowMs|sid nowMs|]; cbn [spec_step snd].
  - split; [pose proof (last_n_length (Z.to_nat (maxQueuedMessages p))
        (filter (live nowMs) es ++ [spec_entry p sid wake m nowMs])); lia|].
    apply Forall_forall; intros e [He|He]%last_n_subseteq%elem_of_app.
    + apply list_elem_of_filter in He as [_ He]. by eapply Forall_forall in Hall.
    + apply list_elem_of_singleton in He as ->; done.
  - split; [|by apply Forall_filter].
    pose proof (length_filter (λ e, ¬ of_session sid e) es); lia.
  - split; [done|constructor].
Qed.

(**  The queue never holds more than [maxQueuedMessages] entries, and each
    entry expires exactly the policy's time to live after it was enqueued, after
    any run of operations. *)
Theorem run_bounded p q os outs q' :
  new_BodyControlledDeltaQueue p = Ok q → 0 <= maxQueuedMessages p →
  run q os = Some (outs, q') →
  Z.of_nat (size q') <= maxQueuedMessages p ∧
  Forall (λ e, expiresAtMs e = enqueuedAtMs e + queuedMessageTtlMs p) (entries q').
Proof.
  unfold new_BodyControlledDeltaQueue; repeat case_decide; intros [= <-] Hcap.
  rewrite run_spec by done; intros [= _ <-]; cbn [policy entries with_entries].
  unfold size; cbn [entries with_entries].
  enough (∀ es, queue_inv p es → queue_inv p (spec_run p es os).2) as Hi.
  { apply (Hi []); split; [done|constructor]. }
  induction os as [|o os IH]; intros es Hes; cbn [spec_run]; [done|].
  pose proof (spec_step_inv p es o Hcap Hes) as Hes'.
  destruct (spec_step p es o) as [out es']; specialize (IH es' Hes').
  by destruct (spec_run p es' os).
Qed.
End delta_queue.

Arguments BodyDeltaPolicy : clear implicits.

(** [defaultBodyDeltaPolicy] *)
Definition defaultBodyDeltaPolicy : BodyDeltaPolicy :=
  {| mode := "frozen_snapshot_next_wake"; queueOwner := "body";
     queuedMessageTtlMs := 5000; maxQueuedMessages := 32 |}.

Lemma run_refines_spec_witness :
  let os := [OpEnqueue "s1" "w1" 1%nat 0; OpEnqueue "s2" "w1" 2%nat 10;
             OpEnqueue "s1" "w1" 3%nat 4000; OpDrain "s1" 6000] in
  let q := {| entries := []; policy := defaultBodyDeltaPolicy |} in
  run q os = Some ((spec_run defaultBodyDeltaPolicy [] os).1,
                   with_entries q (spec_run defaultBodyDeltaPolicy [] os).2).
Proof. apply (run_refines_spec defaultBodyDeltaPolicy); [reflexivity|cbn; lia]. Defined.

Lemma run_bounded_witness :
  let p := {| mode := "frozen_snapshot_next_wake"; queueOwner := "body";
              queuedMessageTtlMs := 100; maxQueuedMessages := 1 |} in
  ∃ outs q', run {| entries := []; policy := p |}
               [OpEnqueue "s1" "w1" 1%nat 0; OpEnqueue "s1" "w1" 2%nat 5] = Some (outs, q') ∧
    Z.of_nat (size q') <= 1 ∧
    Forall (λ e, expiresAtMs e = enqueuedAtMs e + 100) (entries q').
Proof.
  intros p; eexists _, _; split; [reflexivity|].
  eapply (run_bounded p {| entries := []; policy := p |}
    [OpEnqueue "s1" "w1" 1%nat 0; OpEnqueue "s1" "w1" 2%nat 5]);
    [reflexivity|cbn; lia|reflexivity].
Defined.
