(* ===== verification/WakeDrain.v ===== *)
(** * Draining wake events

    [drainAndDispatchWakes] of
    [ts/packages/brain-island/src/service-wake-event-drain.ts] and the delivery
    decision of [channel-wake-policy.ts].  The suppression counters are a
    JavaScript map; the drained events and the dispatcher are arguments.  A
    dispatch is awaited, so it may itself change the counters, and it may throw:
    it takes the map and gives back a result and a map. *)

From S2P Require Import Prelude JsString JsDate.
#[local] Open Scope Z_scope.
#[local] Open Scope js_scope.

(** ** The suppression counters *)

(** The events the drain distinguishes, with the session they name; [P] is the
    rest of a wake request. *)
Inductive CoreEvent (P : Type) :=
| session_archived (sessionId : string)
| brain_wake_requested (sessionId : string) (payload : P)
| other_event.
Arguments session_archived {P} sessionId.
Arguments brain_wake_requested {P} sessionId payload.
Arguments other_event {P}.

Abbreviation counters := (jsmap string Z).

Definition suppressNextWakeEvent (s : string) (m : counters) : counters :=
  map_set s ((map_get s m ⁇ 0) + 1) m.

Definition consumeSuppressedWakeEvent (s : string) (m : counters) : bool * counters :=
  let count := map_get s m ⁇ 0 in
  if count <=? 0 then (false, m)
  else if count =? 1 then (true, map_delete s m)
  else (true, map_set s (count - 1) m).

Section Drain.
Context {P R : Type}.
Context (dispatchWake : string → P → counters → result R * counters).

(** The loop over the drained events; the first dispatch that throws ends it. *)
Fixpoint drain_events (events : list (CoreEvent P)) (m : counters) (reports : list R)
    : result (list R) * counters :=
  match events with
  | [] => (Ok reports, m)
  | session_archived s :: events' => drain_events events' (consumeSuppressedWakeEvent s m).2 reports
  | other_event :: events' => drain_events events' m reports
  | brain_wake_requested s p :: events' =>
      match consumeSuppressedWakeEvent s m with
      | (true, m1) => drain_events events' m1 reports
      | (false, m1) =>
          match dispatchWake s p m1 with
          | (Ok r, m2) => drain_events events' m2 (reports ++ [r])
          | (Throw e, m2) => (Throw e, m2)
          end
      end
  end.

(** [drainSubscriptionEvents(subscription, limit)] *)
Context (drainSubscriptionEvents : nat → list (CoreEvent P)).

Definition drainAndDispatchWakes (m : counters) : result (list R) * counters :=
  drain_events (drainSubscriptionEvents 128) m [].
End Drain.

(** ** Delivery intents *)

Inductive ChannelWakePolicy := subscription | manual | disabled.

Inductive DeliveryIntentWakeDecision :=
| claim_and_wake (wakePolicy : ChannelWakePolicy)
| manual_wait (wakePolicy : ChannelWakePolicy) (reasonCode summary : string)
| reject (wakePolicy : ChannelWakePolicy) (reasonCode summary : string)
| skip_expired (wakePolicy : ChannelWakePolicy) (reasonCode summary : string).

Definition normalizeChannelWakePolicy (value : option string) : ChannelWakePolicy :=
  match value with
  | Some "manual" => manual
  | Some "disabled" => disabled
  | _ => subscription
  end.

Definition deliveryIntentExpired `{!DateText} (expiresAtValue nowValue : string) : bool :=
  match date_parse expiresAtValue, date_parse nowValue with
  | Some expiresAt, Some now => expiresAt <=? now
  | _, _ => false
  end.

Definition deliveryIntentWakeDecision `{!DateText} (policy : option string) (expiresAt now : string)
    : DeliveryIntentWakeDecision :=
  let wakePolicy := normalizeChannelWakePolicy policy in
  if deliveryIntentExpired expiresAt now then
    skip_expired wakePolicy "delivery_intent_expired"
      "delivery intent expired before Rusty Crew claimed it"
  else
    match wakePolicy with
    | manual => manual_wait wakePolicy "wake_policy_manual"
        "profile channel wake policy is manual; waiting for an explicit pull/claim path"
    | disabled => reject wakePolicy "wake_policy_disabled"
        "profile channel wake policy disables automatic delivery"
    | subscription => claim_and_wake wakePolicy
    end.

(** ** The counters as tokens *)

(** How many events of a session are still to be swallowed. *)
Definition tokens (m : counters) (s : string) : nat := Z.to_nat (map_get s m ⁇ 0).

(** No session is stored with nothing to swallow. *)
Definition counters_wf (m : counters) : Prop :=
  map_wf m ∧ ∀ s n, map_get s m = Some n → 0 < n.

Lemma consume_spec s m :
  counters_wf m →
  let '(swallowed, m') := consumeSuppressedWakeEvent s m in
  counters_wf m' ∧ swallowed = bool_decide (0 < tokens m s)%nat
  ∧ ∀ s', tokens m' s' = (tokens m s' - if bool_decide (s' = s) then 1 else 0)%nat.
Proof.
  intros [Hwf Hpos]; unfold consumeSuppressedWakeEvent, tokens.
  destruct (map_get s m) as [n|] eqn:Hs; simpl.
  - specialize (Hpos s n Hs) as Hn; destruct (Z.leb_spec n 0); [lia|].
    destruct (Z.eqb_spec n 1) as [->|Hn1]; split_and!; try (case_bool_decide; [done|lia]).
    + split; [by apply map_delete_wf|]; intros s' n'; by_key s s'; [done|eauto].
    + intros s'; by_key s s'; [by rewrite bool_decide_true, Hs|].
      rewrite bool_decide_false by done; lia.
    + split; [by apply map_set_wf|]; intros s' n'; by_key s s'; [intros [= <-]; lia|eauto].
    + intros s'; by_key s s'; [rewrite bool_decide_true, Hs by done; simpl; lia|].
      rewrite bool_decide_false by done; lia.
  - split_and!; [done|done|]; intros s'; case_bool_decide; subst; rewrite ?Hs; simpl; lia.
Qed.

Lemma suppress_spec s m :
  counters_wf m →
  counters_wf (suppressNextWakeEvent s m)
  ∧ ∀ s', tokens (suppressNextWakeEvent s m) s'
          = (tokens m s' + if bool_decide (s' = s) then 1 else 0)%nat.
Proof.
  intros [Hwf Hpos]; unfold suppressNextWakeEvent, tokens; split.
  - split; [by apply map_set_wf|]; intros s' n; by_key s s'; [|eauto]; intros [= <-].
    destruct (map_get s' m) as [n'|] eqn:Hs; simpl; [specialize (Hpos s' n' Hs)|]; lia.
  - intros s'; by_key s s'.
    + rewrite bool_decide_true by done; simpl.
      destruct (map_get s' m) as [n'|] eqn:Hs; simpl; [specialize (Hpos s' n' Hs)|]; lia.
    + rewrite bool_decide_false by done; lia.
Qed.

(** ** Which wakes are dispatched *)

Section Dispatched.
Context {P R : Type}.
Implicit Types (events : list (CoreEvent P)) (quota : string → nat).

Definition names (s : string) (e : CoreEvent P) : bool :=
  match e with
  | session_archived s' | brain_wake_requested s' _ => bool_decide (s' = s)
  | other_event => false
  end.

(** The events of a session. *)
Definition occurrences (s : string) events : nat := length (List.filter (names s) events).

(** The wake requests that at least [quota s] events of their session precede. *)
Definition due quota events : list (string * P) :=
  omap id (imap (λ i e,
    match e with
    | brain_wake_requested s p =>
        if (quota s <=? occurrences s (take i events))%nat then Some (s, p) else None
    | _ => None
    end) events).

Definition spend (e : CoreEvent P) quota (s : string) : nat :=
  (quota s - if names s e then 1 else 0)%nat.

Lemma occurrences_cons s e events :
  occurrences s (e :: events) = ((if names s e then 1 else 0) + occurrences s events)%nat.
Proof. unfold occurrences; simpl; by destruct (names s e). Qed.

Lemma due_ext quota quota' events : (∀ s, quota s = quota' s) → due quota events = due quota' events.
Proof.
  intros Hq; unfold due; f_equal; apply imap_ext; intros i e _; destruct e; [done| |done].
  by rewrite Hq.
Qed.

Lemma due_cons quota e events :
  due quota (e :: events)
  = match e with
    | brain_wake_requested s p => if (quota s =? 0)%nat then [(s, p)] else []
    | _ => []
    end ++ due (spend e quota) events.
Proof.
  unfold due at 1; rewrite imap_cons; simpl.
  assert (imap ((λ i e', match e' with
      | brain_wake_requested s p =>
          if (quota s <=? occurrences s (take i (e :: events)))%nat then Some (s, p) else None
      | _ => None
      end) ∘ S) events
    = imap (λ i e', match e' with
      | brain_wake_requested s p =>
          if (spend e quota s <=? occurrences s (take i events))%nat then Some (s, p) else None
      | _ => None
      end) events) as Heq.
  { apply imap_ext; intros i e' _; destruct e' as [|s p|]; [done| |done]; simpl.
    rewrite occurrences_cons; unfold spend; destruct (names s e);
      destruct (Nat.leb_spec (quota s) (1 + occurrences s (take i events)));
      destruct (Nat.leb_spec (quota s - 1) (occurrences s (take i events)));
      rewrite ?Nat.sub_0_r; try done; lia. }
  simpl in Heq; rewrite Heq; destruct e as [s|s p|]; try done.
  unfold occurrences at 1; simpl; by destruct (quota s).
Qed.

Context (dispatchWake : string → P → counters → result R * counters) (outcome : string → P → result R).
Context (Hdispatch : ∀ s p m, dispatchWake s p m = (outcome s p, m)).

Lemma drain_events_spec events m reports :
  counters_wf m →
  (drain_events dispatchWake events m reports).1
  = (λ rs, reports ++ rs) <$> mapR (λ w, outcome w.1 w.2) (due (tokens m) events)
  ∧ ∀ rs m', drain_events dispatchWake events m reports = (Ok rs, m') →
      counters_wf m' ∧ ∀ s, tokens m' s = (tokens m s - occurrences s events)%nat.
Proof.
  revert m reports; induction events as [|e events IH]; intros m reports Hwf.
  { simpl; rewrite app_nil_r; split; [done|]; intros rs m' [= <- <-].
    split; [done|]; intros s; unfold occurrences; simpl; lia. }
  rewrite due_cons; destruct e as [s|s p|]; cbn [drain_events app].
  - pose proof (consume_spec s m Hwf) as Hc.
    destruct (consumeSuppressedWakeEvent s m) as [b m1]; destruct Hc as (Hwf1 & _ & Ht); simpl.
    destruct (IH m1 reports Hwf1) as [H1 H2]; rewrite H1; split.
    + f_equal; f_equal; apply due_ext; intros s'; rewrite Ht; unfold spend, names.
      by rewrite (bool_decide_ext (s' = s) (s = s')).
    + intros rs m' Hd; destruct (H2 rs m' Hd) as [? Ht']; split; [done|]; intros s'.
      rewrite Ht', Ht, occurrences_cons; simpl; rewrite (bool_decide_ext (s' = s) (s = s')) by done; lia.
  - pose proof (consume_spec s m Hwf) as Hc.
    destruct (consumeSuppressedWakeEvent s m) as [b m1]; destruct Hc as (Hwf1 & -> & Ht).
    assert (∀ s', tokens m1 s' = spend (brain_wake_requested s p) (tokens m) s') as Hspend.
    { intros s'; rewrite Ht; unfold spend, names; by rewrite (bool_decide_ext (s' = s) (s = s')). }
    assert (∀ s', (tokens m1 s' - occurrences s' events
      = tokens m s' - occurrences s' (brain_wake_requested s p :: events))%nat) as Hfinal.
    { intros s'; rewrite Hspend, occurrences_cons; unfold spend; lia. }
    destruct (Nat.eqb_spec (tokens m s) 0) as [H0|H0].
    + rewrite bool_decide_false by lia; rewrite Hdispatch; simpl.
      destruct (outcome s p) as [r|err]; [|done]; simpl.
      destruct (IH m1 (reports ++ [r]) Hwf1) as [H1 H2]; rewrite H1, (due_ext _ _ _ Hspend); split.
      * generalize (mapR (λ w : string * P, outcome w.1 w.2)
          (due (spend (brain_wake_requested s p) (tokens m)) events)).
        intros [rs|err]; cbn; [|done]; by rewrite <- (assoc_L (++)).
      * intros rs m' Hd; destruct (H2 rs m' Hd) as [? Ht']; split; [done|]; intros s'.
        by rewrite Ht', Hfinal.
    + rewrite bool_decide_true by lia; simpl.
      destruct (IH m1 reports Hwf1) as [H1 H2]; rewrite H1, (due_ext _ _ _ Hspend); split; [done|].
      intros rs m' Hd; destruct (H2 rs m' Hd) as [? Ht']; split; [done|]; intros s'.
      by rewrite Ht', Hfinal.
  - destruct (IH m reports Hwf) as [H1 H2]; rewrite H1; split.
    + f_equal; f_equal; apply due_ext; intros s'; unfold spend; simpl; lia.
    + intros rs m' Hd; destruct (H2 rs m' Hd) as [? Ht']; split; [done|]; intros s'.
      by rewrite Ht', occurrences_cons.
Qed.
End Dispatched.

(** When dispatching leaves the suppression counters alone, draining dispatches
    exactly the wake requests that at least as many events
    of their session precede, archivals included, as that session had suppressions
    pending, in order; it throws what the first failing dispatch throws.  When it
    returns, each session's pending suppressions have gone down by the number of
    its events, never below zero, and no session is kept with none. *)
Theorem drain_suppression_exact {P R : Type}
    (dispatchWake : string → P → counters → result R * counters) (outcome : string → P → result R)
    (drainSubscriptionEvents : nat → list (CoreEvent P)) m :
  (∀ s p m, dispatchWake s p m = (outcome s p, m)) → counters_wf m →
  let events := drainSubscriptionEvents 128%nat in
  (drainAndDispatchWakes dispatchWake drainSubscriptionEvents m).1
  = mapR (λ w, outcome w.1 w.2) (due (tokens m) events)
  ∧ ∀ reports m', drainAndDispatchWakes dispatchWake drainSubscriptionEvents m = (Ok reports, m') →
      counters_wf m' ∧ ∀ s, tokens m' s = (tokens m s - occurrences s events)%nat.
Proof.
  intros Hd Hwf events; unfold drainAndDispatchWakes.
  destruct (drain_events_spec dispatchWake outcome Hd events m [] Hwf) as [H1 H2].
  split; [|exact H2]; subst events; rewrite H1; by destruct (mapR _ _).
Qed.

(** A dispatch that changes the counters by suppressing and consuming keeps them
    well formed, and so does the drain around it, also when it throws. *)
Lemma drain_events_wf {P R} (dispatchWake : string → P → counters → result R * counters) events m reports :
  (∀ s p m, counters_wf m → counters_wf (dispatchWake s p m).2) → counters_wf m →
  counters_wf (drain_events dispatchWake events m reports).2.
Proof.
  intros Hd; revert m reports; induction events as [|[s|s p|] events IH]; intros m reports Hwf; simpl;
    [done| | |by apply IH].
  - pose proof (consume_spec s m Hwf) as Hc.
    destruct (consumeSuppressedWakeEvent s m); apply IH, Hc.
  - pose proof (consume_spec s m Hwf) as Hc; destruct (consumeSuppressedWakeEvent s m) as [[] m1];
      [apply IH, Hc|].
    pose proof (Hd s p m1 (proj1 Hc)) as Hd1; destruct (dispatchWake s p m1) as [[r|e] m2]; [|done].
    by apply IH.
Qed.

(** One suppression swallows the next event of its session, and no other. *)
Lemma suppressed_once {P} s (p : P) m :
  counters_wf m → tokens m s = 0%nat →
  due (tokens (suppressNextWakeEvent s m)) [brain_wake_requested s p; brain_wake_requested s p]
  = [(s, p)].
Proof.
  intros Hwf H0; destruct (suppress_spec s m Hwf) as [_ Ht].
  rewrite due_cons, Ht, bool_decide_true, H0 by done; simpl.
  rewrite due_cons; unfold spend at 1; simpl; rewrite Ht, !bool_decide_true, H0 by done; done.
Qed.

Lemma delivery_claimed `{!DateText} policy expiresAt now :
  deliveryIntentWakeDecision policy expiresAt now = claim_and_wake subscription ↔
  deliveryIntentExpired expiresAt now = false ∧ policy ≠ Some "manual" ∧ policy ≠ Some "disabled".
Proof.
  unfold deliveryIntentWakeDecision; destruct (deliveryIntentExpired expiresAt now); [naive_solver|].
  unfold normalizeChannelWakePolicy; repeat case_match; naive_solver.
Qed.

Module WakeSample.
Definition events (limit : nat) : list (CoreEvent nat) :=
  take limit [brain_wake_requested "a" 1%nat; brain_wake_requested "b" 2%nat; session_archived "a";
    other_event; brain_wake_requested "a" 3%nat; brain_wake_requested "a" 4%nat].
Definition dispatch (s : string) (p : nat) (m : counters) : result (string * nat) * counters :=
  (Ok (s, p), m).
Definition pending : counters := suppressNextWakeEvent "a" (suppressNextWakeEvent "a" []).

Lemma pending_wf : counters_wf pending.
Proof. apply suppress_spec, suppress_spec; split; [constructor|done]. Qed.

(** Two suppressions of [a] swallow its first wake and its archival. *)
Lemma drain_suppression_exact_witness :
  drainAndDispatchWakes dispatch events pending
  = (Ok [("b", 2%nat); ("a", 3%nat); ("a", 4%nat)], [])
  ∧ mapR (λ w : string * nat, Ok (A := string * nat) (w.1, w.2)) (due (tokens pending) (events 128))
    = Ok [("b", 2%nat); ("a", 3%nat); ("a", 4%nat)].
Proof.
  split; [vm_compute; reflexivity|].
  rewrite <- (proj1 (drain_suppression_exact dispatch (λ s p, Ok (s, p)) events pending
    (λ _ _ _, eq_refl) pending_wf)).
  vm_compute; reflexivity.
Defined.
End WakeSample.
