(* ===== verification/ToolRegistry.v ===== *)
(** * The tool registry

    [ts/packages/brain-island/src/tool-registry.ts]: registration metadata, its
    validation, name and alias resolution, and the inventory that says for a
    request which tools a session gets and why the others are left out.  The
    string unions of the source (category, surface, safety flag) are strings, as
    the portable catalog casts them from JSON unchecked.  [localeCompare] is the
    collation of the host, an argument of the definitions that sort. *)

From S2P Require Import Prelude JsString.

(** ** Data *)

Record ToolDeprecation := {
  dep_reason : string;
  dep_since : string;
  dep_replacement : option string;
  dep_sunset : option string
}.

Record ToolRegistryMetadata := {
  name : string;
  description : string;
  category : string;
  toolsets : list string;
  surfaces : list string;
  safety : list string;
  outputShape : string;
  version : string;
  aliases : option (list string);
  deprecated : option ToolDeprecation;
  replacement : option string;
  coexistenceNote : option string
}.

Record ToolExecutableBinding := {
  binding_name : string;
  implementationModule : string;
  inventoryTest : string
}.

Inductive IssueCode :=
| duplicate_name | alias_collides_with_name | duplicate_alias | capability_collision
| implementation_shape_drift | deprecated_without_replacement
| replacement_without_deprecation | bad_deprecation | invalid_replacement
| deprecated_replacement_self_reference | missing_replacement_tool | invalid_name
| invalid_alias | invalid_toolset | invalid_output_shape | invalid_version
| missing_metadata | duplicate_metadata_value | missing_executable_binding
| orphan_executable_binding | duplicate_executable_binding.

Inductive Severity := error | warning.

Record ToolRegistryValidationIssue := {
  severity : Severity;
  issue_code : IssueCode;
  toolName : option string;
  otherToolName : option string;
  issue_message : string
}.

Record ToolRegistryValidation := {
  ok : bool;
  issues : list ToolRegistryValidationIssue
}.

Definition issue (c : IssueCode) (tool : string) (other : option string) (message : string) :=
  {| severity := error; issue_code := c; toolName := Some tool; otherToolName := other;
     issue_message := message |}.

(** ** Validation *)

Definition lower_or_digit_or_underscore (c : ascii) : bool :=
  is_lower c || is_digit c || bool_decide (c = "_"%char).

(** [/^[a-z][a-z0-9_]*$/] *)
Definition lower_snake_case (s : string) : bool :=
  match chars s with
  | [] => false
  | c :: t => is_lower c && forallb lower_or_digit_or_underscore t
  end.

Definition blank (s : string) : bool := bool_decide (Str.trim s = "").

Definition validateEntryMetadata (e : ToolRegistryMetadata) : list ToolRegistryValidationIssue :=
  (if lower_snake_case (name e) then []
   else [issue invalid_name (name e) None
           ("tool name " +:+ name e +:+ " must be lower snake case")])
  ++
  (if existsb blank [description e; category e; outputShape e; version e]
      || bool_decide (toolsets e = []) || bool_decide (surfaces e = [])
   then [issue missing_metadata (name e) None
           ("tool " +:+ name e +:+ " is missing required metadata")]
   else []).

(** The alias loop of the first pass; an owner is a name, falsy when empty. *)
Fixpoint register_aliases (owner : string) (als : list string) (aliasOwners : jsmap string string)
    : list ToolRegistryValidationIssue * jsmap string string :=
  match als with
  | [] => ([], aliasOwners)
  | alias :: als' =>
      let aliasOwner := map_get alias aliasOwners in
      if truthy aliasOwner then
        let '(rest, owners) := register_aliases owner als' aliasOwners in
        (issue duplicate_alias owner aliasOwner
           ("alias " +:+ alias +:+ " is used by multiple tools") :: rest, owners)
      else register_aliases owner als' (map_set alias owner aliasOwners)
  end.

(** First pass: metadata, unique names, unique aliases. *)
Fixpoint register_entries (es : list ToolRegistryMetadata)
    (byName : jsmap string ToolRegistryMetadata) (aliasOwners : jsmap string string)
    : list ToolRegistryValidationIssue * jsmap string ToolRegistryMetadata :=
  match es with
  | [] => ([], byName)
  | e :: es' =>
      let '(is_name, byName') :=
        match map_get (name e) byName with
        | Some existing =>
            ([issue duplicate_name (name e) (Some (name existing))
                ("duplicate tool name " +:+ name e)], byName)
        | None => ([], map_set (name e) e byName)
        end in
      let '(is_alias, aliasOwners') := register_aliases (name e) (default [] (aliases e)) aliasOwners in
      let '(is_rest, byName'') := register_entries es' byName' aliasOwners' in
      (validateEntryMetadata e ++ is_name ++ is_alias ++ is_rest, byName'')
  end.

(** Second pass: executable bindings. *)
Fixpoint register_bindings (bs : list ToolExecutableBinding)
    (byName : jsmap string ToolRegistryMetadata)
    (bindingsByName : jsmap string ToolExecutableBinding)
    : list ToolRegistryValidationIssue * jsmap string ToolExecutableBinding :=
  match bs with
  | [] => ([], bindingsByName)
  | b :: bs' =>
      let '(is_dup, bindingsByName') :=
        match map_get (binding_name b) bindingsByName with
        | Some existing =>
            ([issue duplicate_executable_binding (binding_name b) (Some (binding_name existing))
                ("duplicate executable binding for " +:+ binding_name b)], bindingsByName)
        | None => ([], map_set (binding_name b) b bindingsByName)
        end in
      let is_orphan :=
        if map_has (binding_name b) byName then []
        else [issue orphan_executable_binding (binding_name b) None
                ("executable binding " +:+ binding_name b +:+ " has no portable metadata")] in
      let '(is_rest, bindingsByName'') := register_bindings bs' byName bindingsByName' in
      (is_dup ++ is_orphan ++ is_rest, bindingsByName'')
  end.

Definition missing_bindings (es : list ToolRegistryMetadata)
    (bindingsByName : jsmap string ToolExecutableBinding) : list ToolRegistryValidationIssue :=
  es ≫= λ e,
    if map_has (name e) bindingsByName then []
    else [issue missing_executable_binding (name e) None
            ("tool metadata " +:+ name e +:+ " has no executable binding")].

Definition alias_collisions (e : ToolRegistryMetadata)
    (byName : jsmap string ToolRegistryMetadata) : list ToolRegistryValidationIssue :=
  default [] (aliases e) ≫= λ alias,
    match map_get alias byName with
    | Some canonical =>
        if bool_decide (name canonical = name e) then []
        else [issue alias_collides_with_name (name e) (Some (name canonical))
                ("alias " +:+ alias +:+ " collides with canonical tool " +:+ name canonical)]
    | None => []
    end.

Definition deprecation_issues (e : ToolRegistryMetadata) : list ToolRegistryValidationIssue :=
  match deprecated e with
  | Some d =>
      if truthy (replacement e) || truthy (dep_replacement d) then []
      else [issue deprecated_without_replacement (name e) None
              ("deprecated tool " +:+ name e +:+ " needs a replacement or sunset note")]
  | None => []
  end.

(** Third pass: collisions between entries.  A later entry replaces the owner of
    its capability and of its implementation module unless it collides. *)
Fixpoint check_entries (es : list ToolRegistryMetadata)
    (byName : jsmap string ToolRegistryMetadata)
    (bindingsByName : jsmap string ToolExecutableBinding)
    (capabilityOwners : jsmap string ToolRegistryMetadata)
    (implementationShapes : jsmap string (ToolExecutableBinding * ToolRegistryMetadata))
    : list ToolRegistryValidationIssue :=
  match es with
  | [] => []
  | e :: es' =>
      let capabilityKey := category e +:+ ":" +:+ outputShape e in
      let capabilityOwner := map_get capabilityKey capabilityOwners in
      let collision :=
        match capabilityOwner with
        | Some o =>
            negb (bool_decide (name o = name e)) && negb (truthy (coexistenceNote e))
            && negb (truthy (coexistenceNote o))
        | None => false
        end in
      let is_capability :=
        if collision
        then [issue capability_collision (name e) (name <$> capabilityOwner)
                (name e +:+ " and " +:+ default "" (name <$> capabilityOwner)
                 +:+ " both claim " +:+ capabilityKey)]
        else [] in
      let capabilityOwners' :=
        if collision then capabilityOwners else map_set capabilityKey e capabilityOwners in
      let '(is_shape, implementationShapes') :=
        match map_get (name e) bindingsByName with
        | None => ([], implementationShapes)
        | Some b =>
            match map_get (implementationModule b) implementationShapes with
            | Some (_, o) =>
                if negb (bool_decide (name o = name e))
                   && negb (bool_decide (outputShape o = outputShape e))
                then ([issue implementation_shape_drift (name e) (Some (name o))
                         (name e +:+ " and " +:+ name o
                          +:+ " share implementation module with different output shapes")],
                      implementationShapes)
                else ([], map_set (implementationModule b) (b, e) implementationShapes)
            | None => ([], map_set (implementationModule b) (b, e) implementationShapes)
            end
        end in
      alias_collisions e byName ++ deprecation_issues e ++ is_capability ++ is_shape
      ++ check_entries es' byName bindingsByName capabilityOwners' implementationShapes'
  end.

Definition is_error (i : ToolRegistryValidationIssue) : bool :=
  match severity i with error => true | warning => false end.

Definition validateToolRegistry (entries : list ToolRegistryMetadata)
    (bindings : list ToolExecutableBinding) (requireExecutableBindings : option bool)
    : ToolRegistryValidation :=
  let '(is_entries, byName) := register_entries entries [] [] in
  let '(is_bindings, bindingsByName) := register_bindings bindings byName [] in
  let is_missing :=
    if default (0 <? length bindings)%nat requireExecutableBindings
    then missing_bindings entries bindingsByName else [] in
  let is_checks := check_entries entries byName bindingsByName [] [] in
  let all := is_entries ++ is_bindings ++ is_missing ++ is_checks in
  {| ok := negb (existsb is_error all); issues := all |}.

Definition formatValidationIssues (found : list ToolRegistryValidationIssue) : string :=
  Str.join "; " (issue_message <$> found).

Definition assertValidToolRegistry (entries : list ToolRegistryMetadata)
    (bindings : list ToolExecutableBinding) : result unit :=
  let validation := validateToolRegistry entries bindings (Some (0 <? length bindings)%nat) in
  if ok validation then Ok () else Throw (formatValidationIssues (issues validation)).

(** ** The registry *)

Record ToolRegistry := {
  entries : list ToolRegistryMetadata;
  bindings : jsmap string ToolExecutableBinding;
  byName : jsmap string ToolRegistryMetadata;
  aliasToName : jsmap string string
}.

Definition new_ToolRegistry (es : list ToolRegistryMetadata) (bs : list ToolExecutableBinding)
    : result ToolRegistry :=
  let validation := validateToolRegistry es bs (Some true) in
  if ok validation
  then Ok {| entries := es;
             bindings := map_of_entries ((λ b, (binding_name b, b)) <$> bs);
             byName := map_of_entries ((λ e, (name e, e)) <$> es);
             aliasToName :=
               map_of_entries (es ≫= λ e, (λ alias, (alias, name e)) <$> default [] (aliases e)) |}
  else Throw (formatValidationIssues (issues validation)).

Definition createToolRegistry := new_ToolRegistry.

Definition get (r : ToolRegistry) (n : string) : option ToolRegistryMetadata :=
  map_get n (byName r).

Definition resolve (r : ToolRegistry) (n : string) : option ToolRegistryMetadata :=
  or_else (map_get n (byName r)) (map_get (default "" (map_get n (aliasToName r))) (byName r)).

Definition canonicalName (r : ToolRegistry) (n : string) : option string :=
  if map_has n (byName r) then Some n else map_get n (aliasToName r).

Definition bindingFor (r : ToolRegistry) (n : string) : option ToolExecutableBinding :=
  let canonical := canonicalName r n in
  if truthy canonical then map_get (default "" canonical) (bindings r) else None.

(** ** The inventory *)

Inductive ToolInventoryStatus :=
| selected | not_requested | profile_denied | session_denied | resource_denied
| deprecated_status | missing | shadowed | collision.

#[global] Instance ToolInventoryStatus_eq_dec : EqDecision ToolInventoryStatus.
Proof. solve_decision. Defined.

Record ToolInventoryRequest := {
  requestedToolsets : option (list string);
  requestedTools : option (list string);
  profileDeniedTools : option (list string);
  sessionDeniedTools : option (list string);
  resourceDeniedTools : option (list string);
  profileDeniedReasons : option (jsmap string string);
  sessionDeniedReasons : option (jsmap string string);
  resourceDeniedReasons : option (jsmap string string);
  includeDeprecated : option bool
}.

Record ToolInventoryItem := {
  item_name : string;
  item_canonicalName : option string;
  item_entry : option ToolRegistryMetadata;
  item_binding : option ToolExecutableBinding;
  status : ToolInventoryStatus;
  reasons : list string
}.

Record ToolDescriptor := { descriptor_name : string; descriptor_description : string }.

Record ToolInventory := {
  selectedTools : list ToolRegistryMetadata;
  selectedBindings : list ToolExecutableBinding;
  selectedDescriptors : list ToolDescriptor;
  items : list ToolInventoryItem
}.

Definition firstDenialStatus (n : string) (profileDenied sessionDenied resourceDenied : list string)
    : option ToolInventoryStatus :=
  if set_has n profileDenied then Some profile_denied
  else if set_has n sessionDenied then Some session_denied
  else if set_has n resourceDenied then Some resource_denied
  else None.

Definition denialReason (n : string) (s : ToolInventoryStatus) (request : ToolInventoryRequest)
    : string :=
  let explicit (r : option (jsmap string string)) := r ≫= map_get n in
  match s with
  | profile_denied =>
      default (n +:+ " was denied by profile denied") (explicit (profileDeniedReasons request))
  | session_denied =>
      default (n +:+ " was denied by session denied") (explicit (sessionDeniedReasons request))
  | _ => default (n +:+ " was denied by resource denied") (explicit (resourceDeniedReasons request))
  end.

Definition toToolDescriptor (e : ToolRegistryMetadata) : ToolDescriptor :=
  {| descriptor_name := name e; descriptor_description := description e |}.

(** The loop over the requested names: the canonical names asked for, the alias
    items and the missing items. *)
Record Requested := {
  requestedCanonicalNames : list string;
  aliasItems : list ToolInventoryItem;
  missingItems : list ToolInventoryItem
}.

Definition request_name (r : ToolRegistry) (acc : Requested) (requestedName : string) : Requested :=
  let canonical := canonicalName r requestedName in
  if negb (truthy canonical)
  then {| requestedCanonicalNames := requestedCanonicalNames acc;
          aliasItems := aliasItems acc;
          missingItems := missingItems acc ++
            [{| item_name := requestedName; item_canonicalName := None; item_entry := None;
                item_binding := None; status := missing;
                reasons := ["requested tool " +:+ requestedName +:+ " is not registered"] |}] |}
  else
    let c := default "" canonical in
    {| requestedCanonicalNames := set_add c (requestedCanonicalNames acc);
       aliasItems :=
         if bool_decide (c = requestedName) then aliasItems acc
         else aliasItems acc ++
           [{| item_name := requestedName; item_canonicalName := Some c; item_entry := get r c;
               item_binding := bindingFor r c; status := shadowed;
               reasons := [requestedName +:+ " resolves to canonical tool " +:+ c] |}];
       missingItems := missingItems acc |}.

Definition request_names (r : ToolRegistry) (requestedNames : list string) : Requested :=
  fold_left (request_name r) requestedNames
    {| requestedCanonicalNames := []; aliasItems := []; missingItems := [] |}.

(** The item of a registered entry. *)
Definition entry_item (r : ToolRegistry) (request : ToolInventoryRequest)
    (toolsetsAsked canonicalNames profileDenied sessionDenied resourceDenied : list string)
    (e : ToolRegistryMetadata) : ToolInventoryItem :=
  let item s why :=
    {| item_name := name e; item_canonicalName := Some (name e); item_entry := Some e;
       item_binding := bindingFor r (name e); status := s; reasons := [why] |} in
  let requestedByName := set_has (name e) canonicalNames in
  let requestedByToolset := existsb (λ t, set_has t toolsetsAsked) (toolsets e) in
  if negb (requestedByName || requestedByToolset)
  then item not_requested "not requested by profile toolsets or explicit tool names"
  else
    match firstDenialStatus (name e) profileDenied sessionDenied resourceDenied with
    | Some s => item s (denialReason (name e) s request)
    | None =>
        match deprecated e, default false (includeDeprecated request) with
        | Some d, false =>
            let use := or_else (replacement e) (dep_replacement d) in
            item deprecated_status
              (if truthy use then name e +:+ " is deprecated; use " +:+ default "" use
               else name e +:+ " is deprecated")
        | _, _ =>
            item selected
              (if requestedByName then "requested explicitly by profile"
               else "requested through toolset "
                    +:+ default "undefined" (List.find (λ t, set_has t toolsetsAsked) (toolsets e)))
        end
    end.

Definition is_selected (i : ToolInventoryItem) : bool := bool_decide (status i = selected).

Definition entry_items (r : ToolRegistry) (request : ToolInventoryRequest)
    : list ToolInventoryItem :=
  let set_of (o : option (list string)) := set_of_list (default [] o) in
  entry_item r request (set_of (requestedToolsets request))
    (requestedCanonicalNames (request_names r (set_of (requestedTools request))))
    (set_of (profileDeniedTools request)) (set_of (sessionDeniedTools request))
    (set_of (resourceDeniedTools request)) <$> entries r.

Section inventory.
Context (localeCompare : string → string → comparison).

Definition buildToolInventory (r : ToolRegistry) (request : ToolInventoryRequest) : ToolInventory :=
  let requested := request_names r (set_of_list (default [] (requestedTools request))) in
  let its := entry_items r request in
  let chosen := List.filter is_selected its in
  let tools := omap item_entry chosen in
  {| selectedTools := tools;
     selectedBindings := omap item_binding chosen;
     selectedDescriptors := toToolDescriptor <$> tools;
     items := sort_by (λ a b, localeCompare (item_name a) (item_name b))
                (its ++ aliasItems requested ++ missingItems requested) |}.
End inventory.

(** ** Lemmas on validation *)

Definition name_pairs (es : list ToolRegistryMetadata) : jsmap string ToolRegistryMetadata :=
  (λ e, (name e, e)) <$> es.
Definition alias_pairs (es : list ToolRegistryMetadata) : jsmap string string :=
  es ≫= λ e, (λ alias, (alias, name e)) <$> default [] (aliases e).
Definition binding_pairs (bs : list ToolExecutableBinding) : jsmap string ToolExecutableBinding :=
  (λ b, (binding_name b, b)) <$> bs.

Lemma lower_snake_case_nonempty s : lower_snake_case s = true → s ≠ "".
Proof. by intros H ->. Qed.

Lemma validateEntryMetadata_nil e :
  validateEntryMetadata e = [] →
  lower_snake_case (name e) = true ∧ toolsets e ≠ [] ∧ surfaces e ≠ []
  ∧ Forall (λ s, Str.trim s ≠ "") [description e; category e; outputShape e; version e].
Proof.
  unfold validateEntryMetadata.
  destruct (lower_snake_case (name e)); [|done].
  case_match eqn:Hm; [done|]; intros _; split; [done|].
  apply orb_false_iff in Hm as [[Hb Ht]%orb_false_iff Hs].
  apply bool_decide_eq_false in Ht; apply bool_decide_eq_false in Hs.
  split_and!; [done|done|]; apply Forall_forall; intros s Hin Htr.
  apply not_true_iff_false in Hb; apply Hb, existsb_exists; exists s.
  split; [by apply list_elem_of_In|]; by apply bool_decide_eq_true.
Qed.

Lemma register_aliases_nil owner als m m' :
  owner ≠ "" → Forall (λ p, p.2 ≠ "") m → map_wf m →
  register_aliases owner als m = ([], m') →
  m' = m ++ ((λ a, (a, owner)) <$> als) ∧ map_wf m' ∧ Forall (λ p, p.2 ≠ "") m'.
Proof.
  intros Howner; revert m; induction als as [|a als IH]; intros m Hm Hwf; cbn -[truthy].
  - intros [= <-]; rewrite app_nil_r; auto.
  - destruct (map_get a m) as [o|] eqn:Ha.
    + apply map_get_elem in Ha; rewrite Forall_forall in Hm.
      assert (o ≠ "") as Ho%String.eqb_neq by apply (Hm _ Ha).
      unfold truthy at 1; rewrite Ho; simpl; by destruct (register_aliases owner als m).
    + simpl; rewrite map_set_absent by done; intros H.
      apply IH in H as (-> & ? & ?); [|by apply Forall_app; auto|by apply map_wf_snoc].
      by rewrite <- app_assoc in *.
Qed.

Lemma register_entries_nil es m a m' :
  map_wf m → map_wf a → Forall (λ p, p.2 ≠ "") a →
  register_entries es m a = ([], m') →
  m' = m ++ name_pairs es ∧ map_wf m' ∧ map_wf (a ++ alias_pairs es)
  ∧ Forall (λ e, validateEntryMetadata e = []) es.
Proof.
  revert m a; induction es as [|e es IH]; intros m a Hm Ha Hne; cbn [register_entries].
  - intros [= <-]; rewrite !app_nil_r; auto.
  - destruct (map_get (name e) m) as [ex|] eqn:Hn.
    { destruct (register_aliases _ _ _), (register_entries _ _ _).
      intros [= H _]; by apply app_eq_nil in H as [_ ?]. }
    destruct (register_aliases _ _ _) as [is_alias a'] eqn:Hal.
    destruct (register_entries _ _ _) as [is_rest m''] eqn:Hrest.
    intros [= Hnil <-]; apply app_eq_nil in Hnil as [Hv [-> ->]%app_eq_nil].
    pose proof (validateEntryMetadata_nil _ Hv) as (Hname & _).
    apply register_aliases_nil in Hal as (-> & Hwf & Hne');
      [|by apply lower_snake_case_nonempty|done|done].
    rewrite map_set_absent in Hrest by done.
    apply IH in Hrest as (-> & ? & Hwf2 & ?); [|by apply map_wf_snoc|done|done].
    rewrite <- app_assoc in *; split_and!; [done|done|exact Hwf2|by constructor].
Qed.

Lemma register_bindings_nil bs names m m' :
  map_wf m → register_bindings bs names m = ([], m') →
  m' = m ++ binding_pairs bs ∧ map_wf m'
  ∧ Forall (λ b, binding_name b ∈ map_keys names) bs.
Proof.
  revert m; induction bs as [|b bs IH]; intros m Hm; cbn [register_bindings].
  - intros [= <-]; rewrite !app_nil_r; auto.
  - destruct (map_get (binding_name b) m) as [ex|] eqn:Hn.
    { by destruct (register_bindings _ _ _). }
    destruct (register_bindings _ _ _) as [is_rest m''] eqn:Hrest.
    destruct (map_has (binding_name b) names) eqn:Hhas; [|done].
    intros [= -> <-]; rewrite map_set_absent in Hrest by done.
    apply IH in Hrest as (-> & ? & ?); [|by apply map_wf_snoc].
    rewrite <- app_assoc in *; split_and!; [done|done|constructor; [|done]].
    by apply map_has_true.
Qed.

Lemma missing_bindings_nil es bm :
  missing_bindings es bm = [] → Forall (λ e, name e ∈ map_keys bm) es.
Proof.
  intros H; apply Forall_forall; intros e He; apply map_has_true.
  destruct (map_has (name e) bm) eqn:Hh; [done|].
  unfold missing_bindings in H; assert (issue missing_executable_binding (name e) None
    ("tool metadata " +:+ name e +:+ " has no executable binding") ∈ @nil ToolRegistryValidationIssue) as Hin.
  { rewrite <- H; apply list_elem_of_bind; exists e; rewrite Hh; split; [left|done]. }
  by apply not_elem_of_nil in Hin.
Qed.

Lemma check_entries_nil es names bm owners shapes :
  check_entries es names bm owners shapes = [] →
  Forall (λ e, alias_collisions e names = [] ∧ deprecation_issues e = []) es.
Proof.
  revert owners shapes; induction es as [|e es IH]; intros owners shapes; [constructor|].
  cbn [check_entries]; case_match eqn:Hshape.
  intros (Ha & (Hd & (_ & (_ & Hrest)%app_eq_nil)%app_eq_nil)%app_eq_nil)%app_eq_nil.
  constructor; [done|by eapply IH].
Qed.

(** Every issue the validator pushes is an error. *)
Definition errors (l : list ToolRegistryValidationIssue) : Prop :=
  Forall (λ i, severity i = error) l.

Lemma errors_app l1 l2 : errors (l1 ++ l2) ↔ errors l1 ∧ errors l2.
Proof. apply Forall_app. Qed.

Lemma register_aliases_errors owner als m : errors (register_aliases owner als m).1.
Proof.
  revert m; induction als as [|a als IH]; intros m; cbn -[truthy]; [constructor|].
  case_match; [|apply IH]. specialize (IH m).
  destruct (register_aliases owner als m); simpl in *; by constructor.
Qed.

Lemma validateEntryMetadata_errors e : errors (validateEntryMetadata e).
Proof. unfold validateEntryMetadata; apply Forall_app; split; case_match; by repeat constructor. Qed.

Lemma register_entries_errors es m a : errors (register_entries es m a).1.
Proof.
  revert m a; induction es as [|e es IH]; intros m a; cbn [register_entries]; [constructor|].
  case_match eqn:Hn. pose proof (register_aliases_errors (name e) (default [] (aliases e)) a) as Ha.
  destruct (register_aliases _ _ _) as [ia a'].
  match goal with |- context [register_entries es ?x ?y] =>
    specialize (IH x y); destruct (register_entries es x y) end.
  simpl in *; rewrite !errors_app; split_and!; try done; [apply validateEntryMetadata_errors|].
  destruct (map_get (name e) m); simplify_eq; by repeat constructor.
Qed.

Lemma register_bindings_errors bs names m : errors (register_bindings bs names m).1.
Proof.
  revert m; induction bs as [|b bs IH]; intros m; cbn [register_bindings]; [constructor|].
  case_match eqn:Hn.
  match goal with |- context [register_bindings bs ?x ?y] =>
    specialize (IH y); destruct (register_bindings bs x y) end.
  simpl in *; rewrite !errors_app; split_and!; try done.
  - destruct (map_get _ m); simplify_eq; by repeat constructor.
  - repeat case_match; by repeat constructor.
Qed.

Lemma bind_errors {A} (f : A → list ToolRegistryValidationIssue) l :
  (∀ x, errors (f x)) → errors (l ≫= f).
Proof. intros Hf; apply Forall_forall; intros i (x & Hi & _)%list_elem_of_bind.
  by apply (proj1 (Forall_forall _ _) (Hf x)). Qed.

Lemma check_entries_errors es names bm owners shapes :
  errors (check_entries es names bm owners shapes).
Proof.
  revert owners shapes; induction es as [|e es IH]; intros; [constructor|].
  cbn [check_entries]; case_match eqn:Hshape.
  rewrite !errors_app; split_and!.
  - apply bind_errors; intros; repeat case_match; by repeat constructor.
  - unfold deprecation_issues; repeat case_match; by repeat constructor.
  - destruct (map_get _ owners); repeat case_match; by repeat constructor.
  - repeat case_match; simplify_eq; by repeat constructor.
  - apply IH.
Qed.

Lemma validateToolRegistry_errors es bs req : errors (issues (validateToolRegistry es bs req)).
Proof.
  unfold validateToolRegistry.
  pose proof (register_entries_errors es [] []).
  destruct (register_entries es [] []) as [ie names].
  pose proof (register_bindings_errors bs names []).
  destruct (register_bindings bs names []) as [ib bm]; simpl in *.
  rewrite !errors_app; split_and!; try done; [|apply check_entries_errors].
  case_match; [|constructor].
  apply bind_errors; intros; case_match; by repeat constructor.
Qed.

Lemma ok_issues es bs req :
  ok (validateToolRegistry es bs req) = true → issues (validateToolRegistry es bs req) = [].
Proof.
  pose proof (validateToolRegistry_errors es bs req) as He; revert He.
  assert (ok (validateToolRegistry es bs req)
          = negb (existsb is_error (issues (validateToolRegistry es bs req)))) as ->.
  { unfold validateToolRegistry; by repeat case_match. }
  destruct (issues _) as [|i l]; [done|].
  intros [Hi _]%Forall_cons; simpl; unfold is_error at 1; by rewrite Hi.
Qed.

(** What a registry that passed validation is. *)
Record registry_wf (r : ToolRegistry) : Prop := {
  wf_byName : byName r = name_pairs (entries r);
  wf_alias : aliasToName r = alias_pairs (entries r);
  wf_names : NoDup (name <$> entries r);
  wf_aliases : map_wf (aliasToName r);
  wf_bindings : map_wf (bindings r);
  wf_binding_name : Forall (λ p, binding_name p.2 = p.1) (bindings r);
  wf_bound : ∀ n, n ∈ map_keys (bindings r) ↔ n ∈ name <$> entries r;
  wf_metadata : Forall (λ e, validateEntryMetadata e = []) (entries r);
  wf_no_collision : ∀ alias n, (alias, n) ∈ aliasToName r →
                     alias ∈ name <$> entries r → alias = n;
  wf_deprecated : Forall (λ e, deprecation_issues e = []) (entries r)
}.

Lemma name_pairs_keys es : map_keys (name_pairs es) = name <$> es.
Proof. unfold map_keys, name_pairs; by rewrite <- list_fmap_compose. Qed.

Lemma binding_pairs_keys bs : map_keys (binding_pairs bs) = binding_name <$> bs.
Proof. unfold map_keys, binding_pairs; by rewrite <- list_fmap_compose. Qed.

Lemma elem_of_alias_pairs a n es :
  (a, n) ∈ alias_pairs es ↔ ∃ e, e ∈ es ∧ n = name e ∧ a ∈ default [] (aliases e).
Proof.
  unfold alias_pairs; rewrite list_elem_of_bind; split.
  - intros (e & (a' & [= -> ->] & ?)%list_elem_of_fmap & ?); eauto.
  - intros (e & ? & -> & ?); exists e; split; [|done]; apply list_elem_of_fmap; eauto.
Qed.

Lemma map_get_name_pairs es e :
  NoDup (name <$> es) → e ∈ es → map_get (name e) (name_pairs es) = Some e.
Proof.
  intros Hnd He; apply map_get_wf; [by unfold map_wf; rewrite name_pairs_keys|].
  apply list_elem_of_fmap; eauto.
Qed.

Lemma alias_collisions_nil e es alias :
  NoDup (name <$> es) → alias_collisions e (name_pairs es) = [] →
  alias ∈ default [] (aliases e) → alias ∈ name <$> es → alias = name e.
Proof.
  intros Hnd Hnil Hal (c & -> & Hc)%list_elem_of_fmap.
  destruct (decide (name c = name e)) as [|Hne]; [done|exfalso].
  assert (issue alias_collides_with_name (name e) (Some (name c))
    ("alias " +:+ name c +:+ " collides with canonical tool " +:+ name c)
    ∈ alias_collisions e (name_pairs es)) as Hin.
  { apply list_elem_of_bind; exists (name c); split; [|done].
    cbv beta; rewrite (map_get_name_pairs es c), bool_decide_eq_false_2 by done; left. }
  rewrite Hnil in Hin; by apply not_elem_of_nil in Hin.
Qed.

Lemma new_ToolRegistry_entries es bs r : new_ToolRegistry es bs = Ok r → entries r = es.
Proof. unfold new_ToolRegistry; case_match; by intros [= <-]. Qed.

Lemma new_ToolRegistry_bindings es bs r n b :
  new_ToolRegistry es bs = Ok r → (n, b) ∈ bindings r → b ∈ bs.
Proof.
  unfold new_ToolRegistry; case_match; intros [= <-]; simpl.
  by intros (b' & [= -> ->] & ?)%map_of_entries_elem%list_elem_of_fmap.
Qed.

Lemma new_ToolRegistry_wf es bs r : new_ToolRegistry es bs = Ok r → registry_wf r.
Proof.
  unfold new_ToolRegistry; case_match eqn:Hok; [|done]; intros [= <-].
  apply ok_issues in Hok; revert Hok; unfold validateToolRegistry.
  destruct (register_entries es [] []) as [ie names] eqn:He.
  destruct (register_bindings bs names []) as [ib bm] eqn:Hb; simpl.
  intros [-> [-> [Hmiss Hchk]%app_eq_nil]%app_eq_nil]%app_eq_nil.
  apply register_entries_nil in He as (-> & Hnames & Hals & Hmeta); [|constructor..].
  apply register_bindings_nil in Hb as (-> & Hbinds & Horph); [|constructor].
  apply missing_bindings_nil in Hmiss; apply check_entries_nil in Hchk; simpl in *.
  assert (NoDup (name <$> es)) by (unfold map_wf in Hnames; by rewrite name_pairs_keys in Hnames).
  rewrite Forall_forall in Horph; rewrite Forall_forall in Hmiss; rewrite Forall_forall in Hchk.
  split; simpl; rewrite ?(map_of_entries_wf _ Hnames), ?(map_of_entries_wf _ Hals),
    ?(map_of_entries_wf _ Hbinds); try done.
  - apply Forall_forall; by intros ? (b & -> & _)%list_elem_of_fmap.
  - rewrite <- name_pairs_keys; intros n; split.
    + rewrite binding_pairs_keys; intros (b & -> & ?)%list_elem_of_fmap; by apply Horph.
    + rewrite name_pairs_keys; intros (e & -> & ?)%list_elem_of_fmap; by apply Hmiss.
  - intros a n (e & He & -> & Ha)%elem_of_alias_pairs Hin.
    eapply alias_collisions_nil; eauto; by apply Hchk.
  - apply Forall_forall; intros e He; by apply Hchk.
Qed.

(** ** Resolution in a valid registry *)

Definition answers_to (e : ToolRegistryMetadata) (n : string) : Prop :=
  n = name e ∨ n ∈ default [] (aliases e).

Section wf_registry.
Context (r : ToolRegistry) (Hr : registry_wf r).

Lemma wf_name_nonempty e : e ∈ entries r → name e ≠ "".
Proof.
  intros He; apply lower_snake_case_nonempty.
  pose proof (wf_metadata _ Hr) as Hm; rewrite Forall_forall in Hm.
  by apply validateEntryMetadata_nil, Hm.
Qed.

Lemma wf_name_inj e1 e2 : e1 ∈ entries r → e2 ∈ entries r → name e1 = name e2 → e1 = e2.
Proof.
  intros H1 H2 Heq; pose proof (map_get_name_pairs _ _ (wf_names _ Hr) H1) as G1.
  rewrite Heq, (map_get_name_pairs _ _ (wf_names _ Hr) H2) in G1; by simplify_eq.
Qed.

Lemma get_Some n e : get r n = Some e ↔ e ∈ entries r ∧ name e = n.
Proof.
  unfold get; rewrite (wf_byName _ Hr); split.
  - by intros (e' & [= -> ->] & ?)%map_get_elem%list_elem_of_fmap.
  - intros [He <-]; by apply map_get_name_pairs, He; apply wf_names.
Qed.

Lemma byName_keys : map_keys (byName r) = name <$> entries r.
Proof. by rewrite (wf_byName _ Hr), name_pairs_keys. Qed.

Lemma canonicalName_Some n c :
  canonicalName r n = Some c ↔ ∃ e, e ∈ entries r ∧ name e = c ∧ answers_to e n.
Proof.
  unfold canonicalName, answers_to.
  destruct (map_has n (byName r)) eqn:Hn.
  - apply map_has_true in Hn; rewrite byName_keys in Hn.
    split.
    + intros [= <-]; apply list_elem_of_fmap in Hn as (e & -> & ?); eauto.
    + intros (e & He & <- & [->|Ha]); [done|].
      f_equal; apply (wf_no_collision _ Hr); [|done].
      rewrite (wf_alias _ Hr); apply elem_of_alias_pairs; eauto.
  - apply not_true_iff_false in Hn; rewrite map_has_true, byName_keys in Hn; split.
    + rewrite (wf_alias _ Hr); intros (e & ? & -> & ?)%map_get_elem%elem_of_alias_pairs; eauto.
    + intros (e & He & <- & [->|Ha]); [by destruct Hn; apply list_elem_of_fmap_2|].
      apply map_get_wf; [apply (wf_aliases _ Hr)|].
      rewrite (wf_alias _ Hr); apply elem_of_alias_pairs; eauto.
Qed.

Lemma canonicalName_truthy n c : canonicalName r n = Some c → truthy (Some c) = true.
Proof.
  intros (e & He & <- & _)%canonicalName_Some; simpl.
  apply negb_true_iff, String.eqb_neq; by apply wf_name_nonempty.
Qed.

Lemma resolve_canonicalName n : resolve r n = canonicalName r n ≫= get r.
Proof.
  unfold resolve, canonicalName, get, map_has.
  destruct (map_get n (byName r)) as [e|] eqn:Hn; simpl; [done|].
  destruct (map_get n (aliasToName r)) as [c|]; simpl; [done|].
  destruct (map_get "" (byName r)) as [e|] eqn:He; [|done].
  apply get_Some in He as [He Hempty]; by destruct (wf_name_nonempty _ He).
Qed.

Lemma resolve_Some n e : resolve r n = Some e ↔ e ∈ entries r ∧ answers_to e n.
Proof.
  rewrite resolve_canonicalName, bind_Some; split.
  - intros (c & (e' & He' & Hname & Hans)%canonicalName_Some & [He <-]%get_Some).
    by assert (e = e') as -> by (by apply wf_name_inj).
  - intros [He Hans]; exists (name e); split; [apply canonicalName_Some|apply get_Some]; eauto.
Qed.

Lemma bindingFor_answers e n :
  e ∈ entries r → answers_to e n →
  ∃ b, bindingFor r n = Some b ∧ binding_name b = name e ∧ (name e, b) ∈ bindings r.
Proof.
  intros He Ha; assert (canonicalName r n = Some (name e)) as Hc
    by (apply canonicalName_Some; eauto).
  unfold bindingFor; pose proof (canonicalName_truthy _ _ Hc) as Ht; rewrite Hc; cbv zeta; rewrite Ht; simpl.
  assert (name e ∈ map_keys (bindings r)) as [b Hb]%map_get_is_Some
    by (by apply (wf_bound _ Hr), list_elem_of_fmap_2).
  exists b; pose proof (map_get_elem _ _ _ Hb) as Hin.
  split_and!; [done| |done].
  pose proof (wf_binding_name _ Hr) as Hbn; rewrite Forall_forall in Hbn.
  apply (Hbn _ Hin).
Qed.

Lemma bindingFor_None n : resolve r n = None → bindingFor r n = None.
Proof.
  unfold bindingFor; intros Hn.
  destruct (canonicalName r n) as [c|] eqn:Hc; [|done].
  apply canonicalName_Some in Hc as (e & He & _ & Ha).
  assert (resolve r n = Some e) by (by apply resolve_Some); congruence.
Qed.
End wf_registry.

(** C38. Resolution in an accepted registry.  When the constructor accepts its
    entries and bindings, a name resolves to an entry exactly when it is the
    entry's name or one of its aliases, so at most one entry answers to any name;
    the canonical name is the entry's name; and the name's executable binding is
    one of the bindings passed in, carrying the entry's own name. *)
Theorem registry_resolution es bs r :
  new_ToolRegistry es bs = Ok r →
  NoDup (name <$> es)
  ∧ (∀ n e, resolve r n = Some e ↔ e ∈ es ∧ answers_to e n)
  ∧ (∀ n c, canonicalName r n = Some c ↔ ∃ e, e ∈ es ∧ name e = c ∧ answers_to e n)
  ∧ (∀ n e, e ∈ es → answers_to e n →
       ∃ b, bindingFor r n = Some b ∧ binding_name b = name e ∧ b ∈ bs)
  ∧ (∀ n, resolve r n = None → bindingFor r n = None).
Proof.
  intros H; pose proof (new_ToolRegistry_wf _ _ _ H) as Hr.
  pose proof (new_ToolRegistry_entries _ _ _ H) as <-.
  split_and!; [by apply wf_names| | | |].
  - intros; by apply resolve_Some.
  - intros; by apply canonicalName_Some.
  - intros n e He Ha; destruct (bindingFor_answers r Hr e n He Ha) as (b & ? & ? & Hin).
    exists b; split_and!; [done|done|].
    eapply new_ToolRegistry_bindings; eauto.
  - intros; by apply bindingFor_None.
Qed.

(** ** The inventory of a valid registry *)

(** The item a requested name adds beside the registered entries, if any. *)
Definition alias_item (r : ToolRegistry) (n : string) : option ToolInventoryItem :=
  c ← canonicalName r n;
  if bool_decide (c = n) then None
  else Some {| item_name := n; item_canonicalName := Some c; item_entry := get r c;
               item_binding := bindingFor r c; status := shadowed;
               reasons := [n +:+ " resolves to canonical tool " +:+ c] |}.

Definition missing_item (r : ToolRegistry) (n : string) : option ToolInventoryItem :=
  match canonicalName r n with
  | Some _ => None
  | None => Some {| item_name := n; item_canonicalName := None; item_entry := None;
                    item_binding := None; status := missing;
                    reasons := ["requested tool " +:+ n +:+ " is not registered"] |}
  end.

Definition requested (request : ToolInventoryRequest) (e : ToolRegistryMetadata) : Prop :=
  (∃ n, n ∈ default [] (requestedTools request) ∧ answers_to e n)
  ∨ ∃ t, t ∈ toolsets e ∧ t ∈ default [] (requestedToolsets request).

Definition denied (request : ToolInventoryRequest) (n : string) : Prop :=
  n ∈ default [] (profileDeniedTools request) ∨ n ∈ default [] (sessionDeniedTools request)
  ∨ n ∈ default [] (resourceDeniedTools request).

Lemma firstDenialStatus_None n a b c :
  firstDenialStatus n a b c = None ↔ (n ∉ a) ∧ (n ∉ b) ∧ (n ∉ c).
Proof. unfold firstDenialStatus, set_has; repeat case_bool_decide; naive_solver. Qed.

Lemma firstDenialStatus_not_selected n a b c : firstDenialStatus n a b c ≠ Some selected.
Proof. unfold firstDenialStatus; repeat case_match; congruence. Qed.

Section wf_inventory.
Context (r : ToolRegistry) (Hr : registry_wf r).

Lemma request_name_items acc n :
  request_name r acc n =
    {| requestedCanonicalNames :=
         match canonicalName r n with
         | Some c => set_add c (requestedCanonicalNames acc)
         | None => requestedCanonicalNames acc
         end;
       aliasItems := aliasItems acc ++ option_list (alias_item r n);
       missingItems := missingItems acc ++ option_list (missing_item r n) |}.
Proof.
  unfold request_name, alias_item, missing_item.
  destruct (canonicalName r n) as [c|] eqn:Hc; cbv zeta.
  - rewrite (canonicalName_truthy r Hr _ _ Hc); simpl; rewrite app_nil_r.
    case_bool_decide; simpl; by rewrite ?app_nil_r.
  - simpl; by rewrite app_nil_r.
Qed.

Lemma request_names_items l acc :
  let res := fold_left (request_name r) l acc in
  (∀ x, x ∈ requestedCanonicalNames res ↔
        x ∈ requestedCanonicalNames acc ∨ ∃ n, n ∈ l ∧ canonicalName r n = Some x)
  ∧ aliasItems res = aliasItems acc ++ omap (alias_item r) l
  ∧ missingItems res = missingItems acc ++ omap (missing_item r) l.
Proof.
  revert acc; induction l as [|n l IH]; intros acc; simpl.
  - rewrite !app_nil_r; split_and!; [|done|done].
    intros x; split; [auto|]. intros [|(n & Hn%not_elem_of_nil & _)]; done.
  - destruct (IH (request_name r acc n)) as (Hc & -> & ->).
    split_and!; [intros x; rewrite Hc|..]; rewrite request_name_items; simpl.
    + setoid_rewrite elem_of_cons.
      destruct (canonicalName r n) eqn:?; [rewrite elem_of_set_add|]; naive_solver.
    + destruct (alias_item r n); simpl; by rewrite <- app_assoc.
    + destruct (missing_item r n); simpl; by rewrite <- app_assoc.
Qed.

Lemma set_has_canonical l e :
  e ∈ entries r →
  set_has (name e) (requestedCanonicalNames (request_names r l)) = true
  ↔ ∃ n, n ∈ l ∧ answers_to e n.
Proof.
  intros He; rewrite set_has_true; unfold request_names.
  destruct (request_names_items l
    {| requestedCanonicalNames := []; aliasItems := []; missingItems := [] |}) as [-> _].
  simpl; split.
  - intros [Hx%not_elem_of_nil|(n & Hn & Hc)]; [done|]; exists n; split; [done|].
    apply (canonicalName_Some r Hr) in Hc as (e' & He' & Hname & Ha).
    by assert (e = e') as -> by (by apply (wf_name_inj r Hr)).
  - intros (n & Hn & Ha); right; exists n; split; [done|].
    apply (canonicalName_Some r Hr); eauto.
Qed.

Lemma entry_item_name request a b c d f e : item_name (entry_item r request a b c d f e) = name e.
Proof. unfold entry_item; by repeat case_match. Qed.

Lemma entry_item_entry request a b c d f e :
  item_entry (entry_item r request a b c d f e) = Some e.
Proof. unfold entry_item; by repeat case_match. Qed.

Lemma entry_item_binding request a b c d f e :
  item_binding (entry_item r request a b c d f e) = bindingFor r (name e).
Proof. unfold entry_item; by repeat case_match. Qed.

Lemma entry_item_selected request a b c d f e :
  is_selected (entry_item r request a b c d f e) = true ↔
  (set_has (name e) b = true ∨ ∃ t, t ∈ toolsets e ∧ t ∈ a)
  ∧ ((name e ∉ c) ∧ (name e ∉ d) ∧ (name e ∉ f))
  ∧ (deprecated e = None ∨ includeDeprecated request = Some true).
Proof.
  rewrite <- firstDenialStatus_None.
  assert ((∃ t, t ∈ toolsets e ∧ t ∈ a) ↔ existsb (λ t, set_has t a) (toolsets e) = true) as ->.
  { rewrite existsb_exists; setoid_rewrite set_has_true; by setoid_rewrite list_elem_of_In. }
  rewrite <- orb_true_iff; unfold entry_item, is_selected.
  destruct (set_has (name e) b || existsb _ (toolsets e)); simpl; [|naive_solver].
  pose proof (firstDenialStatus_not_selected (name e) c d f) as Hns.
  destruct (firstDenialStatus (name e) c d f); simpl.
  { rewrite bool_decide_eq_true; naive_solver. }
  destruct (deprecated e), (includeDeprecated request) as [[]|]; simpl; naive_solver.
Qed.

Lemma entry_items_selected request e :
  (∃ i, i ∈ List.filter is_selected (entry_items r request) ∧ item_entry i = Some e) ↔
  e ∈ entries r ∧ requested request e ∧ ¬ denied request (name e)
  ∧ (deprecated e = None ∨ includeDeprecated request = Some true).
Proof.
  unfold entry_items; setoid_rewrite list_elem_of_In; setoid_rewrite filter_In.
  setoid_rewrite <- list_elem_of_In; setoid_rewrite list_elem_of_fmap; split.
  - intros (i & [(e' & -> & He) Hsel] & Hent).
    rewrite entry_item_entry in Hent; injection Hent as ->; split; [done|].
    apply entry_item_selected in Hsel as (Hreq & Hden & Hdep).
    rewrite set_has_canonical in Hreq by done.
    setoid_rewrite elem_of_set_of_list in Hreq; rewrite !elem_of_set_of_list in Hden.
    unfold requested, denied; naive_solver.
  - intros (He & Hreq & Hden & Hdep); eexists; split; [split; [by exists e|]|apply entry_item_entry].
    apply entry_item_selected; rewrite set_has_canonical by done.
    setoid_rewrite elem_of_set_of_list.
    unfold requested, denied in *; naive_solver.
Qed.
End wf_inventory.

Lemma omap_filter_items {A} (f : A → ToolInventoryItem) (R : A → ToolExecutableBinding → Prop) es :
  (∀ e, e ∈ es → ∃ b, item_binding (f e) = Some b ∧ R e b) →
  Forall2 R (List.filter (λ e, is_selected (f e)) es)
    (omap item_binding (List.filter is_selected (f <$> es))).
Proof.
  induction es as [|e es IH]; intros Hb; simpl; [constructor|].
  destruct (is_selected (f e)); simpl; [|apply IH; intros; apply Hb; by right].
  destruct (Hb e) as (b & Heq & ?); [left|]; rewrite Heq; constructor; [done|].
  apply IH; intros; apply Hb; by right.
Qed.

Lemma omap_filter_entries (f : ToolRegistryMetadata → ToolInventoryItem) es :
  (∀ e, item_entry (f e) = Some e) →
  omap item_entry (List.filter is_selected (f <$> es)) = List.filter (λ e, is_selected (f e)) es.
Proof.
  intros Hf; induction es as [|e es IH]; simpl; [done|].
  destruct (is_selected (f e)); simpl; [rewrite Hf; by f_equal|done].
Qed.

Lemma NoDup_names_filter (p : ToolRegistryMetadata → bool) es :
  NoDup (name <$> es) → NoDup (name <$> List.filter p es).
Proof.
  induction es as [|e es IH]; simpl; [done|].
  intros [Hn Hnd]%NoDup_cons; destruct (p e); [simpl; apply NoDup_cons|by auto].
  split; [|auto]; intros (e' & Heq & [Hin _]%list_elem_of_In%filter_In)%list_elem_of_fmap.
  apply Hn; rewrite Heq; by apply list_elem_of_fmap_2, list_elem_of_In.
Qed.

Section wf_selected.
Context (localeCompare : string → string → comparison) (r : ToolRegistry) (Hr : registry_wf r).

Lemma selectedTools_spec request e :
  e ∈ selectedTools (buildToolInventory localeCompare r request) ↔
  e ∈ entries r ∧ requested request e ∧ ¬ denied request (name e)
  ∧ (deprecated e = None ∨ includeDeprecated request = Some true).
Proof. simpl; rewrite list_elem_of_omap; apply (entry_items_selected r Hr). Qed.

Lemma selectedTools_NoDup request :
  NoDup (name <$> selectedTools (buildToolInventory localeCompare r request)).
Proof.
  simpl; unfold entry_items; rewrite omap_filter_entries by (intros; apply entry_item_entry).
  by apply NoDup_names_filter, wf_names.
Qed.

Lemma selectedBindings_aligned request :
  Forall2 (λ e b, binding_name b = name e ∧ (name e, b) ∈ bindings r)
    (selectedTools (buildToolInventory localeCompare r request))
    (selectedBindings (buildToolInventory localeCompare r request)).
Proof.
  simpl; unfold entry_items; rewrite omap_filter_entries by (intros; apply entry_item_entry).
  apply omap_filter_items; intros e He; rewrite entry_item_binding.
  apply (bindingFor_answers r Hr e (name e)); [done|by left].
Qed.
End wf_selected.

(** The inventory selects exactly what the request allows.  For an accepted
    registry an entry is selected if and only if it was asked for (by name, by an
    alias or through one of its toolsets), it is in none of the three deny lists,
    and it is not deprecated unless deprecated tools are included.  The selected
    tools have distinct names; the selected bindings are, position by position,
    the bindings of the selected tools; and so are the descriptors. *)
Theorem inventory_selection localeCompare es bs r request :
  new_ToolRegistry es bs = Ok r →
  let inv := buildToolInventory localeCompare r request in
  (∀ e, e ∈ selectedTools inv ↔
        e ∈ es ∧ requested request e ∧ ¬ denied request (name e)
        ∧ (deprecated e = None ∨ includeDeprecated request = Some true))
  ∧ NoDup (name <$> selectedTools inv)
  ∧ Forall2 (λ e b, binding_name b = name e ∧ b ∈ bs) (selectedTools inv) (selectedBindings inv)
  ∧ selectedDescriptors inv = toToolDescriptor <$> selectedTools inv.
Proof.
  intros H; pose proof (new_ToolRegistry_wf _ _ _ H) as Hr.
  pose proof (new_ToolRegistry_entries _ _ _ H) as Hes; rewrite <- Hes.
  intros inv; split_and!; [| | |done].
  - intros e; by apply selectedTools_spec.
  - by apply selectedTools_NoDup.
  - eapply Forall2_impl; [by apply selectedBindings_aligned|].
    intros e b [? ?]; split; [done|]; by eapply new_ToolRegistry_bindings.
Qed.

(** Why an item has its status. *)
Definition explained (r : ToolRegistry) (request : ToolInventoryRequest) (i : ToolInventoryItem)
    : Prop :=
  let n := item_name i in
  let profile := default [] (profileDeniedTools request) in
  let session := default [] (sessionDeniedTools request) in
  let resource := default [] (resourceDeniedTools request) in
  match status i with
  | missing => resolve r n = None
  | shadowed => ∃ e, resolve r n = Some e ∧ n ≠ name e ∧ item_canonicalName i = Some (name e)
  | collision => False
  | s => ∃ e, get r n = Some e ∧ item_entry i = Some e ∧
      match s with
      | not_requested => ¬ requested request e
      | profile_denied => requested request e ∧ n ∈ profile
      | session_denied => requested request e ∧ (n ∉ profile) ∧ n ∈ session
      | resource_denied => requested request e ∧ (n ∉ profile) ∧ (n ∉ session) ∧ n ∈ resource
      | deprecated_status => requested request e ∧ ¬ denied request n
          ∧ is_Some (deprecated e) ∧ includeDeprecated request ≠ Some true
      | _ => requested request e ∧ ¬ denied request n
          ∧ (deprecated e = None ∨ includeDeprecated request = Some true)
      end
  end.

Lemma firstDenialStatus_Some n a b c s :
  firstDenialStatus n a b c = Some s →
  s = profile_denied ∧ n ∈ a ∨ s = session_denied ∧ (n ∉ a) ∧ n ∈ b
  ∨ s = resource_denied ∧ (n ∉ a) ∧ (n ∉ b) ∧ n ∈ c.
Proof. unfold firstDenialStatus, set_has; repeat case_bool_decide; naive_solver. Qed.

Section wf_items.
Context (r : ToolRegistry) (Hr : registry_wf r).

Lemma entry_item_explained request e :
  e ∈ entries r →
  explained r request
    (entry_item r request (set_of_list (default [] (requestedToolsets request)))
       (requestedCanonicalNames
          (request_names r (set_of_list (default [] (requestedTools request)))))
       (set_of_list (default [] (profileDeniedTools request)))
       (set_of_list (default [] (sessionDeniedTools request)))
       (set_of_list (default [] (resourceDeniedTools request))) e).
Proof.
  intros He; assert (get r (name e) = Some e) as Hget by (by apply get_Some).
  pose proof (set_has_canonical r Hr (set_of_list (default [] (requestedTools request))) e He)
    as Hname; setoid_rewrite elem_of_set_of_list in Hname.
  assert (existsb (λ t, set_has t (set_of_list (default [] (requestedToolsets request)))) (toolsets e)
    = true ↔ ∃ t, t ∈ toolsets e ∧ t ∈ default [] (requestedToolsets request)) as Hset.
  { rewrite existsb_exists; setoid_rewrite set_has_true; setoid_rewrite elem_of_set_of_list.
    by setoid_rewrite list_elem_of_In. }
  unfold entry_item; set (byN := set_has _ _) in *; set (byT := existsb _ (toolsets e)) in *.
  assert (byN || byT = true ↔ requested request e) as Hreq
    by (unfold requested; rewrite orb_true_iff; naive_solver).
  destruct (byN || byT); simpl; [|by exists e; split_and!; [..|by intros ?%Hreq]].
  assert (requested request e) as Hyes by (by apply Hreq).
  destruct (firstDenialStatus _ _ _ _) as [s|] eqn:Hs.
  - apply firstDenialStatus_Some in Hs; rewrite !elem_of_set_of_list in Hs.
    unfold explained; simpl.
    destruct Hs as [[-> ?]|[(-> & ? & ?)|(-> & ? & ? & ?)]]; by exists e.
  - apply firstDenialStatus_None in Hs; rewrite !elem_of_set_of_list in Hs.
    assert (¬ denied request (name e)) by (unfold denied; naive_solver).
    destruct (deprecated e) as [d|] eqn:Hd, (includeDeprecated request) as [[]|] eqn:Hi;
      unfold explained; simpl; exists e; rewrite Hd, Hi; naive_solver.
Qed.

Lemma alias_item_explained request n i :
  alias_item r n = Some i → item_name i = n ∧ explained r request i.
Proof.
  unfold alias_item; intros (c & Hc & Hi)%bind_Some; case_bool_decide; [done|].
  injection Hi as <-; split; [done|]; unfold explained; simpl.
  apply (canonicalName_Some r Hr) in Hc as (e & He & <- & Ha).
  exists e; split_and!; [by apply resolve_Some|done|done].
Qed.

Lemma missing_item_explained request n i :
  missing_item r n = Some i → item_name i = n ∧ explained r request i.
Proof.
  unfold missing_item; case_match eqn:Hc; [done|]; intros [= <-].
  split; [done|]; unfold explained; simpl.
  by rewrite (resolve_canonicalName r Hr), Hc.
Qed.

Lemma extra_item_names l :
  item_name <$> (omap (alias_item r) l ++ omap (missing_item r) l)
  ≡ₚ filter (λ n, n ∉ name <$> entries r) l.
Proof.
  induction l as [|n l IH]; [done|]; simpl; rewrite filter_cons; unfold alias_item at 1, missing_item at 1.
  unfold canonicalName; destruct (map_has n (byName r)) eqn:Hn; simpl.
  - rewrite bool_decide_eq_true_2 by done.
    apply map_has_true in Hn; rewrite (byName_keys r Hr) in Hn.
    rewrite decide_False by (intros H; by apply H). apply IH.
  - assert (n ∉ name <$> entries r) as Hn'.
    { rewrite <- (byName_keys r Hr), <- map_has_true; congruence. }
    rewrite decide_True by done.
    destruct (map_get n (aliasToName r)) as [c|] eqn:Hc; simpl.
    + rewrite bool_decide_eq_false_2.
      * simpl; by rewrite IH.
      * intros ->; apply Hn'; apply map_get_elem in Hc; rewrite (wf_alias _ Hr) in Hc.
        apply elem_of_alias_pairs in Hc as (e & ? & -> & _); by apply list_elem_of_fmap_2.
    + rewrite <- IH, fmap_app, fmap_app; simpl. by rewrite Permutation_middle.
Qed.

Lemma items_perm localeCompare request :
  let asked := set_of_list (default [] (requestedTools request)) in
  items (buildToolInventory localeCompare r request)
  ≡ₚ entry_items r request ++ omap (alias_item r) asked ++ omap (missing_item r) asked.
Proof.
  simpl; unfold request_names; destruct (request_names_items r Hr
    (set_of_list (default [] (requestedTools request)))
    {| requestedCanonicalNames := []; aliasItems := []; missingItems := [] |}) as (_ & -> & ->).
  by rewrite sort_by_perm.
Qed.

Lemma selected_item localeCompare request i :
  i ∈ items (buildToolInventory localeCompare r request) → is_selected i = true →
  ∃ e, e ∈ entries r ∧ item_name i = name e ∧ item_canonicalName i = Some (name e)
       ∧ item_entry i = Some e.
Proof.
  rewrite items_perm, !elem_of_app; intros [Hi|[Hi|Hi]] Hsel.
  - apply list_elem_of_fmap in Hi as (e & -> & He); exists e; split; [done|].
    unfold entry_item; repeat case_match; by split_and!.
  - apply list_elem_of_omap in Hi as (n & _ & (c & _ & Hi)%bind_Some).
    case_bool_decide; [done|]; by simplify_eq.
  - apply list_elem_of_omap in Hi as (n & _ & Hi); unfold missing_item in Hi.
    case_match; by simplify_eq.
Qed.
End wf_items.

(** The inventory accounts for everything, once, with the right reason.  For
    an accepted registry the items are one per registered entry and one per
    distinct requested name that is no entry's name; a missing item's name
    resolves to nothing, a shadowed item's name is an alias of the canonical tool
    it names, and an entry's item carries the first cause in the order not
    requested, profile, session and resource denial, deprecation, selected. *)
Theorem inventory_accounts localeCompare es bs r request :
  new_ToolRegistry es bs = Ok r →
  let inv := buildToolInventory localeCompare r request in
  item_name <$> items inv
    ≡ₚ (name <$> es)
       ++ filter (λ n, n ∉ name <$> es) (set_of_list (default [] (requestedTools request)))
  ∧ Forall (explained r request) (items inv).
Proof.
  intros H; pose proof (new_ToolRegistry_wf _ _ _ H) as Hr.
  pose proof (new_ToolRegistry_entries _ _ _ H) as <-.
  intros inv; unfold inv; rewrite (items_perm r Hr); split.
  - rewrite fmap_app; simpl; rewrite (extra_item_names r Hr); apply Permutation_app_tail.
    unfold entry_items; rewrite <- list_fmap_compose.
    apply Permutation_refl', list_fmap_ext; intros; apply entry_item_name.
  - simpl; rewrite !Forall_app; split_and!; apply Forall_forall; intros i.
    + intros (e & -> & He)%list_elem_of_fmap; by apply entry_item_explained.
    + intros (n & _ & Hi)%list_elem_of_omap; by eapply alias_item_explained.
    + intros (n & _ & Hi)%list_elem_of_omap; by eapply missing_item_explained.
Qed.

(** ** A small registry *)

Module Sample.
Definition tool (n : string) (sets als : list string) (flag shape : string)
    (d : option ToolDeprecation) : ToolRegistryMetadata :=
  {| name := n; description := "d"; category := (if String.eqb n "spawn" then "delegation" else "local");
     toolsets := sets; surfaces := ["brain"]; safety := [flag]; outputShape := shape;
     version := "1"; aliases := Some als; deprecated := d; replacement := Some "read";
     coexistenceNote := None |}.

Definition read : ToolRegistryMetadata := tool "read" ["code"] ["cat"; "open"] "read_only" "s1" None.
Definition spawn : ToolRegistryMetadata := tool "spawn" ["team"] [] "coordination_action" "s2" None.
Definition old : ToolRegistryMetadata :=
  tool "old" ["code"] [] "read_only" "s3"
    (Some {| dep_reason := "r"; dep_since := "1"; dep_replacement := None; dep_sunset := None |}).

Definition bind (n : string) : ToolExecutableBinding :=
  {| binding_name := n; implementationModule := n; inventoryTest := "t" |}.

Definition sample_entries : list ToolRegistryMetadata := [read; spawn; old].
Definition sample_bindings : list ToolExecutableBinding := [bind "old"; bind "read"; bind "spawn"].

Definition registry : ToolRegistry :=
  {| entries := sample_entries; bindings := binding_pairs sample_bindings;
     byName := name_pairs sample_entries; aliasToName := alias_pairs sample_entries |}.

Definition request : ToolInventoryRequest :=
  {| requestedToolsets := Some ["code"]; requestedTools := Some ["open"; "spawn"; "nope"];
     profileDeniedTools := None; sessionDeniedTools := Some ["spawn"]; resourceDeniedTools := None;
     profileDeniedReasons := None; sessionDeniedReasons := None; resourceDeniedReasons := None;
     includeDeprecated := None |}.

Lemma registry_ok : new_ToolRegistry sample_entries sample_bindings = Ok registry.
Proof. reflexivity. Qed.

Lemma registry_resolution_witness :
  new_ToolRegistry sample_entries sample_bindings = Ok registry
  ∧ resolve registry "open" = Some read.
Proof.
  split; [reflexivity|].
  apply (registry_resolution sample_entries sample_bindings registry registry_ok).
  split; [left|right; right; left].
Defined.

Lemma inventory_selection_witness :
  read ∈ selectedTools (buildToolInventory String.compare registry request).
Proof.
  apply (inventory_selection String.compare _ _ _ request registry_ok).
  split_and!; [left|left; exists "open"; split; [left|right; right; left]| |by left].
  by intros [H|[H|H]]; apply (bool_decide_unpack _) in H || apply (bool_decide_pack _) in H.
Defined.

Lemma inventory_accounts_witness :
  item_name <$> items (buildToolInventory String.compare registry request)
  ≡ₚ ["read"; "spawn"; "old"; "open"; "nope"].
Proof. exact (proj1 (inventory_accounts String.compare _ _ _ request registry_ok)). Defined.
End Sample.
