(* ===== verification/ToolCatalog.v ===== *)
(** * The portable tool catalog and the shipped registry

    [ts/packages/brain-island/src/tool-registry-portable-catalog.ts],
    [tool-registry-artifact.ts] and the executable bindings of
    [tool-registry.ts]: reading the metadata artifact, writing it, and the
    registry the program builds at start from the artifact
    [fixtures/tool-registry/default-tool-registry-metadata.json] and its own
    binding table.  Reading the file and parsing its JSON happen before
    [loadPortableToolCatalog] of the model: it starts from the parsed artifact. *)

From S2P Require Import Prelude JsString ToolRegistry.

(** ** The artifact *)

Record ToolRegistryArtifactTool := {
  artifact_name : string;
  artifact_description : string;
  artifact_aliases : option (list string);
  artifact_category : string;
  artifact_toolsets : list string;
  artifact_surfaces : list string;
  artifact_safety : list string;
  output_shape : string;
  artifact_version : string;
  artifact_deprecated : option ToolDeprecation;
  artifact_replacement : option string;
  coexistence_note : option string
}.

(** [artifact_tools] is [None] when the parsed value holds no array there. *)
Record ToolRegistryMetadataArtifact := {
  schemaVersion : Z;
  catalogId : string;
  artifact_tools : option (list ToolRegistryArtifactTool)
}.

Definition portableToolMetadataFromArtifact (t : ToolRegistryArtifactTool) : ToolRegistryMetadata :=
  {| name := artifact_name t;
     description := artifact_description t;
     category := artifact_category t;
     toolsets := artifact_toolsets t;
     surfaces := artifact_surfaces t;
     safety := artifact_safety t;
     outputShape := output_shape t;
     version := artifact_version t;
     aliases := artifact_aliases t;
     deprecated := artifact_deprecated t;
     replacement := artifact_replacement t;
     coexistenceNote := coexistence_note t |}.

Definition assertPortableArtifactEnvelope (a : ToolRegistryMetadataArtifact) (path : string)
    : result (list ToolRegistryArtifactTool) :=
  if negb (schemaVersion a =? 1)%Z
  then Throw ("unsupported portable tool catalog schema in " +:+ path +:+ ": "
              +:+ pretty (schemaVersion a))
  else if negb (bool_decide (catalogId a = "default-local-tools"))
  then Throw ("unexpected portable tool catalog id in " +:+ path +:+ ": " +:+ catalogId a)
  else
    match artifact_tools a with
    | None => Throw ("portable tool catalog " +:+ path +:+ " has no tools array")
    | Some tools => Ok tools
    end.

Definition loadPortableToolCatalog (a : ToolRegistryMetadataArtifact) (path : string)
    : result (list ToolRegistryMetadata) :=
  tools ← assertPortableArtifactEnvelope a path;
  Ok (map portableToolMetadataFromArtifact tools).

(** A present but empty array is written as an absent one. *)
Definition optionalReadonlyArray {A} (values : option (list A)) : option (list A) :=
  match values with
  | Some (_ :: _) => values
  | _ => None
  end.

Definition buildToolRegistryMetadataArtifact (id : string) (metadata : list ToolRegistryMetadata)
    : ToolRegistryMetadataArtifact :=
  {| schemaVersion := 1;
     catalogId := id;
     artifact_tools := Some ((λ e,
       {| artifact_name := name e;
          artifact_description := description e;
          artifact_aliases := optionalReadonlyArray (aliases e);
          artifact_category := category e;
          artifact_toolsets := toolsets e;
          artifact_surfaces := surfaces e;
          artifact_safety := safety e;
          output_shape := outputShape e;
          artifact_version := version e;
          artifact_deprecated := deprecated e;
          artifact_replacement := replacement e;
          coexistence_note := coexistenceNote e |}) <$> metadata) |}.

(** ** The shipped data *)

Definition binding (n implementation test : string) : ToolExecutableBinding :=
  {| binding_name := n; implementationModule := implementation; inventoryTest := test |}.

Definition defaultToolExecutableBindings_1 : list ToolExecutableBinding := [
  binding "read_file" "./local-code-tools.js#readFileTool"
    "smoke:tool-registry";
  binding "write_file" "./local-code-tools.js#writeFileTool"
    "smoke:tool-registry";
  binding "search_files" "./local-code-tools.js#searchFilesTool"
    "smoke:tool-registry";
  binding "terminal" "./local-code-tools.js#terminalTool"
    "smoke:tool-registry";
  binding "git_status" "./local-code-tools.js#gitStatusTool"
    "smoke:tool-registry";
  binding "git_diff" "./local-code-tools.js#gitDiffTool"
    "smoke:tool-registry";
  binding "patch" "./patch-tool.js#patchTool"
    "smoke:tool-registry";
  binding "worker_write" "./local-code-tools.js#workerWriteTool"
    "smoke:tool-registry";
  binding "worker_patch" "./local-code-tools.js#workerPatchTool"
    "smoke:tool-registry";
  binding "spawn_subagent" "./delegation-tools.js#spawnSubagentTool"
    "smoke:delegation-tools";
  binding "spawn_subagent_md" "./delegation-tools.js#spawnSubagentMarkdownTool"
    "smoke:delegation-tools";
  binding "fan_out_subagents" "./delegation-tools.js#fanOutSubagentsTool"
    "smoke:delegation-tools";
  binding "fan_out_subagents_md" "./delegation-tools.js#fanOutSubagentsMarkdownTool"
    "smoke:delegation-tools";
  binding "scout_codebase" "./delegation-tools.js#scoutCodebaseTool"
    "smoke:delegation-tools";
  binding "summarize_files" "./delegation-tools.js#summarizeFilesTool"
    "smoke:delegation-tools";
  binding "find_relevant_paths" "./delegation-tools.js#findRelevantPathsTool"
    "smoke:delegation-tools";
  binding "deliver_completion_md" "./completion-tools.js#deliverCompletionMarkdownTool"
    "smoke:completion-tools";
  binding "list_agents" "./coordination-tools.js#listAgentsTool"
    "smoke:coordination-tools";
  binding "send_agent_message" "./coordination-tools.js#sendAgentMessageTool"
    "smoke:coordination-tools";
  binding "reply_agent_message" "./coordination-tools.js#replyAgentMessageTool"
    "smoke:coordination-tools";
  binding "agent_round" "./coordination-tools.js#agentRoundTool"
    "smoke:coordination-tools";
  binding "crew_directory" "./crew-services-tools.js#directoryTool"
    "smoke:crew-services-tools";
  binding "crew_message" "./crew-services-tools.js#messageTool"
    "smoke:crew-services-tools";
  binding "request_telegram_consult" "./telegram-consult-tools.js#requestTelegramConsultTool"
    "smoke:telegram-consult-tools";
  binding "submit_task_for_review" "./review-submission-tools.js#submitTaskForReviewTool"
    "smoke:review-submission-tools";
  binding "complete_routed_review" "./review-submission-tools.js#completeRoutedReviewTool"
    "smoke:review-submission-tools";
  binding "web_search" "./web-tools.js#webSearchTool"
    "smoke:tool-registry";
  binding "web_extract" "./web-tools.js#webExtractTool"
    "smoke:tool-registry"
].

Definition defaultToolExecutableBindings_2 : list ToolExecutableBinding := [
  binding "browser_navigate" "./browser-tools.js#browserNavigateTool"
    "smoke:tool-registry";
  binding "browser_snapshot" "./browser-tools.js#browserSnapshotTool"
    "smoke:tool-registry";
  binding "browser_click" "./browser-tools.js#browserClickTool"
    "smoke:tool-registry";
  binding "browser_type" "./browser-tools.js#browserTypeTool"
    "smoke:tool-registry";
  binding "browser_scroll" "./browser-tools.js#browserScrollTool"
    "smoke:tool-registry";
  binding "browser_back" "./browser-tools.js#browserBackTool"
    "smoke:tool-registry";
  binding "browser_press" "./browser-tools.js#browserPressTool"
    "smoke:tool-registry";
  binding "browser_console" "./browser-tools.js#browserConsoleTool"
    "smoke:tool-registry";
  binding "browser_vision" "./browser-tools.js#browserVisionTool"
    "smoke:tool-registry";
  binding "playtest_start" "./vision-playtester-tools.js#playtestStartTool"
    "smoke:vision-playtester";
  binding "playtest_observe" "./vision-playtester-tools.js#playtestObserveTool"
    "smoke:vision-playtester";
  binding "playtest_act" "./vision-playtester-tools.js#playtestActTool"
    "smoke:vision-playtester";
  binding "playtest_finish" "./vision-playtester-tools.js#playtestFinishTool"
    "smoke:vision-playtester";
  binding "memory_recall" "./den-memory-tools.js#denMemoryRecallTool"
    "smoke:tool-registry";
  binding "memory_read" "./den-memory-tools.js#denMemoryReadTool"
    "smoke:tool-registry";
  binding "memory_search" "./den-memory-tools.js#denMemorySearchTool"
    "smoke:tool-registry";
  binding "memory_store" "./den-memory-tools.js#denMemoryStoreTool"
    "smoke:tool-registry";
  binding "memory_propose" "./den-memory-tools.js#denMemoryProposeTool"
    "smoke:tool-registry";
  binding "dense_profile_memory" "./dense-profile-memory-tool.js#denseProfileMemoryTool"
    "smoke:tool-registry";
  binding "memory_space_catalog" "./memory-space-api.js#memorySpaceCatalogTool"
    "smoke:memory-space-api";
  binding "memory_space_read" "./memory-space-api.js#memorySpaceReadTool"
    "smoke:memory-space-api";
  binding "recall_lore" "./lore-memory-tool.js#recallLoreTool"
    "smoke:lore-memory-tool";
  binding "capture_lore_fact" "./lore-memory-tool.js#captureLoreFactTool"
    "smoke:lore-memory-tool";
  binding "promote_lore_entry" "./lore-memory-tool.js#promoteLoreEntryTool"
    "smoke:lore-memory-tool";
  binding "search_lore" "./lore-memory-tool.js#searchLoreTool"
    "smoke:lore-memory-tool";
  binding "list_lore_layers" "./lore-memory-tool.js#listLoreLayersTool"
    "smoke:lore-memory-tool";
  binding "manage_lore_layers" "./lore-memory-tool.js#manageLoreLayersTool"
    "smoke:lore-memory-tool";
  binding "get_lore_layer_config" "./lore-memory-tool.js#getLoreLayerConfigTool"
    "smoke:lore-memory-tool";
  binding "get_scene_state" "./scene-state-tool.js#getSceneStateTool"
    "smoke:scene-state-tool"
].

Definition defaultToolExecutableBindings_3 : list ToolExecutableBinding := [
  binding "get_mechanic_capabilities" "./roleplay-mechanic-tools.js#getMechanicCapabilitiesTool"
    "smoke:roleplay-mechanic-profile";
  binding "inspect_roleplay_transcript" "./roleplay-mechanic-tools.js#inspectRoleplayTranscriptTool"
    "smoke:roleplay-mechanic-diagnostics";
  binding "inspect_roleplay_scene" "./roleplay-mechanic-tools.js#inspectRoleplaySceneTool"
    "smoke:roleplay-mechanic-diagnostics";
  binding "inspect_lore_retrieval" "./roleplay-mechanic-tools.js#inspectLoreRetrievalTool"
    "smoke:roleplay-mechanic-diagnostics";
  binding "inspect_roleplay_proposals" "./roleplay-mechanic-tools.js#inspectRoleplayProposalsTool"
    "smoke:roleplay-mechanic-diagnostics";
  binding "propose_roleplay_change" "./roleplay-mechanic-tools.js#proposeRoleplayChangeTool"
    "smoke:roleplay-mechanic-diagnostics";
  binding "record_roleplay_diagnostic" "./roleplay-mechanic-tools.js#recordRoleplayDiagnosticTool"
    "smoke:roleplay-mechanic-diagnostics";
  binding "update_scene_state" "./scene-state-tool.js#updateSceneStateTool"
    "smoke:scene-state-tool";
  binding "rusty_crew_help" "./skills-tools.js#rustyCrewHelpTool"
    "smoke:skills-tools";
  binding "list_available_tools" "./tool-introspection.js#createToolIntrospectionResolver"
    "smoke:tool-session-selection";
  binding "skills_list" "./skills-tools.js#skillsListTool"
    "smoke:tool-registry";
  binding "skill_view" "./skills-tools.js#skillViewTool"
    "smoke:tool-registry";
  binding "skill_manage" "./skills-tools.js#skillManageTool"
    "smoke:tool-registry";
  binding "todo" "./planning-tools.js#todoTool"
    "smoke:tool-registry";
  binding "session_search" "./planning-tools.js#sessionSearchTool"
    "smoke:tool-registry";
  binding "storage_query_catalog" "./storage-query-catalog.js#storageQueryCatalogTool"
    "smoke:storage-query-catalog";
  binding "storage_query_execute" "./storage-query-catalog.js#storageQueryExecuteTool"
    "smoke:storage-query-catalog";
  binding "channel_readback" "./planning-tools.js#channelReadbackTool"
    "smoke:tool-registry";
  binding "counter_reset" "./planning-tools.js#counterResetTool"
    "smoke:tool-registry";
  binding "curator_execute" "./planning-tools.js#curatorExecuteTool"
    "smoke:tool-registry";
  binding "image_generate" "./image-generation.js#imageGenerationTool"
    "smoke:image-generation"
].

Definition defaultToolExecutableBindings : list ToolExecutableBinding :=
  defaultToolExecutableBindings_1 ++ defaultToolExecutableBindings_2 ++ defaultToolExecutableBindings_3.

(** The tools of the shipped artifact. *)
Definition default_artifact_tools : list ToolRegistryArtifactTool := [
  {| artifact_name := "read_file";
     artifact_description := "Read a UTF-8 text file. Relative paths resolve from the session workdir; absolute paths are allowed.";
     artifact_category := "local"; artifact_toolsets := ["local_code_read"; "review_readonly"]; artifact_surfaces := ["brain"];
     artifact_safety := ["read_only"];
     output_shape := "local.file_text.v1"; artifact_version := "1.0.0";
     artifact_aliases := None; artifact_deprecated := None; artifact_replacement := None;
     coexistence_note := None |};
  {| artifact_name := "write_file";
     artifact_description := "Write a bounded UTF-8 text file. Relative paths resolve from the session workdir; absolute paths are allowed.";
     artifact_category := "local"; artifact_toolsets := ["local_code_write"]; artifact_surfaces := ["brain"];
     artifact_safety := ["writes_files"];
     output_shape := "local.file_write_result.v1"; artifact_version := "1.0.0";
     artifact_aliases := None; artifact_deprecated := None; artifact_replacement := None;
     coexistence_note := None |};
  {| artifact_name := "search_files";
     artifact_description := "Search files beneath a root and return path matches. Relative roots resolve from the session workdir; absolute roots are allowed.";
     artifact_category := "local"; artifact_toolsets := ["local_code_read"; "review_readonly"]; artifact_surfaces := ["brain"];
     artifact_safety := ["read_only"];
     output_shape := "local.file_search_result.v1"; artifact_version := "1.0.0";
     artifact_aliases := None; artifact_deprecated := None; artifact_replacement := None;
     coexistence_note := None |};
  {| artifact_name := "terminal";
     artifact_description := "Run a bounded shell command in the session workdir.";
     artifact_category := "local"; artifact_toolsets := ["local_code_write"]; artifact_surfaces := ["brain"];
     artifact_safety := ["executes_process"; "writes_files"];
     output_shape := "local.terminal_result.v1"; artifact_version := "1.0.0";
     artifact_aliases := None; artifact_deprecated := None; artifact_replacement := None;
     coexistence_note := None |};
  {| artifact_name := "git_status";
     artifact_description := "Return concise git working tree status for the session workdir.";
     artifact_category := "git"; artifact_toolsets := ["local_code_read"; "review_readonly"]; artifact_surfaces := ["brain"];
     artifact_safety := ["read_only"];
     output_shape := "git.status_result.v1"; artifact_version := "1.0.0";
     artifact_aliases := None; artifact_deprecated := None; artifact_replacement := None;
     coexistence_note := None |};
  {| artifact_name := "git_diff";
     artifact_description := "Return a git diff from the session workdir.";
     artifact_category := "git"; artifact_toolsets := ["local_code_read"; "review_readonly"]; artifact_surfaces := ["brain"];
     artifact_safety := ["read_only"];
     output_shape := "git.diff_result.v1"; artifact_version := "1.0.0";
     artifact_aliases := None; artifact_deprecated := None; artifact_replacement := None;
     coexistence_note := None |};
  {| artifact_name := "patch";
     artifact_description := "Apply a bounded multi-file patch. Relative paths resolve from the session workdir; absolute paths are allowed.";
     artifact_category := "patch"; artifact_toolsets := ["local_code_write"]; artifact_surfaces := ["brain"];
     artifact_safety := ["writes_files"];
     output_shape := "patch.apply_result.v1"; artifact_version := "1.0.0";
     artifact_aliases := None; artifact_deprecated := None; artifact_replacement := None;
     coexistence_note := None |};
  {| artifact_name := "worker_write";
     artifact_description := "Write a bounded UTF-8 text file inside a delegated worker workdir.";
     artifact_category := "local"; artifact_toolsets := ["worker_code_write"]; artifact_surfaces := ["brain"];
     artifact_safety := ["writes_files"; "workdir_scoped"];
     output_shape := "local.worker_file_write_result.v1"; artifact_version := "1.0.0";
     artifact_aliases := None; artifact_deprecated := None; artifact_replacement := None;
     coexistence_note := None |};
  {| artifact_name := "worker_patch";
     artifact_description := "Apply bounded patches inside a delegated worker workdir and report a unified diff.";
     artifact_category := "patch"; artifact_toolsets := ["worker_code_write"]; artifact_surfaces := ["brain"];
     artifact_safety := ["writes_files"; "workdir_scoped"];
     output_shape := "patch.worker_apply_result.v1"; artifact_version := "1.0.0";
     artifact_aliases := None; artifact_deprecated := None; artifact_replacement := None;
     coexistence_note := None |};
  {| artifact_name := "spawn_subagent";
     artifact_description := "Queue one Rust-owned delegated subagent request through the brain action contract.";
     artifact_category := "delegation"; artifact_toolsets := ["delegation_basic"]; artifact_surfaces := ["brain"];
     artifact_safety := ["coordination_action"];
     output_shape := "delegation.spawn_subagent_result.v1"; artifact_version := "0.1.0";
     artifact_aliases := None; artifact_deprecated := None; artifact_replacement := None;
     coexistence_note := None |};
  {| artifact_name := "spawn_subagent_md";
     artifact_description := "Queue one Rust-owned delegated subagent request from markdown and simple frontmatter so agents do not hand-author JSON.";
     artifact_category := "delegation"; artifact_toolsets := ["delegation_basic"]; artifact_surfaces := ["brain"];
     artifact_safety := ["coordination_action"];
     output_shape := "delegation.spawn_subagent_result.v1"; artifact_version := "0.1.0";
     artifact_aliases := None; artifact_deprecated := None; artifact_replacement := None;
     coexistence_note := Some "Markdown/frontmatter input surface over the same delegation action shape as spawn_subagent; intended to avoid agent-authored JSON." |};
  {| artifact_name := "fan_out_subagents";
     artifact_description := "Queue a bounded Rust-owned fan-out group of delegated subagent requests.";
     artifact_category := "delegation"; artifact_toolsets := ["delegation_basic"]; artifact_surfaces := ["brain"];
     artifact_safety := ["coordination_action"];
     output_shape := "delegation.fan_out_request_actions.v1"; artifact_version := "0.1.0";
     artifact_aliases := None; artifact_deprecated := None; artifact_replacement := None;
     coexistence_note := None |};
  {| artifact_name := "fan_out_subagents_md";
     artifact_description := "Queue a bounded Rust-owned fan-out group from markdown sections and simple frontmatter so agents do not hand-author JSON.";
     artifact_category := "delegation"; artifact_toolsets := ["delegation_basic"]; artifact_surfaces := ["brain"];
     artifact_safety := ["coordination_action"];
     output_shape := "delegation.fan_out_request_actions.v1"; artifact_version := "0.1.0";
     artifact_aliases := None; artifact_deprecated := None; artifact_replacement := None;
     coexistence_note := Some "Markdown/frontmatter input surface over the same delegation action shape as fan_out_subagents; intended to avoid agent-authored JSON." |};
  {| artifact_name := "scout_codebase";
     artifact_description := "Delegate a read-only codebase scouting task and request concise evidence back.";
     artifact_category := "delegation"; artifact_toolsets := ["delegation_basic"]; artifact_surfaces := ["brain"];
     artifact_safety := ["read_only"; "coordination_action"];
     output_shape := "delegation.scout_codebase_result.v1"; artifact_version := "0.1.0";
     artifact_aliases := None; artifact_deprecated := None; artifact_replacement := None;
     coexistence_note := None |};
  {| artifact_name := "summarize_files";
     artifact_description := "Delegate read-only file summarization for bounded context gathering.";
     artifact_category := "delegation"; artifact_toolsets := ["delegation_basic"]; artifact_surfaces := ["brain"];
     artifact_safety := ["read_only"; "coordination_action"];
     output_shape := "delegation.summarize_files_result.v1"; artifact_version := "0.1.0";
     artifact_aliases := None; artifact_deprecated := None; artifact_replacement := None;
     coexistence_note := None |};
  {| artifact_name := "find_relevant_paths";
     artifact_description := "Delegate read-only codebase search for paths relevant to a task or question.";
     artifact_category := "delegation"; artifact_toolsets := ["delegation_basic"]; artifact_surfaces := ["brain"];
     artifact_safety := ["read_only"; "coordination_action"];
     output_shape := "delegation.find_relevant_paths_result.v1"; artifact_version := "0.1.0";
     artifact_aliases := None; artifact_deprecated := None; artifact_replacement := None;
     coexistence_note := None |};
  {| artifact_name := "deliver_completion_md";
     artifact_description := "Queue a completion packet from markdown and simple frontmatter so workers do not hand-author completion JSON.";
     artifact_category := "delegation"; artifact_toolsets := ["delegation_basic"]; artifact_surfaces := ["brain"];
     artifact_safety := ["coordination_action"];
     output_shape := "completion.markdown_packet_result.v1"; artifact_version := "0.1.0";
     artifact_aliases := None; artifact_deprecated := None; artifact_replacement := None;
     coexistence_note := None |};
  {| artifact_name := "list_agents";
     artifact_description := "List same-service Rusty Crew agents and their stable recipient IDs.";
     artifact_category := "coordination"; artifact_toolsets := ["agent_coordination"; "full_agent"]; artifact_surfaces := ["brain"];
     artifact_safety := ["read_only"];
     output_shape := "coordination.agent_directory.v1"; artifact_version := "0.1.0";
     artifact_aliases := None; artifact_deprecated := None; artifact_replacement := None;
     coexistence_note := None |};
  {| artifact_name := "send_agent_message";
     artifact_description := "Route a Rusty Crew internal message to another agent and request a wake.";
     artifact_category := "coordination"; artifact_toolsets := ["agent_coordination"; "full_agent"]; artifact_surfaces := ["brain"];
     artifact_safety := ["coordination_action"];
     output_shape := "coordination.send_agent_message_result.v1"; artifact_version := "0.1.0";
     artifact_aliases := None; artifact_deprecated := None; artifact_replacement := None;
     coexistence_note := None |};
  {| artifact_name := "reply_agent_message";
     artifact_description := "Reply once to a routed Rusty Crew message by durable message ID without supplying recipient or correlation metadata.";
     artifact_category := "coordination"; artifact_toolsets := ["agent_coordination"; "full_agent"]; artifact_surfaces := ["brain"];
     artifact_safety := ["coordination_action"];
     output_shape := "coordination.reply_agent_message_result.v1"; artifact_version := "0.1.0";
     artifact_aliases := None; artifact_deprecated := None; artifact_replacement := None;
     coexistence_note := None |};
  {| artifact_name := "agent_round";
     artifact_description := "Send a Rusty Crew internal message to another agent, wake it, and wait for one correlated reply.";
     artifact_category := "coordination"; artifact_toolsets := ["agent_coordination"; "full_agent"]; artifact_surfaces := ["brain"];
     artifact_safety := ["coordination_action"];
     output_shape := "coordination.agent_round_result.v1"; artifact_version := "0.1.0";
     artifact_aliases := None; artifact_deprecated := None; artifact_replacement := None;
     coexistence_note := None |};
  {| artifact_name := "crew_directory";
     artifact_description := "List exact fabric-bound crew aliases without exposing session identifiers.";
     artifact_category := "coordination"; artifact_toolsets := ["crew_services"; "full_agent"]; artifact_surfaces := ["brain"];
     artifact_safety := ["read_only"];
     output_shape := "crew_services.directory.v1"; artifact_version := "0.1.0";
     artifact_aliases := None; artifact_deprecated := None; artifact_replacement := None;
     coexistence_note := None |};
  {| artifact_name := "crew_message";
     artifact_description := "Send one ordinary message to an exact fabric-bound crew alias.";
     artifact_category := "coordination"; artifact_toolsets := ["crew_services"; "full_agent"]; artifact_surfaces := ["brain"];
     artifact_safety := ["coordination_action"; "network_access"];
     output_shape := "crew_services.message_result.v1"; artifact_version := "0.1.0";
     artifact_aliases := None; artifact_deprecated := None; artifact_replacement := None;
     coexistence_note := None |};
  {| artifact_name := "request_telegram_consult";
     artifact_description := "Send one proactive technical consult to the remote operator through the caller's exact active Telegram diplomat binding.";
     artifact_category := "coordination"; artifact_toolsets := ["telegram_diplomat"]; artifact_surfaces := ["brain"];
     artifact_safety := ["coordination_action"; "network_access"; "external_write"];
     output_shape := "coordination.telegram_consult_result.v1"; artifact_version := "0.1.0";
     artifact_aliases := None; artifact_deprecated := None; artifact_replacement := None;
     coexistence_note := None |};
  {| artifact_name := "submit_task_for_review";
     artifact_description := "Use this tool for normal Den task review submission; lower-level Den review and GitHub-gate tools are infrastructure and direct/unmanaged-session fallbacks.";
     artifact_category := "coordination"; artifact_toolsets := ["agent_coordination"; "full_agent"]; artifact_surfaces := ["brain"];
     artifact_safety := ["coordination_action"; "network_access"; "external_write"];
     output_shape := "coordination.review_submission_result.v1"; artifact_version := "0.1.0";
     artifact_aliases := None; artifact_deprecated := None; artifact_replacement := None;
     coexistence_note := None |};
  {| artifact_name := "complete_routed_review";
     artifact_description := "Complete the currently routed Den review with a structured verdict and let Rusty Crew finalize in Den and deliver one receipt-based reply. If queued reviews share a reviewer session, provide taskId and commitSha from the review envelope to select the target explicitly.";
     artifact_category := "coordination"; artifact_toolsets := ["review_readonly"]; artifact_surfaces := ["brain"];
     artifact_safety := ["coordination_action"; "network_access"; "external_write"];
     output_shape := "coordination.review_completion_result.v1"; artifact_version := "0.1.0";
     artifact_aliases := None; artifact_deprecated := None; artifact_replacement := None;
     coexistence_note := None |};
  {| artifact_name := "web_search";
     artifact_description := "Search the public web through the configured provider and return bounded results.";
     artifact_category := "web"; artifact_toolsets := ["web_research"]; artifact_surfaces := ["brain"];
     artifact_safety := ["read_only"; "network_access"];
     output_shape := "web.search_result.v1"; artifact_version := "0.1.0";
     artifact_aliases := None; artifact_deprecated := None; artifact_replacement := None;
     coexistence_note := None |};
  {| artifact_name := "web_extract";
     artifact_description := "Fetch and extract bounded text from a public HTTP(S) URL with SSRF guardrails.";
     artifact_category := "web"; artifact_toolsets := ["web_research"]; artifact_surfaces := ["brain"];
     artifact_safety := ["read_only"; "network_access"];
     output_shape := "web.extract_result.v1"; artifact_version := "0.1.0";
     artifact_aliases := None; artifact_deprecated := None; artifact_replacement := None;
     coexistence_note := None |};
  {| artifact_name := "browser_navigate";
     artifact_description := "Navigate the session-scoped browser to an allowed public HTTP(S) page.";
     artifact_category := "browser"; artifact_toolsets := ["browser"]; artifact_surfaces := ["brain"];
     artifact_safety := ["network_access"];
     output_shape := "browser.navigation_result.v1"; artifact_version := "0.1.0";
     artifact_aliases := None; artifact_deprecated := None; artifact_replacement := None;
     coexistence_note := None |};
  {| artifact_name := "browser_snapshot";
     artifact_description := "Return a bounded accessibility snapshot for the session-scoped browser page.";
     artifact_category := "browser"; artifact_toolsets := ["browser"]; artifact_surfaces := ["brain"];
     artifact_safety := ["read_only"];
     output_shape := "browser.snapshot_result.v1"; artifact_version := "0.1.0";
     artifact_aliases := None; artifact_deprecated := None; artifact_replacement := None;
     coexistence_note := None |};
  {| artifact_name := "browser_click";
     artifact_description := "Click a ref from the current session-scoped browser snapshot.";
     artifact_category := "browser"; artifact_toolsets := ["browser"]; artifact_surfaces := ["brain"];
     artifact_safety := ["external_write"];
     output_shape := "browser.click_result.v1"; artifact_version := "0.1.0";
     artifact_aliases := None; artifact_deprecated := None; artifact_replacement := None;
     coexistence_note := None |};
  {| artifact_name := "browser_type";
     artifact_description := "Type bounded text into a ref from the current session-scoped browser snapshot.";
     artifact_category := "browser"; artifact_toolsets := ["browser"]; artifact_surfaces := ["brain"];
     artifact_safety := ["external_write"];
     output_shape := "browser.type_result.v1"; artifact_version := "0.1.0";
     artifact_aliases := None; artifact_deprecated := None; artifact_replacement := None;
     coexistence_note := None |};
  {| artifact_name := "browser_scroll";
     artifact_description := "Scroll the current session-scoped browser page or a snapshot ref.";
     artifact_category := "browser"; artifact_toolsets := ["browser"]; artifact_surfaces := ["brain"];
     artifact_safety := ["read_only"];
     output_shape := "browser.scroll_result.v1"; artifact_version := "0.1.0";
     artifact_aliases := None; artifact_deprecated := None; artifact_replacement := None;
     coexistence_note := None |};
  {| artifact_name := "browser_back";
     artifact_description := "Navigate back within the current session-scoped browser history.";
     artifact_category := "browser"; artifact_toolsets := ["browser"]; artifact_surfaces := ["brain"];
     artifact_safety := ["read_only"];
     output_shape := "browser.back_result.v1"; artifact_version := "0.1.0";
     artifact_aliases := None; artifact_deprecated := None; artifact_replacement := None;
     coexistence_note := None |};
  {| artifact_name := "browser_press";
     artifact_description := "Send a bounded keyboard press to the current session-scoped browser page.";
     artifact_category := "browser"; artifact_toolsets := ["browser"]; artifact_surfaces := ["brain"];
     artifact_safety := ["external_write"];
     output_shape := "browser.press_result.v1"; artifact_version := "0.1.0";
     artifact_aliases := None; artifact_deprecated := None; artifact_replacement := None;
     coexistence_note := None |};
  {| artifact_name := "browser_console";
     artifact_description := "Read the bounded console log ring for the current session-scoped browser page.";
     artifact_category := "browser"; artifact_toolsets := ["browser"]; artifact_surfaces := ["brain"];
     artifact_safety := ["read_only"];
     output_shape := "browser.console_result.v1"; artifact_version := "0.1.0";
     artifact_aliases := None; artifact_deprecated := None; artifact_replacement := None;
     coexistence_note := None |};
  {| artifact_name := "browser_vision";
     artifact_description := "Capture a screenshot artifact reference for the current session-scoped browser page.";
     artifact_category := "browser"; artifact_toolsets := ["browser_vision"]; artifact_surfaces := ["brain"];
     artifact_safety := ["read_only"];
     output_shape := "browser.vision_capture_result.v1"; artifact_version := "0.1.0";
     artifact_aliases := None; artifact_deprecated := None; artifact_replacement := None;
     coexistence_note := None |};
  {| artifact_name := "playtest_start";
     artifact_description := "Start an exact-revision persistent Den playtest session and return durable session and evidence handles.";
     artifact_category := "browser"; artifact_toolsets := ["vision_playtester"]; artifact_surfaces := ["brain"];
     artifact_safety := ["executes_process"; "external_write"];
     output_shape := "playtest.start_result.v1"; artifact_version := "0.1.0";
     artifact_aliases := None; artifact_deprecated := None; artifact_replacement := None;
     coexistence_note := None |};
  {| artifact_name := "playtest_observe";
     artifact_description := "Capture an ordinary visible screenshot or bounded frame burst from a persistent Den playtest session.";
     artifact_category := "browser"; artifact_toolsets := ["vision_playtester"]; artifact_surfaces := ["brain"];
     artifact_safety := ["read_only"; "executes_process"];
     output_shape := "playtest.observation_result.v1"; artifact_version := "0.1.0";
     artifact_aliases := None; artifact_deprecated := None; artifact_replacement := None;
     coexistence_note := None |};
  {| artifact_name := "playtest_act";
     artifact_description := "Send ordinary keyboard, mouse, wheel, or wait input to a persistent Den playtest session.";
     artifact_category := "browser"; artifact_toolsets := ["vision_playtester"]; artifact_surfaces := ["brain"];
     artifact_safety := ["executes_process"; "external_write"];
     output_shape := "playtest.action_result.v1"; artifact_version := "0.1.0";
     artifact_aliases := None; artifact_deprecated := None; artifact_replacement := None;
     coexistence_note := None |};
  {| artifact_name := "playtest_finish";
     artifact_description := "Finalize a persistent Den playtest evidence packet with an honest outcome and best-effort cleanup.";
     artifact_category := "browser"; artifact_toolsets := ["vision_playtester"]; artifact_surfaces := ["brain"];
     artifact_safety := ["executes_process"; "external_write"];
     output_shape := "playtest.finish_result.v1"; artifact_version := "0.1.0";
     artifact_aliases := None; artifact_deprecated := None; artifact_replacement := None;
     coexistence_note := None |};
  {| artifact_name := "memory_recall";
     artifact_description := "Recall relevant summaries from the configured external memory service for the current profile or work context. This is not a Den document, task, project, or guidance lookup tool; use Den MCP planning tools for those surfaces.";
     artifact_category := "memory"; artifact_toolsets := ["memory_external_read"]; artifact_surfaces := ["brain"];
     artifact_safety := ["read_only"; "network_access"];
     output_shape := "den.memory_recall_result.v1"; artifact_version := "0.1.0";
     artifact_aliases := None; artifact_deprecated := None; artifact_replacement := None;
     coexistence_note := None |};
  {| artifact_name := "memory_read";
     artifact_description := "Read a specific entry from the configured external memory service by stable reference. This is not a Den document, task, project, or guidance lookup tool; use Den MCP planning tools for those surfaces.";
     artifact_category := "memory"; artifact_toolsets := ["memory_external_read"]; artifact_surfaces := ["brain"];
     artifact_safety := ["read_only"; "network_access"];
     output_shape := "den.memory_read_result.v1"; artifact_version := "0.1.0";
     artifact_aliases := None; artifact_deprecated := None; artifact_replacement := None;
     coexistence_note := None |};
  {| artifact_name := "memory_search";
     artifact_description := "Search entries through the configured external memory service. This is not a Den document, task, project, or guidance lookup tool; use Den MCP planning tools for those surfaces.";
     artifact_category := "memory"; artifact_toolsets := ["memory_external_read"]; artifact_surfaces := ["brain"];
     artifact_safety := ["read_only"; "network_access"];
     output_shape := "den.memory_search_result.v1"; artifact_version := "0.1.0";
     artifact_aliases := None; artifact_deprecated := None; artifact_replacement := None;
     coexistence_note := None |};
  {| artifact_name := "memory_store";
     artifact_description := "Store an entry through the configured external memory service or route it to proposal according to policy. This is not a Den document, task, project, or guidance update tool; use Den MCP planning tools for those surfaces.";
     artifact_category := "memory"; artifact_toolsets := ["memory_external_write"]; artifact_surfaces := ["brain"];
     artifact_safety := ["network_access"; "external_write"];
     output_shape := "den.memory_store_result.v1"; artifact_version := "0.1.0";
     artifact_aliases := None; artifact_deprecated := None; artifact_replacement := None;
     coexistence_note := None |};
  {| artifact_name := "memory_propose";
     artifact_description := "Propose a change to the configured external memory service for review without direct storage. This is not a Den document, task, project, or guidance update tool; use Den MCP planning tools for those surfaces.";
     artifact_category := "memory"; artifact_toolsets := ["memory_external_write"]; artifact_surfaces := ["brain"];
     artifact_safety := ["network_access"; "external_write"];
     output_shape := "den.memory_propose_result.v1"; artifact_version := "0.1.0";
     artifact_aliases := None; artifact_deprecated := None; artifact_replacement := None;
     coexistence_note := None |};
  {| artifact_name := "dense_profile_memory";
     artifact_description := "Read or update Rusty Crew dense profile memory through runtime-owned APIs.";
     artifact_category := "memory"; artifact_toolsets := ["memory_profile"]; artifact_surfaces := ["brain"];
     artifact_safety := ["coordination_action"];
     output_shape := "runtime.dense_profile_memory_result.v1"; artifact_version := "0.1.0";
     artifact_aliases := None; artifact_deprecated := None; artifact_replacement := None;
     coexistence_note := None |};
  {| artifact_name := "memory_space_catalog";
     artifact_description := "List Rusty Crew runtime-owned memory spaces without reading Den memory.";
     artifact_category := "memory"; artifact_toolsets := ["memory_profile"; "memory_space_read"]; artifact_surfaces := ["brain"; "admin"];
     artifact_safety := ["read_only"];
     output_shape := "runtime.memory_space_catalog.v1"; artifact_version := "0.1.0";
     artifact_aliases := None; artifact_deprecated := None; artifact_replacement := None;
     coexistence_note := None |};
  {| artifact_name := "memory_space_read";
     artifact_description := "Read supported Rusty Crew memory-space records through bounded read-only runtime APIs.";
     artifact_category := "memory"; artifact_toolsets := ["memory_profile"; "memory_space_read"]; artifact_surfaces := ["brain"; "admin"];
     artifact_safety := ["read_only"];
     output_shape := "runtime.memory_space_read_result.v1"; artifact_version := "0.1.0";
     artifact_aliases := None; artifact_deprecated := None; artifact_replacement := None;
     coexistence_note := None |};
  {| artifact_name := "recall_lore";
     artifact_description := "Recall scored roleplay lore from active chat layers through runtime-owned APIs.";
     artifact_category := "memory"; artifact_toolsets := ["roleplay_lore_read"]; artifact_surfaces := ["brain"];
     artifact_safety := ["read_only"; "coordination_action"];
     output_shape := "roleplay.lore_recall_result.v1"; artifact_version := "0.1.0";
     artifact_aliases := None; artifact_deprecated := None; artifact_replacement := None;
     coexistence_note := None |};
  {| artifact_name := "capture_lore_fact";
     artifact_description := "Capture a roleplay fact into an automatic lore layer through runtime-owned APIs.";
     artifact_category := "memory"; artifact_toolsets := ["roleplay_lore_write"]; artifact_surfaces := ["brain"];
     artifact_safety := ["coordination_action"];
     output_shape := "roleplay.lore_capture_result.v1"; artifact_version := "0.1.0";
     artifact_aliases := None; artifact_deprecated := None; artifact_replacement := None;
     coexistence_note := None |};
  {| artifact_name := "promote_lore_entry";
     artifact_description := "Promote a captured roleplay lore entry into another lore layer.";
     artifact_category := "memory"; artifact_toolsets := ["roleplay_lore_write"]; artifact_surfaces := ["brain"];
     artifact_safety := ["coordination_action"];
     output_shape := "roleplay.lore_promotion_result.v1"; artifact_version := "0.1.0";
     artifact_aliases := None; artifact_deprecated := None; artifact_replacement := None;
     coexistence_note := None |};
  {| artifact_name := "search_lore";
     artifact_description := "Search roleplay lore entries and optionally narrow results to chat or explicit layers.";
     artifact_category := "memory"; artifact_toolsets := ["roleplay_lore_read"; "roleplay_mechanic"]; artifact_surfaces := ["brain"];
     artifact_safety := ["read_only"; "coordination_action"];
     output_shape := "roleplay.lore_search_result.v1"; artifact_version := "0.1.0";
     artifact_aliases := None; artifact_deprecated := None; artifact_replacement := None;
     coexistence_note := None |};
  {| artifact_name := "list_lore_layers";
     artifact_description := "List roleplay lore layers available to a profile.";
     artifact_category := "memory"; artifact_toolsets := ["roleplay_lore_read"; "roleplay_mechanic"]; artifact_surfaces := ["brain"];
     artifact_safety := ["read_only"; "coordination_action"];
     output_shape := "roleplay.lore_layer_list_result.v1"; artifact_version := "0.1.0";
     artifact_aliases := None; artifact_deprecated := None; artifact_replacement := None;
     coexistence_note := None |};
  {| artifact_name := "manage_lore_layers";
     artifact_description := "Create, update, archive, toggle, and reorder roleplay lore layers.";
     artifact_category := "memory"; artifact_toolsets := ["roleplay_lore_manage"]; artifact_surfaces := ["brain"];
     artifact_safety := ["coordination_action"];
     output_shape := "roleplay.lore_layer_management_result.v1"; artifact_version := "0.1.0";
     artifact_aliases := None; artifact_deprecated := None; artifact_replacement := None;
     coexistence_note := None |};
  {| artifact_name := "get_lore_layer_config";
     artifact_description := "Read retrieval and capture config for a roleplay lore layer.";
     artifact_category := "memory"; artifact_toolsets := ["roleplay_lore_read"]; artifact_surfaces := ["brain"];
     artifact_safety := ["read_only"; "coordination_action"];
     output_shape := "roleplay.lore_layer_config_result.v1"; artifact_version := "0.1.0";
     artifact_aliases := None; artifact_deprecated := None; artifact_replacement := None;
     coexistence_note := None |};
  {| artifact_name := "get_scene_state";
     artifact_description := "Read lightweight roleplay scene state for the current session.";
     artifact_category := "memory"; artifact_toolsets := ["roleplay_scene_state"]; artifact_surfaces := ["brain"];
     artifact_safety := ["read_only"; "coordination_action"];
     output_shape := "roleplay.scene_state.v1"; artifact_version := "0.1.0";
     artifact_aliases := None; artifact_deprecated := None; artifact_replacement := None;
     coexistence_note := None |};
  {| artifact_name := "get_mechanic_capabilities";
     artifact_description := "Read the current mechanic profile identity, provider selection, proposal-only mutation policy, and auto-monitor availability.";
     artifact_category := "diagnostics"; artifact_toolsets := ["roleplay_mechanic"]; artifact_surfaces := ["brain"; "diagnostic"];
     artifact_safety := ["read_only"];
     output_shape := "roleplay.mechanic_capabilities.v1"; artifact_version := "0.1.0";
     artifact_aliases := None; artifact_deprecated := None; artifact_replacement := None;
     coexistence_note := None |};
  {| artifact_name := "inspect_roleplay_transcript";
     artifact_description := "Read selected roleplay transcript messages with speaker and variant provenance.";
     artifact_category := "diagnostics"; artifact_toolsets := ["roleplay_mechanic"]; artifact_surfaces := ["brain"; "diagnostic"];
     artifact_safety := ["read_only"];
     output_shape := "roleplay.mechanic_transcript.v1"; artifact_version := "0.1.0";
     artifact_aliases := None; artifact_deprecated := None; artifact_replacement := None;
     coexistence_note := None |};
  {| artifact_name := "inspect_roleplay_scene";
     artifact_description := "Read scene state, narrator diagnostics, active layers, and narrator profile configuration.";
     artifact_category := "diagnostics"; artifact_toolsets := ["roleplay_mechanic"]; artifact_surfaces := ["brain"; "diagnostic"];
     artifact_safety := ["read_only"];
     output_shape := "roleplay.mechanic_scene.v1"; artifact_version := "0.1.0";
     artifact_aliases := None; artifact_deprecated := None; artifact_replacement := None;
     coexistence_note := None |};
  {| artifact_name := "inspect_lore_retrieval";
     artifact_description := "Read lore retrieval traces with candidate scores, decisions, budgets, and config snapshots.";
     artifact_category := "diagnostics"; artifact_toolsets := ["roleplay_mechanic"]; artifact_surfaces := ["brain"; "diagnostic"];
     artifact_safety := ["read_only"];
     output_shape := "roleplay.mechanic_lore_retrieval.v1"; artifact_version := "0.1.0";
     artifact_aliases := None; artifact_deprecated := None; artifact_replacement := None;
     coexistence_note := None |};
  {| artifact_name := "inspect_roleplay_proposals";
     artifact_description := "Read mechanic proposal state and durable audit history for a roleplay session.";
     artifact_category := "diagnostics"; artifact_toolsets := ["roleplay_mechanic"]; artifact_surfaces := ["brain"; "diagnostic"];
     artifact_safety := ["read_only"];
     output_shape := "roleplay.mechanic_proposal_list.v1"; artifact_version := "0.1.0";
     artifact_aliases := None; artifact_deprecated := None; artifact_replacement := None;
     coexistence_note := None |};
  {| artifact_name := "propose_roleplay_change";
     artifact_description := "Create a reviewable mechanic proposal without applying the requested roleplay change.";
     artifact_category := "coordination"; artifact_toolsets := ["roleplay_mechanic"]; artifact_surfaces := ["brain"; "diagnostic"];
     artifact_safety := ["coordination_action"];
     output_shape := "roleplay.mechanic_proposal.v1"; artifact_version := "0.1.0";
     artifact_aliases := None; artifact_deprecated := None; artifact_replacement := None;
     coexistence_note := None |};
  {| artifact_name := "record_roleplay_diagnostic";
     artifact_description := "Record a durable pending diagnostic for the roleplay session attached to the current mechanic conversation.";
     artifact_category := "diagnostics"; artifact_toolsets := ["roleplay_mechanic"]; artifact_surfaces := ["brain"; "diagnostic"];
     artifact_safety := ["coordination_action"];
     output_shape := "roleplay.mechanic_diagnostic.v1"; artifact_version := "0.1.0";
     artifact_aliases := None; artifact_deprecated := None; artifact_replacement := None;
     coexistence_note := None |};
  {| artifact_name := "update_scene_state";
     artifact_description := "Update lightweight roleplay scene state for the current session.";
     artifact_category := "memory"; artifact_toolsets := ["roleplay_scene_state"]; artifact_surfaces := ["brain"];
     artifact_safety := ["coordination_action"];
     output_shape := "roleplay.scene_state_update.v1"; artifact_version := "0.1.0";
     artifact_aliases := None; artifact_deprecated := None; artifact_replacement := None;
     coexistence_note := None |};
  {| artifact_name := "rusty_crew_help";
     artifact_description := "Read immutable built-in help for this Rusty Crew native brain session.";
     artifact_category := "skills"; artifact_toolsets := ["crew_help"]; artifact_surfaces := ["brain"];
     artifact_safety := ["read_only"];
     output_shape := "skills.help_result.v1"; artifact_version := "0.1.0";
     artifact_aliases := None; artifact_deprecated := None; artifact_replacement := None;
     coexistence_note := None |};
  {| artifact_name := "list_available_tools";
     artifact_description := "List the tools actually executable for this wake, including dynamic MCP tools and their bindings. Use this instead of guessing tool availability.";
     artifact_category := "diagnostics"; artifact_toolsets := ["crew_help"]; artifact_surfaces := ["brain"];
     artifact_safety := ["read_only"];
     output_shape := "tools.available_inventory.v1"; artifact_version := "1.0.0";
     artifact_aliases := None; artifact_deprecated := None; artifact_replacement := None;
     coexistence_note := None |};
  {| artifact_name := "skills_list";
     artifact_description := "List configured skills visible to the current profile.";
     artifact_category := "skills"; artifact_toolsets := ["skills_read"]; artifact_surfaces := ["brain"];
     artifact_safety := ["read_only"];
     output_shape := "skills.list_result.v1"; artifact_version := "0.1.0";
     artifact_aliases := None; artifact_deprecated := None; artifact_replacement := None;
     coexistence_note := None |};
  {| artifact_name := "skill_view";
     artifact_description := "View one configured skill by slug without exposing unrelated files.";
     artifact_category := "skills"; artifact_toolsets := ["skills_read"]; artifact_surfaces := ["brain"];
     artifact_safety := ["read_only"];
     output_shape := "skills.view_result.v1"; artifact_version := "0.1.0";
     artifact_aliases := None; artifact_deprecated := None; artifact_replacement := None;
     coexistence_note := None |};
  {| artifact_name := "skill_manage";
     artifact_description := "Create, patch, replace, or retire configured skills with governance safeguards.";
     artifact_category := "skills"; artifact_toolsets := ["skills_manage"]; artifact_surfaces := ["brain"];
     artifact_safety := ["writes_files"; "coordination_action"];
     output_shape := "skills.manage_result.v1"; artifact_version := "0.1.0";
     artifact_aliases := None; artifact_deprecated := None; artifact_replacement := None;
     coexistence_note := None |};
  {| artifact_name := "todo";
     artifact_description := "Read or update bounded session-local planning todos without changing Den tasks.";
     artifact_category := "planning"; artifact_toolsets := ["planning_session"]; artifact_surfaces := ["brain"];
     artifact_safety := ["coordination_action"];
     output_shape := "planning.todo_result.v1"; artifact_version := "0.1.0";
     artifact_aliases := None; artifact_deprecated := None; artifact_replacement := None;
     coexistence_note := None |};
  {| artifact_name := "session_search";
     artifact_description := "Search Rusty Crew runtime history through typed search APIs.";
     artifact_category := "planning"; artifact_toolsets := ["planning_session"; "runtime_search"]; artifact_surfaces := ["brain"];
     artifact_safety := ["read_only"; "coordination_action"];
     output_shape := "runtime.session_search_result.v1"; artifact_version := "0.1.0";
     artifact_aliases := None; artifact_deprecated := None; artifact_replacement := None;
     coexistence_note := None |};
  {| artifact_name := "storage_query_catalog";
     artifact_description := "List curated read-only Rusty Crew storage queries without exposing raw SQL.";
     artifact_category := "storage"; artifact_toolsets := ["storage_read"; "diagnostics_read"]; artifact_surfaces := ["brain"; "admin"];
     artifact_safety := ["read_only"];
     output_shape := "storage.query_catalog.v1"; artifact_version := "0.1.0";
     artifact_aliases := None; artifact_deprecated := None; artifact_replacement := None;
     coexistence_note := None |};
  {| artifact_name := "storage_query_execute";
     artifact_description := "Execute one curated read-only Rusty Crew storage query by id; raw SQL is not supported.";
     artifact_category := "storage"; artifact_toolsets := ["storage_read"; "diagnostics_read"]; artifact_surfaces := ["brain"; "admin"];
     artifact_safety := ["read_only"];
     output_shape := "storage.query_result.v1"; artifact_version := "0.1.0";
     artifact_aliases := None; artifact_deprecated := None; artifact_replacement := None;
     coexistence_note := None |};
  {| artifact_name := "channel_readback";
     artifact_description := "Inspect bounded channel context for the current runtime binding without replaying messages.";
     artifact_category := "planning"; artifact_toolsets := ["channels"]; artifact_surfaces := ["brain"];
     artifact_safety := ["read_only"; "coordination_action"];
     output_shape := "channel.readback_response.v1"; artifact_version := "0.1.0";
     artifact_aliases := None; artifact_deprecated := None; artifact_replacement := None;
     coexistence_note := None |};
  {| artifact_name := "counter_reset";
     artifact_description := "Reset or rebuild derived runtime counters without deleting runtime facts.";
     artifact_category := "planning"; artifact_toolsets := ["planning_privileged"; "runtime_counters"]; artifact_surfaces := ["brain"; "admin"];
     artifact_safety := ["coordination_action"];
     output_shape := "runtime.counter_reset_result.v1"; artifact_version := "0.1.0";
     artifact_aliases := None; artifact_deprecated := None; artifact_replacement := None;
     coexistence_note := None |};
  {| artifact_name := "curator_execute";
     artifact_description := "Request a narrow audited curator/governance action through control APIs.";
     artifact_category := "planning"; artifact_toolsets := ["planning_privileged"; "curator_governance"]; artifact_surfaces := ["brain"; "admin"];
     artifact_safety := ["coordination_action"; "external_write"];
     output_shape := "governance.curator_execute_result.v1"; artifact_version := "0.1.0";
     artifact_aliases := None; artifact_deprecated := None; artifact_replacement := None;
     coexistence_note := None |};
  {| artifact_name := "image_generate";
     artifact_description := "Generate images through an approved server-side provider and versioned workflow preset.";
     artifact_category := "media"; artifact_toolsets := ["image_generation"]; artifact_surfaces := ["brain"; "admin"];
     artifact_safety := ["network_access"; "external_write"];
     output_shape := "media.image_generation_result.v1"; artifact_version := "0.1.0";
     artifact_aliases := None; artifact_deprecated := None; artifact_replacement := None;
     coexistence_note := None |}
].

Definition default_artifact : ToolRegistryMetadataArtifact :=
  {| schemaVersion := 1; catalogId := "default-local-tools";
     artifact_tools := Some default_artifact_tools |}.

Definition defaultToolRegistryMetadata : result (list ToolRegistryMetadata) :=
  loadPortableToolCatalog default_artifact "default-tool-registry-metadata.json".

Definition defaultToolRegistry : result ToolRegistry :=
  metadata ← defaultToolRegistryMetadata;
  createToolRegistry metadata defaultToolExecutableBindings.

(** The shipped catalog loads and the module's registry is built: neither
    import throws. *)
Theorem defaultToolRegistry_ok : ∃ r, defaultToolRegistry = Ok r ∧ length (entries r) = 78.
Proof. eexists; split; [vm_compute; reflexivity|reflexivity]. Qed.

(** ** The catalog the operator sees *)

Record BuiltInToolCatalogTool := {
  tool_name : string;
  tool_label : string;
  tool_description : string;
  tool_category : string;
  tool_toolsets : list string;
  tool_surfaces : list string;
  tool_safety : list string;
  tool_outputShape : string;
  tool_version : string;
  tool_aliases : list string;
  tool_deprecated : option ToolDeprecation;
  tool_replacement : option string;
  tool_coexistenceNote : option string
}.

Record BuiltInToolCatalogToolset := {
  id : string;
  label : string;
  toolset_description : string;
  toolset_category : string;
  toolCount : nat;
  toolset_tools : list string
}.

Record BuiltInToolCatalog := {
  catalog_toolsets : list BuiltInToolCatalogToolset;
  catalog_tools : list BuiltInToolCatalogTool
}.

Definition isDynamicMcpToolset (toolset : string) : bool := Str.startsWith toolset "mcp:".

Definition identifier_separator (c : ascii) : bool :=
  bool_decide (c = "_"%char) || bool_decide (c = ":"%char) || bool_decide (c = "-"%char).

(** [identifier.split(/[_:-]+/g).filter(Boolean)]: the non-empty runs between
    separators. *)
Fixpoint identifier_parts (t cur : text) : list text :=
  match t with
  | [] => if bool_decide (cur = []) then [] else [reverse cur]
  | c :: t' =>
      if identifier_separator c
      then (if bool_decide (cur = []) then [] else [reverse cur]) ++ identifier_parts t' []
      else identifier_parts t' (c :: cur)
  end.

Definition upper_char (c : ascii) : ascii :=
  if is_lower c then Ascii.ascii_of_N (code c - 32) else c.

Definition capitalize (t : text) : text :=
  match t with [] => [] | c :: t' => upper_char c :: t' end.

Definition humanizeIdentifier (identifier : string) : string :=
  Str.join " " (str ∘ capitalize <$> identifier_parts (chars identifier) []).

Definition dominantCategory (categories : list string) : string :=
  match set_of_list categories with
  | [c] => c
  | _ => "mixed"
  end.

Definition toolsetDescription (i c : string) (count : nat) : string :=
  let noun := if (count =? 1)%nat then "tool" else "tools" in
  if bool_decide (c = "mixed")
  then humanizeIdentifier i +:+ " built-in tool policy set with " +:+ pretty count +:+ " " +:+ noun
       +:+ "."
  else humanizeIdentifier i +:+ " built-in " +:+ c +:+ " tool policy set with " +:+ pretty count
       +:+ " " +:+ noun +:+ ".".

Record ToolsetAggregate := { categories : list string; aggregate_tools : list string }.
Definition empty_aggregate : ToolsetAggregate := {| categories := []; aggregate_tools := [] |}.

Definition add_toolset (m : jsmap string ToolsetAggregate)
    (p : BuiltInToolCatalogTool * string) : jsmap string ToolsetAggregate :=
  let '(tool, toolset) := p in
  let aggregate := default empty_aggregate (map_get toolset m) in
  map_set toolset
    {| categories := categories aggregate ++ [tool_category tool];
       aggregate_tools := aggregate_tools aggregate ++ [tool_name tool] |} m.

(** The two nested loops visit the pairs of a tool and one of its toolsets. *)
Definition toolset_pairs (tools : list BuiltInToolCatalogTool)
    : list (BuiltInToolCatalogTool * string) :=
  tools ≫= λ tool, pair tool <$> tool_toolsets tool.

Definition catalog_tool (e : ToolRegistryMetadata) : BuiltInToolCatalogTool :=
  {| tool_name := name e;
     tool_label := humanizeIdentifier (name e);
     tool_description := description e;
     tool_category := category e;
     tool_toolsets := List.filter (λ t, negb (isDynamicMcpToolset t)) (toolsets e);
     tool_surfaces := surfaces e;
     tool_safety := safety e;
     tool_outputShape := outputShape e;
     tool_version := version e;
     tool_aliases := default [] (aliases e);
     tool_deprecated := deprecated e;
     tool_replacement := replacement e;
     tool_coexistenceNote := coexistenceNote e |}.

Definition catalog_toolset (p : string * ToolsetAggregate) : BuiltInToolCatalogToolset :=
  let '(i, aggregate) := p in
  let toolsForSet := sort_by String.compare (set_of_list (aggregate_tools aggregate)) in
  let c := dominantCategory (categories aggregate) in
  {| id := i; label := humanizeIdentifier i;
     toolset_description := toolsetDescription i c (length toolsForSet);
     toolset_category := c; toolCount := length toolsForSet; toolset_tools := toolsForSet |}.

Definition buildBuiltInToolCatalog (localeCompare : string → string → comparison)
    (r : ToolRegistry) : BuiltInToolCatalog :=
  let tools :=
    sort_by (λ a b, localeCompare (tool_name a) (tool_name b))
      (List.filter (λ t, (0 <? length (tool_toolsets t))%nat)
         (catalog_tool <$> List.filter (λ e, set_has "brain" (surfaces e)) (entries r))) in
  let toolsetsById := fold_left add_toolset (toolset_pairs tools) [] in
  {| catalog_toolsets :=
       sort_by (λ a b, localeCompare (id a) (id b)) (catalog_toolset <$> toolsetsById);
     catalog_tools := tools |}.

(** *** The toolset index *)

Definition tools_in (i : string) (m : jsmap string ToolsetAggregate) : list string :=
  aggregate_tools (default empty_aggregate (map_get i m)).

Lemma fold_add_toolset_tools i l m :
  tools_in i (fold_left add_toolset l m)
  = tools_in i m ++ (tool_name ∘ fst <$> filter (λ p, p.2 = i) l).
Proof.
  revert m; induction l as [|[t s] l IH]; intros m; [by rewrite app_nil_r|].
  cbn [fold_left]; rewrite IH, filter_cons; unfold tools_in at 1, add_toolset.
  case_decide as Hs; simpl in Hs; [subst s|].
  - rewrite map_get_set_eq; simpl; by rewrite <- app_assoc.
  - by rewrite map_get_set_ne.
Qed.

Lemma fold_add_toolset_keys i l m :
  i ∈ map_keys (fold_left add_toolset l m) ↔ i ∈ map_keys m ∨ ∃ t, (t, i) ∈ l.
Proof.
  revert m; induction l as [|[t s] l IH]; intros m; cbn [fold_left].
  - split; [auto|intros [|[t Ht%not_elem_of_nil]]; done].
  - rewrite IH; unfold add_toolset; rewrite map_keys_set.
    setoid_rewrite elem_of_cons; naive_solver.
Qed.

Lemma fold_add_toolset_wf l m : map_wf m → map_wf (fold_left add_toolset l m).
Proof.
  revert m; induction l as [|[t s] l IH]; intros m Hm; [done|].
  by apply IH, map_set_wf.
Qed.

Lemma elem_of_toolset_pairs t i tools :
  (t, i) ∈ toolset_pairs tools ↔ t ∈ tools ∧ i ∈ tool_toolsets t.
Proof.
  unfold toolset_pairs; rewrite list_elem_of_bind; split.
  - by intros (t' & (i' & [= -> ->] & ?)%list_elem_of_fmap & ?).
  - intros [? ?]; exists t; split; [by apply list_elem_of_fmap_2|done].
Qed.

Lemma toolsetsById_keys tools i :
  i ∈ map_keys (fold_left add_toolset (toolset_pairs tools) [])
  ↔ ∃ t, t ∈ tools ∧ i ∈ tool_toolsets t.
Proof.
  rewrite fold_add_toolset_keys; setoid_rewrite elem_of_toolset_pairs.
  split; [intros [?%not_elem_of_nil|]; done|auto].
Qed.

Lemma aggregate_tools_spec tools i a :
  map_get i (fold_left add_toolset (toolset_pairs tools) []) = Some a →
  ∀ n, n ∈ aggregate_tools a ↔ ∃ t, t ∈ tools ∧ tool_name t = n ∧ i ∈ tool_toolsets t.
Proof.
  intros Hget n; pose proof (fold_add_toolset_tools i (toolset_pairs tools) []) as Heq.
  unfold tools_in at 1 in Heq; rewrite Hget in Heq; simpl in Heq; rewrite Heq.
  rewrite list_elem_of_fmap; setoid_rewrite list_elem_of_filter; split.
  - intros ([t i'] & -> & Hi & [??]%elem_of_toolset_pairs); simpl in Hi; subst; eauto.
  - intros (t & ? & <- & ?); exists (t, i); rewrite elem_of_toolset_pairs; eauto.
Qed.

Lemma catalog_toolset_id m : id <$> (catalog_toolset <$> m) = map_keys m.
Proof.
  induction m as [|[i a] m IH]; [done|].
  unfold map_keys; simpl; f_equal; apply IH.
Qed.

Lemma catalog_tools_static localeCompare r t i :
  t ∈ catalog_tools (buildBuiltInToolCatalog localeCompare r) → i ∈ tool_toolsets t →
  isDynamicMcpToolset i = false.
Proof.
  simpl; rewrite sort_by_perm; intros [Ht _]%list_elem_of_In%filter_In.
  apply list_elem_of_In, list_elem_of_fmap in Ht as (e & -> & _).
  by intros [_ ?%negb_true_iff]%list_elem_of_In%filter_In.
Qed.

(** The built-in catalog's index of toolsets agrees with its tools.  Each
    toolset is listed once; its tools are, without repetition, exactly the names
    of the listed tools that belong to it, and the count is their number; every
    toolset of a listed tool is listed; and no dynamic [mcp:] toolset is. *)
Theorem catalog_toolsets_index localeCompare r :
  let catalog := buildBuiltInToolCatalog localeCompare r in
  NoDup (id <$> catalog_toolsets catalog)
  ∧ (∀ s, s ∈ catalog_toolsets catalog →
       isDynamicMcpToolset (id s) = false
       ∧ NoDup (toolset_tools s) ∧ toolCount s = length (toolset_tools s)
       ∧ toolset_tools s ≠ []
       ∧ ∀ n, n ∈ toolset_tools s ↔
              ∃ t, t ∈ catalog_tools catalog ∧ tool_name t = n ∧ id s ∈ tool_toolsets t)
  ∧ (∀ t i, t ∈ catalog_tools catalog → i ∈ tool_toolsets t →
       ∃ s, s ∈ catalog_toolsets catalog ∧ id s = i).
Proof.
  simpl; set (tools := sort_by _ (List.filter _ _)).
  set (m := fold_left add_toolset (toolset_pairs tools) []).
  assert (map_wf m) as Hwf by (apply fold_add_toolset_wf; constructor).
  pose proof (toolsetsById_keys tools) as Hkeys; fold m in Hkeys.
  split_and!.
  - rewrite sort_by_perm, catalog_toolset_id; exact Hwf.
  - intros s; rewrite sort_by_perm; intros ([i a] & -> & Hin)%list_elem_of_fmap.
    assert (map_get i m = Some a) as Hget by (by apply map_get_wf).
    pose proof (aggregate_tools_spec tools i a Hget) as Htools.
    assert (∃ t, t ∈ tools ∧ i ∈ tool_toolsets t) as (t & Ht & Hi).
    { apply Hkeys, list_elem_of_fmap; by exists (i, a). }
    simpl; split_and!.
    + by apply (catalog_tools_static localeCompare r t).
    + rewrite sort_by_perm; apply set_of_list_NoDup.
    + done.
    + intros Hnil; assert (tool_name t ∈ sort_by String.compare (set_of_list (aggregate_tools a))) as H.
      { rewrite sort_by_perm, elem_of_set_of_list, Htools; eauto. }
      rewrite Hnil in H; by apply not_elem_of_nil in H.
    + intros n; by rewrite sort_by_perm, elem_of_set_of_list, Htools.
  - intros t i Ht Hi; assert (i ∈ map_keys m) as Hin by (apply Hkeys; eauto).
    rewrite <- catalog_toolset_id in Hin; apply list_elem_of_fmap in Hin as (s & -> & Hs).
    exists s; by rewrite sort_by_perm.
Qed.
