(* ===== verification/ToolSelection.v ===== *)
(** * Tool selection for a profile and for a session

    [ts/packages/brain-island/src/tool-profile-selection.ts] narrows the registry
    to what a profile and a session allow, keeping the two mandatory
    introspection tools; [tool-session-selection.ts] then matches the session's
    descriptors with the implementations a resolver returns.  The registry, which
    the source defaults to the shipped one, is always an argument; brain tools
    are opaque values with a name, and the resolver that produces them is an
    argument. *)

From S2P Require Import Prelude JsString ToolRegistry ToolCatalog.

(** ** Data *)

Record ProfileToolPolicy := {
  policy_requestedToolsets : option (list string);
  policy_requestedTools : option (list string);
  policy_deniedTools : option (list string);
  policy_includeDeprecated : option bool
}.

Record SessionToolConstraints := {
  session_deniedTools : option (list string);
  session_resourceDeniedTools : option (list string);
  session_resourceDeniedReasons : option (jsmap string string);
  readOnly : option bool;
  disallowedSafetyFlags : option (list string)
}.

Record ToolProfileSelectionInput := {
  profileId : string;
  policy : ProfileToolPolicy;
  session : option SessionToolConstraints;
  input_catalogId : option string
}.

Record ToolProfileSelection := {
  selection_profileId : string;
  selection_catalogId : string;
  inventory : ToolInventory;
  toolProfile : list ToolDescriptor
}.

(** The outer option is an absent limits object, the inner one an absent or
    [null] depth. *)
Record ResourceLimits := { maxDelegationDepth : option Z }.

Definition DELEGATION_DEPTH_EXHAUSTED_REASON : string :=
  "delegation_depth_exhausted: session max delegation depth is zero".
Definition MANDATORY_NATIVE_HELP_TOOL : string := "rusty_crew_help".
Definition MANDATORY_NATIVE_TOOL_INTROSPECTION : string := "list_available_tools".
Definition MANDATORY_NATIVE_HELP_TOOLSET : string := "crew_help".

(** ** Resource limits *)

Definition depth_exhausted (limits : option ResourceLimits) : bool :=
  bool_decide (limits ≫= maxDelegationDepth = Some 0%Z).

Definition is_delegation (e : ToolRegistryMetadata) : bool := bool_decide (category e = "delegation").

Definition resourceDeniedToolsForLimits (limits : option ResourceLimits) (r : ToolRegistry)
    : jsmap string string :=
  if negb (depth_exhausted limits) then []
  else map_of_entries
         ((λ e, (name e, DELEGATION_DEPTH_EXHAUSTED_REASON))
            <$> List.filter is_delegation (entries r)).

Definition deny_item (denied : jsmap string string) (i : ToolInventoryItem) : ToolInventoryItem :=
  match map_get (default (item_name i) (item_canonicalName i)) denied with
  | Some reason =>
      if is_selected i
      then {| item_name := item_name i; item_canonicalName := item_canonicalName i;
              item_entry := item_entry i; item_binding := item_binding i;
              status := resource_denied; reasons := [reason] |}
      else i
  | None => i
  end.

Definition effectiveToolSelectionForResourceLimits (selection : ToolProfileSelection)
    (limits : option ResourceLimits) (r : ToolRegistry) : ToolProfileSelection :=
  let denied := resourceDeniedToolsForLimits limits r in
  if (length denied =? 0)%nat then selection
  else
    let tools := List.filter (λ e, negb (map_has (name e) denied))
                   (selectedTools (inventory selection)) in
    let selectedNames := set_of_list (name <$> tools) in
    {| selection_profileId := selection_profileId selection;
       selection_catalogId := selection_catalogId selection;
       inventory :=
         {| selectedTools := tools;
            selectedBindings :=
              List.filter (λ b, set_has (binding_name b) selectedNames)
                (selectedBindings (inventory selection));
            selectedDescriptors :=
              List.filter (λ d, set_has (descriptor_name d) selectedNames)
                (selectedDescriptors (inventory selection));
            items := deny_item denied <$> items (inventory selection) |};
       toolProfile :=
         List.filter (λ d, set_has (descriptor_name d) selectedNames) (toolProfile selection) |}.

(** ** Profile selection *)

Definition registered (r : ToolRegistry) (n : string) : bool :=
  match get r n with Some _ => true | None => false end.

Definition mandatoryNativeTools (r : ToolRegistry) : list string :=
  set_of_list (List.filter (registered r)
                 [MANDATORY_NATIVE_HELP_TOOL; MANDATORY_NATIVE_TOOL_INTROSPECTION]).

(** One round of the loop that collects the tools a constrained session loses. *)
Definition deny_unsafe (s : option SessionToolConstraints) (denied : list string)
    (e : ToolRegistryMetadata) : list string :=
  let denied1 :=
    if default false (s ≫= readOnly) && negb (set_has "read_only" (safety e))
    then set_add (name e) denied else denied in
  if existsb (λ flag, set_has flag (safety e)) (default [] (s ≫= disallowedSafetyFlags))
  then set_add (name e) denied1 else denied1.

Definition resourceDenied (r : ToolRegistry) (s : option SessionToolConstraints) : list string :=
  let start := set_of_list (default [] (s ≫= session_resourceDeniedTools)) in
  fold_left (λ denied n, set_delete n denied) (mandatoryNativeTools r)
    (fold_left (deny_unsafe s) (entries r) start).

Definition withoutMandatoryHelp (r : ToolRegistry) (names : option (list string))
    : option (list string) :=
  if registered r MANDATORY_NATIVE_HELP_TOOL
  then List.filter (λ n, negb (set_has n (mandatoryNativeTools r))) <$> names
  else names.

Definition selection_request (r : ToolRegistry) (input : ToolProfileSelectionInput)
    : ToolInventoryRequest :=
  {| requestedToolsets :=
       if registered r MANDATORY_NATIVE_HELP_TOOL
       then Some (set_of_list (default [] (policy_requestedToolsets (policy input))
                               ++ [MANDATORY_NATIVE_HELP_TOOLSET]))
       else policy_requestedToolsets (policy input);
     requestedTools := policy_requestedTools (policy input);
     profileDeniedTools := withoutMandatoryHelp r (policy_deniedTools (policy input));
     sessionDeniedTools := withoutMandatoryHelp r (session input ≫= session_deniedTools);
     resourceDeniedTools := Some (resourceDenied r (session input));
     profileDeniedReasons := None;
     sessionDeniedReasons := None;
     resourceDeniedReasons := session input ≫= session_resourceDeniedReasons;
     includeDeprecated := policy_includeDeprecated (policy input) |}.

Section selection.
Context (localeCompare : string → string → comparison).

Definition selectToolProfile (r : ToolRegistry) (input : ToolProfileSelectionInput)
    : ToolProfileSelection :=
  let inv := buildToolInventory localeCompare r (selection_request r input) in
  {| selection_profileId := profileId input;
     selection_catalogId := default "default-local-tools" (input_catalogId input);
     inventory := inv;
     toolProfile := selectedDescriptors inv |}.

Record BrainImplementationRegistration {ModelConfig : Type} := {
  implementationId : string;
  registration_profileId : string;
  registration_toolProfile : list ToolDescriptor;
  modelConfig : ModelConfig
}.
Arguments BrainImplementationRegistration : clear implicits.

Definition buildBrainRegistrationFromToolProfile {ModelConfig} (r : ToolRegistry)
    (input : ToolProfileSelectionInput) (implementation : string) (model : ModelConfig)
    : BrainImplementationRegistration ModelConfig :=
  {| implementationId := implementation;
     registration_profileId := profileId input;
     registration_toolProfile := toolProfile (selectToolProfile r input);
     modelConfig := model |}.

(** ** Session selection *)

Inductive ToolSessionSelectionStatus :=
| callable | implementation_missing | duplicate_implementation | session_resource_denied
| session_not_requested.

#[global] Instance ToolSessionSelectionStatus_eq_dec : EqDecision ToolSessionSelectionStatus.
Proof. solve_decision. Defined.

Section session.
Context {BrainTool : Type} (tool_name : BrainTool → string).

Record ToolSessionSelectionItem := {
  session_item_name : string;
  session_descriptor : option ToolDescriptor;
  session_tool : option BrainTool;
  session_status : ToolSessionSelectionStatus;
  session_reasons : list string
}.

Record ToolSessionSelection := {
  session_tools : list BrainTool;
  session_items : list ToolSessionSelectionItem
}.

Definition combineResolvers {Input} (resolvers : list (Input → list BrainTool)) (input : Input)
    : list BrainTool :=
  resolvers ≫= λ resolver, resolver input.

Definition group_tool (m : jsmap string (list BrainTool)) (tool : BrainTool)
    : jsmap string (list BrainTool) :=
  match map_get (tool_name tool) m with
  | Some group => map_set (tool_name tool) (group ++ [tool]) m
  | None => map_set (tool_name tool) [tool] m
  end.

Definition groupToolsByName (tools : list BrainTool) : jsmap string (list BrainTool) :=
  fold_left group_tool tools [].

Definition descriptor_item (implementationsByName : jsmap string (list BrainTool))
    (d : ToolDescriptor) : ToolSessionSelectionItem :=
  let item tool s why :=
    {| session_item_name := descriptor_name d; session_descriptor := Some d; session_tool := tool;
       session_status := s; session_reasons := [descriptor_name d +:+ why] |} in
  match default [] (map_get (descriptor_name d) implementationsByName) with
  | [] => item None implementation_missing " has no resolved brain tool implementation"
  | [tool] => item (Some tool) callable " is allowed by the session ToolProfile"
  | tools => item None duplicate_implementation
               (" resolved to " +:+ pretty (length tools) +:+ " brain tool implementations")
  end.

(** [configured] is the tool profile passed in, or else the session's; the
    resolver sees the descriptors the resource limits leave. *)
Definition resolveToolSession (r : ToolRegistry) (limits : option ResourceLimits)
    (inputProfile : option (list ToolDescriptor)) (sessionProfile : list ToolDescriptor)
    (resolveTools : option (list ToolDescriptor → list BrainTool)) : ToolSessionSelection :=
  let configured := default sessionProfile inputProfile in
  let denied := resourceDeniedToolsForLimits limits r in
  let descriptors := List.filter (λ d, negb (map_has (descriptor_name d) denied)) configured in
  let requestedNames := set_of_list (descriptor_name <$> configured) in
  let implementationsByName :=
    groupToolsByName (match resolveTools with Some f => f descriptors | None => [] end) in
  let descriptorItems := descriptor_item implementationsByName <$> descriptors in
  let resourceDeniedItems :=
    (λ d, {| session_item_name := descriptor_name d; session_descriptor := Some d;
             session_tool := None; session_status := session_resource_denied;
             session_reasons := [default "" (map_get (descriptor_name d) denied)] |})
      <$> List.filter (λ d, map_has (descriptor_name d) denied) configured in
  let unexpectedItems :=
    sort_by (λ a b, localeCompare a.1 b.1)
      (List.filter (λ p, negb (set_has p.1 requestedNames)) implementationsByName)
    ≫= λ p, (λ tool,
         {| session_item_name := p.1; session_descriptor := None; session_tool := Some tool;
            session_status := session_not_requested;
            session_reasons := [p.1 +:+ " was resolved but is not present in ToolProfile"] |})
      <$> p.2 in
  {| session_tools :=
       omap (λ i, if bool_decide (session_status i = callable) then session_tool i else None)
         descriptorItems;
     session_items := descriptorItems ++ resourceDeniedItems ++ unexpectedItems |}.
End session.
End selection.

(** ** What the registry promises the selection

    The mandatory tools are registered in the help toolset and not deprecated. *)
Class MandatoryHelp (r : ToolRegistry) : Prop := {
  help_wf : registry_wf r;
  help_tool n : n = MANDATORY_NATIVE_HELP_TOOL ∨ n = MANDATORY_NATIVE_TOOL_INTROSPECTION →
    ∃ e, get r n = Some e ∧ MANDATORY_NATIVE_HELP_TOOLSET ∈ toolsets e ∧ deprecated e = None
}.

Definition mandatory (e : ToolRegistryMetadata) : Prop :=
  name e = MANDATORY_NATIVE_HELP_TOOL ∨ name e = MANDATORY_NATIVE_TOOL_INTROSPECTION.

(** A tool a constrained session must not have. *)
Definition unsafe (s : option SessionToolConstraints) (e : ToolRegistryMetadata) : Prop :=
  s ≫= readOnly = Some true ∧ "read_only" ∉ safety e
  ∨ ∃ flag, flag ∈ default [] (s ≫= disallowedSafetyFlags) ∧ flag ∈ safety e.

Lemma elem_of_deny_unsafe s denied e n :
  n ∈ deny_unsafe s denied e ↔ n ∈ denied ∨ n = name e ∧ unsafe s e.
Proof.
  unfold deny_unsafe, unsafe.
  assert ((∃ flag, flag ∈ default [] (s ≫= disallowedSafetyFlags) ∧ flag ∈ safety e)
    ↔ existsb (λ flag, set_has flag (safety e)) (default [] (s ≫= disallowedSafetyFlags)) = true)
    as ->.
  { rewrite existsb_exists; setoid_rewrite set_has_true; by setoid_rewrite list_elem_of_In. }
  assert ((s ≫= readOnly = Some true ∧ "read_only" ∉ safety e) ↔
    default false (s ≫= readOnly) && negb (set_has "read_only" (safety e)) = true) as ->.
  { rewrite andb_true_iff, negb_true_iff, set_has_false.
    destruct (s ≫= readOnly) as [[]|]; naive_solver. }
  repeat case_match; rewrite ?elem_of_set_add; naive_solver.
Qed.

Lemma fold_deny_unsafe s es denied n :
  n ∈ fold_left (deny_unsafe s) es denied
  ↔ n ∈ denied ∨ ∃ e, e ∈ es ∧ n = name e ∧ unsafe s e.
Proof.
  revert denied; induction es as [|e es IH]; intros denied; simpl.
  - split; [auto|intros [|(e & ?%not_elem_of_nil & _)]; done].
  - rewrite IH, elem_of_deny_unsafe; setoid_rewrite elem_of_cons; naive_solver.
Qed.

Section mandatory_help.
Context (localeCompare : string → string → comparison) (r : ToolRegistry) {Hh : MandatoryHelp r}.

Lemma registered_true n :
  n = MANDATORY_NATIVE_HELP_TOOL ∨ n = MANDATORY_NATIVE_TOOL_INTROSPECTION →
  registered r n = true.
Proof. intros Hn; destruct (help_tool n Hn) as (e & He & _); unfold registered; by rewrite He. Qed.

Lemma elem_of_mandatory n :
  n ∈ mandatoryNativeTools r ↔
  n = MANDATORY_NATIVE_HELP_TOOL ∨ n = MANDATORY_NATIVE_TOOL_INTROSPECTION.
Proof.
  unfold mandatoryNativeTools; rewrite elem_of_set_of_list, elem_of_List_filter.
  rewrite !elem_of_cons, elem_of_nil; split; [naive_solver|].
  intros Hn; split; [naive_solver|by apply registered_true].
Qed.

Lemma elem_of_withoutMandatoryHelp names n :
  n ∈ default [] (withoutMandatoryHelp r names)
  ↔ n ∈ default [] names ∧ n ∉ mandatoryNativeTools r.
Proof.
  unfold withoutMandatoryHelp; rewrite registered_true by auto.
  destruct names as [l|]; simpl; [|rewrite elem_of_nil; naive_solver].
  by rewrite elem_of_List_filter, negb_true_iff, set_has_false.
Qed.

Lemma elem_of_resourceDenied s n :
  n ∈ resourceDenied r s ↔
  (n ∈ default [] (s ≫= session_resourceDeniedTools)
   ∨ ∃ e, e ∈ entries r ∧ n = name e ∧ unsafe s e) ∧ n ∉ mandatoryNativeTools r.
Proof.
  unfold resourceDenied; by rewrite fold_set_delete, fold_deny_unsafe, elem_of_set_of_list.
Qed.

(** What the policy asks for: its own names and toolsets, and the help toolset. *)
Definition asked (p : ProfileToolPolicy) (e : ToolRegistryMetadata) : Prop :=
  (∃ n, n ∈ default [] (policy_requestedTools p) ∧ answers_to e n)
  ∨ (∃ t, t ∈ toolsets e ∧ t ∈ default [] (policy_requestedToolsets p))
  ∨ MANDATORY_NATIVE_HELP_TOOLSET ∈ toolsets e.

(** What policy and session leave to a tool that is not mandatory. *)
Definition permitted (input : ToolProfileSelectionInput) (e : ToolRegistryMetadata) : Prop :=
  (name e ∉ default [] (policy_deniedTools (policy input)))
  ∧ (name e ∉ default [] (session input ≫= session_deniedTools))
  ∧ (name e ∉ default [] (session input ≫= session_resourceDeniedTools))
  ∧ ¬ unsafe (session input) e
  ∧ (deprecated e = None ∨ policy_includeDeprecated (policy input) = Some true).

Lemma requested_asked input e :
  requested (selection_request r input) e ↔ asked (policy input) e.
Proof.
  unfold requested, asked, selection_request; simpl; rewrite registered_true by auto; simpl.
  setoid_rewrite elem_of_set_of_list; setoid_rewrite elem_of_app.
  setoid_rewrite list_elem_of_singleton; naive_solver.
Qed.

Lemma denied_iff input e :
  e ∈ entries r →
  denied (selection_request r input) (name e) ↔
  ¬ mandatory e ∧
  (name e ∈ default [] (policy_deniedTools (policy input))
   ∨ name e ∈ default [] (session input ≫= session_deniedTools)
   ∨ name e ∈ default [] (session input ≫= session_resourceDeniedTools)
   ∨ unsafe (session input) e).
Proof.
  intros He; unfold denied, mandatory; simpl.
  rewrite !elem_of_withoutMandatoryHelp, elem_of_resourceDenied, <- elem_of_mandatory.
  assert ((∃ e', e' ∈ entries r ∧ name e = name e' ∧ unsafe (session input) e')
    ↔ unsafe (session input) e) as ->; [|naive_solver].
  split; [|eauto]; intros (e' & He' & Hn & ?).
  by rewrite (wf_name_inj r help_wf e e' He He' Hn).
Qed.

Lemma mandatory_entry e :
  e ∈ entries r → mandatory e → MANDATORY_NATIVE_HELP_TOOLSET ∈ toolsets e ∧ deprecated e = None.
Proof.
  intros He Hm; destruct (help_tool (name e) Hm) as (e' & [He' Hn]%(get_Some r help_wf) & ?).
  by rewrite (wf_name_inj r help_wf e e' He He' (eq_sym Hn)).
Qed.


#[local] Instance unsafe_dec s e : Decision (unsafe s e).
Proof.
  destruct (decide (name e ∈ deny_unsafe s [] e)) as [H|H];
    rewrite elem_of_deny_unsafe in H; [left|right].
  - destruct H as [?%not_elem_of_nil|[_ ?]]; done.
  - intros ?; apply H; auto.
Qed.

#[local] Instance mandatory_dec e : Decision (mandatory e).
Proof. unfold mandatory; apply _. Defined.

Lemma selectToolProfile_spec input e :
  e ∈ selectedTools (inventory (selectToolProfile localeCompare r input)) ↔
  e ∈ entries r ∧ (mandatory e ∨ asked (policy input) e ∧ permitted input e).
Proof.
  unfold selectToolProfile; simpl.
  rewrite (list_elem_of_omap item_entry), (entry_items_selected r help_wf).
  split; intros [He Hrest]; (split; [done|]).
  - rewrite requested_asked, denied_iff in Hrest by done.
    destruct (decide (mandatory e)); [by left|right].
    unfold permitted; destruct Hrest as (? & Hd & Hdep); simpl in Hdep.
    split; [done|]; split_and!; try done; intros ?; apply Hd; auto.
  - rewrite requested_asked, denied_iff by done; simpl.
    destruct Hrest as [Hm|(? & Hp)].
    + destruct (mandatory_entry e He Hm); split_and!; [right; by right|naive_solver|auto].
    + destruct Hp as (? & ? & ? & ? & ?); split_and!; [done|naive_solver|done].
Qed.
End mandatory_help.

(** ** The shipped registry keeps the promise *)

Definition shipped_registry : ToolRegistry :=
  match defaultToolRegistry with
  | Ok r => r
  | Throw _ => {| entries := []; bindings := []; byName := []; aliasToName := [] |}
  end.

Lemma shipped_registry_ok : defaultToolRegistry = Ok shipped_registry.
Proof. vm_compute; reflexivity. Qed.

Lemma shipped_registry_wf : registry_wf shipped_registry.
Proof.
  pose proof shipped_registry_ok as H; unfold defaultToolRegistry in H.
  apply bind_Ok in H as (m & _ & H); by eapply new_ToolRegistry_wf.
Qed.

(** One registered tool, read off the table. *)
Definition shipped (n : string) : option ToolRegistryMetadata := get shipped_registry n.

#[global] Instance shipped_help : MandatoryHelp shipped_registry.
Proof.
  split; [apply shipped_registry_wf|].
  intros n [-> | ->]; (eexists; split_and!; [vm_compute; reflexivity| |reflexivity]);
    apply (bool_decide_unpack _); vm_compute; exact I.
Qed.

Lemma shipped_mandatory_read_only e :
  e ∈ entries shipped_registry → mandatory e → "read_only" ∈ safety e.
Proof.
  intros He [Hn|Hn]; assert (get shipped_registry (name e) = Some e) as Hg
    by (by apply (get_Some _ shipped_registry_wf)); rewrite Hn in Hg;
    vm_compute in Hg; injection Hg as <-; apply (bool_decide_unpack _); vm_compute; exact I.
Qed.

(** Selecting a profile's tools.  In a registry with the two mandatory
    introspection tools a tool is selected if and only if it is registered and
    either mandatory, whatever the policy and the session deny, or asked for by
    the policy and permitted: in no deny list, within the session's safety
    constraints and not deprecated unless those are included. *)
Theorem selectToolProfile_exact localeCompare r `{!MandatoryHelp r} input e :
  e ∈ selectedTools (inventory (selectToolProfile localeCompare r input)) ↔
  e ∈ entries r ∧ (mandatory e ∨ asked (policy input) e ∧ permitted input e).
Proof. by apply selectToolProfile_spec. Qed.

(** C33. A read-only session of the shipped program gets read-only tools.
    Whatever the policy asks for, every tool selected under the session
    constraint [readOnly] carries the [read_only] flag, and the tools a session
    with disallowed safety flags gets carry none of them, the mandatory ones
    apart. *)
Theorem readOnly_session_tools localeCompare input s e :
  session input = Some s →
  e ∈ selectedTools (inventory (selectToolProfile localeCompare shipped_registry input)) →
  (readOnly s = Some true → "read_only" ∈ safety e)
  ∧ (∀ flag, flag ∈ default [] (disallowedSafetyFlags s) → flag ∈ safety e → mandatory e).
Proof.
  intros Hs Hsel; apply (selectToolProfile_spec localeCompare shipped_registry) in Hsel.
  destruct Hsel as [He [Hm|[_ (_ & _ & _ & Hsafe & _)]]].
  - split; [intros _; by apply shipped_mandatory_read_only|done].
  - rewrite Hs in Hsafe; unfold unsafe in Hsafe; simpl in Hsafe; split.
    + intros Hr; destruct (decide ("read_only" ∈ safety e)); [done|by destruct Hsafe; left].
    + intros flag ??; destruct Hsafe; right; by exists flag.
Qed.

(** ** Exhausted delegation depth *)

Section depth.
Context (r : ToolRegistry) (Hr : registry_wf r) (limits : option ResourceLimits).

Lemma resourceDenied_other :
  depth_exhausted limits = false → resourceDeniedToolsForLimits limits r = [].
Proof. unfold resourceDeniedToolsForLimits; by intros ->. Qed.

Lemma resourceDenied_keys n :
  map_has n (resourceDeniedToolsForLimits limits r) = true
  ↔ depth_exhausted limits = true
    ∧ ∃ e, e ∈ entries r ∧ is_delegation e = true ∧ name e = n.
Proof.
  unfold resourceDeniedToolsForLimits; destruct (depth_exhausted limits); simpl; [|naive_solver].
  rewrite map_has_true, map_of_entries_keys, <- list_fmap_compose, list_elem_of_fmap.
  setoid_rewrite elem_of_List_filter; naive_solver.
Qed.

Lemma resourceDenied_entry e :
  e ∈ entries r →
  map_has (name e) (resourceDeniedToolsForLimits limits r)
  = depth_exhausted limits && is_delegation e.
Proof.
  intros He; apply eq_true_iff_eq; rewrite resourceDenied_keys, andb_true_iff.
  split; [|intros [? ?]; eauto].
  intros (? & e' & He' & ? & Hn); split; [done|].
  by rewrite <- (wf_name_inj r Hr e' e He' He Hn).
Qed.

(** Filtering by the names of a filtered list is filtering the list. *)
Lemma filter_selectedNames (p : string → bool) (l : list ToolRegistryMetadata) n :
  n ∈ name <$> l →
  set_has n (set_of_list (name <$> List.filter (λ e, p (name e)) l)) = p n.
Proof.
  intros Hn; apply eq_true_iff_eq; rewrite set_has_true, elem_of_set_of_list, list_elem_of_fmap.
  setoid_rewrite elem_of_List_filter; split; [naive_solver|].
  apply list_elem_of_fmap in Hn as (e & -> & ?); eauto.
Qed.

Lemma deny_item_nil i : deny_item [] i = i.
Proof. done. Qed.

(** In either branch the limits act as one filter by name. *)
Lemma effective_filters (sel : ToolProfileSelection) :
  let denied := resourceDeniedToolsForLimits limits r in
  let eff := effectiveToolSelectionForResourceLimits sel limits r in
  let T := selectedTools (inventory sel) in
  (∀ b, b ∈ selectedBindings (inventory sel) → binding_name b ∈ name <$> T) →
  (∀ d, d ∈ toolProfile sel → descriptor_name d ∈ name <$> T) →
  selectedTools (inventory eff) = List.filter (λ e, negb (map_has (name e) denied)) T
  ∧ selectedBindings (inventory eff)
    = List.filter (λ b, negb (map_has (binding_name b) denied)) (selectedBindings (inventory sel))
  ∧ toolProfile eff
    = List.filter (λ d, negb (map_has (descriptor_name d) denied)) (toolProfile sel)
  ∧ items (inventory eff) = deny_item denied <$> items (inventory sel).
Proof.
  intros denied eff T Hb Hd; unfold eff, effectiveToolSelectionForResourceLimits; fold denied.
  destruct denied as [|p denied'] eqn:Hden; simpl.
  - rewrite !List_filter_all by done; split_and!; try done.
    rewrite <- (list_fmap_id (items _)) at 1; by apply list_fmap_ext.
  - rewrite <- Hden; split_and!; try done; apply List_filter_ext_elem; intros x Hx.
    + apply (filter_selectedNames (λ n, negb (map_has n denied))); auto.
    + apply (filter_selectedNames (λ n, negb (map_has n denied))); auto.
Qed.
End depth.

(** Exhausted delegation depth.  Applying a session's resource limits to a
    profile selection changes nothing unless the depth is exactly zero; then the
    selected tools are the previous ones without the delegation tools, bindings,
    descriptors and tool profile follow them position by position, every item is
    kept, and an item still marked selected is no delegation tool's. *)
Theorem depth_zero_selection localeCompare es bs r input limits :
  new_ToolRegistry es bs = Ok r →
  let sel := selectToolProfile localeCompare r input in
  let eff := effectiveToolSelectionForResourceLimits sel limits r in
  let tools := selectedTools (inventory eff) in
  (depth_exhausted limits = false → eff = sel)
  ∧ (depth_exhausted limits = true →
     tools = List.filter (λ e, negb (is_delegation e)) (selectedTools (inventory sel))
     ∧ Forall2 (λ e b, binding_name b = name e ∧ b ∈ bs) tools (selectedBindings (inventory eff))
     ∧ toolProfile eff = toToolDescriptor <$> tools
     ∧ item_name <$> items (inventory eff) = item_name <$> items (inventory sel)
     ∧ ∀ i e, i ∈ items (inventory eff) → is_selected i = true → item_entry i = Some e →
              is_delegation e = false).
Proof.
  intros H sel eff tools; pose proof (new_ToolRegistry_wf _ _ _ H) as Hr.
  split; intros Hdepth.
  { unfold eff, effectiveToolSelectionForResourceLimits.
    by rewrite (resourceDenied_other r limits Hdepth). }
  set (denied := resourceDeniedToolsForLimits limits r).
  assert (∀ e, e ∈ entries r → map_has (name e) denied = is_delegation e) as Hden.
  { intros e He; unfold denied; by rewrite (resourceDenied_entry r Hr), Hdepth. }
  pose proof (selectedBindings_aligned localeCompare r Hr (selection_request r input)) as Hal.
  destruct (effective_filters r limits sel) as (Ht & Hb & Hd & Hi).
  { intros b Hin; destruct (Forall2_elem_r _ _ _ _ Hal Hin) as (e & He & -> & _).
    by apply list_elem_of_fmap_2. }
  { intros d (e & -> & He)%list_elem_of_fmap; by apply (list_elem_of_fmap_2 name). }
  fold denied in Ht, Hb, Hd, Hi; fold eff in Ht, Hb, Hd, Hi.
  unfold tools; rewrite Ht, Hb, Hd, Hi; split_and!.
  - apply List_filter_ext_elem; intros e [He _]%(selectedTools_spec _ _ Hr); by rewrite Hden.
  - eapply Forall2_impl; [eapply Forall2_List_filter; [|exact Hal]|].
    + intros e b _ [-> _]; done.
    + intros e b [? ?]; split; [done|]; by eapply new_ToolRegistry_bindings.
  - apply (List_filter_fmap toToolDescriptor (λ d, negb (map_has (descriptor_name d) denied))).
  - rewrite <- list_fmap_compose; apply list_fmap_ext; intros; unfold deny_item; simpl.
    by repeat case_match.
  - intros i e (i0 & -> & Hi0)%list_elem_of_fmap Hsel Hent; unfold deny_item in Hsel, Hent.
    apply not_true_iff_false; intros Hdel.
    destruct (is_selected i0) eqn:Hsel0; [|by repeat case_match; congruence].
    destruct (selected_item r Hr _ _ _ Hi0 Hsel0) as (e0 & He0 & Hn & Hc & Hent0).
    specialize (Hden _ He0); unfold map_has in Hden; rewrite Hc in Hsel, Hent; simpl in Hsel, Hent.
    case_match; [done|]; congruence.
Qed.

(** ** Matching descriptors with implementations *)

Section session_proofs.
Context {BrainTool : Type} (tool_name : BrainTool → string).

Lemma group_tools tools m n :
  default [] (map_get n (fold_left (group_tool tool_name) tools m))
  = default [] (map_get n m) ++ filter (λ t, tool_name t = n) tools.
Proof.
  revert m; induction tools as [|t tools IH]; intros m; simpl; [by rewrite app_nil_r|].
  rewrite IH, filter_cons; unfold group_tool; destruct (decide (tool_name t = n)) as [<-|Hne].
  - destruct (map_get (tool_name t) m) as [g|] eqn:Hg; rewrite map_get_set_eq; simpl;
      by rewrite <- ?app_assoc.
  - destruct (map_get (tool_name t) m) as [g|] eqn:Hg; by rewrite map_get_set_ne.
Qed.

Lemma groupToolsByName_get tools n :
  default [] (map_get n (groupToolsByName tool_name tools)) = filter (λ t, tool_name t = n) tools.
Proof. apply group_tools. Qed.

Lemma descriptor_item_callable tools d t :
  (if bool_decide (session_status (descriptor_item (groupToolsByName tool_name tools) d) = callable)
   then session_tool (descriptor_item (groupToolsByName tool_name tools) d) else None) = Some t
  ↔ filter (λ t, tool_name t = descriptor_name d) tools = [t].
Proof.
  unfold descriptor_item; rewrite groupToolsByName_get.
  destruct (filter _ tools) as [|t1 [|t2 l]]; simpl; naive_solver.
Qed.

Lemma descriptor_item_descriptor m d :
  session_descriptor (descriptor_item m d) = Some d
  ∧ session_status (@descriptor_item BrainTool m d) ≠ session_not_requested.
Proof. unfold descriptor_item; by repeat case_match. Qed.

Lemma callable_sublist tools ds :
  tool_name <$> omap (λ i, if bool_decide (session_status i = callable) then session_tool i else None)
    (descriptor_item (groupToolsByName tool_name tools) <$> ds)
  `sublist_of` descriptor_name <$> ds.
Proof.
  induction ds as [|d ds IH]; [done|]; rewrite !fmap_cons; cbn [omap list_omap].
  destruct (if bool_decide _ then _ else _) as [t|] eqn:Ht; [|by apply sublist_cons].
  apply descriptor_item_callable in Ht.
  assert (t ∈ filter (λ t, tool_name t = descriptor_name d) tools) as Hin
    by (rewrite Ht; left).
  apply list_elem_of_filter in Hin as [Heq _]; rewrite fmap_cons, Heq; by apply sublist_skip.
Qed.

Lemma fmap_filter_sublist {A B} (f : A → B) (p : A → bool) (l : list A) :
  f <$> List.filter p l `sublist_of` f <$> l.
Proof.
  induction l as [|x l IH]; [done|]; cbn [List.filter].
  destruct (p x); rewrite !fmap_cons; [by apply sublist_skip|by apply sublist_cons].
Qed.

(** The tools a session can call.  A resolved tool is callable in a session
    if and only if some configured descriptor names it, it is the only resolved
    implementation of that name, and the name is not a delegation tool's when the
    session's delegation depth is exhausted.  Callable tools come in the order of
    the configured profile, so distinct descriptor names give distinct tool
    names; and the items report every configured descriptor. *)
Theorem resolveToolSession_callable localeCompare r limits profile resolve :
  let descriptors := List.filter
    (λ d, negb (map_has (descriptor_name d) (resourceDeniedToolsForLimits limits r))) profile in
  let res := resolveToolSession localeCompare tool_name r limits (Some profile) [] (Some resolve) in
  (∀ t, t ∈ session_tools res ↔
     ∃ d, d ∈ profile ∧ filter (λ t, tool_name t = descriptor_name d) (resolve descriptors) = [t]
          ∧ ¬ (depth_exhausted limits = true
               ∧ ∃ e, e ∈ entries r ∧ is_delegation e = true ∧ name e = descriptor_name d))
  ∧ tool_name <$> session_tools res `sublist_of` descriptor_name <$> profile
  ∧ (NoDup (descriptor_name <$> profile) → NoDup (tool_name <$> session_tools res))
  ∧ (∀ d, d ∈ profile → ∃ i, i ∈ session_items res ∧ session_descriptor i = Some d
       ∧ session_status i ≠ session_not_requested).
Proof.
  intros descriptors res.
  assert (∀ d, d ∈ descriptors ↔ d ∈ profile ∧ ¬ (depth_exhausted limits = true
    ∧ ∃ e, e ∈ entries r ∧ is_delegation e = true ∧ name e = descriptor_name d)) as Hd.
  { intros d; unfold descriptors.
    by rewrite elem_of_List_filter, <- resourceDenied_keys, negb_true_iff, not_true_iff_false. }
  assert (tool_name <$> session_tools res `sublist_of` descriptor_name <$> profile) as Hsub.
  { etrans; [apply callable_sublist|apply fmap_filter_sublist]. }
  split_and!; [|done| |].
  - intros t; unfold res; cbn [session_tools resolveToolSession default]; fold descriptors.
    rewrite list_elem_of_omap; setoid_rewrite list_elem_of_fmap; split.
    + intros (i & (d & -> & [??]%Hd) & Ht%descriptor_item_callable); eauto.
    + intros (d & ? & Ht & ?); eexists; split; [exists d; split; [done|by apply Hd]|].
      by apply descriptor_item_callable.
  - intros Hnd; by eapply sublist_NoDup.
  - intros d Hin; destruct (map_has (descriptor_name d) (resourceDeniedToolsForLimits limits r))
      eqn:Hden.
    + eexists; split; [apply elem_of_app; right; apply elem_of_app; left;
        apply list_elem_of_fmap_2, elem_of_List_filter; eauto|done].
    + eexists; split; [apply elem_of_app; left; apply list_elem_of_fmap_2, elem_of_List_filter|].
      * by rewrite Hden.
      * by apply descriptor_item_descriptor.
Qed.
End session_proofs.

(** ** Concrete inputs *)

Module SelectionSample.
Definition input : ToolProfileSelectionInput :=
  {| profileId := "p";
     policy := {| policy_requestedToolsets := Some ["local_code_read"; "local_code_write"];
                  policy_requestedTools := None; policy_deniedTools := Some ["rusty_crew_help"];
                  policy_includeDeprecated := None |};
     session := Some {| session_deniedTools := None; session_resourceDeniedTools := None;
                        session_resourceDeniedReasons := None; readOnly := Some true;
                        disallowedSafetyFlags := Some ["network_access"] |};
     input_catalogId := None |}.

(** The help tool stays although the policy denies it. *)
Lemma selectToolProfile_exact_witness :
  ∃ e, get shipped_registry "rusty_crew_help" = Some e
    ∧ e ∈ selectedTools (inventory (selectToolProfile String.compare shipped_registry input)).
Proof.
  eexists; split; [vm_compute; reflexivity|].
  apply (selectToolProfile_exact String.compare shipped_registry input); split; [|by left; left].
  apply (proj1 (get_Some _ shipped_registry_wf "rusty_crew_help" _)); vm_compute; reflexivity.
Defined.

Lemma readOnly_session_tools_witness :
  ∃ e, selectedTools (inventory (selectToolProfile String.compare shipped_registry input)) !! 0%nat
       = Some e ∧ "read_only" ∈ safety e.
Proof.
  eexists; split; [vm_compute; reflexivity|].
  apply (readOnly_session_tools String.compare input _ _ eq_refl); [|reflexivity].
  apply (list_elem_of_lookup_2 _ 0); vm_compute; reflexivity.
Defined.

Definition small_input : ToolProfileSelectionInput :=
  {| profileId := "p";
     policy := {| policy_requestedToolsets := Some ["code"; "team"]; policy_requestedTools := None;
                  policy_deniedTools := None; policy_includeDeprecated := None |};
     session := None; input_catalogId := None |}.

Lemma depth_zero_selection_witness :
  selectedTools (inventory (effectiveToolSelectionForResourceLimits
    (selectToolProfile String.compare Sample.registry small_input)
    (Some {| maxDelegationDepth := Some 0%Z |}) Sample.registry)) = [Sample.read]
  ∧ selectedTools (inventory (selectToolProfile String.compare Sample.registry small_input))
    = [Sample.read; Sample.spawn].
Proof.
  split; [|reflexivity].
  etrans; [|reflexivity].
  apply (proj2 (depth_zero_selection String.compare _ _ _ small_input
    (Some {| maxDelegationDepth := Some 0%Z |}) Sample.registry_ok) eq_refl).
Defined.
End SelectionSample.
