(* ===== verification/Json.v ===== *)
(** * JavaScript values as JSON sees them

    The trees the debug stores keep: [undefined], [null], booleans, numbers (by
    the text [JSON.stringify] gives them, [null] for a non-finite one), strings,
    arrays and plain objects with their entries in enumeration order.  Functions,
    big integers, cyclic objects and [toJSON] methods are left out. *)

From S2P Require Import Prelude JsString.

#[warnings="-register-all"]
Inductive json :=
| JUndefined
| JNull
| JBool (b : bool)
| JNumber (rendered : string)
| JString (s : string)
| JArray (l : list json)
| JObject (o : list (string * json)).

(** [o.k] *)
Definition member (o : list (string * json)) (k : string) : json := default JUndefined (map_get k o).

(** Induction through the nested lists. *)
Section json_induction.
Context (P : json → Prop).
Context (Hundef : P JUndefined) (Hnull : P JNull) (Hbool : ∀ b, P (JBool b))
  (Hnum : ∀ t, P (JNumber t)) (Hstr : ∀ s, P (JString s))
  (Harr : ∀ l, Forall P l → P (JArray l))
  (Hobj : ∀ o, Forall (λ p, P p.2) o → P (JObject o)).

Fixpoint json_nested_ind (v : json) : P v :=
  match v with
  | JUndefined => Hundef
  | JNull => Hnull
  | JBool b => Hbool b
  | JNumber t => Hnum t
  | JString s => Hstr s
  | JArray l =>
      Harr l ((fix go (l : list json) : Forall P l :=
                 match l with
                 | [] => Forall_nil_2 P
                 | x :: l' => Forall_cons_2 P x l' (json_nested_ind x) (go l')
                 end) l)
  | JObject o =>
      Hobj o ((fix go (o : list (string * json)) : Forall (λ p, P p.2) o :=
                 match o with
                 | [] => Forall_nil_2 _
                 | p :: o' => Forall_cons_2 (λ p, P p.2) p o' (json_nested_ind (snd p)) (go o')
                 end) o)
  end.
End json_induction.

(** ** [JSON.stringify] *)

Definition dquote : ascii := Ascii.ascii_of_nat 34.
Definition backslash : ascii := Ascii.ascii_of_nat 92.

Definition hex_char (n : N) : ascii :=
  Ascii.ascii_of_N (if (n <? 10)%N then 48 + n else 87 + n).

Definition escape_char (c : ascii) : text :=
  match code c with
  | 34%N => [backslash; dquote]
  | 92%N => [backslash; backslash]
  | 8%N => [backslash; "b"%char]
  | 9%N => [backslash; "t"%char]
  | 10%N => [backslash; "n"%char]
  | 12%N => [backslash; "f"%char]
  | 13%N => [backslash; "r"%char]
  | n => if (n <? 32)%N
         then [backslash; "u"%char; "0"%char; "0"%char; hex_char (n / 16); hex_char (n mod 16)]
         else [c]
  end.

Definition quote (s : string) : string :=
  str (dquote :: (chars s ≫= escape_char) ++ [dquote]).

Fixpoint stringify (v : json) : option string :=
  match v with
  | JUndefined => None
  | JNull => Some "null"
  | JBool b => Some (if b then "true" else "false")
  | JNumber t => Some t
  | JString s => Some (quote s)
  | JArray l =>
      Some ("[" +:+ Str.join "," (map (λ x, default "null" (stringify x)) l) +:+ "]")
  | JObject o =>
      Some ("{" +:+ Str.join ","
              (flat_map (λ p, match p with
                              | (k, x) =>
                                  match stringify x with
                                  | Some t => [quote k +:+ ":" +:+ t]
                                  | None => []
                                  end
                              end) o) +:+ "}")
  end.

(** [JSON.parse(JSON.stringify(v))]: undefined members disappear, undefined array
    elements and non-finite numbers become [null]. *)
Fixpoint json_clone (v : json) : json :=
  match v with
  | JNumber t => if String.eqb t "null" then JNull else JNumber t
  | JArray l => JArray (map (λ x, match x with JUndefined => JNull | _ => json_clone x end) l)
  | JObject o =>
      JObject (flat_map (λ p, match p with
                              | (_, JUndefined) => []
                              | (k, x) => [(k, json_clone x)]
                              end) o)
  | _ => v
  end.

Example stringify_sample :
  stringify (JObject [("a", JArray [JUndefined; JNumber "1"]); ("b", JUndefined); ("c", JString "x")])
  = Some (str ("{"%char :: dquote :: "a"%char :: dquote :: chars ":[null,1],"
          ++ dquote :: "c"%char :: dquote :: ":"%char :: dquote :: "x"%char :: dquote :: ["}"%char])).
Proof. reflexivity. Qed.

(** ** Secret-looking names:
    [/(?:api[_-]?key|authorization|bearer|credential|password|secret|token)/i] *)

Definition secret_words : list string :=
  ["apikey"; "api_key"; "api-key"; "authorization"; "bearer"; "credential"; "password";
   "secret"; "token"].

Definition REDACTED_KEY_PATTERN (key : string) : bool :=
  let lower := Text.toLowerCase (chars key) in
  existsb (λ w, Text.includes lower (chars w)) secret_words.

Lemma clone_idempotent v : json_clone (json_clone v) = json_clone v.
Proof.
  induction v as [| | |t| |l IH|o IH] using json_nested_ind; try done.
  - simpl; destruct (String.eqb t "null") eqn:Ht; simpl; by rewrite ?Ht.
  - simpl; f_equal; rewrite map_map; apply map_ext_Forall.
    eapply Forall_impl; [exact IH|]; intros x Hx.
    destruct x; simpl in *; try done; repeat case_match; done.
  - simpl; f_equal; induction o as [|[k x] o IHo]; [done|].
    apply Forall_cons in IH as [Hx IH]; simpl in Hx.
    destruct x; simpl in *; rewrite ?IHo by done; repeat case_match; simplify_eq/=; try done;
      try (f_equal; [|by apply IHo]); try congruence.
Qed.

(** [entry_of k x v]: some object within [v] has the member [k] with value [x]. *)
Inductive entry_of (k : string) (x : json) : json → Prop :=
| entry_here o : (k, x) ∈ o → entry_of k x (JObject o)
| entry_array l v : v ∈ l → entry_of k x v → entry_of k x (JArray l)
| entry_object o k' v : (k', v) ∈ o → entry_of k x v → entry_of k x (JObject o).

Lemma entry_of_array k x l : entry_of k x (JArray l) ↔ ∃ v, v ∈ l ∧ entry_of k x v.
Proof. split; [inversion 1; eauto|intros (v & ? & ?); by econstructor]. Qed.

Lemma entry_of_object k x o :
  entry_of k x (JObject o) ↔ ∃ k' v, (k', v) ∈ o ∧ (k' = k ∧ v = x ∨ entry_of k x v).
Proof.
  split.
  - inversion 1; subst; eauto 6.
  - intros (k' & v & Hin & [[-> ->]|]); [by apply entry_here|by eapply entry_object].
Qed.

(** Some member anywhere in the value has a secret-looking name. *)
Definition has_secret (v : json) : Prop := ∃ k x, entry_of k x v ∧ REDACTED_KEY_PATTERN k = true.
