(* ===== verification/DebugStore.v ===== *)
(** * Bounded, expiring record stores

    The part the two in-memory debug stores
    ([provider-request-debug-store.ts], [tool-call-debug-store.ts]) share: records
    by id in insertion order, an index from a call key to a record id, removal of
    expired records and removal of the oldest ones above the limit.  What a store
    needs to know of its records is the class [StoredRecord]; the lemmas here are
    proved for every instance of it. *)

From S2P Require Import Prelude JsString JsDate.
#[local] Open Scope Z_scope.

(** An instant printed after a shift reads back as the shifted instant. *)
Lemma expiry_parse `{!DateText} now retention e t :
  toISOString (date_parse now ≫= λ t, TimeClip (t + retention)) = Ok e →
  date_parse now = Some t → date_parse e = Some (t + retention).
Proof.
  intros He Ht; rewrite Ht in He; simpl in He; unfold TimeClip in He.
  destruct (Z.leb_spec (Z.abs (t + retention)) maxTime); simpl in He; [|done].
  injection He as <-; by apply date_parse_iso.
Qed.

Class StoredRecord (R : Type) := {
  record_id : R → string;
  record_key : R → string;
  record_expires : R → string;
  record_session : R → string
}.

Record Store (R : Type) := { records : jsmap string R; index : jsmap string string }.
Arguments records {R} s.
Arguments index {R} s.
Arguments Build_Store {R} records index.

Definition empty_store {R} : Store R := Build_Store [] [].

Section store.
Context `{!DateText} {R : Type} `{!StoredRecord R}.
Implicit Types (s : Store R) (r : R).

(** [Date.parse(expires_at) <= Date.parse(now)], false when either is NaN *)
Definition expired (now : string) r : bool :=
  match date_parse (record_expires r), date_parse now with
  | Some e, Some n => e <=? n
  | _, _ => false
  end.

Definition remove s (id : string) r : Store R :=
  Build_Store (map_delete id (records s)) (map_delete (record_key r) (index s)).

(** [cleanup]: the loop visits the entries the map had when it started, since it
    only deletes the one it is at. *)
Definition expire (now : string) s : Store R :=
  fold_left (λ s p, if expired now p.2 then remove s p.1 p.2 else s) (records s) s.

(** [trimToLimit]: drop the first entry while there are too many. *)
Fixpoint trim_entries (max : Z) (rs : jsmap string R) (idx : jsmap string string) : Store R :=
  match rs with
  | [] => Build_Store [] idx
  | (id, r) :: rs' =>
      if Z.of_nat (length rs) >? max
      then trim_entries max rs' (map_delete (record_key r) idx)
      else Build_Store rs idx
  end.

Definition trim_store (max : Z) s : Store R := trim_entries max (records s) (index s).

Definition insert s r : Store R :=
  Build_Store (map_set (record_id r) r (records s)) (map_set (record_key r) (record_id r) (index s)).

(** ** Invariants *)

Record store_wf s : Prop := {
  wf_records : map_wf (records s);
  wf_index : map_wf (index s);
  wf_ids : Forall (λ p, record_id p.2 = p.1) (records s);
  (** an index entry points to a live record of its key *)
  wf_sound : ∀ k id, map_get k (index s) = Some id →
    ∃ r, map_get id (records s) = Some r ∧ record_key r = k
}.

(** Every live record is the one its key is indexed to. *)
Definition index_exact s : Prop :=
  ∀ id r, map_get id (records s) = Some r → map_get (record_key r) (index s) = Some id.

Lemma empty_store_wf : store_wf (@empty_store R) ∧ index_exact (@empty_store R).
Proof. split; [split; done || constructor|done]. Qed.

Lemma exact_key_inj s id1 id2 r1 r2 :
  index_exact s → map_get id1 (records s) = Some r1 → map_get id2 (records s) = Some r2 →
  record_key r1 = record_key r2 → id1 = id2.
Proof. intros He H1%He H2%He Hk; congruence. Qed.

Lemma remove_wf s id r :
  store_wf s → map_get id (records s) = Some r → store_wf (remove s id r).
Proof.
  intros [Hr Hi Hids Hs] Hget; split; simpl.
  - by apply map_delete_wf.
  - by apply map_delete_wf.
  - apply Forall_forall; intros [k x] [_ Hin]%map_delete_elem.
    rewrite Forall_forall in Hids; by apply Hids.
  - intros k i Hk; destruct (decide (k = record_key r)) as [->|Hne];
      [by rewrite map_get_delete_eq in Hk|].
    rewrite map_get_delete_ne in Hk by done; destruct (Hs _ _ Hk) as (x & Hx & Hxk).
    exists x; split; [|done].
    rewrite map_get_delete_ne; [done|]; intros ->; congruence.
Qed.

Lemma remove_exact s id r :
  index_exact s → map_get id (records s) = Some r → index_exact (remove s id r).
Proof.
  intros He Hget i x; simpl; destruct (decide (id = i)) as [->|Hne];
    [by rewrite map_get_delete_eq|].
  rewrite map_get_delete_ne by done; intros Hx; rewrite map_get_delete_ne; [by apply He|].
  intros Hk; apply Hne; by eapply exact_key_inj.
Qed.

Lemma remove_get s id r i :
  map_get i (records (remove s id r)) = if decide (i = id) then None else map_get i (records s).
Proof.
  simpl; case_decide; subst; [apply map_get_delete_eq|by apply map_get_delete_ne].
Qed.

(** ** Expiry *)

(** The loop over any list of entries that are in the store and have distinct
    ids keeps what [P] keeps under one removal. *)
Lemma expire_loop (P : Store R → Prop) now l s :
  (∀ s id r, P s → map_get id (records s) = Some r → P (remove s id r)) →
  P s → NoDup l.*1 → Forall (λ p, map_get p.1 (records s) = Some p.2) l →
  P (fold_left (λ s p, if expired now p.2 then remove s p.1 p.2 else s) l s).
Proof.
  intros Hstep; revert s; induction l as [|[id r] l IH]; intros s HP Hnd Hl; simpl; [done|].
  apply NoDup_cons in Hnd as [Hid Hnd]; apply Forall_cons in Hl as [Hget Hl]; simpl in *.
  apply IH; [|done|].
  - destruct (expired now r); [by apply Hstep|done].
  - destruct (expired now r); [|done]. apply Forall_forall; intros [i x] Hin; simpl.
    rewrite map_get_delete_ne; [by apply (proj1 (Forall_forall _ _) Hl (i, x))|].
    intros ->; apply Hid, list_elem_of_fmap; by exists (i, x).
Qed.

Lemma records_self s : store_wf s → Forall (λ p, map_get p.1 (records s) = Some p.2) (records s).
Proof.
  intros Hwf; apply Forall_forall; intros [i x] Hin; apply map_get_wf; [apply Hwf|done].
Qed.

Lemma expire_wf now s : store_wf s → store_wf (expire now s).
Proof.
  intros Hwf; unfold expire; apply (expire_loop store_wf); [apply remove_wf|done|apply Hwf|by apply records_self].
Qed.

Lemma expire_exact now s : store_wf s → index_exact s → index_exact (expire now s).
Proof.
  intros Hwf He; unfold expire; apply (expire_loop index_exact); [apply remove_exact|done|apply Hwf|by apply records_self].
Qed.

Lemma map_delete_first {A} (k : string) (v : A) m :
  map_wf ((k, v) :: m) → map_delete k ((k, v) :: m) = m.
Proof.
  intros Hwf; simpl; rewrite decide_True by done; apply map_delete_notin, map_get_None.
  by apply NoDup_cons in Hwf as [? _].
Qed.

(** What is left are the records that have not expired, in order. *)
Lemma expire_records now s :
  store_wf s → records (expire now s) = List.filter (λ p, negb (expired now p.2)) (records s).
Proof.
  intros Hwf; unfold expire.
  assert (∀ l s, records (fold_left (λ s p, if expired now p.2 then remove s p.1 p.2 else s) l s)
    = fold_left (λ m p, if expired now p.2 then map_delete p.1 m else m) l (records s)) as ->.
  { induction l as [|p l IH]; intros s'; simpl; [done|]. rewrite IH; by destruct (expired _ _). }
  enough (∀ l pre : jsmap string R, map_wf (pre ++ l) →
    fold_left (λ m p, if expired now p.2 then map_delete p.1 m else m) l (pre ++ l)
    = pre ++ List.filter (λ p, negb (expired now p.2)) l) as Hloop.
  { by apply (Hloop (records s) []), Hwf. }
  clear s Hwf; induction l as [|[id r] l IH]; intros pre Hwf; simpl; [done|].
  destruct (expired now r); simpl.
  - assert (map_delete id (pre ++ (id, r) :: l) = pre ++ l) as ->.
    { by apply map_delete_middle. }
    apply IH; by eapply map_wf_middle.
  - specialize (IH (pre ++ [(id, r)])); rewrite <- !app_assoc in IH; by apply IH.
Qed.

Lemma expire_get now s id r :
  store_wf s →
  map_get id (records (expire now s)) = Some r ↔
  map_get id (records s) = Some r ∧ expired now r = false.
Proof.
  intros Hwf; pose proof (expire_wf now s Hwf) as Hwf'; split.
  - intros Hin%map_get_elem; rewrite expire_records in Hin by done.
    apply elem_of_List_filter in Hin as [Hin He%negb_true_iff].
    split; [by apply map_get_wf; [apply Hwf|]|done].
  - intros [Hin%map_get_elem He]; apply map_get_wf; [apply Hwf'|].
    rewrite expire_records by done; apply elem_of_List_filter; split; [done|]; simpl.
    by rewrite He.
Qed.

(** ** The size limit *)

Lemma remove_first id r rs idx :
  map_wf ((id, r) :: rs) →
  remove (Build_Store ((id, r) :: rs) idx) id r = Build_Store rs (map_delete (record_key r) idx).
Proof. intros Hwf; unfold remove; cbn [records index]; by rewrite map_delete_first. Qed.

Lemma trim_loop (P : Store R → Prop) max rs idx :
  (∀ s id r, P s → map_get id (records s) = Some r → P (remove s id r)) →
  map_wf rs → P (Build_Store rs idx) → P (trim_entries max rs idx).
Proof.
  intros Hstep; revert idx; induction rs as [|[id r] rs IH]; intros idx Hwf HP;
    cbn [trim_entries]; [done|].
  destruct (_ >? _); [|done]; apply IH; [by apply NoDup_cons in Hwf as [_ ?]|].
  rewrite <- (remove_first id r rs idx Hwf); apply Hstep; [done|]; simpl; by rewrite decide_True.
Qed.

Lemma trim_wf max s : store_wf s → store_wf (trim_store max s).
Proof. destruct s; intros Hwf; unfold trim_store; apply (trim_loop store_wf); [apply remove_wf|apply Hwf|done]. Qed.

Lemma trim_exact max s : store_wf s → index_exact s → index_exact (trim_store max s).
Proof.
  destruct s; intros Hwf He; unfold trim_store; apply (trim_loop index_exact); [apply remove_exact|apply Hwf|done].
Qed.

Lemma trim_records max s :
  records (trim_store max s) = drop (length (records s) - Z.to_nat (Z.max 0 max)) (records s).
Proof.
  unfold trim_store; generalize (index s); induction (records s) as [|[id r] rs IH]; intros idx;
    cbn [trim_entries]; [by rewrite drop_nil|].
  destruct (Z.gtb_spec (Z.of_nat (length ((id, r) :: rs))) max) as [Hgt|Hle].
  - rewrite IH; simpl length in *.
    destruct (Z.to_nat (Z.max 0 max)) as [|m] eqn:Hm.
    + by rewrite !Nat.sub_0_r.
    + replace (S (length rs) - S m)%nat with (S (length rs - S m))%nat by lia. done.
  - simpl length in *; replace (_ - _)%nat with 0%nat by lia. done.
Qed.

Lemma trim_bound max s : Z.of_nat (length (records (trim_store max s))) <= Z.max 0 max.
Proof. rewrite trim_records, length_drop; lia. Qed.

Lemma trim_get_weaken max s id r :
  store_wf s → map_get id (records (trim_store max s)) = Some r → map_get id (records s) = Some r.
Proof.
  intros Hwf Hr%map_get_elem; apply map_get_wf; [apply Hwf|]; rewrite trim_records in Hr.
  apply list_elem_of_In; apply list_elem_of_In in Hr.
  rewrite <- (take_drop (length (records s) - Z.to_nat (Z.max 0 max)) (records s)).
  apply in_or_app; by right.
Qed.

(** ** Inserting and updating *)

Lemma insert_wf s r : store_wf s → map_get (record_id r) (records s) = None → store_wf (insert s r).
Proof.
  intros [Hr Hi Hids Hs] Hnew; split; simpl; [by apply map_set_wf..| |].
  - apply Forall_forall; intros p [->|Hin]%map_set_elem; [done|].
    rewrite Forall_forall in Hids; by apply Hids.
  - intros k id; destruct (decide (record_key r = k)) as [<-|Hne].
    + rewrite map_get_set_eq; intros [= <-]; exists r; by rewrite map_get_set_eq.
    + rewrite map_get_set_ne by done; intros (x & Hx & Hk)%Hs; exists x; split; [|done].
      rewrite map_get_set_ne; [done|]; intros <-; congruence.
Qed.

Lemma insert_exact s r :
  index_exact s → map_get (record_key r) (index s) = None → index_exact (insert s r).
Proof.
  intros He Hnew id x; simpl; destruct (decide (record_id r = id)) as [<-|Hne].
  - rewrite map_get_set_eq; intros [= <-]; apply map_get_set_eq.
  - rewrite map_get_set_ne by done; intros Hx%He; rewrite map_get_set_ne; [done|].
    intros Hk; rewrite Hk in Hnew; congruence.
Qed.

Lemma update_wf s id r r' :
  store_wf s → map_get id (records s) = Some r → record_id r' = id → record_key r' = record_key r →
  store_wf (Build_Store (map_set id r' (records s)) (index s)).
Proof.
  intros [Hr Hi Hids Hs] Hget Hid Hkey; split; simpl; [by apply map_set_wf|done| |].
  - apply Forall_forall; intros p [->|Hin]%map_set_elem; [done|].
    rewrite Forall_forall in Hids; by apply Hids.
  - intros k i (x & Hx & Hk)%Hs; destruct (decide (id = i)) as [<-|Hne].
    + exists r'; rewrite map_get_set_eq; split; [done|]; congruence.
    + exists x; by rewrite map_get_set_ne.
Qed.

Lemma update_exact s id r r' :
  index_exact s → map_get id (records s) = Some r → record_key r' = record_key r →
  index_exact (Build_Store (map_set id r' (records s)) (index s)).
Proof.
  intros He Hget Hkey i x; simpl; destruct (decide (id = i)) as [<-|Hne].
  - rewrite map_get_set_eq; intros [= <-]; rewrite Hkey; by apply He.
  - rewrite map_get_set_ne by done; apply He.
Qed.

(** The record inserted last survives a positive limit. *)
Lemma insert_trim_get max s r :
  0 < max → map_get (record_id r) (records s) = None →
  map_get (record_id r) (records (trim_store max (insert s r))) = Some r.
Proof.
  intros Hmax Hnew; rewrite trim_records; simpl; rewrite map_set_absent by done.
  rewrite length_app; simpl; rewrite drop_app_le by lia.
  rewrite map_get_app; simpl; rewrite decide_True by done.
  destruct (map_get _ (drop _ _)) as [x|] eqn:Hx; [exfalso|done].
  apply map_get_None in Hnew; apply Hnew, list_elem_of_fmap.
  exists (record_id r, x); split; [done|].
  apply map_get_elem, list_elem_of_In in Hx; apply list_elem_of_In.
  rewrite <- (take_drop (length (records s) + 1 - Z.to_nat (Z.max 0 max)) (records s)).
  apply in_or_app; by right.
Qed.
End store.

Create HintDb store.
#[export] Hint Resolve expire_wf trim_wf insert_wf update_wf : store.
#[export] Hint Resolve expire_exact trim_exact insert_exact update_exact : store.
