(* ===== verification/ProviderDebug.v ===== *)
(** * The provider request debug store

    [ts/packages/brain-island/src/provider-request-debug-store.ts]: the requests
    sent to a model provider, redacted, bounded in size, kept for a retention
    time and up to a number of records, found again by id or as the latest of a
    wake.  SHA-256 (as a hex digest of a string) and the random bytes of an id
    are arguments; each reading of the clock is an argument of the operation that
    makes it. *)

From S2P Require Import Prelude JsString JsDate Json DebugStore.
#[local] Open Scope Z_scope.

(** ** Data *)

Record ProviderRequestDebugLimits := {
  maxJsonChars : Z;
  retentionMs : Z;
  maxRecords : Z
}.

Record ProviderRequestDebugValue := {
  value : json;
  truncated : bool;
  redacted : bool;
  value_sha256 : option string;
  originalJsonChars : option Z
}.

Record ProviderReference := {
  brain_module : string;
  model_config_id : option string;
  model_config_revision : option Z;
  endpoint_id : option string;
  endpoint_revision : option Z;
  credential_id : option string;
  credential_revision : option Z;
  provider_alias : option string;
  model : option string;
  protocol : option string;
  provider_kind : option string
}.

Record ProviderRequestDebugRecord := {
  debug_detail_id : string;
  session_id : string;
  wake_id : string;
  provider : ProviderReference;
  request : ProviderRequestDebugValue;
  request_sha256 : string;
  request_json_chars : Z;
  recorded_at : string;
  expires_at : string;
  record_limits : ProviderRequestDebugLimits
}.

Record RecordProviderRequestDebugInput := {
  sessionId : string;
  wakeId : string;
  brainModule : string;
  modelConfigId : option string;
  modelConfigRevision : option Z;
  endpointId : option string;
  endpointRevision : option Z;
  credentialId : option string;
  credentialRevision : option Z;
  providerAlias : option string;
  input_model : option string;
  input_protocol : option string;
  providerKind : option string;
  input_request : json
}.

Record MemoryProviderRequestDebugStoreOptions := {
  option_maxJsonChars : option Z;
  option_retentionMs : option Z;
  option_maxRecords : option Z
}.

Definition DEFAULT_LIMITS : ProviderRequestDebugLimits :=
  {| maxJsonChars := 80000; retentionMs := 60 * 60 * 1000; maxRecords := 200 |}.

Definition NUL : string := String (Ascii.ascii_of_nat 0) EmptyString.

Definition wakeKey (session wake : string) : string := session +:+ NUL +:+ wake.

#[global] Instance provider_stored : StoredRecord ProviderRequestDebugRecord := {|
  record_id := debug_detail_id;
  record_key := λ r, wakeKey (session_id r) (wake_id r);
  record_expires := expires_at;
  record_session := session_id
|}.

Record MemoryProviderRequestDebugStore := {
  limits : ProviderRequestDebugLimits;
  store : Store ProviderRequestDebugRecord
}.

Definition new_store (o : MemoryProviderRequestDebugStoreOptions) : MemoryProviderRequestDebugStore :=
  {| limits :=
       {| maxJsonChars := default (maxJsonChars DEFAULT_LIMITS) (option_maxJsonChars o);
          retentionMs := default (retentionMs DEFAULT_LIMITS) (option_retentionMs o);
          maxRecords := default (maxRecords DEFAULT_LIMITS) (option_maxRecords o) |};
     store := empty_store |}.

(** ** Values *)

Section provider.
Context (sha256 : string → string) `{!DateText}.

(** [JSON.stringify(value) ?? JSON.stringify(String(value))] *)
Definition safeJson (v : json) : string := default (quote "undefined") (stringify v).

Definition secret_marker (nested : json) : json :=
  JObject [("redacted", JBool true); ("reason", JString "secret_key_name");
           ("sha256", JString (sha256 (safeJson nested)))].

Fixpoint redactValue (v : json) : json * bool :=
  match v with
  | JArray l =>
      let mapped := map redactValue l in
      (JArray (map fst mapped), existsb snd mapped)
  | JObject o =>
      let output := map (λ p, match p with
        | (key, nested) =>
            if REDACTED_KEY_PATTERN key then (key, secret_marker nested, true)
            else (key, fst (redactValue nested), snd (redactValue nested))
        end) o in
      (JObject (map fst output), existsb snd output)
  | _ => (v, false)
  end.

Definition boundedValue (v : json) (max : Z) : ProviderRequestDebugValue :=
  let redaction := redactValue v in
  let text := safeJson redaction.1 in
  let chars := Z.of_nat (Str.length text) in
  if chars <=? max
  then {| value := redaction.1; truncated := false; redacted := redaction.2;
          value_sha256 := None; originalJsonChars := Some chars |}
  else {| value := JObject [("truncated", JBool true);
                            ("preview", JString (Str.slice text 0 (Z.to_nat (Z.max 0 max))))];
          truncated := true; redacted := redaction.2;
          value_sha256 := Some (sha256 text); originalJsonChars := Some chars |}.

(** ** Operations *)

Definition expiresAt (recordedAt : string) (retention : Z) : result string :=
  toISOString (date_parse recordedAt ≫= λ t, TimeClip (t + retention)).

Definition debugDetailIdFor (input : RecordProviderRequestDebugInput)
    (recordedAt randomBytes : string) : string :=
  "providerdbg_" +:+
  Str.slice (sha256 (sessionId input +:+ NUL +:+ wakeId input +:+ NUL +:+ brainModule input
                     +:+ NUL +:+ recordedAt +:+ NUL +:+ randomBytes)) 0 24.

(** [JSON.parse(JSON.stringify(record))] *)
Definition cloneRecord (r : ProviderRequestDebugRecord) : ProviderRequestDebugRecord :=
  {| debug_detail_id := debug_detail_id r; session_id := session_id r; wake_id := wake_id r;
     provider := provider r;
     request := {| value := json_clone (value (request r)); truncated := truncated (request r);
                   redacted := redacted (request r); value_sha256 := value_sha256 (request r);
                   originalJsonChars := originalJsonChars (request r) |};
     request_sha256 := request_sha256 r; request_json_chars := request_json_chars r;
     recorded_at := recorded_at r; expires_at := expires_at r; record_limits := record_limits r |}.

Definition cleanup (now : string) (m : MemoryProviderRequestDebugStore)
    : MemoryProviderRequestDebugStore :=
  {| limits := limits m; store := expire now (store m) |}.

Definition trimToLimit (m : MemoryProviderRequestDebugStore) : MemoryProviderRequestDebugStore :=
  {| limits := limits m; store := trim_store (maxRecords (limits m)) (store m) |}.

Definition provider_of (input : RecordProviderRequestDebugInput) : ProviderReference :=
  {| brain_module := brainModule input; model_config_id := modelConfigId input;
     model_config_revision := modelConfigRevision input; endpoint_id := endpointId input;
     endpoint_revision := endpointRevision input; credential_id := credentialId input;
     credential_revision := credentialRevision input; provider_alias := providerAlias input;
     model := input_model input; protocol := input_protocol input;
     provider_kind := providerKind input |}.

(** The record [record] builds; the expiry is computed last and may throw. *)
Definition build_record (l : ProviderRequestDebugLimits) (input : RecordProviderRequestDebugInput)
    (recordedAt randomBytes : string) : result ProviderRequestDebugRecord :=
  let bounded := boundedValue (input_request input) (maxJsonChars l) in
  let requestJson := safeJson (value bounded) in
  expires ← expiresAt recordedAt (retentionMs l);
  Ok {| debug_detail_id := debugDetailIdFor input recordedAt randomBytes;
        session_id := sessionId input; wake_id := wakeId input;
        provider := provider_of input;
        request := bounded;
        request_sha256 := sha256 requestJson;
        request_json_chars :=
          default (Z.of_nat (Str.length requestJson)) (originalJsonChars bounded);
        recorded_at := recordedAt;
        expires_at := expires;
        record_limits := l |}.

Definition record (m : MemoryProviderRequestDebugStore) (input : RecordProviderRequestDebugInput)
    (now1 now2 randomBytes : string)
    : result ProviderRequestDebugRecord * MemoryProviderRequestDebugStore :=
  let m1 := cleanup now1 m in
  match build_record (limits m1) input now2 randomBytes with
  | Throw e => (Throw e, m1)
  | Ok r => (Ok (cloneRecord r), trimToLimit {| limits := limits m1; store := insert (store m1) r |})
  end.

Definition get (m : MemoryProviderRequestDebugStore) (session debugDetailId now : string)
    : option ProviderRequestDebugRecord * MemoryProviderRequestDebugStore :=
  let m1 := cleanup now m in
  (match map_get debugDetailId (records (store m1)) with
   | Some r => if bool_decide (session_id r = session) then Some (cloneRecord r) else None
   | None => None
   end, m1).

Definition latestForWake (m : MemoryProviderRequestDebugStore) (session wake now : string)
    : option ProviderRequestDebugRecord * MemoryProviderRequestDebugStore :=
  let m1 := cleanup now m in
  let debugDetailId := map_get (wakeKey session wake) (index (store m1)) in
  (if truthy debugDetailId
   then cloneRecord <$> map_get (default "" debugDetailId) (records (store m1))
   else None, m1).
End provider.

(** ** Redaction *)

Section redaction.
Context (sha256 : string → string).

Lemma redact_array l :
  redactValue sha256 (JArray l)
  = (JArray ((redactValue sha256 <$> l).*1), existsb snd (redactValue sha256 <$> l)).
Proof. done. Qed.

(** One member of an object and whether redaction touched it. *)
Definition redact_entry (p : string * json) : string * json * bool :=
  if REDACTED_KEY_PATTERN p.1 then (p.1, secret_marker sha256 p.2, true)
  else (p.1, (redactValue sha256 p.2).1, (redactValue sha256 p.2).2).

Lemma redact_object o :
  redactValue sha256 (JObject o)
  = (JObject ((redact_entry <$> o).*1), existsb snd (redact_entry <$> o)).
Proof.
  simpl; assert (∀ p : string * json, (let (key, nested) := p in
    if REDACTED_KEY_PATTERN key then (key, secret_marker sha256 nested, true)
    else (key, (redactValue sha256 nested).1, (redactValue sha256 nested).2)) = redact_entry p) as H
    by (by intros []).
  by rewrite (map_ext _ _ H o).
Qed.

Lemma marker_no_secret k x n :
  entry_of k x (secret_marker sha256 n) → REDACTED_KEY_PATTERN k = false.
Proof.
  unfold secret_marker; intros (k' & v & Hin & Hk)%entry_of_object.
  rewrite !elem_of_cons, elem_of_nil in Hin.
  destruct Hin as [[= -> ->]|[[= -> ->]|[[= -> ->]|[]]]];
    (destruct Hk as [[<- _]|Hk]; [vm_compute; reflexivity|inversion Hk]).
Qed.

Lemma redact_marks v k x :
  entry_of k x (redactValue sha256 v).1 → REDACTED_KEY_PATTERN k = true →
  ∃ n, entry_of k n v ∧ x = secret_marker sha256 n.
Proof.
  intros He Hk; revert He; induction v as [| | | | |l IH|o IH] using json_nested_ind;
    try by (simpl; inversion 1).
  - rewrite redact_array; simpl; rewrite entry_of_array; rewrite Forall_forall in IH.
    intros (v & (w & -> & (u & -> & Hu)%list_elem_of_fmap)%list_elem_of_fmap & He).
    destruct (IH u Hu He) as (n & ? & ->); exists n; split; [|done].
    apply entry_of_array; eauto.
  - rewrite redact_object; simpl; rewrite entry_of_object; rewrite Forall_forall in IH.
    intros (k' & v & (w & Hw & ([k2 u] & -> & Hu)%list_elem_of_fmap)%list_elem_of_fmap & He).
    unfold redact_entry in Hw; simpl in Hw; destruct (REDACTED_KEY_PATTERN k2) eqn:Hk2;
      simplify_eq/=.
    + destruct He as [[-> <-]|He%marker_no_secret]; [|congruence].
      exists u; split; [by apply entry_here|done].
    + destruct He as [[-> <-]|He]; [congruence|].
      destruct (IH _ Hu He) as (n & ? & ->); exists n; split; [|done].
      by eapply entry_object.
Qed.

Lemma redact_flag v :
  ((redactValue sha256 v).2 = true ↔ has_secret v)
  ∧ ((redactValue sha256 v).2 = false → (redactValue sha256 v).1 = v).
Proof.
  unfold has_secret; induction v as [| | | | |l IH|o IH] using json_nested_ind;
    try by (simpl; split; [split; [done|intros (? & ? & He & _); inversion He]|done]).
  - rewrite redact_array; simpl; rewrite Forall_forall in IH; split.
    + rewrite existsb_exists; setoid_rewrite <- list_elem_of_In; setoid_rewrite list_elem_of_fmap.
      setoid_rewrite entry_of_array; split.
      * intros (w & (u & -> & Hu) & Hw); apply (IH u Hu) in Hw; naive_solver.
      * intros (k & x & (u & Hu & He) & Hk); eexists; split; [eauto|]; apply (IH u Hu); eauto.
    + intros Hf; f_equal; rewrite <- (list_fmap_id l) at 2; rewrite <- list_fmap_compose.
      apply list_fmap_ext; intros i u Hu%list_elem_of_lookup_2; simpl.
      apply (IH u Hu), not_true_iff_false; intros Ht.
      apply not_true_iff_false in Hf; apply Hf, existsb_exists.
      exists (redactValue sha256 u); split; [|done]; by apply list_elem_of_In, list_elem_of_fmap_2.
  - rewrite redact_object; simpl; rewrite Forall_forall in IH; split.
    + rewrite existsb_exists; setoid_rewrite <- list_elem_of_In; setoid_rewrite list_elem_of_fmap.
      setoid_rewrite entry_of_object; unfold redact_entry; split.
      * intros (w & ([k u] & -> & Hu) & Hw); simpl in Hw.
        destruct (REDACTED_KEY_PATTERN k) eqn:Hk; [eauto 10|].
        apply (IH _ Hu) in Hw; naive_solver.
      * intros (k & x & (k' & u & Hu & He) & Hk); eexists; split; [eauto|]; simpl.
        destruct (REDACTED_KEY_PATTERN k') eqn:Hk'; [done|]; simpl; apply (IH _ Hu).
        destruct He as [[-> ->]|He]; [congruence|eauto].
    + intros Hf; f_equal; rewrite <- (list_fmap_id o) at 2; rewrite <- list_fmap_compose.
      apply list_fmap_ext; intros i [k u] Hu%list_elem_of_lookup_2; simpl.
      apply not_true_iff_false in Hf; unfold redact_entry; simpl.
      destruct (REDACTED_KEY_PATTERN k) eqn:Hk.
      * exfalso; apply Hf, existsb_exists; eexists; split;
          [apply list_elem_of_In, list_elem_of_fmap_2, Hu|]; unfold redact_entry; simpl; by rewrite Hk.
      * simpl; f_equal; apply (IH _ Hu), not_true_iff_false; intros Ht; apply Hf, existsb_exists.
        eexists; split; [apply list_elem_of_In, list_elem_of_fmap_2, Hu|].
        unfold redact_entry; simpl; by rewrite Hk.
Qed.
End redaction.

(** ** The store over its life *)

Section life.
Context (sha256 : string → string) `{!DateText}.

(** One call on the store.  [record] draws an id no live record has: the id
    hashes eight random bytes. *)
Inductive step (m : MemoryProviderRequestDebugStore) : MemoryProviderRequestDebugStore → Prop :=
| step_record input now1 now2 randomBytes :
    map_get (debugDetailIdFor sha256 input now2 randomBytes)
      (records (store (cleanup now1 m))) = None →
    step m (record sha256 m input now1 now2 randomBytes).2
| step_get session id now : step m (get m session id now).2
| step_latest session wake now : step m (latestForWake m session wake now).2.

Inductive reachable (o : MemoryProviderRequestDebugStoreOptions)
    : MemoryProviderRequestDebugStore → Prop :=
| reachable_new : reachable o (new_store o)
| reachable_step m m' : reachable o m → step m m' → reachable o m'.

(** A stored request is bounded and holds no secret. *)
Definition stored_ok (l : ProviderRequestDebugLimits) (r : ProviderRequestDebugRecord) : Prop :=
  let v := request r in
  (∀ k x, entry_of k x (value v) → REDACTED_KEY_PATTERN k = true →
     ∃ n, x = secret_marker sha256 n)
  ∧ (if truncated v
     then ∃ preview, value v = JObject [("truncated", JBool true); ("preview", JString preview)]
          ∧ Z.of_nat (Str.length preview) <= Z.max 0 (maxJsonChars l)
     else Z.of_nat (Str.length (safeJson (value v))) <= maxJsonChars l).

Lemma slice_length s n : (Str.length (Str.slice s 0 n) <= n)%nat.
Proof.
  unfold Str.slice, Str.length, Text.slice.
  rewrite <- (length_chars (str _)), chars_str, length_take; lia.
Qed.

Lemma boundedValue_ok v max :
  let b := boundedValue sha256 v max in
  (∀ k x, entry_of k x (value b) → REDACTED_KEY_PATTERN k = true → ∃ n, x = secret_marker sha256 n)
  ∧ (if truncated b
     then ∃ preview, value b = JObject [("truncated", JBool true); ("preview", JString preview)]
          ∧ Z.of_nat (Str.length preview) <= Z.max 0 max
     else Z.of_nat (Str.length (safeJson (value b))) <= max).
Proof.
  unfold boundedValue; destruct (Z.leb_spec (Z.of_nat (Str.length (safeJson (redactValue sha256 v).1))) max);
    simpl; split; [|done| |].
  - intros k x He Hk; destruct (redact_marks sha256 v k x He Hk) as (n & _ & ->); eauto.
  - intros k x (k' & w & Hin & He)%entry_of_object Hk.
    rewrite !elem_of_cons, elem_of_nil in Hin.
    destruct Hin as [[= -> ->]|[[= -> ->]|[]]]; (destruct He as [[<- _]|He];
      [by vm_compute in Hk|inversion He]).
  - eexists; split; [done|].
    pose proof (slice_length (safeJson (redactValue sha256 v).1) (Z.to_nat (Z.max 0 max))); lia.
Qed.

Lemma build_record_Ok l input now nonce r :
  build_record sha256 l input now nonce = Ok r →
  stored_ok l r ∧ debug_detail_id r = debugDetailIdFor sha256 input now nonce
  ∧ session_id r = sessionId input ∧ wake_id r = wakeId input
  ∧ expiresAt now (retentionMs l) = Ok (expires_at r).
Proof.
  unfold build_record; intros (e & He & [= <-])%bind_Ok; split_and!; try done.
  apply boundedValue_ok.
Qed.

Definition invariant (o : MemoryProviderRequestDebugStoreOptions)
    (m : MemoryProviderRequestDebugStore) : Prop :=
  limits m = limits (new_store o)
  ∧ store_wf (store m)
  ∧ Z.of_nat (length (records (store m))) <= Z.max 0 (maxRecords (limits m))
  ∧ ∀ id r, map_get id (records (store m)) = Some r → stored_ok (limits m) r.

Lemma cleanup_invariant o m now : invariant o m → invariant o (cleanup now m).
Proof.
  intros (Hl & Hwf & Hb & Hs); split_and!; simpl; [done|by apply expire_wf| |].
  - rewrite expire_records by done; etrans; [|exact Hb].
    apply inj_le, filter_length_le.
  - intros id r [Hr _]%expire_get; eauto.
Qed.

Lemma record_invariant o m input now1 now2 nonce :
  map_get (debugDetailIdFor sha256 input now2 nonce) (records (store (cleanup now1 m))) = None →
  invariant o m → invariant o (record sha256 m input now1 now2 nonce).2.
Proof.
  intros Hfresh Hinv; apply (cleanup_invariant _ _ now1) in Hinv; unfold record; cbv zeta.
  destruct (build_record _ _ _ _ _) as [r|e] eqn:Hr; [|done].
  apply build_record_Ok in Hr as (Hok & Hid & _); rewrite <- Hid in Hfresh.
  destruct Hinv as (Hl & Hwf & Hb & Hs); split_and!; simpl; [done| |apply trim_bound|].
  - by apply trim_wf, insert_wf.
  - intros id x Hx%trim_get_weaken; [|by apply insert_wf]; simpl in Hx.
    apply map_get_elem, map_set_elem in Hx as [[= -> ->]|Hin]; [done|].
    eapply Hs, map_get_wf, Hin; apply Hwf.
Qed.

Lemma reachable_invariant o m : reachable o m → invariant o m.
Proof.
  induction 1 as [|m m' _ IH Hstep].
  - split_and!; [done|apply empty_store_wf|simpl; lia|done].
  - destruct Hstep; [by apply record_invariant|by apply cleanup_invariant..].
Qed.

Lemma expiresAt_parse now retention e t :
  expiresAt now retention = Ok e → date_parse now = Some t → date_parse e = Some (t + retention).
Proof. apply expiry_parse. Qed.

(** C31. What the provider debug store holds and hands out, whatever calls were
    made on it.  It never holds more records than its limit; every stored request
    is redacted (each member with a secret-looking name is the marker) and either
    within the size limit or a preview within it; a lookup by id returns only an
    unexpired record of the asking session, and a lookup by wake only an unexpired
    record of that wake. *)
Theorem provider_store_safe o m :
  reachable o m →
  Z.of_nat (length (records (store m))) <= Z.max 0 (maxRecords (limits m))
  ∧ (∀ id r, map_get id (records (store m)) = Some r → stored_ok (limits m) r)
  ∧ (∀ session id now c, (get m session id now).1 = Some c →
       ∃ r, map_get id (records (store m)) = Some r ∧ expired now r = false
            ∧ session_id r = session ∧ c = cloneRecord r)
  ∧ (∀ session wake now c, (latestForWake m session wake now).1 = Some c →
       ∃ id r, map_get id (records (store m)) = Some r ∧ expired now r = false
            ∧ wakeKey (session_id r) (wake_id r) = wakeKey session wake ∧ c = cloneRecord r).
Proof.
  intros (_ & Hwf & Hb & Hs)%reachable_invariant; split_and!; [done|done| |].
  - intros session id now c; simpl.
    destruct (map_get id _) as [r|] eqn:Hr; [|done]; case_bool_decide; [|done].
    intros [= <-]; apply expire_get in Hr as [? ?]; eauto.
  - intros session wake now c; simpl.
    destruct (map_get (wakeKey session wake) _) as [id|] eqn:Hid; [|done].
    destruct (wf_sound _ (expire_wf now _ Hwf) _ _ Hid) as (r & Hr & Hk).
    destruct (truthy (Some id)); [|done]; simpl; rewrite Hr; intros [= <-].
    apply expire_get in Hr as [? ?]; eauto 8.
Qed.

(** Retention is exact.  The record just made is found again by its session
    and id, with the same content, at every instant before its retention time has
    passed and at none after; from any reachable store with room for a record. *)
Theorem provider_get_after_record o m input now1 now2 now3 nonce c m' t2 t3 :
  reachable o m →
  record sha256 m input now1 now2 nonce = (Ok c, m') →
  map_get (debugDetailIdFor sha256 input now2 nonce) (records (store (cleanup now1 m))) = None →
  0 < maxRecords (limits m) →
  date_parse now2 = Some t2 → date_parse now3 = Some t3 →
  (get m' (sessionId input) (debug_detail_id c) now3).1
  = if t2 + retentionMs (limits m) <=? t3 then None else Some c.
Proof.
  intros Hreach Hrec Hfresh Hmax H2 H3.
  pose proof (cleanup_invariant o m now1 (reachable_invariant _ _ Hreach)) as (_ & Hwf & _).
  unfold record in Hrec; cbv zeta in Hrec.
  destruct (build_record _ _ _ _ _) as [r|e] eqn:Hr; [|done]; injection Hrec as <- <-.
  apply build_record_Ok in Hr as (_ & Hid & Hsess & _ & Hexp); rewrite <- Hid in Hfresh.
  assert (expired now3 r = (t2 + retentionMs (limits m) <=? t3)) as Hexpired.
  { unfold expired; simpl; by rewrite (expiresAt_parse _ _ _ _ Hexp H2), H3. }
  set (S := trim_store (maxRecords (limits m)) (insert (store (cleanup now1 m)) r)).
  assert (map_get (debug_detail_id r) (records S) = Some r) as Hget
    by exact (insert_trim_get _ _ r Hmax Hfresh).
  assert (store_wf S) as HS by (by apply trim_wf, insert_wf).
  unfold get; cbn [fst]; change (records (store (cleanup now3 _))) with (records (expire now3 S)).
  change (debug_detail_id (cloneRecord r)) with (debug_detail_id r).
  rewrite <- Hexpired; destruct (map_get _ (records (expire now3 S))) as [x|] eqn:Hx.
  - apply expire_get in Hx as [Hx Hlive]; [|done].
    assert (x = r) as -> by congruence; by rewrite bool_decide_eq_true_2, Hlive by done.
  - destruct (expired now3 r) eqn:Hlive; [done|exfalso].
    assert (map_get (debug_detail_id r) (records (expire now3 S)) = Some r)
      by (by apply expire_get); congruence.
Qed.
End life.

(** Redaction of a provider request.  Every member with a secret-looking
    name anywhere in the redacted value is the marker of a member with that name
    in the original; the flag says exactly whether the original has such a
    member; and a value without one is kept as it is. *)
Theorem provider_redaction sha256 v :
  (∀ k x, entry_of k x (redactValue sha256 v).1 → REDACTED_KEY_PATTERN k = true →
     ∃ n, entry_of k n v ∧ x = secret_marker sha256 n)
  ∧ ((redactValue sha256 v).2 = true ↔ has_secret v)
  ∧ (¬ has_secret v → redactValue sha256 v = (v, false)).
Proof.
  destruct (redact_flag sha256 v) as [Hf Hid]; split_and!; [apply redact_marks|done|].
  intros Hn; destruct (redactValue sha256 v) as [w []]; simpl in *; [by destruct Hn; apply Hf|].
  by rewrite Hid.
Qed.

(** ** Concrete runs *)

Module ProviderSample.
Definition digest (s : string) : string := str (reverse (chars s)).
Definition clock (t : Z) : string := str (iso_text t).

Definition input (wake : string) (req : json) : RecordProviderRequestDebugInput :=
  {| sessionId := "s1"; wakeId := wake; brainModule := "b"; modelConfigId := None;
     modelConfigRevision := None; endpointId := None; endpointRevision := None;
     credentialId := None; credentialRevision := None; providerAlias := None;
     input_model := Some "m"; input_protocol := None; providerKind := None; input_request := req |}.

Definition options (max : Z) : MemoryProviderRequestDebugStoreOptions :=
  {| option_maxJsonChars := Some 60; option_retentionMs := Some 1000; option_maxRecords := Some max |}.

Definition request1 : json := JObject [("Api-Key", JString "k"); ("q", JNumber "1")].

Definition store0 (max : Z) := new_store (options max).
Definition record1 (max : Z) :=
  @record digest iso_date_text (store0 max) (input "w1" request1) (clock 0) (clock 0) "n1".
Definition record2 (max : Z) :=
  @record digest iso_date_text (record1 max).2 (input "w1" JNull) (clock 5) (clock 5) "n2".

Lemma record1_reachable : @reachable digest iso_date_text (options 3) (record1 3).2.
Proof.
  eapply (@reachable_step digest iso_date_text (options 3) (store0 3)); [apply reachable_new|].
  apply (@step_record digest iso_date_text (store0 3) (input "w1" request1) (clock 0) (clock 0) "n1").
  vm_compute; reflexivity.
Defined.

Lemma provider_store_safe_witness :
  Z.of_nat (length (records (store (record1 3).2))) = 1
  ∧ Z.of_nat (length (records (store (record1 3).2))) <= 3.
Proof.
  split; [vm_compute; reflexivity|].
  apply (@provider_store_safe digest iso_date_text (options 3) (record1 3).2 record1_reachable).
Defined.

Lemma provider_get_after_record_witness :
  ∃ c m', record2 3 = (Ok c, m')
    ∧ (@get iso_date_text m' "s1" (debug_detail_id c) (clock 900)).1 = Some c.
Proof.
  destruct (record2 3) as [[c|] m'] eqn:Hr; [|by vm_compute in Hr].
  exists c, m'; split; [done|].
  apply (@provider_get_after_record digest iso_date_text (options 3) (record1 3).2 (input "w1" JNull)
    (clock 5) (clock 5) (clock 900) "n2" c m' 5 900 record1_reachable Hr);
    vm_compute; reflexivity.
Defined.

(** The index of a wake is dropped with any record of that wake, so evicting or
    expiring an older request hides the newer one from [latestForWake] although
    it is still there under its id. *)
Theorem latestForWake_lost :
  ∃ c m', record2 1 = (Ok c, m')
    ∧ (@get iso_date_text m' "s1" (debug_detail_id c) (clock 6)).1 = Some c
    ∧ (@latestForWake iso_date_text m' "s1" "w1" (clock 6)).1 = None.
Proof.
  destruct (record2 1) as [[c|] m'] eqn:Hr; [|by vm_compute in Hr].
  exists c, m'; split; [done|]; vm_compute in Hr; injection Hr as <- <-; vm_compute; split; reflexivity.
Qed.
End ProviderSample.
