(* ===== verification/ToolCallDebug.v ===== *)
(** * The tool call debug store

    [ts/packages/brain-island/src/tool-call-debug-store.ts]: one record per tool
    call of a wake, from its start over partial updates to its result or error,
    with arguments and results redacted and bounded.  SHA-256 and the random bytes
    of an id are arguments, as is each reading of the clock.  A stored record is
    mutated in place by the source; the model sets the changed record under its id. *)

From S2P Require Import Prelude JsString JsDate Json DebugStore.
#[local] Open Scope Z_scope.

(** ** Data *)

Inductive ToolCallDebugStatus := running | completed | failed.

Record ToolCallDebugLimits := {
  maxJsonChars : Z;
  maxPartialUpdates : Z;
  retentionMs : Z;
  maxRecords : Z
}.

Record ToolCallDebugValue := {
  value : json;
  truncated : bool;
  redacted : bool;
  value_sha256 : option string;
  originalJsonChars : option Z
}.

Record ToolCallDebugUpdate := { update_recorded_at : string; partial_result : ToolCallDebugValue }.

Record ToolCallDebugError := { error_name : option string; error_message : string }.

(** The protocol's metadata; [None] is an absent or [null] field. *)
Record ToolCallMetadata := {
  adapterId : option string;
  bindingId : option string;
  catalogRevision : option string;
  debugDetailId : option string;
  policy : option json;
  metadata_profileId : option string;
  serverNames : list string;
  source : string;
  sourceToolName : option string;
  toolProfileKey : option string
}.

Record ToolCallDebugRecord := {
  debug_detail_id : string;
  tool_call_id : string;
  session_id : string;
  wake_id : string;
  tool_name : string;
  status : ToolCallDebugStatus;
  arguments : ToolCallDebugValue;
  partial_updates : list ToolCallDebugUpdate;
  final_result : option ToolCallDebugValue;
  record_error : option ToolCallDebugError;
  source_metadata : ToolCallMetadata;
  started_at : string;
  updated_at : string;
  expires_at : string;
  record_limits : ToolCallDebugLimits
}.

Record StartToolCallDebugInput := {
  toolCallId : string;
  sessionId : string;
  wakeId : string;
  toolName : string;
  input_arguments : json;
  sourceMetadata : option ToolCallMetadata
}.

Record MemoryToolCallDebugStoreOptions := {
  option_maxJsonChars : option Z;
  option_maxPartialUpdates : option Z;
  option_retentionMs : option Z;
  option_maxRecords : option Z
}.

Definition DEFAULT_LIMITS : ToolCallDebugLimits :=
  {| maxJsonChars := 24000; maxPartialUpdates := 8; retentionMs := 60 * 60 * 1000;
     maxRecords := 1000 |}.

Definition NUL : string := String (Ascii.ascii_of_nat 0) EmptyString.

Definition toolCallKey (session wake call : string) : string :=
  session +:+ NUL +:+ wake +:+ NUL +:+ call.

#[global] Instance tool_call_stored : StoredRecord ToolCallDebugRecord := {|
  record_id := debug_detail_id;
  record_key := λ r, toolCallKey (session_id r) (wake_id r) (tool_call_id r);
  record_expires := expires_at;
  record_session := session_id
|}.

Record MemoryToolCallDebugStore := {
  limits : ToolCallDebugLimits;
  store : Store ToolCallDebugRecord
}.

Definition new_store (o : MemoryToolCallDebugStoreOptions) : MemoryToolCallDebugStore :=
  {| limits :=
       {| maxJsonChars := default (maxJsonChars DEFAULT_LIMITS) (option_maxJsonChars o);
          maxPartialUpdates := default (maxPartialUpdates DEFAULT_LIMITS) (option_maxPartialUpdates o);
          retentionMs := default (retentionMs DEFAULT_LIMITS) (option_retentionMs o);
          maxRecords := default (maxRecords DEFAULT_LIMITS) (option_maxRecords o) |};
     store := empty_store |}.

(** ** Values *)

(** [record.type === "image" && typeof record.data === "string"] *)
Definition isTypedImageValue (o : list (string * json)) : bool :=
  match map_get "type" o, map_get "data" o with
  | Some (JString t), Some (JString _) => String.eqb t "image"
  | _, _ => false
  end.

Fixpoint redactValue (v : json) : json * bool :=
  match v with
  | JArray l =>
      let mapped := map redactValue l in
      (JArray (map fst mapped), existsb snd mapped)
  | JObject o =>
      if isTypedImageValue o
      then (JObject (map (λ p, match p with
              | (key, nested) =>
                  if String.eqb key "data" then (key, JString "[redacted media bytes]")
                  else (key, fst (redactValue nested))
              end) o), true)
      else
        let output := map (λ p, match p with
          | (key, nested) =>
              if REDACTED_KEY_PATTERN key then (key, JString "[redacted]", true)
              else (key, fst (redactValue nested), snd (redactValue nested))
          end) o in
        (JObject (map fst output), existsb snd output)
  | _ => (v, false)
  end.

Inductive thrown_value := ErrorObject (n m : string) | OtherValue (rendered : string).

Definition errorValue (e : thrown_value) : ToolCallDebugError :=
  match e with
  | ErrorObject n m => {| error_name := Some n; error_message := m |}
  | OtherValue s => {| error_name := None; error_message := s |}
  end.

Definition localToolCallMetadata (tool : string) (id : option string) : ToolCallMetadata :=
  {| adapterId := None; bindingId := None; catalogRevision := Some "brain-tool-adapter";
     debugDetailId := id; policy := Some (JObject [("allowed", JBool true)]);
     metadata_profileId := None; serverNames := []; source := "local";
     sourceToolName := Some tool; toolProfileKey := None |}.

Definition withToolCallDebugReference (m : option ToolCallMetadata) (id : option string)
    : option ToolCallMetadata :=
  if negb (truthy id) then m
  else
    let base := default (localToolCallMetadata "unknown" id) m in
    Some {| adapterId := adapterId base; bindingId := bindingId base;
            catalogRevision := catalogRevision base; debugDetailId := id; policy := policy base;
            metadata_profileId := metadata_profileId base;
            serverNames := default [] (serverNames <$> m); source := source base;
            sourceToolName := sourceToolName base; toolProfileKey := toolProfileKey base |}.

Definition cloneValue (v : ToolCallDebugValue) : ToolCallDebugValue :=
  {| value := json_clone (value v); truncated := truncated v; redacted := redacted v;
     value_sha256 := value_sha256 v; originalJsonChars := originalJsonChars v |}.

Definition cloneMetadata (m : ToolCallMetadata) : ToolCallMetadata :=
  {| adapterId := adapterId m; bindingId := bindingId m; catalogRevision := catalogRevision m;
     debugDetailId := debugDetailId m; policy := json_clone <$> policy m;
     metadata_profileId := metadata_profileId m; serverNames := serverNames m; source := source m;
     sourceToolName := sourceToolName m; toolProfileKey := toolProfileKey m |}.

(** [JSON.parse(JSON.stringify(record))] *)
Definition cloneRecord (r : ToolCallDebugRecord) : ToolCallDebugRecord :=
  {| debug_detail_id := debug_detail_id r; tool_call_id := tool_call_id r;
     session_id := session_id r; wake_id := wake_id r; tool_name := tool_name r;
     status := status r; arguments := cloneValue (arguments r);
     partial_updates := (λ u, {| update_recorded_at := update_recorded_at u;
                                 partial_result := cloneValue (partial_result u) |})
                          <$> partial_updates r;
     final_result := cloneValue <$> final_result r; record_error := record_error r;
     source_metadata := cloneMetadata (source_metadata r); started_at := started_at r;
     updated_at := updated_at r; expires_at := expires_at r; record_limits := record_limits r |}.

Section tool_call.
Context (sha256 : string → string) `{!DateText}.

(** [JSON.stringify(undefined)] is [undefined], whose length throws. *)
Definition boundedValue (v : json) (max : Z) : result ToolCallDebugValue :=
  let redaction := redactValue v in
  match stringify redaction.1 with
  | None => Throw "Cannot read properties of undefined (reading 'length')"
  | Some text =>
      let chars := Z.of_nat (Str.length text) in
      Ok (if chars <=? max
          then {| value := redaction.1; truncated := false; redacted := redaction.2;
                  value_sha256 := None; originalJsonChars := Some chars |}
          else {| value := JObject [("truncated", JBool true);
                                    ("preview", JString (Str.slice text 0 (Z.to_nat (Z.max 0 max))))];
                  truncated := true; redacted := redaction.2;
                  value_sha256 := Some (sha256 text); originalJsonChars := Some chars |})
  end.

(** ** Operations *)

Definition expiresAt (startedAt : string) (retention : Z) : result string :=
  toISOString (date_parse startedAt ≫= λ t, TimeClip (t + retention)).

Definition debugDetailIdFor (input : StartToolCallDebugInput) (startedAt randomBytes : string)
    : string :=
  "tooldbg_" +:+
  Str.slice (sha256 (sessionId input +:+ NUL +:+ wakeId input +:+ NUL +:+ toolCallId input
                     +:+ NUL +:+ startedAt +:+ NUL +:+ randomBytes)) 0 24.

Definition cleanup (now : string) (m : MemoryToolCallDebugStore) : MemoryToolCallDebugStore :=
  {| limits := limits m; store := expire now (store m) |}.

Definition trimToLimit (m : MemoryToolCallDebugStore) : MemoryToolCallDebugStore :=
  {| limits := limits m; store := trim_store (maxRecords (limits m)) (store m) |}.

Definition new_record (l : ToolCallDebugLimits) (input : StartToolCallDebugInput)
    (startedAt randomBytes : string) : result ToolCallDebugRecord :=
  let id := debugDetailIdFor input startedAt randomBytes in
  args ← boundedValue (input_arguments input) (maxJsonChars l);
  expires ← expiresAt startedAt (retentionMs l);
  Ok {| debug_detail_id := id; tool_call_id := toolCallId input; session_id := sessionId input;
        wake_id := wakeId input; tool_name := toolName input; status := running;
        arguments := args; partial_updates := []; final_result := None; record_error := None;
        source_metadata :=
          default (localToolCallMetadata (toolName input) (Some id)) (sourceMetadata input);
        started_at := startedAt; updated_at := startedAt; expires_at := expires;
        record_limits := l |}.

Definition start (m : MemoryToolCallDebugStore) (input : StartToolCallDebugInput)
    (now1 now2 randomBytes : string) : result ToolCallDebugRecord * MemoryToolCallDebugStore :=
  let m1 := cleanup now1 m in
  let key := toolCallKey (sessionId input) (wakeId input) (toolCallId input) in
  match map_get key (index (store m1)) ≫= λ id, map_get id (records (store m1)) with
  | Some existing => (Ok (cloneRecord existing), m1)
  | None =>
      match new_record (limits m1) input now2 randomBytes with
      | Throw e => (Throw e, m1)
      | Ok r => (Ok (cloneRecord r), trimToLimit {| limits := limits m1; store := insert (store m1) r |})
      end
  end.

Definition set_record (m : MemoryToolCallDebugStore) (id : string) (r : ToolCallDebugRecord)
    : MemoryToolCallDebugStore :=
  {| limits := limits m;
     store := Build_Store (map_set id r (records (store m))) (index (store m)) |}.

Definition set_updated_at (r : ToolCallDebugRecord) (now : string) : ToolCallDebugRecord :=
  {| debug_detail_id := debug_detail_id r; tool_call_id := tool_call_id r;
     session_id := session_id r; wake_id := wake_id r; tool_name := tool_name r;
     status := status r; arguments := arguments r; partial_updates := partial_updates r;
     final_result := final_result r; record_error := record_error r;
     source_metadata := source_metadata r; started_at := started_at r; updated_at := now;
     expires_at := expires_at r; record_limits := record_limits r |}.

(** An update returns the record as it left it and the error it threw, if any;
    the changes made before the throw stay. *)
Definition mutate (m : MemoryToolCallDebugStore) (id : string)
    (update : ToolCallDebugRecord → ToolCallDebugRecord * option string) (now1 now_updated : string)
    : result (option ToolCallDebugRecord) * MemoryToolCallDebugStore :=
  let m1 := cleanup now1 m in
  match map_get id (records (store m1)) with
  | None => (Ok None, m1)
  | Some r =>
      match update r with
      | (r1, Some e) => (Throw e, set_record m1 id r1)
      | (r1, None) =>
          let r2 := set_updated_at r1 now_updated in
          (Ok (Some (cloneRecord r2)), set_record m1 id r2)
      end
  end.

Definition outcome (r : ToolCallDebugRecord) (s : ToolCallDebugStatus)
    (ups : list ToolCallDebugUpdate) (result_value : option ToolCallDebugValue)
    (e : option ToolCallDebugError) : ToolCallDebugRecord :=
  {| debug_detail_id := debug_detail_id r; tool_call_id := tool_call_id r;
     session_id := session_id r; wake_id := wake_id r; tool_name := tool_name r; status := s;
     arguments := arguments r; partial_updates := ups; final_result := result_value;
     record_error := e; source_metadata := source_metadata r; started_at := started_at r;
     updated_at := updated_at r; expires_at := expires_at r; record_limits := record_limits r |}.

Definition recordUpdate (m : MemoryToolCallDebugStore) (id : string) (partialResult : json)
    (now1 now2 now3 : string) : result (option ToolCallDebugRecord) * MemoryToolCallDebugStore :=
  mutate m id (λ r,
    if maxPartialUpdates (limits m) <=? Z.of_nat (length (partial_updates r)) then (r, None)
    else
      match boundedValue partialResult (maxJsonChars (limits m)) with
      | Throw e => (r, Some e)
      | Ok v =>
          (outcome r (status r)
             (partial_updates r ++ [{| update_recorded_at := now2; partial_result := v |}])
             (final_result r) (record_error r), None)
      end) now1 now3.

Definition finish (m : MemoryToolCallDebugStore) (id : string) (finalResult : json)
    (now1 now2 : string) : result (option ToolCallDebugRecord) * MemoryToolCallDebugStore :=
  mutate m id (λ r,
    match boundedValue finalResult (maxJsonChars (limits m)) with
    | Throw e => (outcome r completed (partial_updates r) (final_result r) (record_error r), Some e)
    | Ok v => (outcome r completed (partial_updates r) (Some v) None, None)
    end) now1 now2.

Definition fail (m : MemoryToolCallDebugStore) (id : string) (e : thrown_value) (now1 now2 : string)
    : result (option ToolCallDebugRecord) * MemoryToolCallDebugStore :=
  mutate m id (λ r,
    (outcome r failed (partial_updates r) (final_result r) (Some (errorValue e)), None)) now1 now2.

Definition get (m : MemoryToolCallDebugStore) (session id now : string)
    : option ToolCallDebugRecord * MemoryToolCallDebugStore :=
  let m1 := cleanup now m in
  (match map_get id (records (store m1)) with
   | Some r => if bool_decide (session_id r = session) then Some (cloneRecord r) else None
   | None => None
   end, m1).

Definition referenceForToolCall (m : MemoryToolCallDebugStore) (session wake call now : string)
    : option ToolCallDebugRecord * MemoryToolCallDebugStore :=
  let m1 := cleanup now m in
  let id := map_get (toolCallKey session wake call) (index (store m1)) in
  (if truthy id then cloneRecord <$> map_get (default "" id) (records (store m1)) else None, m1).
End tool_call.

(** ** The store over its life *)

Section life.
Context (sha256 : string → string) `{!DateText}.

(** One call on the store.  [start] draws an id no live record has, since the id
    hashes eight random bytes; [finish] is given a value JSON can print: its
    caller passes the tool's result object. *)
Inductive step (m : MemoryToolCallDebugStore) : MemoryToolCallDebugStore → Prop :=
| step_start input now1 now2 randomBytes :
    map_get (debugDetailIdFor sha256 input now2 randomBytes)
      (records (store (cleanup now1 m))) = None →
    step m (start sha256 m input now1 now2 randomBytes).2
| step_update id v now1 now2 now3 : step m (recordUpdate sha256 m id v now1 now2 now3).2
| step_finish id v now1 now2 : v ≠ JUndefined → step m (finish sha256 m id v now1 now2).2
| step_fail id e now1 now2 : step m (fail m id e now1 now2).2
| step_get session id now : step m (get m session id now).2
| step_reference session wake call now : step m (referenceForToolCall m session wake call now).2.

Inductive reachable (o : MemoryToolCallDebugStoreOptions) : MemoryToolCallDebugStore → Prop :=
| reachable_new : reachable o (new_store o)
| reachable_step m m' : reachable o m → step m m' → reachable o m'.

(** What the life of one call looks like. *)
Definition record_ok (l : ToolCallDebugLimits) (r : ToolCallDebugRecord) : Prop :=
  truthy (Some (debug_detail_id r)) = true
  ∧ Z.of_nat (length (partial_updates r)) <= Z.max 0 (maxPartialUpdates l)
  ∧ match status r with
    | running => final_result r = None ∧ record_error r = None
    | completed => is_Some (final_result r) ∧ record_error r = None
    | failed => is_Some (record_error r)
    end.

Definition invariant (o : MemoryToolCallDebugStoreOptions) (m : MemoryToolCallDebugStore) : Prop :=
  limits m = limits (new_store o)
  ∧ store_wf (store m) ∧ index_exact (store m)
  ∧ Z.of_nat (length (records (store m))) <= Z.max 0 (maxRecords (limits m))
  ∧ ∀ id r, map_get id (records (store m)) = Some r → record_ok (limits m) r.

Lemma call_cleanup_invariant o m now : invariant o m → invariant o (cleanup now m).
Proof.
  intros (Hl & Hwf & He & Hb & Hs); split_and!; simpl; auto with store.
  - rewrite expire_records by done; etrans; [|exact Hb].
    apply inj_le, filter_length_le.
  - intros id r [Hr _]%expire_get; eauto.
Qed.

Lemma redactValue_undefined v : stringify (redactValue v).1 = None ↔ v = JUndefined.
Proof. destruct v; simpl; try done; by destruct (isTypedImageValue o). Qed.

Lemma boundedValue_Ok v max : v ≠ JUndefined → ∃ b, boundedValue sha256 v max = Ok b.
Proof.
  intros Hv; unfold boundedValue; destruct (stringify _) eqn:Hs; [eauto|].
  by apply redactValue_undefined in Hs.
Qed.

Lemma new_record_Ok l input now nonce r :
  new_record sha256 l input now nonce = Ok r →
  record_ok l r ∧ debug_detail_id r = debugDetailIdFor sha256 input now nonce
  ∧ record_key r = toolCallKey (sessionId input) (wakeId input) (toolCallId input)
  ∧ expiresAt now (retentionMs l) = Ok (expires_at r).
Proof.
  unfold new_record; intros (a & _ & (e & He & [= <-])%bind_Ok)%bind_Ok.
  split; [split_and!; [done|simpl; lia|done]|done].
Qed.

(** Looking a key up through the index finds exactly the live record of the key. *)
Lemma index_lookup o m key :
  invariant o m →
  (∀ r, map_get key (index (store m)) ≫= (λ id, map_get id (records (store m))) = Some r
     ↔ map_get (debug_detail_id r) (records (store m)) = Some r ∧ record_key r = key)
  ∧ (map_get key (index (store m)) ≫= (λ id, map_get id (records (store m))) = None
     ↔ map_get key (index (store m)) = None).
Proof.
  intros (_ & Hwf & He & _ & _); split.
  - intros r; rewrite bind_Some; split.
    + intros (id & Hk & Hr); destruct (wf_sound _ Hwf _ _ Hk) as (x & Hx & Hkey).
      assert (x = r) as -> by congruence.
      pose proof (proj1 (Forall_forall _ _) (wf_ids _ Hwf) _ (map_get_elem _ _ _ Hr)) as Hid.
      simpl in Hid; by rewrite Hid.
    + intros [Hr <-]; eexists; split; [by apply He|done].
  - destruct (map_get key (index (store m))) as [id|] eqn:Hk; [|done]; simpl.
    destruct (wf_sound _ Hwf _ _ Hk) as (x & -> & _); done.
Qed.

Lemma start_invariant o m input now1 now2 nonce :
  map_get (debugDetailIdFor sha256 input now2 nonce) (records (store (cleanup now1 m))) = None →
  invariant o m → invariant o (start sha256 m input now1 now2 nonce).2.
Proof.
  intros Hfresh Hinv; apply (call_cleanup_invariant _ _ now1) in Hinv; unfold start; cbv zeta.
  set (m1 := cleanup now1 m) in *.
  destruct (_ ≫= _) as [existing|] eqn:Hex; [done|].
  apply (index_lookup _ _ _ Hinv) in Hex.
  destruct (new_record _ _ _ _ _) as [r|e] eqn:Hr; [|done].
  apply new_record_Ok in Hr as (Hok & Hid & Hkey & _); rewrite <- Hid in Hfresh; rewrite <- Hkey in Hex.
  destruct Hinv as (Hl & Hwf & He & Hb & Hs); split_and!; simpl; [done|..|apply trim_bound|].
  - by apply trim_wf, insert_wf.
  - apply trim_exact; [by apply insert_wf|by apply insert_exact].
  - intros id x Hx; apply trim_get_weaken in Hx; [|by apply insert_wf]; simpl in Hx.
    apply map_get_elem, map_set_elem in Hx as [[= -> ->]|Hin]; [done|].
    eapply Hs, map_get_wf, Hin; apply Hwf.
Qed.

(** An update that keeps the identity of the record and its good state. *)
Lemma mutate_invariant o m id update now1 now2 :
  (∀ r, record_ok (limits m) r →
     record_ok (limits m) (update r).1 ∧ debug_detail_id (update r).1 = debug_detail_id r
     ∧ record_key (update r).1 = record_key r) →
  invariant o m → invariant o (mutate m id update now1 now2).2.
Proof.
  intros Hup Hinv; apply (call_cleanup_invariant _ _ now1) in Hinv; unfold mutate; cbv zeta.
  set (m1 := cleanup now1 m) in *; destruct (map_get id _) as [r|] eqn:Hr; [|done].
  pose proof Hinv as (_ & _ & _ & _ & Hs).
  destruct (Hup r) as (Hok & Hid & Hkey); [exact (Hs _ _ Hr)|].
  assert (∀ r', record_ok (limits m) r' → debug_detail_id r' = debug_detail_id r →
    record_key r' = record_key r → invariant o (set_record m1 id r')) as Hset.
  { clear Hup Hok Hid Hkey; destruct Hinv as (Hl & Hwf & He & Hb & _); intros r' Hok Hid Hkey.
    pose proof (proj1 (Forall_forall _ _) (wf_ids _ Hwf) _ (map_get_elem _ _ _ Hr)) as Hrid.
    simpl in Hrid; split_and!; simpl; [done| | | |].
    - eapply update_wf; eauto; by rewrite <- Hrid.
    - by eapply update_exact.
    - rewrite map_set_length, (proj2 (map_has_true _ _)); [done|].
      apply map_get_is_Some; by exists r.
    - intros i x; destruct (decide (id = i)) as [<-|Hne].
      + rewrite map_get_set_eq; by intros [= <-].
      + rewrite map_get_set_ne by done; apply Hs. }
  destruct (update r) as [r1 [e|]]; simpl in *; apply Hset; done.
Qed.

Lemma call_reachable_invariant o m : reachable o m → invariant o m.
Proof.
  induction 1 as [|m m' _ IH Hstep].
  - split_and!; [done|apply empty_store_wf..|simpl; lia|done].
  - destruct Hstep; [by apply start_invariant| | | |by apply call_cleanup_invariant..];
      apply mutate_invariant; try done; intros r Hok.
    + destruct (Z.leb_spec (maxPartialUpdates (limits m)) (Z.of_nat (length (partial_updates r))));
        [done|]. destruct (boundedValue _ _ _); [|done]; simpl.
      destruct Hok as (? & ? & ?); split_and!; [split_and!|..]; try done; simpl.
      rewrite length_app; simpl; lia.
    + destruct (boundedValue_Ok v (maxJsonChars (limits m)) H0) as (b & ->); simpl.
      destruct Hok as (? & ? & ?); split; [split_and!; simpl; eauto|done].
    + destruct Hok as (? & ? & ?); split; [split_and!; simpl; eauto|done].
Qed.

Lemma call_expiresAt_parse now retention e t :
  expiresAt now retention = Ok e → date_parse now = Some t → date_parse e = Some (t + retention).
Proof. apply expiry_parse. Qed.

Lemma reference_index o m session wake call now :
  invariant o m →
  (referenceForToolCall m session wake call now).1
  = cloneRecord <$>
    (map_get (toolCallKey session wake call) (index (store (cleanup now m)))
       ≫= λ id, map_get id (records (store (cleanup now m)))).
Proof.
  intros Hinv%(call_cleanup_invariant _ _ now); unfold referenceForToolCall; cbv zeta; cbn [fst].
  destruct (map_get _ (index _)) as [id|] eqn:Hid; [|done].
  destruct Hinv as (_ & Hwf & _ & _ & Hs).
  destruct (wf_sound _ Hwf _ _ Hid) as (r & Hr & _).
  pose proof (proj1 (Forall_forall _ _) (wf_ids _ Hwf) _ (map_get_elem _ _ _ Hr)) as Hrid.
  destruct (Hs _ _ Hr) as [Ht _]; simpl in Hrid; rewrite Hrid in Ht; by rewrite Ht.
Qed.

(** C32. The tool call debug store tracks each call exactly, whatever calls were
    made on it.  It never holds more records than its limit; a record keeps at
    most the allowed partial updates, has neither result nor error while running,
    a result and no error once completed, and an error once failed; a lookup by id
    returns only an unexpired record of the asking session; and a lookup by call
    returns exactly the unexpired record of that call, which is unique. *)
Theorem tool_call_store_exact o m :
  reachable o m →
  Z.of_nat (length (records (store m))) <= Z.max 0 (maxRecords (limits m))
  ∧ (∀ id r, map_get id (records (store m)) = Some r → record_ok (limits m) r)
  ∧ (∀ session id now c, (get m session id now).1 = Some c ↔
       ∃ r, map_get id (records (store m)) = Some r ∧ expired now r = false
            ∧ session_id r = session ∧ c = cloneRecord r)
  ∧ (∀ session wake call now c, (referenceForToolCall m session wake call now).1 = Some c ↔
       ∃ r, map_get (debug_detail_id r) (records (store m)) = Some r ∧ expired now r = false
            ∧ record_key r = toolCallKey session wake call ∧ c = cloneRecord r).
Proof.
  intros Hinv%call_reachable_invariant; pose proof Hinv as (_ & Hwf & _ & Hb & Hs).
  split_and!; [done|done| |].
  - intros session id now c; unfold get; cbv zeta; cbn [fst]; split.
    + destruct (map_get id _) as [r|] eqn:Hr; [|done]; case_bool_decide; [|done].
      intros [= <-]; apply expire_get in Hr as [? ?]; eauto.
    + intros (r & Hr & He & Hsess & ->).
      assert (map_get id (records (store (cleanup now m))) = Some r) as -> by (by apply expire_get).
      by rewrite bool_decide_eq_true_2.
  - intros session wake call now c; rewrite (reference_index o) by done.
    destruct (index_lookup o (cleanup now m) (toolCallKey session wake call)) as [Hk _];
      [by apply call_cleanup_invariant|].
    rewrite fmap_Some; setoid_rewrite Hk; simpl; setoid_rewrite (expire_get now _ _ _ Hwf).
    naive_solver.
Qed.

(** Starting a call twice is starting it once.  While the record of a
    session's call is live, a second [start] for the same call returns the same
    record and adds nothing to the store; from any reachable store with room for a
    record. *)
Theorem start_idempotent o m input now1 now2 nonce c m' now3 now4 nonce' t2 t3 input' :
  reachable o m →
  start sha256 m input now1 now2 nonce = (Ok c, m') →
  map_get (debugDetailIdFor sha256 input now2 nonce) (records (store (cleanup now1 m))) = None →
  (referenceForToolCall m (sessionId input) (wakeId input) (toolCallId input) now1).1 = None →
  0 < maxRecords (limits m) →
  date_parse now2 = Some t2 → date_parse now3 = Some t3 → t3 < t2 + retentionMs (limits m) →
  toolCallKey (sessionId input') (wakeId input') (toolCallId input')
    = toolCallKey (sessionId input) (wakeId input) (toolCallId input) →
  start sha256 m' input' now3 now4 nonce' = (Ok c, cleanup now3 m').
Proof.
  intros Hinv%call_reachable_invariant Hstart Hfresh Hnone Hmax H2 H3 Hlive Hkey'.
  assert (invariant o m') as Hinv'.
  { pose proof (start_invariant o m input now1 now2 nonce Hfresh Hinv) as H'.
    by rewrite Hstart in H'. }
  rewrite (reference_index o) in Hnone by done; apply fmap_None in Hnone.
  unfold start in Hstart; cbv zeta in Hstart; rewrite Hnone in Hstart.
  destruct (new_record _ _ _ _ _) as [r|e] eqn:Hr; [|done]; injection Hstart as <- <-.
  apply new_record_Ok in Hr as (_ & Hid & Hkey & Hexp); rewrite <- Hid in Hfresh.
  assert (expired now3 r = false) as Hexpired.
  { unfold expired; simpl; rewrite (call_expiresAt_parse _ _ _ _ Hexp H2), H3.
    apply Z.leb_gt; simpl; lia. }
  set (m' := trimToLimit _) in *.
  assert (map_get (debug_detail_id r) (records (store m')) = Some r) as Hget
    by exact (insert_trim_get _ _ r Hmax Hfresh).
  destruct (index_lookup o (cleanup now3 m')
    (toolCallKey (sessionId input) (wakeId input) (toolCallId input))) as [Hlook _];
    [by apply call_cleanup_invariant|].
  unfold start; cbv zeta; rewrite Hkey', (proj2 (Hlook r)); [done|].
  split; [|done]; apply expire_get; [apply Hinv'|done].
Qed.
End life.

(** ** Redaction hides what it redacts *)

(** Two values an observer of the redacted value cannot tell apart: equal except
    for the members with a secret-looking name and the bytes of images. *)
#[warnings="-register-all"]
Inductive low_equivalent : json → json → Prop :=
| low_same v : low_equivalent v v
| low_array l l' : Forall2 low_equivalent l l' → low_equivalent (JArray l) (JArray l')
| low_object o o' :
    isTypedImageValue o = false → isTypedImageValue o' = false →
    Forall2 (λ p q, p.1 = q.1 ∧ (REDACTED_KEY_PATTERN p.1 = true ∨ low_equivalent p.2 q.2)) o o' →
    low_equivalent (JObject o) (JObject o')
| low_image o o' :
    isTypedImageValue o = true → isTypedImageValue o' = true →
    Forall2 (λ p q, p.1 = q.1 ∧ (p.1 = "data" ∨ low_equivalent p.2 q.2)) o o' →
    low_equivalent (JObject o) (JObject o').

Lemma Forall2_map_eq {A B} (R : A → A → Prop) (f : A → B) l l' :
  Forall2 R l l' → (∀ x y, x ∈ l → R x y → f x = f y) → map f l = map f l'.
Proof.
  induction 1 as [|x y l l' Hxy Hl IH]; intros Hf; simpl; [done|].
  f_equal; [by apply Hf; [left|]|]; apply IH; intros; apply Hf; [by right|done].
Qed.

Lemma low_redact v w : low_equivalent v w → redactValue v = redactValue w.
Proof.
  revert w; induction v as [| | | | |l IH|o IH] using json_nested_ind; intros w Hlow;
    inversion Hlow as [|l1 l' Hl|o1 o' H1 H2 Ho|o1 o' H1 H2 Ho]; subst; try done;
    cbn [redactValue]; rewrite Forall_forall in IH.
  - erewrite (Forall2_map_eq _ redactValue _ _ Hl); [done|]; intros x y Hx; by apply IH.
  - rewrite H1, H2; cbv zeta; erewrite (Forall2_map_eq _ _ _ _ Ho); [done|].
    intros [k x] [k' y] Hin [Hk Hxy]; simpl in *; subst k'.
    destruct (REDACTED_KEY_PATTERN k) eqn:Hs; [done|].
    destruct Hxy as [|Hxy]; [done|].
    pose proof (IH _ Hin _ Hxy) as Heq; simpl in Heq; by rewrite Heq.
  - rewrite H1, H2; erewrite (Forall2_map_eq _ _ _ _ Ho); [done|].
    intros [k x] [k' y] Hin [Hk Hxy]; simpl in *; subst k'.
    destruct (String.eqb_spec k "data"); [done|].
    destruct Hxy as [|Hxy]; [done|].
    pose proof (IH _ Hin _ Hxy) as Heq; simpl in Heq; by rewrite Heq.
Qed.

(** The debug record of a tool call does not depend on what redaction hides.
    Two values that differ only under members with a secret-looking name, or in
    the bytes of image content, are redacted to the same value with the same flag,
    and are stored as the same bounded value, hash and size included. *)
Theorem redaction_noninterference sha256 v w max :
  low_equivalent v w →
  redactValue v = redactValue w ∧ boundedValue sha256 v max = boundedValue sha256 w max.
Proof. intros H%low_redact; unfold boundedValue; by rewrite H. Qed.

(** ** Concrete runs *)

Module ToolCallSample.
Definition digest (s : string) : string := str (reverse (chars s)).
Definition clock (t : Z) : string := str (iso_text t).

Definition input (args : json) : StartToolCallDebugInput :=
  {| toolCallId := "c1"; sessionId := "s1"; wakeId := "w1"; toolName := "read_file";
     input_arguments := args; sourceMetadata := None |}.

Definition options : MemoryToolCallDebugStoreOptions :=
  {| option_maxJsonChars := Some 80; option_maxPartialUpdates := Some 1;
     option_retentionMs := Some 1000; option_maxRecords := Some 2 |}.

Definition args (secret : string) : json :=
  JObject [("path", JString "a"); ("headers", JObject [("Authorization", JString secret)])].

Definition started :=
  @start digest iso_date_text (new_store options) (input (args "x")) (clock 0) (clock 0) "n1".

Lemma started_reachable : @reachable digest iso_date_text options started.2.
Proof.
  eapply (@reachable_step digest iso_date_text options (new_store options)); [apply reachable_new|].
  apply (@step_start digest iso_date_text (new_store options) (input (args "x")) (clock 0) (clock 0) "n1").
  vm_compute; reflexivity.
Defined.

Lemma tool_call_store_exact_witness :
  length (records (store started.2)) = 1%nat ∧ Z.of_nat (length (records (store started.2))) <= 2.
Proof.
  split; [vm_compute; reflexivity|].
  pose proof (@tool_call_store_exact digest iso_date_text options started.2 started_reachable) as [H _].
  vm_compute in H |- *; exact H.
Defined.

Lemma start_idempotent_witness :
  ∃ c m', started = (Ok c, m')
    ∧ @start digest iso_date_text m' (input JNull) (clock 999) (clock 999) "n2"
      = (Ok c, @cleanup iso_date_text (clock 999) m').
Proof.
  destruct started as [[c|] m'] eqn:Hs; [|by vm_compute in Hs].
  exists c, m'; split; [done|].
  apply (@start_idempotent digest iso_date_text options (new_store options) (input (args "x"))
    (clock 0) (clock 0) "n1" c m' (clock 999) (clock 999) "n2" 0 999 (input JNull));
    [apply reachable_new|exact Hs|vm_compute; reflexivity..].
Defined.

Lemma redaction_noninterference_witness :
  @boundedValue digest (args "x") 80 = @boundedValue digest (args "another") 80
  ∧ @boundedValue digest (args "x") 80 ≠ @boundedValue digest JNull 80.
Proof.
  split; [|vm_compute; discriminate].
  apply redaction_noninterference; unfold args; apply low_object; [reflexivity..|].
  constructor; [split; [done|right; apply low_same]|].
  constructor; [split; [done|right]|constructor].
  apply low_object; [reflexivity..|]; constructor; [split; [done|by left]|constructor].
Defined.

(** An object that looks like image content keeps its secret-named members: the
    image branch redacts only [data]. *)
Theorem image_keeps_secret_members :
  redactValue (JObject [("type", JString "image"); ("data", JString "AAAA");
                        ("api_key", JString "k")])
  = (JObject [("type", JString "image"); ("data", JString "[redacted media bytes]");
              ("api_key", JString "k")], true)
  ∧ REDACTED_KEY_PATTERN "api_key" = true.
Proof. vm_compute; split; reflexivity. Qed.

(** Finishing with an undefined result throws and leaves the record marked
    completed without a result. *)
Theorem finish_undefined_throws :
  let id := debugDetailIdFor digest (input (args "x")) (clock 0) "n1" in
  let after := @finish digest iso_date_text started.2 id JUndefined (clock 1) (clock 1) in
  (∃ e, after.1 = Throw e)
  ∧ ((λ r, (status r, final_result r)) <$> map_get id (records (store after.2)))
    = Some (completed, None).
Proof. split; [eexists|]; vm_compute; reflexivity. Qed.
End ToolCallSample.
