(* ===== verification/Paths.v ===== *)
(** * POSIX paths

    [resolve], [relative], [join] and [dirname] of [node:path], as the file tools use them, on the
    segments of a path: empty and [.] segments disappear, [..] removes the segment
    before it and is dropped at the root.  The process's working directory, which
    [resolve] falls back to for relative arguments, is an argument. *)

From S2P Require Import Prelude JsString.

Definition slash : ascii := "/"%char.

(** Pushing one segment on the resolved ones, which are kept in order. *)
Definition push_segment (done : list text) (s : text) : list text :=
  if bool_decide (s = []) || bool_decide (s = chars ".") then done
  else if bool_decide (s = chars "..") then removelast done
  else done ++ [s].

Definition normalize (segments : list text) : list text := fold_left push_segment segments [].

Definition is_absolute (p : string) : bool := Str.startsWith p "/".

(** The segments [resolve(...parts)] walks: an absolute argument forgets those
    before it; the working directory comes first. *)
Definition resolve_segments (cwd : string) (parts : list string) : list text :=
  fold_left (λ walked p,
      if is_absolute p then Text.split slash (chars p) else walked ++ Text.split slash (chars p))
    parts (Text.split slash (chars cwd)).

Definition path_text (segments : list text) : string := str (slash :: Text.join [slash] segments).

Definition resolve (cwd : string) (parts : list string) : string :=
  path_text (normalize (resolve_segments cwd parts)).

Fixpoint strip_common (from to : list text) : list text * list text :=
  match from, to with
  | f :: from', t :: to' => if decide (f = t) then strip_common from' to' else (from, to)
  | _, _ => (from, to)
  end.

Definition relative_segments (from to : list text) : list text :=
  let '(up, down) := strip_common from to in
  replicate (length up) (chars "..") ++ down.

Definition relative (cwd from to : string) : string :=
  str (Text.join [slash] (relative_segments (normalize (resolve_segments cwd [from]))
                                            (normalize (resolve_segments cwd [to])))).

(** *** [join] and [dirname] *)

(** A segment of a relative path: [..] stays when there is nothing to go back from. *)
Definition push_relative (done : list text) (s : text) : list text :=
  if bool_decide (s = []) || bool_decide (s = chars ".") then done
  else if bool_decide (s = chars "..") then
    if bool_decide (last done = None ∨ last done = Some (chars "..")) then done ++ [s] else removelast done
  else done ++ [s].

(** [normalize(p)]: a relative path stays relative, and a slash at the end stays. *)
Definition path_normalize (p : string) : string :=
  let segments := Text.split slash (chars p) in
  let trailing := if bool_decide (last (chars p) = Some slash) then "/" else "" in
  if String.eqb p "" then "."
  else if is_absolute p then
    match normalize segments with [] => "/" | l => path_text l +:+ trailing end
  else
    match fold_left push_relative segments [] with
    | [] => "." +:+ trailing
    | l => str (Text.join [slash] l) +:+ trailing
    end.

(** [join(dir, p)]: the parts that are not empty, with a slash between them *)
Definition join_path (dir p : string) : string :=
  path_normalize (str (Text.join [slash] (filter (λ t, t ≠ []) [chars dir; chars p]))).

Fixpoint skip_while (f : ascii → bool) (t : text) : text :=
  match t with
  | [] => []
  | c :: t' => if f c then skip_while f t' else t
  end.

(** [dirname(p)]: what comes before the last slash that has a name behind it *)
Definition dirname (p : string) : string :=
  match chars p with
  | [] => "."
  | c :: t =>
      match skip_while (λ c, negb (Ascii.eqb c slash)) (skip_while (λ c, Ascii.eqb c slash) (reverse t)) with
      | [] => if Ascii.eqb c slash then "/" else "."
      | _ :: before => if bool_decide (c :: before = [slash]) then "//" else str (c :: reverse before)
      end
  end.

Example join_examples :
  join_path "/skills" "fmt.md" = "/skills/fmt.md" ∧ join_path "skills" "./a/../fmt.d/" = "skills/fmt.d/" ∧
  join_path "a" "../../b" = "../b" ∧ join_path "" "" = "." ∧ join_path "/" ".." = "/".
Proof. split_and!; reflexivity. Qed.

Example dirname_examples :
  dirname "/skills/fmt.md" = "/skills" ∧ dirname "fmt.md" = "." ∧ dirname "/fmt.md/" = "/" ∧ dirname "a//b/" = "a/".
Proof. split_and!; reflexivity. Qed.

(** ** Normal segments *)

Definition normal_segment (s : text) : Prop :=
  s ≠ [] ∧ s ≠ chars "." ∧ s ≠ chars ".." ∧ slash ∉ s.

Lemma push_segment_normal done s :
  Forall normal_segment done → slash ∉ s → Forall normal_segment (push_segment done s).
Proof.
  intros Hd Hs; unfold push_segment.
  destruct (bool_decide (s = []) || bool_decide (s = chars ".")) eqn:H1; [done|].
  apply orb_false_iff in H1 as [?%bool_decide_eq_false ?%bool_decide_eq_false].
  case_bool_decide.
  - destruct done as [|x done]; [done|].
    rewrite (app_removelast_last [] (l := x :: done)) in Hd by done.
    by apply Forall_app in Hd as [? _].
  - apply Forall_app; split; [done|]; by repeat constructor.
Qed.

Lemma normalize_from segments done :
  Forall normal_segment done → Forall (λ s, slash ∉ s) segments →
  Forall normal_segment (fold_left push_segment segments done).
Proof.
  revert done; induction segments as [|s l IH]; intros done Hd Hl; simpl; [done|].
  apply Forall_cons in Hl as [? ?]; apply IH; [by apply push_segment_normal|done].
Qed.

Lemma split_no_sep c t : Forall (λ s, c ∉ s) (Text.split c t).
Proof.
  unfold Text.split; enough (∀ cur, c ∉ cur → Forall (λ s, c ∉ s) (Text.split_go c t cur)) as H
    by (apply H, not_elem_of_nil).
  induction t as [|d t IH]; intros cur Hcur; simpl.
  - constructor; [by rewrite elem_of_reverse|constructor].
  - case_decide; [constructor; [by rewrite elem_of_reverse|apply IH, not_elem_of_nil]|].
    apply IH; rewrite elem_of_cons; naive_solver.
Qed.

Lemma resolve_segments_no_sep cwd parts : Forall (λ s, slash ∉ s) (resolve_segments cwd parts).
Proof.
  unfold resolve_segments; generalize (split_no_sep slash (chars cwd)).
  generalize (Text.split slash (chars cwd)); induction parts as [|p parts IH]; intros l Hl; simpl;
    [done|]; apply IH; case_match; [apply split_no_sep|].
  apply Forall_app; split; [done|apply split_no_sep].
Qed.

Lemma resolve_normal cwd parts :
  Forall normal_segment (normalize (resolve_segments cwd parts)).
Proof. apply normalize_from; [constructor|apply resolve_segments_no_sep]. Qed.

Lemma push_normal done s : normal_segment s → push_segment done s = done ++ [s].
Proof.
  intros (? & ? & ? & _); unfold push_segment; by rewrite !bool_decide_eq_false_2.
Qed.

Lemma normalize_normal segments : Forall normal_segment segments → normalize segments = segments.
Proof.
  unfold normalize; change segments with ([] ++ segments) at 3; generalize (@nil text).
  induction segments as [|s l IH]; intros done Hl; simpl; [by rewrite app_nil_r|].
  apply Forall_cons in Hl as [Hs Hl]; rewrite push_normal, IH by done.
  by rewrite <- app_assoc.
Qed.

Lemma is_absolute_path_text l : is_absolute (path_text l) = true.
Proof. unfold is_absolute, path_text, Str.startsWith; by rewrite chars_str. Qed.

(** Resolving a resolved path changes nothing. *)
Lemma resolve_path_text cwd l :
  Forall normal_segment l → normalize (resolve_segments cwd [path_text l]) = l.
Proof.
  intros Hl; unfold resolve_segments; cbn [fold_left]; rewrite is_absolute_path_text.
  unfold path_text; rewrite chars_str.
  change (slash :: Text.join [slash] l) with ([] ++ slash :: Text.join [slash] l).
  rewrite Text.split_two by apply not_elem_of_nil.
  destruct l as [|s l]; [done|].
  rewrite Text.split_join; [|done|].
  - change (normalize ([] :: s :: l)) with (normalize (s :: l)); by apply normalize_normal.
  - eapply Forall_impl; [exact Hl|]; by intros t (_ & _ & _ & ?).
Qed.

(** ** Staying below a root *)

Lemma strip_common_prefix from to : (strip_common from to).1 = [] ↔ from `prefix_of` to.
Proof.
  revert to; induction from as [|f from IH]; intros to; simpl.
  - split; [intros _; apply prefix_nil|done].
  - destruct to as [|t to]; simpl; [split; [done|by intros [? ?]]|].
    case_decide; subst.
    + rewrite IH; split; [apply prefix_cons|apply prefix_cons_inv_2].
    + split; [done|intros Hp; by apply prefix_cons_inv_1 in Hp].
Qed.

Lemma strip_common_suffix from to :
  (strip_common from to).1 = [] → to = from ++ (strip_common from to).2.
Proof.
  revert to; induction from as [|f from IH]; intros to; simpl; [done|].
  destruct to as [|t to]; simpl; [done|]; case_decide; [|done].
  intros Hn; subst; f_equal; by apply IH.
Qed.

(** [relative] leads upwards, by its text, exactly when the target is not below. *)
Definition leads_up (r : string) : bool :=
  String.eqb r ".." || Str.startsWith r "../" || Str.startsWith r "/".

Lemma leads_up_join l :
  Forall normal_segment l → leads_up (str (Text.join [slash] l)) = false.
Proof.
  intros Hl; unfold leads_up, Str.startsWith; rewrite !chars_str.
  destruct l as [|s l]; [done|]; apply Forall_cons in Hl as [(Hne & H1 & H2 & Hs) Hl].
  assert (∃ rest, Text.join [slash] (s :: l) = s ++ rest ∧ (rest = [] ∨ ∃ u, rest = slash :: u))
    as (rest & -> & Hrest).
  { destruct l as [|s' l]; [exists []; by rewrite app_nil_r; auto|].
    rewrite Text.join_cons by done; eexists; split; [done|right; by eexists]. }
  assert (∀ p, (∀ r, s ++ rest ≠ p ++ r) → Text.startsWith p (s ++ rest) = false) as Hsw.
  { intros p Hp; apply not_true_iff_false; intros (r & Hr)%Text.startsWith_spec; by apply (Hp r). }
  rewrite !orb_false_iff; split_and!.
  - apply String.eqb_neq; intros Heq%(f_equal chars); rewrite chars_str in Heq.
    destruct Hrest as [->|(u & ->)]; [rewrite app_nil_r in Heq; by apply H2|].
    assert (slash ∈ chars "..") as Hin by (rewrite <- Heq; apply elem_of_app; right; left).
    cbn in Hin; rewrite !elem_of_cons, elem_of_nil in Hin; by destruct Hin as [?|[?|?]].
  - apply Hsw; intros r Heq; destruct s as [|a [|b [|c s]]]; simplify_eq/=; try done.
    apply Hs; right; right; left.
  - apply Hsw; intros r Heq; destruct s as [|a s]; simplify_eq/=; apply Hs; left.
Qed.

Lemma leads_up_relative cwd from to :
  leads_up (relative cwd from to) = false ↔
  normalize (resolve_segments cwd [from]) `prefix_of` normalize (resolve_segments cwd [to]).
Proof.
  unfold relative, relative_segments; rewrite <- strip_common_prefix.
  pose proof (resolve_normal cwd [to]) as Hto.
  set (W := normalize (resolve_segments cwd [from])) in *.
  set (T := normalize (resolve_segments cwd [to])) in *.
  pose proof (strip_common_suffix W T) as Hsuf.
  destruct (strip_common W T) as [[|f up] down]; simpl in *; split; try done.
  - intros _; apply leads_up_join.
    rewrite Hsuf in Hto by done; by apply Forall_app in Hto as [_ ?].
  - intros H; exfalso; revert H; unfold leads_up, Str.startsWith; rewrite !chars_str.
    destruct (replicate (length up) _ ++ down) as [|x l]; [by vm_compute|].
    by cbn.
Qed.

(** ** Relative paths *)

Lemma normal_relative s : normal_segment s → is_absolute (str s) = false.
Proof.
  intros (Hne & _ & _ & Hs); unfold is_absolute, Str.startsWith; rewrite chars_str.
  destruct s as [|a s]; [done|]. cbn. case_bool_decide as E; [|done]. exfalso; apply Hs. rewrite <- E. left.
Qed.

Lemma resolve_child cwd p s :
  normal_segment s → normalize (resolve_segments cwd [p; str s]) = normalize (resolve_segments cwd [p]) ++ [s].
Proof.
  intros Hs; unfold resolve_segments; cbn [fold_left]. rewrite (normal_relative s Hs), chars_str, (Text.split_one slash s) by apply Hs.
  unfold normalize; rewrite fold_left_app; cbn. by apply push_normal.
Qed.

Lemma path_text_inj (cwd : string) l l' : Forall normal_segment l → Forall normal_segment l' → path_text l = path_text l' → l = l'.
Proof. intros Hl Hl' E. by rewrite <- (resolve_path_text cwd l Hl), E, resolve_path_text. Qed.

Lemma strip_common_Forall (P : text → Prop) from to : Forall P to → Forall P (strip_common from to).2.
Proof.
  revert to; induction from as [|x from IH]; intros [|y to] Hto; cbn; try done.
  case_decide; [|done]. apply IH. by apply Forall_cons in Hto as [_ ?].
Qed.

Lemma join_not_absolute l : Forall (λ s, s ≠ [] ∧ slash ∉ s) l → Text.startsWith [slash] (Text.join [slash] l) = false.
Proof.
  intros Hl; destruct l as [|[|a s] l]; [done|by apply Forall_cons in Hl as [[? _] _]|].
  apply Forall_cons in Hl as [[_ Hs] _]. assert (slash ≠ a) by (intros E; apply Hs; rewrite E; left).
  by destruct l; cbn; rewrite bool_decide_eq_false_2.
Qed.

(** The path from one resolved directory to another does not begin with a slash. *)
Lemma relative_not_absolute cwd from to : Str.startsWith (relative cwd from to) "/" = false.
Proof.
  unfold relative, Str.startsWith; rewrite chars_str. apply join_not_absolute. unfold relative_segments.
  pose proof (strip_common_Forall _ (normalize (resolve_segments cwd [from])) _ (resolve_normal cwd [to])) as Hd.
  destruct (strip_common _ _) as [up down]; cbn in Hd. apply Forall_app; split.
  - apply Forall_replicate. split; [done|]. cbn. rewrite !elem_of_cons, elem_of_nil. by intros [?|[?|?]].
  - eapply Forall_impl; [exact Hd|]. by intros s (? & _ & _ & ?).
Qed.

(** The test of the source says whether the target is at or below the directory. *)
Lemma escapes_relative cwd from to :
  String.eqb (relative cwd from to) ".." || Str.startsWith (relative cwd from to) "../" = false ↔
  normalize (resolve_segments cwd [from]) `prefix_of` normalize (resolve_segments cwd [to]).
Proof. rewrite <- leads_up_relative. unfold leads_up. by rewrite relative_not_absolute, orb_false_r. Qed.

(** A relative path is walked from the directory it is resolved against. *)
Lemma resolve_from cwd p t : is_absolute t = false →
  normalize (resolve_segments cwd [p; t])
  = fold_left push_segment (Text.split slash (chars t)) (normalize (resolve_segments cwd [p])).
Proof. intros Ht; unfold resolve_segments; cbn [fold_left]. rewrite Ht. unfold normalize; by rewrite fold_left_app. Qed.

Lemma push_normals done l : Forall normal_segment l → fold_left push_segment l done = done ++ l.
Proof.
  revert done; induction l as [|s l IH]; intros done Hl; cbn; [by rewrite app_nil_r|].
  apply Forall_cons in Hl as [Hs Hl]. by rewrite push_normal, IH, <- app_assoc.
Qed.

(** The path from a directory to something below it leads there. *)
Lemma resolve_relative cwd p rest :
  Forall normal_segment rest → rest ≠ [] →
  normalize (resolve_segments cwd [p; str (Text.join [slash] rest)]) = normalize (resolve_segments cwd [p]) ++ rest.
Proof.
  intros Hr Hne. assert (Forall (λ s, s ≠ [] ∧ slash ∉ s) rest) as Hs
    by (eapply Forall_impl; [exact Hr|]; by intros s (? & _ & _ & ?)).
  rewrite resolve_from, chars_str, Text.split_join; [by apply push_normals|done| |].
  - eapply Forall_impl; [exact Hs|]; by intros s [_ ?].
  - unfold is_absolute, Str.startsWith; rewrite chars_str. by apply join_not_absolute.
Qed.

Lemma strip_common_app l rest : strip_common l (l ++ rest) = ([], rest).
Proof. induction l as [|s l IH]; [by destruct rest|]. cbn. by rewrite decide_True. Qed.

Lemma relative_prefix cwd l rest : Forall normal_segment (l ++ rest) →
  relative cwd (path_text l) (path_text (l ++ rest)) = str (Text.join [slash] rest).
Proof.
  intros Hl. unfold relative. rewrite !resolve_path_text; [|done|by apply Forall_app in Hl as [? _]].
  unfold relative_segments. by rewrite strip_common_app.
Qed.

Lemma join_ne_dot rest : Forall normal_segment rest → Text.join [slash] rest ≠ chars ".".
Proof.
  intros Hr E. destruct rest as [|s rest]; [done|]. assert (Text.split slash (Text.join [slash] (s :: rest)) = s :: rest) as Hs.
  { apply Text.split_join; [done|]. eapply Forall_impl; [exact Hr|]. by intros t (_ & _ & _ & ?). }
  rewrite E in Hs. injection Hs as <- <-. apply Forall_cons in Hr as [(_ & Hd & _) _]. by apply Hd.
Qed.

(** *** Joining to an absolute directory *)

Lemma join_parts dir p : dir ≠ "" → p ≠ "" →
  Text.join [slash] (filter (λ t, t ≠ []) [chars dir; chars p]) = chars dir ++ slash :: chars p.
Proof.
  intros Hd Hp. assert (∀ s, s ≠ "" → chars s ≠ []) as Hne by (intros [|c s]; [done|discriminate]).
  rewrite !filter_cons_True, filter_nil by auto. done.
Qed.

(** A part that does not end in a slash is joined to a normal path. *)
Lemma join_path_text dir p :
  is_absolute dir = true → p ≠ "" → last (chars p) ≠ Some slash →
  join_path dir p = path_text (normalize (Text.split slash (chars dir ++ slash :: chars p))).
Proof.
  intros Hd Hp Hl. assert (dir ≠ "") as Hne by (intros ->; discriminate Hd).
  unfold join_path, path_normalize; rewrite join_parts by done.
  assert (is_absolute (str (chars dir ++ slash :: chars p)) = true) as ->.
  { unfold is_absolute, Str.startsWith in *; rewrite chars_str. apply Text.startsWith_spec in Hd as [r ->].
    by apply Text.startsWith_spec; eexists; rewrite <- app_assoc. }
  rewrite chars_str. destruct (String.eqb_spec (str (chars dir ++ slash :: chars p)) "") as [E|_].
  { apply (f_equal chars) in E; rewrite chars_str in E. by destruct (chars dir). }
  rewrite bool_decide_eq_false_2.
  - destruct (normalize _); [done|]. apply chars_inj. by rewrite chars_app, app_nil_r.
  - rewrite last_app_cons. destruct (chars p) as [|c t] eqn:E; [|by rewrite last_cons_cons].
    apply (f_equal str) in E; by rewrite str_chars in E.
Qed.

Lemma join_path_normal dir p :
  is_absolute dir = true → p ≠ "" → last (chars p) ≠ Some slash →
  is_absolute (join_path dir p) = true ∧ ∀ cwd, resolve cwd [join_path dir p] = join_path dir p.
Proof.
  intros Hd Hp Hl; rewrite join_path_text by done. split; [apply is_absolute_path_text|].
  intros cwd; unfold resolve; rewrite resolve_path_text; [done|].
  apply normalize_from; [constructor|apply split_no_sep].
Qed.
