(* ===== verification/PatchTool.v ===== *)
(** * The patch tool

    [ts/packages/brain-island/src/patch-tool.ts]: find-and-replace edits and V4A
    patches.  File contents are code-unit lists.  The file operations of Node and
    of [constrained-filesystem.ts] are the class [PatchFiles], over an abstract
    state of the file system; the verdicts of [tsc] and of [JSON.parse] are
    operations of it too.  Loops the source does not bound carry fuel and return
    [None] when it runs out. *)

From Stdlib Require Import Sorted.
From S2P Require Import Prelude JsString Paths.

(** ** Data *)

Inductive FilesystemScope := unrestricted | workdir_scope.
Inductive PatchMode := replace_mode | patch_mode.

Record PatchParams := {
  mode : option PatchMode;
  path : option string;
  old_string : option text;
  new_string : option text;
  replace_all : option bool;
  patch : option text
}.

Record PatchToolDetails := {
  ok : bool;
  details_path : option string;
  replacements : option nat;
  filesApplied : option nat;
  errors : option nat;
  diff : option text;
  details_error : option string
}.

Record PatchToolResult := { result_text : text; details : PatchToolDetails }.

Record MatchResult := {
  indices : list nat;
  unique : bool;
  count : nat;
  baseContent : text;
  replace : text → text → text
}.

Record V4AHunk := { context : text; removals : list text; additions : list text }.
Record V4AFile := { file_path : text; hunks : list V4AHunk }.

Definition textResult (t : text) (d : PatchToolDetails) : PatchToolResult :=
  {| result_text := t; details := d |}.

Definition errorResult (message : string) : PatchToolResult :=
  {| result_text := chars message;
     details := {| ok := false; details_path := None; replacements := None; filesApplied := None;
                   errors := None; diff := None; details_error := Some message |} |}.

(** ** Matching *)

Definition newline : ascii := Ascii.ascii_of_nat 10.

Fixpoint allIndices_loop (fuel : nat) (content needle : text) (startIndex : nat)
    : option (list nat) :=
  match fuel with
  | 0 => None
  | S fuel' =>
      match Text.indexOf content needle startIndex with
      | None => Some []
      | Some index => cons index <$> allIndices_loop fuel' content needle (S index)
      end
  end.

(** One round per position and one that finds nothing. *)
Definition allIndices (content needle : text) : option (list nat) :=
  allIndices_loop (length content + 2) content needle 0.

(** One replacement: [result.slice(0, i) + replacement + result.slice(i + n)] *)
Definition splice_at (n : nat) (replacement result : text) (index : nat) : text :=
  take index result ++ replacement ++ drop (index + n) result.

Definition buildMatchResult (content needle : text) (found : list nat) (allowMultiple : bool)
    : option MatchResult :=
  if (length found =? 0)%nat then None
  else if (1 <? length found)%nat && negb allowMultiple
  then Some {| indices := found; unique := false; count := length found; baseContent := content;
               replace := λ _ _, content |}
  else Some {| indices := found; unique := (length found =? 1)%nat; count := length found;
               baseContent := content;
               replace := λ base replacement,
                 fold_left (splice_at (length needle) replacement)
                   (sort_by (λ left right, Nat.compare right left) found) base |}.

Definition map_lines (f : text → text) (t : text) : text :=
  Text.join [newline] (f <$> Text.split newline t).

Definition findBestMatch (content needle : text) (allowMultiple : bool)
    : option (option MatchResult) :=
  exactIndices ← allIndices content needle;
  if (0 <? length exactIndices)%nat
  then Some (buildMatchResult content needle exactIndices allowMultiple)
  else
    let trimmedContent := map_lines Text.trimEnd content in
    let trimmedNeedle := map_lines Text.trimEnd needle in
    trimmedIndices ← allIndices trimmedContent trimmedNeedle;
    if (0 <? length trimmedIndices)%nat
    then Some (buildMatchResult trimmedContent trimmedNeedle trimmedIndices allowMultiple)
    else
      let fullyTrimmedContent := map_lines Text.trim content in
      let fullyTrimmedNeedle := map_lines Text.trim needle in
      fullTrimIndices ← allIndices fullyTrimmedContent fullyTrimmedNeedle;
      if (0 <? length fullTrimIndices)%nat
      then Some (buildMatchResult fullyTrimmedContent fullyTrimmedNeedle fullTrimIndices allowMultiple)
      else Some None.

(** ** Diffs *)

(** The round of the loop at one line number. *)
Definition diff_at (before after : list text) (index : nat) : list text :=
  let b := before !! index in
  let a := after !! index in
  if decide (b = a) then [" "%char :: default [] b]
  else match b with Some l => ["-"%char :: l] | None => [] end
       ++ match a with Some l => ["+"%char :: l] | None => [] end.

Definition buildDiff (p : string) (original patched : text) : list text :=
  let originalLines := Text.split newline original in
  let patchedLines := Text.split newline patched in
  [chars ("--- " +:+ p); chars ("+++ " +:+ p);
   chars ("@@ -1," +:+ pretty (length originalLines) +:+ " +1," +:+ pretty (length patchedLines)
          +:+ " @@")]
  ++ (seq 0 (Nat.max (length originalLines) (length patchedLines))
        ≫= diff_at originalLines patchedLines).

(** ** V4A patches *)

(** A literal matched without regard to case, with what follows it. *)
Definition strip_literal (literal : string) (t : text) : option text :=
  let l := chars literal in
  if Text.startsWith l (Text.toLowerCase t) then Some (drop (length l) t) else None.

(** [\s+]: at least one white space character, all of them. *)
Definition strip_ws1 (t : text) : option text :=
  match t with
  | c :: t' => if is_ws c then Some (Text.trimStart t') else None
  | [] => None
  end.

(** [/^\*\*\*\s*<word>\s+Patch\s*$/iu] *)
Definition marker_line (word : string) (line : text) : bool :=
  match
    rest ← strip_literal "***" line;
    rest ← strip_literal word (Text.trimStart rest);
    rest ← strip_ws1 rest;
    rest ← strip_literal "patch" rest;
    Some (bool_decide (Text.trimStart rest = []))
  with
  | Some b => b
  | None => false
  end.

(** [.] does not match a line terminator; a line holds no line feed, so what is
    left of those is the carriage return. *)
Definition carriage_return : ascii := Ascii.ascii_of_nat 13.
Definition no_terminator (t : text) : bool := forallb (λ c, negb (bool_decide (c = carriage_return))) t.

(** [/^\*\*\*\s*Update\s+File:\s+(.+?)\s*$/iu], the group trimmed.  When only white
    space follows the colon, the group takes a character of it after the first. *)
Definition file_line (line : text) : option text :=
  rest ← strip_literal "***" line;
  rest ← strip_literal "update" (Text.trimStart rest);
  rest ← strip_ws1 rest;
  rest ← strip_literal "file:" rest;
  match rest with
  | c :: rest' =>
      if is_ws c then
        let core := Text.trim rest' in
        if bool_decide (core = [])
        then if existsb (λ c, negb (bool_decide (c = carriage_return))) rest' then Some [] else None
        else if no_terminator core then Some core else None
      else None
  | [] => None
  end.

(** [/^@@\s*(.*?)\s*@@$/iu], the group trimmed. *)
Definition hunk_line (line : text) : option text :=
  if Text.startsWith (chars "@@") line && Text.endsWith line (chars "@@") && (4 <=? length line)%nat
  then
    let core := Text.trim (Text.slice line 2 (length line - 2)) in
    if no_terminator core then Some core else None
  else None.

(** The files read so far, the last one current; [currentHunk] is the last hunk of
    the current file, or absent. *)
Record ParseState := { parsed : list V4AFile; in_hunk : bool }.

Definition update_last {A} (f : A → A) (l : list A) : list A :=
  match last l with Some x => removelast l ++ [f x] | None => l end.

Definition add_hunk (h : V4AHunk) (f : V4AFile) : V4AFile :=
  {| file_path := file_path f; hunks := hunks f ++ [h] |}.
Definition add_removal (l : text) (h : V4AHunk) : V4AHunk :=
  {| context := context h; removals := removals h ++ [l]; additions := additions h |}.
Definition add_addition (l : text) (h : V4AHunk) : V4AHunk :=
  {| context := context h; removals := removals h; additions := additions h ++ [l] |}.
Definition on_hunk (f : V4AHunk → V4AHunk) (s : ParseState) : ParseState :=
  {| parsed := update_last (λ file, {| file_path := file_path file;
                                       hunks := update_last f (hunks file) |}) (parsed s);
     in_hunk := in_hunk s |}.

(** One line that is neither a begin nor an end marker. *)
Definition parse_line (s : ParseState) (line : text) : ParseState :=
  match file_line line with
  | Some p => {| parsed := parsed s ++ [{| file_path := p; hunks := [] |}]; in_hunk := false |}
  | None =>
      match hunk_line line, parsed s with
      | Some c, _ :: _ =>
          {| parsed := update_last (add_hunk {| context := c; removals := []; additions := [] |})
                         (parsed s);
             in_hunk := true |}
      | _, _ =>
          if negb (in_hunk s) then s
          else if Text.startsWith (chars "-") line && negb (Text.startsWith (chars "--") line)
          then on_hunk (add_removal (drop 1 line)) s
          else if Text.startsWith (chars "+") line && negb (Text.startsWith (chars "++") line)
          then on_hunk (add_addition (drop 1 line)) s
          else s
      end
  end.

Fixpoint parse_lines (lines : list text) (s : ParseState) : ParseState :=
  match lines with
  | [] => s
  | line :: lines' =>
      if marker_line "begin" line then parse_lines lines' s
      else if marker_line "end" line then s
      else parse_lines lines' (parse_line s line)
  end.

Definition parseV4APatch (patchBlock : text) : list V4AFile :=
  List.filter (λ f, (0 <? length (hunks f))%nat)
    (parsed (parse_lines (Text.split newline patchBlock) {| parsed := []; in_hunk := false |})).

Fixpoint find_index {A} (p : A → bool) (l : list A) : option nat :=
  match l with
  | [] => None
  | x :: l' => if p x then Some 0%nat else S <$> find_index p l'
  end.

Definition apply_hunk (result : text) (h : V4AHunk) : text :=
  let removal := Text.join [newline] (removals h) in
  let addition := Text.join [newline] (additions h) in
  if (length removal =? 0)%nat then
    let lines := Text.split newline result in
    match find_index (λ line, Text.includes line (context h)) lines with
    | Some i => Text.join [newline] (take (i + 1) lines ++ additions h ++ drop (i + 1) lines)
    | None => result
    end
  else
    match Text.indexOf result removal 0 with
    | Some i => take i result ++ addition ++ drop (i + length removal) result
    | None => result
    end.

Definition applyV4AHunks (content : text) (hs : list V4AHunk) : text :=
  fold_left apply_hunk hs content.

(** ** Files *)

(** The operations the tool calls, on a file system state [F] with handles [H]:
    [openConstrainedMutableFile(root, target, false)], [fs.readFile] and
    [handle.readFile], [fs.writeFile] and [replaceOpenFile], [handle.close],
    [fs.mkdir], and the verdict of [JSON.parse] on a text and of [tsc] on a file.
    A thrown error is its message. *)
Class PatchFiles (F H : Type) := {
  fs_open : string → string → F → result H * F;
  fs_readFile : string → F → result text;
  handle_readFile : H → F → result text;
  fs_writeFile : string → text → F → result unit * F;
  replaceOpenFile : H → text → F → result unit * F;
  handle_close : H → F → F;
  fs_mkdir : string → F → result unit * F;
  json_parse : text → result unit;
  run_tsc : string → F → result unit
}.

Section tool.
Context {F H : Type} `{!PatchFiles F H} (cwd : string).

Definition resolvePatchPath (workdir p : string) (scope : FilesystemScope) : result string :=
  let target := resolve cwd [workdir; p] in
  match scope with
  | unrestricted => Ok target
  | workdir_scope =>
      let scopedRelative := relative cwd workdir target in
      if String.eqb scopedRelative ".." || Str.startsWith scopedRelative "../"
         || Str.startsWith scopedRelative "/"
      then Throw ("path escapes session workdir: " +:+ p)
      else Ok target
  end.

Definition openPatchHandle (root target : string) (scope : FilesystemScope) (f : F)
    : result (option H) * F :=
  match scope with
  | workdir_scope => let '(r, f') := fs_open root target f in (Some <$> r, f')
  | unrestricted => (Ok None, f)
  end.

Definition readPatchFile (target : string) (handle : option H) (f : F) : result text :=
  match handle with None => fs_readFile target f | Some h => handle_readFile h f end.

Definition writePatchFile (target : string) (content : text) (handle : option H) (f : F)
    : result unit * F :=
  match handle with
  | None => fs_writeFile target content f
  | Some h => replaceOpenFile h content f
  end.

Definition close (handle : option H) (f : F) : F :=
  match handle with None => f | Some h => handle_close h f end.

Definition checkJsonSyntax (filePath : string) (f : F) : result unit :=
  content ← fs_readFile filePath f; json_parse content.

Definition checkSyntax (filePath : string) (f : F) : result unit :=
  if Str.endsWith filePath ".json" then checkJsonSyntax filePath f
  else if Str.endsWith filePath ".ts" || Str.endsWith filePath ".tsx" then run_tsc filePath f
  else Ok ().

(** Creating the directory and writing: the try block of the replace mode. *)
Definition store_patch (target : string) (content : text) (handle : option H) (f : F)
    : result unit * F :=
  match fs_mkdir (dirname target) f with
  | (Throw e, f') => (Throw e, f')
  | (Ok _, f') => writePatchFile target content handle f'
  end.

Definition executeReplaceMode (workdir : string) (params : PatchParams) (scope : FilesystemScope)
    (f : F) : option (PatchToolResult * F) :=
  let p := default "" (path params) in
  let oldString := default [] (old_string params) in
  let newString := default [] (new_string params) in
  let replaceAll := bool_decide (replace_all params = Some true) in
  if String.eqb p "" then Some (errorResult "path is required in replace mode", f)
  else if bool_decide (oldString = [])
  then Some (errorResult "old_string is required in replace mode", f)
  else
    match resolvePatchPath workdir p scope with
    | Throw _ => Some (errorResult ("path escapes session workdir: " +:+ p), f)
    | Ok absolutePath =>
        match openPatchHandle workdir absolutePath scope f with
        | (Throw e, f1) => Some (errorResult ("Cannot read file " +:+ p +:+ ": " +:+ e), f1)
        | (Ok handle, f1) =>
            match readPatchFile absolutePath handle f1 with
            | Throw e =>
                Some (errorResult ("Cannot read file " +:+ p +:+ ": " +:+ e), close handle f1)
            | Ok originalContent =>
                matched ← findBestMatch originalContent oldString replaceAll;
                match matched with
                | None =>
                    Some (errorResult ("Could not find a unique match for old_string in " +:+ p +:+
                      ". Use search_files to find the exact text first."), close handle f1)
                | Some m =>
                    if negb (unique m) && negb replaceAll
                    then Some (errorResult ("old_string matched " +:+ pretty (count m) +:+ " times in "
                      +:+ p +:+ ". Set replace_all=true or narrow old_string."), close handle f1)
                    else
                      let patchedContent := replace m (baseContent m) newString in
                      let d := Text.join [newline] (buildDiff p (baseContent m) patchedContent) in
                      match store_patch absolutePath patchedContent handle f1 with
                      | (Throw e, f2) =>
                          Some (errorResult ("Failed to write " +:+ p +:+ ": " +:+ e), close handle f2)
                      | (Ok _, f2) =>
                          match checkSyntax absolutePath f2 with
                          | Throw e =>
                              let '(_, f3) := writePatchFile absolutePath originalContent handle f2 in
                              Some (errorResult ("Syntax check failed after edit; file rolled back."
                                +:+ str [newline] +:+ e), close handle f3)
                          | Ok _ =>
                              Some (textResult d {| ok := true; details_path := Some p;
                                replacements := Some (count m); filesApplied := None; errors := None;
                                diff := Some d; details_error := None |}, close handle f2)
                          end
                      end
                end
            end
        end
    end.

(** [diffs] and [errors], the accumulators of the patch mode. *)
Record PatchLog := { diffs : list text; log_errors : list text }.
Definition log_error (l : PatchLog) (message : text) : PatchLog :=
  {| diffs := diffs l; log_errors := log_errors l ++ [message] |}.

(** An error of [mkdir] or of the write is not caught and leaves the loop. *)
Definition applyPatchFile (workdir : string) (file : V4AFile) (scope : FilesystemScope)
    (l : PatchLog) (f : F) : result PatchLog * F :=
  let p := str (file_path file) in
  match resolvePatchPath workdir p scope with
  | Throw _ => (Ok (log_error l (chars ("path escapes session workdir: " +:+ p))), f)
  | Ok absolutePath =>
      match openPatchHandle workdir absolutePath scope f with
      | (Throw e, f1) => (Ok (log_error l (chars ("Cannot read " +:+ p +:+ ": " +:+ e))), f1)
      | (Ok handle, f1) =>
          match readPatchFile absolutePath handle f1 with
          | Throw e =>
              (Ok (log_error l (chars ("Cannot read " +:+ p +:+ ": " +:+ e))), close handle f1)
          | Ok originalContent =>
              let patchedContent := applyV4AHunks originalContent (hunks file) in
              if bool_decide (patchedContent = originalContent)
              then (Ok (log_error l (chars ("No changes applied to " +:+ p
                      +:+ "; context lines did not match"))), close handle f1)
              else
                match store_patch absolutePath patchedContent handle f1 with
                | (Throw e, f2) => (Throw e, f2)
                | (Ok _, f2) =>
                    match checkSyntax absolutePath f2 with
                    | Throw e =>
                        let '(_, f3) := writePatchFile absolutePath originalContent handle f2 in
                        (Ok (log_error l (chars (p +:+ ": syntax check failed; rolled back: " +:+ e))),
                         close handle f3)
                    | Ok _ =>
                        (Ok {| diffs := diffs l ++ [Text.join [newline]
                                 (buildDiff p originalContent patchedContent)];
                               log_errors := log_errors l |}, close handle f2)
                    end
                end
          end
      end
  end.

Fixpoint applyPatchFiles (workdir : string) (files : list V4AFile) (scope : FilesystemScope)
    (l : PatchLog) (f : F) : result PatchLog * F :=
  match files with
  | [] => (Ok l, f)
  | file :: files' =>
      match applyPatchFile workdir file scope l f with
      | (Throw e, f') => (Throw e, f')
      | (Ok l', f') => applyPatchFiles workdir files' scope l' f'
      end
  end.

Definition executePatchMode (workdir : string) (params : PatchParams) (scope : FilesystemScope)
    (f : F) : result PatchToolResult * F :=
  let patchBlock := default [] (patch params) in
  if bool_decide (patchBlock = []) then (Ok (errorResult "patch field is required in patch mode"), f)
  else
    let files := parseV4APatch patchBlock in
    if bool_decide (files = [])
    then (Ok (errorResult "Could not parse any file blocks from the patch content. Expected *** Begin Patch / *** Update File / @@ / +/- lines."), f)
    else
      match applyPatchFiles workdir files scope {| diffs := []; log_errors := [] |} f with
      | (Throw e, f') => (Throw e, f')
      | (Ok l, f') =>
          let applied := length (diffs l) in
          let failed := length (log_errors l) in
          let output := Text.join [newline]
            ((if (0 <? applied)%nat
              then chars ("Applied " +:+ pretty applied +:+ " file(s)") :: diffs l else [])
             ++ (if (0 <? failed)%nat
                 then chars ("Errors (" +:+ pretty failed +:+ "):") :: log_errors l else [])) in
          (Ok (textResult output {| ok := (failed =? 0)%nat; details_path := None;
             replacements := None; filesApplied := Some applied; errors := Some failed;
             diff := Some output; details_error := None |}), f')
      end.

(** [execute] of the tool; [None] is an edit that never returns. *)
Definition execute (workdir : string) (scope : option FilesystemScope) (params : PatchParams) (f : F)
    : option (result PatchToolResult * F) :=
  let filesystemScope := default unrestricted scope in
  match default replace_mode (mode params) with
  | patch_mode => Some (executePatchMode workdir params filesystemScope f)
  | replace_mode =>
      '(r, f') ← executeReplaceMode workdir params filesystemScope f;
      Some (Ok r, f')
  end.
End tool.

(** ** All occurrences *)

Lemma indexOf_bounds content needle k i :
  needle ≠ [] → Text.indexOf content needle k = Some i →
  k ≤ i < length content ∧ Text.occurs_at needle content i
  ∧ ∀ j, k ≤ j < i → ¬ Text.occurs_at needle content j.
Proof.
  intros Hne Hi; destruct (decide (k ≤ length content)) as [Hk|Hk].
  - apply Text.indexOf_Some in Hi as (? & Ho & ?); [|done].
    pose proof (Text.occurs_at_length _ _ _ Ho Hne); destruct needle; [done|simpl in *].
    split_and!; [lia..|done|done].
  - unfold Text.indexOf in Hi; rewrite Nat.min_r, drop_ge in Hi by lia.
    by destruct needle.
Qed.

Lemma allIndices_loop_spec fuel content needle k :
  needle ≠ [] → length content < k + fuel → k ≤ length content →
  ∃ l, allIndices_loop fuel content needle k = Some l
    ∧ (∀ i, i ∈ l ↔ k ≤ i ∧ Text.occurs_at needle content i) ∧ StronglySorted lt l.
Proof.
  intros Hne; revert k; induction fuel as [|fuel IH]; intros k Hfuel Hk; [lia|]; simpl.
  destruct (Text.indexOf content needle k) as [i|] eqn:Hi.
  - destruct (indexOf_bounds _ _ _ _ Hne Hi) as (Hki & Ho & Hmin).
    destruct (IH (S i)) as (l & -> & Hl & Hs); [lia..|]; exists (i :: l); split_and!; [done| |].
    + intros j; rewrite elem_of_cons, Hl; split.
      * intros [->|[? ?]]; split; (done || lia).
      * intros [Hj Hoj]; destruct (decide (j = i)); [by left|right]; split; [|done].
        destruct (decide (j < i)); [|lia]; destruct (Hmin j); [lia|done].
    + constructor; [done|]; apply Forall_forall; intros j Hj%Hl; lia.
  - exists []; split_and!; [done| |constructor]; intros i; split; [by intros ?%not_elem_of_nil|].
    intros [Hki Ho]; pose proof (Text.occurs_at_length _ _ _ Ho Hne).
    destruct (Text.indexOf_None _ _ _ i Hi); [lia|done].
Qed.

(** An empty needle is found again at the end, forever. *)
Lemma allIndices_loop_empty fuel content k : allIndices_loop fuel content [] k = None.
Proof.
  revert k; induction fuel as [|fuel IH]; intros k; simpl; [done|].
  unfold Text.indexOf; destruct (drop _ content); simpl; by rewrite IH.
Qed.

(** Finding the occurrences of a text terminates and finds them all.  For a
    non-empty needle the loop returns, within one round per position of the
    content, exactly the positions where the needle occurs, in increasing order. *)
Theorem allIndices_exact content needle :
  needle ≠ [] →
  ∃ l, allIndices content needle = Some l
    ∧ (∀ i, i ∈ l ↔ Text.occurs_at needle content i) ∧ StronglySorted lt l.
Proof.
  intros Hne; destruct (allIndices_loop_spec (length content + 2) content needle 0)
    as (l & ? & Hl & ?); [done|lia..|].
  exists l; split_and!; [done| |done]; intros i; rewrite Hl; split; [by intros [_ ?]|].
  split; [lia|done].
Qed.

Lemma elem_of_drop_ws c t : is_ws c = false → c ∈ t → c ∈ Text.drop_ws t.
Proof.
  intros Hc; induction t as [|d t IH]; simpl; [done|].
  destruct (is_ws d) eqn:Hd; [|done]; intros [->|]%elem_of_cons; [congruence|auto].
Qed.

Lemma elem_of_trimEnd c t : is_ws c = false → c ∈ t → c ∈ Text.trimEnd t.
Proof.
  intros Hc Hin; unfold Text.trimEnd; apply elem_of_reverse, elem_of_drop_ws; [done|].
  by apply elem_of_reverse.
Qed.

Lemma elem_of_trim c t : is_ws c = false → c ∈ t → c ∈ Text.trim t.
Proof. intros Hc Hin; by apply elem_of_trimEnd, elem_of_drop_ws. Qed.

Lemma elem_of_join c sep ts : c ∈ Text.join sep ts → c ∈ sep ∨ ∃ t, t ∈ ts ∧ c ∈ t.
Proof.
  induction ts as [|t ts IH]; [by intros ?%not_elem_of_nil|].
  destruct ts as [|t' ts]; [intros; right; exists t; split; [left|done]|].
  rewrite Text.join_cons by done; rewrite !elem_of_app; intros [?|[?|[?|(u & ? & ?)]%IH]];
    [right; exists t; split; [left|done]|by left|by left|].
  right; exists u; split; [by right|done].
Qed.

Lemma elem_of_join_2 c sep t ts : t ∈ ts → c ∈ t → c ∈ Text.join sep ts.
Proof.
  intros Ht Hc; induction ts as [|u ts IH]; [by apply not_elem_of_nil in Ht|].
  apply elem_of_cons in Ht as [<-|Ht]; destruct ts as [|u' ts]; [done| |by apply not_elem_of_nil in Ht|].
  - rewrite Text.join_cons by done; apply elem_of_app; by left.
  - rewrite Text.join_cons by done; rewrite !elem_of_app; auto.
Qed.

Lemma map_lines_keeps (f : text → text) c t :
  (∀ c t, is_ws c = false → c ∈ t → c ∈ f t) → is_ws c = false → c ∈ t → map_lines f t ≠ [].
Proof.
  intros Hf Hc Hin Hnil; rewrite <- (Text.join_split newline t) in Hin.
  apply elem_of_join in Hin as [->%list_elem_of_singleton|(u & Hu & Hcu)]; [by vm_compute in Hc|].
  assert (c ∈ map_lines f t) as Hbad.
  { unfold map_lines; apply (elem_of_join_2 _ _ (f u)); [by apply list_elem_of_fmap_2|auto]. }
  rewrite Hnil in Hbad; by apply not_elem_of_nil in Hbad.
Qed.

Lemma allIndices_returns content needle : needle ≠ [] → ∃ l, allIndices content needle = Some l.
Proof.
  intros Hne; destruct (allIndices_loop_spec (length content + 2) content needle 0)
    as (l & ? & _); [done|lia..|]; eauto.
Qed.

(** Matching returns for every text that is not blank.  If the text to
    replace has a character that is not white space, none of the three searches
    runs forever, whatever the content. *)
Theorem findBestMatch_returns content needle allow c :
  c ∈ needle → is_ws c = false → ∃ r, findBestMatch content needle allow = Some r.
Proof.
  intros Hin Hc; unfold findBestMatch.
  destruct (allIndices_returns content needle) as (l1 & ->);
    [by intros ->; apply not_elem_of_nil in Hin|]; cbn [mbind option_bind].
  destruct (0 <? length l1); [eauto|].
  destruct (allIndices_returns (map_lines Text.trimEnd content) (map_lines Text.trimEnd needle))
    as (l2 & ->); [by eapply map_lines_keeps; [apply elem_of_trimEnd|..]|]; cbn [mbind option_bind].
  destruct (0 <? length l2); [eauto|].
  destruct (allIndices_returns (map_lines Text.trim content) (map_lines Text.trim needle))
    as (l3 & ->); [by eapply map_lines_keeps; [apply elem_of_trim|..]|]; cbn [mbind option_bind].
  destruct (0 <? length l3); eauto.
Qed.

(** Whatever the fuel, the loop does not return for an empty needle; a text of
    white space that has no exact match becomes one after trimming. *)
Theorem whitespace_needle_never_returns :
  (∀ fuel content, allIndices_loop fuel content [] 0 = None)
  ∧ ∀ b, findBestMatch (chars "a") (chars "  ") b = None.
Proof. split; [intros; apply allIndices_loop_empty|intros b; vm_compute; reflexivity]. Qed.

(** ** Replacement *)

Lemma sort_descending (l : list nat) :
  StronglySorted lt l → sort_by (λ left right, Nat.compare right left) l = reverse l.
Proof.
  intros Hl; induction Hl as [|x l Hl IH Hx]; [done|]; simpl; rewrite IH, reverse_cons.
  assert (∀ k, Forall (λ y, x < y) k →
    insert_sorted (λ left right, Nat.compare right left) x k = k ++ [x]) as Hins.
  { induction k as [|y k IHk]; simpl; [done|]; intros [Hy Hk]%Forall_cons.
    rewrite (proj2 (Nat.compare_gt_iff y x)) by lia; f_equal; by apply IHk. }
  apply Hins, Forall_forall; intros y Hy.
  rewrite elem_of_reverse in Hy; rewrite Forall_forall in Hx; by apply Hx.
Qed.

(** Right to left: the last index is replaced first. *)
Definition splice_all (n : nat) (r content : text) (l : list nat) : text :=
  foldr (λ i t, splice_at n r t i) content l.

Lemma fold_reverse_splice n r content l :
  fold_left (splice_at n r) (reverse l) content = splice_all n r content l.
Proof.
  induction l as [|i l IH]; [done|]; rewrite reverse_cons, fold_left_app; simpl; by rewrite IH.
Qed.

Lemma splice_at_app n r a b i :
  length a ≤ i → splice_at n r (a ++ b) i = a ++ splice_at n r b (i - length a).
Proof.
  intros Hi; unfold splice_at; rewrite take_app_ge, drop_app_ge by lia.
  rewrite <- app_assoc; repeat f_equal; lia.
Qed.

Lemma splice_all_shift n r content k l :
  k ≤ length content → Forall (λ i, k ≤ i) l →
  splice_all n r content l
  = take k content ++ splice_all n r (drop k content) ((λ i, i - k) <$> l).
Proof.
  intros Hk; induction l as [|i l IH]; intros Hl; simpl; [by rewrite take_drop|].
  apply Forall_cons in Hl as [Hi Hl]; fold (splice_all n r content l); rewrite IH by done.
  rewrite splice_at_app; rewrite length_take, Nat.min_l by lia; done.
Qed.

(** Occurrences that do not overlap, from a position on. *)
Fixpoint separated (n k : nat) (l : list nat) : Prop :=
  match l with
  | [] => True
  | i :: l' => k ≤ i ∧ separated n (i + n) l'
  end.

Lemma separated_ge n k l : separated n k l → Forall (λ i, k ≤ i) l.
Proof.
  revert k; induction l as [|i l IH]; intros k; [constructor|]; intros [Hi Hl].
  constructor; [done|]; eapply Forall_impl; [by apply IH|]; simpl; lia.
Qed.

Lemma separated_shift n k j l :
  j ≤ k → separated n k l → separated n (k - j) ((λ i, i - j) <$> l).
Proof.
  revert k; induction l as [|i l IH]; intros k Hjk; [done|]; intros [Hi Hl]; split; [lia|].
  replace (i - j + n) with (i + n - j) by lia; apply IH; [lia|done].
Qed.

Lemma occurs_at_drop needle content i k :
  k ≤ i → Text.occurs_at needle content i → Text.occurs_at needle (drop k content) (i - k).
Proof. unfold Text.occurs_at; rewrite drop_drop; intros ?; by replace (k + (i - k)) with i by lia. Qed.

(** Cutting the content at its separated occurrences. *)
Lemma splice_all_join needle content l :
  needle ≠ [] → separated (length needle) 0 l → Forall (Text.occurs_at needle content) l →
  ∃ parts, content = Text.join needle parts ∧ length parts = S (length l)
    ∧ ∀ r, splice_all (length needle) r content l = Text.join r parts.
Proof.
  intros Hne; remember (length l) as m eqn:Hm; revert content l Hm.
  induction m as [|m IH]; intros content l Hm Hsep Hocc; destruct l as [|i l]; try done.
  - by exists [content].
  - destruct Hsep as [_ Hsep]; apply Forall_cons in Hocc as [Hi Hocc].
    pose proof (Text.occurs_at_length _ _ _ Hi Hne) as Hlen.
    pose proof (separated_ge _ _ _ Hsep) as Hge; set (k := i + length needle) in *.
    destruct (IH (drop k content) ((λ j, j - k) <$> l)) as (parts & Hc & Hp & Hs).
    { rewrite length_fmap; simpl in Hm; lia. }
    { replace 0 with (k - k) by lia; by apply separated_shift. }
    { apply Forall_forall; intros j' (j & -> & Hj)%list_elem_of_fmap.
      rewrite Forall_forall in Hocc, Hge; apply occurs_at_drop; auto. }
    exists (take i content :: parts); split_and!; [| simpl; lia|].
    + rewrite Text.join_cons by (by destruct parts); rewrite <- Hc.
      unfold Text.occurs_at in Hi; apply Text.startsWith_drop in Hi.
      rewrite drop_drop in Hi; fold k in Hi; rewrite <- Hi; by rewrite take_drop.
    + intros r; rewrite Text.join_cons by (by destruct parts); simpl.
      fold (splice_all (length needle) r content l).
      rewrite (splice_all_shift _ _ _ k), Hs by done; unfold splice_at; fold k.
      rewrite take_app_le by (rewrite length_take; lia); rewrite take_take, Nat.min_l by lia.
      by rewrite drop_app_length' by (rewrite length_take; lia).
Qed.

(** An exact edit replaces the occurrences and nothing else.  When the text
    to replace occurs in the content, the match found is the exact one: it counts
    the occurrences and is unique exactly if there is one.  If it may be applied
    (one occurrence, or all are asked for) and the occurrences do not overlap,
    the result is the content cut at them and joined with the replacement. *)
Theorem exact_replacement content needle allow l :
  needle ≠ [] → allIndices content needle = Some l → l ≠ [] →
  ∃ m, findBestMatch content needle allow = Some (Some m)
    ∧ baseContent m = content ∧ count m = length l ∧ (unique m = true ↔ length l = 1)
    ∧ ((length l = 1 ∨ allow = true) → separated (length needle) 0 l →
       ∃ parts, content = Text.join needle parts ∧ length parts = S (count m)
         ∧ ∀ r, replace m content r = Text.join r parts).
Proof.
  intros Hne Hall Hl.
  destruct (allIndices_loop_spec (length content + 2) content needle 0) as (l' & Hl' & Hocc & Hs);
    [done|lia..|]; assert (l' = l) as -> by (unfold allIndices in Hall; congruence).
  unfold findBestMatch; rewrite Hall; cbn [mbind option_bind].
  destruct l as [|i l]; [done|]; cbn [length Nat.ltb Nat.leb].
  unfold buildMatchResult; cbn [length Nat.eqb].
  destruct ((1 <? S (length l)) && negb allow) eqn:Hamb; eexists; (split; [done|]); simpl;
    split_and!; try done.
  - apply andb_true_iff in Hamb as [?%Nat.ltb_lt _]; split; [done|lia].
  - apply andb_true_iff in Hamb as [?%Nat.ltb_lt ?%negb_true_iff]; intros [?| ->]; [lia|done].
  - rewrite Nat.eqb_eq; lia.
  - intros _ Hsep; destruct (splice_all_join needle content (i :: l)) as (parts & ? & ? & Hr);
      [done|done|by apply Forall_forall; intros j Hj; apply Hocc in Hj as [_ ?]|].
    exists parts; split_and!; [done|done|]; intros r; rewrite <- Hr, <- fold_reverse_splice.
    by rewrite <- (sort_descending (i :: l)).
Qed.

(** Overlapping occurrences are all replaced, so that a later splice cuts through
    an earlier one. *)
Theorem overlapping_replace_all_corrupts :
  ∃ m, findBestMatch (chars "aaab") (chars "aa") true = Some (Some m)
    ∧ replace m (baseContent m) (chars "xyz") = chars "xyzyzb".
Proof. eexists; split; [vm_compute; reflexivity|vm_compute; reflexivity]. Qed.

(** A match found only after trimming makes the trimmed text the base of the
    edit: white space far from the match is lost. *)
Theorem fuzzy_match_rewrites_other_lines :
  ∃ m, findBestMatch (chars "  keep" ++ newline :: chars "x  " ++ newline :: chars " y")
         (chars "x" ++ newline :: chars " y") false = Some (Some m)
    ∧ replace m (baseContent m) (chars "z") = chars "  keep" ++ newline :: chars "z".
Proof. eexists; split; [vm_compute; reflexivity|vm_compute; reflexivity]. Qed.

(** ** The diff *)

(** The lines of one side, read back from the body of a diff. *)
Definition side (mark : ascii) (d : list text) : list text :=
  omap (λ line, match line with
                | c :: t => if decide (c = " "%char ∨ c = mark) then Some t else None
                | [] => None
                end) d.

Lemma side_app mark d1 d2 : side mark (d1 ++ d2) = side mark d1 ++ side mark d2.
Proof. apply omap_app. Qed.


Lemma diff_at_side before after i :
  i < Nat.max (length before) (length after) →
  side "-" (diff_at before after i) = option_list (before !! i)
  ∧ side "+" (diff_at before after i) = option_list (after !! i).
Proof.
  intros Hi; unfold diff_at; case_decide as Heq.
  - rewrite <- Heq; destruct (before !! i) as [l|] eqn:Hb; [done|exfalso].
    apply lookup_ge_None_1 in Hb; symmetry in Heq; apply lookup_ge_None_1 in Heq; lia.
  - by destruct (before !! i), (after !! i).
Qed.

Lemma bind_lookup {A} (l : list A) k n :
  (seq k n ≫= λ i, option_list (l !! i)) = take n (drop k l).
Proof.
  revert k; induction n as [|n IH]; intros k; [done|]; cbn [seq mbind list_bind]; rewrite IH.
  destruct (l !! k) as [x|] eqn:Hx; simpl.
  - by rewrite (drop_S _ _ _ Hx).
  - apply lookup_ge_None_1 in Hx; rewrite !drop_ge by lia; by rewrite !take_nil.
Qed.

Lemma side_bind mark (f g : nat → list text) l :
  (∀ i, i ∈ l → side mark (f i) = g i) → side mark (l ≫= f) = l ≫= g.
Proof.
  induction l as [|i l IH]; intros Hf; [done|]; cbn [mbind list_bind]; rewrite side_app.
  rewrite Hf by left; f_equal; apply IH; intros; apply Hf; by right.
Qed.

(** The diff shows both versions.  Reading the body of the diff back (the
    common and the removed lines; the common and the added ones) gives the
    original and the patched content. *)
Theorem diff_faithful p original patched :
  let body := drop 3 (buildDiff p original patched) in
  Text.join [newline] (side "-" body) = original ∧ Text.join [newline] (side "+" body) = patched.
Proof.
  intros body; unfold body, buildDiff; cbv zeta; rewrite drop_app_ge by done.
  cbn [length Nat.sub]; rewrite drop_0.
  set (b := Text.split newline original); set (a := Text.split newline patched).
  assert (∀ i, i ∈ seq 0 (Nat.max (length b) (length a)) → i < Nat.max (length b) (length a)) as Hseq
    by (intros i; rewrite elem_of_seq; lia).
  rewrite (side_bind "-" _ (λ i, option_list (b !! i))) by (intros; by apply diff_at_side, Hseq).
  rewrite (side_bind "+" _ (λ i, option_list (a !! i))) by (intros; by apply diff_at_side, Hseq).
  rewrite !bind_lookup, !drop_0, !take_ge by lia; split; apply Text.join_split.
Qed.

(** ** Paths *)

(** A scoped path stays below the work directory.  With the scope [workdir] a
    path resolves exactly if the target is lexically at or below the work
    directory, and then to that target; without the scope it always resolves. *)
Theorem resolvePatchPath_confined cwd workdir p :
  let target := normalize (resolve_segments cwd [workdir; p]) in
  let root := normalize (resolve_segments cwd [workdir]) in
  resolvePatchPath cwd workdir p unrestricted = Ok (path_text target)
  ∧ (root `prefix_of` target →
     resolvePatchPath cwd workdir p workdir_scope = Ok (path_text target))
  ∧ (¬ root `prefix_of` target →
     resolvePatchPath cwd workdir p workdir_scope
     = Throw ("path escapes session workdir: " +:+ p)).
Proof.
  intros target root; unfold resolvePatchPath, resolve; fold target.
  pose proof (leads_up_relative cwd workdir (path_text target)) as Hup.
  rewrite (resolve_path_text cwd target) in Hup by apply resolve_normal; fold root in Hup.
  unfold leads_up in Hup; split_and!; [done| |].
  - intros Hp; apply Hup in Hp; by rewrite Hp.
  - intros Hn; destruct (_ || _ || _); [done|]; by destruct Hn; apply Hup.
Qed.

(** ** Edits of one file *)

(** What the tool relies on: a file has one content, under its path and under a
    handle opened on it; reading returns it, a write that succeeds sets it, and
    opening, closing and making a directory leave it alone. *)
Class PatchFilesLaws (F H : Type) `{!PatchFiles F H} := {
  view : F → string → option text;
  handle_path : H → string;
  open_law root target f r f' : fs_open root target f = (r, f') →
    (∀ p, view f' p = view f p) ∧ ∀ h, r = Ok h → handle_path h = target;
  readFile_law p f t : fs_readFile p f = Ok t → view f p = Some t;
  handle_readFile_law h f t : handle_readFile h f = Ok t → view f (handle_path h) = Some t;
  writeFile_law p c f f' : fs_writeFile p c f = (Ok (), f') → view f' p = Some c;
  replaceOpenFile_law h c f f' :
    replaceOpenFile h c f = (Ok (), f') → view f' (handle_path h) = Some c;
  close_law h f p : view (handle_close h f) p = view f p;
  mkdir_law d f r f' p : fs_mkdir d f = (r, f') → view f' p = view f p
}.

Section edits.
Context {F H : Type} `{!PatchFiles F H} `{!PatchFilesLaws F H} (cwd : string).

(** A handle, if there is one, is open on the target. *)
Definition handle_on (target : string) (handle : option H) : Prop :=
  ∀ h, handle = Some h → handle_path h = target.

Lemma openPatchHandle_law root target scope f r f' :
  openPatchHandle root target scope f = (r, f') →
  (∀ p, view f' p = view f p) ∧ ∀ handle, r = Ok handle → handle_on target handle.
Proof.
  destruct scope; simpl.
  - intros [= <- <-]; split; [done|]; by intros handle [= <-].
  - destruct (fs_open root target f) as [r1 f1] eqn:Ho; intros [= <- <-].
    apply open_law in Ho as [? Hh]; split; [done|].
    intros handle Hr h ->; destruct r1; simplify_eq/=; auto.
Qed.

Lemma readPatchFile_law target handle f t :
  handle_on target handle → readPatchFile target handle f = Ok t → view f target = Some t.
Proof.
  intros Hh; destruct handle as [h|]; simpl; [|apply readFile_law].
  rewrite <- (Hh h eq_refl); apply handle_readFile_law.
Qed.

Lemma writePatchFile_law target c handle f f' :
  handle_on target handle → writePatchFile target c handle f = (Ok (), f') →
  view f' target = Some c.
Proof.
  intros Hh; destruct handle as [h|]; simpl; [|apply writeFile_law].
  rewrite <- (Hh h eq_refl); apply replaceOpenFile_law.
Qed.

Lemma close_view handle (f : F) p : view (close handle f) p = view f p.
Proof. destruct handle; [apply close_law|done]. Qed.

Lemma store_patch_law target c handle f f' :
  handle_on target handle → store_patch target c handle f = (Ok (), f') → view f' target = Some c.
Proof.
  intros Hh; unfold store_patch; destruct (fs_mkdir _ f) as [[[]|e] f1]; [|done].
  by apply writePatchFile_law.
Qed.

(** Making the directory leaves the target, so only a failed write can have changed it. *)
Lemma store_patch_Throw target c handle f e f' :
  store_patch target c handle f = (Throw e, f') →
  view f' target = view f target ∨
  ∃ f1, view f1 target = view f target ∧ writePatchFile target c handle f1 = (Throw e, f').
Proof.
  unfold store_patch; destruct (fs_mkdir _ f) as [[[]|e'] f1] eqn:Hm; apply mkdir_law with (p := target) in Hm; intros Hw.
  - right; eauto.
  - left; by injection Hw as _ <-.
Qed.

(** A write of [content] over the text [old] of the target failed, and [f'] is what it left. *)
Definition write_failed (target : string) (handle : option H) (old content : text) (f' : F) : Prop :=
  ∃ f1 e f2, view f1 target = Some old ∧ writePatchFile target content handle f1 = (Throw e, f2) ∧ f' = close handle f2.

(** C30. An edit in replace mode is all or nothing as far as its writes succeed.  Whenever it
    returns, in either scope: if it reports success, the target held some text in which the
    match was found, now holds the match's text with the replacement, and passes the syntax
    check; if it reports an error, the target's content is what it was, except in two
    cases, in which it is what a failed write left: the write of the replaced text failed,
    which is not rolled back, or the replaced text was stored, failed the syntax check and the
    write that should have put the old text back failed. *)
Theorem replace_mode_all_or_nothing workdir params scope f res f' target :
  executeReplaceMode cwd workdir params scope f = Some (res, f') →
  resolvePatchPath cwd workdir (default "" (path params)) scope = Ok target →
  let found original m := view f target = Some original
       ∧ findBestMatch original (default [] (old_string params))
           (bool_decide (replace_all params = Some true)) = Some (Some m) in
  let patched m := replace m (baseContent m) (default [] (new_string params)) in
  if ok (details res)
  then ∃ original m, found original m ∧ view f' target = Some (patched m)
       ∧ ∃ handle f2, checkSyntax target f2 = Ok () ∧ f' = close handle f2
  else view f' target = view f target
     ∨ ∃ original m handle, found original m
         ∧ (write_failed target handle original (patched m) f'
            ∨ write_failed target handle (patched m) original f'
              ∧ ∃ f2 e, view f2 target = Some (patched m) ∧ checkSyntax target f2 = Throw e).
Proof.
  intros Hrun Hpath; unfold executeReplaceMode in Hrun; cbv zeta in Hrun |- *; rewrite Hpath in Hrun.
  destruct (String.eqb _ ""); [simplify_eq; by left|].
  case_bool_decide; [simplify_eq; by left|].
  destruct (openPatchHandle workdir target scope f) as [[handle|e] f1] eqn:Ho;
    apply openPatchHandle_law in Ho as [Hv Hh]; [|simplify_eq; by left].
  specialize (Hh _ eq_refl).
  destruct (readPatchFile target handle f1) as [original|e] eqn:Hread;
    [|simplify_eq/=; left; by rewrite close_view].
  apply readPatchFile_law in Hread as Hread1; [|done]; pose proof Hread1 as Hread2; rewrite Hv in Hread2.
  destruct (findBestMatch original _ _) as [[m|]|] eqn:Hm; simplify_eq/=; [|left; by rewrite close_view].
  case_match; [simplify_eq/=; left; by rewrite close_view|].
  destruct (store_patch _ _ handle f1) as [[[]|e] f2] eqn:Hst.
  - apply store_patch_law in Hst; [|done].
    destruct (checkSyntax target f2) as [[]|e] eqn:Hsyn.
    + simplify_eq/=; exists original, m; rewrite close_view; eauto 8.
    + destruct (writePatchFile _ original handle f2) as [[[]|e'] f3] eqn:Hw; simplify_eq/=.
      * left; rewrite close_view, Hread2; by eapply writePatchFile_law.
      * right; exists original, m, handle; split; [done|right]; unfold write_failed; eauto 10.
  - simplify_eq/=. apply store_patch_Throw in Hst as [Hs|(f1' & Hs & Hw)].
    + left; by rewrite close_view, Hs, Hv.
    + right; exists original, m, handle; split; [done|left]. rewrite Hread1 in Hs. unfold write_failed; eauto 10.
Qed.
End edits.

(** ** Reading back a printed patch *)

Definition print_hunk (h : V4AHunk) : list text :=
  (chars "@@ " ++ context h ++ chars " @@")
  :: (cons "-"%char <$> removals h) ++ (cons "+"%char <$> additions h).

Definition print_file (f : V4AFile) : list text :=
  (chars "*** Update File: " ++ file_path f) :: (hunks f ≫= print_hunk).

Definition print_patch (files : list V4AFile) : text :=
  Text.join [newline]
    (chars "*** Begin Patch" :: (files ≫= print_file) ++ [chars "*** End Patch"]).

(** What the format can carry: trimmed one-line names, and changed lines that do
    not themselves begin with the mark of their kind. *)
Definition plain (t : text) : Prop :=
  Text.trim t = t ∧ (newline ∉ t) ∧ no_terminator t = true.
Definition marked_ok (mark : ascii) (l : text) : Prop := (newline ∉ l) ∧ head l ≠ Some mark.

Definition hunk_ok (h : V4AHunk) : Prop :=
  plain (context h) ∧ Forall (marked_ok "-") (removals h) ∧ Forall (marked_ok "+") (additions h).
Definition file_ok (f : V4AFile) : Prop :=
  plain (file_path f) ∧ file_path f ≠ [] ∧ hunks f ≠ [] ∧ Forall hunk_ok (hunks f).

Lemma strip_literal_app literal t r :
  Text.toLowerCase t = chars literal → strip_literal literal (t ++ r) = Some r.
Proof.
  intros Ht; unfold strip_literal, Text.toLowerCase in *; rewrite fmap_app, Ht.
  rewrite (proj2 (Text.startsWith_spec _ _)) by eauto.
  rewrite <- Ht, length_fmap, drop_app_length; done.
Qed.

Lemma file_line_print p : plain p → p ≠ [] → file_line (chars "*** Update File: " ++ p) = Some p.
Proof.
  intros (Htrim & _ & Hterm) Hne; unfold file_line.
  change (chars "*** Update File: " ++ p)
    with (chars "***" ++ (" "%char :: chars "Update" ++ (" "%char :: chars "File:" ++ (" "%char :: p)))).
  rewrite (strip_literal_app "***") by reflexivity; cbn [mbind option_bind].
  change (Text.trimStart (" "%char :: chars "Update" ++ ?x)) with (chars "Update" ++ x).
  rewrite (strip_literal_app "update") by reflexivity; cbn [mbind option_bind].
  change (strip_ws1 (" "%char :: chars "File:" ++ ?x)) with (Some (chars "File:" ++ x)).
  cbn [mbind option_bind]; rewrite (strip_literal_app "file:") by reflexivity; cbn [mbind option_bind].
  change (is_ws " ") with true; cbv iota zeta.
  by rewrite Htrim, bool_decide_eq_false_2, Hterm by done.
Qed.

Lemma trim_spaces t : Text.trim (" "%char :: t ++ chars " ") = Text.trim t.
Proof.
  unfold Text.trim, Text.trimEnd, Text.trimStart.
  change (Text.drop_ws (" "%char :: t ++ chars " ")) with (Text.drop_ws (t ++ chars " ")).
  induction t as [|c t IH]; [done|]; cbn [Text.drop_ws app]; destruct (is_ws c); [exact IH|].
  by rewrite !reverse_cons, reverse_app.
Qed.

Lemma hunk_line_print c : plain c → hunk_line (chars "@@ " ++ c ++ chars " @@") = Some c.
Proof.
  intros (Htrim & _ & Hterm); unfold hunk_line.
  assert (Text.endsWith (chars "@@ " ++ c ++ chars " @@") (chars "@@") = true) as ->.
  { unfold Text.endsWith; rewrite !reverse_app; by apply Text.startsWith_spec; eexists. }
  change (Text.startsWith (chars "@@") (chars "@@ " ++ c ++ chars " @@")) with true.
  assert (length (chars "@@ " ++ c ++ chars " @@") = length c + 6) as Hlen.
  { rewrite !length_app; cbn; lia. }
  rewrite Hlen, (proj2 (Nat.leb_le _ _)) by lia; cbn [andb].
  assert (Text.slice (chars "@@ " ++ c ++ chars " @@") 2 (length c + 6 - 2)
    = " "%char :: c ++ chars " ") as ->.
  { unfold Text.slice; replace (length c + 6 - 2 - 2) with (length (" "%char :: c ++ chars " "))
      by (cbn; rewrite length_app; cbn; lia).
    change (drop 2 (chars "@@ " ++ c ++ chars " @@")) with (" "%char :: c ++ chars " " ++ chars "@@").
    change (" "%char :: c ++ chars " " ++ chars "@@") with ((" "%char :: c) ++ chars " " ++ chars "@@").
    rewrite (assoc_L (++)); apply take_app_length. }
  by rewrite trim_spaces, Htrim, Hterm.
Qed.

(** The other readings of a printed line fail at its first characters. *)
Lemma strip_stars c t : lower_char c ≠ "*"%char → strip_literal "***" (c :: t) = None.
Proof.
  intros Hc; unfold strip_literal, Text.toLowerCase; rewrite fmap_cons.
  change (chars "***") with ("*"%char :: chars "**"); cbn [Text.startsWith].
  by rewrite bool_decide_eq_false_2.
Qed.

Lemma other_line word c t :
  lower_char c ≠ "*"%char → marker_line word (c :: t) = false ∧ file_line (c :: t) = None.
Proof. intros Hc; unfold marker_line, file_line; by rewrite strip_stars. Qed.

Lemma hunk_other_line c t : c ≠ "@"%char → hunk_line (c :: t) = None.
Proof.
  intros Hc; unfold hunk_line; change (chars "@@") with ["@"%char; "@"%char] at 1.
  cbn [Text.startsWith]; by rewrite bool_decide_eq_false_2.
Qed.

Lemma marker_file_line word p :
  word = "begin" ∨ word = "end" → marker_line word (chars "*** Update File: " ++ p) = false.
Proof.
  intros Hw; unfold marker_line.
  change (chars "*** Update File: " ++ p) with (chars "***" ++ (chars " Update File: " ++ p)).
  rewrite (strip_literal_app "***") by reflexivity; cbn [mbind option_bind].
  change (Text.trimStart (chars " Update File: " ++ p)) with (chars "Update File: " ++ p).
  by destruct Hw as [-> | ->].
Qed.

Lemma update_last_snoc {A} (f : A → A) l x : update_last f (l ++ [x]) = l ++ [f x].
Proof. unfold update_last; by rewrite last_snoc, removelast_last. Qed.

(** The state inside the last hunk of the last file. *)
Definition in_last (files : list V4AFile) (p : text) (hs : list V4AHunk) (h : V4AHunk) : ParseState :=
  {| parsed := files ++ [{| file_path := p; hunks := hs ++ [h] |}]; in_hunk := true |}.

Lemma on_hunk_last f files p hs h : on_hunk f (in_last files p hs h) = in_last files p hs (f h).
Proof.
  unfold on_hunk, in_last; cbn [parsed in_hunk]; rewrite update_last_snoc; cbn [hunks file_path].
  by rewrite update_last_snoc.
Qed.

Lemma head_mark mark l :
  head l ≠ Some mark → Text.startsWith [mark; mark] (mark :: l) = false.
Proof.
  intros Hl; destruct l as [|c l]; cbn [Text.startsWith]; rewrite bool_decide_eq_true_2 by done; [done|].
  by rewrite bool_decide_eq_false_2 by (intros ->; by apply Hl).
Qed.

Lemma parse_removal files p hs h l :
  marked_ok "-" l →
  parse_line (in_last files p hs h) ("-"%char :: l) = in_last files p hs (add_removal l h).
Proof.
  intros [_ Hl]; unfold parse_line.
  rewrite (proj2 (other_line "" "-" l ltac:(done))), hunk_other_line by done.
  cbn [in_hunk in_last negb].
  change (chars "--") with ["-"%char; "-"%char]; rewrite head_mark by done.
  by rewrite <- on_hunk_last.
Qed.

Lemma parse_addition files p hs h l :
  marked_ok "+" l →
  parse_line (in_last files p hs h) ("+"%char :: l) = in_last files p hs (add_addition l h).
Proof.
  intros [_ Hl]; unfold parse_line.
  rewrite (proj2 (other_line "" "+" l ltac:(done))), hunk_other_line by done.
  cbn [in_hunk in_last negb].
  change (chars "++") with ["+"%char; "+"%char]; rewrite head_mark by done.
  by rewrite <- on_hunk_last.
Qed.

Lemma parse_lines_removals files p hs h rs rest :
  Forall (marked_ok "-") rs →
  parse_lines ((cons "-"%char <$> rs) ++ rest) (in_last files p hs h)
  = parse_lines rest (in_last files p hs
      {| context := context h; removals := removals h ++ rs; additions := additions h |}).
Proof.
  revert h; induction rs as [|r rs IH]; intros h Hrs.
  - rewrite app_nil_r; by destruct h.
  - apply Forall_cons in Hrs as [Hr Hrs]; rewrite fmap_cons; cbn [app parse_lines].
    rewrite (proj1 (other_line "begin" "-" r ltac:(done))), (proj1 (other_line "end" "-" r ltac:(done))).
    rewrite parse_removal, IH by done; simpl; by rewrite <- app_assoc.
Qed.

Lemma parse_lines_additions files p hs h ads rest :
  Forall (marked_ok "+") ads →
  parse_lines ((cons "+"%char <$> ads) ++ rest) (in_last files p hs h)
  = parse_lines rest (in_last files p hs
      {| context := context h; removals := removals h; additions := additions h ++ ads |}).
Proof.
  revert h; induction ads as [|r ads IH]; intros h Hads.
  - rewrite app_nil_r; by destruct h.
  - apply Forall_cons in Hads as [Hr Hads]; rewrite fmap_cons; cbn [app parse_lines].
    rewrite (proj1 (other_line "begin" "+" r ltac:(done))), (proj1 (other_line "end" "+" r ltac:(done))).
    rewrite parse_addition, IH by done; simpl; by rewrite <- app_assoc.
Qed.

Lemma parse_lines_hunk files p hs h b rest :
  hunk_ok h →
  parse_lines (print_hunk h ++ rest)
    {| parsed := files ++ [{| file_path := p; hunks := hs |}]; in_hunk := b |}
  = parse_lines rest (in_last files p hs h).
Proof.
  intros (Hc & Hr & Ha); unfold print_hunk; rewrite <- app_comm_cons, <- app_assoc.
  change (chars "@@ " ++ context h ++ chars " @@")
    with ("@"%char :: "@"%char :: " "%char :: context h ++ chars " @@").
  cbn [parse_lines].
  rewrite (proj1 (other_line "begin" "@" _ ltac:(done))), (proj1 (other_line "end" "@" _ ltac:(done))).
  unfold parse_line; rewrite (proj2 (other_line "" "@" _ ltac:(done))).
  change ("@"%char :: "@"%char :: " "%char :: context h ++ chars " @@")
    with (chars "@@ " ++ context h ++ chars " @@"); rewrite hunk_line_print by done.
  cbn [parsed]; destruct (files ++ [_]) as [|x l] eqn:Hne; [by destruct files|]; rewrite <- Hne.
  rewrite update_last_snoc; unfold add_hunk; cbn [file_path hunks].
  change (parse_lines (?x ++ ?y) {| parsed := files ++ [{| file_path := p; hunks := hs ++ [?h0] |}];
    in_hunk := true |}) with (parse_lines (x ++ y) (in_last files p hs h0)).
  rewrite parse_lines_removals, parse_lines_additions by done; simpl; by destruct h.
Qed.

Lemma parse_lines_hunks files p hs hs' b rest :
  Forall hunk_ok hs' → hs' ≠ [] →
  parse_lines ((hs' ≫= print_hunk) ++ rest)
    {| parsed := files ++ [{| file_path := p; hunks := hs |}]; in_hunk := b |}
  = parse_lines rest {| parsed := files ++ [{| file_path := p; hunks := hs ++ hs' |}]; in_hunk := true |}.
Proof.
  revert hs b; induction hs' as [|h hs' IH]; intros hs b Hok Hne; [done|].
  apply Forall_cons in Hok as [Hh Hok]; cbn [mbind list_bind]; rewrite <- app_assoc.
  rewrite parse_lines_hunk by done; unfold in_last.
  destruct hs' as [|h' hs']; [done|]; rewrite IH by done; by rewrite <- app_assoc.
Qed.

Lemma parse_lines_file files f b rest :
  file_ok f →
  parse_lines (print_file f ++ rest) {| parsed := files; in_hunk := b |}
  = parse_lines rest {| parsed := files ++ [f]; in_hunk := true |}.
Proof.
  intros (Hp & Hne & Hhs & Hok); unfold print_file; rewrite <- app_comm_cons; cbn [parse_lines].
  rewrite !marker_file_line by auto; unfold parse_line; rewrite file_line_print by done.
  cbn [parsed]; rewrite parse_lines_hunks by done; by destruct f.
Qed.

Lemma parse_lines_files files fs b rest :
  Forall file_ok fs →
  ∃ b', parse_lines ((fs ≫= print_file) ++ rest) {| parsed := files; in_hunk := b |}
        = parse_lines rest {| parsed := files ++ fs; in_hunk := b' |}.
Proof.
  revert files b; induction fs as [|f fs IH]; intros files b Hok; [exists b; by rewrite app_nil_r|].
  apply Forall_cons in Hok as [Hf Hok]; cbn [mbind list_bind]; rewrite <- app_assoc.
  rewrite parse_lines_file by done; destruct (IH (files ++ [f]) true Hok) as (b' & ->).
  exists b'; by rewrite <- app_assoc.
Qed.

Lemma no_newline_chars (t : text) :
  forallb (λ c, negb (bool_decide (c = newline))) t = true → newline ∉ t.
Proof.
  intros Ht Hin; rewrite forallb_forall in Ht.
  apply list_elem_of_In in Hin; apply Ht in Hin; by rewrite bool_decide_eq_true_2 in Hin.
Qed.

Lemma marked_no_newline mark (ls : list text) :
  mark ≠ newline → Forall (λ l, newline ∉ l) ls → Forall (λ l, newline ∉ l) (cons mark <$> ls).
Proof.
  intros Hm Hl; apply Forall_fmap; eapply Forall_impl; [exact Hl|].
  intros l Hnl; simpl; rewrite elem_of_cons; naive_solver.
Qed.

Lemma print_file_no_newline f : file_ok f → Forall (λ l, newline ∉ l) (print_file f).
Proof.
  intros ((_ & Hp & _) & _ & _ & Hhs); constructor.
  - rewrite elem_of_app; intros [Hin|]; [|done]; revert Hin; by apply no_newline_chars.
  - apply Forall_forall; intros l (h & Hl & Hh)%list_elem_of_bind; revert l Hl; apply Forall_forall.
    apply (proj1 (Forall_forall _ _) Hhs) in Hh as ((_ & Hc & _) & Hr & Ha); constructor.
    + rewrite !elem_of_app; intros [Hin|[|Hin]]; [|done|]; revert Hin; by apply no_newline_chars.
    + apply Forall_app; split; apply marked_no_newline; try done;
        (eapply Forall_impl; [eassumption|]; by intros ? [? _]).
Qed.

(** C35. A patch that the format can carry is read back as it was written.  For
    files with trimmed one-line paths and hunk contexts, at least one hunk, and
    changed lines that do not begin with their own mark, parsing the printed patch
    returns the files with their hunks, in order. *)
Theorem parse_print_patch files : Forall file_ok files → parseV4APatch (print_patch files) = files.
Proof.
  intros Hok; unfold parseV4APatch, print_patch; rewrite Text.split_join; [|done|].
  - cbn [parse_lines]; change (marker_line "begin" (chars "*** Begin Patch")) with true; cbv iota.
    destruct (parse_lines_files [] files false [chars "*** End Patch"] Hok) as (b' & ->).
    cbn [parse_lines]; change (marker_line "begin" (chars "*** End Patch")) with false.
    change (marker_line "end" (chars "*** End Patch")) with true; cbv iota; cbn [parsed app].
    apply List_filter_all; intros f Hf; rewrite Forall_forall in Hok.
    destruct (Hok f Hf) as (_ & _ & Hne & _); by destruct (hunks f).
  - constructor; [by apply no_newline_chars|].
    apply Forall_app; split; [|constructor; [by apply no_newline_chars|constructor]].
    apply Forall_forall; intros l (f & Hl & Hf)%list_elem_of_bind; revert l Hl; apply Forall_forall.
    by apply print_file_no_newline, (proj1 (Forall_forall _ _) Hok).
Qed.

(** A removed line that itself begins with a hyphen is not seen as removed. *)
Theorem dashed_removal_ignored :
  parseV4APatch (print_patch [{| file_path := chars "a.md";
    hunks := [{| context := chars "list"; removals := [chars "- item"]; additions := [] |}] |}])
  = [{| file_path := chars "a.md";
        hunks := [{| context := chars "list"; removals := []; additions := [] |}] |}].
Proof. vm_compute; reflexivity. Qed.

(** ** Concrete inputs *)

Module PatchSample.
(** A file system that is a table of contents, in which every syntax check and
    every write succeeds. *)
#[local] Instance table_files : PatchFiles (jsmap string text) string := {|
  fs_open := λ _ target f, (Ok target, f);
  fs_readFile := λ p f, match map_get p f with Some t => Ok t | None => Throw "ENOENT" end;
  handle_readFile := λ h f, match map_get h f with Some t => Ok t | None => Throw "ENOENT" end;
  fs_writeFile := λ p c f, (Ok (), map_set p c f);
  replaceOpenFile := λ h c f, (Ok (), map_set h c f);
  handle_close := λ _ f, f;
  fs_mkdir := λ _ f, (Ok (), f);
  json_parse := λ t, if Text.startsWith (chars "{") t then Ok () else Throw "Unexpected token";
  run_tsc := λ _ _, Ok ()
|}.

#[local] Instance table_laws : PatchFilesLaws (jsmap string text) string.
Proof.
  refine {| view := λ f p, map_get p f; handle_path := λ h, h |}; simpl.
  - intros root target f r f' [= <- <-]; split; [done|]; by intros h [= ->].
  - intros p f t; destruct (map_get p f); congruence.
  - intros h f t; destruct (map_get h f); congruence.
  - intros p c f f' [= <-]; apply map_get_set_eq.
  - intros h c f f' [= <-]; apply map_get_set_eq.
  - done.
  - by intros d f r f' p [= _ <-].
Defined.

Definition params (old new : string) : PatchParams :=
  {| mode := None; path := Some "cfg.json"; old_string := Some (chars old);
     new_string := Some (chars new); replace_all := None; patch := None |}.

Definition files : jsmap string text := [("/w/cfg.json", chars "{ x }")].

Lemma allIndices_exact_witness :
  ∃ l, allIndices (chars "abab") (chars "ab") = Some l
    ∧ (∀ i, i ∈ l ↔ Text.occurs_at (chars "ab") (chars "abab") i) ∧ StronglySorted lt l.
Proof. apply allIndices_exact; discriminate. Defined.

Lemma findBestMatch_returns_witness :
  ∃ r, findBestMatch (chars "a b") (chars " b ") false = Some r.
Proof.
  apply (findBestMatch_returns _ _ _ "b"%char); [|reflexivity].
  apply elem_of_cons; right; left.
Defined.

Lemma exact_replacement_witness :
  ∃ m, findBestMatch (chars "abcab") (chars "ab") true = Some (Some m) ∧ count m = 2.
Proof.
  destruct (exact_replacement (chars "abcab") (chars "ab") true [0; 3]) as (m & Hm & _ & Hc & _);
    [discriminate|vm_compute; reflexivity|discriminate|].
  exists m; split; [exact Hm|exact Hc].
Defined.

(** The failed syntax check leaves the file as it was. *)
Lemma replace_mode_all_or_nothing_witness :
  ∃ res f', executeReplaceMode "/" "/w" (params "{" "[") workdir_scope files = Some (res, f')
    ∧ ok (details res) = false ∧ view f' "/w/cfg.json" = view files "/w/cfg.json".
Proof.
  destruct (executeReplaceMode "/" "/w" (params "{" "[") workdir_scope files) as [[res f']|] eqn:Hrun;
    [|by vm_compute in Hrun].
  exists res, f'; split; [done|]; pose proof Hrun as Hcopy.
  assert (ok (details res) = false) as Hok
    by (vm_compute in Hcopy; injection Hcopy as <- _; reflexivity).
  split; [exact Hok|].
  pose proof (replace_mode_all_or_nothing "/" "/w" (params "{" "[") workdir_scope files res f'
    "/w/cfg.json" Hrun) as Hall; cbv zeta in Hall; rewrite Hok in Hall.
  assert (∀ handle old new f'', ¬ write_failed "/w/cfg.json" handle old new f'') as Hno
    by (intros [h|] old new f'' (? & ? & ? & _ & Hw & _); discriminate Hw).
  destruct Hall as [Hv|(? & ? & ? & _ & [Hw|[Hw _]])]; [vm_compute; reflexivity|exact Hv|by apply Hno in Hw..].
Defined.

Lemma parse_print_patch_witness :
  let file := {| file_path := chars "src/a.ts";
                 hunks := [{| context := chars "fn"; removals := [chars "x"]; additions := [chars "y"] |}] |} in
  parseV4APatch (print_patch [file]) = [file].
Proof.
  apply parse_print_patch; constructor; [|constructor].
  split_and!; [split_and!; [reflexivity|by apply no_newline_chars|reflexivity]|discriminate|discriminate|].
  apply Forall_singleton; split; [split_and!; [reflexivity|by apply no_newline_chars|reflexivity]|].
  split; apply Forall_singleton; (split; [by apply no_newline_chars|discriminate]).
Defined.
End PatchSample.
