(* ===== verification/BrowserSession.v ===== *)
(** * Browser sessions

    [BrowserSessionManager] of
    [ts/packages/brain-island/src/browser-session-manager.ts].  Records are shared
    objects: the session map and the continuation of a suspended [open] or [close]
    may hold the same one, or different ones.  They live in a heap, the map and
    the continuations hold addresses.  Each method is cut at its awaits into
    stages; a step relation lets the stages of different calls interleave.  The
    launcher, the CDP connection, the activity bridge and the clock enter as the
    values they return. *)

From stdpp Require Import relations.
From S2P Require Import Prelude JsString JsDate.
#[local] Open Scope Z_scope.

(** ** Data *)

Inductive BrowserSessionState := starting | ready | closing | closed | crashed.

Inductive BrowserCloseReason :=
| session_archived | agent_closed | idle_timeout | hard_lifetime | service_shutdown | restart
| launch_failed | manual.

#[global] Instance BrowserSessionState_eq_dec : EqDecision BrowserSessionState.
Proof. solve_decision. Defined.
#[global] Instance BrowserCloseReason_eq_dec : EqDecision BrowserCloseReason.
Proof. solve_decision. Defined.

Record BrowserOpenInput := {
  input_sessionId : string;
  input_agentId : string;
  input_profileId : string;
  input_wakeId : option string;
  input_parentActivityId : option string;
  input_now : option Z
}.

Record BrowserSessionLimits := {
  maxServiceSessions : Z;
  maxSessionsPerAgent : Z;
  maxSessionsPerProfile : option Z;
  idleTimeoutMs : Z;
  hardLifetimeMs : Z;
  startupTimeoutMs : Z;
  cdpCallTimeoutMs : Z;
  maxRefs : nat;
  consoleRingSize : nat
}.

Definition defaultLimits : BrowserSessionLimits :=
  {| maxServiceSessions := 8; maxSessionsPerAgent := 2; maxSessionsPerProfile := None;
     idleTimeoutMs := 10 * 60 * 1000; hardLifetimeMs := 60 * 60 * 1000;
     startupTimeoutMs := 15000; cdpCallTimeoutMs := 15000; maxRefs := 80; consoleRingSize := 100 |}.

(** [Partial<BrowserSessionLimits>] *)
Record PartialLimits := {
  given_maxServiceSessions : option Z;
  given_maxSessionsPerAgent : option Z;
  given_maxSessionsPerProfile : option Z;
  given_idleTimeoutMs : option Z;
  given_hardLifetimeMs : option Z;
  given_startupTimeoutMs : option Z;
  given_cdpCallTimeoutMs : option Z;
  given_maxRefs : option nat;
  given_consoleRingSize : option nat
}.

(** [{ ...defaultLimits, ...given }] *)
Definition merge_limits (given : PartialLimits) : BrowserSessionLimits :=
  {| maxServiceSessions := default (maxServiceSessions defaultLimits) (given_maxServiceSessions given);
     maxSessionsPerAgent := default (maxSessionsPerAgent defaultLimits) (given_maxSessionsPerAgent given);
     maxSessionsPerProfile := given_maxSessionsPerProfile given;
     idleTimeoutMs := default (idleTimeoutMs defaultLimits) (given_idleTimeoutMs given);
     hardLifetimeMs := default (hardLifetimeMs defaultLimits) (given_hardLifetimeMs given);
     startupTimeoutMs := default (startupTimeoutMs defaultLimits) (given_startupTimeoutMs given);
     cdpCallTimeoutMs := default (cdpCallTimeoutMs defaultLimits) (given_cdpCallTimeoutMs given);
     maxRefs := default (maxRefs defaultLimits) (given_maxRefs given);
     consoleRingSize := default (consoleRingSize defaultLimits) (given_consoleRingSize given) |}.

(** [killed] is set by a kill, not by the process ending on its own. *)
Record BrowserProcessHandle := { pid : option Z; killed : bool }.
Definition dummyKilledProcess : BrowserProcessHandle := {| pid := None; killed := true |}.

(** A connection is its identity; the closed one is [None]. *)
Definition CdpConnection : Type := option nat.
Definition closedCdpConnection : CdpConnection := None.

Record BrowserLaunchResult := {
  launched_process : BrowserProcessHandle;
  launched_cdp : CdpConnection;
  launched_userDataDir : string;
  launched_pageWebSocketUrl : option string
}.

Record BrowserRefEntry := { ref : string; target : string; role : option string; ref_name : option string }.

Record BrowserResolvedRef := {
  resolved_sessionId : string;
  resolved_generation : Z;
  resolved_ref : string;
  resolved_target : string
}.

Record BrowserSnapshot := {
  snapshot_sessionId : string;
  snapshot_generation : Z;
  snapshot_refs : list BrowserRefEntry;
  snapshot_createdAt : string
}.

Record BrowserSessionRecord := {
  sessionId : string;
  agentId : string;
  profileId : string;
  state : BrowserSessionState;
  process : BrowserProcessHandle;
  cdp : CdpConnection;
  userDataDir : string;
  pageWebSocketUrl : option string;
  generation : Z;
  refs : jsmap string BrowserRefEntry;
  console : list string;
  createdAt : Z;
  lastUsedAt : Z;
  lastNavigationAt : option Z;
  currentUrl : option string;
  title : option string;
  lastError : option string;
  closeReason : option BrowserCloseReason;
  activityId : option string
}.

Record BrowserSessionHandle := {
  handle_sessionId : string;
  handle_agentId : string;
  handle_profileId : string;
  handle_state : BrowserSessionState;
  handle_generation : Z;
  handle_cdp : CdpConnection
}.

Definition toHandle (r : BrowserSessionRecord) : BrowserSessionHandle :=
  {| handle_sessionId := sessionId r; handle_agentId := agentId r; handle_profileId := profileId r;
     handle_state := state r; handle_generation := generation r; handle_cdp := cdp r |}.

(** The manager: the records ever made, by address, and the session map. *)
Record BrowserSessionManager := {
  limits : BrowserSessionLimits;
  activityBridge : bool;
  heap : list BrowserSessionRecord;
  sessions : jsmap string nat
}.

Definition new_manager (l : option PartialLimits) (bridge : bool) : BrowserSessionManager :=
  {| limits := from_option merge_limits defaultLimits l; activityBridge := bridge; heap := []; sessions := [] |}.

(** ** Field updates *)

Definition set_heap (m : BrowserSessionManager) (h : list BrowserSessionRecord) :=
  {| limits := limits m; activityBridge := activityBridge m; heap := h; sessions := sessions m |}.
Definition set_sessions (m : BrowserSessionManager) (s : jsmap string nat) :=
  {| limits := limits m; activityBridge := activityBridge m; heap := heap m; sessions := s |}.

(** Mutating the record at an address. *)
Definition update_record (m : BrowserSessionManager) (a : nat)
    (f : BrowserSessionRecord → BrowserSessionRecord) : BrowserSessionManager :=
  set_heap m (alter f a (heap m)).

Definition set_state (s : BrowserSessionState) (r : BrowserSessionRecord) : BrowserSessionRecord :=
  {| sessionId := sessionId r; agentId := agentId r; profileId := profileId r; state := s;
     process := process r; cdp := cdp r; userDataDir := userDataDir r;
     pageWebSocketUrl := pageWebSocketUrl r; generation := generation r; refs := refs r;
     console := console r; createdAt := createdAt r; lastUsedAt := lastUsedAt r;
     lastNavigationAt := lastNavigationAt r; currentUrl := currentUrl r; title := title r;
     lastError := lastError r; closeReason := closeReason r; activityId := activityId r |}.

Definition set_lastUsedAt (t : Z) (r : BrowserSessionRecord) : BrowserSessionRecord :=
  {| sessionId := sessionId r; agentId := agentId r; profileId := profileId r; state := state r;
     process := process r; cdp := cdp r; userDataDir := userDataDir r;
     pageWebSocketUrl := pageWebSocketUrl r; generation := generation r; refs := refs r;
     console := console r; createdAt := createdAt r; lastUsedAt := t;
     lastNavigationAt := lastNavigationAt r; currentUrl := currentUrl r; title := title r;
     lastError := lastError r; closeReason := closeReason r; activityId := activityId r |}.

Definition set_launched (l : BrowserLaunchResult) (now : Z) (r : BrowserSessionRecord)
    : BrowserSessionRecord :=
  {| sessionId := sessionId r; agentId := agentId r; profileId := profileId r; state := ready;
     process := launched_process l; cdp := launched_cdp l; userDataDir := launched_userDataDir l;
     pageWebSocketUrl := launched_pageWebSocketUrl l; generation := generation r; refs := refs r;
     console := console r; createdAt := createdAt r; lastUsedAt := now;
     lastNavigationAt := lastNavigationAt r; currentUrl := currentUrl r; title := title r;
     lastError := lastError r; closeReason := closeReason r; activityId := activityId r |}.

Definition set_activityId (i : string) (r : BrowserSessionRecord) : BrowserSessionRecord :=
  {| sessionId := sessionId r; agentId := agentId r; profileId := profileId r; state := state r;
     process := process r; cdp := cdp r; userDataDir := userDataDir r;
     pageWebSocketUrl := pageWebSocketUrl r; generation := generation r; refs := refs r;
     console := console r; createdAt := createdAt r; lastUsedAt := lastUsedAt r;
     lastNavigationAt := lastNavigationAt r; currentUrl := currentUrl r; title := title r;
     lastError := lastError r; closeReason := closeReason r; activityId := Some i |}.

(** State, error, reason and references, as [close] and a failed launch set them. *)
Definition set_ending (s : BrowserSessionState) (e : option string) (why : option BrowserCloseReason)
    (rs : jsmap string BrowserRefEntry) (p : BrowserProcessHandle) (r : BrowserSessionRecord)
    : BrowserSessionRecord :=
  {| sessionId := sessionId r; agentId := agentId r; profileId := profileId r; state := s;
     process := p; cdp := cdp r; userDataDir := userDataDir r;
     pageWebSocketUrl := pageWebSocketUrl r; generation := generation r; refs := rs;
     console := console r; createdAt := createdAt r; lastUsedAt := lastUsedAt r;
     lastNavigationAt := lastNavigationAt r; currentUrl := currentUrl r; title := title r;
     lastError := e; closeReason := why; activityId := activityId r |}.

Definition set_refs (g : Z) (rs : jsmap string BrowserRefEntry) (t : Z) (r : BrowserSessionRecord)
    : BrowserSessionRecord :=
  {| sessionId := sessionId r; agentId := agentId r; profileId := profileId r; state := state r;
     process := process r; cdp := cdp r; userDataDir := userDataDir r;
     pageWebSocketUrl := pageWebSocketUrl r; generation := g; refs := rs;
     console := console r; createdAt := createdAt r; lastUsedAt := t;
     lastNavigationAt := lastNavigationAt r; currentUrl := currentUrl r; title := title r;
     lastError := lastError r; closeReason := closeReason r; activityId := activityId r |}.

Definition set_page (url : option string) (t : option string) (at_ : option Z) (c : list string)
    (r : BrowserSessionRecord) : BrowserSessionRecord :=
  {| sessionId := sessionId r; agentId := agentId r; profileId := profileId r; state := state r;
     process := process r; cdp := cdp r; userDataDir := userDataDir r;
     pageWebSocketUrl := pageWebSocketUrl r; generation := generation r; refs := refs r;
     console := c; createdAt := createdAt r; lastUsedAt := lastUsedAt r;
     lastNavigationAt := at_; currentUrl := url; title := t;
     lastError := lastError r; closeReason := closeReason r; activityId := activityId r |}.

(** ** Lookups and capacity *)

Definition lookup_session (m : BrowserSessionManager) (s : string)
    : option (nat * BrowserSessionRecord) :=
  a ← map_get s (sessions m); r ← heap m !! a; Some (a, r).

Definition session_records (m : BrowserSessionManager) : list BrowserSessionRecord :=
  omap (λ a, heap m !! a) (map_values (sessions m)).

Definition is_active (r : BrowserSessionRecord) : bool :=
  negb (bool_decide (state r = closed)) && negb (bool_decide (state r = closing)).

Definition active_where (p : BrowserSessionRecord → bool) (m : BrowserSessionManager) : Z :=
  Z.of_nat (length (List.filter p (List.filter is_active (session_records m)))).

Definition of_agent (x : string) (r : BrowserSessionRecord) : bool := bool_decide (agentId r = x).
Definition of_profile (x : string) (r : BrowserSessionRecord) : bool := bool_decide (profileId r = x).

Definition assertCapacity (m : BrowserSessionManager) (input : BrowserOpenInput) : result unit :=
  if maxServiceSessions (limits m) <=? active_where (λ _, true) m
  then Throw "browser session service limit reached"
  else if maxSessionsPerAgent (limits m) <=? active_where (of_agent (input_agentId input)) m
  then Throw "browser session agent limit reached"
  else
    match maxSessionsPerProfile (limits m) with
    | Some max =>
        if max <=? active_where (of_profile (input_profileId input)) m
        then Throw "browser session profile limit reached" else Ok ()
    | None => Ok ()
    end.

Definition requireReady (m : BrowserSessionManager) (s : string)
    : result (nat * BrowserSessionRecord) :=
  match lookup_session m s with
  | Some (a, r) =>
      if bool_decide (state r = ready) then Ok (a, r)
      else Throw ("browser session is not ready: " +:+ s)
  | None => Throw ("browser session is not ready: " +:+ s)
  end.

(** ** Opening, stage by stage *)

Inductive open_outcome := Reused (h : BrowserSessionHandle) | Launch (a : nat).

Definition pending_record (input : BrowserOpenInput) (now : Z) : BrowserSessionRecord :=
  {| sessionId := input_sessionId input; agentId := input_agentId input;
     profileId := input_profileId input; state := starting; process := dummyKilledProcess;
     cdp := closedCdpConnection; userDataDir := ""; pageWebSocketUrl := None; generation := 0;
     refs := []; console := []; createdAt := now; lastUsedAt := now; lastNavigationAt := None;
     currentUrl := None; title := None; lastError := None; closeReason := None; activityId := None |}.

(** Up to the launcher's promise; [clock] is the clock's reading. *)
Definition open_begin (m : BrowserSessionManager) (input : BrowserOpenInput) (clock : Z)
    : result open_outcome * BrowserSessionManager :=
  let now := default clock (input_now input) in
  let launch :=
    match assertCapacity m input with
    | Throw e => (Throw e, m)
    | Ok _ =>
        let a := length (heap m) in
        (Ok (Launch a),
         set_sessions (set_heap m (heap m ++ [pending_record input now]))
           (map_set (input_sessionId input) a (sessions m)))
    end in
  match lookup_session m (input_sessionId input) with
  | Some (a, existing) =>
      if bool_decide (state existing = ready) && negb (killed (process existing))
      then let r := set_lastUsedAt now existing in
           (Ok (Reused (toHandle r)), update_record m a (λ _, r))
      else launch
  | None => launch
  end.

(** The launcher resolved: the pending record becomes ready. *)
Definition open_launched (m : BrowserSessionManager) (a : nat) (l : BrowserLaunchResult) (now : Z)
    : BrowserSessionManager :=
  update_record m a (set_launched l now).

(** The activity bridge answered; its failure is ignored. *)
Definition open_activity (m : BrowserSessionManager) (a : nat) (i : string) (began : bool)
    : BrowserSessionManager :=
  if began then update_record m a (set_activityId i) else m.

(** ** Closing, stage by stage *)

Record close_call := {
  close_addr : nat;
  close_session : string;
  close_why : BrowserCloseReason;
  close_failed : bool
}.

Definition close_begin (m : BrowserSessionManager) (s : string) (why : BrowserCloseReason)
    : option close_call * BrowserSessionManager :=
  match lookup_session m s with
  | None => (None, m)
  | Some (a, r) =>
      (Some {| close_addr := a; close_session := s; close_why := why;
               close_failed := bool_decide (state r = crashed) || bool_decide (why = launch_failed) |},
       update_record m a (λ r, set_ending closing (lastError r) (Some why) [] (process r) r))
  end.

Definition kill (p : BrowserProcessHandle) : BrowserProcessHandle := {| pid := pid p; killed := true |}.

(** [cdp.close()] settled, possibly with an error: the process is killed. *)
Definition close_cdp_done (m : BrowserSessionManager) (c : close_call) (e : option string)
    : BrowserSessionManager :=
  update_record m (close_addr c) (λ r,
    set_ending (state r) (or_else e (lastError r)) (closeReason r) (refs r)
      (if killed (process r) then process r else kill (process r)) r).

(** The user data directory, if any, is removed. *)
Definition close_closed (m : BrowserSessionManager) (c : close_call) : BrowserSessionManager :=
  update_record m (close_addr c) (set_state closed).

Definition close_finish (m : BrowserSessionManager) (c : close_call) : BrowserSessionManager :=
  set_sessions m (map_delete (close_session c) (sessions m)).

(** A failed launch marks the pending record and closes whatever the session maps to. *)
Definition open_failed (m : BrowserSessionManager) (a : nat) (s : string) (e : string)
    : option close_call * BrowserSessionManager :=
  close_begin (update_record m a (λ r,
    set_ending crashed (Some e) (Some launch_failed) (refs r) (process r) r)) s launch_failed.

(** ** References, navigation and console *)

Definition snapshot (m : BrowserSessionManager) (s : string) : option BrowserSnapshot :=
  '(_, r) ← lookup_session m s;
  if bool_decide (state r = ready)
  then Some {| snapshot_sessionId := s; snapshot_generation := generation r;
               snapshot_refs := map_values (refs r);
               snapshot_createdAt := str (iso_text (lastUsedAt r)) |}
  else None.

Definition refs_map (l : list BrowserRefEntry) : jsmap string BrowserRefEntry :=
  map_of_entries ((λ e, (ref e, e)) <$> l).

Definition storeRefs (m : BrowserSessionManager) (s : string) (entries : list BrowserRefEntry)
    (now : Z) : result (option BrowserSnapshot) * BrowserSessionManager :=
  match requireReady m s with
  | Throw e => (Throw e, m)
  | Ok (a, r) =>
      let m' := update_record m a
        (set_refs (generation r + 1) (refs_map (take (maxRefs (limits m)) entries)) now) in
      (Ok (snapshot m' s), m')
  end.

Definition invalidateRefs (m : BrowserSessionManager) (s : string) : BrowserSessionManager :=
  match lookup_session m s with
  | None => m
  | Some (a, r) => update_record m a (set_refs (generation r + 1) [] (lastUsedAt r))
  end.

Definition resolveRef (m : BrowserSessionManager) (s : string) (g : Z) (name : string)
    : option BrowserResolvedRef :=
  '(_, r) ← lookup_session m s;
  if negb (generation r =? g) then None
  else
    entry ← map_get name (refs r);
    Some {| resolved_sessionId := s; resolved_generation := g; resolved_ref := name;
            resolved_target := target entry |}.

Definition recordNavigation (m : BrowserSessionManager) (s url : string) (t : option string) (now : Z)
    : result unit * BrowserSessionManager :=
  match requireReady m s with
  | Throw e => (Throw e, m)
  | Ok (a, r) =>
      (Ok (), invalidateRefs (update_record m a (set_page (Some url) t (Some now) (console r))) s)
  end.

(** [a.slice(-n)]: the last [n] elements, and all of them for [n = 0] *)
Definition slice_last {A} (n : nat) (l : list A) : list A :=
  if (n =? 0)%nat then l else drop (length l - n) l.

Definition recordConsole (m : BrowserSessionManager) (s line : string)
    : result unit * BrowserSessionManager :=
  match requireReady m s with
  | Throw e => (Throw e, m)
  | Ok (a, r) =>
      (Ok (), update_record m a (set_page (currentUrl r) (title r) (lastNavigationAt r)
                (slice_last (consoleRingSize (limits m)) (console r ++ [line]))))
  end.

(** ** Whole calls, with no other call in between *)

Section WholeCalls.
(** What [cdp.close()] of the record at an address throws, if it does. *)
Context (cdpError : nat → option string).

(** [close] from the settled [cdp.close()] to the end. *)
Definition close_tail (m : BrowserSessionManager) (c : close_call) : BrowserSessionManager :=
  close_finish (close_closed (close_cdp_done m c (cdpError (close_addr c))) c) c.

Definition close (m : BrowserSessionManager) (s : string) (why : BrowserCloseReason)
    : BrowserSessionManager :=
  match close_begin m s why with
  | (None, m1) => m1
  | (Some c, m1) => close_tail m1 c
  end.

Definition sweep_reason (l : BrowserSessionLimits) (now : Z) (r : BrowserSessionRecord)
    : option BrowserCloseReason :=
  if hardLifetimeMs l <=? now - createdAt r then Some hard_lifetime
  else if idleTimeoutMs l <=? now - lastUsedAt r then Some idle_timeout
  else None.

(** The reasons counted, in the order they first occur. *)
Definition count_reason (why : BrowserCloseReason) (reasons : jsmap BrowserCloseReason nat) :=
  map_set why (S (default 0%nat (map_get why reasons))) reasons.

Record BrowserCleanupSummary := { closed_count : nat; reasons : jsmap BrowserCloseReason nat }.

(** Over the records the map held at the start, as they are when their turn comes. *)
Fixpoint sweep_loop (now : Z) (addrs : list nat) (m : BrowserSessionManager)
    (counts : jsmap BrowserCloseReason nat) : jsmap BrowserCloseReason nat * BrowserSessionManager :=
  match addrs with
  | [] => (counts, m)
  | a :: addrs' =>
      match heap m !! a with
      | Some r =>
          match sweep_reason (limits m) now r with
          | Some why => sweep_loop now addrs' (close m (sessionId r) why) (count_reason why counts)
          | None => sweep_loop now addrs' m counts
          end
      | None => sweep_loop now addrs' m counts
      end
  end.

Definition sweep (m : BrowserSessionManager) (now : Z)
    : BrowserCleanupSummary * BrowserSessionManager :=
  let '(counts, m') := sweep_loop now (map_values (sessions m)) m [] in
  ({| closed_count := sum_list (map_values counts); reasons := counts |}, m').

(** [Promise.all] of closes: all begin, in order, before any goes on. *)
Fixpoint close_begin_all (m : BrowserSessionManager) (ids : list string) (why : BrowserCloseReason)
    : list close_call * BrowserSessionManager :=
  match ids with
  | [] => ([], m)
  | s :: ids' =>
      let '(c, m1) := close_begin m s why in
      let '(cs, m2) := close_begin_all m1 ids' why in
      (match c with Some c => c :: cs | None => cs end, m2)
  end.

Definition close_sessions (m : BrowserSessionManager) (ids : list string) (why : BrowserCloseReason)
    : BrowserSessionManager :=
  let '(cs, m1) := close_begin_all m ids why in fold_left close_tail cs m1.

Definition closeAllForAgent (m : BrowserSessionManager) (agent : string) (why : BrowserCloseReason)
    : BrowserSessionManager :=
  close_sessions m (sessionId <$> List.filter (of_agent agent) (session_records m)) why.

Definition closeAll (m : BrowserSessionManager) (why : BrowserCloseReason)
    : BrowserCleanupSummary * BrowserSessionManager :=
  let ids := sessionId <$> session_records m in
  ({| closed_count := length ids;
      reasons := if (0 <? length ids)%nat then [(why, length ids)] else [] |},
   close_sessions m ids why).
End WholeCalls.

(** ** Diagnostics *)

Record BrowserSessionDiagnostics := {
  diag_sessionId : string; diag_agentId : string; diag_profileId : string;
  diag_state : BrowserSessionState; diag_generation : Z; diag_refCount : nat;
  diag_consoleCount : nat; diag_pid : option Z; diag_currentUrl : option string;
  diag_title : option string; diag_createdAt : string; diag_lastUsedAt : string;
  diag_lastNavigationAt : option string; diag_lastError : option string;
  diag_closeReason : option BrowserCloseReason
}.

Definition diagnose (r : BrowserSessionRecord) : BrowserSessionDiagnostics :=
  {| diag_sessionId := sessionId r; diag_agentId := agentId r; diag_profileId := profileId r;
     diag_state := state r; diag_generation := generation r; diag_refCount := length (refs r);
     diag_consoleCount := length (console r); diag_pid := pid (process r);
     diag_currentUrl := currentUrl r; diag_title := title r;
     diag_createdAt := str (iso_text (createdAt r)); diag_lastUsedAt := str (iso_text (lastUsedAt r));
     diag_lastNavigationAt := (λ t, str (iso_text t)) <$> lastNavigationAt r;
     diag_lastError := lastError r; diag_closeReason := closeReason r |}.

(** [activeSessions], [limits] and [sessions] *)
Definition diagnostics (m : BrowserSessionManager)
    : nat * BrowserSessionLimits * list BrowserSessionDiagnostics :=
  (length (sessions m), limits m, diagnose <$> session_records m).

(** ** Interleaving *)

(** What a suspended call is waiting for. *)
Inductive task :=
| Launching (a : nat) (s : string)
| Beginning (a : nat) (s i : string)
| ClosingCdp (c : close_call)
| RemovingData (c : close_call)
| FinishingActivity (c : close_call).

Definition task_session (t : task) : string :=
  match t with
  | Launching _ s | Beginning _ s _ => s
  | ClosingCdp c | RemovingData c | FinishingActivity c => close_session c
  end.
Definition task_addr (t : task) : nat :=
  match t with
  | Launching a _ | Beginning a _ _ => a
  | ClosingCdp c | RemovingData c | FinishingActivity c => close_addr c
  end.

(** From the removed directory to the next await or the end of [close]. *)
Definition close_rest (m : BrowserSessionManager) (c : close_call)
    : list task * BrowserSessionManager :=
  let m1 := close_closed m c in
  match heap m1 !! close_addr c ≫= activityId with
  | Some _ => if activityBridge m then ([FinishingActivity c], m1) else ([], close_finish m1 c)
  | None => ([], close_finish m1 c)
  end.

(** From the settled [cdp.close()] to the next await. *)
Definition close_after_cdp (m : BrowserSessionManager) (c : close_call) (e : option string)
    : list task * BrowserSessionManager :=
  let m1 := close_cdp_done m c e in
  if truthy (userDataDir <$> heap m1 !! close_addr c) then ([RemovingData c], m1)
  else close_rest m1 c.

Record system := { mgr : BrowserSessionManager; tasks : list task }.

Definition closing_task (c : option close_call) : list task :=
  match c with Some c => [ClosingCdp c] | None => [] end.

(** One stage of one call.  [may_start s ts] says whether a call that opens or
    closes session [s] may start while the calls [ts] are suspended. *)
Inductive step (may_start : string → list task → Prop) (st : system) : system → Prop :=
| step_open input clock a m' :
    may_start (input_sessionId input) (tasks st) →
    open_begin (mgr st) input clock = (Ok (Launch a), m') →
    step may_start st {| mgr := m'; tasks := Launching a (input_sessionId input) :: tasks st |}
| step_reuse input clock h m' :
    open_begin (mgr st) input clock = (Ok (Reused h), m') →
    step may_start st {| mgr := m'; tasks := tasks st |}
| step_launched a s l now i rest :
    tasks st ≡ₚ Launching a s :: rest → killed (launched_process l) = false →
    step may_start st
      {| mgr := open_launched (mgr st) a l now;
         tasks := (if activityBridge (mgr st) then [Beginning a s i] else []) ++ rest |}
| step_began a s i began rest :
    tasks st ≡ₚ Beginning a s i :: rest →
    step may_start st {| mgr := open_activity (mgr st) a i began; tasks := rest |}
| step_launch_failed a s e rest :
    tasks st ≡ₚ Launching a s :: rest →
    step may_start st
      {| mgr := (open_failed (mgr st) a s e).2;
         tasks := closing_task (open_failed (mgr st) a s e).1 ++ rest |}
| step_close s why :
    may_start s (tasks st) →
    step may_start st
      {| mgr := (close_begin (mgr st) s why).2;
         tasks := closing_task (close_begin (mgr st) s why).1 ++ tasks st |}
| step_cdp_closed c e rest :
    tasks st ≡ₚ ClosingCdp c :: rest →
    step may_start st
      {| mgr := (close_after_cdp (mgr st) c e).2; tasks := (close_after_cdp (mgr st) c e).1 ++ rest |}
| step_removed c rest :
    tasks st ≡ₚ RemovingData c :: rest →
    step may_start st {| mgr := (close_rest (mgr st) c).2; tasks := (close_rest (mgr st) c).1 ++ rest |}
| step_finished c rest :
    tasks st ≡ₚ FinishingActivity c :: rest →
    step may_start st {| mgr := close_finish (mgr st) c; tasks := rest |}
| step_storeRefs s entries now :
    step may_start st {| mgr := (storeRefs (mgr st) s entries now).2; tasks := tasks st |}
| step_invalidate s : step may_start st {| mgr := invalidateRefs (mgr st) s; tasks := tasks st |}
| step_navigate s url t now :
    step may_start st {| mgr := (recordNavigation (mgr st) s url t now).2; tasks := tasks st |}
| step_console s line :
    step may_start st {| mgr := (recordConsole (mgr st) s line).2; tasks := tasks st |}.

Inductive reachable (may_start : string → list task → Prop) (l : option PartialLimits)
    (bridge : bool) : system → Prop :=
| reachable_new : reachable may_start l bridge {| mgr := new_manager l bridge; tasks := [] |}
| reachable_step st st' :
    reachable may_start l bridge st → step may_start st st' → reachable may_start l bridge st'.

(** Calls on one session wait for each other; calls on different sessions do not. *)
Definition serialized (s : string) (ts : list task) : Prop := s ∉ task_session <$> ts.
(** Anything may start at any time. *)
Definition unrestricted (s : string) (ts : list task) : Prop := True.

(** ** Counting active sessions *)

Definition counted (p : BrowserSessionRecord → bool) (r : BrowserSessionRecord) : bool :=
  is_active r && p r.

(** The number of addresses whose record counts. *)
Definition count_at (p : BrowserSessionRecord → bool) (h : list BrowserSessionRecord) (vs : list nat)
    : nat :=
  length (List.filter p (List.filter is_active (omap (λ a, h !! a) vs))).

Lemma count_at_cons p h v vs :
  count_at p h (v :: vs)
  = ((match h !! v with Some r => if counted p r then 1 else 0 | None => 0 end) + count_at p h vs)%nat.
Proof.
  unfold count_at, counted; simpl; destruct (h !! v) as [r|]; simpl; [|done].
  destruct (is_active r); simpl; [|done]; by destruct (p r).
Qed.

Lemma count_at_alter p f a h vs :
  (∀ r, h !! a = Some r → counted p (f r) = true → counted p r = true) →
  (count_at p (alter f a h) vs ≤ count_at p h vs)%nat.
Proof.
  intros Hf; induction vs as [|v vs IH]; [done|]; rewrite !count_at_cons.
  destruct (decide (v = a)) as [->|Hne].
  - rewrite list_lookup_alter_eq; destruct (h !! a) as [r|] eqn:Hr; simpl; [|done].
    specialize (Hf r eq_refl); destruct (counted p (f r)), (counted p r); simpl; lia || naive_solver.
  - rewrite list_lookup_alter_ne by done; lia.
Qed.

Lemma count_at_delete p h s (m : jsmap string nat) :
  (count_at p h (map_values (map_delete s m)) ≤ count_at p h (map_values m))%nat.
Proof.
  induction m as [|[k v] m IH]; [done|]; cbn [map_delete]; unfold map_values in *.
  case_decide; cbn [fmap list_fmap snd]; rewrite !count_at_cons; lia.
Qed.

Lemma count_at_snoc p h r vs v :
  Forall (λ a, a < length h)%nat vs → v = length h →
  count_at p (h ++ [r]) (vs ++ [v]) = (count_at p h vs + if counted p r then 1 else 0)%nat.
Proof.
  intros Hvs ->; induction vs as [|a vs IH]; cbn [app].
  - rewrite count_at_cons, lookup_app_r, Nat.sub_diag by lia; cbn.
    destruct (counted p r); lia.
  - apply Forall_cons in Hvs as [Ha Hvs]; rewrite !count_at_cons, IH, lookup_app_l by done; lia.
Qed.

Lemma active_where_count p m : active_where p m = Z.of_nat (count_at p (heap m) (map_values (sessions m))).
Proof. done. Qed.

(** ** The invariant of serialized calls *)

Definition task_ok (t : task) (r : BrowserSessionRecord) : Prop :=
  match t with
  | Launching _ _ => state r = starting ∧ killed (process r) = true
  | Beginning _ _ _ => state r = ready ∧ killed (process r) = false
  | ClosingCdp _ => state r = closing
  | RemovingData _ => state r = closing ∧ killed (process r) = true
  | FinishingActivity _ => state r = closed ∧ killed (process r) = true
  end.

(** The session limits, for any agent and profile. *)
Definition within_limits (m : BrowserSessionManager) : Prop :=
  active_where (λ _, true) m <= Z.max 0 (maxServiceSessions (limits m))
  ∧ (∀ x, active_where (of_agent x) m <= Z.max 0 (maxSessionsPerAgent (limits m)))
  ∧ (∀ x max, maxSessionsPerProfile (limits m) = Some max →
       active_where (of_profile x) m <= Z.max 0 max).

Record invariant (m : BrowserSessionManager) (ts : list task) : Prop := {
  inv_map : map_wf (sessions m);
  inv_addr : ∀ s a, map_get s (sessions m) = Some a → ∃ r, heap m !! a = Some r ∧ sessionId r = s;
  inv_tasks : NoDup (task_session <$> ts);
  inv_task : ∀ t, t ∈ ts → map_get (task_session t) (sessions m) = Some (task_addr t)
    ∧ ∃ r, heap m !! task_addr t = Some r ∧ task_ok t r;
  inv_idle : ∀ s a r, map_get s (sessions m) = Some a → heap m !! a = Some r →
    s ∉ task_session <$> ts → state r = ready ∧ killed (process r) = false;
  inv_owned : ∀ a r, heap m !! a = Some r → killed (process r) = false →
    map_get (sessionId r) (sessions m) = Some a;
  inv_limits : within_limits m
}.

Lemma invariant_perm m ts ts' : ts ≡ₚ ts' → invariant m ts → invariant m ts'.
Proof.
  intros Hp [H1 H2 H3 H4 H5 H6 H7]; split; try done.
  - by rewrite <- Hp.
  - intros t Ht; apply H4; by rewrite Hp.
  - intros s a r ?? Hs; apply (H5 s a r); [done|done|]; by rewrite Hp.
Qed.

Lemma invariant_new l bridge : invariant (new_manager l bridge) [].
Proof.
  split; try done; [constructor|constructor|by intros t ?%not_elem_of_nil|].
  unfold within_limits, active_where; split_and!; intros; simpl; lia.
Qed.

(** The map gives different sessions different records. *)
Lemma addr_inj m ts s1 s2 a :
  invariant m ts → map_get s1 (sessions m) = Some a → map_get s2 (sessions m) = Some a → s1 = s2.
Proof. intros Hi H1 H2; apply (inv_addr _ _ Hi) in H1, H2; naive_solver. Qed.

Lemma within_limits_alter m a f :
  (∀ r, heap m !! a = Some r → agentId (f r) = agentId r ∧ profileId (f r) = profileId r
     ∧ (is_active (f r) = true → is_active r = true)) →
  within_limits m → within_limits (update_record m a f).
Proof.
  intros Hf (H1 & H2 & H3).
  assert (∀ p, (∀ r r', agentId r = agentId r' → profileId r = profileId r' → p r = p r') →
    active_where p (update_record m a f) <= active_where p m) as Hle.
  { intros p Hp; rewrite !active_where_count; apply inj_le, count_at_alter.
    intros r Hr; destruct (Hf r Hr) as (Ha & Hpr & Hact); unfold counted.
    rewrite (Hp (f r) r) by done; rewrite !andb_true_iff; naive_solver. }
  split_and!.
  - etrans; [by apply Hle|done].
  - intros x; etrans; [|apply H2]; apply Hle; intros r r' Ha _; unfold of_agent; by rewrite Ha.
  - intros x max Hmax; etrans; [|by apply (H3 x max)].
    apply Hle; intros r r' _ Ha; unfold of_profile; by rewrite Ha.
Qed.

(** The record of one session changes together with that session's suspended call. *)
Lemma invariant_update m old new rest s a r f :
  invariant m (old ++ rest) →
  Forall (λ t, task_session t = s) old → s ∉ task_session <$> rest →
  map_get s (sessions m) = Some a → heap m !! a = Some r →
  sessionId (f r) = sessionId r → agentId (f r) = agentId r → profileId (f r) = profileId r →
  (is_active (f r) = true → is_active r = true) →
  ((∃ t, new = [t] ∧ task_session t = s ∧ task_addr t = a ∧ task_ok t (f r))
   ∨ new = [] ∧ state (f r) = ready ∧ killed (process (f r)) = false) →
  invariant (update_record m a f) (new ++ rest).
Proof.
  intros Hi Hold Hrest Hs Hr Hid Hag Hpr Hact Hnew.
  assert (∀ a', a' ≠ a → alter f a (heap m) !! a' = heap m !! a') as Hne
    by (intros; by apply list_lookup_alter_ne).
  assert (alter f a (heap m) !! a = Some (f r)) as Heq by (by rewrite list_lookup_alter_eq, Hr).
  split; simpl.
  - apply Hi.
  - intros s' a' Hs'; destruct (inv_addr _ _ Hi _ _ Hs') as (r' & Hr' & Hid').
    destruct (decide (a' = a)) as [->|]; [|by rewrite Hne; eauto].
    exists (f r); split; [done|]; congruence.
  - pose proof (inv_tasks _ _ Hi) as Hnd; rewrite fmap_app in Hnd.
    apply NoDup_app in Hnd as (_ & _ & Hnd).
    destruct Hnew as [(t & -> & Hts & _)|(-> & _)]; [|done]; simpl.
    apply NoDup_cons; by rewrite Hts.
  - intros t Ht; apply elem_of_app in Ht as [Ht|Ht].
    + destruct Hnew as [(t' & -> & <- & <- & ?)|(-> & _)]; [|by apply not_elem_of_nil in Ht].
      apply list_elem_of_singleton in Ht as ->; eauto.
    + destruct (inv_task _ _ Hi t) as (Hmap & r' & Hr' & Hok); [apply elem_of_app; by right|].
      split; [done|]; exists r'; split; [|done]; rewrite Hne; [done|]; intros Ha.
      apply Hrest; rewrite Ha in Hmap; rewrite (addr_inj _ _ _ _ _ Hi Hs Hmap).
      by apply list_elem_of_fmap_2.
  - intros s' a' r' Hs' Hr' Hidle; rewrite fmap_app, not_elem_of_app in Hidle.
    destruct (decide (a' = a)) as [->|Ha].
    + assert (s' = s) as -> by (by eapply addr_inj).
      destruct Hnew as [(t' & -> & Hts & _)|(-> & Hready & Hk)].
      { destruct Hidle as [Hidle _]; simpl in Hidle; rewrite Hts in Hidle.
        destruct Hidle; left. }
      rewrite Heq in Hr'; by simplify_eq.
    + rewrite Hne in Hr' by done; apply (inv_idle _ _ Hi s' a' r'); [done|done|].
      rewrite fmap_app, not_elem_of_app; split; [|apply Hidle].
      intros (t & -> & Ht)%list_elem_of_fmap; rewrite Forall_forall in Hold.
      rewrite (Hold t Ht) in Hs'; congruence.
  - intros a' r'; destruct (decide (a' = a)) as [->|Ha].
    + rewrite Heq; intros [= <-] _; rewrite Hid.
      by destruct (inv_addr _ _ Hi _ _ Hs) as (? & ? & <-); simplify_eq.
    + rewrite Hne by done; apply Hi.
  - apply within_limits_alter; [|apply Hi]; intros r' Hr'; by simplify_eq.
Qed.

(** A change that leaves identity, state and process of a record alone. *)
Definition neutral (r r' : BrowserSessionRecord) : Prop :=
  sessionId r' = sessionId r ∧ agentId r' = agentId r ∧ profileId r' = profileId r
  ∧ state r' = state r ∧ process r' = process r.

Lemma neutral_refl r : neutral r r.
Proof. done. Qed.

Lemma task_ok_neutral t r r' : neutral r r' → task_ok t r → task_ok t r'.
Proof. intros (_ & _ & _ & Hs & Hp); destruct t; simpl; by rewrite Hs, ?Hp. Qed.

Lemma invariant_neutral m ts a f :
  (∀ r, heap m !! a = Some r → neutral r (f r)) → invariant m ts → invariant (update_record m a f) ts.
Proof.
  intros Hf Hi.
  assert (∀ a' r, heap m !! a' = Some r →
    ∃ r', alter f a (heap m) !! a' = Some r' ∧ neutral r r') as Hto.
  { intros a' r Hr; destruct (decide (a = a')) as [->|Hne].
    - exists (f r); rewrite list_lookup_alter_eq, Hr; auto.
    - exists r; rewrite list_lookup_alter_ne by done; split; [done|apply neutral_refl]. }
  assert (∀ a' r', alter f a (heap m) !! a' = Some r' →
    ∃ r, heap m !! a' = Some r ∧ neutral r r') as Hfrom.
  { intros a' r' Hr'; destruct (heap m !! a') as [r|] eqn:Hr.
    - destruct (Hto _ _ Hr) as (r'' & ? & ?); exists r; split; [done|]; congruence.
    - apply lookup_ge_None_1 in Hr; apply lookup_lt_Some in Hr'; rewrite length_alter in Hr'; lia. }
  split; simpl.
  - apply Hi.
  - intros s a' Hs; destruct (inv_addr _ _ Hi _ _ Hs) as (r & Hr & Hid).
    destruct (Hto _ _ Hr) as (r' & ? & Hn); exists r'; split; [done|]; by rewrite (proj1 Hn).
  - apply Hi.
  - intros t Ht; destruct (inv_task _ _ Hi t Ht) as (? & r & Hr & Hok); split; [done|].
    destruct (Hto _ _ Hr) as (r' & ? & Hn); exists r'; split; [done|by eapply task_ok_neutral].
  - intros s a' r' Hs (r & Hr & _ & _ & _ & Hst & Hp)%Hfrom Hidle; rewrite Hst, Hp.
    by eapply (inv_idle _ _ Hi).
  - intros a' r' (r & Hr & Hid & _ & _ & _ & Hp)%Hfrom; rewrite Hid, Hp; by apply Hi.
  - apply within_limits_alter; [|apply Hi].
    intros r (Hid & Hag & Hpr & Hst & _)%Hf; unfold is_active; by rewrite Hag, Hpr, Hst.
Qed.

(** The end of a close: the record, killed, leaves the map. *)
Lemma invariant_delete m t rest :
  invariant m (t :: rest) →
  (∀ r, heap m !! task_addr t = Some r → killed (process r) = true) →
  invariant (set_sessions m (map_delete (task_session t) (sessions m))) rest.
Proof.
  intros Hi Hk; destruct (inv_task _ _ Hi t) as (Hmap & r0 & Hr0 & _); [left|].
  assert (∀ s a, map_get s (map_delete (task_session t) (sessions m)) = Some a →
    s ≠ task_session t ∧ map_get s (sessions m) = Some a) as Hdel.
  { intros s a Hs; destruct (decide (task_session t = s)) as [<-|Hne].
    - by rewrite map_get_delete_eq in Hs.
    - by rewrite map_get_delete_ne in Hs. }
  pose proof (inv_tasks _ _ Hi) as Hnd; simpl in Hnd; apply NoDup_cons in Hnd as [Hnot Hnd].
  split; simpl.
  - by apply map_delete_wf, Hi.
  - intros s a [_ Hs]%Hdel; by apply Hi.
  - done.
  - intros t' Ht'; destruct (inv_task _ _ Hi t') as (Hmap' & ?); [by right|]; split; [|done].
    rewrite map_get_delete_ne; [done|]; intros Heq; apply Hnot; rewrite Heq.
    by apply list_elem_of_fmap_2.
  - intros s a r [Hne Hs]%Hdel Hr Hidle; apply (inv_idle _ _ Hi s a r); [done|done|].
    simpl; rewrite elem_of_cons; naive_solver.
  - intros a r Hr Hkr; pose proof (inv_owned _ _ Hi a r Hr Hkr) as Hs.
    rewrite map_get_delete_ne; [done|]; intros Heq; rewrite <- Heq, Hmap in Hs.
    injection Hs as <-; rewrite (Hk r Hr) in Hkr; done.
  - destruct (inv_limits _ _ Hi) as (H1 & H2 & H3); split_and!; intros.
    all: etrans; [apply inj_le, count_at_delete|first [exact H1|apply H2|by eapply H3]].
Qed.

Lemma map_values_set_absent {V} s (v : V) (m : jsmap string V) :
  map_get s m = None → map_values (map_set s v m) = map_values m ++ [v].
Proof. intros Hs; rewrite map_set_absent by done; unfold map_values; by rewrite fmap_app. Qed.

(** The capacity check leaves room for one more session. *)
Lemma within_limits_open m input now :
  Forall (λ a, a < length (heap m))%nat (map_values (sessions m)) →
  map_get (input_sessionId input) (sessions m) = None →
  assertCapacity m input = Ok () → within_limits m →
  within_limits (set_sessions (set_heap m (heap m ++ [pending_record input now]))
    (map_set (input_sessionId input) (length (heap m)) (sessions m))).
Proof.
  intros Haddr Hnone Hcap (H1 & H2 & H3).
  assert (∀ p, active_where p (set_sessions (set_heap m (heap m ++ [pending_record input now]))
    (map_set (input_sessionId input) (length (heap m)) (sessions m)))
    = active_where p m + if p (pending_record input now) then 1 else 0) as Hcount.
  { intros p; rewrite !active_where_count; simpl; rewrite map_values_set_absent by done.
    rewrite count_at_snoc by done; unfold counted; simpl.
    destruct (p (pending_record input now)); lia. }
  unfold assertCapacity in Hcap.
  destruct (Z.leb_spec (maxServiceSessions (limits m)) (active_where (λ _, true) m)); [done|].
  destruct (Z.leb_spec (maxSessionsPerAgent (limits m)) (active_where (of_agent (input_agentId input)) m));
    [done|].
  split_and!; simpl limits.
  - rewrite Hcount; lia.
  - intros x; rewrite Hcount; unfold of_agent at 2; simpl; case_bool_decide; subst; [lia|].
    specialize (H2 x); lia.
  - intros x max Hmax; rewrite Hcount; unfold of_profile at 2; simpl.
    specialize (H3 x max Hmax); simpl in Hmax; rewrite Hmax in Hcap.
    destruct (Z.leb_spec max (active_where (of_profile (input_profileId input)) m)); [done|].
    case_bool_decide; subst; lia.
Qed.

(** A new pending record, for a session that has none. *)
Lemma invariant_open m ts input now :
  invariant m ts → map_get (input_sessionId input) (sessions m) = None →
  assertCapacity m input = Ok () →
  invariant (set_sessions (set_heap m (heap m ++ [pending_record input now]))
               (map_set (input_sessionId input) (length (heap m)) (sessions m)))
    (Launching (length (heap m)) (input_sessionId input) :: ts).
Proof.
  intros Hi Hnone Hcap; set (s := input_sessionId input) in *; set (p := pending_record input now).
  assert (∀ s' a, map_get s' (sessions m) = Some a → (a < length (heap m))%nat) as Hlt.
  { intros s' a Hs'; destruct (inv_addr _ _ Hi _ _ Hs') as (r & Hr & _); by eapply lookup_lt_Some. }
  assert (∀ s' a, map_get s' (map_set s (length (heap m)) (sessions m)) = Some a →
    s' = s ∧ a = length (heap m) ∨ s' ≠ s ∧ map_get s' (sessions m) = Some a) as Hset.
  { intros s' a; destruct (decide (s = s')) as [<-|Hne].
    - rewrite map_get_set_eq; intros [= <-]; by left.
    - rewrite map_get_set_ne by done; auto. }
  assert ((heap m ++ [p]) !! length (heap m) = Some p) as Hp
    by (rewrite lookup_app_r, Nat.sub_diag; done).
  assert (∀ t, t ∈ ts → task_session t ≠ s) as Hts.
  { intros t Ht Heq; destruct (inv_task _ _ Hi t Ht) as [Hmap _]; congruence. }
  split; simpl.
  - by apply map_set_wf, Hi.
  - intros s' a [[-> ->]|[_ Hs']]%Hset; [by exists p|].
    destruct (inv_addr _ _ Hi _ _ Hs') as (r & Hr & ?); exists r.
    by rewrite lookup_app_l by eauto.
  - apply NoDup_cons; split; [|apply Hi].
    intros (t & Heq & Ht)%list_elem_of_fmap; by apply (Hts t Ht).
  - intros t [->|Ht]%elem_of_cons; simpl.
    + rewrite map_get_set_eq; split; [done|]; by exists p.
    + destruct (inv_task _ _ Hi t Ht) as (Hmap & r & Hr & Hok).
      rewrite map_get_set_ne by (intros Heq; by apply (Hts t Ht)); split; [done|].
      exists r; by rewrite lookup_app_l by eauto.
  - intros s' a r [[-> ->]|[Hne Hs']]%Hset Hr Hidle; [destruct Hidle; left|].
    rewrite lookup_app_l in Hr by eauto; apply (inv_idle _ _ Hi s' a r); [done|done|].
    rewrite elem_of_cons in Hidle; naive_solver.
  - intros a r Hr Hk; destruct (decide (a < length (heap m))%nat) as [Ha|Ha].
    + rewrite lookup_app_l in Hr by done; pose proof (inv_owned _ _ Hi a r Hr Hk) as Hs.
      rewrite map_get_set_ne; [done|]; intros Heq; rewrite <- Heq in Hs; congruence.
    + pose proof (lookup_lt_Some _ _ _ Hr) as Hl; rewrite length_app in Hl; simpl in Hl.
      assert (a = length (heap m)) as -> by lia; rewrite Hp in Hr; by simplify_eq.
  - apply within_limits_open; [|done|done|apply Hi].
    apply Forall_forall; intros a ([k v] & -> & Hin)%list_elem_of_fmap.
    eapply Hlt, map_get_wf, Hin; apply Hi.
Qed.

(** ** Every stage keeps the invariant *)

Lemma lookup_session_Some m s a r :
  lookup_session m s = Some (a, r) ↔ map_get s (sessions m) = Some a ∧ heap m !! a = Some r.
Proof.
  unfold lookup_session; split.
  - intros (a' & Ha & (r' & Hr & [= -> ->])%bind_Some)%bind_Some; done.
  - intros [-> Hr]; simpl; by rewrite Hr.
Qed.

Lemma invariant_lookup m ts s :
  invariant m ts →
  (∃ a r, lookup_session m s = Some (a, r) ∧ sessionId r = s) ∨ map_get s (sessions m) = None.
Proof.
  intros Hi; destruct (map_get s (sessions m)) as [a|] eqn:Hs; [left|by right].
  destruct (inv_addr _ _ Hi _ _ Hs) as (r & Hr & Hid); exists a, r.
  by rewrite lookup_session_Some.
Qed.

Lemma lookup_session_None m s : map_get s (sessions m) = None → lookup_session m s = None.
Proof. unfold lookup_session; by intros ->. Qed.

Lemma invariant_head m t rest :
  invariant m (t :: rest) →
  map_get (task_session t) (sessions m) = Some (task_addr t) ∧ (task_session t ∉ task_session <$> rest)
  ∧ ∃ r, heap m !! task_addr t = Some r ∧ sessionId r = task_session t ∧ task_ok t r.
Proof.
  intros Hi; destruct (inv_task _ _ Hi t) as (Hmap & r & Hr & Hok); [left|].
  destruct (inv_addr _ _ Hi _ _ Hmap) as (r' & Hr' & Hid).
  pose proof (inv_tasks _ _ Hi) as Hnd; simpl in Hnd; apply NoDup_cons in Hnd as [Hnot _].
  split_and!; [done|done|]; exists r; naive_solver.
Qed.

(** The suspended call at the head moves on, changing its own record. *)
Lemma invariant_advance m t rest new f :
  invariant m (t :: rest) →
  (∀ r, heap m !! task_addr t = Some r → task_ok t r →
     sessionId (f r) = sessionId r ∧ agentId (f r) = agentId r ∧ profileId (f r) = profileId r
     ∧ (is_active (f r) = true → is_active r = true)
     ∧ ((∃ t', new = [t'] ∧ task_session t' = task_session t ∧ task_addr t' = task_addr t
           ∧ task_ok t' (f r))
        ∨ new = [] ∧ state (f r) = ready ∧ killed (process (f r)) = false)) →
  invariant (update_record m (task_addr t) f) (new ++ rest).
Proof.
  intros Hi Hf; destruct (invariant_head _ _ _ Hi) as (Hmap & Hnot & r & Hr & _ & Hok).
  destruct (Hf r Hr Hok) as (? & ? & ? & ? & ?).
  eapply (invariant_update m [t] new rest (task_session t)); eauto.
Qed.

Lemma invariant_close_begin m ts s why :
  invariant m ts → serialized s ts →
  invariant (close_begin m s why).2 (closing_task (close_begin m s why).1 ++ ts).
Proof.
  intros Hi Hser; unfold close_begin.
  destruct (invariant_lookup m ts s Hi) as [(a & r & Hl & Hid)|Hnone].
  - rewrite Hl; apply lookup_session_Some in Hl as [Hs Hr]; simpl.
    eapply (invariant_update m [] [_] ts s a r); eauto; [simpl; naive_solver|].
    left; eexists; split_and!; done.
  - by rewrite lookup_session_None.
Qed.

Lemma update_record_update m a f g :
  update_record (update_record m a f) a g = update_record m a (g ∘ f).
Proof. unfold update_record; simpl; unfold set_heap; simpl; by rewrite list_alter_alter_eq. Qed.

Lemma lookup_update_eq m a f : heap (update_record m a f) !! a = f <$> heap m !! a.
Proof. apply list_lookup_alter_eq. Qed.

Lemma invariant_open_failed m a s e rest :
  invariant m (Launching a s :: rest) →
  invariant (open_failed m a s e).2 (closing_task (open_failed m a s e).1 ++ rest).
Proof.
  intros Hi; destruct (invariant_head _ _ _ Hi) as (Hmap & _ & r & Hr & _); simpl in *.
  unfold open_failed, close_begin; erewrite (proj2 (lookup_session_Some _ s a _)).
  2:{ split; [exact Hmap|]; by rewrite lookup_update_eq, Hr. }
  simpl; rewrite update_record_update.
  apply (invariant_advance m (Launching a s) rest [_]); [done|].
  intros r' _ Hok; split_and!; try done; left; eexists; split_and!; done.
Qed.

Lemma invariant_close_rest m c rest t :
  invariant m (t :: rest) → task_session t = close_session c → task_addr t = close_addr c →
  (∀ r, heap m !! close_addr c = Some r → killed (process r) = true) →
  invariant (close_rest m c).2 ((close_rest m c).1 ++ rest).
Proof.
  intros Hi Hs Ha Hk.
  assert (invariant (close_closed m c) (FinishingActivity c :: rest)) as Hclosed.
  { unfold close_closed; rewrite <- Ha; apply (invariant_advance _ _ _ [_] _ Hi).
    intros r Hr Hok; split_and!; try done; left; eexists; split_and!; simpl; try done.
    split; [done|]; apply (Hk r); by rewrite <- Ha. }
  assert (invariant (close_finish (close_closed m c) c) rest) as Hfinish.
  { eapply (invariant_delete _ (FinishingActivity c)); [done|]; cbn [task_addr].
    unfold close_closed; rewrite lookup_update_eq; intros r (r' & Hr & ->)%fmap_Some; by apply (Hk r'). }
  unfold close_rest; destruct (heap _ !! _ ≫= activityId); [destruct (activityBridge m)|]; done.
Qed.

Lemma invariant_close_after_cdp m c e rest :
  invariant m (ClosingCdp c :: rest) →
  invariant (close_after_cdp m c e).2 ((close_after_cdp m c e).1 ++ rest).
Proof.
  intros Hi.
  assert (∀ r, heap (close_cdp_done m c e) !! close_addr c = Some r → killed (process r) = true) as Hk.
  { unfold close_cdp_done; rewrite lookup_update_eq; intros r (r' & Hr & ->)%fmap_Some; simpl.
    by destruct (killed (process r')) eqn:?. }
  assert (invariant (close_cdp_done m c e) (RemovingData c :: rest)) as Hdone.
  { apply (invariant_advance _ (ClosingCdp c) _ [_] _ Hi); intros r Hr Hok.
    split_and!; try done; left; eexists; split_and!; try done; simpl.
    split; [done|]; by destruct (killed (process r)) eqn:?. }
  unfold close_after_cdp; destruct (truthy _); [done|].
  by eapply (invariant_close_rest _ c rest (RemovingData c)).
Qed.

Lemma invariant_synchronous m ts s :
  invariant m ts →
  (∀ entries now, invariant (storeRefs m s entries now).2 ts) ∧ invariant (invalidateRefs m s) ts
  ∧ (∀ url t now, invariant (recordNavigation m s url t now).2 ts)
  ∧ (∀ line, invariant (recordConsole m s line).2 ts).
Proof.
  intros Hi.
  assert (∀ m', invariant m' ts → invariant (invalidateRefs m' s) ts) as Hinv.
  { intros m' Hi'; unfold invalidateRefs; destruct (lookup_session m' s) as [[a r]|]; [|done].
    by apply invariant_neutral. }
  unfold storeRefs, recordNavigation, recordConsole.
  destruct (requireReady m s) as [[a r]|]; split_and!; intros; try apply Hinv; try done;
    by apply invariant_neutral.
Qed.

(** A session nobody is working on is ready, so a call to [open] reuses it. *)
Lemma invariant_open_begin m ts input clock a m' :
  invariant m ts → serialized (input_sessionId input) ts →
  open_begin m input clock = (Ok (Launch a), m') →
  invariant m' (Launching a (input_sessionId input) :: ts).
Proof.
  intros Hi Hser; unfold open_begin.
  destruct (invariant_lookup m ts (input_sessionId input) Hi) as [(a' & r & Hl & _)|Hnone].
  - rewrite Hl; apply lookup_session_Some in Hl as [Hs Hr].
    destruct (inv_idle _ _ Hi _ _ _ Hs Hr Hser) as [-> ->]; by rewrite bool_decide_true.
  - rewrite lookup_session_None by done.
    destruct (assertCapacity m input) as [[]|] eqn:Hcap; [|done]; intros [= <- <-].
    by apply invariant_open.
Qed.

Lemma invariant_reuse m ts input clock h m' :
  invariant m ts → open_begin m input clock = (Ok (Reused h), m') → invariant m' ts.
Proof.
  intros Hi; unfold open_begin.
  destruct (lookup_session m (input_sessionId input)) as [[a r]|] eqn:Hl.
  - apply lookup_session_Some in Hl as [Hs Hr]; destruct (_ && _).
    + intros [= _ <-]; apply invariant_neutral; [|done]; intros r' Hr'; by simplify_eq.
    + by destruct (assertCapacity m input).
  - by destruct (assertCapacity m input).
Qed.

Lemma invariant_launched m a s l now i rest :
  invariant m (Launching a s :: rest) → killed (launched_process l) = false →
  invariant (open_launched m a l now)
    ((if activityBridge m then [Beginning a s i] else []) ++ rest).
Proof.
  intros Hi Hk; apply (invariant_advance m (Launching a s)); [done|].
  intros r Hr [Hst _]; split_and!; try done.
  - intros _; unfold is_active; by rewrite Hst.
  - destruct (activityBridge m); [left; eexists; split_and!; done|by right].
Qed.

Lemma invariant_began m a s i began rest :
  invariant m (Beginning a s i :: rest) → invariant (open_activity m a i began) rest.
Proof.
  intros Hi.
  assert (∀ f, (∀ r, neutral r (f r)) → invariant (update_record m a f) rest) as Hgo.
  { intros f Hf; apply (invariant_advance m (Beginning a s i) rest [] f Hi); intros r Hr [Hst Hk].
    destruct (Hf r) as (? & ? & ? & Hst' & Hk'); unfold is_active; rewrite Hst', Hk'; split_and!; auto 10. }
  destruct began; simpl; [by apply Hgo|].
  replace m with (update_record m a (λ r, r)); [by apply Hgo|].
  unfold update_record; rewrite list_alter_id by done; by destruct m.
Qed.

Lemma invariant_step st st' :
  invariant (mgr st) (tasks st) → step serialized st st' → invariant (mgr st') (tasks st').
Proof.
  intros Hi Hstep; destruct Hstep; simpl;
    try match goal with H : tasks st ≡ₚ _ |- _ => apply (invariant_perm _ _ _ H) in Hi end.
  all: first
    [ by apply invariant_synchronous
    | by eapply invariant_open_begin | by eapply invariant_reuse | by eapply invariant_launched
    | by eapply invariant_began | by apply invariant_open_failed | by apply invariant_close_begin
    | by apply invariant_close_after_cdp | idtac ].
  - destruct (invariant_head _ _ _ Hi) as (_ & _ & r & Hr & _ & _ & Hk).
    eapply invariant_close_rest; try done; intros r' Hr'; by simplify_eq/=.
  - destruct (invariant_head _ _ _ Hi) as (_ & _ & r & Hr & _ & _ & Hk).
    apply (invariant_delete _ (FinishingActivity c)); [done|]; intros r' Hr'; by simplify_eq/=.
Qed.

Lemma browser_invariant l bridge st :
  reachable serialized l bridge st → invariant (mgr st) (tasks st).
Proof. induction 1; [apply invariant_new|by eapply invariant_step]. Qed.

(** ** Whole calls are runs of the step relation *)

Lemma invariant_run st st' :
  rtc (step serialized) st st' → invariant (mgr st) (tasks st) → invariant (mgr st') (tasks st').
Proof. induction 1; eauto using invariant_step. Qed.

Lemma reachable_run p l bridge st st' :
  reachable p l bridge st → rtc (step p) st st' → reachable p l bridge st'.
Proof. intros Hr; induction 1; eauto using reachable_step. Qed.

Section Runs.
Context (cdpError : nat → option string).

Lemma close_rest_run p m ts c rest :
  ts ≡ₚ RemovingData c :: rest →
  rtc (step p) {| mgr := m; tasks := ts |} {| mgr := close_finish (close_closed m c) c; tasks := rest |}.
Proof.
  intros Hts; eapply rtc_l; [by eapply (step_removed p _ c rest)|]; unfold close_rest; simpl.
  destruct (alter _ _ _ !! _ ≫= activityId); [destruct (activityBridge m)|]; try done.
  by apply rtc_once, (step_finished p {| mgr := close_closed _ c; tasks := FinishingActivity c :: rest |}).
Qed.

Lemma close_tail_run p m ts c rest :
  ts ≡ₚ ClosingCdp c :: rest →
  rtc (step p) {| mgr := m; tasks := ts |} {| mgr := close_tail cdpError m c; tasks := rest |}.
Proof.
  intros Hts; eapply rtc_l; [by eapply (step_cdp_closed p _ c (cdpError (close_addr c)) rest)|].
  unfold close_after_cdp, close_tail; simpl; destruct (truthy _); [by apply close_rest_run|].
  unfold close_rest; destruct (_ ≫= activityId); [destruct (activityBridge _)|]; try done.
  by apply rtc_once, (step_finished p {| mgr := close_closed _ c; tasks := FinishingActivity c :: rest |}).
Qed.

Lemma close_run p m ts s why :
  p s ts → rtc (step p) {| mgr := m; tasks := ts |} {| mgr := close cdpError m s why; tasks := ts |}.
Proof.
  intros Hp; pose proof (step_close p {| mgr := m; tasks := ts |} s why Hp) as Hstep.
  eapply rtc_l; [exact Hstep|]; unfold close; simpl.
  destruct (close_begin m s why) as [[c|] m1]; simpl; [by apply close_tail_run|done].
Qed.

Lemma close_begin_session m s why c m1 :
  close_begin m s why = (Some c, m1) → close_session c = s.
Proof. unfold close_begin; destruct (lookup_session m s) as [[a r]|]; naive_solver. Qed.

Lemma close_begin_all_run m ts ids why :
  NoDup ids → Forall (λ s, serialized s ts) ids →
  ∃ ts', ts' ≡ₚ (ClosingCdp <$> (close_begin_all m ids why).1) ++ ts
    ∧ rtc (step serialized) {| mgr := m; tasks := ts |}
        {| mgr := (close_begin_all m ids why).2; tasks := ts' |}.
Proof.
  revert m ts; induction ids as [|s ids IH]; intros m ts Hnd Hser; simpl; [by exists ts|].
  apply NoDup_cons in Hnd as [Hs Hnd]; apply Forall_cons in Hser as [Hser Hsers].
  pose proof (step_close serialized {| mgr := m; tasks := ts |} s why Hser) as Hstep.
  destruct (close_begin m s why) as [c m1] eqn:Hbegin; simpl in Hstep; rewrite Hbegin in Hstep.
  destruct (IH m1 (closing_task c ++ ts) Hnd) as (ts' & Hts' & Hrun).
  { apply Forall_forall; intros s' Hs'; rewrite Forall_forall in Hsers; specialize (Hsers s' Hs').
    destruct c as [c|]; [|done]; apply close_begin_session in Hbegin as Hcs.
    unfold serialized in *; simpl; rewrite elem_of_cons; naive_solver. }
  exists ts'; destruct (close_begin_all m1 ids why) as [cs m2] eqn:Hall; simpl in *.
  split; [rewrite Hts'; destruct c; simpl; by rewrite <- ?Permutation_middle|].
  by eapply rtc_l.
Qed.

Lemma close_tails_run m ts cs rest :
  ts ≡ₚ (ClosingCdp <$> cs) ++ rest →
  ∃ ts', ts' ≡ₚ rest ∧ rtc (step serialized) {| mgr := m; tasks := ts |}
    {| mgr := fold_left (close_tail cdpError) cs m; tasks := ts' |}.
Proof.
  revert m ts; induction cs as [|c cs IH]; intros m ts Hts; simpl in *; [by exists ts|].
  destruct (IH (close_tail cdpError m c) ((ClosingCdp <$> cs) ++ rest)) as (ts' & ? & Hrun); [done|].
  exists ts'; split; [done|]; etrans; [|exact Hrun]; by apply close_tail_run.
Qed.

Lemma close_sessions_run m ids why :
  NoDup ids → rtc (step serialized) {| mgr := m; tasks := [] |}
    {| mgr := close_sessions cdpError m ids why; tasks := [] |}.
Proof.
  intros Hnd; destruct (close_begin_all_run m [] ids why Hnd) as (ts & Hts & Hrun).
  { apply Forall_forall; intros s _; apply not_elem_of_nil. }
  unfold close_sessions; destruct (close_begin_all m ids why) as [cs m1]; simpl in *.
  destruct (close_tails_run m1 ts cs [] Hts) as (ts' & Hnil & Hrun').
  apply Permutation_nil_r in Hnil as ->; by etrans.
Qed.
End Runs.

(** ** What the whole calls do to the map *)

Lemma records_keys (h : list BrowserSessionRecord) (l : jsmap string nat) :
  (∀ s a, (s, a) ∈ l → ∃ r, h !! a = Some r ∧ sessionId r = s) →
  sessionId <$> omap (λ a, h !! a) (map_values l) = map_keys l.
Proof.
  induction l as [|[s a] l IH]; intros Hl; [done|]; simpl.
  destruct (Hl s a) as (r & -> & Hid); [left|]; simpl; rewrite Hid; f_equal.
  apply IH; intros s' a' Hin; apply Hl; by right.
Qed.

Lemma invariant_keys m ts : invariant m ts → sessionId <$> session_records m = map_keys (sessions m).
Proof.
  intros Hi; apply records_keys; intros s a Hin; eapply inv_addr, map_get_wf, Hin; [done|apply Hi].
Qed.

Lemma invariant_addrs m ts : invariant m ts → NoDup (map_values (sessions m)).
Proof.
  intros Hi; pose proof (invariant_keys m ts Hi) as Hkeys; unfold session_records in Hkeys.
  pose proof (inv_map _ _ Hi) as Hwf; unfold map_wf in Hwf; rewrite <- Hkeys in Hwf.
  assert (Forall (λ a, is_Some (heap m !! a)) (map_values (sessions m))) as Hall.
  { apply Forall_forall; intros a ([k v] & -> & Hin)%list_elem_of_fmap.
    simpl; destruct (inv_addr _ _ Hi k v) as (r & -> & _); [|by eexists].
    apply map_get_wf; [apply Hi|done]. }
  clear Hkeys; induction (map_values (sessions m)) as [|a l IH]; [constructor|].
  apply Forall_cons in Hall as [[r Hr] Hall]; simpl in Hwf; rewrite Hr in Hwf; simpl in Hwf.
  apply NoDup_cons in Hwf as [Hnot Hwf]; apply NoDup_cons; split; [|by apply IH].
  intros Hin; apply Hnot, list_elem_of_fmap; exists r; split; [done|].
  apply list_elem_of_omap; by exists a.
Qed.

Lemma omap_unchanged {A} (h h' : list A) a (addrs : list nat) :
  (a ∉ addrs) → (∀ b, b ≠ a → h' !! b = h !! b) →
  omap (λ b, h' !! b) addrs = omap (λ b, h !! b) addrs.
Proof.
  intros Hnot Hh; induction addrs as [|b addrs IH]; [done|]; simpl.
  apply not_elem_of_cons in Hnot as [Hne Hnot]; rewrite Hh by done; destruct (h !! b); [f_equal|]; by apply IH.
Qed.

Section Effects.
Context (cdpError : nat → option string).

Lemma close_tail_sessions m c :
  sessions (close_tail cdpError m c) = map_delete (close_session c) (sessions m).
Proof. done. Qed.

Lemma close_effect m s a r why :
  lookup_session m s = Some (a, r) →
  sessions (close cdpError m s why) = map_delete s (sessions m)
  ∧ limits (close cdpError m s why) = limits m
  ∧ ∀ b, b ≠ a → heap (close cdpError m s why) !! b = heap m !! b.
Proof.
  unfold close, close_begin; intros ->; split_and!; [done|done|]; intros b Hb; simpl.
  by rewrite !list_lookup_alter_ne.
Qed.

Lemma close_lookup m ts s a r why s' b r' :
  invariant m ts → lookup_session m s = Some (a, r) →
  lookup_session (close cdpError m s why) s' = Some (b, r')
  ↔ s' ≠ s ∧ lookup_session m s' = Some (b, r').
Proof.
  intros Hi Hl; destruct (close_effect m s a r why Hl) as (Hs & _ & Hh).
  rewrite !lookup_session_Some, Hs; apply lookup_session_Some in Hl as [Hsa Hr].
  destruct (decide (s = s')) as [<-|Hne]; [rewrite map_get_delete_eq; naive_solver|].
  rewrite map_get_delete_ne by done; split.
  - intros [Hs' Hr']; split_and!; try done; rewrite <- Hh; [done|]; intros ->.
    by apply Hne, (addr_inj m ts s s' a).
  - intros (_ & Hs' & Hr'); split; [done|]; rewrite Hh; [done|]; intros ->.
    by apply Hne, (addr_inj m ts s s' a).
Qed.

Definition overdue (l : BrowserSessionLimits) (now : Z) (r : BrowserSessionRecord) : bool :=
  bool_decide (is_Some (sweep_reason l now r)).

Lemma overdue_spec l now r :
  overdue l now r = match sweep_reason l now r with Some _ => true | None => false end.
Proof. unfold overdue; destruct (sweep_reason l now r); done. Qed.

Lemma count_reason_sum why counts :
  sum_list (map_values (count_reason why counts)) = S (sum_list (map_values counts)).
Proof.
  unfold count_reason; induction counts as [|[k v] counts IH]; [done|]; simpl.
  case_decide; simpl in *; [done|]; unfold map_values in *; simpl; rewrite IH; lia.
Qed.

Lemma sweep_loop_effect now addrs m counts :
  invariant m [] → NoDup addrs →
  Forall (λ a, ∃ s r, lookup_session m s = Some (a, r)) addrs →
  let result := sweep_loop cdpError now addrs m counts in
  rtc (step serialized) {| mgr := m; tasks := [] |} {| mgr := result.2; tasks := [] |}
  ∧ limits result.2 = limits m
  ∧ (∀ s a r, lookup_session result.2 s = Some (a, r) ↔
       lookup_session m s = Some (a, r) ∧ (a ∈ addrs → sweep_reason (limits m) now r = None))
  ∧ sum_list (map_values result.1)
    = (sum_list (map_values counts)
       + length (List.filter (overdue (limits m) now) (omap (λ a, heap m !! a) addrs)))%nat.
Proof.
  revert m counts; induction addrs as [|a addrs IH]; intros m counts Hi Hnd Haddrs; simpl.
  { split_and!; [done|done| |simpl; lia].
    intros s a r; split; [|by intros []]; intros ?; split; [done|]; by intros ?%not_elem_of_nil. }
  apply NoDup_cons in Hnd as [Hnot Hnd]; apply Forall_cons in Haddrs as [(s & r & Hl) Haddrs].
  apply lookup_session_Some in Hl as Hl'; destruct Hl' as [Hs Hr]; rewrite Hr; simpl.
  destruct (inv_addr _ _ Hi _ _ Hs) as (? & ? & Hid); simplify_eq.
  pose proof (overdue_spec (limits m) now r) as Hexp.
  destruct (sweep_reason (limits m) now r) as [why|] eqn:Hwhy; rewrite Hexp.
  - pose proof (close_run cdpError serialized m [] (sessionId r) why) as Hrun.
    specialize (Hrun (not_elem_of_nil (sessionId r))).
    destruct (close_effect m _ a r why Hl) as (Hs' & Hlim & Hh).
    assert (∀ s' b r', lookup_session (close cdpError m (sessionId r) why) s' = Some (b, r')
      ↔ s' ≠ sessionId r ∧ lookup_session m s' = Some (b, r')) as Hlook
      by (intros; by eapply close_lookup).
    destruct (IH (close cdpError m (sessionId r) why) (count_reason why counts)) as (Hr1 & Hl1 & Hm1 & Hc1).
    { by apply (invariant_run _ _ Hrun). }
    { done. }
    { apply Forall_forall; intros b Hb; rewrite Forall_forall in Haddrs.
      destruct (Haddrs b Hb) as (s' & r' & Hl'); exists s', r'; rewrite Hlook.
      split; [|done]; intros ->; rewrite Hl in Hl'; by simplify_eq. }
    rewrite Hlim in *; split_and!; [by etrans|done| |].
    + intros s' b r'; rewrite Hm1, Hlook; rewrite elem_of_cons; split.
      * intros ((Hne & Hl') & Hb); split; [done|]; intros [->|]; [|by apply Hb].
        apply lookup_session_Some in Hl' as [Hs'' _].
        destruct Hne; by eapply addr_inj.
      * intros (Hl' & Hb); split_and!; [|done|by auto]; intros ->; rewrite Hl in Hl'.
        simplify_eq; by rewrite Hb in Hwhy by auto.
    + rewrite Hc1, count_reason_sum; simpl.
      rewrite (omap_unchanged _ _ a addrs Hnot Hh); symmetry; apply Nat.add_succ_r.
  - destruct (IH m counts Hi Hnd Haddrs) as (Hr1 & Hl1 & Hm1 & Hc1).
    split_and!; [done|done| |done].
    intros s' b r'; rewrite Hm1, elem_of_cons; split; [|naive_solver].
    intros [Hl' Hb]; split; [done|]; intros [->|]; [|by auto].
    apply lookup_session_Some in Hl' as [_ Hr']; by simplify_eq.
Qed.

Lemma lookup_session_update m a f s :
  is_Some (lookup_session m s) → is_Some (lookup_session (update_record m a f) s).
Proof.
  intros [[b r] [Hs Hr]%lookup_session_Some]; destruct (decide (a = b)) as [->|Hne].
  - exists (b, f r); apply lookup_session_Some; split; [done|]; by rewrite lookup_update_eq, Hr.
  - exists (b, r); apply lookup_session_Some; split; [done|]; simpl.
    by rewrite list_lookup_alter_ne.
Qed.

Lemma close_begin_all_effect m ids why :
  Forall (λ s, is_Some (lookup_session m s)) ids →
  sessions (close_begin_all m ids why).2 = sessions m
  ∧ close_session <$> (close_begin_all m ids why).1 = ids.
Proof.
  revert m; induction ids as [|s ids IH]; intros m Hids; [done|].
  apply Forall_cons in Hids as [[[a r] Hl] Hids]; simpl; unfold close_begin; rewrite Hl; simpl.
  set (m1 := update_record m a _).
  destruct (IH m1) as [Hs Hc].
  { eapply Forall_impl; [exact Hids|]; intros; by apply lookup_session_update. }
  destruct (close_begin_all m1 ids why) as [cs m2]; simpl in *; split; [done|]; by f_equal.
Qed.

Lemma close_tails_sessions cs m s :
  map_get s (sessions (fold_left (close_tail cdpError) cs m))
  = if bool_decide (s ∈ close_session <$> cs) then None else map_get s (sessions m).
Proof.
  revert m; induction cs as [|c cs IH]; intros m; simpl; [done|]; rewrite IH, close_tail_sessions.
  destruct (decide (close_session c = s)) as [<-|Hne].
  - rewrite map_get_delete_eq, (bool_decide_true (_ ∈ _ :: _)) by left; by case_bool_decide.
  - rewrite map_get_delete_ne by done.
    rewrite (bool_decide_ext (s ∈ close_session <$> cs) (s ∈ close_session c :: (close_session <$> cs)));
      [done|].
    rewrite elem_of_cons; naive_solver.
Qed.

Lemma close_sessions_get m ids why s :
  Forall (λ s, is_Some (lookup_session m s)) ids →
  map_get s (sessions (close_sessions cdpError m ids why))
  = if bool_decide (s ∈ ids) then None else map_get s (sessions m).
Proof.
  intros Hids; destruct (close_begin_all_effect m ids why Hids) as [Hs Hc]; unfold close_sessions.
  destruct (close_begin_all m ids why) as [cs m1]; simpl in *.
  by rewrite close_tails_sessions, Hs, Hc.
Qed.

Lemma invariant_known m ts :
  invariant m ts → Forall (λ s, is_Some (lookup_session m s)) (map_keys (sessions m)).
Proof.
  intros Hi; apply Forall_forall; intros s [a Hs]%map_get_is_Some.
  destruct (inv_addr _ _ Hi s a Hs) as (r & Hr & _); exists (a, r); by apply lookup_session_Some.
Qed.
End Effects.

Lemma map_get_all_None {V} (m : jsmap string V) : (∀ s, map_get s m = None) → m = [].
Proof.
  destruct m as [|[k v] m]; [done|]; intros Hm; specialize (Hm k); simpl in Hm.
  by rewrite decide_True in Hm by done.
Qed.

(** ** References never change their meaning within a generation *)

(** The record may move on to a later generation, or lose its references. *)
Definition refs_older (r r' : BrowserSessionRecord) : Prop :=
  generation r < generation r' ∨ generation r' = generation r ∧ (refs r' = refs r ∨ refs r' = []).

#[global] Instance refs_older_preorder : PreOrder refs_older.
Proof.
  split; unfold refs_older.
  - intros r; right; auto.
  - intros r1 r2 r3 [|[Hg [Hr|Hr]]] [|[Hg' [Hr'|Hr']]]; try (left; lia);
      right; (split; [lia|]); rewrite ?Hr', ?Hr; auto.
Qed.

Definition heap_older (h h' : list BrowserSessionRecord) : Prop :=
  ∀ a r, h !! a = Some r → ∃ r', h' !! a = Some r' ∧ refs_older r r'.

#[global] Instance heap_older_preorder : PreOrder heap_older.
Proof.
  split.
  - intros h a r Hr; by exists r.
  - intros h1 h2 h3 H12 H23 a r Hr; destruct (H12 a r Hr) as (r2 & Hr2 & ?).
    destruct (H23 a r2 Hr2) as (r3 & ? & ?); exists r3; split; [done|]; by etrans.
Qed.

Lemma heap_older_alter h a f :
  (∀ r, h !! a = Some r → refs_older r (f r)) → heap_older h (alter f a h).
Proof.
  intros Hf b r Hr; destruct (decide (a = b)) as [->|Hne].
  - rewrite list_lookup_alter_eq, Hr; exists (f r); auto.
  - rewrite list_lookup_alter_ne by done; by exists r.
Qed.

Lemma heap_older_snoc h r : heap_older h (h ++ [r]).
Proof. intros a r' Hr; exists r'; split; [by apply lookup_app_l_Some|done]. Qed.

Lemma older_keep r r' : generation r' = generation r → refs r' = refs r → refs_older r r'.
Proof. right; auto. Qed.
Lemma older_clear r r' : generation r' = generation r → refs r' = [] → refs_older r r'.
Proof. right; auto. Qed.
Lemma older_next r r' : generation r' = generation r + 1 → refs_older r r'.
Proof. left; lia. Qed.

Create HintDb refs.
#[local] Hint Resolve older_keep older_clear heap_older_snoc heap_older_alter : refs.
#[local] Hint Extern 1 (heap_older _ _) => reflexivity : refs.
#[local] Hint Extern 1 (_ = _) => reflexivity : refs.

Lemma heap_older_close_begin m s why : heap_older (heap m) (heap (close_begin m s why).2).
Proof.
  unfold close_begin; destruct (lookup_session m s) as [[a r]|]; simpl; eauto with refs.
Qed.

Lemma heap_older_close_rest m c : heap_older (heap m) (heap (close_rest m c).2).
Proof.
  unfold close_rest; destruct (_ ≫= activityId); [destruct (activityBridge m)|]; simpl;
    eauto with refs.
Qed.

Lemma heap_older_close_after_cdp m c e : heap_older (heap m) (heap (close_after_cdp m c e).2).
Proof.
  assert (heap_older (heap m) (heap (close_cdp_done m c e))) by (simpl; eauto with refs).
  unfold close_after_cdp; destruct (truthy _); [done|]; etrans; [done|apply heap_older_close_rest].
Qed.

Lemma heap_older_open_begin m input clock : heap_older (heap m) (heap (open_begin m input clock).2).
Proof.
  unfold open_begin; destruct (lookup_session m _) as [[a r]|] eqn:Hl.
  - destruct (_ && _); simpl.
    + apply lookup_session_Some in Hl as [_ Hr]; apply heap_older_alter; intros r' Hr'.
      simplify_eq; eauto with refs.
    + destruct (assertCapacity m input); simpl; eauto with refs.
  - destruct (assertCapacity m input); simpl; eauto with refs.
Qed.

Lemma heap_older_invalidate m s : heap_older (heap m) (heap (invalidateRefs m s)).
Proof.
  unfold invalidateRefs; destruct (lookup_session m s) as [[a r]|] eqn:Hl; [|done].
  apply lookup_session_Some in Hl as [_ Hr]; apply heap_older_alter; intros r' Hr'.
  simplify_eq; by apply older_next.
Qed.

Lemma requireReady_Ok m s a r :
  requireReady m s = Ok (a, r) ↔ lookup_session m s = Some (a, r) ∧ state r = ready.
Proof.
  unfold requireReady; destruct (lookup_session m s) as [[a' r']|]; [case_bool_decide|]; naive_solver.
Qed.

Lemma heap_older_ready m s :
  (∀ entries now, heap_older (heap m) (heap (storeRefs m s entries now).2))
  ∧ (∀ url t now, heap_older (heap m) (heap (recordNavigation m s url t now).2))
  ∧ (∀ line, heap_older (heap m) (heap (recordConsole m s line).2)).
Proof.
  unfold storeRefs, recordNavigation, recordConsole.
  destruct (requireReady m s) as [[a r]|] eqn:Hr; [|done].
  apply requireReady_Ok in Hr as [[_ Hr]%lookup_session_Some _]; split_and!; intros; simpl.
  - apply heap_older_alter; intros r' Hr'; simplify_eq; by apply older_next.
  - etrans; [|apply heap_older_invalidate]; simpl; eauto with refs.
  - eauto with refs.
Qed.

Lemma heap_older_step p st st' : step p st st' → heap_older (heap (mgr st)) (heap (mgr st')).
Proof.
  destruct 1; simpl;
    try match goal with H : open_begin ?m ?i ?c = _ |- _ =>
      pose proof (heap_older_open_begin m i c) as Ho; by rewrite H in Ho end.
  all: first
    [ apply heap_older_ready | apply heap_older_invalidate | apply heap_older_close_begin
    | apply heap_older_close_after_cdp | apply heap_older_close_rest | solve [simpl; eauto with refs]
    | idtac ].
  - unfold open_activity; destruct began; simpl; eauto with refs.
  - unfold open_failed; etrans; [|apply heap_older_close_begin]; simpl; eauto with refs.
Qed.

Lemma heap_older_run p st st' :
  rtc (step p) st st' → heap_older (heap (mgr st)) (heap (mgr st')).
Proof. induction 1; [done|]; etrans; [by eapply heap_older_step|done]. Qed.

(** ** Properties *)

Lemma resolveRef_Some m s g name x :
  resolveRef m s g name = Some x ↔
  ∃ a r e, lookup_session m s = Some (a, r) ∧ generation r = g ∧ map_get name (refs r) = Some e
    ∧ x = {| resolved_sessionId := s; resolved_generation := g; resolved_ref := name;
             resolved_target := target e |}.
Proof.
  unfold resolveRef; split.
  - intros ([a r] & Hl & H)%bind_Some; destruct (Z.eqb_spec (generation r) g) as [Hg|]; [|done].
    simpl in H; apply bind_Some in H as (e & He & [= <-]); eauto 10.
  - intros (a & r & e & -> & <- & He & ->); simpl; by rewrite Z.eqb_refl, He.
Qed.

Lemma refs_map_wf l : map_wf (refs_map l).
Proof.
  unfold refs_map, map_of_entries.
  enough (∀ es (m : jsmap string BrowserRefEntry), map_wf m →
    map_wf (fold_left (λ m '(k, v), map_set k v m) es m)) as H by (apply H; constructor).
  induction es as [|[k v] es IH]; intros m Hm; simpl; [done|]; by apply IH, map_set_wf.
Qed.

Lemma refs_map_elem l k e : (k, e) ∈ refs_map l → k = ref e ∧ e ∈ l.
Proof.
  intros (e' & [= -> ->] & He)%map_of_entries_elem%list_elem_of_fmap; done.
Qed.

Lemma storeRefs_Ok m s entries now snap m' :
  storeRefs m s entries now = (Ok (Some snap), m') →
  ∃ a r, lookup_session m s = Some (a, r)
    ∧ let rs := refs_map (take (maxRefs (limits m)) entries) in
      lookup_session m' s = Some (a, set_refs (generation r + 1) rs now r)
      ∧ snapshot_generation snap = generation r + 1 ∧ snapshot_refs snap = map_values rs.
Proof.
  unfold storeRefs; destruct (requireReady m s) as [[a r]|] eqn:Hr; [|done].
  apply requireReady_Ok in Hr as [Hl Hready]; intros [= Hsnap <-]; exists a, r; split; [done|].
  apply lookup_session_Some in Hl as [Hs Hr]; simpl.
  assert (lookup_session (update_record m a (set_refs (generation r + 1)
    (refs_map (take (maxRefs (limits m)) entries)) now)) s
    = Some (a, set_refs (generation r + 1) (refs_map (take (maxRefs (limits m)) entries)) now r))
    as Hl' by (apply lookup_session_Some; split; [done|]; by rewrite lookup_update_eq, Hr).
  split; [done|]; unfold snapshot in Hsnap; rewrite Hl' in Hsnap; simpl in Hsnap.
  rewrite bool_decide_true in Hsnap by done; by simplify_eq.
Qed.

(** C29. When the calls that open or close one session wait for each other, however
    the calls on different sessions interleave at their awaits, every reachable
    manager respects the service, agent and profile limits, and every browser
    process that is still running belongs to the record its session maps to:
    none is lost. *)
Theorem serialized_sessions_safe l bridge st :
  reachable serialized l bridge st →
  within_limits (mgr st)
  ∧ ∀ a r, heap (mgr st) !! a = Some r → killed (process r) = false →
      lookup_session (mgr st) (sessionId r) = Some (a, r).
Proof.
  intros Hi%browser_invariant; split; [apply Hi|]; intros a r Hr Hk.
  apply lookup_session_Some; split; [by apply Hi|done].
Qed.

(** C34. Every reference of the snapshot [storeRefs] returns is one of the entries
    given and resolves, under the snapshot's generation, to that entry's target.
    Afterwards, in any interleaving of the manager's calls, that generation of the session
    resolves a name only to the snapshot's entry of that name, as long as the session has
    not been closed and opened again: a later resolution to something else is one of
    another record, whose generations start over. *)
Theorem snapshot_refs_sound m s entries now snap m' ts :
  storeRefs m s entries now = (Ok (Some snap), m') →
  (∀ e, e ∈ snapshot_refs snap → e ∈ entries
     ∧ resolveRef m' s (snapshot_generation snap) (ref e)
       = Some {| resolved_sessionId := s; resolved_generation := snapshot_generation snap;
                 resolved_ref := ref e; resolved_target := target e |})
  ∧ ∃ a r, lookup_session m' s = Some (a, r) ∧
    ∀ p st' name x, rtc (step p) {| mgr := m'; tasks := ts |} st' →
      resolveRef (mgr st') s (snapshot_generation snap) name = Some x →
      (∃ e, e ∈ snapshot_refs snap ∧ ref e = name ∧ resolved_target x = target e)
      ∨ ∃ a' r', lookup_session (mgr st') s = Some (a', r') ∧ a' ≠ a.
Proof.
  intros (a & r & Hl & Hl' & Hg & Hrs)%storeRefs_Ok; rewrite Hg, Hrs; split.
  - intros e ([k e'] & -> & Hin)%list_elem_of_fmap; simpl.
    apply refs_map_elem in Hin as Hin'; destruct Hin' as [-> He].
    split; [by apply elem_of_take in He as (i & Hi & _); eapply list_elem_of_lookup_2|]; apply resolveRef_Some; do 3 eexists.
    split_and!; [done|done| |done]; by apply map_get_wf, Hin; apply refs_map_wf.
  - eexists a, _; split; [exact Hl'|]. intros p st' name x Hrun (b' & r3 & e & Hl2 & Hg3 & He & ->)%resolveRef_Some.
    destruct (decide (b' = a)) as [->|]; [left|right; eauto].
    apply lookup_session_Some in Hl' as [_ Hr1], Hl2 as [_ Hr2].
    destruct (heap_older_run _ _ _ Hrun _ _ Hr1) as (? & ? & [Hlt|[_ [Heq|Heq]]]); simplify_eq/=;
      [lia| |by rewrite Heq in He].
    rewrite Heq in He; apply map_get_elem in He; exists e; split; [|by apply refs_map_elem in He as [-> _]].
    apply list_elem_of_fmap; by exists (name, e).
Qed.

(** [closeAll], with no other call under way, is a run of the step relation:
    it counts the sessions it found, leaves no session in the map and no browser
    process running. *)
Theorem closeAll_complete l bridge m cdpError why :
  reachable serialized l bridge {| mgr := m; tasks := [] |} →
  let result := closeAll cdpError m why in
  reachable serialized l bridge {| mgr := result.2; tasks := [] |}
  ∧ closed_count result.1 = length (sessions m)
  ∧ sessions result.2 = []
  ∧ ∀ a r, heap result.2 !! a = Some r → killed (process r) = true.
Proof.
  intros Hreach; pose proof (browser_invariant _ _ _ Hreach) as Hi; simpl in Hi.
  unfold closeAll; rewrite (invariant_keys _ _ Hi); simpl.
  set (m' := close_sessions cdpError m (map_keys (sessions m)) why).
  assert (rtc (step serialized) {| mgr := m; tasks := [] |} {| mgr := m'; tasks := [] |}) as Hrun
    by apply close_sessions_run, Hi.
  pose proof (invariant_run _ _ Hrun Hi) as Hi'; simpl in Hi'.
  assert (sessions m' = []) as Hempty.
  { apply map_get_all_None; intros s; unfold m'.
    rewrite close_sessions_get by (by eapply invariant_known); case_bool_decide as Hin; [done|].
    by apply map_get_None. }
  split_and!; [|unfold map_keys; apply length_fmap|done|].
  - by eapply reachable_run.
  - intros a r Hr; destruct (killed (process r)) eqn:Hk; [done|].
    pose proof (inv_owned _ _ Hi' a r Hr Hk) as Hs; by rewrite Hempty in Hs.
Qed.

(** [sweep], with no other call under way, closes exactly the sessions that
    have outlived the hard lifetime or the idle timeout: the others keep their
    records unchanged, the summary counts the closed ones, and every browser
    process still running afterwards belongs to an unexpired session. *)
Theorem sweep_exact l bridge m cdpError now :
  reachable serialized l bridge {| mgr := m; tasks := [] |} →
  let result := sweep cdpError m now in
  (∀ s a r, lookup_session result.2 s = Some (a, r) ↔
     lookup_session m s = Some (a, r) ∧ sweep_reason (limits m) now r = None)
  ∧ closed_count result.1 = length (List.filter (overdue (limits m) now) (session_records m))
  ∧ ∀ a r, heap result.2 !! a = Some r → killed (process r) = false →
      sweep_reason (limits m) now r = None.
Proof.
  intros Hi%browser_invariant; simpl in Hi.
  destruct (sweep_loop_effect cdpError now (map_values (sessions m)) m [] Hi) as (Hrun & _ & Hm & Hc).
  { by eapply invariant_addrs. }
  { apply Forall_forall; intros a ([s a'] & -> & Hin)%list_elem_of_fmap; simpl.
    apply map_get_wf in Hin; [|apply Hi]; destruct (inv_addr _ _ Hi _ _ Hin) as (r & Hr & _).
    exists s, r; by apply lookup_session_Some. }
  pose proof (invariant_run _ _ Hrun Hi) as Hi'; simpl in Hi', Hc.
  assert (∀ s a r, lookup_session (sweep cdpError m now).2 s = Some (a, r) ↔
    lookup_session m s = Some (a, r) ∧ sweep_reason (limits m) now r = None) as Hlook.
  { intros s a r; unfold sweep; destruct (sweep_loop _ _ _ _ _) as [counts m']; simpl in *.
    rewrite Hm; split; [|naive_solver]; intros [Hl Ha]; split; [done|]; apply Ha.
    apply lookup_session_Some in Hl as [Hs _]; apply map_get_elem in Hs.
    apply list_elem_of_fmap; by exists (s, a). }
  split_and!; [done| |].
  - unfold sweep; by destruct (sweep_loop _ _ _ _ _) as [counts m'].
  - intros a r Hr Hk; apply (Hlook (sessionId r) a r), lookup_session_Some; split; [|done].
    unfold sweep in *; destruct (sweep_loop _ _ _ _ _) as [counts m']; by apply Hi'.
Qed.

(** ** Samples *)

Module BrowserSample.
Definition input : BrowserOpenInput :=
  {| input_sessionId := "s1"; input_agentId := "a1"; input_profileId := "p1";
     input_wakeId := None; input_parentActivityId := None; input_now := None |}.
Definition launch : BrowserLaunchResult :=
  {| launched_process := {| pid := Some 42; killed := false |}; launched_cdp := Some 0%nat;
     launched_userDataDir := "/tmp/d"; launched_pageWebSocketUrl := None |}.
Definition entry (t : string) : BrowserRefEntry :=
  {| ref := "e1"; target := t; role := None; ref_name := None |}.
Definition noError (a : nat) : option string := None.

Definition m0 := new_manager None false.
(** Opening, launched at time 5, then one snapshot of one reference. *)
Definition opened (m : BrowserSessionManager) : BrowserSessionManager := (open_begin m input 0).2.
Definition launched (m : BrowserSessionManager) (a : nat) : BrowserSessionManager :=
  open_launched m a launch 5.
Definition stored (t : string) (m : BrowserSessionManager) : BrowserSessionManager :=
  (storeRefs m "s1" [entry t] 6).2.

Definition m2 := stored "button" (launched (opened m0) 0).
(** Closed and opened once more. *)
Definition m3 := close noError m2 "s1" manual.
Definition m4 := stored "link" (launched (opened m3) 1).

Lemma open_run p m a :
  p "s1" [] → open_begin m input 0 = (Ok (Launch a), opened m) →
  rtc (step p) {| mgr := m; tasks := [] |}
    {| mgr := launched (opened m) a;
       tasks := if activityBridge (opened m) then [Beginning a "s1" "x"] else [] |}.
Proof.
  intros Hp Ho; eapply rtc_l; [by apply (step_open p _ input 0 a (opened m))|]; simpl.
  eapply rtc_l; [|done].
  pose proof (step_launched p {| mgr := opened m; tasks := [Launching a "s1"] |} a "s1" launch 5 "x" []
    (Permutation_refl _) eq_refl) as Hs.
  simpl in Hs; by rewrite app_nil_r in Hs.
Qed.

Lemma reachable_m2 p : p "s1" [] → reachable p None false {| mgr := m2; tasks := [] |}.
Proof.
  intros Hp; eapply reachable_run; [apply reachable_new|]; etrans; [by apply (open_run p m0 0)|].
  apply rtc_once, (step_storeRefs p {| mgr := launched (opened m0) 0; tasks := [] |}).
Qed.

Lemma m2_run_m4 : rtc (step serialized) {| mgr := m2; tasks := [] |} {| mgr := m4; tasks := [] |}.
Proof.
  etrans; [by apply (close_run noError serialized m2 [] "s1" manual), not_elem_of_nil|].
  etrans; [by apply (open_run serialized m3 1); [apply not_elem_of_nil|]|].
  apply rtc_once, (step_storeRefs serialized {| mgr := launched (opened m3) 1; tasks := [] |}).
Qed.

(** A launched session, its only process in the map. *)
Lemma serialized_sessions_safe_witness :
  within_limits m2
  ∧ ∃ r, heap m2 !! 0%nat = Some r ∧ lookup_session m2 (sessionId r) = Some (0%nat, r).
Proof.
  destruct (serialized_sessions_safe None false {| mgr := m2; tasks := [] |}
    (reachable_m2 serialized (not_elem_of_nil "s1"))) as [Hl Hr].
  split; [exact Hl|]; eexists; split; [reflexivity|]; by apply Hr.
Defined.

Lemma snapshot_refs_sound_witness :
  ∃ snap, storeRefs (launched (opened m0) 0) "s1" [entry "button"] 6 = (Ok (Some snap), m2)
    ∧ resolveRef m2 "s1" 1 "e1"
      = Some {| resolved_sessionId := "s1"; resolved_generation := 1; resolved_ref := "e1";
                resolved_target := "button" |}.
Proof.
  eexists; split; [reflexivity|].
  apply (proj1 (snapshot_refs_sound (launched (opened m0) 0) "s1" [entry "button"] 6 _ m2 [] eq_refl)
    (entry "button")); left.
Defined.

Lemma closeAll_complete_witness :
  sessions m2 ≠ [] ∧ sessions (closeAll noError m2 service_shutdown).2 = [].
Proof.
  split; [done|].
  apply (closeAll_complete None false m2 noError service_shutdown
    (reachable_m2 serialized (not_elem_of_nil "s1"))).
Defined.

Lemma sweep_exact_witness :
  closed_count (sweep noError m2 600006).1 = 1%nat ∧ closed_count (sweep noError m2 600005).1 = 0%nat.
Proof.
  pose proof (sweep_exact None false m2 noError 600006
    (reachable_m2 serialized (not_elem_of_nil "s1"))) as (_ & H1 & _).
  pose proof (sweep_exact None false m2 noError 600005
    (reachable_m2 serialized (not_elem_of_nil "s1"))) as (_ & H2 & _).
  split; [rewrite H1|rewrite H2]; vm_compute; reflexivity.
Defined.

(** A close that starts while the launcher is at work removes the pending record
    from the map; the launcher then hands its process to that record, which no
    later call can find. *)
Example close_during_launch_leaks :
  ∃ st r, reachable unrestricted None false st ∧ tasks st = []
    ∧ sessions (mgr st) = [] ∧ heap (mgr st) !! 0%nat = Some r
    ∧ state r = ready ∧ killed (process r) = false.
Proof.
  set (c := {| close_addr := 0; close_session := "s1"; close_why := manual; close_failed := false |}).
  set (ma := opened m0); set (mb := (close_begin ma "s1" manual).2).
  set (mc := (close_after_cdp mb c None).2).
  exists {| mgr := launched mc 0; tasks := [] |}; eexists; split; [|vm_compute; split_and!; reflexivity].
  eapply reachable_step.
  2:{ apply (step_launched unrestricted {| mgr := mc; tasks := [Launching 0 "s1"] |} 0 "s1" launch 5 "x" []);
      done. }
  eapply reachable_step.
  2:{ apply (step_cdp_closed unrestricted {| mgr := mb; tasks := [ClosingCdp c; Launching 0 "s1"] |} c None
        [Launching 0 "s1"]); done. }
  eapply reachable_step.
  2:{ apply (step_close unrestricted {| mgr := ma; tasks := [Launching 0 "s1"] |} "s1" manual); done. }
  eapply reachable_step; [apply reachable_new|].
  by apply (step_open unrestricted {| mgr := m0; tasks := [] |} input 0 0%nat ma).
Qed.

(** The generation starts again at zero when a session is opened again: a
    reference of the closed page resolves to an element of the new one. *)
Example reopened_session_resolves_old_refs :
  rtc (step serialized) {| mgr := m2; tasks := [] |} {| mgr := m4; tasks := [] |}
  ∧ resolved_target <$> resolveRef m2 "s1" 1 "e1" = Some "button"
  ∧ resolveRef m3 "s1" 1 "e1" = None
  ∧ resolved_target <$> resolveRef m4 "s1" 1 "e1" = Some "link".
Proof. split; [apply m2_run_m4|]; vm_compute; split_and!; reflexivity. Qed.

(** A ring size of zero keeps every line: [slice(-0)] is [slice(0)]. *)
Definition unringed : PartialLimits :=
  {| given_maxServiceSessions := None; given_maxSessionsPerAgent := None;
     given_maxSessionsPerProfile := None; given_idleTimeoutMs := None; given_hardLifetimeMs := None;
     given_startupTimeoutMs := None; given_cdpCallTimeoutMs := None; given_maxRefs := None;
     given_consoleRingSize := Some 0%nat |}.

Example zero_ring_keeps_all :
  let m := launched (opened (new_manager (Some unringed) false)) 0 in
  let m' := (recordConsole (recordConsole m "s1" "one").2 "s1" "two").2 in
  console <$> heap m' !! 0%nat = Some ["one"; "two"].
Proof. vm_compute; reflexivity. Qed.
End BrowserSample.

(** With a positive ring size the console never holds more lines than that. *)
Lemma console_ring m s line r a m' :
  (0 < consoleRingSize (limits m))%nat → recordConsole m s line = (Ok (), m') →
  lookup_session m' s = Some (a, r) → (length (console r) ≤ consoleRingSize (limits m))%nat.
Proof.
  unfold recordConsole; intros Hn; destruct (requireReady m s) as [[b r0]|] eqn:Hr; [|done].
  apply requireReady_Ok in Hr as [[Hs Hr]%lookup_session_Some _]; intros [= <-].
  intros [Hs' Hr']%lookup_session_Some; simpl in Hs'; simplify_eq.
  rewrite lookup_update_eq, Hr in Hr'; simplify_eq/=; unfold slice_last.
  destruct (Nat.eqb_spec (consoleRingSize (limits m)) 0); [lia|].
  rewrite length_drop, length_app; simpl; lia.
Qed.
