(* ===== verification/CdpConnection.v ===== *)
(** * The CDP websocket connection

    [CdpWebSocketConnection] of
    [ts/packages/brain-island/src/browser-session-manager.ts].  The promises the
    connection hands out are the log of their settlements; the timers that are
    running are a set.  What happens to a connection is a sequence of events: its
    own calls, timers that run out, messages, and the socket changing state.
    [JSON.parse] of a message is an argument. *)

From stdpp Require Import sets.
From S2P Require Import Prelude JsString Json.
#[local] Open Scope Z_scope.

Record CdpError := { error_message : option string }.

Record CdpResponse := {
  response_id : option Z;
  response_result : json;
  response_error : option CdpError
}.

Inductive outcome :=
| Resolved (value : json)
| Rejected (message : string).

Record CdpWebSocketConnection := {
  socketOpen : bool;
  nextId : Z;
  (** the calls under way, by id, with their method *)
  pending : jsmap Z string;
  (** the timers that are running, by the id of their call *)
  timers : list Z;
  (** every settlement of a promise, in order *)
  settled : list (Z * outcome)
}.

Definition connected : CdpWebSocketConnection :=
  {| socketOpen := true; nextId := 1; pending := []; timers := []; settled := [] |}.

(** [call]: the id of the call whose promise is returned. *)
Definition call (method : string) (c : CdpWebSocketConnection) : result Z * CdpWebSocketConnection :=
  if negb (socketOpen c) then (Throw "CDP websocket is not open", c)
  else
    (Ok (nextId c),
     {| socketOpen := true; nextId := nextId c + 1; pending := map_set (nextId c) method (pending c);
        timers := set_add (nextId c) (timers c); settled := settled c |}).

(** Settling the promise of a call through its pending entry stops its timer. *)
Definition settle (id : Z) (o : outcome) (c : CdpWebSocketConnection) : CdpWebSocketConnection :=
  {| socketOpen := socketOpen c; nextId := nextId c; pending := pending c;
     timers := set_delete id (timers c); settled := settled c ++ [(id, o)] |}.

Definition set_pending (p : jsmap Z string) (c : CdpWebSocketConnection) : CdpWebSocketConnection :=
  {| socketOpen := socketOpen c; nextId := nextId c; pending := p; timers := timers c;
     settled := settled c |}.

Definition set_open (b : bool) (c : CdpWebSocketConnection) : CdpWebSocketConnection :=
  {| socketOpen := b; nextId := nextId c; pending := pending c; timers := timers c;
     settled := settled c |}.

(** The timer of a call runs out. *)
Definition timedOut (id : Z) (c : CdpWebSocketConnection) : CdpWebSocketConnection :=
  let method := default "" (map_get id (pending c)) in
  settle id (Rejected ("CDP method timed out: " +:+ method)) (set_pending (map_delete id (pending c)) c).

Definition close (c : CdpWebSocketConnection) : CdpWebSocketConnection :=
  set_pending []
    (fold_left (λ c id, settle id (Rejected "CDP websocket closed") c) (map_keys (pending c))
       (set_open false c)).

Section Messages.
(** [JSON.parse] *)
Context (parse : string → result CdpResponse).

(** A message event with the given [data], a string or not. *)
Definition onMessage (data : option string) (c : CdpWebSocketConnection)
    : result unit * CdpWebSocketConnection :=
  if negb (truthy data) then (Ok (), c)
  else
    match parse (default "" data) with
    | Throw e => (Throw e, c)
    | Ok message =>
        match response_id message with
        | None => (Ok (), c)
        | Some id =>
            match map_get id (pending c) with
            | None => (Ok (), c)
            | Some _ =>
                let c1 := set_pending (map_delete id (pending c)) c in
                (Ok (),
                 match response_error message with
                 | Some e => settle id (Rejected (default "CDP error" (error_message e))) c1
                 | None =>
                     settle id (Resolved (match response_result message with
                                          | JUndefined | JNull => JObject []
                                          | v => v
                                          end)) c1
                 end)
            end
        end
    end.

Inductive event :=
| Call (method : string)
| TimerFired (id : Z)
| Message (data : option string)
| Close
| SocketState (open : bool).

(** A timer only fires while it runs. *)
Definition enabled (c : CdpWebSocketConnection) (e : event) : Prop :=
  match e with TimerFired id => id ∈ timers c | _ => True end.

Definition handle (e : event) (c : CdpWebSocketConnection) : CdpWebSocketConnection :=
  match e with
  | Call method => (call method c).2
  | TimerFired id => timedOut id c
  | Message data => (onMessage data c).2
  | Close => close c
  | SocketState b => set_open b c
  end.

Inductive reached : CdpWebSocketConnection → Prop :=
| reached_connected : reached connected
| reached_event c e : reached c → enabled c e → reached (handle e c).

(** ** Every call is pending with a timer, or settled, and only once *)

Record accounted (c : CdpWebSocketConnection) : Prop := {
  acc_pending : map_wf (pending c);
  acc_timers : NoDup (timers c) ∧ ∀ id, id ∈ timers c ↔ id ∈ map_keys (pending c);
  acc_settled : NoDup (settled c).*1;
  acc_next : 1 <= nextId c;
  acc_ids : ∀ id, 1 <= id < nextId c ↔ (id ∈ map_keys (pending c) ∨ id ∈ (settled c).*1);
  acc_disjoint : ∀ id, id ∈ map_keys (pending c) → id ∉ (settled c).*1
}.

Lemma accounted_connected : accounted connected.
Proof.
  split; simpl; [constructor|split; [constructor|done]|constructor|done| |by intros id []%not_elem_of_nil].
  intros id; split; [lia|]; intros [[]%not_elem_of_nil|[]%not_elem_of_nil].
Qed.

Lemma elem_of_map_delete id id' (p : jsmap Z string) :
  id' ∈ map_keys (map_delete id p) ↔ id' ≠ id ∧ id' ∈ map_keys p.
Proof. by rewrite map_keys_delete, list_elem_of_filter. Qed.

Lemma accounted_settle id o c :
  accounted c → id ∈ map_keys (pending c) →
  accounted (settle id o (set_pending (map_delete id (pending c)) c)).
Proof.
  intros [Hp [Ht Htp] Hs Hn Hids Hd] Hid; split; simpl.
  - by apply map_delete_wf.
  - split; [by apply NoDup_filter|]; intros id'.
    rewrite elem_of_map_delete, elem_of_set_delete, Htp; naive_solver.
  - rewrite fmap_app; apply NoDup_app; split_and!; [done| |apply NoDup_singleton].
    intros x Hx ->%list_elem_of_singleton; by apply (Hd id).
  - done.
  - intros id'; rewrite Hids, elem_of_map_delete, fmap_app, elem_of_app; simpl.
    rewrite list_elem_of_singleton; destruct (decide (id' = id)); naive_solver.
  - intros id'; rewrite elem_of_map_delete, fmap_app, elem_of_app; simpl.
    rewrite list_elem_of_singleton; naive_solver.
Qed.

Lemma accounted_call method c : accounted c → accounted (call method c).2.
Proof.
  intros [Hp [Ht Htp] Hs Hn Hids Hd]; unfold call; destruct (socketOpen c); simpl; [|done].
  assert (nextId c ∉ map_keys (pending c)) as Hnew.
  { intros Hin; assert (1 <= nextId c < nextId c) by (apply Hids; auto); lia. }
  assert (nextId c ∉ (settled c).*1) as Hnew'.
  { intros Hin; assert (1 <= nextId c < nextId c) by (apply Hids; auto); lia. }
  split; simpl.
  - by apply map_set_wf.
  - split; [by apply set_add_NoDup|]; intros id; by rewrite elem_of_set_add, map_keys_set, Htp.
  - done.
  - lia.
  - intros id; rewrite map_keys_set; specialize (Hids id).
    destruct (decide (id = nextId c)) as [->|]; [split; [auto|lia]|].
    split; [intros ?; destruct Hids as [[|] _]; auto; lia|].
    intros [[|]|]; [done| |]; assert (1 <= id < nextId c) by (apply Hids; auto); lia.
  - intros id [->|Hid]%map_keys_set; auto.
Qed.

Lemma close_fold ids o c :
  let c' := fold_left (λ c id, settle id o c) ids c in
  settled c' = settled c ++ ((λ id, (id, o)) <$> ids) ∧ nextId c' = nextId c
  ∧ socketOpen c' = socketOpen c
  ∧ timers c' = fold_left (λ t id, set_delete id t) ids (timers c).
Proof.
  revert c; induction ids as [|id ids IH]; intros c; simpl; [by rewrite app_nil_r|].
  destruct (IH (settle id o c)) as (-> & -> & -> & ->); simpl; by rewrite <- (assoc_L (++)).
Qed.

Lemma cdp_close_effect c :
  accounted c →
  pending (close c) = [] ∧ timers (close c) = [] ∧ nextId (close c) = nextId c ∧ socketOpen (close c) = false
  ∧ settled (close c)
    = settled c ++ ((λ id, (id, Rejected "CDP websocket closed")) <$> map_keys (pending c)).
Proof.
  intros [Hp [Ht Htp] Hs Hn Hids Hd]; unfold close; simpl.
  destruct (close_fold (map_keys (pending c)) (Rejected "CDP websocket closed") (set_open false c))
    as (-> & -> & -> & ->).
  split_and!; try done.
  - simpl; destruct (fold_left _ _ _) as [|x l] eqn:Hl; [done|].
    assert (x ∈ x :: l) as Hx by left; rewrite <- Hl in Hx.
    apply fold_set_delete in Hx as [Hx Hnot]; destruct Hnot; by apply Htp.
Qed.

Lemma settled_inj (l : list (Z * outcome)) id o o' : NoDup l.*1 → (id, o) ∈ l → (id, o') ∈ l → o = o'.
Proof.
  induction l as [|[k x] l IH]; simpl; [by intros _ ?%not_elem_of_nil|].
  intros [Hk Hl]%NoDup_cons [[= -> ->]|Ho]%elem_of_cons [[= ->]|Ho']%elem_of_cons; auto.
  - destruct Hk; by apply (list_elem_of_fmap_2 fst) in Ho'.
  - destruct Hk; by apply (list_elem_of_fmap_2 fst) in Ho.
Qed.

Lemma accounted_close c : accounted c → accounted (close c).
Proof.
  intros Hc; destruct (cdp_close_effect c Hc) as (Hp & Ht & Hn & _ & Hs).
  destruct Hc as [Hwf _ Hnd Hn1 Hids Hd].
  assert ((settled (close c)).*1 = (settled c).*1 ++ map_keys (pending c)) as Hfst.
  { rewrite Hs, fmap_app, <- list_fmap_compose; f_equal; apply list_fmap_id. }
  split; rewrite ?Hp, ?Ht, ?Hn, ?Hfst; simpl; [constructor|split; [constructor|done]| |done| |].
  - apply NoDup_app; split_and!; [done| |done]; intros x Hx Hx'; by apply (Hd x).
  - intros id; rewrite Hids, elem_of_app; set_solver.
  - by intros id []%not_elem_of_nil.
Qed.

Lemma accounted_message data c : accounted c → accounted (onMessage data c).2.
Proof.
  intros Hc; unfold onMessage; destruct (negb _); [done|].
  destruct (parse _) as [message|]; [|done]; destruct (response_id message) as [id|]; [|done].
  destruct (map_get id (pending c)) as [method|] eqn:Hid; [|done]; simpl.
  assert (id ∈ map_keys (pending c)) as Hin by (apply map_get_is_Some; by eexists).
  destruct (response_error message); by apply accounted_settle.
Qed.

Lemma reached_accounted c : reached c → accounted c.
Proof.
  induction 1 as [|c e _ IH He]; [apply accounted_connected|].
  destruct e as [method|id|data| |b]; simpl.
  - by apply accounted_call.
  - apply accounted_settle; [done|]; by apply IH.
  - by apply accounted_message.
  - by apply accounted_close.
  - by destruct IH.
Qed.

Definition settled_once (id : Z) (c : CdpWebSocketConnection) : Prop :=
  ∃ o, (id, o) ∈ settled c ∧ ∀ o', (id, o') ∈ settled c → o' = o.

(** C40. Whatever calls, messages, expiring timers, closes and socket changes a
    connection has seen, each call it has accepted is either still pending, with its
    timer running and its promise unsettled, or has had its promise settled exactly
    once and has no timer left; and closing the connection settles every call. *)
Theorem cdp_calls_settle_once c :
  reached c →
  (∀ id, 1 <= id < nextId c →
     (id ∈ map_keys (pending c) ∧ id ∈ timers c ∧ (id ∉ (settled c).*1))
     ∨ ((id ∉ map_keys (pending c)) ∧ (id ∉ timers c) ∧ settled_once id c))
  ∧ (∀ id, 1 <= id < nextId c → settled_once id (close c))
  ∧ NoDup (settled c).*1.
Proof.
  intros Hc%reached_accounted; pose proof (accounted_close c Hc) as Hc'.
  assert (∀ c' id, accounted c' → id ∈ (settled c').*1 → settled_once id c') as Huniq.
  { intros c' id [_ _ Hnd _ _ _] ([id' o] & -> & Ho)%list_elem_of_fmap; exists o; split; [done|].
    intros o' Ho'; by eapply settled_inj. }
  split_and!; [intros id Hid|intros id Hid|apply Hc].
  - destruct (decide (id ∈ map_keys (pending c))) as [Hp|Hp]; [left|right]; split_and!; try done.
    + by apply Hc.
    + by apply Hc.
    + rewrite (proj2 (acc_timers _ Hc)); done.
    + apply (acc_ids _ Hc) in Hid as [|]; [done|]; by apply Huniq.
  - destruct (cdp_close_effect c Hc) as (Hp & _ & Hn & _); rewrite <- Hn in Hid.
    apply (acc_ids _ Hc') in Hid as [Hid|Hid]; [rewrite Hp in Hid; by apply not_elem_of_nil in Hid|].
    by apply Huniq.
Qed.
End Messages.

Module CdpSample.
Definition reply (text : string) : result CdpResponse :=
  if String.eqb text "two" then Ok {| response_id := Some 2; response_result := JUndefined; response_error := None |}
  else Throw "Unexpected token".
Definition two_calls : CdpWebSocketConnection :=
  handle reply (Message (Some "two")) (handle reply (Call "Runtime.enable")
    (handle reply (Call "Page.enable") connected)).

Lemma reached_two_calls : reached reply two_calls.
Proof. repeat (apply reached_event; [|exact I]); apply reached_connected. Qed.

(** The answered call is settled, the other one waits. *)
Lemma cdp_calls_settle_once_witness :
  settled two_calls = [(2, Resolved (JObject []))] ∧ 1 ∈ timers two_calls
  ∧ settled_once 1 (close two_calls).
Proof.
  pose proof (cdp_calls_settle_once reply two_calls reached_two_calls) as (H1 & H2 & _).
  split; [reflexivity|]; split; [|apply H2; vm_compute; done].
  destruct (H1 1) as [(_ & H & _)|(H & _)]; [vm_compute; done|exact H|].
  destruct H; vm_compute; left.
Defined.
End CdpSample.
