(* ===== verification/ContextPolicy.v ===== *)
(** * Context strategy policies and context estimates

    [ts/packages/brain-island/src/context-strategy.ts] and [context-estimate.ts]:
    reading a policy out of an arbitrary value, with diagnostics, preparing the
    role assembly, and estimating prompt tokens.  The diagnostics array the
    functions push to is threaded through them.  Numbers come as the text
    [JSON.stringify] gives them; the product with 1.33 is the IEEE double one,
    rounded to 53 bits. *)

From S2P Require Import Prelude JsString Json.
#[local] Open Scope Z_scope.

(** ** Data *)

Inductive ContextStrategyId :=
| recent_window | session_memory_augmented | rolling_summary_compaction
| roleplay_scene_aware_compaction.

Inductive ContextDebugVisibility := off | status | verbose.

#[global] Instance ContextStrategyId_eq_dec : EqDecision ContextStrategyId.
Proof. solve_decision. Defined.

Definition strategy_text (i : ContextStrategyId) : string :=
  match i with
  | recent_window => "recent_window"
  | session_memory_augmented => "session_memory_augmented"
  | rolling_summary_compaction => "rolling_summary_compaction"
  | roleplay_scene_aware_compaction => "roleplay_scene_aware_compaction"
  end.

Definition visibility_text (v : ContextDebugVisibility) : string :=
  match v with off => "off" | status => "status" | verbose => "verbose" end.

Inductive DescriptorStatus := active | planned.

Record ContextStrategyDescriptor := {
  descriptor_id : ContextStrategyId;
  label : string;
  description : string;
  descriptor_status : DescriptorStatus;
  supportsAutoCompaction : bool;
  modelFacingDebugDefault : bool
}.

Record ContextStrategyPolicy := {
  enabled : bool;
  strategyId : ContextStrategyId;
  autoCompactionEnabled : bool;
  compactAtPercent : Z;
  targetPercentAfterCompaction : Z;
  maxContextPercentForWake : Z;
  debugVisibility : ContextDebugVisibility;
  includeDebugEventsInModelContext : bool;
  strategyConfig : list (string * json)
}.

Inductive DiagnosticSeverity := error | warning.

Record ContextStrategyPolicyDiagnostic := {
  severity : DiagnosticSeverity;
  diagnostic_code : string;
  path : string;
  diagnostic_message : string
}.

Record ContextStrategyRoleAssemblyPreparation := {
  prepared_strategyId : ContextStrategyId;
  additionalInstructions : list string;
  diagnostics : list ContextStrategyPolicyDiagnostic
}.

Definition CONTEXT_STRATEGY_DESCRIPTORS : list ContextStrategyDescriptor :=
  [ {| descriptor_id := recent_window; label := "Recent Window";
       description := "Compatibility strategy that preserves the current wake assembly behavior.";
       descriptor_status := active; supportsAutoCompaction := false; modelFacingDebugDefault := false |};
    {| descriptor_id := session_memory_augmented; label := "Session Memory Augmented";
       description := "Uses Rust-selected session memory alongside the recent wake window.";
       descriptor_status := planned; supportsAutoCompaction := false; modelFacingDebugDefault := false |};
    {| descriptor_id := rolling_summary_compaction; label := "Rolling Summary Compaction";
       description := "Compacts long mid-turn model projections in Rust while preserving the durable transcript and continuation provenance.";
       descriptor_status := active; supportsAutoCompaction := true; modelFacingDebugDefault := false |};
    {| descriptor_id := roleplay_scene_aware_compaction; label := "Roleplay Scene-Aware Compaction";
       description := "Uses Crew's generic lifecycle with Roleplay-owned scene, voice, emotional-continuity, and lore-provenance preservation.";
       descriptor_status := active; supportsAutoCompaction := true; modelFacingDebugDefault := false |} ].

Definition defaultContextStrategyPolicy : ContextStrategyPolicy :=
  {| enabled := true; strategyId := recent_window; autoCompactionEnabled := false;
     compactAtPercent := 80; targetPercentAfterCompaction := 55; maxContextPercentForWake := 95;
     debugVisibility := status; includeDebugEventsInModelContext := false; strategyConfig := [] |}.

Record ContextStrategyCatalog := {
  schemaVersion : Z;
  defaultStrategyId : ContextStrategyId;
  policyDefaults : ContextStrategyPolicy;
  strategies : list ContextStrategyDescriptor;
  percentRange : Z * Z
}.

Definition contextStrategyCatalog : ContextStrategyCatalog :=
  {| schemaVersion := 1; defaultStrategyId := recent_window;
     policyDefaults := defaultContextStrategyPolicy; strategies := CONTEXT_STRATEGY_DESCRIPTORS;
     percentRange := (1, 100) |}.

Definition contextStrategyDescriptor (i : option string) : option ContextStrategyDescriptor :=
  List.find (λ d, bool_decide (Some (strategy_text (descriptor_id d)) = i)) CONTEXT_STRATEGY_DESCRIPTORS.

Definition problem (c p text : string) : ContextStrategyPolicyDiagnostic :=
  {| severity := error; diagnostic_code := c; path := p; diagnostic_message := text |}.

(** ** Role assembly *)

Definition compaction_note (p : ContextStrategyPolicy) : string :=
  "Auto-compaction is " +:+ (if autoCompactionEnabled p then "enabled" else "disabled")
  +:+ " at " +:+ pretty (compactAtPercent p) +:+ "% with target "
  +:+ pretty (targetPercentAfterCompaction p) +:+ "%.".

Definition strategy_instructions (p : ContextStrategyPolicy) : list string :=
  match strategyId p with
  | recent_window => []
  | session_memory_augmented =>
      ["Context strategy: session_memory_augmented. Use the selected recent conversation window plus any Rust-selected session memory context provided below. Treat session memory as compact derived context, not as a replacement for current user messages."]
  | rolling_summary_compaction =>
      ["Context strategy: rolling_summary_compaction. Prefer recent conversation evidence and durable summary artifacts when present. "
       +:+ compaction_note p]
  | roleplay_scene_aware_compaction =>
      ["Context strategy: roleplay_scene_aware_compaction. Treat director context as derived narrative continuity, preserve recent scene evidence verbatim, and use lore provenance rather than inventing missing facts. "
       +:+ compaction_note p]
  end.

Definition prepareContextStrategyRoleAssembly (p : ContextStrategyPolicy)
    : ContextStrategyRoleAssemblyPreparation :=
  match contextStrategyDescriptor (Some (strategy_text (strategyId p))) with
  | None =>
      {| prepared_strategyId := strategyId p; additionalInstructions := [];
         diagnostics := [problem "context_strategy_unknown" "contextPolicy.strategyId"
           ("unknown context strategy " +:+ strategy_text (strategyId p))] |}
  | Some _ =>
      {| prepared_strategyId := strategyId p;
         additionalInstructions := if enabled p then strategy_instructions p else [];
         diagnostics := [] |}
  end.

(** ** Reading a policy *)

(** The integer part of a finite number, from the text of the number: an optional
    sign, digits, a fraction and an exponent. *)
Definition signed (t : text) : option Z :=
  match t with
  | c :: t' =>
      if bool_decide (c = "-"%char) then if Text.all_digits t' then Some (- Text.number t') else None
      else if bool_decide (c = "+"%char) then if Text.all_digits t' then Some (Text.number t') else None
      else if Text.all_digits t then Some (Text.number t) else None
  | [] => None
  end.

Definition scaled_floor (m e : Z) : Z := if 0 <=? e then m * 10 ^ e else m / 10 ^ (- e).

Definition number_floor (rendered : string) : option Z :=
  let '(mantissa, exponent) :=
    match Text.split "e"%char (chars rendered) with
    | [m] => (m, Some 0)
    | [m; x] => (m, signed x)
    | _ => ([], None)
    end in
  match Text.split "."%char mantissa, exponent with
  | [whole], Some e => (λ m, scaled_floor m e) <$> signed whole
  | [whole; fraction], Some e =>
      (λ m, scaled_floor m (e - Z.of_nat (length fraction))) <$> signed (whole ++ fraction)
  | _, _ => None
  end.

Abbreviation diagnosed A := (A * list ContextStrategyPolicyDiagnostic)%type.

Definition percentValue (value : json) (fallback : Z) (p : string)
    (ds : list ContextStrategyPolicyDiagnostic) : diagnosed Z :=
  match value with
  | JNumber t =>
      match number_floor t with
      | None => (fallback, ds)
      | Some rounded =>
          if (rounded <? 1) || (100 <? rounded)
          then (fallback, ds ++ [problem "context_policy_percent_out_of_range" p
                                   (p +:+ " must be between 1 and 100")])
          else (rounded, ds)
      end
  | _ => (fallback, ds)
  end.

Definition debugVisibilityValue (value : json) (fallback : ContextDebugVisibility)
    (ds : list ContextStrategyPolicyDiagnostic) : diagnosed ContextDebugVisibility :=
  let invalid := (fallback, ds ++ [problem "context_policy_debug_visibility_invalid"
    "contextPolicy.debugVisibility" "debugVisibility must be off, status, or verbose"]) in
  match value with
  | JString s =>
      if String.eqb s "off" then (off, ds)
      else if String.eqb s "status" then (status, ds)
      else if String.eqb s "verbose" then (verbose, ds)
      else invalid
  | JUndefined => (fallback, ds)
  | _ => invalid
  end.

Definition boolValue (value : json) (fallback : bool) : bool :=
  match value with JBool b => b | _ => fallback end.

Definition stringValue (value : json) : option string :=
  match value with
  | JString s => if String.eqb (Str.trim s) "" then None else Some (Str.trim s)
  | _ => None
  end.

(** [raw.camel ?? raw.snake] *)
Definition either (o : list (string * json)) (camel snake : string) : json :=
  match member o camel with
  | JUndefined | JNull => member o snake
  | v => v
  end.

Definition resolvedStrategyId (given : option string) (fallback : ContextStrategyId)
    (ds : list ContextStrategyPolicyDiagnostic) : diagnosed ContextStrategyId :=
  match given with
  | None => (fallback, ds)
  | Some i =>
      match contextStrategyDescriptor (Some i) with
      | Some d => (descriptor_id d, ds)
      | None => (fallback, ds ++ [problem "context_strategy_unknown" "contextPolicy.strategyId"
                                    ("unknown context strategy " +:+ i)])
      end
  end.

Definition normalizeContextStrategyPolicy (raw : list (string * json))
    (fallback : ContextStrategyPolicy) (ds : list ContextStrategyPolicyDiagnostic)
    : diagnosed ContextStrategyPolicy :=
  let '(resolved, ds) :=
    resolvedStrategyId (stringValue (either raw "strategyId" "strategy_id")) (strategyId fallback) ds in
  let '(compactAt, ds) := percentValue (either raw "compactAtPercent" "compact_at_percent")
    (compactAtPercent fallback) "contextPolicy.compactAtPercent" ds in
  let '(target, ds) := percentValue
    (either raw "targetPercentAfterCompaction" "target_percent_after_compaction")
    (targetPercentAfterCompaction fallback) "contextPolicy.targetPercentAfterCompaction" ds in
  let '(maxWake, ds) := percentValue
    (either raw "maxContextPercentForWake" "max_context_percent_for_wake")
    (maxContextPercentForWake fallback) "contextPolicy.maxContextPercentForWake" ds in
  let ds := if compactAt <=? target
    then ds ++ [problem "context_policy_target_not_below_trigger"
      "contextPolicy.targetPercentAfterCompaction"
      "targetPercentAfterCompaction must be lower than compactAtPercent"] else ds in
  let ds := if maxWake <? compactAt
    then ds ++ [problem "context_policy_trigger_above_wake_guard" "contextPolicy.compactAtPercent"
      "compactAtPercent must not exceed maxContextPercentForWake"] else ds in
  let '(visibility, ds) := debugVisibilityValue (either raw "debugVisibility" "debug_visibility")
    (debugVisibility fallback) ds in
  ({| enabled := boolValue (member raw "enabled") (enabled fallback);
      strategyId := resolved;
      autoCompactionEnabled := boolValue (either raw "autoCompactionEnabled" "auto_compaction_enabled")
        (autoCompactionEnabled fallback);
      compactAtPercent := compactAt;
      targetPercentAfterCompaction := target;
      maxContextPercentForWake := maxWake;
      debugVisibility := visibility;
      includeDebugEventsInModelContext :=
        boolValue (either raw "includeDebugEventsInModelContext" "include_debug_events_in_model_context")
          (includeDebugEventsInModelContext fallback);
      strategyConfig :=
        match either raw "strategyConfig" "strategy_config" with
        | JObject o => o
        | _ => strategyConfig fallback
        end |}, ds).

Definition contextStrategyPolicyFromUnknownWithDiagnostics (value : json)
    (fallback : ContextStrategyPolicy) : diagnosed ContextStrategyPolicy :=
  match value with
  | JObject raw => normalizeContextStrategyPolicy raw fallback []
  | _ => (fallback, [])
  end.

Definition contextStrategyPolicyFromUnknown (value : json) (fallback : ContextStrategyPolicy)
    : ContextStrategyPolicy :=
  (contextStrategyPolicyFromUnknownWithDiagnostics value fallback).1.

Definition contextStrategyPolicyFromPatch (value : json) (fallback : ContextStrategyPolicy)
    : diagnosed ContextStrategyPolicy :=
  match value with
  | JObject raw => normalizeContextStrategyPolicy raw fallback []
  | _ => (fallback, [problem "context_policy_invalid" "contextPolicy" "contextPolicy must be an object"])
  end.

(** ** Estimating tokens *)

Inductive ContextEstimateQuality := exact | approximate | unavailable.

Record ContextBudgetProvider := {
  provider_contextWindowTokens : option Z;
  provider_maxOutputTokens : option Z
}.

Record ContextTokenBudget := {
  contextWindowTokens : option Z;
  maxOutputTokens : option Z;
  reservedResponseTokens : option Z;
  safetyMarginTokens : option Z;
  usableInputTokens : option Z
}.

Record ContextEstimateInput := {
  provider : option ContextBudgetProvider;
  textFragments : list string;
  input_sampledEventCount : Z;
  input_sampledMessageCount : Z
}.

Record ContextUsageEstimate := {
  estimateQuality : ContextEstimateQuality;
  estimateMethod : string;
  estimatorId : string;
  estimatedPromptTokens : option Z;
  estimatedRemainingTokens : option Z;
  budget : ContextTokenBudget;
  sampledEventCount : Z;
  sampledMessageCount : Z
}.

Definition DEFAULT_SAFETY_MARGIN_PERCENT : Z := 2.

Definition ceil_div (n d : Z) : Z := - ((- n) / d).

Definition contextTokenBudget (p : option ContextBudgetProvider) : ContextTokenBudget :=
  match p with
  | None => {| contextWindowTokens := None; maxOutputTokens := None; reservedResponseTokens := None;
               safetyMarginTokens := None; usableInputTokens := None |}
  | Some p =>
      match provider_contextWindowTokens p with
      | None =>
          {| contextWindowTokens := None; maxOutputTokens := provider_maxOutputTokens p;
             reservedResponseTokens := provider_maxOutputTokens p;
             safetyMarginTokens := None; usableInputTokens := None |}
      | Some window =>
          let safetyMargin := Z.max 0 (ceil_div (window * DEFAULT_SAFETY_MARGIN_PERCENT) 100) in
          let reserved := default 0 (provider_maxOutputTokens p) in
          {| contextWindowTokens := Some window; maxOutputTokens := provider_maxOutputTokens p;
             reservedResponseTokens := Some reserved; safetyMarginTokens := Some safetyMargin;
             usableInputTokens := Some (Z.max 0 (window - reserved - safetyMargin)) |}
      end
  end.

(** [p] rounded to a multiple of [2 ^ k], ties to even. *)
Definition round_even (p k : Z) : Z :=
  let q := p / 2 ^ k in
  let r := p mod 2 ^ k in
  (if 2 * r <? 2 ^ k then q
   else if 2 ^ k <? 2 * r then q + 1
   else if Z.even q then q else q + 1) * 2 ^ k.

(** [p] rounded to 53 significant bits. *)
Definition round53 (p : Z) : Z := round_even p (Z.max 0 (Z.log2 p - 52)).

(** The double nearest to 1.33 is this numerator over [2 ^ 49]. *)
Definition double_1_33 : Z := 748723438050345.

(** [Math.ceil(n * 1.33)] for a natural number of words *)
Definition ceil_times_1_33 (n : Z) : Z := ceil_div (round53 (n * double_1_33)) (2 ^ 49).

(** [text.trim().split(/\s+/).filter(Boolean).length] *)
Definition word_count (t : string) : Z :=
  Z.of_nat (length (List.filter (λ w, negb (String.eqb w "")) (Str.split_ws (Str.trim t)))).

Definition estimateApproximateTokens (t : string) : Z :=
  let chars := ceil_div (Z.of_nat (String.length t)) 4 in
  let words := ceil_times_1_33 (word_count t) in
  Z.max chars words.

Definition estimateTextFragmentsTokens (fragments : list string) : Z :=
  fold_left (λ total fragment,
    let trimmed := Str.trim fragment in
    total + if (String.length trimmed =? 0)%nat then 0 else estimateApproximateTokens trimmed)
    fragments 0.

Definition estimateContextUsage (input : ContextEstimateInput) : ContextUsageEstimate :=
  let b := contextTokenBudget (provider input) in
  let tokens := estimateTextFragmentsTokens (textFragments input) in
  {| estimateQuality := match provider input with None => unavailable | Some _ => approximate end;
     estimateMethod := "approximate_chars_div4_and_words_4over3_from_chat_events";
     estimatorId := "fallback_chars_words_v1";
     estimatedPromptTokens := Some tokens;
     estimatedRemainingTokens := (λ window, Z.max 0 (window - tokens)) <$> contextWindowTokens b;
     budget := b;
     sampledEventCount := input_sampledEventCount input;
     sampledMessageCount := input_sampledMessageCount input |}.

Definition optionalString (value : json) : option string :=
  match value with
  | JString s => if String.eqb (Str.trim s) "" then None else Some s
  | _ => None
  end.

Definition textFragmentsFromPayload (payload : json) : list string :=
  match payload with
  | JObject o =>
      omap (λ v, v) [optionalString (member o "body"); optionalString (member o "text");
                     optionalString (member o "summary")]
  | _ => []
  end.

(** ** Policies *)

Definition in_range (p : ContextStrategyPolicy) : Prop :=
  1 <= compactAtPercent p <= 100 ∧ 1 <= targetPercentAfterCompaction p <= 100
  ∧ 1 <= maxContextPercentForWake p <= 100.

(** Compaction aims below its trigger, which is within the wake guard. *)
Definition consistent (p : ContextStrategyPolicy) : Prop :=
  targetPercentAfterCompaction p < compactAtPercent p <= maxContextPercentForWake p.

Definition ordering_codes : list string :=
  ["context_policy_target_not_below_trigger"; "context_policy_trigger_above_wake_guard"].
Definition reports_ordering (ds : list ContextStrategyPolicyDiagnostic) : Prop :=
  ∃ d, d ∈ ds ∧ diagnostic_code d ∈ ordering_codes.

(** What a percentage is read as: the given number's integer part, if it is one
    from 1 to 100. *)
Definition percent_of (value : json) (fallback : Z) : Z :=
  match value with
  | JNumber t =>
      match number_floor t with
      | Some n => if (1 <=? n) && (n <=? 100) then n else fallback
      | None => fallback
      end
  | _ => fallback
  end.

Lemma percentValue_spec value fallback p ds :
  ∃ more, percentValue value fallback p ds = (percent_of value fallback, ds ++ more)
    ∧ Forall (λ d, severity d = error ∧ diagnostic_code d = "context_policy_percent_out_of_range") more.
Proof.
  unfold percentValue, percent_of; destruct value; try (by exists []; rewrite app_nil_r).
  destruct (number_floor rendered) as [n|]; [|by exists []; rewrite app_nil_r].
  destruct (Z.ltb_spec n 1), (Z.ltb_spec 100 n), (Z.leb_spec 1 n), (Z.leb_spec n 100); try lia; simpl;
    first [by eexists; split; [done|repeat constructor] | by exists []; rewrite app_nil_r].
Qed.

Lemma percent_of_range value fallback : 1 <= fallback <= 100 → 1 <= percent_of value fallback <= 100.
Proof.
  intros Hf; unfold percent_of; repeat case_match; try lia.
Qed.

Lemma debugVisibilityValue_spec value fallback ds :
  ∃ v more, debugVisibilityValue value fallback ds = (v, ds ++ more)
    ∧ Forall (λ d, severity d = error ∧ diagnostic_code d = "context_policy_debug_visibility_invalid") more.
Proof.
  assert (∃ v, debugVisibilityValue value fallback ds = (v, ds)
    ∨ debugVisibilityValue value fallback ds = (v, ds ++ [problem "context_policy_debug_visibility_invalid"
        "contextPolicy.debugVisibility" "debugVisibility must be off, status, or verbose"])) as (v & Hv).
  { unfold debugVisibilityValue; repeat case_match; eauto. }
  exists v; destruct Hv as [->| ->].
  - exists []; rewrite app_nil_r; by repeat constructor.
  - eexists; split; [reflexivity|]; by repeat constructor.
Qed.

(** The policy field by field, and the diagnostics: everything but the ordering of
    the percentages first and last, the ordering exactly when it fails. *)
Definition harmless (d : ContextStrategyPolicyDiagnostic) : Prop :=
  severity d = error ∧ (diagnostic_code d ∉ ordering_codes).

Definition ordering_problems (p : ContextStrategyPolicy) : list ContextStrategyPolicyDiagnostic :=
  (if compactAtPercent p <=? targetPercentAfterCompaction p
   then [problem "context_policy_target_not_below_trigger"
           "contextPolicy.targetPercentAfterCompaction"
           "targetPercentAfterCompaction must be lower than compactAtPercent"] else [])
  ++ (if maxContextPercentForWake p <? compactAtPercent p
      then [problem "context_policy_trigger_above_wake_guard" "contextPolicy.compactAtPercent"
              "compactAtPercent must not exceed maxContextPercentForWake"] else []).

Lemma harmless_code c ds :
  c ∉ ordering_codes → Forall (λ d, severity d = error ∧ diagnostic_code d = c) ds → Forall harmless ds.
Proof. intros Hc Hds; eapply Forall_impl; [exact Hds|]; intros d [? Hd]; split; [done|]; by rewrite Hd. Qed.

Lemma normalize_spec raw fallback :
  let '(p, ds) := normalizeContextStrategyPolicy raw fallback [] in
  compactAtPercent p = percent_of (either raw "compactAtPercent" "compact_at_percent")
    (compactAtPercent fallback)
  ∧ targetPercentAfterCompaction p
    = percent_of (either raw "targetPercentAfterCompaction" "target_percent_after_compaction")
        (targetPercentAfterCompaction fallback)
  ∧ maxContextPercentForWake p
    = percent_of (either raw "maxContextPercentForWake" "max_context_percent_for_wake")
        (maxContextPercentForWake fallback)
  ∧ ∃ before after, Forall harmless (before ++ after) ∧ ds = before ++ ordering_problems p ++ after.
Proof.
  unfold normalizeContextStrategyPolicy.
  set (given := stringValue _).
  assert (∃ i d0, resolvedStrategyId given (strategyId fallback) [] = (i, d0) ∧ Forall harmless d0)
    as (i & d0 & -> & H0).
  { unfold resolvedStrategyId; repeat case_match; do 2 eexists; (split; [reflexivity|]); repeat constructor; simpl.
    by apply (bool_decide_unpack _). }
  edestruct (percentValue_spec (either raw "compactAtPercent" "compact_at_percent")) as (d1 & -> & H1).
  edestruct (percentValue_spec (either raw "targetPercentAfterCompaction" "target_percent_after_compaction"))
    as (d2 & -> & H2).
  edestruct (percentValue_spec (either raw "maxContextPercentForWake" "max_context_percent_for_wake"))
    as (d3 & -> & H3).
  match goal with |- context [debugVisibilityValue ?v ?f ?ds] =>
    destruct (debugVisibilityValue_spec v f ds) as (vis & d4 & -> & H4) end.
  split_and!; [done..|]; exists (((d0 ++ d1) ++ d2) ++ d3), d4; split.
  - rewrite !Forall_app; split_and!; try done;
      (eapply harmless_code; [|eassumption]); by apply (bool_decide_unpack _).
  - unfold ordering_problems; simpl.
    destruct (_ <=? _), (_ <? _); simpl; by rewrite <- ?(assoc_L (++)).
Qed.

Lemma ordering_reported p before after :
  Forall harmless (before ++ after) →
  reports_ordering (before ++ ordering_problems p ++ after) ↔ ¬ consistent p.
Proof.
  rewrite Forall_app, !Forall_forall; intros [Hb Ha]; unfold consistent.
  assert (reports_ordering (before ++ ordering_problems p ++ after) ↔ ordering_problems p ≠ []) as ->.
  { split.
    - intros (d & Hd & Hc) Hnil; rewrite Hnil in Hd; simpl in Hd.
      apply elem_of_app in Hd as [Hd|Hd]; [by apply (Hb d)|by apply (Ha d)].
    - intros Hne; destruct (ordering_problems p) as [|d ds] eqn:Hp; [done|]; exists d; split.
      + apply elem_of_app; right; left.
      + unfold ordering_problems in Hp; destruct (_ <=? _), (_ <? _); simplify_eq/=;
          by apply (bool_decide_unpack _). }
  unfold ordering_problems.
  destruct (Z.leb_spec (compactAtPercent p) (targetPercentAfterCompaction p));
    destruct (Z.ltb_spec (maxContextPercentForWake p) (compactAtPercent p)); simpl;
    split; intros; try done; lia.
Qed.

(** ** Writing a policy down and reading it again *)

Definition policy_json (p : ContextStrategyPolicy) : json :=
  JObject [ ("enabled", JBool (enabled p)); ("strategyId", JString (strategy_text (strategyId p)));
    ("autoCompactionEnabled", JBool (autoCompactionEnabled p));
    ("compactAtPercent", JNumber (pretty (compactAtPercent p)));
    ("targetPercentAfterCompaction", JNumber (pretty (targetPercentAfterCompaction p)));
    ("maxContextPercentForWake", JNumber (pretty (maxContextPercentForWake p)));
    ("debugVisibility", JString (visibility_text (debugVisibility p)));
    ("includeDebugEventsInModelContext", JBool (includeDebugEventsInModelContext p));
    ("strategyConfig", JObject (strategyConfig p)) ].

Lemma number_floor_pretty n : 1 <= n <= 100 → number_floor (pretty n) = Some n.
Proof.
  intros Hn; assert (Forall (λ n, number_floor (pretty n) = Some n) (seqZ 1 100)) as Hall
    by (apply (bool_decide_unpack _); vm_compute; exact I).
  rewrite Forall_forall in Hall; apply Hall, elem_of_seqZ; lia.
Qed.

Lemma percentValue_pretty n fallback p ds :
  1 <= n <= 100 → percentValue (JNumber (pretty n)) fallback p ds = (n, ds).
Proof.
  intros Hn; unfold percentValue; rewrite number_floor_pretty by done.
  destruct (Z.ltb_spec n 1), (Z.ltb_spec 100 n); try lia; done.
Qed.

Lemma resolved_text i fallback ds :
  resolvedStrategyId (stringValue (JString (strategy_text i))) fallback ds = (i, ds).
Proof. by destruct i. Qed.

(** ** Rounding *)

Lemma round_even_error p k : 0 <= k → Z.abs (round_even p k - p) * 2 <= 2 ^ k.
Proof.
  intros Hk; unfold round_even; assert (0 < 2 ^ k) as Hpos by (apply Z.pow_pos_nonneg; lia).
  pose proof (Z.div_mod p (2 ^ k) ltac:(lia)) as Hp.
  pose proof (Z.mod_pos_bound p (2 ^ k) Hpos) as Hr.
  set (q := p / 2 ^ k) in *; set (r := p mod 2 ^ k) in *; set (d := 2 ^ k) in *.
  destruct (Z.ltb_spec (2 * r) d); [nia|]; destruct (Z.ltb_spec d (2 * r)); [nia|].
  destruct (Z.even q); nia.
Qed.

(** Close below, a multiple of the step wins. *)
Lemma round_even_multiple a k δ : 0 <= k → 0 <= δ → 2 * δ < 2 ^ k → round_even (a * 2 ^ k + δ) k = a * 2 ^ k.
Proof.
  intros Hk Hδ Hlt; assert (0 < 2 ^ k) as Hpos by (apply Z.pow_pos_nonneg; lia); unfold round_even.
  rewrite Z.add_comm, Z.div_add, Z.div_small, Z.mod_add, Z.mod_small by lia.
  destruct (Z.ltb_spec (2 * δ) (2 ^ k)); [done|lia].
Qed.

Lemma ceil_div_unique n d q : 0 < d → (q - 1) * d < n <= q * d → ceil_div n d = q.
Proof.
  intros Hd Hn; unfold ceil_div; rewrite <- (Z.div_unique (- n) d (- q) (q * d - n)); nia.
Qed.

(** The double product rounds up to what the decimal product does. *)
Lemma ceil_times_1_33_exact n : 0 <= n < 2 ^ 40 → ceil_times_1_33 n = ceil_div (133 * n) 100.
Proof.
  intros [Hn Hlt]; destruct (decide (n = 0)) as [->|Hn0]; [reflexivity|].
  unfold ceil_times_1_33; set (p := n * double_1_33).
  assert (100 * p = 133 * n * 2 ^ 49 + 4 * n) as Hp by (unfold p, double_1_33; lia).
  assert (0 < p < 2 ^ 92) as Hpb by lia.
  assert (ceil_div (133 * n) 100 * 100 - 100 < 133 * n <= ceil_div (133 * n) 100 * 100) as HN.
  { unfold ceil_div; pose proof (Z.div_mod (- (133 * n)) 100 ltac:(lia)).
    pose proof (Z.mod_pos_bound (- (133 * n)) 100 ltac:(lia)); lia. }
  set (N := ceil_div (133 * n) 100) in *; apply ceil_div_unique; [lia|].
  unfold round53; pose proof (Z.log2_spec p ltac:(lia)) as [Hlo Hhi].
  pose proof (Z.log2_nonneg p) as Hlog; rewrite Z.pow_succ_r in Hhi by lia.
  destruct (decide (Z.log2 p <= 52)) as [Hsmall|Hbig].
  - rewrite Z.max_l by lia.
    pose proof (Z.pow_le_mono_r 2 (Z.log2 p) 52 ltac:(lia) Hsmall) as Hpow.
    pose proof (round_even_error p 0 ltac:(lia)) as Herr.
    assert (round_even p 0 = p) as -> by lia; lia.
  - rewrite Z.max_r by lia; set (k := Z.log2 p - 52) in *.
    assert (2 ^ Z.log2 p = 2 ^ k * 2 ^ 52) as Hk.
    { rewrite <- Z.pow_add_r by lia; f_equal; lia. }
    assert (0 < 2 ^ k) as Hpos by (apply Z.pow_pos_nonneg; lia).
    destruct (decide (133 * n = 100 * N)) as [Hmul|Hnot].
    + assert (k <= 40) as Hk40.
      { assert (Z.log2 p < 92) by (apply Z.log2_lt_pow2; lia); lia. }
      assert (2 ^ 49 = 2 ^ (49 - k) * 2 ^ k) as H49 by (rewrite <- Z.pow_add_r by lia; f_equal; lia).
      assert (∃ δ, n = 25 * δ) as [δ Hδ] by (exists (4 * (4 * n - 3 * N)); lia).
      assert (p = (N * 2 ^ (49 - k)) * 2 ^ k + δ) as Hpk by (rewrite <- Z.mul_assoc, <- H49; lia).
      assert (p = 18718085951258625 * δ) as Hpδ by (unfold p, double_1_33; lia).
      assert (2 * δ < 2 ^ k) as Hδk.
      { rewrite Hk in Hhi; change (2 ^ 52) with 4503599627370496 in Hhi; lia. }
      rewrite Hpk, round_even_multiple by lia; rewrite <- Z.mul_assoc, <- H49; lia.
    + pose proof (round_even_error p k ltac:(lia)) as Herr; lia.
Qed.

(** ** Properties *)

(** Whatever value a policy is read from, with a fallback whose percentages are
    in range and ordered, the policy's percentages are from 1 to 100, each the
    integer part of the given number or else the fallback's; every diagnostic is an
    error, and one about the ordering of the percentages is given exactly when the
    policy read is not ordered. *)
Theorem context_policy_checked value fallback :
  in_range fallback → consistent fallback →
  let '(p, ds) := contextStrategyPolicyFromUnknownWithDiagnostics value fallback in
  in_range p ∧ (reports_ordering ds ↔ ¬ consistent p) ∧ Forall (λ d, severity d = error) ds
  ∧ ∀ raw, value = JObject raw →
      compactAtPercent p = percent_of (either raw "compactAtPercent" "compact_at_percent")
        (compactAtPercent fallback)
      ∧ targetPercentAfterCompaction p
        = percent_of (either raw "targetPercentAfterCompaction" "target_percent_after_compaction")
            (targetPercentAfterCompaction fallback)
      ∧ maxContextPercentForWake p
        = percent_of (either raw "maxContextPercentForWake" "max_context_percent_for_wake")
            (maxContextPercentForWake fallback).
Proof.
  intros Hr Hc; unfold contextStrategyPolicyFromUnknownWithDiagnostics.
  destruct value as [| | | | | |raw];
    try (split_and!; [apply Hr..| |constructor|done]; split; [intros (d & []%not_elem_of_nil & _)|done]).
  pose proof (normalize_spec raw fallback) as Hn.
  destruct (normalizeContextStrategyPolicy raw fallback []) as [p ds].
  destruct Hn as (H1 & H2 & H3 & before & after & Hh & ->).
  destruct Hr as (Hr1 & Hr2 & Hr3); split_and!.
  - unfold in_range; rewrite H1, H2, H3; auto using percent_of_range.
  - by apply ordering_reported.
  - apply Forall_app in Hh as [Hb Ha]; rewrite !Forall_app; split_and!.
    + eapply Forall_impl; [exact Hb|]; by intros d [].
    + unfold ordering_problems; destruct (_ <=? _), (_ <? _); by repeat constructor.
    + eapply Forall_impl; [exact Ha|]; by intros d [].
  - by intros ? [= <-].
Qed.

(** A policy that is in range and ordered, written as an object, reads back as
    itself with no diagnostics, whatever the fallback, when it is loaded and when it
    is patched. *)
Theorem policy_json_roundtrip p fallback :
  in_range p → consistent p →
  contextStrategyPolicyFromUnknownWithDiagnostics (policy_json p) fallback = (p, [])
  ∧ contextStrategyPolicyFromPatch (policy_json p) fallback = (p, []).
Proof.
  intros (H1 & H2 & H3) Hc; cut (∀ raw, policy_json p = JObject raw →
    normalizeContextStrategyPolicy raw fallback [] = (p, [])); [intros H; by split; apply H|].
  intros raw [= <-]; destruct p as [en sid auto compactAt target maxWake vis incl config]; simpl in *.
  unfold consistent in Hc; simpl in Hc; unfold normalizeContextStrategyPolicy.
  set (raw := _ :: _).
  assert (either raw "strategyId" "strategy_id" = JString (strategy_text sid)) as -> by reflexivity.
  assert (either raw "compactAtPercent" "compact_at_percent" = JNumber (pretty compactAt)) as ->
    by reflexivity.
  assert (either raw "targetPercentAfterCompaction" "target_percent_after_compaction"
    = JNumber (pretty target)) as -> by reflexivity.
  assert (either raw "maxContextPercentForWake" "max_context_percent_for_wake"
    = JNumber (pretty maxWake)) as -> by reflexivity.
  assert (either raw "debugVisibility" "debug_visibility" = JString (visibility_text vis)) as ->
    by reflexivity.
  assert (∀ ds, debugVisibilityValue (JString (visibility_text vis)) (debugVisibility fallback) ds = (vis, ds))
    as Hvis by (by destruct vis).
  rewrite resolved_text, !percentValue_pretty, Hvis by done.
  destruct (Z.leb_spec compactAt target); [lia|]; destruct (Z.ltb_spec maxWake compactAt); [lia|done].
Qed.

(** A quarter of the characters or 1.33 of the words, whichever is more, in exact
    arithmetic. *)
Definition reference_tokens (t : string) : Z :=
  Z.max (ceil_div (Z.of_nat (String.length t)) 4) (ceil_div (133 * word_count t) 100).

Lemma estimateApproximateTokens_exact t :
  word_count t < 2 ^ 40 → estimateApproximateTokens t = reference_tokens t.
Proof.
  intros Hw; unfold estimateApproximateTokens, reference_tokens; rewrite ceil_times_1_33_exact; [done|].
  unfold word_count in *; lia.
Qed.

Lemma estimate_fold fragments acc :
  Forall (λ f, word_count (Str.trim f) < 2 ^ 40) fragments →
  fold_left (λ total fragment,
    let trimmed := Str.trim fragment in
    total + if (String.length trimmed =? 0)%nat then 0 else estimateApproximateTokens trimmed)
    fragments acc
  = acc + foldr Z.add 0 (map (λ f, reference_tokens (Str.trim f)) fragments).
Proof.
  revert acc; induction fragments as [|f fragments IH]; intros acc Hall; simpl; [lia|].
  apply Forall_cons in Hall as [Hf Hall]; rewrite IH by done.
  destruct (Nat.eqb_spec (String.length (Str.trim f)) 0) as [H0|].
  - destruct (Str.trim f); [|done].
    change (reference_tokens "") with 0; lia.
  - rewrite estimateApproximateTokens_exact by done; lia.
Qed.

Lemma ceil_div_nonneg n d : 0 <= n → 0 < d → 0 <= ceil_div n d.
Proof.
  intros Hn Hd; unfold ceil_div; pose proof (Z.div_mod (- n) d ltac:(lia)).
  pose proof (Z.mod_pos_bound (- n) d Hd); nia.
Qed.

Lemma reference_sum_nonneg fragments :
  0 <= foldr Z.add 0 (map (λ f, reference_tokens (Str.trim f)) fragments).
Proof.
  induction fragments as [|f fragments IH]; simpl; [lia|].
  assert (0 <= reference_tokens (Str.trim f)); [|lia]; unfold reference_tokens.
  pose proof (ceil_div_nonneg (Z.of_nat (String.length (Str.trim f))) 4 ltac:(lia) ltac:(lia)); lia.
Qed.

(** For texts of fewer than 2^40 words the estimate, computed with double
    products, is the sum over the trimmed fragments of the larger of a quarter of
    the characters and 1.33 of the words, rounded up in exact arithmetic.  With a
    context window the remaining tokens are what the estimate leaves of it, never
    negative, and the usable input, the response reserve and the safety margin of
    two percent together fill the window unless the latter two exceed it. *)
Theorem context_estimate_exact input window :
  Forall (λ f, word_count (Str.trim f) < 2 ^ 40) (textFragments input) → 0 <= window →
  (provider input ≫= provider_contextWindowTokens) = Some window →
  let e := estimateContextUsage input in
  let total := foldr Z.add 0 (map (λ f, reference_tokens (Str.trim f)) (textFragments input)) in
  estimatedPromptTokens e = Some total
  ∧ estimatedRemainingTokens e = Some (Z.max 0 (window - total))
  ∧ 0 <= Z.max 0 (window - total) <= window
  ∧ ∃ reserved margin usable,
      reservedResponseTokens (budget e) = Some reserved ∧ safetyMarginTokens (budget e) = Some margin
      ∧ usableInputTokens (budget e) = Some usable
      ∧ 2 * window <= 100 * margin < 2 * window + 100
      ∧ (reserved + margin <= window → usable + reserved + margin = window)
      ∧ (window < reserved + margin → usable = 0).
Proof.
  intros Hw Hwin Hp; unfold estimateContextUsage, estimateTextFragmentsTokens.
  rewrite estimate_fold, Z.add_0_l by done; pose proof (reference_sum_nonneg (textFragments input)) as Hnn.
  set (total := foldr _ _ _) in *; destruct (provider input) as [pr|]; [|done]; simpl in *.
  rewrite Hp; simpl; split_and!; [done|done|lia|lia|].
  do 3 eexists; split_and!; [done|done|done| | | |]; unfold DEFAULT_SAFETY_MARGIN_PERCENT.
  1-2: pose proof (ceil_div_nonneg (window * 2) 100 ltac:(lia) ltac:(lia)); rewrite Z.max_r by lia;
    unfold ceil_div; pose proof (Z.div_mod (- (window * 2)) 100 ltac:(lia));
    pose proof (Z.mod_pos_bound (- (window * 2)) 100 ltac:(lia)); lia.
  all: lia.
Qed.

Module ContextSample.
Definition raw : json :=
  JObject [("compactAtPercent", JNumber "70.9"); ("target_percent_after_compaction", JNumber "75");
    ("maxContextPercentForWake", JNumber "1e+21"); ("debugVisibility", JString "loud")].

Lemma default_ok : in_range defaultContextStrategyPolicy ∧ consistent defaultContextStrategyPolicy.
Proof. unfold in_range, consistent; simpl; lia. Qed.

(** Rounded down, out of order, out of range and misspelt. *)
Lemma context_policy_checked_witness :
  let '(p, ds) := contextStrategyPolicyFromUnknownWithDiagnostics raw defaultContextStrategyPolicy in
  compactAtPercent p = 70 ∧ in_range p
  ∧ diagnostic_code <$> ds = ["context_policy_percent_out_of_range";
      "context_policy_target_not_below_trigger"; "context_policy_debug_visibility_invalid"].
Proof.
  pose proof (context_policy_checked raw defaultContextStrategyPolicy (proj1 default_ok) (proj2 default_ok))
    as H; revert H.
  destruct (contextStrategyPolicyFromUnknownWithDiagnostics raw defaultContextStrategyPolicy)
    as [p ds] eqn:E; vm_compute in E; injection E as <- <-; intros (Hr & _).
  split_and!; [vm_compute; reflexivity|apply Hr..|vm_compute; reflexivity].
Defined.

Lemma policy_json_roundtrip_witness :
  contextStrategyPolicyFromUnknownWithDiagnostics (policy_json defaultContextStrategyPolicy)
    defaultContextStrategyPolicy = (defaultContextStrategyPolicy, []).
Proof.
  apply (policy_json_roundtrip defaultContextStrategyPolicy defaultContextStrategyPolicy
    (proj1 default_ok) (proj2 default_ok)).
Defined.

Definition input : ContextEstimateInput :=
  {| provider := Some {| provider_contextWindowTokens := Some 1000; provider_maxOutputTokens := Some 100 |};
     textFragments := ["  "; "one two three"; "a b c d e f g h i j"];
     input_sampledEventCount := 3; input_sampledMessageCount := 2 |}.

Lemma context_estimate_exact_witness :
  estimatedPromptTokens (estimateContextUsage input) = Some 18
  ∧ estimatedRemainingTokens (estimateContextUsage input) = Some 982.
Proof.
  destruct (context_estimate_exact input 1000) as (H1 & H2 & _); [|lia|reflexivity|].
  - repeat constructor.
  - rewrite H1, H2; vm_compute; split; reflexivity.
Defined.
End ContextSample.
