(* ===== verification/SlashCommands.v ===== *)
(** * Slash commands

    [routeSlashCommand] of [ts/packages/brain-island/src/slash-command-router.ts]
    with the command registry of [api-command-registry.ts] and the effort names of
    [reasoning-effort-policy.ts].  Free-form records ([fields], [body]) are JSON
    objects. *)

From S2P Require Import Prelude JsString Json.

(** ** Reasoning effort *)

Definition NATIVE_REASONING_EFFORTS : list string :=
  ["none"; "minimal"; "low"; "medium"; "high"; "xhigh"].

Definition isNativeReasoningEffort (value : string) : bool :=
  bool_decide (value ∈ NATIVE_REASONING_EFFORTS).

Definition nativeReasoningEffortList : string := Str.join ", " NATIVE_REASONING_EFFORTS.

Inductive ReasoningEffortSource := session_override | profile | provider_default.

Record ResolvedReasoningEffort := { value : option string; effort_source : ReasoningEffortSource }.

Definition resolveReasoningEffort (sessionOverride profileReasoningEffort : option string)
    : ResolvedReasoningEffort :=
  match sessionOverride, profileReasoningEffort with
  | Some v, _ => {| value := Some v; effort_source := session_override |}
  | None, Some v => {| value := Some v; effort_source := profile |}
  | None, None => {| value := None; effort_source := provider_default |}
  end.

(** ** The registry *)

Inductive SlashCommandName := help | status | session | model | effort | archive | new | reload_mcp.

#[global] Instance SlashCommandName_eq_dec : EqDecision SlashCommandName.
Proof. solve_decision. Defined.

Definition command_text (c : SlashCommandName) : string :=
  match c with
  | help => "help" | status => "status" | session => "session" | model => "model"
  | effort => "effort" | archive => "archive" | new => "new" | reload_mcp => "reload-mcp"
  end.

Inductive SessionKind := full | worker | delegated.
#[global] Instance SessionKind_eq_dec : EqDecision SessionKind.
Proof. solve_decision. Defined.
Definition kind_text (k : SessionKind) : string :=
  match k with full => "full" | worker => "worker" | delegated => "delegated" end.

Record ChatCommandArgumentDescriptor := {
  argument_name : string;
  argument_description : string;
  argument_type : string;
  required : bool;
  placeholder : string
}.

Record SlashCommandControl := {
  control_commandName : string;
  pathTemplate : string;
  control_reasonCode : string;
  rustPlanOperation : option string
}.

Record SlashCommandDescriptor := {
  name : SlashCommandName;
  aliases : list string;
  description : string;
  argsSchema : list (string * json);
  positionalArgs : list ChatCommandArgumentDescriptor;
  namedArgs : list ChatCommandArgumentDescriptor;
  surfaces : list string;
  command_source : string;
  readOnly : bool;
  mutating : bool;
  scope : string;
  allowedSessionKinds : list SessionKind;
  requiresControlAuth : bool;
  control : option SlashCommandControl
}.

Definition OPTIONAL_ARGS_SCHEMA : list (string * json) :=
  [("type", JString "string"); ("description", JString "Optional command arguments.")].

Definition OPTIONAL_REASON_ARGUMENT : ChatCommandArgumentDescriptor :=
  {| argument_name := "reason"; argument_description := "Optional operator-facing reason text.";
     argument_type := "string"; required := false; placeholder := "reason" |}.

Definition slashCommand (n : SlashCommandName) (text : string) (read : bool)
    (positional : list ChatCommandArgumentDescriptor) (c : option SlashCommandControl)
    : SlashCommandDescriptor :=
  {| name := n; aliases := ["/" +:+ command_text n]; description := text;
     argsSchema := OPTIONAL_ARGS_SCHEMA; positionalArgs := positional; namedArgs := [];
     surfaces := ["chat-input"; "global"];
     command_source := match c with Some _ => "backend-control" | None => "backend" end;
     readOnly := read; mutating := negb read; scope := "session";
     allowedSessionKinds := if negb read then [full] else [full; worker; delegated];
     requiresControlAuth := negb read; control := c |}.

Definition SLASH_COMMAND_REGISTRY : list SlashCommandDescriptor :=
  [ slashCommand help "Show available slash commands." true [] None;
    slashCommand status "Show runtime status for this service." true [] None;
    slashCommand session "Show details for the current session." true [] None;
    slashCommand model "Show the active model provider, brain backend, and context estimate." true [] None;
    slashCommand effort
      "Show or override reasoning effort for the current session; use default to clear the override."
      false
      [ {| argument_name := "effort";
           argument_description := "One of " +:+ nativeReasoningEffortList +:+ ", or default.";
           argument_type := "string"; required := false; placeholder := "default|none|minimal|low|medium|high|xhigh" |} ]
      (Some {| control_commandName := "set_session_effort";
               pathTemplate := "/v1/admin/control/sessions/{session_id}/effort";
               control_reasonCode := "slash_set_session_effort"; rustPlanOperation := None |});
    slashCommand archive "Archive the current Crew brain session without replacing it." false
      [OPTIONAL_REASON_ARGUMENT]
      (Some {| control_commandName := "archive_session";
               pathTemplate := "/v1/admin/control/sessions/{session_id}/archive";
               control_reasonCode := "slash_archive_session"; rustPlanOperation := None |});
    slashCommand new "Archive the current session and create a fresh replacement session." false
      [OPTIONAL_REASON_ARGUMENT]
      (Some {| control_commandName := "new_session";
               pathTemplate := "/v1/admin/control/sessions/{session_id}/new";
               control_reasonCode := "slash_new_session";
               rustPlanOperation := Some "plan_new_session_control" |});
    slashCommand reload_mcp "Reload MCP tools for the current session profile surface." false []
      (Some {| control_commandName := "reload_mcp";
               pathTemplate := "/v1/admin/control/mcp/{session_id}/reload";
               control_reasonCode := "slash_reload_mcp";
               rustPlanOperation := Some "plan_reload_mcp_control" |}) ].

Definition slashCommandNames : list SlashCommandName := name <$> SLASH_COMMAND_REGISTRY.

(** [text.replace(/^\//, "")] *)
Definition without_slash (s : string) : string :=
  if Str.startsWith s "/" then Str.slice_from s 1 else s.

Definition findSlashCommandDescriptor (nameOrAlias : string) : option SlashCommandDescriptor :=
  let normalized := without_slash (Str.toLowerCase nameOrAlias) in
  List.find (λ c, String.eqb (command_text (name c)) normalized
                  || existsb (λ a, String.eqb (without_slash a) normalized) (aliases c))
    SLASH_COMMAND_REGISTRY.

(** ** The router *)

Record SlashCommandSession := {
  sessionId : string;
  agentId : string;
  profileId : string;
  kind : SessionKind;
  reasoningEffortOverride : option string
}.

Record SlashCommandRouterOptions := {
  primeProfiles : option (list string);
  allowedCommands : option (list SlashCommandName);
  allowNonPrimeReadCommands : bool;
  allowWorkerControls : bool
}.

Record SlashCommandInput := {
  text : string;
  input_session : SlashCommandSession;
  actor_id : string;
  source : json;
  options : option SlashCommandRouterOptions
}.

Inductive SlashCommandStatus := ok | denied | invalid.

Record SlashCommandResponse := {
  title : string;
  summary : string;
  fields : list (string * json);
  items : list string
}.

Record SlashCommandControlRequest := {
  commandName : string;
  target : list (string * string);
  reason : string;
  reasonCode : string;
  body : list (string * json)
}.

Inductive SlashCommandRouteResult :=
| pass_through (text : string)
| intercepted (command : option SlashCommandName) (st : SlashCommandStatus)
    (response : SlashCommandResponse) (controlRequest : option SlashCommandControlRequest).

Record ParsedSlashCommand := { parsed_name : string; args : string }.

Definition parseSlashCommand (t : string) : option ParsedSlashCommand :=
  let trimmed := Str.trim t in
  if negb (Str.startsWith trimmed "/") then None
  else
    match Str.split_ws (Str.slice_from trimmed 1) with
    | [] => Some {| parsed_name := ""; args := "" |}
    | n :: rest => Some {| parsed_name := n; args := Str.trim (Str.join " " rest) |}
    end.

Definition normalizeCommandName (n : string) : option SlashCommandName :=
  name <$> findSlashCommandDescriptor n.

Definition commandAllowed (c : SlashCommandName) (o : option SlashCommandRouterOptions) : bool :=
  match o ≫= allowedCommands with
  | None => true
  | Some l => bool_decide (c ∈ l)
  end.

Definition isControl (c : SlashCommandName) (parsed : ParsedSlashCommand) : bool :=
  if bool_decide (c = effort) && String.eqb (args parsed) "" then false
  else default false (mutating <$> findSlashCommandDescriptor (command_text c)).

(** [None] when allowed, or the reason. *)
Definition authorizeSlashCommand (c : SlashCommandName) (parsed : ParsedSlashCommand)
    (s : SlashCommandSession) (o : option SlashCommandRouterOptions) : option string :=
  let control := isControl c parsed in
  let isPrime := bool_decide (profileId s ∈ default ["prime"] (o ≫= primeProfiles)) in
  let isFullPrime := bool_decide (kind s = full) && isPrime in
  let isDelegatedSelfArchive := bool_decide (c = archive) && bool_decide (kind s = delegated) in
  if negb control && (isFullPrime || from_option allowNonPrimeReadCommands false o) then None
  else if control && (isFullPrime || isDelegatedSelfArchive || from_option allowWorkerControls false o)
  then None
  else Some (if control then "Control commands require an authorized full/prime session."
             else "Read-only commands require an authorized session on this surface.").

Definition sessionFields (s : SlashCommandSession) : list (string * json) :=
  [("sessionId", JString (sessionId s)); ("agentId", JString (agentId s));
   ("profileId", JString (profileId s)); ("kind", JString (kind_text (kind s)))].

Definition controlBody (input : SlashCommandInput) (why : string) : list (string * json) :=
  [("reason", JString why); ("actorId", JString (actor_id input)); ("source", source input)].

Definition respond (t s : string) (f : list (string * json)) : SlashCommandResponse :=
  {| title := t; summary := s; fields := f; items := [] |}.

Definition helpResponse (o : option SlashCommandRouterOptions) : SlashCommandResponse :=
  {| title := "Commands"; summary := "Available slash commands."; fields := [];
     items := (λ c, "/" +:+ command_text c)
                <$> List.filter (λ c, commandAllowed c o) slashCommandNames |}.

Definition unknownCommandResponse (n : string) : SlashCommandResponse :=
  {| title := "Unknown Command"; summary := "Unknown slash command /" +:+ n +:+ "."; fields := [];
     items := (λ c, "/" +:+ command_text c) <$> slashCommandNames |}.

(** [a || b] on strings *)
Definition or_text (a b : string) : string := if String.eqb a "" then b else a.

(** A control command that only passes its reason on. *)
Definition plain_control (c : SlashCommandName) (t s command code : string) (input : SlashCommandInput)
    (parsed : ParsedSlashCommand) : SlashCommandRouteResult :=
  intercepted (Some c) ok (respond t s (sessionFields (input_session input)))
    (Some {| commandName := command; target := [("sessionId", sessionId (input_session input))];
             reason := or_text (args parsed) ("slash command /" +:+ command_text c); reasonCode := code;
             body := controlBody input (args parsed) |}).

Definition effort_handler (input : SlashCommandInput) (parsed : ParsedSlashCommand)
    : SlashCommandRouteResult :=
  let raw := Str.trim (args parsed) in
  if String.eqb raw "" then
    intercepted (Some effort) ok
      (respond "Reasoning Effort" "Reasoning effort diagnostics requested."
         (sessionFields (input_session input))) None
  else
    let level := Str.toLowerCase raw in
    if negb (String.eqb level "default") && negb (isNativeReasoningEffort level) then
      intercepted (Some effort) invalid
        (respond "Invalid reasoning effort"
           ("Reasoning effort must be default or one of: " +:+ nativeReasoningEffortList +:+ ".")
           [("reasonCode", JString "invalid_reasoning_effort")]) None
    else
      intercepted (Some effort) ok
        (respond "Reasoning Effort"
           (if String.eqb level "default" then "Clear the current session reasoning-effort override."
            else "Set current session reasoning effort to " +:+ level +:+ ".")
           (sessionFields (input_session input)))
        (Some {| commandName := "set_session_effort";
                 target := [("sessionId", sessionId (input_session input))];
                 reason := "slash command /effort " +:+ level; reasonCode := "slash_set_session_effort";
                 body := ("reasoningEffort", if String.eqb level "default" then JNull else JString level)
                           :: controlBody input (args parsed) |}).

Definition SLASH_COMMAND_HANDLERS (c : SlashCommandName) (input : SlashCommandInput)
    (parsed : ParsedSlashCommand) : SlashCommandRouteResult :=
  let shown := sessionFields (input_session input) in
  match c with
  | help => intercepted (Some help) ok (helpResponse (options input)) None
  | status => intercepted (Some status) ok (respond "Status" "Diagnostics status requested." shown) None
  | session => intercepted (Some session) ok (respond "Session" "Session summary requested." shown) None
  | model =>
      intercepted (Some model) ok (respond "Model" "Model and brain diagnostics requested." shown) None
  | effort => effort_handler input parsed
  | new => plain_control new "New Session" "Archive current session and create a fresh session."
      "new_session" "slash_new_session" input parsed
  | archive => plain_control archive "Archive Session" "Archive the current Crew brain session."
      "archive_session" "slash_archive_session" input parsed
  | reload_mcp => plain_control reload_mcp "Reload MCP" "Reload MCP for the current session."
      "reload_mcp" "slash_reload_mcp" input parsed
  end.

Definition routeSlashCommand (input : SlashCommandInput) : SlashCommandRouteResult :=
  match parseSlashCommand (text input) with
  | None => pass_through (text input)
  | Some parsed =>
      match normalizeCommandName (parsed_name parsed) with
      | None => intercepted None invalid (unknownCommandResponse (parsed_name parsed)) None
      | Some c =>
          if negb (commandAllowed c (options input)) then
            intercepted (Some c) denied
              (respond "Command unavailable"
                 ("/" +:+ command_text c +:+ " is not available on this surface.") []) None
          else
            match authorizeSlashCommand c parsed (input_session input) (options input) with
            | Some why =>
                intercepted (Some c) denied
                  (respond "Command denied" why
                     [("sessionId", JString (sessionId (input_session input)));
                      ("profileId", JString (profileId (input_session input)));
                      ("kind", JString (kind_text (kind (input_session input))))]) None
            | None => SLASH_COMMAND_HANDLERS c input parsed
            end
      end
  end.

(** ** Who may run what *)

Definition may_control (c : SlashCommandName) (s : SlashCommandSession)
    (o : option SlashCommandRouterOptions) : Prop :=
  kind s = full ∧ profileId s ∈ default ["prime"] (o ≫= primeProfiles)
  ∨ c = archive ∧ kind s = delegated
  ∨ from_option allowWorkerControls false o = true.

(** A name the registry knows finds its own entry. *)
Lemma find_descriptor n d :
  findSlashCommandDescriptor n = Some d →
  d ∈ SLASH_COMMAND_REGISTRY ∧ findSlashCommandDescriptor (command_text (name d)) = Some d.
Proof.
  intros [Hin _]%List.find_some; split; [by apply list_elem_of_In|].
  simpl in Hin; repeat (destruct Hin as [<-|Hin]; [vm_compute; reflexivity|]); done.
Qed.

Lemma isControl_spec d parsed :
  findSlashCommandDescriptor (command_text (name d)) = Some d →
  isControl (name d) parsed = true ↔ mutating d = true ∧ (name d = effort → args parsed ≠ "").
Proof.
  intros Hd; unfold isControl; rewrite Hd; simpl.
  destruct (decide (name d = effort)) as [He|He].
  - rewrite bool_decide_true by done; destruct (String.eqb_spec (args parsed) ""); simpl; naive_solver.
  - rewrite bool_decide_false by done; simpl; naive_solver.
Qed.

Lemma authorize_control c parsed s o :
  isControl c parsed = true → authorizeSlashCommand c parsed s o = None ↔ may_control c s o.
Proof.
  intros Hc; unfold authorizeSlashCommand, may_control; rewrite Hc; cbn [negb andb].
  destruct (from_option allowWorkerControls false o) eqn:Hw; rewrite ?orb_true_r, ?orb_false_r; [naive_solver|].
  repeat case_bool_decide; simpl; naive_solver.
Qed.

Definition valid_effort (parsed : ParsedSlashCommand) : Prop :=
  let level := Str.toLowerCase (Str.trim (args parsed)) in
  Str.trim (args parsed) ≠ "" ∧ (level = "default" ∨ level ∈ NATIVE_REASONING_EFFORTS).

Lemma effort_control input parsed :
  match effort_handler input parsed with
  | intercepted c st _ (Some req) =>
      c = Some effort ∧ st = ok ∧ valid_effort parsed
      ∧ target req = [("sessionId", sessionId (input_session input))]
      ∧ commandName req = "set_session_effort" ∧ reasonCode req = "slash_set_session_effort"
  | intercepted _ _ _ None => ¬ valid_effort parsed
  | pass_through _ => False
  end.
Proof.
  unfold effort_handler, valid_effort, isNativeReasoningEffort.
  destruct (String.eqb_spec (Str.trim (args parsed)) "") as [->|Hne]; [naive_solver|].
  destruct (String.eqb_spec (Str.toLowerCase (Str.trim (args parsed))) "default");
    case_bool_decide; simpl; naive_solver.
Qed.

(** A handler asks for control exactly when its command is one, and only of the
    session it was called for. *)
Lemma handler_control d input parsed :
  d ∈ SLASH_COMMAND_REGISTRY →
  match SLASH_COMMAND_HANDLERS (name d) input parsed with
  | intercepted c st _ (Some req) =>
      c = Some (name d) ∧ st = ok ∧ mutating d = true ∧ (name d = effort → valid_effort parsed)
      ∧ target req = [("sessionId", sessionId (input_session input))]
      ∧ ∃ ctl, control d = Some ctl ∧ commandName req = control_commandName ctl
          ∧ reasonCode req = control_reasonCode ctl
  | intercepted _ _ _ None => mutating d = false ∨ name d = effort ∧ ¬ valid_effort parsed
  | pass_through _ => False
  end.
Proof.
  intros Hd%list_elem_of_In; simpl in Hd.
  repeat (destruct Hd as [<-|Hd]; [|]); try done; simpl.
  1-4: by left.
  2-4: split_and!; try done; by eexists.
  pose proof (effort_control input parsed) as He.
  destruct (effort_handler input parsed) as [|c st resp [req|]]; [done| |by right].
  destruct He as (-> & -> & Hv & Ht & Hc & Hr); split_and!; try done; by eexists.
Qed.

Lemma parse_None t : parseSlashCommand t = None ↔ Str.startsWith (Str.trim t) "/" = false.
Proof.
  unfold parseSlashCommand; destruct (Str.startsWith _ _); simpl; [|done].
  by destruct (Str.split_ws _).
Qed.

Lemma valid_effort_args parsed : valid_effort parsed → args parsed ≠ "".
Proof. intros [Hne _] He; by rewrite He in Hne. Qed.

(** C39. Text that does not begin with a slash, white space aside, passes through
    unchanged, and nothing else does.  A routed text carries a control request
    exactly when it names a mutating command that the surface allows, the session
    is a full one with a prime profile, or a delegated one archiving itself, or the
    surface allows worker controls, and, for an effort change, the level is a known
    one; the request is then the registry's for that command, with the caller's own
    session as its only target. *)
Theorem slash_control_exact input :
  (∀ t, routeSlashCommand input = pass_through t ↔
     t = text input ∧ Str.startsWith (Str.trim (text input)) "/" = false)
  ∧ (∀ c st resp req, routeSlashCommand input = intercepted c st resp (Some req) →
     ∃ parsed d ctl, parseSlashCommand (text input) = Some parsed
       ∧ findSlashCommandDescriptor (parsed_name parsed) = Some d ∧ c = Some (name d) ∧ st = ok
       ∧ mutating d = true ∧ commandAllowed (name d) (options input) = true
       ∧ may_control (name d) (input_session input) (options input)
       ∧ target req = [("sessionId", sessionId (input_session input))]
       ∧ control d = Some ctl ∧ commandName req = control_commandName ctl
       ∧ reasonCode req = control_reasonCode ctl)
  ∧ (∀ parsed d, parseSlashCommand (text input) = Some parsed →
     findSlashCommandDescriptor (parsed_name parsed) = Some d → mutating d = true →
     commandAllowed (name d) (options input) = true →
     may_control (name d) (input_session input) (options input) →
     (name d = effort → valid_effort parsed) →
     ∃ resp req, routeSlashCommand input = intercepted (Some (name d)) ok resp (Some req)).
Proof.
  unfold routeSlashCommand, normalizeCommandName; split_and!.
  - intros t; rewrite <- parse_None.
    destruct (parseSlashCommand (text input)) as [parsed|]; [|split; [by intros [= <-]|by intros [-> _]]].
    split; [|by intros [_ ?]]; intros Hr; exfalso; revert Hr.
    destruct (findSlashCommandDescriptor _) as [d|] eqn:Hd; simpl; [|done].
    destruct (commandAllowed _ _); simpl; [|done]; destruct (authorizeSlashCommand _ _ _ _); [done|].
    pose proof (handler_control d input parsed (proj1 (find_descriptor _ _ Hd))) as Hh.
    by destruct (SLASH_COMMAND_HANDLERS _ _ _).
  - intros c st resp req; destruct (parseSlashCommand (text input)) as [parsed|]; [|done].
    destruct (findSlashCommandDescriptor _) as [d|] eqn:Hd; simpl; [|done].
    destruct (commandAllowed _ _) eqn:Ha; simpl; [|done].
    destruct (authorizeSlashCommand _ _ _ _) eqn:Hauth; [done|]; intros Hr.
    destruct (find_descriptor _ _ Hd) as [Hin Hself].
    pose proof (handler_control d input parsed Hin) as Hh; rewrite Hr in Hh.
    destruct Hh as (-> & -> & Hm & He & Ht & ctl & Hctl & Hc & Hcode).
    exists parsed, d, ctl; split_and!; try done.
    apply (authorize_control _ parsed); [|done]; apply isControl_spec; [done|].
    split; [done|]; intros Heff; by apply valid_effort_args, He.
  - intros parsed d -> Hd Hm Ha Hmay He; rewrite Hd; simpl; rewrite Ha; simpl.
    destruct (find_descriptor _ _ Hd) as [Hin Hself].
    rewrite (proj2 (authorize_control _ parsed _ _ (proj2 (isControl_spec d parsed Hself)
      (conj Hm (λ H, valid_effort_args _ (He H)))))) by done.
    pose proof (handler_control d input parsed Hin) as Hh.
    destruct (SLASH_COMMAND_HANDLERS _ _ _) as [|c st resp [req|]]; [done| |].
    + destruct Hh as (-> & -> & _); eauto.
    + destruct Hh as [Hf|[Heff Hbad]]; [by rewrite Hf in Hm|]; destruct Hbad; auto.
Qed.

Module SlashSample.
Definition caller (k : SessionKind) (p : string) : SlashCommandSession :=
  {| sessionId := "s1"; agentId := "a1"; profileId := p; kind := k; reasoningEffortOverride := None |}.
Definition typed (t : string) (k : SessionKind) (p : string) : SlashCommandInput :=
  {| text := t; input_session := caller k p; actor_id := "u1"; source := JUndefined; options := None |}.

(** An effort change by a prime session. *)
Lemma slash_control_exact_witness :
  ∃ resp req, routeSlashCommand (typed " //Effort  HIGH " full "prime") = intercepted (Some effort) ok resp (Some req)
    ∧ target req = [("sessionId", "s1")] ∧ map_get "reasoningEffort" (body req) = Some (JString "high").
Proof.
  destruct (proj2 (proj2 (slash_control_exact (typed " //Effort  HIGH " full "prime")))
    {| parsed_name := "/Effort"; args := "HIGH" |} _ eq_refl eq_refl eq_refl eq_refl) as (resp & req & Hr).
  - left; split; [reflexivity|left].
  - intros _; split; [vm_compute; discriminate|right]; apply (bool_decide_unpack _); vm_compute; exact I.
  - exists resp, req; split; [exact Hr|]; vm_compute in Hr; injection Hr as <- <-.
    split; reflexivity.
Defined.

Example worker_denied :
  match routeSlashCommand (typed "/new" worker "prime") with
  | intercepted (Some new) denied _ None => True
  | _ => False
  end.
Proof. vm_compute; exact I. Qed.

(** The registry lists full sessions only for [/archive]; a delegated session may
    use it on itself all the same. *)
Example delegated_archives_itself :
  (allowedSessionKinds <$> findSlashCommandDescriptor "archive") = Some [full]
  ∧ match routeSlashCommand (typed "/archive" delegated "helper") with
    | intercepted (Some archive) ok _ (Some _) => True
    | _ => False
    end.
Proof. vm_compute; split; [reflexivity|exact I]. Qed.
End SlashSample.
