(* ===== verification/JsonParse.v ===== *)
(** * [JSON.parse]

    The class [JsonText] is what the sources rely on: a parser that gives back what
    [JSON.stringify] wrote.  [grammar_json] is the parser of the JSON grammar over the
    code units of the model; the conversion of a number literal to a double and back
    to text is its argument.  An escape above [\u00ff] is outside the model's code units. *)

From S2P Require Import Prelude JsString Json.

(** ** The grammar *)

Definition json_ws (c : ascii) : bool :=
  let n := code c in ((n =? 32) || (n =? 9) || (n =? 10) || (n =? 13))%N.

Fixpoint skip_ws (t : text) : text :=
  match t with
  | c :: r => if json_ws c then skip_ws r else t
  | [] => []
  end.

Definition hex_value (c : ascii) : option N :=
  let n := code c in
  if is_digit c then Some (n - 48)%N
  else if ((97 <=? n) && (n <=? 102))%N then Some (n - 87)%N
  else if ((65 <=? n) && (n <=? 70))%N then Some (n - 55)%N
  else None.

Definition simple_escape (c : ascii) : option ascii :=
  let n := code c in
  if ((n =? 34) || (n =? 92) || (n =? 47))%N then Some c
  else if (n =? 98)%N then Some (Ascii.ascii_of_N 8)
  else if (n =? 102)%N then Some (Ascii.ascii_of_N 12)
  else if (n =? 110)%N then Some (Ascii.ascii_of_N 10)
  else if (n =? 114)%N then Some (Ascii.ascii_of_N 13)
  else if (n =? 116)%N then Some (Ascii.ascii_of_N 9)
  else None.

Definition unicode_escape (a b c d : ascii) : option ascii :=
  a ← hex_value a; b ← hex_value b; c ← hex_value c; d ← hex_value d;
  let n := (((a * 16 + b) * 16 + c) * 16 + d)%N in
  if (n <? 256)%N then Some (Ascii.ascii_of_N n) else None.

(** The rest of a string literal after its opening quote. *)
Fixpoint parse_string (t : text) : option (text * text) :=
  match t with
  | [] => None
  | q :: r =>
      if (code q =? 34)%N then Some ([], r)
      else if (code q =? 92)%N then
        match r with
        | [] => None
        | e :: r1 =>
            if (code e =? 117)%N then
              match r1 with
              | a :: b :: c :: d :: r2 =>
                  x ← unicode_escape a b c d;
                  '(s, rest) ← parse_string r2;
                  Some (x :: s, rest)
              | _ => None
              end
            else
              x ← simple_escape e;
              '(s, rest) ← parse_string r1;
              Some (x :: s, rest)
        end
      else if (code q <? 32)%N then None
      else '(s, rest) ← parse_string r; Some (q :: s, rest)
  end.

Definition number_char (c : ascii) : bool :=
  is_digit c || existsb (Ascii.eqb c) ["-"; "+"; "."; "e"; "E"]%char.

Fixpoint span (p : ascii → bool) (t : text) : text * text :=
  match t with
  | c :: r => if p c then let '(a, b) := span p r in (c :: a, b) else ([], t)
  | [] => ([], [])
  end.

(** an integer without leading zeros, a fraction, an exponent *)
Definition is_char (c : ascii) (t : text) : option text :=
  match t with x :: r => if Ascii.eqb x c then Some r else None | [] => None end.

Definition number_literal (t : text) : bool :=
  let t := default t (is_char "-" t) in
  let '(int, t) := span is_digit t in
  let int_ok := match int with
                | [] => false
                | [_] => true
                | c :: _ => negb (Ascii.eqb c "0")
                end in
  let '(frac_ok, t) := match is_char "." t with
                       | Some r => let '(f, r) := span is_digit r in (negb (bool_decide (f = [])), r)
                       | None => (true, t)
                       end in
  let exp_ok := match t with
                | [] => true
                | c :: r =>
                    if Ascii.eqb c "e" || Ascii.eqb c "E" then
                      let r := default r (or_else (is_char "+" r) (is_char "-" r)) in
                      negb (bool_decide (r = [])) && forallb is_digit r
                    else false
                end in
  int_ok && frac_ok && exp_ok.

Definition literal (word : string) (v : json) (t : text) : option (json * text) :=
  if Text.startsWith (chars word) t then Some (v, drop (String.length word) t) else None.

Section Grammar.
(** the text of the double nearest to a literal *)
Context (render : text → string).

Definition parse_scalar (t : text) : option (json * text) :=
  match literal "null" JNull t with
  | Some r => Some r
  | None =>
      match literal "true" (JBool true) t with
      | Some r => Some r
      | None =>
          match literal "false" (JBool false) t with
          | Some r => Some r
          | None =>
              let '(n, rest) := span number_char t in
              if number_literal n then Some (JNumber (render n), rest) else None
          end
      end
  end.

Fixpoint parse_value (fuel : nat) (t : text) : option (json * text) :=
  match fuel with
  | 0 => None
  | S fuel =>
      match skip_ws t with
      | [] => None
      | c :: r =>
          if (code c =? 34)%N then '(s, rest) ← parse_string r; Some (JString (str s), rest)
          else if (code c =? 91)%N then
            match is_char "]" (skip_ws r) with
            | Some rest => Some (JArray [], rest)
            | None => '(l, rest) ← parse_elements fuel r; Some (JArray l, rest)
            end
          else if (code c =? 123)%N then
            match is_char "}" (skip_ws r) with
            | Some rest => Some (JObject [], rest)
            | None => '(o, rest) ← parse_members fuel [] r; Some (JObject o, rest)
            end
          else parse_scalar (c :: r)
      end
  end
with parse_elements (fuel : nat) (t : text) : option (list json * text) :=
  match fuel with
  | 0 => None
  | S fuel =>
      '(v, r) ← parse_value fuel t;
      match is_char "," (skip_ws r) with
      | Some r => '(l, rest) ← parse_elements fuel r; Some (v :: l, rest)
      | None => rest ← is_char "]" (skip_ws r); Some ([v], rest)
      end
  end
(** a later member of the same name replaces the value of the earlier one *)
with parse_members (fuel : nat) (o : list (string * json)) (t : text)
    : option (list (string * json) * text) :=
  match fuel with
  | 0 => None
  | S fuel =>
      r ← is_char dquote (skip_ws t);
      '(k, r) ← parse_string r;
      r ← is_char ":" (skip_ws r);
      '(v, r) ← parse_value fuel r;
      let o := map_set (str k) v o in
      match is_char "," (skip_ws r) with
      | Some r => parse_members fuel o r
      | None => rest ← is_char "}" (skip_ws r); Some (o, rest)
      end
  end.

Definition parse (s : string) : option json :=
  '(v, rest) ← parse_value (2 * String.length s + 1) (chars s);
  if bool_decide (skip_ws rest = []) then Some v else None.
End Grammar.

(** ** The interface: texts written by [JSON.stringify] read back *)

(** Values that JSON can carry: a number is finite and by the text of a double, an
    object has each key once and none that enumerates as an array index. *)
Definition index_key (k : string) : bool :=
  match chars k with c :: _ => is_digit c | [] => false end.

#[warnings="-register-all"]
Inductive plain (double_text : string → Prop) : json → Prop :=
| plain_undefined : plain double_text JUndefined
| plain_null : plain double_text JNull
| plain_bool b : plain double_text (JBool b)
| plain_number t : double_text t → t ≠ "null" → plain double_text (JNumber t)
| plain_string s : plain double_text (JString s)
| plain_array l : Forall (plain double_text) l → plain double_text (JArray l)
| plain_object o :
    NoDup o.*1 → Forall (λ p, index_key p.1 = false ∧ plain double_text p.2) o →
    plain double_text (JObject o).

Class JsonText := {
  JSON_parse : string → option json;
  double_text : string → Prop;
  parse_stringify v s : plain double_text v → stringify v = Some s → JSON_parse s = Some (json_clone v)
}.

Lemma parse_string_escaped c t :
  parse_string (escape_char c ++ t) = ('(s, rest) ← parse_string t; Some (c :: s, rest)).
Proof. destruct c as [[] [] [] [] [] [] [] []]; reflexivity. Qed.

Lemma parse_string_quoted s rest :
  parse_string ((s ≫= escape_char) ++ dquote :: rest) = Some (s, rest).
Proof.
  induction s as [|c s IH]; [reflexivity|].
  cbn [mbind list_bind]; rewrite <-(assoc_L (++)), parse_string_escaped.
  by change (list_bind _ _ escape_char s) with (s ≫= escape_char); rewrite IH.
Qed.

Lemma span_all p t rest :
  forallb p t = true → (match rest with c :: _ => p c = false | [] => True end) →
  span p (t ++ rest) = (t, rest).
Proof.
  intros Ht Hr; induction t as [|c t IH]; cbn in *.
  - destruct rest as [|c r]; cbn; [done|]; by rewrite Hr.
  - apply andb_prop in Ht as [-> Ht]; by rewrite (IH Ht).
Qed.

(** What may follow a value in a text: no character of a number. *)
Definition stops (rest : text) : Prop :=
  match rest with c :: _ => number_char c = false | [] => True end.

Definition value_text (v : json) : text := chars (default "null" (stringify v)).
Definition element (v : json) : json := match v with JUndefined => JNull | _ => json_clone v end.

Section RoundTrip.
Context (render : text → string).

Definition literal_text (t : string) : Prop :=
  forallb number_char (chars t) = true ∧ number_literal (chars t) = true ∧ render (chars t) = t.

Definition reads (v : json) : Prop :=
  ∀ n rest, (2 * length (value_text v) + 1 ≤ n)%nat → stops rest →
    parse_value render n (value_text v ++ rest) = Some (element v, rest).

Lemma number_head c r rest :
  number_char c = true → forallb number_char r = true → stops rest →
  number_literal (c :: r) = true →
  ∀ n, parse_value render (S n) (c :: r ++ rest) = Some (JNumber (render (c :: r)), rest).
Proof.
  intros Hc Hr Hs Hlit n.
  assert (Hspan : span number_char ((c :: r) ++ rest) = (c :: r, rest))
    by (apply span_all; [cbn; by rewrite Hc|done]).
  assert (Hp : parse_scalar render (c :: r ++ rest) = Some (JNumber (render (c :: r)), rest)).
  { destruct c as [[] [] [] [] [] [] [] []]; try discriminate Hc;
      (unfold parse_scalar, literal; cbn [Text.startsWith chars String.list_ascii_of_string];
       change (?a :: r ++ rest) with ((a :: r) ++ rest); rewrite Hspan, Hlit; reflexivity). }
  clear Hspan Hlit.
  destruct c as [[] [] [] [] [] [] [] []]; try discriminate Hc; exact Hp.
Qed.

Lemma reads_number t : literal_text t → t ≠ "null" → reads (JNumber t).
Proof.
  intros (Hall & Hlit & Hren) Hnull n rest Hn Hs.
  change (value_text (JNumber t)) with (chars t) in *.
  destruct (chars t) as [|c r] eqn:Ht; [discriminate Hlit|].
  destruct n as [|n]; [lia|].
  cbn in Hall; apply andb_prop in Hall as [Hc Hr].
  cbn [app]; rewrite number_head by done; cbn [element json_clone].
  rewrite Hren; by destruct (String.eqb_spec t "null").
Qed.

Lemma parse_value_string n t :
  parse_value render (S n) (dquote :: t)
  = ('(s, rest) ← parse_string t; Some (JString (str s), rest)).
Proof. reflexivity. Qed.

Lemma parse_value_array n t :
  parse_value render (S n) ("["%char :: t)
  = match is_char "]" (skip_ws t) with
    | Some rest => Some (JArray [], rest)
    | None => '(l, rest) ← parse_elements render n t; Some (JArray l, rest)
    end.
Proof. reflexivity. Qed.

Lemma parse_value_object n t :
  parse_value render (S n) ("{"%char :: t)
  = match is_char "}" (skip_ws t) with
    | Some rest => Some (JObject [], rest)
    | None => '(o, rest) ← parse_members render n [] t; Some (JObject o, rest)
    end.
Proof. reflexivity. Qed.

Lemma chars_quote s : chars (quote s) = dquote :: (chars s ≫= escape_char) ++ [dquote].
Proof. unfold quote; by rewrite chars_str. Qed.

Lemma reads_string s : reads (JString s).
Proof.
  intros n rest Hn _; destruct n as [|n]; [lia|].
  change (value_text (JString s)) with (chars (quote s)).
  rewrite chars_quote; cbn [app]; rewrite <-(assoc_L (++)), parse_value_string; cbn [app].
  rewrite parse_string_quoted; cbn; by rewrite str_chars.
Qed.

(** The text of a value begins with the character of its kind. *)
Lemma value_text_head v :
  (plain literal_text v) →
  ∃ c r, value_text v = c :: r ∧ json_ws c = false ∧ Ascii.eqb c "]" = false.
Proof.
  intros [| |b|t (Hall & Hlit & _)|s|l|o].
  4: { change (value_text (JNumber t)) with (chars t).
       destruct (chars t) as [|c r]; [discriminate Hlit|]; exists c, r.
       cbn in Hall; apply andb_prop in Hall as [Hc _].
       destruct c as [[] [] [] [] [] [] [] []]; try discriminate Hc; by repeat split. }
  3: destruct b.
  all: do 2 eexists; split_and!; cbn; unfold quote; rewrite ?chars_str; reflexivity.
Qed.

Lemma join_cons_text (x : string) l :
  chars (Str.join "," (x :: l))
  = chars x ++ (match l with [] => [] | _ => ","%char :: chars (Str.join "," l) end).
Proof.
  unfold Str.join; rewrite !chars_str; destruct l as [|y l]; cbn; by rewrite ?app_nil_r.
Qed.

Lemma elements_last n t v rest :
  parse_value render n t = Some (v, "]"%char :: rest) →
  parse_elements render (S n) t = Some ([v], rest).
Proof. intros H; cbn [parse_elements]; rewrite H; reflexivity. Qed.

Lemma elements_more n t v r l rest :
  parse_value render n t = Some (v, ","%char :: r) → parse_elements render n r = Some (l, rest) →
  parse_elements render (S n) t = Some (v :: l, rest).
Proof.
  intros H Hr.
  transitivity ('(l, rest) ← parse_elements render n r; Some (v :: l, rest)); [|by rewrite Hr].
  cbn [parse_elements]; rewrite H; reflexivity.
Qed.

Lemma chars_bracket (a b : ascii) s :
  chars (str [a] +:+ s +:+ str [b]) = a :: chars s ++ [b].
Proof. by rewrite !chars_app. Qed.

Definition array_text (l : list json) : text :=
  chars (Str.join "," (map (λ x, default "null" (stringify x)) l)).

Lemma array_text_cons v l :
  array_text (v :: l) = value_text v ++ match l with [] => [] | _ => ","%char :: array_text l end.
Proof. unfold array_text; cbn [map]; rewrite join_cons_text; by destruct l. Qed.

Lemma reads_elements l : l ≠ [] → Forall reads l →
  ∀ n rest, (2 * length (array_text l) + 2 ≤ n)%nat →
    parse_elements render n (array_text l ++ "]"%char :: rest) = Some (map element l, rest).
Proof.
  intros Hne Hl; induction Hl as [|v l Hv Hl IH]; [done|]; intros n rest Hn.
  destruct n as [|n]; [lia|].
  rewrite array_text_cons in *; rewrite length_app in Hn.
  destruct l as [|w l].
  - apply elements_last; rewrite app_nil_r; apply Hv; [lia|done].
  - cbn [length] in Hn; rewrite <-(assoc_L (++)); eapply elements_more.
    + apply Hv; [lia|done].
    + apply IH; [done|lia].
Qed.

Lemma value_text_array l : value_text (JArray l) = "["%char :: array_text l ++ ["]"%char].
Proof. apply (chars_bracket "[" "]"). Qed.

Lemma json_clone_array l : json_clone (JArray l) = JArray (map element l).
Proof. reflexivity. Qed.

Lemma reads_array l : Forall (plain literal_text) l → Forall reads l → reads (JArray l).
Proof.
  intros Hp Hl n rest Hn _; rewrite value_text_array in *; cbn [length] in Hn.
  rewrite length_app in Hn; cbn [length] in Hn.
  destruct n as [|n]; [lia|]; cbn [app]; rewrite parse_value_array, <-(assoc_L (++)); cbn [app].
  destruct l as [|v l]; [reflexivity|].
  apply Forall_cons in Hp as Hv; destruct Hv as [Hv _].
  destruct (value_text_head v Hv) as (c & r & Hc & Hws & Hb).
  assert (is_char "]" (skip_ws (array_text (v :: l) ++ "]"%char :: rest)) = None) as ->.
  { rewrite array_text_cons, Hc; cbn; rewrite Hws; cbn; by rewrite Hb. }
  rewrite reads_elements; [reflexivity|done|done|lia].
Qed.

(** *** Objects *)

Lemma members_step n acc k t v r :
  parse_value render n t = Some (v, r) →
  parse_members render (S n) acc (chars (quote k) ++ ":"%char :: t)
  = match is_char "," (skip_ws r) with
    | Some r => parse_members render n (map_set k v acc) r
    | None => rest ← is_char "}" (skip_ws r); Some (map_set k v acc, rest)
    end.
Proof.
  intros H; rewrite chars_quote; cbn [app]; rewrite <-(assoc_L (++)); cbn [app].
  transitivity ('(k, r) ← parse_string ((chars k ≫= escape_char) ++ dquote :: ":"%char :: t);
                r ← is_char ":" (skip_ws r); '(v, r) ← parse_value render n r;
                match is_char "," (skip_ws r) with
                | Some r => parse_members render n (map_set (str k) v acc) r
                | None => rest ← is_char "}" (skip_ws r); Some (map_set (str k) v acc, rest)
                end); [reflexivity|].
  rewrite parse_string_quoted.
  transitivity (parse_value render n t ≫= λ '(v, r),
                match is_char "," (skip_ws r) with
                | Some r => parse_members render n (map_set (str (chars k)) v acc) r
                | None => rest ← is_char "}" (skip_ws r); Some (map_set (str (chars k)) v acc, rest)
                end); [reflexivity|by rewrite H, str_chars].
Qed.

Definition member_text (p : string * json) : string :=
  quote p.1 +:+ ":" +:+ default "null" (stringify p.2).
Definition members_text (o : list (string * json)) : text :=
  chars (Str.join "," (map member_text o)).

Lemma members_text_cons p o :
  members_text (p :: o)
  = chars (quote p.1) ++ ":"%char :: value_text p.2
    ++ match o with [] => [] | _ => ","%char :: members_text o end.
Proof.
  unfold members_text; cbn [map]; rewrite join_cons_text; unfold member_text at 1.
  rewrite !chars_app, <-!(assoc_L (++)); cbn; by destruct o.
Qed.

Lemma reads_members o : o ≠ [] → Forall (λ p, reads p.2) o →
  ∀ acc n rest, NoDup (acc.*1 ++ o.*1) → (2 * length (members_text o) + 2 ≤ n)%nat →
    parse_members render n acc (members_text o ++ "}"%char :: rest)
    = Some (acc ++ map (λ p, (p.1, element p.2)) o, rest).
Proof.
  intros Hne Ho; induction Ho as [|[k v] o Hv Ho IH]; [done|]; intros acc n rest Hnd Hn.
  destruct n as [|n]; [lia|]; cbn [snd fst] in *.
  rewrite members_text_cons in *; cbn [fst snd] in *.
  rewrite !length_app in Hn; cbn [length] in Hn; rewrite length_app in Hn.
  rewrite <-!(assoc_L (++)); cbn [app]; rewrite <-(assoc_L (++)).
  assert (Habs : map_set k (element v) acc = acc ++ [(k, element v)]).
  { apply map_set_absent, map_get_None; apply NoDup_app in Hnd as (_ & H & _); intros Hin.
    apply (H k Hin); cbn; left. }
  erewrite members_step by (apply Hv; [lia|by destruct o]).
  destruct o as [|q o]; [cbn; by rewrite Habs|].
  cbn [app]; change (is_char "," (skip_ws (","%char :: ?t))) with (Some t); cbn [length] in Hn; cbv iota.
  rewrite Habs, IH; [by rewrite <-(assoc_L (++))|done| |lia].
  rewrite fmap_app, <-(assoc_L (++)); exact Hnd.
Qed.

(** The members [JSON.stringify] keeps. *)
Definition defined (p : string * json) : bool :=
  match p.2 with JUndefined => false | _ => true end.

Lemma stringify_None v : stringify v = None ↔ v = JUndefined.
Proof. by destruct v. Qed.

Lemma stringify_members o :
  flat_map (λ p, match p with
                 | (k, x) => match stringify x with
                             | Some t => [quote k +:+ ":" +:+ t]
                             | None => []
                             end
                 end) o
  = map member_text (List.filter defined o).
Proof.
  induction o as [|[k x] o IH]; [done|]; cbn [flat_map List.filter]; rewrite IH.
  unfold defined; cbn [snd].
  by destruct x; try reflexivity.
Qed.

Lemma clone_members o :
  json_clone (JObject o) = JObject (map (λ p, (p.1, element p.2)) (List.filter defined o)).
Proof.
  cbn [json_clone]; f_equal; induction o as [|[k x] o IH]; [done|].
  cbn [flat_map List.filter]; rewrite IH; unfold defined; cbn [snd]; by destruct x.
Qed.

Lemma value_text_object o :
  value_text (JObject o) = "{"%char :: members_text (List.filter defined o) ++ ["}"%char].
Proof. unfold members_text; rewrite <-stringify_members; apply (chars_bracket "{" "}"). Qed.

Lemma filter_NoDup_keys (o : list (string * json)) :
  NoDup o.*1 → NoDup (List.filter defined o).*1.
Proof.
  induction o as [|[k x] o IH]; [done|]; cbn [fmap list_fmap]; intros [Hk Hnd]%NoDup_cons.
  cbn [List.filter]; destruct (defined (k, x)); [|by apply IH]; cbn; constructor; [|by apply IH].
  intros ([k' y] & -> & Hin%elem_of_List_filter)%list_elem_of_fmap; apply Hk.
  apply list_elem_of_fmap; exists (k', y); naive_solver.
Qed.

Lemma reads_object o : NoDup o.*1 → Forall (λ p, reads p.2) o → reads (JObject o).
Proof.
  intros Hnd Ho n rest Hn _; rewrite value_text_object in *; cbn [length] in Hn.
  rewrite length_app in Hn; cbn [length] in Hn.
  destruct n as [|n]; [lia|]; cbn [app]; rewrite parse_value_object, <-(assoc_L (++)); cbn [app].
  change (element (JObject o)) with (json_clone (JObject o)); rewrite clone_members.
  assert (Hk : Forall (λ p, reads p.2) (List.filter defined o)).
  { apply Forall_forall; intros p [Hp _]%elem_of_List_filter; by apply (proj1 (Forall_forall _ _) Ho). }
  apply filter_NoDup_keys in Hnd.
  destruct (List.filter defined o) as [|p l]; [reflexivity|].
  assert (is_char "}" (skip_ws (members_text (p :: l) ++ "}"%char :: rest)) = None) as ->
    by (rewrite members_text_cons, chars_quote; reflexivity).
  rewrite reads_members; [reflexivity|done|done|exact Hnd|lia].
Qed.

Lemma plain_reads v : plain literal_text v → reads v.
Proof.
  induction v as [| |b|t|s|l IH|o IH] using json_nested_ind; intros Hp.
  - intros [|n] rest Hn _; [lia|reflexivity].
  - intros [|n] rest Hn _; [lia|reflexivity].
  - intros [|n] rest Hn _; [lia|destruct b; reflexivity].
  - inversion Hp; subst; by apply reads_number.
  - apply reads_string.
  - inversion Hp as [| | | | |? Hl|]; subst; apply reads_array; [done|].
    apply Forall_forall; intros x Hx; rewrite Forall_forall in IH, Hl; auto.
  - inversion Hp as [| | | | | |? Hnd Ho]; subst; apply reads_object; [done|].
    apply Forall_forall; intros x Hx; rewrite Forall_forall in IH, Ho; naive_solver.
Qed.

Lemma grammar_parse_stringify v s :
  plain literal_text v → stringify v = Some s → parse render s = Some (json_clone v).
Proof.
  intros Hp Hs; pose proof (plain_reads v Hp) as Hr.
  assert (Hd : v ≠ JUndefined) by (intros ->; discriminate).
  assert (Ht : value_text v = chars s) by (unfold value_text; by rewrite Hs).
  unfold parse; specialize (Hr (2 * String.length s + 1) []); rewrite Ht, app_nil_r in Hr.
  rewrite Hr by (rewrite ?length_chars; done); cbn; by destruct v.
Qed.

Definition grammar_json : JsonText :=
  {| JSON_parse := parse render; double_text := literal_text; parse_stringify := grammar_parse_stringify |}.
End RoundTrip.
Arguments grammar_json render : clear implicits.

(** Numbers by their literal, which is their text for integers and short decimals. *)
Definition literal_json : JsonText := grammar_json str.
