(* ===== verification/CodexCodec.v ===== *)
(** * The Codex protocol codec

    [codec.ts] and [consumed-contract.ts] of [ts/packages/external-runtime-codex/src]:
    what the controller accepts from a Codex app-server.  The schema files of
    [protocol/0.144.1/json] and the validators that [ajv] compiles from them are
    arguments; a compiled validator returns the text of its errors, or nothing for a
    valid value.  The codec's cache of validators is its state. *)

From stdpp Require Import sets.
From S2P Require Import Prelude JsString Json JsonParse.

(** ** Thrown errors by their class *)

Inductive protocol_reason :=
| malformed_message
| malformed_known_notification
| malformed_known_request
| malformed_response.

#[global] Instance protocol_reason_eq : EqDecision protocol_reason.
Proof. solve_decision. Defined.

(** [CodexProtocolError], [CodexRpcError], any other [Error], and values that are
    thrown without being errors (the reason of an abort), by their text. *)
#[warnings="-register-all"]
Inductive js_error :=
| ProtocolError (reasonCode : protocol_reason) (message : string) (candidate : option json)
| RpcError (code : string) (message : string) (data : json)
| PlainError (message : string)
| ThrownValue (rendered : string).

(** [String(error)] *)
Definition error_string (e : js_error) : string :=
  match e with
  | ProtocolError _ m _ | RpcError _ m _ | PlainError m =>
      if String.eqb m "" then "Error" else "Error: " +:+ m
  | ThrownValue s => s
  end.

Definition is_protocol_error (e : js_error) : bool :=
  match e with ProtocolError _ _ _ => true | _ => false end.

Inductive exn (A : Type) : Type :=
| Done (a : A)
| Raise (e : js_error).
Arguments Done {A} a.
Arguments Raise {A} e.

#[global] Instance exn_ret : MRet exn := fun A => @Done A.
#[global] Instance exn_bind : MBind exn := fun A B f m =>
  match m with
  | Done a => f a
  | Raise e => Raise e
  end.

(** ** [consumed-contract.ts] *)

Definition CODEX_CONSUMED_RESPONSE_SCHEMAS : jsmap string string := [
  ("initialize", "v1/InitializeResponse.json");
  ("model/list", "v2/ModelListResponse.json");
  ("collaborationMode/list", "v2/CollaborationModeListResponse.json");
  ("thread/list", "v2/ThreadListResponse.json");
  ("thread/read", "v2/ThreadReadResponse.json");
  ("thread/archive", "v2/ThreadArchiveResponse.json");
  ("thread/fork", "v2/ThreadForkResponse.json");
  ("thread/delete", "v2/ThreadDeleteResponse.json");
  ("thread/unarchive", "v2/ThreadUnarchiveResponse.json");
  ("thread/loaded/list", "v2/ThreadLoadedListResponse.json");
  ("thread/start", "v2/ThreadStartResponse.json");
  ("thread/resume", "v2/ThreadResumeResponse.json");
  ("thread/name/set", "v2/ThreadSetNameResponse.json");
  ("thread/turns/list", "v2/ThreadTurnsListResponse.json");
  ("thread/items/list", "v2/ThreadItemsListResponse.json");
  ("turn/start", "v2/TurnStartResponse.json");
  ("turn/steer", "v2/TurnSteerResponse.json");
  ("turn/interrupt", "v2/TurnInterruptResponse.json");
  ("thread/compact/start", "v2/ThreadCompactStartResponse.json");
  ("thread/settings/update", "v2/ThreadSettingsUpdateResponse.json")
].

Definition CODEX_CONSUMED_SERVER_REQUEST_RESPONSE_SCHEMAS : jsmap string string := [
  ("item/commandExecution/requestApproval", "CommandExecutionRequestApprovalResponse.json");
  ("item/fileChange/requestApproval", "FileChangeRequestApprovalResponse.json");
  ("item/tool/requestUserInput", "ToolRequestUserInputResponse.json");
  ("mcpServer/elicitation/request", "McpServerElicitationRequestResponse.json");
  ("item/permissions/requestApproval", "PermissionsRequestApprovalResponse.json");
  ("item/tool/call", "DynamicToolCallResponse.json");
  ("account/chatgptAuthTokens/refresh", "ChatgptAuthTokensRefreshResponse.json");
  ("attestation/generate", "AttestationGenerateResponse.json");
  ("currentTime/read", "CurrentTimeReadResponse.json");
  ("applyPatchApproval", "ApplyPatchApprovalResponse.json");
  ("execCommandApproval", "ExecCommandApprovalResponse.json")
].

(** [CODEX_CONSUMED_INBOUND_SCHEMAS] *)
Definition serverRequest : string := "ServerRequest.json".
Definition serverNotification : string := "ServerNotification.json".

(** The filter of [relaxSchemaNode]: [key !== "additionalProperties" || child !== false] *)
Definition keeps_entry (p : string * json) : bool :=
  negb (String.eqb p.1 "additionalProperties")
  || match p.2 with JBool false => false | _ => true end.

Fixpoint relaxSchemaNode (v : json) : json :=
  match v with
  | JArray l => JArray (map relaxSchemaNode l)
  | JObject o =>
      JObject (flat_map (λ p, match p with
                              | (k, x) => if keeps_entry (k, x) then [(k, relaxSchemaNode x)] else []
                              end) o)
  | _ => v
  end.

Definition allowAdditiveObjectFields (schema : json) : json := relaxSchemaNode schema.

(** ** Messages *)

Inductive JsonRpcId :=
| IdString (s : string)
| IdNumber (rendered : string).

#[global] Instance JsonRpcId_eq : EqDecision JsonRpcId.
Proof. solve_decision. Defined.

Definition isJsonRpcId (v : json) : option JsonRpcId :=
  match v with
  | JString s => Some (IdString s)
  | JNumber n => Some (IdNumber n)
  | _ => None
  end.

Definition id_json (i : JsonRpcId) : json :=
  match i with IdString s => JString s | IdNumber n => JNumber n end.

Record JsonRpcResponseMessage := {
  response_id : JsonRpcId;
  (** [JUndefined] when the message has no [result] *)
  response_result : json;
  (** code, message and data *)
  response_error : option (string * string * json)
}.

Inductive DecodedServerMessage :=
| DResponse (response : JsonRpcResponseMessage)
| DRequest (id : JsonRpcId) (method : string) (request : json)
| DUnknownRequest (id : JsonRpcId) (method : string) (params : json)
| DNotification (method : string) (notification : json)
| DUnknownNotification (method : string) (params : json).

Definition string_member (v : json) : option string :=
  match v with JString s => Some s | _ => None end.

(** [v?.k]: nothing of an absent value, no property of a primitive. *)
Definition opt_member (v : json) (k : string) : json :=
  match v with JObject o => member o k | _ => JUndefined end.

Section Codec.
Context {JT : JsonText}.
(** the text of the [SyntaxError] for a malformed message *)
Context (syntaxError : string → string).
(** [JSON.parse(readFileSync(...))] of a schema file *)
Context (readSchema : string → exn json).
(** [ajv.compile] and, of the compiled function, the errors on a value *)
Context (compile : json → exn (json → option string)).

Record CodexProtocolCodec := {
  validators : jsmap string (json → option string);
  knownRequestMethods : list string;
  knownNotificationMethods : list string
}.

(** One entry's [entry.properties?.method?.enum ?? []], flattened as [flatMap] does. *)
Definition enum_methods (entry : json) : exn (list string) :=
  match entry with
  | JUndefined | JNull => Raise (PlainError "Cannot read properties of null (reading 'properties')")
  | _ =>
      Done match opt_member (opt_member (opt_member entry "properties") "method") "enum" with
           | JArray l => omap string_member l
           | JString s => [s]
           | _ => []
           end
  end.

Fixpoint flatMapE {A B} (f : A → exn (list B)) (l : list A) : exn (list B) :=
  match l with
  | [] => Done []
  | x :: l' => ys ← f x; zs ← flatMapE f l'; Done (ys ++ zs)
  end.

Definition methodsFromSchema (path : string) : exn (list string) :=
  schema ← readSchema path;
  match opt_member schema "oneOf" with
  | JUndefined | JNull => Done []
  | JArray l => ms ← flatMapE enum_methods l; Done (set_of_list ms)
  | _ => Raise (PlainError "(schema.oneOf ?? []).flatMap is not a function")
  end.

Definition new_CodexProtocolCodec : exn CodexProtocolCodec :=
  notifications ← methodsFromSchema serverNotification;
  Done {| validators := [];
          knownRequestMethods := set_of_list (map_keys CODEX_CONSUMED_SERVER_REQUEST_RESPONSE_SCHEMAS);
          knownNotificationMethods := notifications |}.

Definition validatorKey (path : string) (allowAdditiveFields : bool) : string :=
  path +:+ ":" +:+ (if allowAdditiveFields then "additive" else "exact").

(** A validator compiled from its file. *)
Definition compileSchema (path : string) (allowAdditiveFields : bool) : exn (json → option string) :=
  schema ← readSchema path;
  compile (if allowAdditiveFields then allowAdditiveObjectFields schema else schema).

Definition validator (c : CodexProtocolCodec) (path : string) (allowAdditiveFields : bool)
    : CodexProtocolCodec * exn (json → option string) :=
  let key := validatorKey path allowAdditiveFields in
  match map_get key (validators c) with
  | Some existing => (c, Done existing)
  | None =>
      match compileSchema path allowAdditiveFields with
      | Raise e => (c, Raise e)
      | Done compiled =>
          ({| validators := map_set key compiled (validators c);
              knownRequestMethods := knownRequestMethods c;
              knownNotificationMethods := knownNotificationMethods c |}, Done compiled)
      end
  end.

Definition validation_error (reason : protocol_reason) (path errors : string) (value : json) : js_error :=
  ProtocolError reason (path +:+ " validation failed: " +:+ errors) (Some value).

Definition assertValid (c : CodexProtocolCodec) (path : string) (value : json)
    (reason : protocol_reason) (allowAdditiveFields : bool) : CodexProtocolCodec * exn unit :=
  let '(c1, v) := validator c path allowAdditiveFields in
  (c1, validate ← v;
       match validate value with
       | None => Done ()
       | Some errors => Raise (validation_error reason path errors value)
       end).

Fixpoint readyAll (paths : list string) (additive : bool) (c : CodexProtocolCodec)
    : CodexProtocolCodec * exn unit :=
  match paths with
  | [] => (c, Done ())
  | p :: ps =>
      match validator c p additive with
      | (c1, Raise e) => (c1, Raise e)
      | (c1, Done _) => readyAll ps additive c1
      end
  end.

Definition andThen (r : CodexProtocolCodec * exn unit)
    (k : CodexProtocolCodec → CodexProtocolCodec * exn unit) : CodexProtocolCodec * exn unit :=
  match r with
  | (c, Done _) => k c
  | (c, Raise e) => (c, Raise e)
  end.

Definition assertConsumedContractReady (c : CodexProtocolCodec) : CodexProtocolCodec * exn unit :=
  andThen (readyAll [serverRequest; serverNotification] true c) (λ c,
  andThen (readyAll (map_values CODEX_CONSUMED_RESPONSE_SCHEMAS) true c) (λ c,
  readyAll (map_values CODEX_CONSUMED_SERVER_REQUEST_RESPONSE_SCHEMAS) false c)).

Definition bad_response (message : string) (candidate : json) : js_error :=
  ProtocolError malformed_response message (Some candidate).

(** The last case of [decode]: a message with an id and no method. *)
Definition decodeResponse (o : list (string * json)) (id : JsonRpcId) : exn DecodedServerMessage :=
  let candidate := JObject o in
  if map_has "result" o && map_has "error" o then
    Raise (bad_response "app-server response cannot contain both result and error" candidate)
  else
    match member o "error" with
    | JUndefined =>
        Done (DResponse {| response_id := id; response_result := member o "result";
                           response_error := None |})
    | JObject e =>
        match member e "code", member e "message" with
        | JNumber code, JString message =>
            Done (DResponse {| response_id := id; response_result := member o "result";
                               response_error := Some (code, message, member e "data") |})
        | _, _ => Raise (bad_response "app-server response error has an invalid shape" candidate)
        end
    | _ => Raise (bad_response "app-server response error has an invalid shape" candidate)
    end.

Definition decode (c : CodexProtocolCodec) (raw : string) : CodexProtocolCodec * exn DecodedServerMessage :=
  match JSON_parse raw with
  | None => (c, Raise (ProtocolError malformed_message
                         ("app-server emitted invalid JSON: " +:+ syntaxError raw) None))
  | Some (JObject o) =>
      let candidate := JObject o in
      match string_member (member o "method"), isJsonRpcId (member o "id") with
      | Some method, Some id =>
          if negb (set_has method (knownRequestMethods c)) then
            (c, Done (DUnknownRequest id method (member o "params")))
          else
            let '(c1, r) := assertValid c serverRequest candidate malformed_known_request true in
            (c1, _ ← r; Done (DRequest id method candidate))
      | Some method, None =>
          if negb (set_has method (knownNotificationMethods c)) then
            (c, Done (DUnknownNotification method (member o "params")))
          else
            let '(c1, r) := assertValid c serverNotification candidate malformed_known_notification true in
            (c1, _ ← r; Done (DNotification method candidate))
      | None, Some id =>
          if map_has "result" o || map_has "error" o then (c, decodeResponse o id)
          else (c, Raise (ProtocolError malformed_message
                  "app-server message is not a request, response, or notification" (Some candidate)))
      | None, None =>
          (c, Raise (ProtocolError malformed_message
                  "app-server message is not a request, response, or notification" (Some candidate)))
      end
  | Some candidate =>
      (c, Raise (ProtocolError malformed_message "app-server message must be an object" (Some candidate)))
  end.

Definition assertClientResponse (c : CodexProtocolCodec) (method : string) (result : json)
    : CodexProtocolCodec * exn unit :=
  match map_get method CODEX_CONSUMED_RESPONSE_SCHEMAS with
  | None => (c, Raise (bad_response ("no consumed response contract registered for " +:+ method) result))
  | Some schema => assertValid c schema result malformed_response true
  end.

Definition client_request (method : string) (id : JsonRpcId) (params : json) : json :=
  JObject [("method", JString method); ("id", id_json id); ("params", params)].

Definition assertClientRequest (c : CodexProtocolCodec) (method : string) (id : JsonRpcId)
    (params : json) : CodexProtocolCodec * exn unit :=
  assertValid c "ClientRequest.json" (client_request method id params) malformed_message false.

Definition assertServerRequestResolution (c : CodexProtocolCodec) (method : string) (result : json)
    : CodexProtocolCodec * exn unit :=
  match map_get method CODEX_CONSUMED_SERVER_REQUEST_RESPONSE_SCHEMAS with
  | None =>
      (c, Raise (bad_response ("no response schema registered for known server request " +:+ method) result))
  | Some schema => assertValid c schema result malformed_response false
  end.

(** ** The cache of validators changes no answer *)

(** Every cached validator is the one compiled from the file and mode of its key. *)
Definition coherent (c : CodexProtocolCodec) : Prop :=
  ∀ key f, map_get key (validators c) = Some f →
    ∃ path additive, key = validatorKey path additive ∧ compileSchema path additive = Done f.

(** The codec [c'] knows what [c] knows; only its cache may have grown. *)
Definition same_contract (c c' : CodexProtocolCodec) : Prop :=
  coherent c' ∧ knownRequestMethods c' = knownRequestMethods c
  ∧ knownNotificationMethods c' = knownNotificationMethods c.

Definition check (path : string) (value : json) (reason : protocol_reason) (additive : bool) : exn unit :=
  validate ← compileSchema path additive;
  match validate value with
  | None => Done ()
  | Some errors => Raise (validation_error reason path errors value)
  end.

Lemma validatorKey_inj p a p' a' : validatorKey p a = validatorKey p' a' → p = p' ∧ a = a'.
Proof.
  unfold validatorKey; intros H%(f_equal (λ s, reverse (chars s))).
  rewrite !chars_app, !reverse_app in H.
  destruct a, a'; cbn in H; simplify_eq; split; try done; by apply chars_inj.
Qed.

Lemma same_contract_refl c : coherent c → same_contract c c.
Proof. done. Qed.

Lemma validator_spec c path additive c' r :
  coherent c → validator c path additive = (c', r) →
  same_contract c c' ∧ r = compileSchema path additive.
Proof.
  intros Hc; unfold validator; destruct (map_get _ _) as [f|] eqn:Hget.
  - intros [= <- <-]; split; [done|].
    by destruct (Hc _ _ Hget) as (p & a & [-> ->]%validatorKey_inj & ->).
  - destruct (compileSchema path additive) as [f|e] eqn:Hcomp; intros [= <- <-]; [|done].
    split; [|done]; split; [|done]; intros key g; cbn.
    by_key key (validatorKey path additive); [intros [= <-]; by exists path, additive|exact (Hc key g)].
Qed.

Lemma assertValid_spec c path value reason additive c' r :
  coherent c → assertValid c path value reason additive = (c', r) →
  same_contract c c' ∧ r = check path value reason additive.
Proof.
  intros Hc; unfold assertValid, check; destruct (validator _ _ _) as [c1 v] eqn:Hv.
  apply validator_spec in Hv as [Hs ->]; [|done]; by intros [= <- <-].
Qed.

(** The first file that does not compile decides. *)
Fixpoint ready_check (paths : list string) (additive : bool) : exn unit :=
  match paths with
  | [] => Done ()
  | p :: ps => _ ← compileSchema p additive; ready_check ps additive
  end.

Lemma readyAll_spec paths additive c c' r :
  coherent c → readyAll paths additive c = (c', r) → same_contract c c' ∧ r = ready_check paths additive.
Proof.
  revert c; induction paths as [|p paths IH]; intros c Hc; cbn; [intros [= <- <-]; by split|].
  destruct (validator c p additive) as [c1 [f|e]] eqn:Hv;
    apply validator_spec in Hv as [(Hc1 & Hr1 & Hn1) Hf]; try done; rewrite <-Hf.
  - intros [(Hc' & Hr' & Hn') Hiff]%IH; [|done]; split; [split_and!; [done|congruence|congruence]|done].
  - by intros [= <- <-].
Qed.

(** ** What a message is *)

(** The classification of a parsed object, rule by rule. *)
Inductive classified (requests notifications : list string) (o : list (string * json))
    : exn DecodedServerMessage → Prop :=
| unknown_request m id :
    member o "method" = JString m → isJsonRpcId (member o "id") = Some id → m ∉ requests →
    classified requests notifications o (Done (DUnknownRequest id m (member o "params")))
| known_request m id :
    member o "method" = JString m → isJsonRpcId (member o "id") = Some id → m ∈ requests →
    classified requests notifications o
      (_ ← check serverRequest (JObject o) malformed_known_request true;
       Done (DRequest id m (JObject o)))
| unknown_notification m :
    member o "method" = JString m → isJsonRpcId (member o "id") = None → m ∉ notifications →
    classified requests notifications o (Done (DUnknownNotification m (member o "params")))
| known_notification m :
    member o "method" = JString m → isJsonRpcId (member o "id") = None → m ∈ notifications →
    classified requests notifications o
      (_ ← check serverNotification (JObject o) malformed_known_notification true;
       Done (DNotification m (JObject o)))
| result_response id :
    string_member (member o "method") = None → isJsonRpcId (member o "id") = Some id →
    ("result" ∈ map_keys o ↔ ("error" ∉ map_keys o)) → member o "error" = JUndefined →
    classified requests notifications o
      (Done (DResponse {| response_id := id; response_result := member o "result";
                          response_error := None |}))
| error_response id e code message :
    string_member (member o "method") = None → isJsonRpcId (member o "id") = Some id →
    "result" ∉ map_keys o → member o "error" = JObject e →
    member e "code" = JNumber code → member e "message" = JString message →
    classified requests notifications o
      (Done (DResponse {| response_id := id; response_result := JUndefined;
                          response_error := Some (code, message, member e "data") |}))
| ambiguous_response id :
    string_member (member o "method") = None → isJsonRpcId (member o "id") = Some id →
    "result" ∈ map_keys o → "error" ∈ map_keys o →
    classified requests notifications o
      (Raise (bad_response "app-server response cannot contain both result and error" (JObject o)))
| misshapen_error id :
    string_member (member o "method") = None → isJsonRpcId (member o "id") = Some id →
    "result" ∉ map_keys o → "error" ∈ map_keys o → member o "error" ≠ JUndefined →
    (∀ e code message, member o "error" = JObject e →
       ¬ (member e "code" = JNumber code ∧ member e "message" = JString message)) →
    classified requests notifications o
      (Raise (bad_response "app-server response error has an invalid shape" (JObject o)))
| unclassifiable :
    string_member (member o "method") = None →
    isJsonRpcId (member o "id") = None ∨ ("result" ∉ map_keys o) ∧ ("error" ∉ map_keys o) →
    classified requests notifications o
      (Raise (ProtocolError malformed_message
         "app-server message is not a request, response, or notification" (Some (JObject o)))).

(** The answer to a text: what it parses to decides. *)
Inductive decodes (c : CodexProtocolCodec) (raw : string) : exn DecodedServerMessage → Prop :=
| not_json :
    JSON_parse raw = None →
    decodes c raw (Raise (ProtocolError malformed_message
                     ("app-server emitted invalid JSON: " +:+ syntaxError raw) None))
| not_object v :
    JSON_parse raw = Some v → (∀ o, v ≠ JObject o) →
    decodes c raw (Raise (ProtocolError malformed_message "app-server message must be an object" (Some v)))
| object_message o r :
    JSON_parse raw = Some (JObject o) →
    classified (knownRequestMethods c) (knownNotificationMethods c) o r → decodes c raw r.

Lemma map_has_false {V} k (o : jsmap string V) : map_has k o = false ↔ k ∉ map_keys o.
Proof. rewrite <-not_true_iff_false, map_has_true; done. Qed.

Lemma member_absent k o : k ∉ map_keys o → member o k = JUndefined.
Proof. intros H%map_get_None; unfold member; by rewrite H. Qed.

(** An [error] member that is not an error object. *)
Ltac misshapen :=
  eapply misshapen_error; [eassumption|eassumption|eassumption|eassumption|congruence|
                           intros ??? ? [? ?]; congruence].

Lemma decodeResponse_sound requests notifications o id :
  string_member (member o "method") = None → isJsonRpcId (member o "id") = Some id →
  map_has "result" o || map_has "error" o = true →
  classified requests notifications o (decodeResponse o id).
Proof.
  intros Hm Hid Hhas; unfold decodeResponse.
  destruct (map_has "result" o) eqn:Hres, (map_has "error" o) eqn:Herr; cbn [andb orb] in *; try done;
    rewrite ?map_has_true, ?map_has_false in *.
  - by eapply ambiguous_response.
  - rewrite (member_absent "error") by done; eapply result_response; naive_solver (eauto using member_absent).
  - destruct (member o "error") as [| | | | | |e] eqn:He; try misshapen.
    { by eapply result_response. }
    destruct (member e "code") eqn:Hcode; try misshapen.
    destruct (member e "message") eqn:Hmsg; try misshapen.
    rewrite (member_absent "result") by done; by eapply error_response.
Qed.

Lemma classified_object requests notifications o r :
  classified requests notifications o r → 
  ∀ c, coherent c → knownRequestMethods c = requests → knownNotificationMethods c = notifications →
  ∀ raw, JSON_parse raw = Some (JObject o) → (decode c raw).2 = r.
Proof.
  intros Hcl c Hc <- <- raw Hraw; unfold decode; rewrite Hraw.
  destruct Hcl as [m id Hm Hid Hk|m id Hm Hid Hk|m Hm Hid Hk|m Hm Hid Hk|id Hm Hid Hone He
                  |id e code msg Hm Hid Hres He Hcode Hmsg|id Hm Hid Hr He|id Hm Hid Hr He Hu Hshape|Hm Hnone];
    try rewrite Hm; try rewrite Hid; cbn [string_member].
  - apply set_has_false in Hk; by rewrite Hk.
  - apply set_has_true in Hk; rewrite Hk; cbn [negb].
    destruct (assertValid _ _ _ _ _) as [c' r] eqn:Hv; by apply assertValid_spec in Hv as [_ ->].
  - apply set_has_false in Hk; by rewrite Hk.
  - apply set_has_true in Hk; rewrite Hk; cbn [negb].
    destruct (assertValid _ _ _ _ _) as [c' r] eqn:Hv; by apply assertValid_spec in Hv as [_ ->].
  - unfold decodeResponse.
    destruct (map_has "result" o) eqn:Hres, (map_has "error" o) eqn:Herr; cbn [andb orb snd];
      rewrite ?map_has_true, ?map_has_false in *; try naive_solver; by rewrite He.
  - unfold decodeResponse; apply map_has_false in Hres as Hres'; rewrite Hres'.
    destruct (map_has "error" o) eqn:Herr; cbn [andb orb snd].
    + rewrite He, Hcode, Hmsg; by rewrite (member_absent "result").
    + apply map_has_false in Herr; rewrite member_absent in He by done; discriminate.
  - unfold decodeResponse; apply map_has_true in Hr, He; by rewrite Hr, He.
  - unfold decodeResponse; apply map_has_false in Hr; apply map_has_true in He; rewrite Hr, He; cbn.
    destruct (member o "error") as [| | | | | |e] eqn:Herr; try done.
    destruct (member e "code") eqn:?; try done; destruct (member e "message") eqn:?; try done.
    exfalso; by eapply Hshape.
  - destruct (isJsonRpcId (member o "id")) as [id|] eqn:Hid; [|done].
    destruct Hnone as [?|[Hr He]]; [done|]; apply map_has_false in Hr, He; by rewrite Hr, He.
Qed.

Lemma decode_classified c raw o :
  coherent c → JSON_parse raw = Some (JObject o) →
  classified (knownRequestMethods c) (knownNotificationMethods c) o (decode c raw).2.
Proof.
  intros Hc Hraw; unfold decode; rewrite Hraw.
  destruct (string_member (member o "method")) as [m|] eqn:Hm, (isJsonRpcId (member o "id")) as [id|] eqn:Hid.
  - destruct (member o "method") eqn:Hm'; cbn in Hm; try done; simplify_eq.
    destruct (set_has m _) eqn:Hk; cbn [negb];
      [apply set_has_true in Hk|apply set_has_false in Hk; by eapply unknown_request].
    destruct (assertValid _ _ _ _ _) as [c' r] eqn:Hv; apply assertValid_spec in Hv as [_ ->]; [|done].
    by apply known_request.
  - destruct (member o "method") eqn:Hm'; cbn in Hm; try done; simplify_eq.
    destruct (set_has m _) eqn:Hk; cbn [negb];
      [apply set_has_true in Hk|apply set_has_false in Hk; by eapply unknown_notification].
    destruct (assertValid _ _ _ _ _) as [c' r] eqn:Hv; apply assertValid_spec in Hv as [_ ->]; [|done].
    by apply known_notification.
  - destruct (_ || _) eqn:Hhas; [by apply decodeResponse_sound|].
    apply orb_false_iff in Hhas as [Hr He]; rewrite map_has_false in Hr, He.
    apply unclassifiable; auto.
  - apply unclassifiable; auto.
Qed.

Lemma decode_contract c raw : coherent c → same_contract c (decode c raw).1.
Proof.
  intros Hc; unfold decode; repeat case_match; try done; simplify_eq;
    by match goal with H : assertValid _ _ _ _ _ = _ |- _ => apply assertValid_spec in H as [? _] end.
Qed.

(** ** The answers are those of any other state of the cache *)

Lemma assertValid_stable c c' path value reason additive :
  coherent c → coherent c' →
  (assertValid c' path value reason additive).2 = (assertValid c path value reason additive).2.
Proof.
  intros Hc Hc'; destruct (assertValid c' _ _ _ _) as [c1 r1] eqn:H1, (assertValid c _ _ _ _) as [c2 r2] eqn:H2.
  apply assertValid_spec in H1 as [_ ->], H2 as [_ ->]; done.
Qed.

Lemma ready_stable c c' :
  coherent c → coherent c' → (assertConsumedContractReady c').2 = (assertConsumedContractReady c).2.
Proof.
  assert (Hspec : ∀ c, coherent c → (assertConsumedContractReady c).2
    = (_ ← ready_check [serverRequest; serverNotification] true;
       _ ← ready_check (map_values CODEX_CONSUMED_RESPONSE_SCHEMAS) true;
       ready_check (map_values CODEX_CONSUMED_SERVER_REQUEST_RESPONSE_SCHEMAS) false)).
  { intros c0 Hc; unfold assertConsumedContractReady, andThen.
    destruct (readyAll [_; _] true c0) as [c1 r1] eqn:H1; apply readyAll_spec in H1 as [[Hc1 _] <-]; [|done].
    destruct r1 as [u|e]; [|done]; cbn [mbind exn_bind].
    destruct (readyAll _ true c1) as [c2 r2] eqn:H2; apply readyAll_spec in H2 as [[Hc2 _] <-]; [|done].
    destruct r2 as [u2|e]; [|done]; cbn [mbind exn_bind].
    destruct (readyAll _ false c2) as [c3 r3] eqn:H3; by apply readyAll_spec in H3 as [_ <-]. }
  intros Hc Hc'; by rewrite !Hspec.
Qed.

Lemma decode_stable c c' raw :
  coherent c → same_contract c c' → (decode c' raw).2 = (decode c raw).2.
Proof.
  intros Hc (Hc' & Hr & Hn); destruct (JSON_parse raw) as [[| | | | | |o]|] eqn:Hraw;
    try (by unfold decode; rewrite Hraw).
  pose proof (decode_classified c raw o Hc Hraw) as Hcl; by eapply classified_object.
Qed.

(** C24. Decoding an app-server message is exactly its classification: a text that is
    not JSON or not an object is a malformed message; a known method is validated
    against its relaxed schema and fails with the reason of its kind; an unknown method
    is passed on as such; a response has a result or a well-shaped error and never both;
    everything else is rejected.  The answer does not depend on which validators are
    cached, and the cache stays coherent. *)
Theorem decode_exact c raw r :
  coherent c → ((decode c raw).2 = r ↔ decodes c raw r) ∧ same_contract c (decode c raw).1.
Proof.
  intros Hc; split; [|by apply decode_contract]; split.
  - intros <-; destruct (JSON_parse raw) as [v|] eqn:Hraw.
    + destruct v as [| | | | | |o]; try (unfold decode; rewrite Hraw; by eapply not_object).
      eapply object_message; [done|by apply decode_classified].
    + unfold decode; rewrite Hraw; by apply not_json.
  - intros [Hraw|v Hraw Hno|o ? Hraw Hcl].
    + unfold decode; by rewrite Hraw.
    + unfold decode; rewrite Hraw; destruct v as [| | | | | |o]; try done; by destruct (Hno o).
    + by eapply classified_object.
Qed.

(** ** Messages written by a server read back *)

Definition error_json (e : string * string * json) : json :=
  JObject [("code", JNumber e.1.1); ("message", JString e.1.2); ("data", e.2)].

(** The object a server writes for a message. *)
Definition message_json (m : DecodedServerMessage) : json :=
  match m with
  | DResponse r =>
      JObject [("id", id_json (response_id r));
               match response_error r with
               | Some e => ("error", error_json e)
               | None => ("result", response_result r)
               end]
  | DRequest _ _ v | DNotification _ v => v
  | DUnknownRequest id method params =>
      JObject [("method", JString method); ("id", id_json id); ("params", params)]
  | DUnknownNotification method params => JObject [("method", JString method); ("params", params)]
  end.

(** What JSON can carry unchanged. *)
Definition carried (v : json) : Prop := plain double_text v ∧ json_clone v = v.

(** A message of the protocol: an error response carries no result, known requests and
    notifications satisfy their schema. *)
Definition sendable (c : CodexProtocolCodec) (m : DecodedServerMessage) : Prop :=
  carried (message_json m) ∧
  match m with
  | DResponse r =>
      match response_error r with Some _ => response_result r = JUndefined | None => True end
  | DRequest id method v =>
      method ∈ knownRequestMethods c ∧ isJsonRpcId (opt_member v "id") = Some id
      ∧ opt_member v "method" = JString method ∧ check serverRequest v malformed_known_request true = Done ()
  | DNotification method v =>
      method ∈ knownNotificationMethods c ∧ isJsonRpcId (opt_member v "id") = None
      ∧ opt_member v "method" = JString method
      ∧ check serverNotification v malformed_known_notification true = Done ()
  | DUnknownRequest _ method _ => method ∉ knownRequestMethods c
  | DUnknownNotification method _ => method ∉ knownNotificationMethods c
  end.

Lemma id_json_id i : isJsonRpcId (id_json i) = Some i.
Proof. by destruct i. Qed.

Lemma sendable_classified c m :
  sendable c m →
  ∃ o, message_json m = JObject o ∧
    classified (knownRequestMethods c) (knownNotificationMethods c) o (Done m).
Proof.
  intros [_ Hm]; destruct m as [[id result [[[code msg] data]|]]|id method v|id method params|method v|method params];
    cbn in Hm |- *.
  - subst; eexists; split; [done|].
    eapply (error_response _ _ [("id", id_json id); ("error", error_json (code, msg, data))] id
              [("code", JNumber code); ("message", JString msg); ("data", data)] code msg);
      try done; [apply id_json_id|cbn; set_solver].
  - eexists; split; [done|].
    eapply (result_response _ _ [("id", id_json id); ("result", result)] id); try done; [apply id_json_id|cbn; set_solver].
  - destruct Hm as (Hk & Hid & Hmeth & Hv); destruct v as [| | | | | |o]; try done.
    exists o; split; [done|]; pose proof (known_request _ (knownNotificationMethods c) o method id Hmeth Hid Hk) as H.
    by rewrite Hv in H.
  - eexists; split; [done|].
    by apply (unknown_request _ _ [("method", JString method); ("id", id_json id); ("params", params)]
                method id (eq_refl : member _ "method" = _) (id_json_id id)).
  - destruct Hm as (Hk & Hid & Hmeth & Hv); destruct v as [| | | | | |o]; try done.
    exists o; split; [done|]; pose proof (known_notification (knownRequestMethods c) _ o method Hmeth Hid Hk) as H.
    by rewrite Hv in H.
  - eexists; split; [done|].
    by apply (unknown_notification _ _ [("method", JString method); ("params", params)] method).
Qed.

(** A message of the protocol that a server writes with [JSON.stringify] is decoded
    to itself, for responses, errors, requests and notifications alike, whatever
    validators are cached. *)
Theorem decode_roundtrip c m raw :
  coherent c → sendable c m → stringify (message_json m) = Some raw →
  (decode c raw).2 = Done m.
Proof.
  intros Hc Hm Hraw; destruct (sendable_classified c m Hm) as (o & Ho & Hcl).
  destruct Hm as [[Hp Hclone] _]; rewrite Ho in *.
  eapply classified_object; [done..|]; rewrite (parse_stringify _ _ Hp Hraw); by f_equal.
Qed.
End Codec.
Arguments CodexProtocolCodec : clear implicits.

(** ** The relaxed schema *)

Lemma relax_array l : relaxSchemaNode (JArray l) = JArray (map relaxSchemaNode l).
Proof. reflexivity. Qed.

Lemma relax_object o :
  relaxSchemaNode (JObject o)
  = JObject (map (λ p, (p.1, relaxSchemaNode p.2)) (List.filter keeps_entry o)).
Proof.
  cbn [relaxSchemaNode]; f_equal; induction o as [|[k x] o IH]; [done|].
  cbn [flat_map List.filter]; rewrite IH; by destruct (keeps_entry (k, x)).
Qed.

Lemma relax_member k y o :
  (k, y) ∈ map (λ p, (p.1, relaxSchemaNode p.2)) (List.filter keeps_entry o) ↔
  ∃ x, (k, x) ∈ o ∧ keeps_entry (k, x) = true ∧ y = relaxSchemaNode x.
Proof.
  rewrite list_elem_of_fmap; setoid_rewrite elem_of_List_filter; split.
  - intros ([k' x] & [= -> ->] & ? & ?); eauto.
  - intros (x & ? & ? & ->); by exists (k, x).
Qed.

Lemma relax_entries v k y :
  entry_of k y (relaxSchemaNode v) ↔
  ∃ x, entry_of k x v ∧ keeps_entry (k, x) = true ∧ y = relaxSchemaNode x.
Proof.
  induction v as [| |b|t|s|l IH|o IH] using json_nested_ind.
  1-5: split; [inversion 1|intros (x & Hx & _); inversion Hx].
  - rewrite relax_array, entry_of_array; setoid_rewrite entry_of_array.
    rewrite Forall_forall in IH; split.
    + intros (v' & (v & -> & Hv)%list_elem_of_fmap & He); apply IH in He as (x & ? & ?); eauto.
    + intros (x & (v & Hv & He) & Hk & ->); exists (relaxSchemaNode v).
      split; [by apply list_elem_of_fmap_2|apply IH; eauto].
  - rewrite relax_object, entry_of_object; setoid_rewrite entry_of_object.
    rewrite Forall_forall in IH; split.
    + intros (k' & w & (v & Hv & Hk & ->)%relax_member & [[-> <-]|He]); [eauto 10|].
      apply (IH (k', v) Hv) in He as (x & ? & ?); eauto 10.
    + intros (x & (k' & v & Hv & [[-> ->]|He]) & Hk & ->).
      * exists k, (relaxSchemaNode x); split; [apply relax_member; eauto|auto].
      * exists k', (relaxSchemaNode v); split; [|right; apply (IH (k', v) Hv); eauto].
        apply relax_member; exists v; split_and!; [done| |done].
        unfold keeps_entry; cbn; destruct v; try by rewrite orb_true_r; inversion He.
        inversion He.
Qed.

Lemma relax_false x : relaxSchemaNode x = JBool false → x = JBool false.
Proof. by destruct x. Qed.

Lemma keeps_entry_closed k x :
  keeps_entry (k, x) = true ↔ ¬ (k = "additionalProperties" ∧ x = JBool false).
Proof.
  unfold keeps_entry; cbn; destruct (String.eqb_spec k "additionalProperties"); cbn; [|naive_solver].
  destruct x as [| |[]| | | |]; naive_solver.
Qed.

Lemma relax_open v :
  (¬ entry_of "additionalProperties" (JBool false) v) → relaxSchemaNode v = v.
Proof.
  induction v as [| |b|t|s|l IH|o IH] using json_nested_ind; intros Hno; try done.
  - rewrite relax_array; f_equal; rewrite Forall_forall in IH.
    rewrite <-(map_id l) at 2; apply map_ext_Forall, Forall_forall; intros x Hx; apply IH; [done|].
    intros He; apply Hno, entry_of_array; eauto.
  - rewrite relax_object; f_equal; rewrite Forall_forall in IH; rewrite List_filter_all.
    + rewrite <-(map_id o) at 2; apply map_ext_Forall, Forall_forall; intros [k x] Hx; cbn; f_equal.
      apply (IH (k, x) Hx); intros He; apply Hno, entry_of_object; eauto.
    + intros [k x] Hx; apply keeps_entry_closed; intros [-> ->]; by apply Hno, entry_here.
Qed.

(** Relaxing a schema opens every object schema in it and changes nothing else: no
    [additionalProperties: false] is left anywhere; the members of the relaxed schema
    are exactly the other members of the schema, relaxed; and a schema without such a
    member is kept as it is. *)
Theorem relax_exact schema :
  (¬ entry_of "additionalProperties" (JBool false) (allowAdditiveObjectFields schema))
  ∧ (∀ k y, entry_of k y (allowAdditiveObjectFields schema) ↔
       ∃ x, entry_of k x schema ∧ ¬ (k = "additionalProperties" ∧ x = JBool false)
            ∧ y = allowAdditiveObjectFields x)
  ∧ ((¬ entry_of "additionalProperties" (JBool false) schema) →
       allowAdditiveObjectFields schema = schema).
Proof.
  unfold allowAdditiveObjectFields; split_and!.
  - intros (x & _ & Hk & Hx)%relax_entries; symmetry in Hx; apply relax_false in Hx as ->.
    by apply keeps_entry_closed in Hk; apply Hk.
  - intros k y; rewrite relax_entries; by setoid_rewrite keeps_entry_closed.
  - apply relax_open.
Qed.

(** ** A concrete codec *)

Module CodecExample.
#[local] Existing Instance literal_json.

Definition notification_schema : json :=
  JObject [("oneOf", JArray [
    JObject [("properties", JObject [("method", JObject [("enum", JArray [JString "turn/started"])])]);
             ("additionalProperties", JBool false)]])].

Definition files (path : string) : exn json :=
  if String.eqb path serverNotification then Done notification_schema
  else Done (JObject [("required", JString "params")]).

(** A validator that asks for [params]. *)
Definition ajv (schema : json) : exn (json → option string) :=
  Done (λ v, match opt_member v "params" with JUndefined => Some "data must have params" | _ => None end).

Definition syntax (raw : string) : string := "SyntaxError".

Definition codec : CodexProtocolCodec :=
  default {| validators := []; knownRequestMethods := []; knownNotificationMethods := [] |}
    (match new_CodexProtocolCodec files with Done c => Some c | Raise _ => None end).

Example knows_turn_started : knownNotificationMethods codec = ["turn/started"].
Proof. reflexivity. Qed.

Lemma codec_coherent : coherent files ajv codec.
Proof. intros key f; discriminate. Qed.

Definition failed_turn : DecodedServerMessage :=
  DResponse {| response_id := IdNumber "7"; response_result := JUndefined;
               response_error := Some ("-32601", "no such method", JNull) |}.

Definition raw_of (m : DecodedServerMessage) : string := default "" (stringify (message_json m)).

Lemma failed_turn_sendable : sendable files ajv codec failed_turn.
Proof.
  split; [|done]; split; [|reflexivity].
  repeat first [constructor | by (split_and!; vm_compute) | done | set_solver].
Qed.

(** The second message finds the validator of the first in the cache. *)
Definition warm : CodexProtocolCodec :=
  (decode syntax files ajv codec (raw_of (DUnknownNotification "turn/started" (JBool true)))).1.

Example warm_cached : map_keys (validators warm) = ["ServerNotification.json:additive"].
Proof. vm_compute. reflexivity. Qed.

Lemma decode_exact_witness :
  decodes syntax files ajv codec (raw_of (DUnknownNotification "turn/started" JUndefined))
    (Raise (validation_error malformed_known_notification serverNotification "data must have params"
       (JObject [("method", JString "turn/started")]))).
Proof.
  apply (decode_exact syntax files ajv codec _ _ codec_coherent); vm_compute; reflexivity.
Defined.

Lemma decode_roundtrip_witness : (decode syntax files ajv codec (raw_of failed_turn)).2 = Done failed_turn.
Proof.
  apply (decode_roundtrip syntax files ajv codec failed_turn _ codec_coherent failed_turn_sendable).
  reflexivity.
Defined.

Lemma relax_exact_witness :
  ¬ entry_of "additionalProperties" (JBool false) (allowAdditiveObjectFields notification_schema).
Proof. apply (relax_exact notification_schema). Defined.
End CodecExample.
