(* ===== verification/CodexText.v ===== *)
(** * Texts that leave the Codex boundary

    [error-diagnostics.ts], [agent-message-file-links.ts] and [raw-detail.ts] of
    [ts/packages/external-runtime-codex/src]: bounded error diagnostics, links to host
    files in agent messages, and the bounded, redacted copy of a native message that is
    kept as evidence.  SHA-256 is an argument, and so is the text of U+FFFD, which is
    outside the model's 8-bit code units. *)

From stdpp Require Import sets.
From S2P Require Import Prelude JsString Json.

(** ** Bounded texts *)

Definition isHighSurrogate (codeUnit : N) : bool := ((55296 <=? codeUnit) && (codeUnit <=? 56319))%N.

(** The tail of [boundedDiagnosticString] and of [dynamicToolResultText], on any code
    units: the text, or its beginning and the marker, not cut inside a surrogate pair. *)
Section Truncation.
Context {A : Type} (charCode : A → N) (marker : list A).

Definition content_end (max : nat) (t : list A) : nat :=
  let contentLength := (max - length marker)%nat in
  match contentLength with
  | 0 => 0
  | S before =>
      match t !! before with
      | Some c => if isHighSurrogate (charCode c) then before else contentLength
      | None => contentLength
      end
  end.

Definition truncate (max : nat) (t : list A) : list A :=
  if (length t <=? max)%nat then t else take (content_end max t) t ++ marker.

Lemma content_end_le max t : (content_end max t <= max - length marker)%nat.
Proof. unfold content_end; repeat case_match; lia. Qed.

Lemma truncate_length max t : (length (truncate max t) <= max `max` length marker)%nat.
Proof.
  unfold truncate; destruct (Nat.leb_spec (length t) max); [lia|].
  rewrite length_app, length_take; pose proof (content_end_le max t); lia.
Qed.

(** *** UTF-16 texts stay well formed *)

Definition isLowSurrogate (codeUnit : N) : bool := ((56320 <=? codeUnit) && (codeUnit <=? 57343))%N.

(** Every high surrogate is followed by a low one and every low one follows a high one;
    [pending] says that the text continues after a high surrogate. *)
Fixpoint well_formed_from (pending : bool) (t : list A) : bool :=
  match t with
  | [] => negb pending
  | c :: r =>
      if pending then isLowSurrogate (charCode c) && well_formed_from false r
      else if isHighSurrogate (charCode c) then well_formed_from true r
      else negb (isLowSurrogate (charCode c)) && well_formed_from false r
  end.
Definition well_formed : list A → bool := well_formed_from false.

Lemma high_not_low n : isHighSurrogate n = true → isLowSurrogate n = false.
Proof.
  unfold isHighSurrogate, isLowSurrogate; intros [_ H%N.leb_le]%andb_true_iff.
  apply andb_false_iff; left; apply N.leb_gt; lia.
Qed.

Lemma well_formed_app b t1 t2 :
  well_formed_from b t1 = true → well_formed t2 = true → well_formed_from b (t1 ++ t2) = true.
Proof.
  unfold well_formed; revert b; induction t1 as [|c t1 IH]; intros b H1 H2; cbn in *.
  - by destruct b.
  - destruct b; [|destruct (isHighSurrogate _)]; rewrite ?andb_true_iff in *; naive_solver.
Qed.

Lemma well_formed_take b t k :
  well_formed_from b t = true →
  (match k with
   | 0 => b = false
   | S j => ∀ c, t !! j = Some c → isHighSurrogate (charCode c) = false
   end) →
  well_formed_from b (take k t) = true.
Proof.
  revert b k; induction t as [|c t IH]; intros b [|j] Ht Hk; cbn in *; try done; try by rewrite Hk.
  assert (Hnext : ∀ b', (j = 0 → b' = false) →
    well_formed_from b' t = true → well_formed_from b' (take j t) = true).
  { intros b' Hj Hb; apply IH; [done|]; destruct j as [|j']; [auto|exact Hk]. }
  destruct b; [|destruct (isHighSurrogate (charCode c)) eqn:Hc];
    rewrite ?andb_true_iff in *; [naive_solver| |naive_solver].
  apply Hnext; [intros ->; specialize (Hk c eq_refl); congruence|done].
Qed.

(** Nothing follows a high surrogate but a low one. *)
Lemma well_formed_pair b t j c d :
  well_formed_from b t = true → t !! j = Some c → t !! S j = Some d →
  isHighSurrogate (charCode d) = true → isHighSurrogate (charCode c) = false.
Proof.
  intros Ht Hc Hd Hdh; destruct (isHighSurrogate (charCode c)) eqn:Hch; [|done]; exfalso.
  revert b j Ht Hc Hd; induction t as [|x t IH]; intros b [|j] Ht Hc Hd; cbn in *; try done.
  - simplify_eq; apply high_not_low in Hdh, Hch as Hcl; rewrite Hcl, Hch in Ht; destruct b; [done|].
    destruct t as [|y t]; [done|]; cbn in *; simplify_eq; by rewrite Hdh in Ht.
  - destruct b; [|destruct (isHighSurrogate (charCode x))]; rewrite ?andb_true_iff in *;
      eapply IH; naive_solver.
Qed.

Lemma truncate_well_formed max t :
  well_formed t = true → well_formed marker = true → well_formed (truncate max t) = true.
Proof.
  intros Ht Hm; unfold truncate; destruct (Nat.leb_spec (length t) max) as [|Hlt]; [done|].
  apply well_formed_app; [|done]; apply well_formed_take; [done|]; unfold content_end.
  destruct (max - length marker)%nat as [|before] eqn:Hlen; [done|].
  destruct (t !! before) as [c|] eqn:Hc; [|intros c ?; congruence].
  destruct (isHighSurrogate (charCode c)) eqn:Hh; [|intros c' ?; congruence].
  destruct before as [|j]; [done|]; intros c' Hc'; exact (well_formed_pair false t j c' c Ht Hc' Hc Hh).
Qed.
End Truncation.

(** ** [error-diagnostics.ts] *)

Definition TRUNCATION_MARKER : text := chars "...[truncated]".

(** [/[\u0000-\u0008\u000b\u000c\u000e-\u001f\u007f]/] *)
Definition unsafe_control (c : ascii) : bool :=
  let n := code c in
  ((n <=? 8) || (n =? 11) || (n =? 12) || ((14 <=? n) && (n <=? 31)) || (n =? 127))%N.

Definition replace_controls (t : text) : text :=
  map (λ c, if unsafe_control c then " "%char else c) t.

Definition boundedDiagnosticString (value : json) (maxLength : nat) : option string :=
  match value with
  | JString s => Some (str (truncate code TRUNCATION_MARKER maxLength (replace_controls (chars s))))
  | _ => None
  end.

(** [CODEX_ERROR_DIAGNOSTIC_LIMITS] *)
Definition limit_message : nat := 4096.
Definition limit_code : nat := 256.
Definition limit_additionalDetails : nat := 2 * 4096.

Definition recordValue (v : json) : list (string * json) :=
  match v with JObject o => o | _ => [] end.

Definition projectCodexErrorCode (error : list (string * json)) : option string :=
  match boundedDiagnosticString (member error "code") limit_code with
  | Some (String _ _ as explicitCode) => Some explicitCode
  | _ =>
      let info := member error "codexErrorInfo" in
      let nativeCode := match info with
                        | JString s => JString s
                        | _ => match recordValue info with
                               | (k, _) :: _ => JString k
                               | [] => JUndefined
                               end
                        end in
      match boundedDiagnosticString nativeCode limit_code with
      | Some (String _ _ as bounded) => Some bounded
      | _ => None
      end
  end.

Record CodexErrorDiagnostic := {
  diagnostic_message : string;
  diagnostic_code : option string;
  additionalDetails : option string
}.

Definition projectCodexErrorDiagnostic (value : json) : option CodexErrorDiagnostic :=
  let error := recordValue value in
  match boundedDiagnosticString (member error "message") limit_message with
  | Some (String _ _ as message) =>
      Some {| diagnostic_message := message; diagnostic_code := projectCodexErrorCode error;
              additionalDetails := boundedDiagnosticString (member error "additionalDetails")
                                     limit_additionalDetails |}
  | _ => None
  end.

(** ** [agent-message-file-links.ts] *)

Record AgentMessageFileLink := { label : text; pathWithLine : text }.

Definition newline : ascii := Ascii.ascii_of_nat 10.

(** The longest prefix without the characters [stop] and newline, and the rest. *)
Fixpoint until (stop : ascii) (t : text) : text * text :=
  match t with
  | c :: r =>
      if Ascii.eqb c stop || Ascii.eqb c newline then ([], t)
      else let '(a, b) := until stop r in (c :: a, b)
  | [] => ([], [])
  end.

Definition expect (c : ascii) (t : text) : option text :=
  match t with x :: r => if Ascii.eqb x c then Some r else None | [] => None end.

(** [/[^stop\n]+/] and the closing character after it *)
Definition enclosed (stop : ascii) (t : text) : option (text * text) :=
  match until stop t with
  | ([], _) => None
  | (body, r) => r ← expect stop r; Some (body, r)
  end.

(** A match of [/\[([^\]\n]+)\]\((?:<(\/[^>\n]+)>|(\/[^)\n]+))\)/] at the head of the
    text: the link and what follows it. *)
Definition match_link (t : text) : option (AgentMessageFileLink * text) :=
  r ← expect "[" t;
  '(name, r) ← enclosed "]" r;
  r ← expect "(" r;
  match expect "<" r with
  | Some r =>
      r ← expect "/" r;
      '(path, r) ← enclosed ">" r;
      r ← expect ")" r;
      Some ({| label := name; pathWithLine := Text.trim ("/"%char :: path) |}, r)
  | None =>
      r ← expect "/" r;
      '(path, r) ← enclosed ")" r;
      Some ({| label := name; pathWithLine := Text.trim ("/"%char :: path) |}, r)
  end.

(** The global match: the text in order, as characters outside links and links.  A link
    does not start after an exclamation mark.  [skip] counts the characters of the last
    link that are still to be passed over. *)
Fixpoint segments (after_bang : bool) (skip : nat) (t : text) : list (ascii + AgentMessageFileLink) :=
  match t with
  | [] => []
  | c :: r =>
      let bang := Ascii.eqb c "!" in
      match skip with
      | S k => segments bang k r
      | 0 =>
          match (if after_bang then None else match_link t) with
          | Some (link, rest) => inr link :: segments bang (length r - length rest) r
          | None => inl c :: segments bang 0 r
          end
      end
  end.

Definition message_segments (t : text) : list (ascii + AgentMessageFileLink) := segments false 0 t.
Definition message_links (t : text) : list AgentMessageFileLink :=
  omap (λ s, match s with inr l => Some l | inl _ => None end) (message_segments t).

Definition replaceAgentMessageFileLinks (t : text) (replacement : AgentMessageFileLink → text) : text :=
  flat_map (λ s, match s with inl c => [c] | inr l => replacement l end) (message_segments t).

Example link_found :
  str (replaceAgentMessageFileLinks (chars "see [a b](/tmp/x.md:3), ![p](/q) and [c](</d e>)!") label)
  = "see a b, ![p](/q) and c!".
Proof. reflexivity. Qed.

(** The replacement is made once: a label that opens a bracket of its own leaves a link
    to a host file behind. *)
Example nested_link_survives :
  str (replaceAgentMessageFileLinks (chars "[[a](/x)](/home/secret)") (λ l, Text.trim (label l)))
  = "[a](/home/secret)".
Proof. reflexivity. Qed.

(** *** The scan finds exactly the links *)

Definition within (stop : ascii) (t : text) : Prop := t ≠ [] ∧ (stop ∉ t) ∧ (newline ∉ t).

(** [link_at t l rest]: [t] is the link [l] followed by [rest]. *)
Inductive link_at : text → AgentMessageFileLink → text → Prop :=
| bare_link name path rest :
    within "]" name → within ")" path →
    link_at ("["%char :: name ++ "]"%char :: "("%char :: "/"%char :: path ++ ")"%char :: rest)
      {| label := name; pathWithLine := Text.trim ("/"%char :: path) |} rest
| angle_link name path rest :
    within "]" name → within ">" path →
    link_at ("["%char :: name ++ "]"%char :: "("%char :: "<"%char :: "/"%char :: path
             ++ ">"%char :: ")"%char :: rest)
      {| label := name; pathWithLine := Text.trim ("/"%char :: path) |} rest.

Lemma expect_Some c t r : expect c t = Some r ↔ t = c :: r.
Proof.
  destruct t as [|x t]; cbn; [done|]; destruct (Ascii.eqb_spec x c); naive_solver.
Qed.

Lemma until_app stop body r :
  (stop ∉ body) → (newline ∉ body) → until stop (body ++ stop :: r) = (body, stop :: r).
Proof.
  induction body as [|c body IH]; cbn.
  - intros _ _; by rewrite Ascii.eqb_refl.
  - rewrite !not_elem_of_cons; intros [Hs Hb] [Hn Hb'].
    destruct (Ascii.eqb_spec c stop), (Ascii.eqb_spec c newline); try done; cbn; by rewrite IH.
Qed.

Lemma until_spec stop t a b :
  until stop t = (a, b) → t = a ++ b ∧ (stop ∉ a) ∧ (newline ∉ a).
Proof.
  revert a b; induction t as [|c t IH]; intros a b; cbn.
  - intros [= <- <-]; split_and!; [done|apply not_elem_of_nil|apply not_elem_of_nil].
  - destruct (Ascii.eqb_spec c stop), (Ascii.eqb_spec c newline); cbn;
      try (intros [= <- <-]; split_and!; [done|apply not_elem_of_nil|apply not_elem_of_nil]).
    destruct (until stop t) as [a' b'] eqn:Hu; intros [= <- <-].
    destruct (IH a' b' eq_refl) as (-> & ? & ?); rewrite !not_elem_of_cons; auto.
Qed.

Lemma enclosed_spec stop t body r :
  enclosed stop t = Some (body, r) ↔ t = body ++ stop :: r ∧ within stop body.
Proof.
  unfold enclosed, within; split.
  - destruct (until stop t) as [[|c a] b] eqn:Hu; [done|].
    apply until_spec in Hu as (-> & ? & ?); intros (x & Hx%expect_Some & [= <- <-])%bind_Some; by subst.
  - intros (-> & Hne & Hs & Hn); rewrite until_app by done.
    destruct body as [|c body]; [done|]; cbn; by rewrite Ascii.eqb_refl.
Qed.

Lemma match_link_spec t l rest : match_link t = Some (l, rest) ↔ link_at t l rest.
Proof.
  unfold match_link; split.
  - intros (r & ->%expect_Some & ([name r2] & [-> Hname]%enclosed_spec & (r3 & ->%expect_Some & H)%bind_Some)%bind_Some)%bind_Some.
    destruct (expect "<" r3) as [r4|] eqn:Hangle.
    + apply expect_Some in Hangle as ->.
      apply bind_Some in H as (r5 & ->%expect_Some & H).
      apply bind_Some in H as ([path r6] & [-> Hpath]%enclosed_spec & H).
      apply bind_Some in H as (r7 & ->%expect_Some & [= <- <-]); by apply angle_link.
    + apply bind_Some in H as (r5 & ->%expect_Some & H).
      apply bind_Some in H as ([path r6] & [-> Hpath]%enclosed_spec & [= <- <-]); by apply bare_link.
  - destruct 1 as [name path rest Hn Hp|name path rest Hn Hp];
      (apply bind_Some; eexists; split; [by apply expect_Some|]);
      (apply bind_Some; eexists (name, _); split; [by apply enclosed_spec|]);
      (apply bind_Some; eexists; split; [by apply expect_Some|]).
    + change (expect "<" ("/"%char :: ?t)) with (@None text).
      apply bind_Some; eexists; split; [by apply expect_Some|].
      by apply bind_Some; exists (path, rest); split; [apply enclosed_spec|].
    + change (expect "<" ("<"%char :: ?t)) with (Some t).
      apply bind_Some; eexists; split; [by apply expect_Some|].
      apply bind_Some; exists (path, ")"%char :: rest); split; [by apply enclosed_spec|].
      by apply bind_Some; eexists; split; [apply expect_Some|].
Qed.

(** The text cut into links and other characters: a link is taken wherever one starts,
    except after an exclamation mark ([after_bang]) or within the link before it. *)
Inductive scanned : bool → text → list (ascii + AgentMessageFileLink) → Prop :=
| scan_end b : scanned b [] []
| scan_link t l rest ss :
    link_at t l rest → scanned false rest ss → scanned false t (inr l :: ss)
| scan_char b c r ss :
    (b = true ∨ ∀ l rest, ¬ link_at (c :: r) l rest) →
    scanned (Ascii.eqb c "!") r ss → scanned b (c :: r) (inl c :: ss).

Lemma link_source t l rest :
  link_at t l rest → ∃ c src, t = c :: src ++ rest ∧ last src = Some ")"%char.
Proof.
  intros [name path r _ _|name path r _ _]; exists "["%char.
  - exists (name ++ "]"%char :: "("%char :: "/"%char :: path ++ [")"%char]).
    rewrite <-!(assoc_L (++)); cbn; rewrite <-(assoc_L (++)); split; [done|].
    by rewrite last_app; cbn; rewrite !last_cons, last_app.
  - exists (name ++ "]"%char :: "("%char :: "<"%char :: "/"%char :: path ++ [">"%char; ")"%char]).
    rewrite <-!(assoc_L (++)); cbn; rewrite <-(assoc_L (++)); split; [done|].
    by rewrite last_app; cbn; rewrite !last_cons, last_app.
Qed.

Lemma segments_skip b src t c :
  last src = Some c → segments b (length src) (src ++ t) = segments (Ascii.eqb c "!") 0 t.
Proof.
  revert b; induction src as [|x src IH]; intros b Hl; [done|]; cbn.
  destruct src as [|y src]; [by injection Hl as ->|]; apply IH; by rewrite last_cons_cons in Hl.
Qed.

Lemma segments_scanned b t : scanned b t (segments b 0 t).
Proof.
  remember (length t) as n eqn:Hn; revert b t Hn.
  induction n as [n IH] using lt_wf_ind; intros b t ->; destruct t as [|c r]; [constructor|].
  cbn [segments]; destruct (if b then None else match_link (c :: r)) as [[l rest]|] eqn:Hm.
  - destruct b; [done|]; apply match_link_spec in Hm.
    destruct (link_source _ _ _ Hm) as (c' & src & [= <- ->] & Hlast).
    replace (length (src ++ rest) - length rest)%nat with (length src) by (rewrite length_app; lia).
    rewrite (segments_skip _ _ _ _ Hlast); eapply scan_link; [exact Hm|].
    eapply IH; [|done]; cbn; rewrite length_app; lia.
  - apply scan_char; [|eapply IH; [|done]; cbn; lia].
    destruct b; [auto|right]; intros l rest Hl%match_link_spec; congruence.
Qed.

Lemma scanned_functional b t ss ss' : scanned b t ss → scanned b t ss' → ss = ss'.
Proof.
  intros H; revert ss'; induction H as [b|t l rest ss Hl Hs IH|b c r ss Hno Hs IH]; intros ss' H'.
  - inversion H' as [|? ? ? ? Hl|]; [done|inversion Hl].
  - inversion H' as [|? l' rest' ss2 Hl' Hs'|? c r ss2 Hno]; subst.
    + inversion Hl.
    + apply match_link_spec in Hl, Hl'; rewrite Hl in Hl'; injection Hl' as <- <-; f_equal; auto.
    + destruct Hno as [?|Hno]; [done|]; by destruct (Hno l rest).
  - inversion H' as [|? l rest ss2 Hl|? ? ? ss2 _ Hs']; subst.
    + destruct Hno as [?|Hno]; [done|]; by destruct (Hno l rest).
    + f_equal; auto.
Qed.

(** Replacing the file links of an agent message cuts the text at exactly its links:
    [\[label\](/path)] or [\[label\](</path>)], with a label and a path on one line, not
    after an exclamation mark, taken from left to right; nothing else is touched, and
    there is no other way to cut the text. *)
Theorem links_exact t replacement ss :
  scanned false t ss ↔
  ss = message_segments t
  ∧ replaceAgentMessageFileLinks t replacement
    = flat_map (λ s, match s with inl c => [c] | inr l => replacement l end) ss
  ∧ message_links t = omap (λ s, match s with inr l => Some l | inl _ => None end) ss.
Proof.
  split.
  - intros H; rewrite (scanned_functional _ _ _ _ H (segments_scanned false t)); done.
  - intros (-> & _); apply segments_scanned.
Qed.

(** ** [raw-detail.ts] *)

(** [/^(authorization|proxy-authorization|api[-_]?key|access[-_]?token|refresh[-_]?token|
    id[-_]?token|password|secret|cookie|set-cookie)$/i] *)
Definition secret_names : list string :=
  let spaced a b := [a +:+ b; a +:+ "-" +:+ b; a +:+ "_" +:+ b] in
  ["authorization"; "proxy-authorization"] ++ spaced "api" "key" ++ spaced "access" "token"
  ++ spaced "refresh" "token" ++ spaced "id" "token" ++ ["password"; "secret"; "cookie"; "set-cookie"].

Definition secretKey (key : string) : bool :=
  existsb (String.eqb (Str.toLowerCase key)) secret_names.

(** [String(v)] *)
Fixpoint String_of (v : json) : string :=
  match v with
  | JUndefined => "undefined"
  | JNull => "null"
  | JBool b => if b then "true" else "false"
  | JNumber t => t
  | JString s => s
  | JArray l => Str.join "," (map (λ x, match x with JUndefined | JNull => "" | _ => String_of x end) l)
  | JObject _ => "[object Object]"
  end.

Definition is_string (s : string) (v : json) : bool :=
  match v with JString t => String.eqb t s | _ => false end.

Record BoundedRawDetail := {
  detail_json : string;
  originalSha256 : string;
  truncated : bool;
  redactedKeys : list string
}.

Section RawDetail.
Context (sha256 : string → string).
Context (replacement_character : string).

Definition image_url_holder (holder_type : json) : bool :=
  existsb (String.eqb (String_of holder_type)) ["inputImage"; "input_image"].
Definition image_path_holder (holder_type : json) : bool :=
  existsb (String.eqb (String_of holder_type)) ["imageView"; "image_view"].

Definition media_marker (child : string) : string :=
  "[MEDIA_BYTES_REDACTED sha256=" +:+ sha256 child +:+ "]".

(** The replacer: the value for [child] under [key] of a holder with the given [type],
    and the key it reports. *)
Definition replacer (holder_type : json) (key : string) (child : json) : json * option string :=
  if negb (String.eqb key "") && secretKey key then (JString "[REDACTED]", Some key)
  else
    match child with
    | JString s =>
        if String.eqb key "imageUrl" && image_url_holder holder_type
           || String.eqb key "data" && is_string "image" holder_type
        then (JString (media_marker s), Some key)
        else if String.eqb key "text" && is_string "agentMessage" holder_type then
          let redacted := str (replaceAgentMessageFileLinks (chars s) (λ l, Text.trim (label l))) in
          (JString redacted, if String.eqb redacted s then None else Some "agentMessage.fileLink")
        else if String.eqb key "path" && image_path_holder holder_type
        then (JString "[HOST_MEDIA_PATH_REDACTED]", Some key)
        else (child, None)
    | _ => (child, None)
    end.

(** [JSON.stringify(value, replacer)] up to the writing of the text: the tree it
    writes and the keys reported, in order.  The keys of array elements are indices,
    which the replacer leaves alone as it does "0"; an array has no [type]. *)
Fixpoint sanitize (holder_type : json) (key : string) (child : json) : json * list string :=
  let '(v, reported) := replacer holder_type key child in
  let keys := match reported with Some k => [k] | None => [] end in
  if match reported with Some _ => true | None => false end then (v, keys)
  else
    match child with
    | JArray l =>
        let rs := map (sanitize JUndefined "0") l in
        (JArray (map fst rs), flat_map snd rs)
    | JObject o =>
        let rs := map (λ p, match p with (k, x) => (k, sanitize (member o "type") k x) end) o in
        (JObject (map (λ r, (r.1, r.2.1)) rs), flat_map (λ r, r.2.2) rs)
    | _ => (v, keys)
    end.

(** Bytes in UTF-8 of a code unit below 256. *)
Definition utf8_width (c : ascii) : nat := if (code c <? 128)%N then 1 else 2.
Fixpoint byteLength (t : text) : nat :=
  match t with [] => 0 | c :: r => utf8_width c + byteLength r end.

(** [buffer.subarray(0, max).toString("utf8")] *)
Fixpoint utf8_prefix (max : nat) (t : text) : text :=
  match t with
  | [] => []
  | c :: r =>
      if (utf8_width c <=? max)%nat then c :: utf8_prefix (max - utf8_width c) r
      else match max with 0 => [] | S _ => chars replacement_character end
  end.

Definition captureBoundedRawDetail (value : json) (maxBytes : nat) : BoundedRawDetail :=
  let original := default "null" (stringify value) in
  let '(tree, keys) := sanitize JUndefined "" value in
  let sanitized := chars (default "null" (stringify tree)) in
  let truncated := (maxBytes <? byteLength sanitized)%nat in
  {| detail_json := str (if truncated then utf8_prefix maxBytes sanitized else sanitized);
     originalSha256 := sha256 original;
     truncated := truncated;
     redactedKeys := sort_by String.compare (set_of_list keys) |}.

(** *** What the evidence keeps *)

(** Some object within the value has these members. *)
Inductive object_in (o : list (string * json)) : json → Prop :=
| object_here : object_in o (JObject o)
| object_in_array l v : v ∈ l → object_in o v → object_in o (JArray l)
| object_in_object o' k v : (k, v) ∈ o' → object_in o v → object_in o (JObject o').

Lemma object_in_JArray o l : object_in o (JArray l) ↔ ∃ v, v ∈ l ∧ object_in o v.
Proof. split; [inversion 1; eauto|intros (v & ? & ?); by econstructor]. Qed.

Lemma object_in_JObject o o' :
  object_in o (JObject o') ↔ o = o' ∨ ∃ k v, (k, v) ∈ o' ∧ object_in o v.
Proof. split; [inversion 1; eauto|intros [->|(k & v & ? & ?)]; by econstructor]. Qed.

Definition sanitized_member (holder_type : json) (p : string * json) : string * json :=
  (p.1, (sanitize holder_type p.1 p.2).1).

Lemma sanitize_kept holder_type key v :
  (replacer holder_type key v).2 = None → (replacer holder_type key v).1 = v.
Proof.
  unfold replacer; repeat (case_match; cbn; try done; simplify_eq).
  intros _; f_equal; by apply String.eqb_eq.
Qed.

Lemma sanitize_cases holder_type key v :
  (∃ s, (sanitize holder_type key v).1 = JString s ∧ (replacer holder_type key v).1 = JString s)
  ∨ (replacer holder_type key v = (v, None) ∧ (sanitize holder_type key v).1
     = match v with
       | JArray l => JArray (map (λ x, (sanitize JUndefined "0" x).1) l)
       | JObject o => JObject (map (sanitized_member (member o "type")) o)
       | _ => v
       end).
Proof.
  destruct (replacer holder_type key v) as [v' [k|]] eqn:Hr.
  - left; assert (Hs : ∃ s, v' = JString s)
      by (revert Hr; unfold replacer; repeat (case_match; try done); naive_solver).
    destruct Hs as [s ->]; exists s; destruct v; cbn -[replacer]; by rewrite Hr.
  - right; pose proof (sanitize_kept holder_type key v) as Hk; rewrite Hr in Hk; cbn in Hk.
    specialize (Hk eq_refl) as ->; split; [done|].
    destruct v as [| | | | |l|o]; cbn -[replacer member]; rewrite Hr; try done; cbn -[member];
      f_equal; rewrite map_map; apply map_ext; [done|]; by intros [k x].
Qed.

Lemma sanitize_objects v holder_type key o' :
  object_in o' (sanitize holder_type key v).1 →
  ∃ o, object_in o v ∧ o' = map (sanitized_member (member o "type")) o.
Proof.
  revert holder_type key; induction v as [| |b|t|s|l IH|o IH] using json_nested_ind; intros ht key;
    (match goal with |- context [sanitize ht key ?v] =>
       destruct (sanitize_cases ht key v) as [(x & -> & _)|[_ ->]]; [inversion 1|] end).
  1-5: inversion 1.
  - rewrite object_in_JArray; setoid_rewrite object_in_JArray.
    intros (v & (x & -> & Hx)%list_elem_of_fmap & Hin); rewrite Forall_forall in IH.
    apply IH in Hin as (o & ? & ->); eauto.
  - rewrite object_in_JObject; setoid_rewrite object_in_JObject; intros [->|(k & v & Hv & Hin)]; [eauto|].
    apply list_elem_of_fmap in Hv as ([k' x] & [= -> ->] & Hx).
    rewrite Forall_forall in IH; apply (IH (k', x) Hx) in Hin as (o2 & ? & ->); eauto 10.
Qed.

Lemma sanitize_secret ht key v : secretKey key = true → (sanitize ht key v).1 = JString "[REDACTED]".
Proof.
  intros Hk; destruct (sanitize_cases ht key v) as [(s & -> & Hr)|[Hr _]]; revert Hr; unfold replacer;
    destruct (String.eqb_spec key ""); subst; try discriminate Hk; rewrite Hk; cbn; congruence.
Qed.

Lemma sanitize_string ht key s :
  (sanitize ht key (JString s)).1 = (replacer ht key (JString s)).1.
Proof. by destruct (sanitize_cases ht key (JString s)) as [(x & -> & ->)|[-> ->]]. Qed.

Lemma flat_map_nil {A B} (f : A → list B) l : flat_map f l = [] ↔ Forall (λ x, f x = []) l.
Proof.
  induction l as [|x l IH]; cbn; [by split|].
  rewrite Forall_cons, <-IH; split; [apply app_eq_nil|by intros [-> ->]].
Qed.

(** Where nothing is reported, nothing is changed. *)
Lemma sanitize_unreported v ht key :
  (sanitize ht key v).2 = [] → (sanitize ht key v).1 = v.
Proof.
  revert ht key; induction v as [| |b|t|s|l IH|o IH] using json_nested_ind; intros ht key; cbn -[replacer member];
    match goal with |- context [replacer ht key ?v] =>
      pose proof (sanitize_kept ht key v) as Hkept; destruct (replacer ht key v) as [v' [k|]] end;
    cbn -[member] in *; try done; try by intros _; apply Hkept.
  - intros H; rewrite flat_map_nil in H; f_equal; rewrite map_map.
    rewrite Forall_forall in IH; rewrite Forall_forall in H.
    rewrite <-(map_id l) at 2; apply map_ext_Forall, Forall_forall.
    intros x Hx; apply IH; [done|]; by apply H, list_elem_of_fmap_2.
  - intros H; rewrite flat_map_nil in H; f_equal; rewrite map_map.
    rewrite Forall_forall in IH; rewrite Forall_forall in H.
    rewrite <-(map_id o) at 2; apply map_ext_Forall, Forall_forall.
    intros [k x] Hx; cbn -[member]; f_equal; apply (IH (k, x) Hx).
    apply (H (k, sanitize (member o "type") k x)); by apply (list_elem_of_fmap_2 (λ p, match p with (k, x) => _ end) o (k, x)).
Qed.

Lemma sort_by_nil {A} (cmp : A → A → comparison) l : sort_by cmp l = [] → l = [].
Proof. intros H; apply Permutation_nil_r; by rewrite <-H, sort_by_perm. Qed.

Lemma set_of_list_nil (l : list string) : set_of_list l = [] → l = [].
Proof.
  destruct l as [|x l]; [done|]; intros H.
  assert (Hx : x ∈ set_of_list (x :: l)) by (apply elem_of_set_of_list; left).
  rewrite H in Hx; by apply elem_of_nil in Hx.
Qed.

Lemma utf8_prefix_spec max t :
  ∃ p rest, t = p ++ rest ∧ (byteLength p <= max)%nat
    ∧ (utf8_prefix max t = p ∨ utf8_prefix max t = p ++ chars replacement_character).
Proof.
  revert max; induction t as [|c t IH]; intros max; [exists [], []; split_and!; [done|cbn; lia|auto]|].
  cbn [utf8_prefix]; destruct (Nat.leb_spec (utf8_width c) max).
  - destruct (IH (max - utf8_width c)%nat) as (p & rest & -> & Hp & [-> | ->]); exists (c :: p), rest;
      cbn [byteLength app]; split_and!; auto; lia.
  - exists [], (c :: t); cbn; split_and!; [done|lia|]; destruct max; auto.
Qed.

Definition media_bytes (o : list (string * json)) (k : string) : Prop :=
  k = "imageUrl" ∧ (member o "type" = JString "inputImage" ∨ member o "type" = JString "input_image")
  ∨ k = "data" ∧ member o "type" = JString "image".

(** What becomes of a member of the object [o]: secrets by name, bytes of images, host
    paths of images and links to host files do not stay. *)
Definition hidden (o : list (string * json)) (p p' : string * json) : Prop :=
  p'.1 = p.1 ∧ (secretKey p.1 = true → p'.2 = JString "[REDACTED]")
  ∧ ∀ s, secretKey p.1 = false → p.2 = JString s →
      (media_bytes o p.1 → p'.2 = JString (media_marker s))
      ∧ (p.1 = "path" ∧ (member o "type" = JString "imageView" ∨ member o "type" = JString "image_view") →
         p'.2 = JString "[HOST_MEDIA_PATH_REDACTED]")
      ∧ (p.1 = "text" ∧ member o "type" = JString "agentMessage" →
         p'.2 = JString (str (replaceAgentMessageFileLinks (chars s) (λ l, Text.trim (label l))))).

Lemma sanitized_hidden o p : hidden o p (sanitized_member (member o "type") p).
Proof.
  destruct p as [k x]; split; [done|]; split; cbn [fst snd sanitized_member]; [apply sanitize_secret|].
  intros s Hsec ->; rewrite sanitize_string; unfold replacer; rewrite Hsec, andb_false_r; split_and!.
  - by intros [[-> [-> | ->]]|[-> ->]].
  - by intros [-> [-> | ->]].
  - by intros [-> ->].
Qed.

(** The evidence kept of a native message hides what must not leave the host:
    every object of the written tree is an object of the message in which members
    with secret names are "[REDACTED]", image bytes are replaced by their digest, image
    paths by a marker, and links of agent messages by their labels; the kept text is
    that tree's JSON when it fits the limit of bytes and otherwise a prefix within the
    limit, up to a replaced half of a character; and when no key is reported the tree is
    the message itself. *)
Theorem raw_detail_safe value maxBytes :
  let d := captureBoundedRawDetail value maxBytes in
  let tree := (sanitize JUndefined "" value).1 in
  let whole := chars (default "null" (stringify tree)) in
  (∀ o', object_in o' tree → ∃ o, object_in o value ∧ Forall2 (hidden o) o o')
  ∧ (truncated d = false → chars (detail_json d) = whole ∧ (byteLength whole <= maxBytes)%nat)
  ∧ (truncated d = true →
       ∃ p rest, whole = p ++ rest ∧ (byteLength p <= maxBytes)%nat ∧
         (chars (detail_json d) = p ∨ chars (detail_json d) = p ++ chars replacement_character))
  ∧ (redactedKeys d = [] → tree = value).
Proof.
  unfold captureBoundedRawDetail; destruct (sanitize JUndefined "" value) as [tree keys] eqn:Hs.
  cbn [detail_json truncated redactedKeys fst]; rewrite chars_str.
  split_and!.
  - intros o' Ho'; change tree with (tree, keys).1 in Ho'; rewrite <-Hs in Ho';
       apply sanitize_objects in Ho' as (o & Ho & ->); exists o; split; [done|];
       apply Forall2_fmap_r, Forall_Forall2_diag, Forall_forall; intros p _; apply sanitized_hidden.
  - case_match eqn:Ht; [done|]; intros _; split; [done|]; by apply Nat.ltb_ge.
  - intros ->; destruct (utf8_prefix_spec maxBytes (chars (default "null" (stringify tree))))
      as (p & rest & ? & ? & ?); eauto 10.
  - intros Hk%sort_by_nil%set_of_list_nil; pose proof (sanitize_unreported value JUndefined "") as Hu;
       rewrite Hs in Hu; by apply Hu.
Qed.
End RawDetail.

Example raw_detail_sample :
  let v := JObject [("API_KEY", JString "k"); ("item", JObject [("type", JString "image_view"); ("path", JString "/h/p.png")])] in
  let d := captureBoundedRawDetail (λ s, "#") "?" v 1000 in
  redactedKeys d = ["API_KEY"; "path"]
  ∧ Some (detail_json d)
    = stringify (JObject [("API_KEY", JString "[REDACTED]");
                          ("item", JObject [("type", JString "image_view"); ("path", JString "[HOST_MEDIA_PATH_REDACTED]")])]).
Proof. vm_compute. done. Qed.

(** *** Bounds of the diagnostics *)

Definition safe_text (max : nat) (s : string) : Prop :=
  (String.length s <= max)%nat ∧ Forall (λ c, unsafe_control c = false) (chars s).

Lemma replace_controls_safe t : Forall (λ c, unsafe_control c = false) (replace_controls t).
Proof.
  apply Forall_fmap, Forall_forall; intros c _; cbn; destruct (unsafe_control c) eqn:Hc; [reflexivity|done].
Qed.

Lemma truncate_Forall {A} (charCode : A → N) marker (P : A → Prop) max t :
  Forall P t → Forall P marker → Forall P (truncate charCode marker max t).
Proof.
  intros Ht Hm; unfold truncate; case_match; [done|]; apply Forall_app; split; [by apply Forall_take|done].
Qed.

Lemma marker_safe : Forall (λ c, unsafe_control c = false) TRUNCATION_MARKER.
Proof. by repeat constructor. Qed.

Lemma boundedDiagnosticString_safe v max s :
  (14 <= max)%nat → boundedDiagnosticString v max = Some s → safe_text max s.
Proof.
  intros Hmax; destruct v; cbn [boundedDiagnosticString]; try done; intros [= <-]; split.
  - rewrite <-length_chars, chars_str.
    etransitivity; [apply truncate_length|]; change (length TRUNCATION_MARKER) with 14%nat; lia.
  - rewrite chars_str; apply truncate_Forall; [apply replace_controls_safe|apply marker_safe].
Qed.

(** A text that fits and has no control characters is kept. *)
Lemma boundedDiagnosticString_kept s max :
  safe_text max s → boundedDiagnosticString (JString s) max = Some s.
Proof.
  intros [Hlen Hsafe]; cbn [boundedDiagnosticString]; unfold truncate, replace_controls.
  rewrite length_map, length_chars; apply Nat.leb_le in Hlen as ->; do 2 f_equal.
  rewrite <-(str_chars s) at 2; f_equal; rewrite <-(map_id (chars s)) at 2; apply map_ext_Forall.
  eapply Forall_impl; [exact Hsafe|]; intros c Hc; cbn beta in *; by rewrite Hc.
Qed.

Lemma projectCodexErrorCode_safe error s :
  projectCodexErrorCode error = Some s → safe_text limit_code s ∧ s ≠ "".
Proof.
  unfold projectCodexErrorCode.
  destruct (boundedDiagnosticString (member error "code") limit_code) as [[|c r]|] eqn:Hc;
    [|intros [= <-]; split; [|done]; eapply boundedDiagnosticString_safe; [|exact Hc]; unfold limit_code; lia|];
    (destruct (boundedDiagnosticString (match _ with JString _ => _ | _ => _ end) limit_code) as [[|c r]|] eqn:Hi;
       try done; intros [= <-]; split; [|done]; eapply boundedDiagnosticString_safe; [|exact Hi]; unfold limit_code; lia).
Qed.

(** A projected error diagnostic is bounded and printable: its message has between 1
    and 4096 code units, its code, when there is one, between 1 and 256, its details at
    most 8192, and none holds an unsafe control character; texts within the bounds are
    kept as they are, and a cut text of well-formed UTF-16 stays well formed. *)
Theorem diagnostic_bounded v d :
  projectCodexErrorDiagnostic v = Some d →
  safe_text limit_message (diagnostic_message d) ∧ diagnostic_message d ≠ ""
  ∧ (∀ s, diagnostic_code d = Some s → safe_text limit_code s ∧ s ≠ "")
  ∧ (∀ s, additionalDetails d = Some s → safe_text limit_additionalDetails s)
  ∧ (∀ s, member (recordValue v) "message" = JString s → safe_text limit_message s → diagnostic_message d = s)
  ∧ ∀ t : list N, well_formed (λ c, c) t = true →
      well_formed (λ c, c) (truncate (λ c, c) (map code TRUNCATION_MARKER) limit_message t) = true.
Proof.
  unfold projectCodexErrorDiagnostic.
  destruct (boundedDiagnosticString _ limit_message) as [[|c r]|] eqn:Hm; try done; intros [= <-].
  cbn [diagnostic_message diagnostic_code additionalDetails]; split_and!; try done.
  - eapply boundedDiagnosticString_safe; [|exact Hm]; unfold limit_message; lia.
  - apply projectCodexErrorCode_safe.
  - intros s; apply boundedDiagnosticString_safe; unfold limit_additionalDetails; lia.
  - intros s Hs Hsafe; rewrite Hs, boundedDiagnosticString_kept in Hm by done; congruence.
  - intros t Ht; by apply truncate_well_formed.
Qed.

Lemma diagnostic_bounded_witness :
  let v := JObject [("message", JString "disk full"); ("codexErrorInfo", JObject [("ioError", JNull)])] in
  ∃ d, projectCodexErrorDiagnostic v = Some d ∧ diagnostic_code d = Some "ioError"
       ∧ safe_text limit_message (diagnostic_message d).
Proof.
  eexists; split; [vm_compute; reflexivity|]; split; [reflexivity|].
  apply (diagnostic_bounded (JObject [("message", JString "disk full"); ("codexErrorInfo", JObject [("ioError", JNull)])])).
  vm_compute; reflexivity.
Defined.

Lemma raw_detail_safe_witness :
  let v := JObject [("password", JString "p")] in
  chars (detail_json (captureBoundedRawDetail (λ s, s) "?" v 100))
  = chars (default "null" (stringify (JObject [("password", JString "[REDACTED]")]))).
Proof. apply (raw_detail_safe (λ s, s) "?" (JObject [("password", JString "p")]) 100); vm_compute; reflexivity. Defined.
