(* ===== verification/CodexEvents.v ===== *)
(** * Native notifications as neutral events

    [event-mapper.ts] of [ts/packages/external-runtime-codex/src]: what the crew service
    is told of a notification of the Codex app-server.  An object literal with optional
    members is the list of its members; [decodeURIComponent] and the indented form of
    [JSON.stringify] are arguments. *)

From stdpp Require Import sets.
From S2P Require Import Prelude JsString Json JsonParse CodexCodec CodexText.

Inductive NeutralExternalEventKind :=
| thread_lifecycle | turn_lifecycle | item_lifecycle | assistant_text_delta | reasoning_delta
| plan_delta | command_activity | file_activity | mcp_activity | dynamic_tool_activity | usage
| compaction | runtime_warning | runtime_status | unknown_native_notification
| unsupported_server_request.

#[global] Instance kind_eq : EqDecision NeutralExternalEventKind.
Proof. solve_decision. Defined.

(** ** Reading values *)

Definition asRecord (v : json) : list (string * json) :=
  match v with JObject o => o | _ => [("value", v)] end.
Definition arrayValue (v : json) : list json := match v with JArray l => l | _ => [] end.
Definition stringValue (v : json) : option string := match v with JString s => Some s | _ => None end.
(** the text of a finite number *)
Definition numberValue (v : json) : option string :=
  match v with JNumber t => if String.eqb t "null" then None else Some t | _ => None end.
Definition statusValue (v : json) : option string :=
  or_else (stringValue v) (stringValue (member (asRecord v) "type")).

(** [a ?? b] on members *)
Definition nullish_or (a b : json) : json := match a with JUndefined | JNull => b | _ => a end.

(** [{...o, ...(v === undefined ? {} : { k: v })}] *)
Definition put (k : string) (v : option json) (o : list (string * json)) : list (string * json) :=
  match v with Some x => map_set k x o | None => o end.
Definition put_string (k : string) (v : option string) (o : list (string * json)) :=
  put k (option_map JString v) o.
Definition put_number (k : string) (v : option string) (o : list (string * json)) :=
  put k (option_map JNumber v) o.

Definition one_of (l : list string) (s : option string) : bool :=
  match s with Some s => existsb (String.eqb s) l | None => false end.

Definition includes (s w : string) : bool := Text.includes (chars s) (chars w).

(** ** Classification *)

Definition classifyNotification (method : string) (item : list (string * json)) : NeutralExternalEventKind :=
  let itemType := stringValue (member item "type") in
  if String.eqb method "item/agentMessage/delta" then assistant_text_delta
  else if Str.startsWith method "item/reasoning/" then reasoning_delta
  else if String.eqb method "item/plan/delta" || String.eqb method "turn/plan/updated" then plan_delta
  else if Str.startsWith method "thread/tokenUsage" then usage
  else if String.eqb method "thread/compacted" then compaction
  else if one_of ["contextCompaction"; "context_compaction"] itemType || includes method "contextCompaction"
  then compaction
  else if Str.startsWith method "thread/" then thread_lifecycle
  else if Str.startsWith method "turn/" then turn_lifecycle
  else if one_of ["commandExecution"; "command_execution"] itemType || includes method "commandExecution"
          || Str.startsWith method "command/"
  then command_activity
  else if one_of ["fileChange"; "file_change"] itemType || includes method "fileChange" then file_activity
  else if one_of ["mcpToolCall"; "mcp_tool_call"] itemType || Str.startsWith method "mcpServer/"
          || includes method "mcpToolCall"
  then mcp_activity
  else if Str.startsWith method "item/" && one_of ["dynamicToolCall"; "dynamic_tool_call"] itemType
  then dynamic_tool_activity
  else if Str.startsWith method "item/" then item_lifecycle
  else if existsb (String.eqb method) ["warning"; "guardianWarning"; "configWarning"; "deprecationNotice"; "error"]
  then runtime_warning
  else runtime_status.

(** ** Parts of a payload *)

Definition messagePhaseValue (v : json) : option string :=
  match v with
  | JUndefined | JNull => None
  | JString s => Some (if String.eqb s "commentary" || String.eqb s "final_answer" then s else "unknown")
  | _ => Some "unknown"
  end.

Definition projectFileChanges (v : json) : json :=
  JArray (map (λ entry,
    let change := asRecord entry in
    JObject (put_string "status" (statusValue (member change "status"))
            (put_string "kind" (stringValue (member change "kind"))
            (put_string "path" (stringValue (member change "path")) []))))
    (arrayValue v)).

Definition is_number (v : json) : bool := match v with JNumber _ => true | _ => false end.

Definition numericRecord (o : list (string * json)) : json :=
  JObject (List.filter (λ p, is_number p.2) o).

Definition projectTokenUsage (v : json) : json :=
  let u := asRecord v in
  JObject [("total", numericRecord (asRecord (member u "total")));
           ("last", numericRecord (asRecord (member u "last")));
           ("modelContextWindow", default JNull (option_map JNumber (numberValue (member u "modelContextWindow"))))].

Definition null_or (s : option string) : json := default JNull (option_map JString s).

Definition projectErrorPayload (params turn : list (string * json)) : option json :=
  let paramsError := asRecord (member params "error") in
  let error := asRecord (match stringValue (member paramsError "message") with
                         | None => member turn "error"
                         | Some _ => member params "error"
                         end) in
  match projectCodexErrorDiagnostic (JObject error) with
  | None => None
  | Some d =>
      Some (JObject [("message", JString (diagnostic_message d)); ("code", null_or (diagnostic_code d));
                     ("additionalDetails", null_or (additionalDetails d));
                     ("willRetry", JBool (match member params "willRetry" with JBool b => b | _ => false end))])
  end.

(** ** Results of dynamic tools *)

Definition isPlainRecord (v : json) : option (list (string * json)) :=
  match v with JObject o => Some o | _ => None end.

Definition callToolResultDetailRef (v : json) : option string :=
  o ← isPlainRecord v; or_else (stringValue (member o "detail_ref")) (stringValue (member o "detailRef")).

Definition callToolResultDetailsDetailRef (v : json) : option string :=
  o ← isPlainRecord v; callToolResultDetailRef (member o "structuredContent").

Section ToolResults.
Context {JT : JsonText}.
(** [JSON.stringify(v, null, 2)] *)
Context (stringifyIndented : json → string).

Definition isDetailReferenceText (value : string) (detailRef : option string) : bool :=
  match detailRef with
  | None => false
  | Some r =>
      String.eqb value r
      || match JSON_parse value with Some (JString s) => String.eqb s r | _ => false end
  end.

Definition readableJsonText (value : string) : string :=
  match JSON_parse value with
  | None => value
  | Some (JString s) => s
  | Some parsed => stringifyIndented parsed
  end.

(** The text blocks of an envelope's content. *)
Definition text_blocks (content : list json) : list string :=
  omap (λ v, o ← isPlainRecord v;
             if is_string "text" (member o "type") then stringValue (member o "text") else None) content.

Definition lines (l : list string) : string := Str.join (str [newline]) l.

Definition projectDynamicToolResultDisplayText (value : string) : string :=
  match JSON_parse value with
  | Some (JObject o) =>
      match member o "content" with
      | JArray content =>
          let detailRef := or_else (callToolResultDetailRef (member o "structuredContent"))
                                   (callToolResultDetailsDetailRef (member o "details")) in
          let text := lines (map readableJsonText
                        (List.filter (λ t, negb (isDetailReferenceText t detailRef)) (text_blocks content))) in
          if String.eqb text "" then
            (if match member o "isError" with JBool b => b | _ => false end
             then "Tool call failed without text output."
             else "Tool call completed without text output.")
          else text
      | _ => value
      end
  | _ => value
  end.

Definition DYNAMIC_TOOL_RESULT_LIMIT : nat := 64 * 1024.

(** The [inputText] texts of a list of content items. *)
Definition input_texts (items : list json) : list string :=
  omap (λ v, let o := asRecord v in
             if is_string "inputText" (member o "type") then stringValue (member o "text") else None) items.

Definition dynamicToolResultText (v : json) : option string :=
  match v with
  | JArray items =>
      let result := replace_controls
                      (chars (lines (map projectDynamicToolResultDisplayText (input_texts items)))) in
      match result with
      | [] => None
      | _ => Some (str (truncate code TRUNCATION_MARKER DYNAMIC_TOOL_RESULT_LIMIT result))
      end
  | _ => None
  end.
End ToolResults.

(** ** Candidates for capture *)

Inductive MediaCandidate :=
| DynamicToolInputImage (mediaIndex : nat) (imageUrl : string)
| McpImageContent (mediaIndex : nat) (data mimeType : string)
| ImageViewPath (mediaIndex : nat) (path : string).

Record DocumentCandidate := { documentIndex : nat; document_path : string; displayName : string }.

Definition input_image (index : nat) (entry : json) : option MediaCandidate :=
  let content := asRecord entry in
  imageUrl ← stringValue (member content "imageUrl");
  if is_string "inputImage" (member content "type") then Some (DynamicToolInputImage index imageUrl) else None.

Definition image_content (index : nat) (entry : json) : option MediaCandidate :=
  let content := asRecord entry in
  data ← stringValue (member content "data");
  mimeType ← or_else (stringValue (member content "mimeType")) (stringValue (member content "mime_type"));
  if is_string "image" (member content "type") then Some (McpImageContent index data mimeType) else None.

(** [flatMap((entry, index) => ...)] *)
Definition indexed (f : nat → json → option MediaCandidate) (l : list json) : list MediaCandidate :=
  omap (λ x, x) (imap f l).

Definition projectMediaCandidates (item : list (string * json)) : list MediaCandidate :=
  let itemType := stringValue (member item "type") in
  if one_of ["dynamicToolCall"; "dynamic_tool_call"] itemType then
    indexed input_image (arrayValue (member item "contentItems"))
  else if one_of ["mcpToolCall"; "mcp_tool_call"] itemType then
    indexed image_content (arrayValue (member (asRecord (member item "result")) "content"))
  else if one_of ["imageView"; "image_view"] itemType then
    match stringValue (member item "path") with Some p => [ImageViewPath 0 p] | None => [] end
  else [].

(** [path.replace(/:\d+$/, "")] *)
Definition strip_line (t : text) : text :=
  match span is_digit (reverse t) with
  | (_ :: _, c :: r) => if Ascii.eqb c ":" then reverse r else t
  | _ => t
  end.

Definition basenameFromPath (path : text) : text :=
  match reverse (fst (span (λ c, negb (Ascii.eqb c "/")) (reverse path))) with
  | [] => chars "document"
  | name => name
  end.

Section Documents.
Context (decodeURIComponent : string → option string).

Definition decodeURIComponentSafe (value : text) : text :=
  chars (default (str value) (decodeURIComponent (str value))).

Definition link_path (l : AgentMessageFileLink) : text := decodeURIComponentSafe (strip_line (pathWithLine l)).

Definition link_name (l : AgentMessageFileLink) : text :=
  match Text.trim (label l) with [] => basenameFromPath (link_path l) | name => name end.

Definition projectDocumentCandidates (item : list (string * json)) (captureCompletedMessage : bool)
    : list DocumentCandidate * list (string * json) :=
  if negb (is_string "agentMessage" (member item "type")) then ([], item)
  else
    match stringValue (member item "text") with
    | None => ([], item)
    | Some text =>
        let sanitized := str (replaceAgentMessageFileLinks (chars text) link_name) in
        (if captureCompletedMessage then
           imap (λ i l, {| documentIndex := i; document_path := str (link_path l); displayName := str (link_name l) |})
             (message_links (chars text))
         else [],
         if String.eqb sanitized text then item else map_set "text" (JString sanitized) item)
    end.
End Documents.

(** ** Payloads and events *)

Record NeutralExternalRuntimeEvent := {
  transportSequence : Z;
  event_method : string;
  kind : NeutralExternalEventKind;
  threadId : option string;
  turnId : option string;
  itemId : option string;
  nativeRequestId : option JsonRpcId;
  payload : list (string * json);
  mediaCandidates : list MediaCandidate;
  documentCandidates : list DocumentCandidate;
  rawDetail : BoundedRawDetail
}.

Section Mapper.
Context {JT : JsonText}.
Context (stringifyIndented : json → string) (decodeURIComponent : string → option string).
Context (sha256 : string → string) (replacement_character : string).

(** [base] of [projectPayload] *)
Definition base_payload (method : string) (params item turn source : list (string * json)) : list (string * json) :=
  let itemType := stringValue (member item "type") in
  let status := or_else (statusValue (member source "status")) (statusValue (member turn "status")) in
  let text := or_else (stringValue (member params "delta"))
                (or_else (stringValue (member params "text")) (stringValue (member source "text"))) in
  let messagePhase :=
    if one_of ["agentMessage"] itemType || includes method "agentMessage"
    then messagePhaseValue (nullish_or (member source "phase") (member params "phase")) else None in
  let summary := match member source "summary" with
                 | JArray l => match omap stringValue l with [] => None | s => Some (JArray (map JString s)) end
                 | _ => None
                 end in
  put "summary" summary
    (put_number "durationMs" (numberValue (member source "durationMs"))
    (put_string "messagePhase" messagePhase
    (put_string "text" text
    (put_string "status" status
    (put_string "itemType" itemType [("nativeMethod", JString method)]))))).

Definition projectPayload (method : string) (k : NeutralExternalEventKind)
    (params item turn : list (string * json)) : list (string * json) :=
  let source := match item with [] => params | _ => item end in
  let base := base_payload method params item turn source in
  match k with
  | command_activity =>
      put_number "exitCode" (numberValue (member source "exitCode"))
        (put_string "output" (stringValue (member source "aggregatedOutput"))
        (put_string "cwd" (stringValue (member source "cwd"))
        (put_string "command" (stringValue (member source "command")) base)))
  | file_activity => map_set "fileChanges" (projectFileChanges (member source "changes")) base
  | mcp_activity =>
      put_string "tool" (stringValue (member source "tool"))
        (put_string "server" (stringValue (member source "server")) base)
  | dynamic_tool_activity =>
      put "success" (match member source "success" with JBool b => Some (JBool b) | _ => None end)
        (put_string "text" (dynamicToolResultText stringifyIndented (member source "contentItems"))
        (put_string "tool" (stringValue (member source "tool")) base))
  | usage => map_set "usage" (projectTokenUsage (member params "tokenUsage")) base
  | thread_lifecycle =>
      if negb (String.eqb method "thread/settings/updated") then base
      else
        let settings := asRecord (member params "threadSettings") in
        match stringValue (member settings "model"), stringValue (member settings "modelProvider") with
        | Some model, Some modelProvider =>
            map_set "settings"
              (JObject [("model", JString model); ("modelProvider", JString modelProvider);
                        ("effort", null_or (stringValue (member settings "effort")))]) base
        | _, _ => base
        end
  | turn_lifecycle => put "error" (projectErrorPayload params turn) base
  | runtime_warning =>
      let error := projectErrorPayload params turn in
      put "error" error
        (put "message" (match error with Some (JObject e) => Some (member e "message") | _ => None end) base)
  | _ => base
  end.

(** [mapNotification]: the native message is [notification], read as an object with
    [method] and [params]. *)
Definition mapNotification (method : string) (params notification : json) (sequence : Z)
    (maxRawDetailBytes : nat) (known : bool) : NeutralExternalRuntimeEvent :=
  let params := asRecord params in
  let item := asRecord (member params "item") in
  let turn := asRecord (member params "turn") in
  let thread := asRecord (member params "thread") in
  let k := if known then classifyNotification method item else unknown_native_notification in
  let documents := projectDocumentCandidates decodeURIComponent item (String.eqb method "item/completed") in
  {| transportSequence := sequence;
     event_method := method;
     kind := k;
     threadId := or_else (stringValue (member params "threadId")) (stringValue (member thread "id"));
     turnId := or_else (stringValue (member params "turnId")) (stringValue (member turn "id"));
     itemId := or_else (stringValue (member params "itemId")) (stringValue (member item "id"));
     nativeRequestId := None;
     payload := projectPayload method k params documents.2 turn;
     mediaCandidates := projectMediaCandidates item;
     documentCandidates := documents.1;
     rawDetail := captureBoundedRawDetail sha256 replacement_character notification maxRawDetailBytes |}.

Definition mapUnsupportedServerRequest (id : JsonRpcId) (method : string) (params request : json)
    (sequence : Z) (maxRawDetailBytes : nat) : NeutralExternalRuntimeEvent :=
  let params := asRecord params in
  {| transportSequence := sequence;
     event_method := method;
     kind := unsupported_server_request;
     threadId := stringValue (member params "threadId");
     turnId := stringValue (member params "turnId");
     itemId := None;
     nativeRequestId := Some id;
     payload := [("nativeMethod", JString method);
                 ("message", JString "unsupported external runtime server request")];
     mediaCandidates := [];
     documentCandidates := [];
     rawDetail := captureBoundedRawDetail sha256 replacement_character request maxRawDetailBytes |}.
End Mapper.

(** ** Properties *)

Section Facts.
Context {JT : JsonText}.
Context (stringifyIndented : json → string) (decodeURIComponent : string → option string).
Context (sha256 : string → string) (replacement_character : string).

Lemma tool_result_text_safe v s :
  dynamicToolResultText stringifyIndented v = Some s → safe_text DYNAMIC_TOOL_RESULT_LIMIT s.
Proof.
  destruct v as [| | | | |items|]; cbn [dynamicToolResultText]; try done.
  destruct (replace_controls _) as [|c r] eqn:Hr; [done|]; intros [= <-]; split.
  - rewrite <-length_chars, chars_str; etransitivity; [apply truncate_length|].
    change (length TRUNCATION_MARKER) with 14%nat; unfold DYNAMIC_TOOL_RESULT_LIMIT; lia.
  - rewrite chars_str; apply truncate_Forall; [rewrite <-Hr; apply replace_controls_safe|apply marker_safe].
Qed.

(** A text block is hidden when it is the detail reference, plain or as JSON. *)
Lemma detail_reference_hidden r t :
  isDetailReferenceText t (Some r) = true ↔ t = r ∨ JSON_parse t = Some (JString r).
Proof.
  unfold isDetailReferenceText; rewrite orb_true_iff, String.eqb_eq.
  destruct (JSON_parse t) as [[]|]; rewrite ?String.eqb_eq; naive_solver.
Qed.

Lemma readable_quoted s : readableJsonText stringifyIndented (quote s) = s.
Proof.
  unfold readableJsonText; by rewrite (parse_stringify (JString s) (quote s) (plain_string _ s) eq_refl).
Qed.

(** The documents of a completed agent message are its links in order, numbered from 0,
    under the names that replace them in the text. *)
Lemma documents_exact item text completed :
  member item "type" = JString "agentMessage" → member item "text" = JString text →
  let '(candidates, sanitized) := projectDocumentCandidates decodeURIComponent item completed in
  (∀ i d, candidates !! i = Some d ↔
     completed = true ∧ ∃ l, message_links (chars text) !! i = Some l
       ∧ d = {| documentIndex := i; document_path := str (link_path decodeURIComponent l);
                displayName := str (link_name decodeURIComponent l) |})
  ∧ member sanitized "text"
    = JString (str (replaceAgentMessageFileLinks (chars text) (link_name decodeURIComponent))).
Proof.
  intros Htype Htext; unfold projectDocumentCandidates; rewrite Htype, Htext; cbn [is_string negb stringValue].
  change (String.eqb "agentMessage" "agentMessage") with true; cbn [negb]; split.
  - intros i d; destruct completed; [|by rewrite lookup_nil; naive_solver].
    rewrite list_lookup_imap, fmap_Some; split; [intros (l & ? & ->)|intros (_ & l & ? & ->)]; eauto.
  - destruct (String.eqb_spec (str (replaceAgentMessageFileLinks (chars text) (link_name decodeURIComponent))) text)
      as [->|_]; [done|]; unfold member; by rewrite map_get_set_eq.
Qed.
End Facts.

(** *** A notification without an item

    [asRecord(undefined)] is an object with the member [value], so the fall back of
    [projectPayload] to the parameters of the notification is not taken, and what only
    they carry is not projected. *)
Section NoItem.
#[local] Existing Instance literal_json.

Definition status_changed : NeutralExternalRuntimeEvent :=
  mapNotification (λ _, "") (λ _, None) (λ _, "") "" "thread/status/changed"
    (JObject [("threadId", JString "t1"); ("status", JObject [("type", JString "active")])]) JNull 1 100 true.

Example status_of_params_lost : payload status_changed = [("nativeMethod", JString "thread/status/changed")].
Proof. vm_compute. reflexivity. Qed.

Definition patch_updated : NeutralExternalRuntimeEvent :=
  mapNotification (λ _, "") (λ _, None) (λ _, "") "" "item/fileChange/patchUpdated"
    (JObject [("itemId", JString "i1"); ("changes", JArray [JObject [("path", JString "/a")]])]) JNull 1 100 true.

Example changes_of_params_lost :
  payload patch_updated = [("nativeMethod", JString "item/fileChange/patchUpdated"); ("fileChanges", JArray [])].
Proof. vm_compute. reflexivity. Qed.
End NoItem.

(** The members of a notification's parameters that its payload can show when there is
    no item. *)
Definition read_from_params : list string :=
  ["delta"; "text"; "phase"; "tokenUsage"; "threadSettings"; "error"; "willRetry"].

Lemma member_set_other k v o x : x ≠ k → member (map_set k v o) x = member o x.
Proof. intros Hx; unfold member; by rewrite map_get_set_ne. Qed.

Lemma projectErrorPayload_set k v params turn :
  (k ∉ read_from_params) → projectErrorPayload (map_set k v params) turn = projectErrorPayload params turn.
Proof.
  intros Hk; unfold projectErrorPayload; by rewrite !member_set_other by (intros <-; apply Hk; set_solver).
Qed.

(** Of a notification without an item, only seven members of the parameters can
    reach the payload; any other member, such as the status, duration, command, working
    directory, exit code, file changes, server or tool, changes nothing, because the
    code's fall back from the item to the parameters is never taken. *)
Theorem payload_ignores_params {JT : JsonText} indented method k params turn name v :
  (name ∉ read_from_params) →
  projectPayload indented method k (map_set name v params) (asRecord JUndefined) turn
  = projectPayload indented method k params (asRecord JUndefined) turn.
Proof.
  intros Hn; unfold projectPayload, base_payload; cbn [asRecord].
  rewrite projectErrorPayload_set, !member_set_other by (done || intros <-; apply Hn; set_solver).
  reflexivity.
Qed.

Lemma payload_ignores_params_witness :
  @projectPayload literal_json (λ _, "") "thread/status/changed" thread_lifecycle
    [("threadId", JString "t1"); ("status", JString "active")] (asRecord JUndefined) []
  = @projectPayload literal_json (λ _, "") "thread/status/changed" thread_lifecycle
    [("threadId", JString "t1")] (asRecord JUndefined) [].
Proof.
  apply (@payload_ignores_params literal_json (λ _, "") "thread/status/changed" thread_lifecycle
           [("threadId", JString "t1")] [] "status" (JString "active")); set_solver.
Defined.
