(* ===== verification/CodexCoordination.v ===== *)
(** * The coordination tools offered to Codex threads

    [coordination.ts] of [ts/packages/external-runtime-codex/src] and
    [assertDynamicToolReadiness] of [driver.ts]: the shipped catalog of dynamic tools,
    the catalog of a managed reviewer, and the fingerprint by which a reconnect tells
    whether a native thread was started with the current catalog.  SHA-256 is an
    argument. *)

From stdpp Require Import sets.
From S2P Require Import Prelude JsString Json CodexCodec.

Record DynamicToolFunction := {
  tool_name : string;
  tool_description : string;
  inputSchema : json
}.

(** [DynamicToolSpec]: a namespace of functions, or a function of its own. *)
Inductive DynamicToolSpec :=
| Namespace (name description : string) (tools : list DynamicToolFunction)
| Function (f : DynamicToolFunction).

Definition COORDINATION_NAMESPACE : string := "rusty_crew".
Definition CODEX_COORDINATION_DYNAMIC_TOOL_CATALOG_REVISION : string := "rusty-crew-codex-coordination-v1".

Definition list_agents : DynamicToolFunction := {|
  tool_name := "list_agents";
  tool_description :=
    "List curated Rusty Crew @route addresses first, followed by raw agent diagnostics.";
  inputSchema :=
    JObject [("type", JString "object"); ("properties", JObject []);
    ("additionalProperties", JBool false)]
|}.

Definition send_agent_message : DynamicToolFunction := {|
  tool_name := "send_agent_message";
  tool_description :=
    "Send a message to an exact Rusty Crew @route address or raw agent ID.";
  inputSchema :=
    JObject [("type", JString "object");
    ("properties", JObject [("recipient", JObject [("type", JString "string");
    ("minLength", JNumber "1")]); ("body", JObject [("type", JString "string");
    ("minLength", JNumber "1")]); ("correlationId", JObject [("type", JString "string");
    ("minLength", JNumber "1")]); ("ttlSeconds", JObject [("type", JString "integer");
    ("minimum", JNumber "1"); ("maximum", JNumber "86400")])]);
    ("required", JArray [JString "recipient"; JString "body"]);
    ("additionalProperties", JBool false)]
|}.

Definition reply_agent_message : DynamicToolFunction := {|
  tool_name := "reply_agent_message";
  tool_description :=
    "Reply once to a routed Rusty Crew message. Crew resolves its sender and correlation from the message ID.";
  inputSchema :=
    JObject [("type", JString "object");
    ("properties", JObject [("messageId", JObject [("type", JString "string");
    ("minLength", JNumber "1")]); ("body", JObject [("type", JString "string");
    ("minLength", JNumber "1")]); ("ttlSeconds", JObject [("type", JString "integer");
    ("minimum", JNumber "1"); ("maximum", JNumber "86400")])]);
    ("required", JArray [JString "messageId"; JString "body"]);
    ("additionalProperties", JBool false)]
|}.

Definition agent_round : DynamicToolFunction := {|
  tool_name := "agent_round";
  tool_description :=
    "Send a message to an exact Rusty Crew @route address or raw agent ID and wait for one correlated reply.";
  inputSchema :=
    JObject [("type", JString "object");
    ("properties", JObject [("recipient", JObject [("type", JString "string");
    ("minLength", JNumber "1")]); ("body", JObject [("type", JString "string");
    ("minLength", JNumber "1")]); ("correlationId", JObject [("type", JString "string");
    ("minLength", JNumber "1")]); ("timeoutMs", JObject [("type", JString "integer");
    ("minimum", JNumber "1"); ("maximum", JNumber "300000")])]);
    ("required", JArray [JString "recipient"; JString "body"]);
    ("additionalProperties", JBool false)]
|}.

Definition submit_task_for_review : DynamicToolFunction := {|
  tool_name := "submit_task_for_review";
  tool_description :=
    "Use this tool for normal Den task review submission. Crew durably runs exact-SHA GitHub gates and dispatches passing work to the reviewer; lower-level Den review and gate tools are infrastructure fallbacks.";
  inputSchema :=
    JObject [("type", JString "object");
    ("properties", JObject [("taskId", JObject [("type", JString "integer");
    ("minimum", JNumber "1")]); ("repository", JObject [("type", JString "string");
    ("minLength", JNumber "3")]); ("commitSha", JObject [("type", JString "string");
    ("pattern", JString "^[0-9a-fA-F]{40}$")]); ("ref", JObject [("type", JString "string");
    ("minLength", JNumber "1")]); ("requiredChecks", JObject [("type", JString "array");
    ("items", JObject [("type", JString "string"); ("minLength", JNumber "1")]);
    ("minItems", JNumber "1")]); ("baseCommit", JObject [("type", JString "string");
    ("pattern", JString "^[0-9a-fA-F]{40}$")]);
    ("reviewSummaryMd", JObject [("type", JString "string"); ("minLength", JNumber "1")]);
    ("reviewer", JObject [("type", JString "string");
    ("pattern", JString "^@[A-Za-z0-9._-]+$")])]); ("required", JArray [JString "taskId";
    JString "repository"; JString "commitSha"; JString "ref"; JString "requiredChecks";
    JString "reviewSummaryMd"]); ("additionalProperties", JBool false)]
|}.

Definition complete_routed_review : DynamicToolFunction := {|
  tool_name := "complete_routed_review";
  tool_description :=
    "Complete the currently routed Den review with a structured verdict; Crew finalizes Den and sends one receipt-based reply. If several queued reviews share the reviewer session, include taskId and commitSha from the review envelope to validate the target. This is a Codex dynamic tool: exec-composition callers must emit the returned contentItems text, not look for an MCP content array.";
  inputSchema :=
    JObject [("type", JString "object");
    ("properties", JObject [("verdict", JObject [("type", JString "string");
    ("enum", JArray [JString "looks_good"; JString "changes_requested"])]);
    ("taskId", JObject [("type", JString "integer"); ("minimum", JNumber "1")]);
    ("commitSha", JObject [("type", JString "string"); ("pattern", JString "^[0-9a-fA-F]{40}$")]);
    ("notes", JObject [("type", JString "string"); ("maxLength", JNumber "4096")]);
    ("evidence", JObject [("type", JString "array"); ("items", JObject [("type", JString "string");
    ("minLength", JNumber "1"); ("maxLength", JNumber "512")]); ("maxItems", JNumber "32")]);
    ("priorFindingResolutions", JObject [("type", JString "array");
    ("items", JObject [("type", JString "object");
    ("properties", JObject [("findingId", JObject [("type", JString "integer");
    ("minimum", JNumber "1")]); ("status", JObject [("type", JString "string");
    ("minLength", JNumber "1")]); ("verificationNote", JObject [("type", JString "string");
    ("minLength", JNumber "1")])]); ("required", JArray [JString "findingId"; JString "status";
    JString "verificationNote"]); ("additionalProperties", JBool false)])]);
    ("newFindings", JObject [("type", JString "array");
    ("items", JObject [("type", JString "object");
    ("properties", JObject [("category", JObject [("type", JString "string");
    ("minLength", JNumber "1")]); ("summary", JObject [("type", JString "string");
    ("minLength", JNumber "1")]); ("notes", JObject [("type", JString "string")]);
    ("fileReferences", JObject [("type", JString "array");
    ("items", JObject [("type", JString "string"); ("minLength", JNumber "1")])]);
    ("testCommands", JObject [("type", JString "array");
    ("items", JObject [("type", JString "string"); ("minLength", JNumber "1")])])]);
    ("required", JArray [JString "category"; JString "summary"]);
    ("additionalProperties", JBool false)])])]); ("required", JArray [JString "verdict"]);
    ("additionalProperties", JBool false)]
|}.

Definition CODEX_COORDINATION_DYNAMIC_TOOLS : list DynamicToolSpec :=
  [Namespace COORDINATION_NAMESPACE "Rusty Crew internal agent coordination."
     [list_agents; send_agent_message; reply_agent_message; agent_round; submit_task_for_review;
      complete_routed_review]].

Definition without_reply (s : DynamicToolSpec) : DynamicToolSpec :=
  match s with
  | Namespace name description tools =>
      Namespace name description
        (List.filter (λ t, negb (String.eqb (tool_name t) "reply_agent_message")) tools)
  | Function f => Function f
  end.

Definition CODEX_MANAGED_REVIEWER_DYNAMIC_TOOLS : list DynamicToolSpec :=
  map without_reply CODEX_COORDINATION_DYNAMIC_TOOLS.

Definition isManagedReviewerIdentity (value : option string) : bool :=
  match value with
  | Some v => String.eqb v "reviewer" || Str.startsWith v "reviewer-"
  | None => false
  end.

Definition codexCoordinationDynamicToolsForProfile (agentId profileId : option string) : list DynamicToolSpec :=
  if isManagedReviewerIdentity agentId || isManagedReviewerIdentity profileId
  then CODEX_MANAGED_REVIEWER_DYNAMIC_TOOLS else CODEX_COORDINATION_DYNAMIC_TOOLS.

Definition function_json (f : DynamicToolFunction) : json :=
  JObject [("type", JString "function"); ("name", JString (tool_name f));
           ("description", JString (tool_description f)); ("inputSchema", inputSchema f)].

Definition spec_json (s : DynamicToolSpec) : json :=
  match s with
  | Namespace name description tools =>
      JObject [("type", JString "namespace"); ("name", JString name); ("description", JString description);
               ("tools", JArray (map function_json tools))]
  | Function f => function_json f
  end.

Definition catalog_text (catalog : list DynamicToolSpec) : string :=
  default "" (stringify (JObject [("revision", JString CODEX_COORDINATION_DYNAMIC_TOOL_CATALOG_REVISION);
                                  ("catalog", JArray (map spec_json catalog))])).

Definition codexCoordinationDynamicToolCatalogFingerprint (sha256 : string → string)
    (agentId profileId : option string) : string :=
  sha256 (catalog_text (codexCoordinationDynamicToolsForProfile agentId profileId)).

(** ** [assertDynamicToolReadiness] *)

Definition required_tools : list string :=
  ["list_agents"; "send_agent_message"; "agent_round"; "submit_task_for_review"; "complete_routed_review"].

Definition crew_namespace (catalog : list DynamicToolSpec) : option (list DynamicToolFunction) :=
  match List.find (λ s, match s with Namespace n _ _ => String.eqb n "rusty_crew" | Function _ => false end) catalog with
  | Some (Namespace _ _ tools) => Some tools
  | _ => None
  end.

Definition assertDynamicToolReadiness_of (catalog : list DynamicToolSpec) : exn unit :=
  match crew_namespace catalog with
  | None => Raise (ProtocolError malformed_response "Rusty Crew dynamic-tool namespace is not registered" None)
  | Some tools =>
      match List.find (λ r, negb (set_has r (map tool_name tools))) required_tools with
      | None => Done ()
      | Some r =>
          Raise (ProtocolError malformed_response ("Rusty Crew dynamic tool " +:+ r +:+ " is not registered") None)
      end
  end.

Definition assertDynamicToolReadiness : exn unit := assertDynamicToolReadiness_of CODEX_COORDINATION_DYNAMIC_TOOLS.

(** ** Facts about the shipped catalog *)

Definition tools_of (catalog : list DynamicToolSpec) : list DynamicToolFunction :=
  flat_map (λ s, match s with Namespace _ _ tools => tools | Function f => [f] end) catalog.

(** Every schema is closed and requires only properties that it has. *)
Definition schema_consistent (f : DynamicToolFunction) : bool :=
  match inputSchema f with
  | JObject o =>
      match member o "additionalProperties" with JBool b => negb b | _ => false end
      && forallb (λ r, match r with JString k => map_has k (match member o "properties" with JObject p => p | _ => [] end) | _ => false end)
        (match member o "required" with JArray l => l | _ => [] end)
  | _ => false
  end.

Lemma shipped_catalog_consistent :
  assertDynamicToolReadiness = Done ()
  ∧ assertDynamicToolReadiness_of CODEX_MANAGED_REVIEWER_DYNAMIC_TOOLS = Done ()
  ∧ forallb schema_consistent (tools_of CODEX_COORDINATION_DYNAMIC_TOOLS) = true
  ∧ NoDup (map tool_name (tools_of CODEX_COORDINATION_DYNAMIC_TOOLS)).
Proof.
  split_and!; [reflexivity|reflexivity|vm_compute; reflexivity|].
  refine (bool_decide_unpack _ _); vm_compute; exact I.
Qed.

(** The catalog of a profile has the raw reply tool exactly when neither identity is a
    managed reviewer's; it has every other tool in any case. *)
Lemma profile_catalog_exact agentId profileId f :
  f ∈ tools_of (codexCoordinationDynamicToolsForProfile agentId profileId) ↔
  f ∈ tools_of CODEX_COORDINATION_DYNAMIC_TOOLS
  ∧ (tool_name f = "reply_agent_message" →
     isManagedReviewerIdentity agentId = false ∧ isManagedReviewerIdentity profileId = false).
Proof.
  unfold codexCoordinationDynamicToolsForProfile.
  destruct (isManagedReviewerIdentity agentId), (isManagedReviewerIdentity profileId); cbn [orb];
    try (unfold CODEX_MANAGED_REVIEWER_DYNAMIC_TOOLS; cbn [tools_of flat_map map without_reply CODEX_COORDINATION_DYNAMIC_TOOLS];
         rewrite !app_nil_r, elem_of_List_filter, negb_true_iff, String.eqb_neq; naive_solver).
  naive_solver.
Qed.

(** The catalog fingerprint decides whether a native thread can be resumed: as long
    as the digest tells the two shipped catalogs apart, two bindings have the same
    fingerprint exactly when they are offered the same tools, that is when both or
    neither belong to a managed reviewer. *)
Theorem fingerprint_exact sha256 agentId profileId agentId' profileId' :
  sha256 (catalog_text CODEX_COORDINATION_DYNAMIC_TOOLS)
    ≠ sha256 (catalog_text CODEX_MANAGED_REVIEWER_DYNAMIC_TOOLS) →
  let managed a p := isManagedReviewerIdentity a || isManagedReviewerIdentity p in
  codexCoordinationDynamicToolCatalogFingerprint sha256 agentId profileId
    = codexCoordinationDynamicToolCatalogFingerprint sha256 agentId' profileId'
  ↔ managed agentId profileId = managed agentId' profileId'.
Proof.
  intros Hd; cbn zeta beta; unfold codexCoordinationDynamicToolCatalogFingerprint, codexCoordinationDynamicToolsForProfile.
  destruct (isManagedReviewerIdentity agentId || isManagedReviewerIdentity profileId),
    (isManagedReviewerIdentity agentId' || isManagedReviewerIdentity profileId'); naive_solver.
Qed.

Lemma fingerprint_exact_witness :
  codexCoordinationDynamicToolCatalogFingerprint (λ s, s) (Some "reviewer-2") None
  = codexCoordinationDynamicToolCatalogFingerprint (λ s, s) None (Some "reviewer").
Proof.
  apply (fingerprint_exact (λ s, s) (Some "reviewer-2") None None (Some "reviewer")); [|reflexivity].
  refine (bool_decide_unpack _ _); vm_compute; exact I.
Defined.
