(* ===== verification/CodexRequests.v ===== *)
(** * The requests of the Codex driver

    The part of [CodexAppServerDriver] ([driver.ts] of
    [ts/packages/external-runtime-codex/src]) that keeps its own requests: the pending
    map, their timers and abort listeners, and the identifiers of completed responses.
    The promises handed out are the log of their settlements, in which every call of
    [resolve] or [reject] is an entry. *)

From stdpp Require Import sets.
From S2P Require Import Prelude JsString Json CodexCodec.
#[local] Open Scope Z_scope.

(** The signal of a client's call, or of the compatibility probe of a connection attempt. *)
Inductive signal :=
| ClientSignal (n : nat)
| ProbeSignal (attempt : nat).

#[global] Instance signal_eq : EqDecision signal.
Proof. solve_decision. Defined.

Record PendingRequest := { pending_method : string; pending_signal : option signal }.

Inductive settlement :=
| Resolved (value : json)
| Rejected (e : js_error).

Record Requests := {
  pending : jsmap JsonRpcId PendingRequest;
  (** the timers that are running, by the id of their request *)
  timers : list JsonRpcId;
  (** the abort listeners installed *)
  listeners : list (signal * JsonRpcId);
  (** the requests whose [transport.send] has not settled *)
  sending : list JsonRpcId;
  (** every settlement of a request's promise *)
  settled : list (JsonRpcId * settlement);
  (** every request whose promise was made *)
  issued : list JsonRpcId;
  nextRequestId : Z;
  completedResponseIds : list JsonRpcId;
  completedResponseOrder : list JsonRpcId
}.

Definition no_requests : Requests :=
  {| pending := []; timers := []; listeners := []; sending := []; settled := []; issued := [];
     nextRequestId := 1; completedResponseIds := []; completedResponseOrder := [] |}.

Definition request_id (n : Z) : JsonRpcId := IdNumber (pretty n).

(** [const id = this.#nextRequestId++] *)
Definition take_id (r : Requests) : Requests :=
  {| pending := pending r; timers := timers r; listeners := listeners r; sending := sending r;
     settled := settled r; issued := issued r; nextRequestId := nextRequestId r + 1;
     completedResponseIds := completedResponseIds r; completedResponseOrder := completedResponseOrder r |}.

(** The promise of a request: its timer, its listener and its pending entry; then the
    call of [transport.send]. *)
Definition open_request (id : JsonRpcId) (p : PendingRequest) (r : Requests) : Requests :=
  {| pending := map_set id p (pending r);
     timers := set_add id (timers r);
     listeners := match pending_signal p with Some s => listeners r ++ [(s, id)] | None => listeners r end;
     sending := set_add id (sending r);
     settled := settled r; issued := issued r ++ [id]; nextRequestId := nextRequestId r;
     completedResponseIds := completedResponseIds r; completedResponseOrder := completedResponseOrder r |}.

(** A request leaves the pending map with its timer and its listener, and its promise is
    settled: the timeout, [onAbort], a failed send and a response all do this. *)
Definition settle (id : JsonRpcId) (s : settlement) (r : Requests) : Requests :=
  {| pending := map_delete id (pending r);
     timers := set_delete id (timers r);
     listeners := List.filter (λ l, negb (bool_decide (l.2 = id))) (listeners r);
     sending := sending r; settled := settled r ++ [(id, s)]; issued := issued r;
     nextRequestId := nextRequestId r;
     completedResponseIds := completedResponseIds r; completedResponseOrder := completedResponseOrder r |}.

Definition sent (id : JsonRpcId) (r : Requests) : Requests :=
  {| pending := pending r; timers := timers r; listeners := listeners r; sending := set_delete id (sending r);
     settled := settled r; issued := issued r; nextRequestId := nextRequestId r;
     completedResponseIds := completedResponseIds r; completedResponseOrder := completedResponseOrder r |}.

Definition rememberCompletedResponse (id : JsonRpcId) (r : Requests) : Requests :=
  let ids := set_add id (completedResponseIds r) in
  let order := completedResponseOrder r ++ [id] in
  let '(ids, order) :=
    if (1024 <? length order)%nat
    then match order with
         | oldest :: rest => (set_delete oldest ids, rest)
         | [] => (ids, order)
         end
    else (ids, order) in
  {| pending := pending r; timers := timers r; listeners := listeners r; sending := sending r;
     settled := settled r; issued := issued r; nextRequestId := nextRequestId r;
     completedResponseIds := ids; completedResponseOrder := order |}.

(** A request that is pending is settled; [settle_if] does nothing for another. *)
Definition settle_if (id : JsonRpcId) (s : settlement) (r : Requests) : Requests :=
  match map_get id (pending r) with
  | Some _ => settle id s r
  | None => r
  end.

(** The timer of a request runs out. *)
Definition timeout (requestTimeoutMs : Z) (id : JsonRpcId) (r : Requests) : Requests :=
  let method := match map_get id (pending r) with Some p => pending_method p | None => "" end in
  settle id (Rejected (PlainError ("Codex app-server " +:+ method +:+ " timed out after "
                                   +:+ pretty requestTimeoutMs +:+ "ms"))) r.

(** [transport.send] settles. *)
Definition send_settled (id : JsonRpcId) (failure : option js_error) (r : Requests) : Requests :=
  let r := sent id r in
  match failure with
  | Some e => settle_if id (Rejected e) r
  | None => r
  end.

(** The listeners of a signal run in the order of their installation. *)
Definition abort (s : signal) (reason : js_error) (r : Requests) : Requests :=
  fold_left (λ r id, settle_if id (Rejected reason) r)
    (map snd (List.filter (λ l, bool_decide (l.1 = s)) (listeners r))) r.

(** The loop of [#disconnect] over the pending requests. *)
Definition reject_all (failure : js_error) (r : Requests) : Requests :=
  fold_left (λ r id, settle id (Rejected failure) r) (map_keys (pending r)) r.

(** A response for a pending request. *)
Definition respond (id : JsonRpcId) (s : settlement) (r : Requests) : Requests :=
  settle id s (rememberCompletedResponse id r).

(** ** Every request is accounted for *)

Record accounted (max : nat) (r : Requests) : Prop := {
  acc_wf : map_wf (pending r);
  acc_timers : NoDup (timers r) ∧ ∀ id, id ∈ timers r ↔ id ∈ map_keys (pending r);
  acc_listeners : ∀ s id, (s, id) ∈ listeners r → id ∈ map_keys (pending r);
  acc_sending : ∀ id, id ∈ sending r → id ∈ issued r;
  acc_once : NoDup (settled r).*1;
  acc_issued : ∀ id, id ∈ issued r ↔ id ∈ map_keys (pending r) ∨ id ∈ (settled r).*1;
  acc_apart : ∀ id, id ∈ map_keys (pending r) → id ∈ (settled r).*1 → False;
  acc_fresh : ∀ id, id ∈ issued r → ∃ n, id = request_id n ∧ 1 <= n < nextRequestId r;
  acc_bound : (length (pending r) <= max)%nat;
  acc_next : 1 <= nextRequestId r;
  acc_completed : NoDup (completedResponseOrder r) ∧ (length (completedResponseOrder r) <= 1024)%nat
    ∧ (∀ id, id ∈ completedResponseIds r ↔ id ∈ completedResponseOrder r)
    ∧ ∀ id, id ∈ completedResponseOrder r → id ∈ (settled r).*1
}.

Lemma request_id_inj n m : request_id n = request_id m → n = m.
Proof. intros [= H]; by apply (inj pretty). Qed.

Lemma no_requests_accounted max : accounted max no_requests.
Proof. split; cbn; try set_solver; try lia; try apply NoDup_nil_2; split_and!; try apply NoDup_nil_2; set_solver || lia. Qed.

Lemma take_id_accounted max r : accounted max r → accounted max (take_id r).
Proof.
  intros []; split; cbn; try done; [|lia].
  intros id (n & -> & ?)%acc_fresh0; exists n; split; [done|lia].
Qed.

Lemma fresh_id max r :
  accounted max r → (request_id (nextRequestId r) ∉ issued r)
  ∧ map_get (request_id (nextRequestId r)) (pending r) = None.
Proof.
  intros Hr; assert (Hf : request_id (nextRequestId r) ∉ issued r).
  { intros (n & Heq%request_id_inj & ?)%(acc_fresh _ _ Hr); lia. }
  split; [done|]; apply map_get_None; intros Hk; apply Hf, (acc_issued _ _ Hr); by left.
Qed.

Lemma open_request_accounted max r p :
  accounted max r → (length (pending r) < max)%nat →
  accounted max (open_request (request_id (nextRequestId r)) p (take_id r)).
Proof.
  intros Hr Hlen; pose proof (fresh_id _ _ Hr) as [Hnew Hget].
  set (id := request_id (nextRequestId r)) in *; destruct Hr as [Hwf [Hnd Ht] Hl Hs Ho Hi Ha Hf Hb Hn Hc].
  assert (Hk : ∀ i, i ∈ map_keys (map_set id p (pending r)) ↔ i = id ∨ i ∈ map_keys (pending r))
    by (intros; apply map_keys_set).
  split; cbn; try done.
  - by apply map_set_wf.
  - split; [by apply set_add_NoDup|]; intros i; rewrite elem_of_set_add, Hk, Ht; done.
  - intros s i Hi'; rewrite Hk; destruct (pending_signal p) as [s'|]; [|right; eauto].
    apply elem_of_app in Hi' as [?|[= <- <-]%list_elem_of_singleton]; eauto.
  - intros i; rewrite elem_of_set_add, elem_of_app, list_elem_of_singleton; naive_solver.
  - intros i; rewrite elem_of_app, list_elem_of_singleton, Hk, Hi; naive_solver.
  - intros i; rewrite Hk; intros [->|?] ?; [|by eapply Ha]; apply Hnew, Hi; by right.
  - intros i; rewrite elem_of_app, list_elem_of_singleton; intros [(n & -> & ?)%Hf| ->]; [exists n|exists (nextRequestId r)];
      (split; [done|lia]).
  - rewrite map_set_absent by done; rewrite length_app; cbn; lia.
  - lia.
Qed.

Lemma map_delete_length {K V} `{!EqDecision K} (k : K) (m : jsmap K V) : (length (map_delete k m) <= length m)%nat.
Proof. induction m as [|[k' v] m IH]; cbn; [done|]; case_decide; cbn; lia. Qed.

Lemma settle_accounted max r id s :
  accounted max r → id ∈ map_keys (pending r) → accounted max (settle id s r).
Proof.
  intros [Hwf [Hnd Ht] Hl Hs Ho Hi Ha Hf Hb Hn Hc] Hid.
  assert (Hk : ∀ i, i ∈ map_keys (map_delete id (pending r)) ↔ i ≠ id ∧ i ∈ map_keys (pending r))
    by (intros; rewrite map_keys_delete, list_elem_of_filter; done).
  assert (Hset : ∀ i, i ∈ (settled r ++ [(id, s)]).*1 ↔ i ∈ (settled r).*1 ∨ i = id)
    by (intros; rewrite fmap_app, elem_of_app; cbn; rewrite list_elem_of_singleton; done).
  split; cbn; try done.
  - by apply map_delete_wf.
  - split; [by apply NoDup_filter|]; intros i; rewrite elem_of_set_delete, Hk, Ht; done.
  - intros s' i [Hin Hne]%elem_of_List_filter; rewrite Hk; split; [|by eapply Hl].
    cbn in Hne; by destruct (bool_decide_reflect (i = id)).
  - rewrite fmap_app; apply NoDup_app; split_and!; [done| |apply NoDup_singleton].
    intros i Hi' ->%list_elem_of_singleton; by eapply Ha.
  - intros i; rewrite Hk, Hset, Hi; destruct (decide (i = id)); naive_solver.
  - intros i; rewrite Hk, Hset; naive_solver.
  - pose proof (map_delete_length id (pending r)); lia.
  - destruct Hc as (? & ? & ? & Hc); split_and!; try done; intros i Hi'%Hc; rewrite Hset; auto.
Qed.

Lemma settle_if_accounted max r id s : accounted max r → accounted max (settle_if id s r).
Proof.
  intros Hr; unfold settle_if; destruct (map_get id (pending r)) eqn:Hget; [|done].
  apply settle_accounted; [done|]; apply map_get_is_Some; eauto.
Qed.

Lemma sent_accounted max r id : accounted max r → accounted max (sent id r).
Proof. intros []; split; cbn; try done; intros i [_ ?]%elem_of_set_delete; auto. Qed.

Lemma send_settled_accounted max r id e : accounted max r → accounted max (send_settled id e r).
Proof.
  intros Hr; unfold send_settled; destruct e; [apply settle_if_accounted|]; by apply sent_accounted.
Qed.

Lemma timeout_accounted max r ms id :
  accounted max r → id ∈ timers r → accounted max (timeout ms id r).
Proof. intros Hr Hid; apply settle_accounted; [done|]; by apply (acc_timers _ _ Hr). Qed.

Lemma abort_accounted max r s e : accounted max r → accounted max (abort s e r).
Proof.
  unfold abort; generalize (map snd (List.filter (λ l, bool_decide (l.1 = s)) (listeners r))); intros ids.
  revert r; induction ids as [|id ids IH]; intros r Hr; [done|]; apply IH, settle_if_accounted, Hr.
Qed.

Lemma rememberCompletedResponse_accounted max r id :
  accounted max r → id ∈ (settled r).*1 → (id ∉ completedResponseOrder r) →
  accounted max (rememberCompletedResponse id r).
Proof.
  intros [Hwf Ht Hl Hs Ho Hi Ha Hf Hb Hn (Hnd & Hlen & Hids & Hset)] Hid Hnew.
  assert (Hnd' : NoDup (completedResponseOrder r ++ [id])).
  { apply NoDup_app; split_and!; [done| |apply NoDup_singleton]; intros i ? ->%list_elem_of_singleton; done. }
  unfold rememberCompletedResponse; destruct (Nat.ltb_spec 1024 (length (completedResponseOrder r ++ [id]))).
  - destruct (completedResponseOrder r ++ [id]) as [|old rest] eqn:Hord; [cbn in *; lia|].
    assert (Hmem : ∀ i, i ∈ old :: rest ↔ i ∈ completedResponseOrder r ∨ i = id)
      by (intros; by rewrite <-Hord, elem_of_app, list_elem_of_singleton).
    apply NoDup_cons in Hnd' as [Hold Hrest].
    assert (length rest = length (completedResponseOrder r))
      by (apply (f_equal length) in Hord; rewrite length_app in Hord; cbn in Hord; lia).
    split; cbn; try done; split_and!; [done|lia| |].
    + intros i; rewrite elem_of_set_delete, elem_of_set_add, Hids.
      specialize (Hmem i); rewrite elem_of_cons in Hmem; naive_solver.
    + intros i Hin; assert (i ∈ old :: rest) as [?| ->]%Hmem by (by right); auto.
  - split; cbn; try done; split_and!; [done|lia| |].
    + intros i; rewrite elem_of_set_add, elem_of_app, list_elem_of_singleton, Hids; naive_solver.
    + intros i [?| ->%list_elem_of_singleton]%elem_of_app; auto.
Qed.

Lemma respond_accounted max r id s :
  accounted max r → id ∈ map_keys (pending r) → accounted max (respond id s r).
Proof.
  intros Hr Hid.
  assert (Hcomm : respond id s r = rememberCompletedResponse id (settle id s r)).
  { unfold respond, rememberCompletedResponse; cbn [settle completedResponseIds completedResponseOrder].
    destruct (Nat.ltb 1024 _); [|reflexivity]; by destruct (completedResponseOrder r ++ [id]). }
  rewrite Hcomm; apply rememberCompletedResponse_accounted; [by apply settle_accounted| |].
  - cbn; rewrite fmap_app, elem_of_app; right; by apply list_elem_of_singleton.
  - cbn; intros Hin; destruct (acc_completed _ _ Hr) as (_ & _ & _ & Hc).
    by eapply (acc_apart _ _ Hr), Hc.
Qed.

Lemma reject_loop max e l r :
  pending r = l → accounted max r →
  let r' := fold_left (λ r id, settle id (Rejected e) r) (map_keys l) r in
  accounted max r' ∧ pending r' = [] ∧ settled r' = settled r ++ map (λ id, (id, Rejected e)) (map_keys l).
Proof.
  revert r; induction l as [|[k p] l IH]; intros r Hp Hr; [by rewrite app_nil_r|].
  change (map_keys ((k, p) :: l)) with (k :: map_keys l); cbn [fold_left map].
  assert (Hk : map_delete k (pending r) = l).
  { pose proof (acc_wf _ _ Hr) as Hwf; rewrite Hp in *; apply NoDup_cons in Hwf as [Hnot _].
    cbn; rewrite decide_True by done; by apply map_delete_notin, map_get_None. }
  destruct (IH (settle k (Rejected e) r)) as (? & ? & Hs); [exact Hk| |].
  - apply settle_accounted; [done|]; rewrite Hp; left.
  - split_and!; [done|done|]; rewrite Hs; cbn; by rewrite <-(assoc_L (++)).
Qed.

Lemma reject_all_spec max e r :
  accounted max r →
  accounted max (reject_all e r) ∧ pending (reject_all e r) = []
  ∧ settled (reject_all e r) = settled r ++ map (λ id, (id, Rejected e)) (map_keys (pending r)).
Proof. by apply reject_loop. Qed.

(** ** Nothing that has happened is taken back *)

Definition grows (r r' : Requests) : Prop :=
  settled r `prefix_of` settled r' ∧ issued r `prefix_of` issued r'.

#[global] Instance grows_po : PreOrder grows.
Proof. split; [by intros r|intros r1 r2 r3 [] []; split; by etransitivity]. Qed.

Lemma settle_grows id s r : grows r (settle id s r).
Proof. split; cbn; [by apply prefix_app_r|done]. Qed.

Lemma settle_if_grows id s r : grows r (settle_if id s r).
Proof. unfold settle_if; case_match; [apply settle_grows|done]. Qed.

Lemma open_request_grows id p r : grows r (open_request id p (take_id r)).
Proof. split; cbn; [done|by apply prefix_app_r]. Qed.

Lemma send_settled_grows id e r : grows r (send_settled id e r).
Proof. unfold send_settled; destruct e; [etransitivity; [|apply settle_if_grows]|]; done. Qed.

Lemma fold_grows (f : Requests → JsonRpcId → Requests) ids r :
  (∀ r id, grows r (f r id)) → grows r (fold_left f ids r).
Proof.
  intros Hf; revert r; induction ids as [|id ids IH]; intros r; cbn; [done|].
  etransitivity; [apply (Hf r id)|apply IH].
Qed.

Lemma abort_grows s e r : grows r (abort s e r).
Proof. apply fold_grows; intros; apply settle_if_grows. Qed.

Lemma reject_all_grows e r : grows r (reject_all e r).
Proof. apply fold_grows; intros; apply settle_grows. Qed.

Lemma remember_grows id r : grows r (rememberCompletedResponse id r).
Proof.
  unfold rememberCompletedResponse; destruct (Nat.ltb 1024 _); [|done].
  by destruct (completedResponseOrder r ++ [id]).
Qed.

Lemma respond_grows id s r : grows r (respond id s r).
Proof. etransitivity; [apply remember_grows|apply settle_grows]. Qed.

Create HintDb codex.
#[export] Hint Resolve take_id_accounted settle_if_accounted send_settled_accounted timeout_accounted
  abort_accounted respond_accounted : codex.
#[export] Hint Resolve settle_grows settle_if_grows open_request_grows send_settled_grows abort_grows
  reject_all_grows respond_grows : codex.
