(* ===== verification/CodexDriver.v ===== *)
(** * The Codex app-server driver

    [CodexAppServerDriver] of [ts/packages/external-runtime-codex/src/driver.ts].  Its
    methods are cut at their awaits: what a method does up to an await is one step, and
    what it will do after it is a task that is resumed with the answer of what it awaits
    (the transport, the controller authority, a request of its own).  The environment
    decides the order of the steps.  The codec is reached through the class
    [CodecContract], which [CodexCodec] implements. *)

From stdpp Require Import sets.
From S2P Require Import Prelude JsString Json JsonParse CodexCodec CodexText CodexEvents.
From S2P Require Import CodexCoordination CodexRequests.
#[local] Open Scope Z_scope.

(** ** What the driver uses *)

Class CodecContract := {
  codec_decode : string → exn DecodedServerMessage;
  codec_client_request : string → JsonRpcId → json → exn unit;
  codec_client_response : string → json → exn unit;
  codec_resolution : string → json → exn unit;
  codec_ready : exn unit
}.

(** The codec in any state of its cache. *)
Definition codec_contract {JT : JsonText} syntaxError readSchema compile (c : CodexProtocolCodec) : CodecContract := {|
  codec_decode raw := (decode syntaxError readSchema compile c raw).2;
  codec_client_request method id params := (assertClientRequest readSchema compile c method id params).2;
  codec_client_response method result := (assertClientResponse readSchema compile c method result).2;
  codec_resolution method result := (assertServerRequestResolution readSchema compile c method result).2;
  codec_ready := (assertConsumedContractReady readSchema compile c).2
|}.

(** The mapping of events and the evidence kept of raw messages, and the driver's
    options. *)
Class DriverEnvironment := {
  map_notification : string → json → json → Z → bool → NeutralExternalRuntimeEvent;
  map_unsupported : JsonRpcId → string → json → json → Z → NeutralExternalRuntimeEvent;
  raw_detail : json → BoundedRawDetail;
  requestTimeoutMs : Z;
  maxPendingRequests : nat;
  clientInfo : json;
  (** [CODEX_APP_SERVER_PROTOCOL] *)
  app_server_protocol : json;
  (** [randomUUID()], measured durations and the time of a probe *)
  sentinelThreadId : string;
  measured : string → Z;
  completedAt : string
}.

Inductive CodexDriverState := disconnected | connecting | ready | incompatible | closed.
#[global] Instance state_eq : EqDecision CodexDriverState.
Proof. solve_decision. Defined.

Definition state_name (s : CodexDriverState) : string :=
  match s with
  | disconnected => "disconnected" | connecting => "connecting" | ready => "ready"
  | incompatible => "incompatible" | closed => "closed"
  end.

Inductive fault_reason :=
| protocol_fault (r : protocol_reason)
| malformed_server_request_resolution
| duplicate_response
| unknown_response
| transport_error.

Inductive ServerRequestResolution :=
| Success (result : json)
| Failure (code : Z) (message : string) (data : json).

Record ControllerAuthorization := {
  accepted : bool;
  retryable : bool;
  reasonCode : option string;
  auth_message : option string
}.

(** ** The compatibility probe *)

Inductive probe_outcome := passed | transport_retryable | probe_incompatible.
#[global] Instance outcome_eq : EqDecision probe_outcome.
Proof. solve_decision. Defined.

Inductive step_status := step_passed | step_skipped | step_failed.
#[global] Instance status_eq : EqDecision step_status.
Proof. solve_decision. Defined.

Record ProbeStep := {
  stepId : string;
  status : step_status;
  durationMs : Z;
  step_reason : option string;
  detail : option string
}.

Record ProbeReport := { outcome : probe_outcome; steps : list ProbeStep; report_completedAt : string }.

Definition skippedProbeStep (id : string) : ProbeStep :=
  {| stepId := id; status := step_skipped; durationMs := 0;
     step_reason := Some "previous_required_probe_failed"; detail := None |}.

Definition isExpectedMissingThreadError (e : js_error) (threadId : string) (read : bool) : bool :=
  match e with
  | RpcError code message _ =>
      String.eqb code "-32600"
      && String.eqb message (if read then "thread not loaded: " +:+ threadId
                             else "no rollout found for thread id " +:+ threadId)
  | _ => false
  end.

(** The requests of the probe: step, method, parameters, the RPC error it accepts. *)
Record probe_request := {
  probe_step : string;
  probe_method : string;
  probe_params : json;
  probe_accepts : js_error → bool
}.

(** ** Tasks, outputs, state *)

(** Who awaits: the chain of received messages, a detached server request, or nobody. *)
Inductive owner := Chain | Detached | Free.
#[global] Instance owner_eq : EqDecision owner.
Proof. solve_decision. Defined.

(** A server request under way, with its transport sequence. *)
Record server_request := {
  sequence : Z;
  server_id : JsonRpcId;
  server_method : string;
  server_request_json : json;
  server_raw : string
}.

Inductive task :=
(* connect *)
| AwaitOpen
| AwaitInitialize (id : JsonRpcId)
| AwaitProbe (attempt : nat) (id : JsonRpcId) (initialized : json) (done : list ProbeStep)
    (current : probe_request) (rest : list probe_request)
| AwaitAuthorize (initialized : json)
| AwaitRejectedClose (e : js_error)
(* the receive chain *)
| AwaitFaultReport (raw : string)
| AwaitEvent (raw : string)
| AwaitEventThenError (id : JsonRpcId) (method : string) (seq : Z) (raw : string)
| AwaitChainSend (raw : string)
(* server requests *)
| AwaitLease (q : server_request)
| AwaitResolution (q : server_request)
| AwaitSecondLease (q : server_request) (resolution : ServerRequestResolution)
| AwaitInvalidFault (q : server_request)
| AwaitReply (q : server_request)
(* failures, disconnects, close *)
| FailFault (o : owner) (message : string) (cause : js_error)
| FailClose (o : owner) (message : string) (cause : js_error)
| AwaitDisconnected (o : owner)
| AwaitClose.

Inductive output :=
| OpenTransport
| CloseTransport
| SentRequest (id : JsonRpcId) (method : string) (params : json)
| SentResult (seq : Z) (id : JsonRpcId) (result : json)
| SentError (seq : Z) (id : JsonRpcId) (code : Z) (message : string) (data : json)
| Notified (e : NeutralExternalRuntimeEvent)
| ReportedFault (r : fault_reason) (message : string) (fatal : bool) (raw : option BoundedRawDetail)
| AskedResolution (seq : Z) (id : JsonRpcId) (request : json) (raw : BoundedRawDetail)
| AskedAuthorization (identity : json) (report : ProbeReport)
| Disconnected (reason : string) (clientIds serverIds : list JsonRpcId)
| ConnectReturned (r : exn json).

Record Driver := {
  requests : Requests;
  state : CodexDriverState;
  disconnectNotified : bool;
  disconnectCause : option js_error;
  pendingServerRequests : list JsonRpcId;
  transportSequence : Z;
  lastCompatibilityProbe : option ProbeReport;
  (** aborted signals with their reasons, the number of connection attempts, and the
      attempts whose probe timer runs *)
  aborted : jsmap signal js_error;
  attempts : nat;
  probeTimers : list nat;
  (** messages waiting for the receive chain, and the error it was left with *)
  chainQueue : list string;
  chainError : option js_error;
  tasks : list task;
  outputs : list output
}.

(** Assignments to the driver's fields. *)
Definition set_requests (x : Requests) (d : Driver) : Driver :=
  {| requests := x; state := state d; disconnectNotified := disconnectNotified d; disconnectCause :=
     disconnectCause d; pendingServerRequests := pendingServerRequests d; transportSequence :=
     transportSequence d; lastCompatibilityProbe := lastCompatibilityProbe d; aborted := aborted d;
     attempts := attempts d; probeTimers := probeTimers d; chainQueue := chainQueue d; chainError :=
     chainError d; tasks := tasks d; outputs := outputs d |}.
Definition set_state (x : CodexDriverState) (d : Driver) : Driver :=
  {| requests := requests d; state := x; disconnectNotified := disconnectNotified d; disconnectCause
     := disconnectCause d; pendingServerRequests := pendingServerRequests d; transportSequence :=
     transportSequence d; lastCompatibilityProbe := lastCompatibilityProbe d; aborted := aborted d;
     attempts := attempts d; probeTimers := probeTimers d; chainQueue := chainQueue d; chainError :=
     chainError d; tasks := tasks d; outputs := outputs d |}.
Definition set_disconnectNotified (x : bool) (d : Driver) : Driver :=
  {| requests := requests d; state := state d; disconnectNotified := x; disconnectCause :=
     disconnectCause d; pendingServerRequests := pendingServerRequests d; transportSequence :=
     transportSequence d; lastCompatibilityProbe := lastCompatibilityProbe d; aborted := aborted d;
     attempts := attempts d; probeTimers := probeTimers d; chainQueue := chainQueue d; chainError :=
     chainError d; tasks := tasks d; outputs := outputs d |}.
Definition set_disconnectCause (x : option js_error) (d : Driver) : Driver :=
  {| requests := requests d; state := state d; disconnectNotified := disconnectNotified d;
     disconnectCause := x; pendingServerRequests := pendingServerRequests d; transportSequence :=
     transportSequence d; lastCompatibilityProbe := lastCompatibilityProbe d; aborted := aborted d;
     attempts := attempts d; probeTimers := probeTimers d; chainQueue := chainQueue d; chainError :=
     chainError d; tasks := tasks d; outputs := outputs d |}.
Definition set_pendingServerRequests (x : list JsonRpcId) (d : Driver) : Driver :=
  {| requests := requests d; state := state d; disconnectNotified := disconnectNotified d;
     disconnectCause := disconnectCause d; pendingServerRequests := x; transportSequence :=
     transportSequence d; lastCompatibilityProbe := lastCompatibilityProbe d; aborted := aborted d;
     attempts := attempts d; probeTimers := probeTimers d; chainQueue := chainQueue d; chainError :=
     chainError d; tasks := tasks d; outputs := outputs d |}.
Definition set_transportSequence (x : Z) (d : Driver) : Driver :=
  {| requests := requests d; state := state d; disconnectNotified := disconnectNotified d;
     disconnectCause := disconnectCause d; pendingServerRequests := pendingServerRequests d;
     transportSequence := x; lastCompatibilityProbe := lastCompatibilityProbe d; aborted := aborted
     d; attempts := attempts d; probeTimers := probeTimers d; chainQueue := chainQueue d; chainError
     := chainError d; tasks := tasks d; outputs := outputs d |}.
Definition set_lastCompatibilityProbe (x : option ProbeReport) (d : Driver) : Driver :=
  {| requests := requests d; state := state d; disconnectNotified := disconnectNotified d;
     disconnectCause := disconnectCause d; pendingServerRequests := pendingServerRequests d;
     transportSequence := transportSequence d; lastCompatibilityProbe := x; aborted := aborted d;
     attempts := attempts d; probeTimers := probeTimers d; chainQueue := chainQueue d; chainError :=
     chainError d; tasks := tasks d; outputs := outputs d |}.
Definition set_aborted (x : jsmap signal js_error) (d : Driver) : Driver :=
  {| requests := requests d; state := state d; disconnectNotified := disconnectNotified d;
     disconnectCause := disconnectCause d; pendingServerRequests := pendingServerRequests d;
     transportSequence := transportSequence d; lastCompatibilityProbe := lastCompatibilityProbe d;
     aborted := x; attempts := attempts d; probeTimers := probeTimers d; chainQueue := chainQueue d;
     chainError := chainError d; tasks := tasks d; outputs := outputs d |}.
Definition set_attempts (x : nat) (d : Driver) : Driver :=
  {| requests := requests d; state := state d; disconnectNotified := disconnectNotified d;
     disconnectCause := disconnectCause d; pendingServerRequests := pendingServerRequests d;
     transportSequence := transportSequence d; lastCompatibilityProbe := lastCompatibilityProbe d;
     aborted := aborted d; attempts := x; probeTimers := probeTimers d; chainQueue := chainQueue d;
     chainError := chainError d; tasks := tasks d; outputs := outputs d |}.
Definition set_probeTimers (x : list nat) (d : Driver) : Driver :=
  {| requests := requests d; state := state d; disconnectNotified := disconnectNotified d;
     disconnectCause := disconnectCause d; pendingServerRequests := pendingServerRequests d;
     transportSequence := transportSequence d; lastCompatibilityProbe := lastCompatibilityProbe d;
     aborted := aborted d; attempts := attempts d; probeTimers := x; chainQueue := chainQueue d;
     chainError := chainError d; tasks := tasks d; outputs := outputs d |}.
Definition set_chainQueue (x : list string) (d : Driver) : Driver :=
  {| requests := requests d; state := state d; disconnectNotified := disconnectNotified d;
     disconnectCause := disconnectCause d; pendingServerRequests := pendingServerRequests d;
     transportSequence := transportSequence d; lastCompatibilityProbe := lastCompatibilityProbe d;
     aborted := aborted d; attempts := attempts d; probeTimers := probeTimers d; chainQueue := x;
     chainError := chainError d; tasks := tasks d; outputs := outputs d |}.
Definition set_chainError (x : option js_error) (d : Driver) : Driver :=
  {| requests := requests d; state := state d; disconnectNotified := disconnectNotified d;
     disconnectCause := disconnectCause d; pendingServerRequests := pendingServerRequests d;
     transportSequence := transportSequence d; lastCompatibilityProbe := lastCompatibilityProbe d;
     aborted := aborted d; attempts := attempts d; probeTimers := probeTimers d; chainQueue :=
     chainQueue d; chainError := x; tasks := tasks d; outputs := outputs d |}.
Definition set_tasks (x : list task) (d : Driver) : Driver :=
  {| requests := requests d; state := state d; disconnectNotified := disconnectNotified d;
     disconnectCause := disconnectCause d; pendingServerRequests := pendingServerRequests d;
     transportSequence := transportSequence d; lastCompatibilityProbe := lastCompatibilityProbe d;
     aborted := aborted d; attempts := attempts d; probeTimers := probeTimers d; chainQueue :=
     chainQueue d; chainError := chainError d; tasks := x; outputs := outputs d |}.
Definition set_outputs (x : list output) (d : Driver) : Driver :=
  {| requests := requests d; state := state d; disconnectNotified := disconnectNotified d;
     disconnectCause := disconnectCause d; pendingServerRequests := pendingServerRequests d;
     transportSequence := transportSequence d; lastCompatibilityProbe := lastCompatibilityProbe d;
     aborted := aborted d; attempts := attempts d; probeTimers := probeTimers d; chainQueue :=
     chainQueue d; chainError := chainError d; tasks := tasks d; outputs := x |}.

Definition await (t : task) (d : Driver) : Driver := set_tasks (tasks d ++ [t]) d.
Definition emit (o : output) (d : Driver) : Driver := set_outputs (outputs d ++ [o]) d.
Definition on_requests (f : Requests → Requests) (d : Driver) : Driver := set_requests (f (requests d)) d.

Definition new_driver : Driver :=
  {| requests := no_requests; state := disconnected; disconnectNotified := false; disconnectCause := None;
     pendingServerRequests := []; transportSequence := 0; lastCompatibilityProbe := None; aborted := [];
     attempts := 0; probeTimers := []; chainQueue := []; chainError := None; tasks := []; outputs := [] |}.

Section Driver.
Context {CC : CodecContract} {env : DriverEnvironment}.

(** ** Requests *)

(** [#request] up to its await of [transport.send]: the id of the request, or the error. *)
Definition request (method : string) (params : json) (sig : option signal) (requireReady : bool) (d : Driver)
    : Driver * exn JsonRpcId :=
  if requireReady && negb (bool_decide (state d = ready)) then
    (d, Raise (PlainError ("Codex driver is not ready (" +:+ state_name (state d) +:+ ")")))
  else if negb requireReady && negb (bool_decide (state d = connecting)) then
    (d, Raise (PlainError ("Codex driver cannot initialize from " +:+ state_name (state d))))
  else if (maxPendingRequests <=? length (pending (requests d)))%nat then
    (d, Raise (PlainError "Codex driver pending request capacity exceeded"))
  else
    match (s ← sig; map_get s (aborted d)) with
    | Some reason => (d, Raise reason)
    | None =>
        let id := request_id (nextRequestId (requests d)) in
        let d1 := on_requests take_id d in
        match codec_client_request method id params with
        | Raise e => (d1, Raise e)
        | Done _ =>
            (emit (SentRequest id method params)
               (on_requests (open_request id {| pending_method := method; pending_signal := sig |}) d1),
             Done id)
        end
    end.

Inductive ClientMethod :=
| threadList | modelList | collaborationModeList | loadedThreadList | threadRead | threadArchive
| threadDelete | threadUnarchive | threadStart | threadResume | threadFork | threadSetName
| threadTurnsList | threadItemsList | turnStart | turnSteer | turnInterrupt | compactThread
| threadSettingsUpdate.

Definition method_name (m : ClientMethod) : string :=
  match m with
  | threadList => "thread/list"
  | modelList => "model/list"
  | collaborationModeList => "collaborationMode/list"
  | loadedThreadList => "thread/loaded/list"
  | threadRead => "thread/read"
  | threadArchive => "thread/archive"
  | threadDelete => "thread/delete"
  | threadUnarchive => "thread/unarchive"
  | threadStart => "thread/start"
  | threadResume => "thread/resume"
  | threadFork => "thread/fork"
  | threadSetName => "thread/name/set"
  | threadTurnsList => "thread/turns/list"
  | threadItemsList => "thread/items/list"
  | turnStart => "turn/start"
  | turnSteer => "turn/steer"
  | turnInterrupt => "turn/interrupt"
  | compactThread => "thread/compact/start"
  | threadSettingsUpdate => "thread/settings/update"
  end.

(** A dynamic tool in the namespace that Codex keeps for itself. *)
Definition reserved_namespace (tool : json) : bool :=
  is_string "namespace" (opt_member tool "type") && is_string "mcp" (opt_member tool "name").

Definition client_call (m : ClientMethod) (params : json) (sig : option signal) (d : Driver)
    : Driver * exn JsonRpcId :=
  match m with
  | threadStart =>
      if existsb reserved_namespace (arrayValue (opt_member params "dynamicTools")) then
        (d, Raise (PlainError
          "dynamic tool namespace mcp is reserved by Codex; use an adapter-owned namespace"))
      else request (method_name m) params sig true d
  | _ => request (method_name m) params sig true d
  end.

(** ** Disconnecting *)

(** [#disconnect] up to its await of [onDisconnected]. *)
Definition disconnect (reason : string) (cause : option js_error) (o : owner) (d : Driver) : Driver :=
  let d := match cause with Some e => set_disconnectCause (Some e) d | None => d end in
  if disconnectNotified d then d
  else
    let d := set_disconnectNotified true d in
    let d := match state d with closed | incompatible => d | _ => set_state disconnected d end in
    let ids := map_keys (pending (requests d)) in
    let failure := default (PlainError ("Codex app-server disconnected: " +:+ reason)) (disconnectCause d) in
    await (AwaitDisconnected o)
      (emit (Disconnected reason ids (pendingServerRequests d))
         (on_requests (reject_all failure) d)).

(** [error instanceof Error ? error : new Error(String(error))] *)
Definition as_error (e : js_error) : js_error :=
  match e with ThrownValue s => PlainError s | _ => e end.

(** [#handleReceiveFailure] up to its first await. *)
Definition handleReceiveFailure (o : owner) (e : js_error) (raw : string) (d : Driver) : Driver :=
  let reason := match e with ProtocolError r _ _ => r | _ => malformed_message end in
  let message := error_string e in
  await (FailFault o message (as_error e))
    (emit (ReportedFault (protocol_fault reason) message true (Some (raw_detail (JString raw))))
       (set_disconnectCause (Some (as_error e)) (set_state incompatible d))).

(** [onClose] and [onError] *)
Definition on_close (reason : string) (d : Driver) : Driver := disconnect reason None Free d.

Definition on_error (message : string) (d : Driver) : Driver :=
  let error := PlainError message in
  disconnect ("transport error: " +:+ message) (Some error) Free
    (emit (ReportedFault transport_error message true None) (set_disconnectCause (Some error) d)).

Definition close (d : Driver) : Driver :=
  if bool_decide (state d = closed) then d
  else await AwaitClose (emit CloseTransport (set_state closed d)).

(** ** Connecting *)

Definition probe_requests : list probe_request := [
  {| probe_step := "model_list"; probe_method := "model/list";
     probe_params := JObject [("limit", JNumber "1")]; probe_accepts := λ _, false |};
  {| probe_step := "thread_list"; probe_method := "thread/list";
     probe_params := JObject [("limit", JNumber "1"); ("useStateDbOnly", JBool true)];
     probe_accepts := λ _, false |};
  {| probe_step := "thread_read"; probe_method := "thread/read";
     probe_params := JObject [("threadId", JString sentinelThreadId); ("includeTurns", JBool false)];
     probe_accepts := λ e, isExpectedMissingThreadError e sentinelThreadId true |};
  {| probe_step := "thread_resume"; probe_method := "thread/resume";
     probe_params := JObject [("threadId", JString sentinelThreadId); ("excludeTurns", JBool true)];
     probe_accepts := λ e, isExpectedMissingThreadError e sentinelThreadId false |}
].

(** The closure [run] of the probe: the step it records, and the outcome if it failed. *)
Definition run_probe_step (id : string) (accepts : js_error → bool) (timed_out : bool) (r : option js_error)
    : ProbeStep * option probe_outcome :=
  let ms := Z.max 0 (measured id) in
  match r with
  | None => ({| stepId := id; status := step_passed; durationMs := ms; step_reason := None; detail := None |}, None)
  | Some e =>
      if accepts e then
        ({| stepId := id; status := step_passed; durationMs := ms; step_reason := None;
            detail := Some "method recognized; sentinel resource was rejected" |}, None)
      else
        let retryable := timed_out || match e with ProtocolError _ _ _ | RpcError _ _ _ => false | _ => true end in
        ({| stepId := id; status := step_failed; durationMs := ms;
            step_reason := Some (if retryable then "external_runtime_probe_transport_retryable"
                                 else match e with
                                      | RpcError code _ _ =>
                                          if String.eqb code "-32601"
                                          then "external_runtime_required_method_missing"
                                          else "external_runtime_required_contract_incompatible"
                                      | _ => "external_runtime_required_contract_incompatible"
                                      end);
            detail := Some (Str.slice (error_string e) 0 1024) |},
         Some (if retryable then transport_retryable else probe_incompatible))
  end.

Definition error_of {A} (r : exn A) : option js_error := match r with Done _ => None | Raise e => Some e end.

Definition identity_of (initialized : json) : json :=
  JObject [("userAgent", opt_member initialized "userAgent"); ("codexHome", opt_member initialized "codexHome");
           ("platformFamily", opt_member initialized "platformFamily");
           ("platformOs", opt_member initialized "platformOs"); ("protocol", app_server_protocol)].

(** The end of the probe and the call of [authorizeHandshake]. *)
Definition finish_probe (attempt : nat) (initialized : json) (done : list ProbeStep) (o : probe_outcome)
    (d : Driver) : Driver :=
  let report := {| outcome := o; steps := done; report_completedAt := completedAt |} in
  await (AwaitAuthorize initialized)
    (emit (AskedAuthorization (identity_of initialized) report)
       (set_lastCompatibilityProbe (Some report)
          (set_probeTimers (set_delete attempt (probeTimers d)) d))).

Definition skip_rest (rest : list probe_request) : list ProbeStep := map (λ q, skippedProbeStep (probe_step q)) rest.

(** The probe's remaining requests, up to the next await. *)
Fixpoint probe_next (attempt : nat) (initialized : json) (done : list ProbeStep) (todo : list probe_request)
    (d : Driver) : Driver :=
  match todo with
  | [] => finish_probe attempt initialized done passed d
  | q :: rest =>
      match request (probe_method q) (probe_params q) (Some (ProbeSignal attempt)) false d with
      | (d1, Done id) => await (AwaitProbe attempt id initialized done q rest) d1
      | (d1, Raise e) =>
          let timed_out := map_has (ProbeSignal attempt) (aborted d1) in
          let '(s, failed) := run_probe_step (probe_step q) (probe_accepts q) timed_out (Some e) in
          match failed with
          | Some o => finish_probe attempt initialized (done ++ s :: skip_rest rest) o d1
          | None => probe_next attempt initialized (done ++ [s]) rest d1
          end
      end
  end.

(** A request of the probe has settled. *)
Definition probe_settled (attempt : nat) (initialized : json) (done : list ProbeStep) (q : probe_request)
    (rest : list probe_request) (e : option js_error) (d : Driver) : Driver :=
  let timed_out := map_has (ProbeSignal attempt) (aborted d) in
  let '(s, failed) := run_probe_step (probe_step q) (probe_accepts q) timed_out e in
  match failed with
  | Some o => finish_probe attempt initialized (done ++ s :: skip_rest rest) o d
  | None => probe_next attempt initialized (done ++ [s]) rest d
  end.

(** [#runCompatibilityProbe] from its start. *)
Definition runCompatibilityProbe (initialized : json) (d : Driver) : Driver :=
  let attempt := attempts d in
  let d := set_probeTimers (set_add attempt (probeTimers d)) d in
  let never := λ _ : js_error, false in
  let '(s1, f1) := run_probe_step "consumed_codec" never false (error_of codec_ready) in
  match f1 with
  | Some o =>
      finish_probe attempt initialized (s1 :: skippedProbeStep "dynamic_tools" :: skip_rest probe_requests) o d
  | None =>
      let '(s2, f2) := run_probe_step "dynamic_tools" never false (error_of assertDynamicToolReadiness) in
      match f2 with
      | Some o => finish_probe attempt initialized (s1 :: s2 :: skip_rest probe_requests) o d
      | None => probe_next attempt initialized [s1; s2] probe_requests d
      end
  end.

Definition connect_begin (d : Driver) : Driver :=
  if negb (bool_decide (state d = disconnected)) then
    emit (ConnectReturned (Raise (PlainError ("cannot connect Codex driver from " +:+ state_name (state d))))) d
  else
    await AwaitOpen
      (emit OpenTransport
         (set_attempts (S (attempts d))
            (set_disconnectCause None (set_disconnectNotified false (set_state connecting d))))).

(** The [catch] of [connect]. *)
Definition connect_failed (e : js_error) (d : Driver) : Driver :=
  emit (ConnectReturned (Raise e))
    (if bool_decide (state d = incompatible) then d else set_state disconnected d).

Definition initialize_params : json :=
  JObject [("clientInfo", clientInfo);
           ("capabilities", JObject [("experimentalApi", JBool true); ("requestAttestation", JBool false);
                                     ("mcpServerOpenaiFormElicitation", JBool true)])].

Definition opened (d : Driver) : Driver :=
  match request "initialize" initialize_params None false d with
  | (d1, Done id) => await (AwaitInitialize id) d1
  | (d1, Raise e) => connect_failed e d1
  end.

Definition authorized (a : ControllerAuthorization) (initialized : json) (d : Driver) : Driver :=
  if accepted a then emit (ConnectReturned (Done initialized)) (set_state ready d)
  else
    let message := default "codex_protocol_incompatible" (reasonCode a) +:+ ": "
                   +:+ default "Rust authority rejected Codex app-server handshake" (auth_message a) in
    await (AwaitRejectedClose (PlainError message))
      (emit CloseTransport (set_state (if retryable a then disconnected else incompatible) d)).

(** ** Receiving *)

Definition sendError (seq : Z) (id : JsonRpcId) (code : Z) (message : string) (data : json) (d : Driver) : Driver :=
  emit (SentError seq id code message data) d.

Definition no_lease_message : string := "Rusty Crew controller does not hold the active runtime lease".

(** [#handleDetachedServerRequest] and [#handleServerRequest] up to the first await. *)
Definition handleServerRequest (q : server_request) (d : Driver) : Driver :=
  if bool_decide (state d = ready) then await (AwaitLease q) d
  else await (AwaitReply q) (sendError (sequence q) (server_id q) (-32001) no_lease_message JUndefined d).

Definition lease_answered (q : server_request) (held : bool) (d : Driver) : Driver :=
  if held then
    await (AwaitResolution q)
      (emit (AskedResolution (sequence q) (server_id q) (server_request_json q) (raw_detail (server_request_json q)))
         (set_pendingServerRequests (set_add (server_id q) (pendingServerRequests d)) d))
  else await (AwaitReply q) (sendError (sequence q) (server_id q) (-32001) no_lease_message JUndefined d).

Definition resolution_answered (q : server_request) (r : ServerRequestResolution) (d : Driver) : Driver :=
  let d := set_pendingServerRequests (set_delete (server_id q) (pendingServerRequests d)) d in
  if bool_decide (state d = ready) then await (AwaitSecondLease q r) d else d.

Definition second_lease_answered (q : server_request) (r : ServerRequestResolution) (held : bool) (d : Driver)
    : Driver :=
  if negb held then d
  else
    match r with
    | Failure code message data =>
        await (AwaitReply q) (sendError (sequence q) (server_id q) code message data d)
    | Success result =>
        match codec_resolution (server_method q) result with
        | Done _ => await (AwaitReply q) (emit (SentResult (sequence q) (server_id q) result) d)
        | Raise e =>
            await (AwaitInvalidFault q)
              (emit (ReportedFault malformed_server_request_resolution (error_string e) false
                       (Some (raw_detail result))) d)
        end
    end.

Definition invalid_fault_reported (q : server_request) (d : Driver) : Driver :=
  await (AwaitReply q)
    (sendError (sequence q) (server_id q) (-32603)
       "Crew produced an invalid response for the app-server request" JUndefined d).

Definition handleResponse (r : JsonRpcResponseMessage) (raw : string) (d : Driver) : Driver :=
  let id := response_id r in
  match map_get id (pending (requests d)) with
  | None =>
      let duplicate := set_has id (completedResponseIds (requests d)) in
      await (AwaitFaultReport raw)
        (emit (ReportedFault (if duplicate then duplicate_response else unknown_response)
                 ((if duplicate then "duplicate" else "unknown") +:+ " app-server response id "
                  +:+ match id with IdString s | IdNumber s => s end)
                 false (Some (raw_detail (JString raw)))) d)
  | Some p =>
      match response_error r with
      | Some (code, message, data) => on_requests (respond id (Rejected (RpcError code message data))) d
      | None =>
          match codec_client_response (pending_method p) (response_result r) with
          | Done _ => on_requests (respond id (Resolved (response_result r))) d
          | Raise e => handleReceiveFailure Chain e raw (on_requests (respond id (Rejected e)) d)
          end
      end
  end.

(** The object the codec returned for an unknown method, as [rawDetail] captures it. *)
Definition unknown_json (kind : string) (id : option JsonRpcId) (method : string) (params : json) : json :=
  JObject ([("type", JString kind)] ++ match id with Some i => [("id", id_json i)] | None => [] end
           ++ [("method", JString method); ("params", params)]).

Definition receive (raw : string) (d : Driver) : Driver :=
  let seq := transportSequence d + 1 in
  let d := set_transportSequence seq d in
  match codec_decode raw with
  | Raise e => handleReceiveFailure Chain e raw d
  | Done (DResponse r) => handleResponse r raw d
  | Done (DRequest id method request) =>
      handleServerRequest {| sequence := seq; server_id := id; server_method := method;
                             server_request_json := request; server_raw := raw |} d
  | Done (DUnknownRequest id method params) =>
      await (AwaitEventThenError id method seq raw)
        (emit (Notified (map_unsupported id method params
                           (unknown_json "unknown_request" (Some id) method params) seq)) d)
  | Done (DNotification method notification) =>
      await (AwaitEvent raw)
        (emit (Notified (map_notification method (opt_member notification "params") notification seq true)) d)
  | Done (DUnknownNotification method params) =>
      await (AwaitEvent raw)
        (emit (Notified (map_notification method params
                           (unknown_json "unknown_notification" None method params) seq false)) d)
  end.

(** The chain takes up its next message: the previous one may have left an error. *)
Definition chain_next (d : Driver) : Driver :=
  match chainQueue d with
  | [] => d
  | raw :: queue =>
      let d := set_chainQueue queue d in
      match chainError d with
      | None => receive raw d
      | Some e => handleReceiveFailure Chain e raw (set_chainError None d)
      end
  end.

(** ** Steps *)

Inductive answer :=
| Fulfilled
| RejectedWith (e : js_error)
| LeaseIs (held : bool)
| ResolutionIs (r : ServerRequestResolution)
| AuthorizationIs (a : ControllerAuthorization).

Inductive event :=
| Connect
| Close
| ClientCall (m : ClientMethod) (params : json) (sig : option nat)
| SendSettled (id : JsonRpcId) (failure : option js_error)
| TimerFired (id : JsonRpcId)
| ProbeTimerFired (attempt : nat)
| Abort (n : nat) (reason : js_error)
| OnMessage (raw : string)
| OnClose (reason : string)
| OnError (message : string)
| ChainStep
| Resume (k : nat) (a : answer).

(** The failure of a method that [o] awaits. *)
Definition leave_chain (o : owner) (e : js_error) (d : Driver) : Driver :=
  match o with Chain => set_chainError (Some e) d | _ => d end.

(** How the promise of a request was settled. *)
Definition settlement_of (id : JsonRpcId) (d : Driver) : option settlement := map_get id (settled (requests d)).

(** The rest of a method after its await. *)
Definition continue_task (t : task) (a : answer) (d : Driver) : Driver :=
  match t, a with
  | AwaitOpen, Fulfilled => opened d
  | AwaitOpen, RejectedWith e => connect_failed e d
  | AwaitInitialize id, _ =>
      match settlement_of id d with
      | Some (Resolved initialized) => runCompatibilityProbe initialized d
      | Some (Rejected e) => connect_failed e d
      | None => d
      end
  | AwaitProbe attempt id initialized done q rest, _ =>
      match settlement_of id d with
      | Some (Resolved _) => probe_settled attempt initialized done q rest None d
      | Some (Rejected e) => probe_settled attempt initialized done q rest (Some e) d
      | None => d
      end
  | AwaitAuthorize initialized, AuthorizationIs a => authorized a initialized d
  | AwaitAuthorize _, RejectedWith e => connect_failed e d
  | AwaitRejectedClose e, Fulfilled => connect_failed e d
  | AwaitRejectedClose _, RejectedWith e => connect_failed e d
  | AwaitFaultReport raw, RejectedWith e => handleReceiveFailure Chain e raw d
  | AwaitEvent raw, RejectedWith e => handleReceiveFailure Chain e raw d
  | AwaitEventThenError id method seq raw, Fulfilled =>
      await (AwaitChainSend raw)
        (sendError seq id (-32601) ("unsupported app-server request " +:+ method) JUndefined d)
  | AwaitEventThenError _ _ _ raw, RejectedWith e => handleReceiveFailure Chain e raw d
  | AwaitChainSend raw, RejectedWith e => handleReceiveFailure Chain e raw d
  | AwaitLease q, LeaseIs held => lease_answered q held d
  | AwaitLease q, RejectedWith e => handleReceiveFailure Detached e (server_raw q) d
  | AwaitResolution q, ResolutionIs r => resolution_answered q r d
  | AwaitResolution q, RejectedWith e =>
      resolution_answered q
        (Failure (-32603) ("Crew server-request authority failed: " +:+ error_string e) JUndefined) d
  | AwaitSecondLease q r, LeaseIs held => second_lease_answered q r held d
  | AwaitSecondLease q _, RejectedWith e => handleReceiveFailure Detached e (server_raw q) d
  | AwaitInvalidFault q, Fulfilled => invalid_fault_reported q d
  | AwaitInvalidFault q, RejectedWith e => handleReceiveFailure Detached e (server_raw q) d
  | AwaitReply q, RejectedWith e => handleReceiveFailure Detached e (server_raw q) d
  | FailFault o message cause, Fulfilled => await (FailClose o message cause) (emit CloseTransport d)
  | FailFault o _ _, RejectedWith e => leave_chain o e d
  | FailClose o message cause, Fulfilled => disconnect ("protocol failure: " +:+ message) (Some cause) o d
  | FailClose o _ _, RejectedWith e => leave_chain o e d
  | AwaitDisconnected _, Fulfilled => set_pendingServerRequests [] d
  | AwaitDisconnected o, RejectedWith e => leave_chain o e d
  | AwaitClose, Fulfilled => disconnect "controller closed" None Free d
  | _, _ => d
  end.

(** What a task can be answered with. *)
Definition answers (t : task) (a : answer) (d : Driver) : bool :=
  match t, a with
  | AwaitInitialize id, Fulfilled | AwaitProbe _ id _ _ _ _, Fulfilled =>
      match settlement_of id d with Some _ => negb (set_has id (sending (requests d))) | None => false end
  | AwaitInitialize _, _ | AwaitProbe _ _ _ _ _ _, _ => false
  | AwaitAuthorize _, AuthorizationIs _ => true
  | AwaitLease _, LeaseIs _ | AwaitSecondLease _ _, LeaseIs _ => true
  | AwaitResolution _, ResolutionIs _ => true
  | AwaitAuthorize _, Fulfilled | AwaitLease _, Fulfilled | AwaitSecondLease _ _, Fulfilled
  | AwaitResolution _, Fulfilled => false
  | _, Fulfilled | _, RejectedWith _ => true
  | _, _ => false
  end.

(** The chain is busy while one of its messages is under way. *)
Definition chain_task (t : task) : bool :=
  match t with
  | AwaitFaultReport _ | AwaitEvent _ | AwaitEventThenError _ _ _ _ | AwaitChainSend _
  | FailFault Chain _ _ | FailClose Chain _ _ | AwaitDisconnected Chain => true
  | _ => false
  end.

Definition enabled (d : Driver) (e : event) : bool :=
  match e with
  | SendSettled id _ => set_has id (sending (requests d))
  | TimerFired id => set_has id (timers (requests d))
  | ProbeTimerFired attempt => set_has attempt (probeTimers d)
  | Abort n _ => negb (map_has (ClientSignal n) (aborted d))
  | ChainStep => negb (bool_decide (chainQueue d = [])) && negb (existsb chain_task (tasks d))
  | Resume k a => match tasks d !! k with Some t => answers t a d | None => false end
  | _ => true
  end.

Definition abort_signal (s : signal) (reason : js_error) (d : Driver) : Driver :=
  on_requests (abort s reason) (set_aborted (map_set s reason (aborted d)) d).

Definition handle (e : event) (d : Driver) : Driver :=
  match e with
  | Connect => connect_begin d
  | Close => close d
  | ClientCall m params sig => (client_call m params (ClientSignal <$> sig) d).1
  | SendSettled id failure => on_requests (send_settled id failure) d
  | TimerFired id => on_requests (timeout requestTimeoutMs id) d
  | ProbeTimerFired attempt =>
      abort_signal (ProbeSignal attempt) (PlainError "compatibility probe timed out")
        (set_probeTimers (set_delete attempt (probeTimers d)) d)
  | Abort n reason => abort_signal (ClientSignal n) reason d
  | OnMessage raw => set_chainQueue (chainQueue d ++ [raw]) d
  | OnClose reason => on_close reason d
  | OnError message => on_error message d
  | ChainStep => chain_next d
  | Resume k a =>
      match tasks d !! k with
      | Some t => continue_task t a (set_tasks (delete k (tasks d)) d)
      | None => d
      end
  end.

Inductive step (d : Driver) : Driver → Prop :=
| step_event e : enabled d e = true → step d (handle e d).

Inductive reachable : Driver → Prop :=
| reachable_new : reachable new_driver
| reachable_step d d' : reachable d → step d d' → reachable d'.

End Driver.

(** The driver reaches its codec through answers that do not depend on the validators
    cached so far, so the fixed answers of [codec_contract] are those of the codec at
    any later time. *)
Lemma codec_contract_stable {JT : JsonText} syntaxError readSchema compile (c c' : CodexProtocolCodec) :
  coherent readSchema compile c → same_contract readSchema compile c c' →
  let k := codec_contract syntaxError readSchema compile c in
  let k' := codec_contract syntaxError readSchema compile c' in
  (∀ raw, @codec_decode k' raw = @codec_decode k raw)
  ∧ (∀ method id params, @codec_client_request k' method id params = @codec_client_request k method id params)
  ∧ (∀ method result, @codec_client_response k' method result = @codec_client_response k method result)
  ∧ (∀ method result, @codec_resolution k' method result = @codec_resolution k method result)
  ∧ @codec_ready k' = @codec_ready k.
Proof.
  intros Hc Hs; pose proof Hs as (Hc' & _ & _); cbn; split_and!.
  - intros raw; by apply decode_stable.
  - intros; by apply assertValid_stable.
  - intros; unfold assertClientResponse; destruct (map_get _ _); [by apply assertValid_stable|done].
  - intros; unfold assertServerRequestResolution; destruct (map_get _ _); [by apply assertValid_stable|done].
  - by apply ready_stable.
Qed.
