(* ===== verification/CodexDriverFacts.v ===== *)
(** * What the Codex driver promises

    Theorems on the driver of [CodexDriver], over all interleavings of its steps: its
    requests stay accounted for and are settled in the end, server requests are answered
    at most once and only with authority, and the compatibility report is complete.
    Then a concrete connection, and the interleavings after which the driver is left in
    a state from which nothing reconnects it. *)

From stdpp Require Import sets.
From S2P Require Import Prelude JsString Json JsonParse CodexCodec CodexText CodexEvents.
From S2P Require Import CodexCoordination CodexRequests CodexDriver.
#[local] Open Scope Z_scope.

Section Facts.
Context {CC : CodecContract} {env : DriverEnvironment}.

(** ** The requests stay accounted for *)

Definition good (d : Driver) : Prop := accounted maxPendingRequests (requests d).

(** [d'] follows from [d] without losing a request or a settlement. *)
Definition evolves (d d' : Driver) : Prop := good d → good d' ∧ grows (requests d) (requests d').

#[local] Instance evolves_po : PreOrder evolves.
Proof.
  split; [by intros d|]; intros d1 d2 d3 H1 H2 Hd; destruct (H1 Hd) as [H Hg]; destruct (H2 H) as [? Hg'].
  split; [done|by etransitivity].
Qed.

Lemma evolves_same d d' : requests d' = requests d → evolves d d'.
Proof. unfold evolves, good; by intros ->. Qed.

Lemma evolves_requests d f :
  (good d → accounted maxPendingRequests (f (requests d))) → grows (requests d) (f (requests d)) →
  evolves d (on_requests f d).
Proof. intros Hf Hg Hd; split; [by apply Hf|done]. Qed.

(** Steps that leave the requests alone, then one that does not. *)
Lemma evolves_via d d1 d' : requests d1 = requests d → evolves d1 d' → evolves d d'.
Proof. intros H1 H2; etransitivity; [by apply evolves_same|done]. Qed.

Lemma evolves_then d d1 d' : evolves d d1 → requests d' = requests d1 → evolves d d'.
Proof. intros H1 H2; etransitivity; [done|by apply evolves_same]. Qed.

Lemma request_evolves method params sig rr d : evolves d (request method params sig rr d).1.
Proof.
  unfold request; destruct (rr && _); [done|]; destruct (negb rr && _); [done|].
  destruct (Nat.leb_spec maxPendingRequests (length (pending (requests d)))); [done|].
  destruct (s ← sig; map_get s (aborted d)); [done|].
  destruct (codec_client_request _ _ _).
  - intros Hd; split; [by apply open_request_accounted|apply open_request_grows].
  - apply evolves_requests; [by apply take_id_accounted|done].
Qed.

Lemma client_call_evolves m params sig d : evolves d (client_call m params sig d).1.
Proof.
  destruct m; cbn [client_call]; try apply request_evolves.
  destruct (existsb _ _); [done|apply request_evolves].
Qed.

Lemma disconnect_evolves reason cause o d : evolves d (disconnect reason cause o d).
Proof.
  unfold disconnect; set (d0 := match cause with Some e => set_disconnectCause (Some e) d | None => d end).
  assert (H0 : requests d0 = requests d) by (by destruct cause).
  destruct (disconnectNotified d0); [by apply evolves_same|].
  set (d1 := match state (set_disconnectNotified true d0) with
             | closed | incompatible => set_disconnectNotified true d0
             | _ => set_state disconnected (set_disconnectNotified true d0) end).
  assert (H1 : requests d1 = requests d) by (unfold d1; by destruct (state _)).
  eapply evolves_via; [exact H1|]; eapply evolves_then; [|reflexivity].
  apply (evolves_requests d1 (reject_all _)); [intros Hd; by apply reject_all_spec|apply reject_all_grows].
Qed.

Lemma on_error_evolves message d : evolves d (on_error message d).
Proof. eapply evolves_via; [|apply disconnect_evolves]; reflexivity. Qed.

Lemma connect_failed_same e d : requests (connect_failed e d) = requests d.
Proof. unfold connect_failed; by destruct (bool_decide _). Qed.

Lemma finish_probe_same a i steps o d : requests (finish_probe a i steps o d) = requests d.
Proof. reflexivity. Qed.

Lemma probe_next_evolves a i steps todo d : evolves d (probe_next a i steps todo d).
Proof.
  revert steps d; induction todo as [|q rest IH]; intros steps d; cbn [probe_next];
    [by apply evolves_same|].
  pose proof (request_evolves (probe_method q) (probe_params q) (Some (ProbeSignal a)) false d) as Hreq.
  destruct (request _ _ _ _ _) as [d1 [id|e]]; cbn [fst] in Hreq; [by eapply evolves_then|].
  destruct (run_probe_step _ _ _ _) as [s [o|]]; [by eapply evolves_then|].
  etransitivity; [exact Hreq|apply IH].
Qed.

Lemma probe_settled_evolves a i steps q rest e d : evolves d (probe_settled a i steps q rest e d).
Proof.
  unfold probe_settled; destruct (run_probe_step _ _ _ _) as [s [o|]]; [by apply evolves_same|apply probe_next_evolves].
Qed.

Lemma runCompatibilityProbe_evolves i d : evolves d (runCompatibilityProbe i d).
Proof.
  unfold runCompatibilityProbe; destruct (run_probe_step "consumed_codec" _ _ _) as [s1 [o1|]]; [by apply evolves_same|].
  destruct (run_probe_step "dynamic_tools" _ _ _) as [s2 [o2|]]; [by apply evolves_same|].
  by eapply evolves_via; [|apply probe_next_evolves].
Qed.

Lemma opened_evolves d : evolves d (opened d).
Proof.
  unfold opened; pose proof (request_evolves "initialize" initialize_params None false d) as Hreq.
  destruct (request _ _ _ _ _) as [d1 [id|e]]; cbn [fst] in Hreq; [by eapply evolves_then|].
  eapply evolves_then; [exact Hreq|apply connect_failed_same].
Qed.

Lemma handleResponse_evolves r raw d : evolves d (handleResponse r raw d).
Proof.
  unfold handleResponse; destruct (map_get _ (pending (requests d))) as [p|] eqn:Hget; [|by apply evolves_same].
  assert (Hresp : ∀ s, evolves d (on_requests (respond (response_id r) s) d)).
  { intros s; apply evolves_requests; [|apply respond_grows].
    intros Hd; apply respond_accounted; [done|]; apply map_get_is_Some; eauto. }
  destruct (response_error r) as [[[code message] data]|]; [apply Hresp|].
  destruct (codec_client_response _ _) as [u|e]; [apply Hresp|].
  eapply evolves_then; [apply (Hresp (Rejected e))|reflexivity].
Qed.

Lemma receive_evolves raw d : evolves d (receive raw d).
Proof.
  unfold receive; destruct (codec_decode raw) as [m|e]; [|by apply evolves_same].
  destruct m; try (by apply evolves_same).
  - by eapply evolves_via; [|apply handleResponse_evolves].
  - unfold handleServerRequest; destruct (bool_decide _); by apply evolves_same.
Qed.

Lemma chain_next_evolves d : evolves d (chain_next d).
Proof.
  unfold chain_next; destruct (chainQueue d) as [|raw queue]; [done|].
  destruct (chainError _); [by apply evolves_same|]; by eapply evolves_via; [|apply receive_evolves].
Qed.

Lemma leave_chain_same o e d : requests (leave_chain o e d) = requests d.
Proof. by destruct o. Qed.

Lemma continue_task_evolves t a d : evolves d (continue_task t a d).
Proof.
  destruct t, a; cbn [continue_task]; try done; try (by apply evolves_same);
    try apply evolves_same, connect_failed_same; try apply evolves_same, leave_chain_same;
    try apply opened_evolves; try apply disconnect_evolves.
  1-10: destruct (settlement_of id d) as [[v|e']|]; try done; try apply evolves_same, connect_failed_same;
    try apply runCompatibilityProbe_evolves; try apply probe_settled_evolves.
  - unfold authorized; destruct (accepted _); by apply evolves_same.
  - unfold lease_answered; destruct held; by apply evolves_same.
  - unfold resolution_answered; cbn zeta; destruct (bool_decide _); by apply evolves_same.
  - unfold resolution_answered; cbn zeta; destruct (bool_decide _); by apply evolves_same.
  - unfold second_lease_answered; destruct held; [|done]; destruct resolution; [|by apply evolves_same].
    cbn [negb]; destruct (codec_resolution _ _); by apply evolves_same.
Qed.

Lemma abort_signal_evolves s reason d : evolves d (abort_signal s reason d).
Proof.
  eapply evolves_via; [|apply (evolves_requests (set_aborted (map_set s reason (aborted d)) d) (abort s reason))];
    [done|apply abort_accounted|apply abort_grows].
Qed.

Lemma handle_evolves e d : enabled d e = true → evolves d (handle e d).
Proof.
  destruct e as [| |m params sig|id failure|id|attempt|n reason|raw|reason|message| |k a]; cbn [enabled handle]; intros He.
  - unfold connect_begin; destruct (negb _); by apply evolves_same.
  - unfold close; destruct (bool_decide _); by apply evolves_same.
  - apply client_call_evolves.
  - apply evolves_requests; [apply send_settled_accounted|apply send_settled_grows].
  - apply set_has_true in He; apply evolves_requests; [|apply settle_grows].
    intros Hd; by apply timeout_accounted.
  - by eapply evolves_via; [|apply abort_signal_evolves].
  - apply abort_signal_evolves.
  - by apply evolves_same.
  - apply disconnect_evolves.
  - apply on_error_evolves.
  - apply chain_next_evolves.
  - destruct (tasks d !! k) as [t|]; [|done]; by eapply evolves_via; [|apply continue_task_evolves].
Qed.

Lemma reachable_good d : reachable d → good d.
Proof.
  induction 1 as [|d d' _ IH [e He]]; [apply no_requests_accounted|]; by apply handle_evolves.
Qed.

(** The requests whose promises were settled, in order. *)
Definition settled_ids (r : Requests) : list JsonRpcId := (settled r).*1.

(** C20. Whatever the app-server, the network, the controller authority and the callers do
    and in whatever order, the driver accounts for its requests: every request whose
    promise it made is either pending, with a running timer, or settled, never both; no
    promise is settled twice; abort listeners belong to pending requests; at most
    [maxPendingRequests] are pending; and the window of completed responses has at most
    1024 entries, each of a settled request. *)
Theorem driver_accounted d :
  reachable d →
  let r := requests d in
  (∀ id, id ∈ issued r ↔ id ∈ timers r ∨ id ∈ settled_ids r)
  ∧ (∀ id, id ∈ timers r ↔ is_Some (map_get id (pending r)))
  ∧ (∀ id, id ∈ timers r → id ∈ settled_ids r → False)
  ∧ NoDup (settled_ids r)
  ∧ (∀ s id, (s, id) ∈ listeners r → id ∈ timers r)
  ∧ (length (pending r) <= maxPendingRequests)%nat
  ∧ (length (completedResponseOrder r) <= 1024)%nat
  ∧ (∀ id, id ∈ completedResponseIds r → id ∈ settled_ids r).
Proof.
  intros [Hwf [Hnd Ht] Hl Hs Ho Hi Ha Hf Hb Hn (_ & Hlen & Hids & Hset)]%reachable_good; cbn zeta.
  split_and!; [..|done|done|].
  - intros id; by rewrite Ht.
  - intros id; by rewrite Ht, map_get_is_Some.
  - intros id; rewrite Ht; apply Ha.
  - done.
  - intros s id; rewrite Ht; apply Hl.
  - intros id Hid; by apply Hset, Hids.
Qed.

(** ** Every accepted request is settled in the end *)

(** An endless run of the driver. *)
Record run (events : nat → event) (states : nat → Driver) : Prop := {
  run_start : states 0%nat = new_driver;
  run_enabled n : enabled (states n) (events n) = true;
  run_next n : states (S n) = handle (events n) (states n)
}.

(** A running timer does not run forever: it fires or is cleared. *)
Definition timers_fair (events : nat → event) (states : nat → Driver) : Prop :=
  ∀ n id, id ∈ timers (requests (states n)) →
    ∃ m, (n <= m)%nat ∧ (events m = TimerFired id ∨ id ∉ timers (requests (states m))).

Lemma run_reachable events states n : run events states → reachable (states n).
Proof.
  intros [H0 He Hs]; induction n as [|n IH]; [rewrite H0; constructor|].
  eapply reachable_step; [exact IH|]; rewrite Hs; by constructor.
Qed.

Lemma run_grows events states n m :
  run events states → (n <= m)%nat → grows (requests (states n)) (requests (states m)).
Proof.
  intros Hr Hle; induction Hle as [|m _ IH]; [done|].
  etransitivity; [exact IH|]; rewrite (run_next _ _ Hr).
  apply handle_evolves; [apply (run_enabled _ _ Hr)|]; by eapply reachable_good, run_reachable.
Qed.

Lemma settled_lookup events states n id :
  run events states → id ∈ (settled (requests (states n))).*1 →
  ∃ s, ∀ k, (n <= k)%nat → map_get id (settled (requests (states k))) = Some s.
Proof.
  intros Hr ([i s] & -> & Hin)%list_elem_of_fmap; exists s; intros k Hk.
  destruct (run_grows _ _ n k Hr Hk) as [[l Hl] _]; apply map_get_wf.
  - apply (acc_once maxPendingRequests); by eapply reachable_good, run_reachable.
  - rewrite Hl; apply elem_of_app; by left.
Qed.

(** C23. In every endless run in which running timers fire or are cleared, each request
    whose promise the driver made is settled at some point, and stays settled in the
    same way from then on, whether or not the app-server ever answers. *)
Theorem request_liveness events states n id :
  run events states → timers_fair events states → id ∈ issued (requests (states n)) →
  ∃ m s, (n <= m)%nat ∧ ∀ k, (m <= k)%nat → map_get id (settled (requests (states k))) = Some s.
Proof.
  intros Hr Hfair Hid.
  assert (Hgood : ∀ k, good (states k)) by (intros k; by eapply reachable_good, run_reachable).
  assert (Hset : ∃ m, (n <= m)%nat ∧ id ∈ (settled (requests (states m))).*1).
  { apply (acc_issued _ _ (Hgood n)) in Hid as [Hp|Hs]; [|by exists n].
    apply (acc_timers _ _ (Hgood n)) in Hp as Ht; destruct (Hfair n id Ht) as (m & Hm & [Hev|Hgone]).
    - exists (S m); split; [lia|]; rewrite (run_next _ _ Hr), Hev; cbn.
      rewrite fmap_app, elem_of_app; right; by apply list_elem_of_singleton.
    - exists m; split; [done|].
      assert (Hi : id ∈ issued (requests (states m))).
      { destruct (run_grows _ _ n m Hr Hm) as [_ [l Hl]]; rewrite Hl; apply elem_of_app; left.
        apply (acc_issued _ _ (Hgood n)); by left. }
      apply (acc_issued _ _ (Hgood m)) in Hi as [Hp'|]; [|done].
      by apply (acc_timers _ _ (Hgood m)) in Hp'. }
  destruct Hset as (m & Hm & Hs); destruct (settled_lookup _ _ _ _ Hr Hs) as [s Hk]; eauto.
Qed.

(** ** Replies to server requests *)

Definition is_reply (o : output) : bool :=
  match o with SentResult _ _ _ | SentError _ _ _ _ _ => true | _ => false end.
Definition reply_seq (o : output) : Z :=
  match o with SentResult seq _ _ | SentError seq _ _ _ _ => seq | _ => 0 end.

(** The request a task may still reply to. *)
Definition open_reply (t : task) : option Z :=
  match t with
  | AwaitLease q | AwaitResolution q | AwaitSecondLease q _ | AwaitInvalidFault q => Some (sequence q)
  | AwaitEventThenError _ _ seq _ => Some seq
  | _ => None
  end.

Definition replies (d : Driver) : list output := List.filter is_reply (outputs d).
Definition open_replies (d : Driver) : list Z := omap open_reply (tasks d).

(** The requests that were replied to or may still be. *)
Definition claims (d : Driver) : list Z := map reply_seq (replies d) ++ open_replies d.

(** Steps that have nothing to do with replies. *)
Definition quiet (d d' : Driver) : Prop :=
  replies d' = replies d ∧ open_replies d' = open_replies d ∧ transportSequence d' = transportSequence d.

#[local] Instance quiet_po : PreOrder quiet.
Proof. split; [by intros d|]; intros d1 d2 d3 (? & ? & ?) (? & ? & ?); split_and!; congruence. Qed.

Lemma replies_emit o d : replies (emit o d) = replies d ++ if is_reply o then [o] else [].
Proof. unfold replies; cbn [outputs emit set_outputs]; rewrite List.filter_app; cbn; by destruct (is_reply o). Qed.

Lemma open_replies_await t d :
  open_replies (await t d) = open_replies d ++ match open_reply t with Some s => [s] | None => [] end.
Proof.
  unfold open_replies; cbn [tasks await set_tasks]; rewrite omap_app; f_equal; cbn; by destruct (open_reply t).
Qed.

Lemma replies_await t d : replies (await t d) = replies d.
Proof. reflexivity. Qed.

Lemma quiet_emit o d d' : is_reply o = false → quiet d d' → quiet d (emit o d').
Proof. intros Ho (? & ? & ?); split_and!; [rewrite replies_emit, Ho, app_nil_r|..]; done. Qed.

Lemma quiet_await t d d' : open_reply t = None → quiet d d' → quiet d (await t d').
Proof. intros Ho (? & ? & ?); split_and!; [done|rewrite open_replies_await, Ho, app_nil_r; done|done]. Qed.

Lemma quiet_same d d1 d' :
  outputs d' = outputs d1 → tasks d' = tasks d1 → transportSequence d' = transportSequence d1 →
  quiet d d1 → quiet d d'.
Proof. unfold quiet, replies, open_replies; by intros -> -> ->. Qed.

(** Goes through the awaits, outputs and assignments of a step. *)
Ltac quietly :=
  repeat first [ reflexivity
               | assumption
               | apply quiet_emit; [reflexivity|]
               | apply quiet_await; [reflexivity|]
               | match goal with |- quiet _ (?f _ ?d1) =>
                   apply (quiet_same _ d1); [reflexivity|reflexivity|reflexivity|] end ].

Lemma request_quiet method params sig rr d : quiet d (request method params sig rr d).1.
Proof.
  unfold request; destruct (rr && _); [done|]; destruct (negb rr && _); [done|].
  destruct (Nat.leb _ _); [done|]; destruct (s ← sig; map_get s (aborted d)); [done|].
  destruct (codec_client_request _ _ _); cbn [fst]; quietly.
Qed.

Lemma disconnect_quiet reason cause o d : quiet d (disconnect reason cause o d).
Proof.
  unfold disconnect; set (d0 := match cause with Some e => set_disconnectCause (Some e) d | None => d end).
  assert (H0 : quiet d d0) by (unfold d0; destruct cause; quietly).
  destruct (disconnectNotified d0); [done|]; quietly.
  destruct (state _); quietly.
Qed.

Lemma connect_failed_quiet e d d' : quiet d d' → quiet d (connect_failed e d').
Proof. intros; unfold connect_failed; destruct (bool_decide _); quietly. Qed.

Lemma probe_next_quiet a i steps todo d : quiet d (probe_next a i steps todo d).
Proof.
  revert steps d; induction todo as [|q rest IH]; intros steps d; cbn [probe_next]; [unfold finish_probe; quietly|].
  pose proof (request_quiet (probe_method q) (probe_params q) (Some (ProbeSignal a)) false d) as Hreq.
  destruct (request _ _ _ _ _) as [d1 [id|e]]; cbn [fst] in Hreq; [quietly|].
  destruct (run_probe_step _ _ _ _) as [s [o|]]; [unfold finish_probe; quietly|].
  etransitivity; [exact Hreq|apply IH].
Qed.

Lemma probe_settled_quiet a i steps q rest e d : quiet d (probe_settled a i steps q rest e d).
Proof.
  unfold probe_settled; destruct (run_probe_step _ _ _ _) as [s [o|]]; [unfold finish_probe; quietly|].
  apply probe_next_quiet.
Qed.

Lemma runCompatibilityProbe_quiet i d : quiet d (runCompatibilityProbe i d).
Proof.
  unfold runCompatibilityProbe; destruct (run_probe_step "consumed_codec" _ _ _) as [s1 [o1|]];
    [unfold finish_probe; quietly|].
  destruct (run_probe_step "dynamic_tools" _ _ _) as [s2 [o2|]]; [unfold finish_probe; quietly|].
  etransitivity; [|apply probe_next_quiet]; quietly.
Qed.

Lemma opened_quiet d : quiet d (opened d).
Proof.
  unfold opened; pose proof (request_quiet "initialize" initialize_params None false d) as Hreq.
  destruct (request _ _ _ _ _) as [d1 [id|e]]; cbn [fst] in Hreq; [quietly|by apply connect_failed_quiet].
Qed.

Lemma failure_quiet o e raw d d' : quiet d d' → quiet d (handleReceiveFailure o e raw d').
Proof. intros; unfold handleReceiveFailure; quietly. Qed.

Lemma handleResponse_quiet r raw d : quiet d (handleResponse r raw d).
Proof.
  unfold handleResponse; destruct (map_get _ _) as [p|]; [|quietly].
  destruct (response_error r) as [[[code message] data]|]; [quietly|].
  destruct (codec_client_response _ _); [quietly|apply failure_quiet; quietly].
Qed.

(** A task keeps the reply it owes open. *)
Definition keeps_open (s : Z) (d d' : Driver) : Prop :=
  replies d' = replies d ∧ open_replies d' = open_replies d ++ [s] ∧ transportSequence d' = transportSequence d.

(** A task sends a reply. *)
Definition answers_with (o : output) (d d' : Driver) : Prop :=
  is_reply o = true ∧ replies d' = replies d ++ [o] ∧ open_replies d' = open_replies d
  ∧ transportSequence d' = transportSequence d.

(** A result is only sent when the second lease was just confirmed and the codec has
    accepted the resolution. *)
Definition allowed (t : task) (a : answer) (o : output) : Prop :=
  match o with
  | SentResult seq id v =>
      ∃ q, t = AwaitSecondLease q (Success v) ∧ a = LeaseIs true ∧ seq = sequence q ∧ id = server_id q
           ∧ ∃ u, codec_resolution (server_method q) v = Done u
  | _ => True
  end.

Inductive reply_step (t : task) (a : answer) (d d' : Driver) : Prop :=
| reply_none : quiet d d' → reply_step t a d d'
| reply_kept s : open_reply t = Some s → keeps_open s d d' → reply_step t a d d'
| reply_sent o : open_reply t = Some (reply_seq o) → answers_with o d d' → allowed t a o → reply_step t a d d'.

Lemma keeps_open_await t s d d' : open_reply t = Some s → quiet d d' → keeps_open s d (await t d').
Proof. intros Ht (? & ? & ?); split_and!; [done|rewrite open_replies_await, Ht; by f_equal|done]. Qed.

Lemma answers_with_emit o t d d' :
  is_reply o = true → open_reply t = None → quiet d d' → answers_with o d (await t (emit o d')).
Proof.
  intros Ho Ht (Hr & ? & ?); split_and!; [done| |rewrite open_replies_await, Ht, app_nil_r; done|done].
  by rewrite replies_await, replies_emit, Ho, Hr.
Qed.

Lemma second_lease_reply q r held d :
  reply_step (AwaitSecondLease q r) (LeaseIs held) d (second_lease_answered q r held d).
Proof.
  unfold second_lease_answered; destruct held; [|by apply reply_none]; cbn [negb].
  destruct r as [result|code message data].
  - destruct (codec_resolution (server_method q) result) as [u|e] eqn:Hc.
    + eapply reply_sent; [|apply answers_with_emit; try reflexivity|]; [done|cbn; eauto 10].
    + eapply reply_kept; [reflexivity|]; apply keeps_open_await; [done|quietly].
  - eapply reply_sent; [|apply answers_with_emit; reflexivity|]; done.
Qed.

Lemma continue_task_reply t a d : reply_step t a d (continue_task t a d).
Proof.
  destruct t, a; cbn [continue_task]; try (by apply reply_none);
    try (apply reply_none; first [ apply opened_quiet | apply disconnect_quiet
           | by apply connect_failed_quiet | by apply failure_quiet | quietly ]; fail);
    try (apply reply_none; destruct (settlement_of id d) as [[v|e']|]; first [ done
           | by apply connect_failed_quiet | apply runCompatibilityProbe_quiet | apply probe_settled_quiet ]);
    try (apply reply_none; destruct o; cbn [leave_chain]; quietly; fail).
  - unfold authorized; destruct (accepted _); apply reply_none; quietly.
  - eapply reply_sent; [|apply answers_with_emit; reflexivity|]; done.
  - unfold lease_answered; destruct held.
    + eapply reply_kept; [reflexivity|]; apply keeps_open_await; [done|quietly].
    + eapply reply_sent; [|apply answers_with_emit; reflexivity|]; done.
  - unfold resolution_answered; cbn zeta; destruct (bool_decide _); [|apply reply_none; quietly].
    eapply reply_kept; [reflexivity|]; apply keeps_open_await; [done|quietly].
  - unfold resolution_answered; cbn zeta; destruct (bool_decide _); [|apply reply_none; quietly].
    eapply reply_kept; [reflexivity|]; apply keeps_open_await; [done|quietly].
  - apply second_lease_reply.
  - eapply reply_sent; [|apply answers_with_emit; reflexivity|]; done.
Qed.

Definition claims_ok (d : Driver) : Prop :=
  NoDup (claims d) ∧ ∀ s, s ∈ claims d → s <= transportSequence d.

Lemma quiet_claims d d' : quiet d d' → claims_ok d → claims_ok d'.
Proof. unfold claims_ok, claims; by intros (-> & -> & ->). Qed.

Definition owed (t : task) : list Z := match open_reply t with Some s => [s] | None => [] end.

Lemma claims_resume k t d :
  tasks d !! k = Some t → claims d ≡ₚ owed t ++ claims (set_tasks (delete k (tasks d)) d).
Proof.
  intros Ht; unfold claims, open_replies; cbn [tasks set_tasks].
  change (replies (set_tasks (delete k (tasks d)) d)) with (replies d).
  rewrite (delete_Permutation _ _ _ Ht) at 1; unfold owed; cbn [omap list_omap].
  destruct (open_reply t); cbn [app]; [symmetry; apply Permutation_middle|done].
Qed.

Lemma reply_step_claims t a d d' :
  reply_step t a d d' → NoDup (owed t ++ claims d) → (∀ s, s ∈ owed t ++ claims d → s <= transportSequence d) →
  claims_ok d'.
Proof.
  intros Hstep Hnd Hle; assert (Hq : claims_ok d).
  { split; [by apply NoDup_app in Hnd as (_ & _ & ?)|]; intros s Hs; apply Hle, elem_of_app; by right. }
  destruct Hstep as [Hquiet|s Ht (Hr & Ho & Hs)|o Ht (Ho & Hr & Hop & Hs) _]; [by eapply quiet_claims| |].
  - assert (Hp : claims d' ≡ₚ owed t ++ claims d).
    { unfold claims, owed; rewrite Hr, Ho, Ht; cbn; by rewrite (assoc_L (++)), Permutation_app_comm. }
    split; [by rewrite Hp|]; intros x; rewrite Hp, Hs; apply Hle.
  - assert (Hp : claims d' ≡ₚ owed t ++ claims d).
    { unfold claims, owed; rewrite Hr, Hop, Ht, map_app; cbn; by rewrite <-(assoc_L (++)), Permutation_middle. }
    split; [by rewrite Hp|]; intros x; rewrite Hp, Hs; apply Hle.
Qed.

(** What a message adds: nothing, or the request with the message's own number. *)
Inductive received (d : Driver) : Driver → Prop :=
| received_quiet d1 d' :
    transportSequence d1 = transportSequence d + 1 → replies d1 = replies d → open_replies d1 = open_replies d →
    quiet d1 d' → received d d'
| received_open d' :
    replies d' = replies d → open_replies d' = open_replies d ++ [transportSequence d + 1] →
    transportSequence d' = transportSequence d + 1 → received d d'
| received_refused d' id code message data :
    replies d' = replies d ++ [SentError (transportSequence d + 1) id code message data] →
    open_replies d' = open_replies d → transportSequence d' = transportSequence d + 1 → received d d'.

Lemma receive_received raw d : received d (receive raw d).
Proof.
  unfold receive; set (d1 := set_transportSequence (transportSequence d + 1) d).
  assert (Hq : ∀ d', quiet d1 d' → received d d') by (intros d' H; by apply (received_quiet d d1)).
  destruct (codec_decode raw) as [m|e]; [|apply Hq; by apply failure_quiet].
  destruct m as [r|id method req|id method params|method n|method params].
  - apply Hq, handleResponse_quiet.
  - unfold handleServerRequest; destruct (bool_decide _).
    + apply received_open; [done|by rewrite open_replies_await|done].
    + set (q := {| sequence := transportSequence d + 1; server_id := id; server_method := method;
                   server_request_json := req; server_raw := raw |}).
      destruct (answers_with_emit (SentError (sequence q) (server_id q) (-32001) no_lease_message JUndefined)
                  (AwaitReply q) d1 d1) as (_ & ? & ? & ?); [done|done|done|].
      by eapply received_refused.
  - apply received_open; [by rewrite replies_await, replies_emit; cbn; rewrite app_nil_r|by rewrite open_replies_await|done].
  - apply Hq; quietly.
  - apply Hq; quietly.
Qed.

Lemma received_claims d d' : received d d' → claims_ok d → claims_ok d'.
Proof.
  intros Hrec [Hnd Hle]; assert (Hfresh : transportSequence d + 1 ∉ claims d) by (intros ?%Hle; lia).
  destruct Hrec as [d1 d' Hs Hr Ho Hq|d' Hr Ho Hs|d' id code message data Hr Ho Hs].
  - eapply quiet_claims; [exact Hq|]; unfold claims_ok, claims; rewrite Hr, Ho, Hs.
    split; [done|]; intros s ?%Hle; lia.
  - assert (Hp : claims d' ≡ₚ (transportSequence d + 1) :: claims d).
    { unfold claims; rewrite Hr, Ho, (assoc_L (++)); by rewrite Permutation_app_comm. }
    split; [rewrite Hp; by constructor|]; intros s; rewrite Hp, Hs; intros [->|?%Hle]%elem_of_cons; lia.
  - assert (Hp : claims d' ≡ₚ (transportSequence d + 1) :: claims d).
    { unfold claims; rewrite Hr, Ho, map_app; cbn; by rewrite <-(assoc_L (++)), Permutation_middle. }
    split; [rewrite Hp; by constructor|]; intros s; rewrite Hp, Hs; intros [->|?%Hle]%elem_of_cons; lia.
Qed.

(** The step of an event, as far as replies go. *)
Inductive event_reply (d : Driver) : event → Driver → Prop :=
| event_quiet e d' : quiet d d' → event_reply d e d'
| event_received e d1 d' : quiet d d1 → received d1 d' → event_reply d e d'
| event_resume k t a d' :
    tasks d !! k = Some t → reply_step t a (set_tasks (delete k (tasks d)) d) d' →
    event_reply d (Resume k a) d'.

Lemma handle_reply e d : event_reply d e (handle e d).
Proof.
  destruct e as [| |m params sig|id failure|id|attempt|n reason|raw|reason|message| |k a]; cbn [handle].
  - apply event_quiet; unfold connect_begin; destruct (negb _); quietly.
  - apply event_quiet; unfold close; destruct (bool_decide _); quietly.
  - apply event_quiet; destruct m; cbn [client_call]; try apply request_quiet.
    destruct (existsb _ _); [done|apply request_quiet].
  - apply event_quiet; quietly.
  - apply event_quiet; quietly.
  - apply event_quiet; unfold abort_signal; quietly.
  - apply event_quiet; unfold abort_signal; quietly.
  - apply event_quiet; quietly.
  - apply event_quiet, disconnect_quiet.
  - apply event_quiet; unfold on_error; etransitivity; [|apply disconnect_quiet]; quietly.
  - unfold chain_next; destruct (chainQueue d) as [|raw queue]; [by apply event_quiet|].
    destruct (chainError _); [apply event_quiet, failure_quiet; quietly|].
    eapply event_received; [|apply receive_received]; quietly.
  - destruct (tasks d !! k) as [t|] eqn:Ht; [|by apply event_quiet].
    by eapply event_resume; [|apply continue_task_reply].
Qed.

Lemma handle_claims e d : claims_ok d → claims_ok (handle e d).
Proof.
  intros [Hnd Hle]; destruct (handle_reply e d) as [e d' Hq|e d1 d' Hq Hr|k t a d' Ht Hr].
  - by eapply quiet_claims.
  - eapply received_claims; [exact Hr|]; by eapply quiet_claims.
  - apply claims_resume in Ht; eapply reply_step_claims; [exact Hr|by rewrite <-Ht|].
    intros s; rewrite <-Ht; apply Hle.
Qed.

Lemma reachable_claims d : reachable d → claims_ok d.
Proof.
  induction 1 as [|d d' _ IH [e _]]; [|by apply handle_claims].
  split; [apply NoDup_nil_2|intros s Hs; by apply elem_of_nil in Hs].
Qed.

(** C21. Replies to server requests are sent at most once and never without authority:
    over every run no request of the app-server, known or unknown, gets two replies, nor
    is a second one still to come for a request already answered; and a result is only
    sent in the step in which the controller lease is confirmed after the authority's
    resolution, for the resolution the codec has accepted as an answer to that method. *)
Theorem server_replies d :
  reachable d →
  NoDup (map reply_seq (replies d)) ∧ NoDup (map reply_seq (replies d) ++ open_replies d)
  ∧ ∀ e seq id v, SentResult seq id v ∈ replies (handle e d) →
      SentResult seq id v ∈ replies d
      ∨ ∃ k q u, e = Resume k (LeaseIs true) ∧ tasks d !! k = Some (AwaitSecondLease q (Success v))
                 ∧ sequence q = seq ∧ server_id q = id ∧ codec_resolution (server_method q) v = Done u.
Proof.
  intros Hd; destruct (reachable_claims d Hd) as [Hnd _]; split_and!; [by apply NoDup_app in Hnd as (? & _)|done|].
  intros e seq id v Hin; destruct (handle_reply e d) as [e d' Hq|e d1 d' Hq Hr|k t a d' Ht Hr].
  - destruct Hq as (Hq & _); rewrite Hq in Hin; by left.
  - left; destruct Hq as (Hq & _); rewrite <-Hq.
    destruct Hr as [d2 d' _ Hr _ (Hr' & _)|d' Hr _ _|d' i code message data Hr _ _];
      [by rewrite Hr', Hr in Hin|by rewrite Hr in Hin|].
    rewrite Hr in Hin; by apply elem_of_app in Hin as [?|?%list_elem_of_singleton].
  - change (replies d) with (replies (set_tasks (delete k (tasks d)) d)).
    destruct Hr as [(Hr & _)|s _ (Hr & _)|o _ (_ & Hr & _) Hall]; [rewrite Hr in Hin; by left..|].
    rewrite Hr in Hin; apply elem_of_app in Hin as [?|<-%list_elem_of_singleton]; [by left|right].
    cbn in Hall; destruct Hall as (q & -> & -> & -> & -> & u & ?); eauto 10.
Qed.

(** ** The compatibility probe reports every step *)

Definition probe_order : list string :=
  ["consumed_codec"; "dynamic_tools"; "model_list"; "thread_list"; "thread_read"; "thread_resume"].

Definition all_passed (l : list ProbeStep) : Prop := Forall (λ s, status s = step_passed) l.

(** All steps passed, or the steps before the first failure passed and those after it
    were skipped. *)
Definition report_ok (r : ProbeReport) : Prop :=
  map stepId (steps r) = probe_order
  ∧ match outcome r with
    | passed => all_passed (steps r)
    | _ => ∃ before f after, steps r = before ++ f :: map skippedProbeStep after
                             ∧ all_passed before ∧ status f = step_failed
    end.

Definition task_ok (t : task) : Prop :=
  match t with
  | AwaitProbe _ _ _ done q rest =>
      map stepId done ++ probe_step q :: map probe_step rest = probe_order ∧ all_passed done
  | _ => True
  end.

Definition output_ok (o : output) : Prop :=
  match o with AskedAuthorization _ r => report_ok r | _ => True end.

Record probes_ok (d : Driver) : Prop := {
  probe_tasks : Forall task_ok (tasks d);
  probe_outputs : Forall output_ok (outputs d);
  probe_last : ∀ r, lastCompatibilityProbe d = Some r → report_ok r
}.

Lemma ok_await t d : task_ok t → probes_ok d → probes_ok (await t d).
Proof. intros Ht []; split; try done; by apply Forall_app; split; [|apply Forall_singleton]. Qed.

Lemma ok_emit o d : output_ok o → probes_ok d → probes_ok (emit o d).
Proof. intros Ho []; split; try done; by apply Forall_app; split; [|apply Forall_singleton]. Qed.

Lemma ok_same d d' :
  tasks d' = tasks d → outputs d' = outputs d → lastCompatibilityProbe d' = lastCompatibilityProbe d →
  probes_ok d → probes_ok d'.
Proof. intros Ht Ho Hl []; split; [by rewrite Ht|by rewrite Ho|by rewrite Hl]. Qed.

Ltac probing :=
  repeat first [ assumption
               | apply ok_emit; [exact I|]
               | apply ok_await; [exact I|]
               | match goal with |- probes_ok (?f _ ?d1) =>
                   apply (ok_same d1); [reflexivity|reflexivity|reflexivity|] end ].

Lemma request_ok method params sig rr d : probes_ok d → probes_ok (request method params sig rr d).1.
Proof.
  intros Hd; unfold request; destruct (rr && _); [done|]; destruct (negb rr && _); [done|].
  destruct (Nat.leb _ _); [done|]; destruct (s ← sig; map_get s (aborted d)); [done|].
  destruct (codec_client_request _ _ _); cbn [fst]; probing.
Qed.

Lemma disconnect_ok reason cause o d : probes_ok d → probes_ok (disconnect reason cause o d).
Proof.
  intros Hd; unfold disconnect.
  assert (H0 : probes_ok (match cause with Some e => set_disconnectCause (Some e) d | None => d end))
    by (destruct cause; probing).
  revert H0; generalize (match cause with Some e => set_disconnectCause (Some e) d | None => d end); intros d0 H0.
  destruct (disconnectNotified d0); [done|]; probing; destruct (state _); probing.
Qed.

Lemma connect_failed_ok e d : probes_ok d → probes_ok (connect_failed e d).
Proof. intros; unfold connect_failed; destruct (bool_decide _); probing. Qed.

Lemma finish_probe_ok a i l o d :
  report_ok {| outcome := o; steps := l; report_completedAt := completedAt |} →
  probes_ok d → probes_ok (finish_probe a i l o d).
Proof.
  intros Hr [Ht Ho Hl]; apply ok_await; [exact I|]; apply ok_emit; [exact Hr|].
  split; cbn; [done|done|]; by intros r [= <-].
Qed.

Lemma run_probe_step_spec id accepts timed_out e :
  let '(s, failed) := run_probe_step id accepts timed_out e in
  stepId s = id ∧ match failed with
                  | None => status s = step_passed
                  | Some o => status s = step_failed ∧ o ≠ passed
                  end.
Proof. unfold run_probe_step; destruct e as [e|]; [|done]; destruct (accepts e); [done|]; by destruct (_ || _). Qed.

Lemma stepId_skipped rest : map stepId (skip_rest rest) = map probe_step rest.
Proof. unfold skip_rest; by rewrite map_map. Qed.

(** A failed step ends the probe with a well-formed report. *)
Lemma failed_report before f rest o :
  map stepId before ++ stepId f :: map probe_step rest = probe_order → all_passed before →
  status f = step_failed → o ≠ passed →
  report_ok {| outcome := o; steps := before ++ f :: skip_rest rest; report_completedAt := completedAt |}.
Proof.
  intros Hids Hb Hf Ho; split; cbn [steps outcome].
  - by rewrite map_app; cbn [map]; rewrite stepId_skipped.
  - assert (∃ b f' after, before ++ f :: skip_rest rest = b ++ f' :: map skippedProbeStep after
              ∧ all_passed b ∧ status f' = step_failed).
    { exists before, f, (map probe_step rest); unfold skip_rest; by rewrite map_map. }
    by destruct o.
Qed.

Lemma probe_next_ok a i done todo d :
  map stepId done ++ map probe_step todo = probe_order → all_passed done →
  probes_ok d → probes_ok (probe_next a i done todo d).
Proof.
  revert done d; induction todo as [|q rest IH]; intros done d Hids Hdone Hd; cbn [probe_next].
  - apply finish_probe_ok; [|done]; split; cbn [steps outcome]; [by rewrite app_nil_r in Hids|done].
  - pose proof (request_ok (probe_method q) (probe_params q) (Some (ProbeSignal a)) false d Hd) as Hreq.
    destruct (request _ _ _ _ _) as [d1 [id|e]]; cbn [fst] in Hreq; [by apply ok_await|].
    pose proof (run_probe_step_spec (probe_step q) (probe_accepts q) (map_has (ProbeSignal a) (aborted d1)) (Some e)) as Hs.
    destruct (run_probe_step _ _ _ _) as [s [o|]]; destruct Hs as [Hid Hs].
    + apply finish_probe_ok; [|done]; destruct Hs; apply failed_report; [by rewrite Hid|done..].
    + apply IH; [by rewrite map_app, <-(assoc_L (++)); cbn; rewrite Hid| |done].
      apply Forall_app; split; [done|by apply Forall_singleton].
Qed.

Lemma probe_settled_ok a i done q rest e d :
  map stepId done ++ probe_step q :: map probe_step rest = probe_order → all_passed done →
  probes_ok d → probes_ok (probe_settled a i done q rest e d).
Proof.
  intros Hids Hdone Hd; unfold probe_settled.
  pose proof (run_probe_step_spec (probe_step q) (probe_accepts q) (map_has (ProbeSignal a) (aborted d)) e) as Hs.
  destruct (run_probe_step _ _ _ _) as [s [o|]]; destruct Hs as [Hid Hs].
  - apply finish_probe_ok; [|done]; destruct Hs; apply failed_report; [by rewrite Hid|done..].
  - apply probe_next_ok; [by rewrite map_app, <-(assoc_L (++)); cbn; rewrite Hid| |done].
    apply Forall_app; split; [done|by apply Forall_singleton].
Qed.

Lemma runCompatibilityProbe_ok i d : probes_ok d → probes_ok (runCompatibilityProbe i d).
Proof.
  intros Hd; unfold runCompatibilityProbe.
  assert (H1 : probes_ok (set_probeTimers (set_add (attempts d) (probeTimers d)) d)) by probing.
  pose proof (run_probe_step_spec "consumed_codec" (λ _, false) false (error_of codec_ready)) as Hs1.
  destruct (run_probe_step "consumed_codec" _ _ _) as [s1 [o1|]]; destruct Hs1 as [Hid1 Hs1].
  - apply finish_probe_ok; [|done]; destruct Hs1.
    apply (failed_report [] s1 ({| probe_step := "dynamic_tools"; probe_method := ""; probe_params := JNull;
                                   probe_accepts := λ _, false |} :: probe_requests)); [by cbn; rewrite Hid1|apply Forall_nil_2|done..].
  - pose proof (run_probe_step_spec "dynamic_tools" (λ _, false) false (error_of assertDynamicToolReadiness)) as Hs2.
    destruct (run_probe_step "dynamic_tools" _ _ _) as [s2 [o2|]]; destruct Hs2 as [Hid2 Hs2].
    + apply finish_probe_ok; [|done]; destruct Hs2.
      apply (failed_report [s1] s2 probe_requests); [by cbn; rewrite Hid1, Hid2|by apply Forall_singleton|done..].
    + apply probe_next_ok; [by cbn; rewrite Hid1, Hid2|by apply Forall_cons; split; [|apply Forall_singleton]|done].
Qed.

Lemma opened_ok d : probes_ok d → probes_ok (opened d).
Proof.
  intros Hd; unfold opened; pose proof (request_ok "initialize" initialize_params None false d Hd) as Hreq.
  destruct (request _ _ _ _ _) as [d1 [id|e]]; cbn [fst] in Hreq; [probing|by apply connect_failed_ok].
Qed.

Lemma failure_ok o e raw d : probes_ok d → probes_ok (handleReceiveFailure o e raw d).
Proof. intros; unfold handleReceiveFailure; probing. Qed.

Lemma receive_ok raw d : probes_ok d → probes_ok (receive raw d).
Proof.
  intros Hd; unfold receive; destruct (codec_decode raw) as [m|e]; [|apply failure_ok; probing].
  destruct m as [r|id method req|id method params|method n|method params]; [..|probing|probing|probing].
  - unfold handleResponse; destruct (map_get _ _) as [p|]; [|probing].
    destruct (response_error r) as [[[code message] data]|]; [probing|].
    destruct (codec_client_response _ _); [probing|apply failure_ok; probing].
  - unfold handleServerRequest; destruct (bool_decide _); unfold sendError; probing.
Qed.

Lemma continue_task_probes t a d : task_ok t → probes_ok d → probes_ok (continue_task t a d).
Proof.
  intros Ht Hd; destruct t, a; cbn [continue_task]; try done; unfold sendError; try (probing; fail);
    try (by apply connect_failed_ok); try (by apply failure_ok); try (by apply disconnect_ok);
    try (by apply opened_ok);
    try (destruct (settlement_of id d) as [[v|e']|]; try done; try (by apply connect_failed_ok);
         try (by apply runCompatibilityProbe_ok); destruct Ht; by apply probe_settled_ok);
    try (destruct o; cbn [leave_chain]; probing; fail).
  - unfold authorized; destruct (accepted _); probing.
  - unfold lease_answered, sendError; destruct held; probing.
  - unfold resolution_answered; cbn zeta; destruct (bool_decide _); probing.
  - unfold resolution_answered; cbn zeta; destruct (bool_decide _); probing.
  - unfold second_lease_answered, sendError; destruct held; cbn [negb]; [|done]; destruct resolution; [|probing].
    destruct (codec_resolution _ _); probing.
Qed.

Lemma handle_probes e d : probes_ok d → probes_ok (handle e d).
Proof.
  intros Hd; destruct e as [| |m params sig|id failure|id|attempt|n reason|raw|reason|message| |k a]; cbn [handle];
    try (unfold abort_signal; probing; fail).
  - unfold connect_begin; destruct (negb _); probing.
  - unfold close; destruct (bool_decide _); probing.
  - destruct m; cbn [client_call]; try (by apply request_ok); destruct (existsb _ _); [done|by apply request_ok].
  - by apply disconnect_ok.
  - unfold on_error; apply disconnect_ok; probing.
  - unfold chain_next; destruct (chainQueue d) as [|raw queue]; [done|].
    destruct (chainError _); [apply failure_ok|apply receive_ok]; probing.
  - destruct (tasks d !! k) as [t|] eqn:Ht; [|done]; destruct Hd as [Htasks Ho Hl].
    apply continue_task_probes; [by eapply Forall_lookup_1|]; split; cbn; [by apply Forall_delete|done|done].
Qed.

(** Every compatibility report that reaches the controller authority is complete:
    over every run it names the six required steps in order, and either all of them
    passed, or the steps before the first failure passed and every later one was skipped
    with the reason that an earlier one failed. *)
Theorem probe_report_complete d :
  reachable d →
  (∀ identity r, AskedAuthorization identity r ∈ outputs d → report_ok r)
  ∧ ∀ r, lastCompatibilityProbe d = Some r → report_ok r.
Proof.
  intros Hd; assert (H : probes_ok d).
  { induction Hd as [|d d' _ IH [e _]]; [|by apply handle_probes]; split; cbn; [constructor|constructor|done]. }
  destruct H as [_ Ho Hl]; split; [|done]; intros identity r Hin.
  by apply (proj1 (Forall_forall _ _) Ho _ Hin).
Qed.
End Facts.

(** ** A concrete connection *)

Module DriverExample.
#[local] Existing Instance literal_json.

Definition accept_all (schema : json) : exn (json → option string) := Done (λ _, None).
#[local] Instance contract : CodecContract :=
  codec_contract CodecExample.syntax CodecExample.files accept_all CodecExample.codec.

#[local] Instance environment : DriverEnvironment := {|
  map_notification method params notification seq known :=
    mapNotification (λ _, "") (λ _, None) (λ s, s) "?" method params notification seq 1000 known;
  map_unsupported id method params request seq :=
    mapUnsupportedServerRequest (λ s, s) "?" id method params request seq 1000;
  raw_detail v := captureBoundedRawDetail (λ s, s) "?" v 1000;
  requestTimeoutMs := 30000;
  maxPendingRequests := 2;
  clientInfo := JObject [("name", JString "rusty_crew")];
  app_server_protocol := JNull;
  sentinelThreadId := "sentinel";
  measured _ := 3;
  completedAt := "2025-01-01T00:00:00.000Z"
|}.

(** A list of events, each enabled when it happens. *)
Fixpoint play (es : list event) (d : Driver) : option Driver :=
  match es with
  | [] => Some d
  | e :: es' => if enabled d e then play es' (handle e d) else None
  end.

Lemma play_reachable es d d' : reachable d → play es d = Some d' → reachable d'.
Proof.
  revert d; induction es as [|e es IH]; intros d Hd; cbn; [by intros [= <-]|].
  destruct (enabled d e) eqn:He; [|done]; apply IH; eapply reachable_step; [exact Hd|by constructor].
Qed.

Definition state_after (es : list event) : Driver := default new_driver (play es new_driver).

Lemma state_after_reachable es : is_Some (play es new_driver) → reachable (state_after es).
Proof. intros [d Hd]; unfold state_after; rewrite Hd; by eapply play_reachable; [constructor|]. Qed.

(** The server answers request [n]. *)
Definition answered (n : Z) (r : JsonRpcResponseMessage) : list event :=
  [SendSettled (request_id n) None;
   OnMessage (default "" (stringify (message_json (DResponse r))));
   ChainStep; Resume 0 Fulfilled].

Definition with_result (n : Z) : JsonRpcResponseMessage :=
  {| response_id := request_id n; response_result := JObject [("userAgent", JString "codex")]; response_error := None |}.
Definition missing (n : Z) (message : string) : JsonRpcResponseMessage :=
  {| response_id := request_id n; response_result := JUndefined; response_error := Some ("-32600", message, JNull) |}.

(** Up to the question whether the handshake is authorized. *)
Definition handshake : list event :=
  [Connect; Resume 0 Fulfilled] ++ answered 1 (with_result 1) ++ answered 2 (with_result 2)
  ++ answered 3 (with_result 3) ++ answered 4 (missing 4 "thread not loaded: sentinel")
  ++ answered 5 (missing 5 "no rollout found for thread id sentinel").

Definition yes : ControllerAuthorization :=
  {| accepted := true; retryable := false; reasonCode := None; auth_message := None |}.

Definition connection : list event := handshake ++ [Resume 0 (AuthorizationIs yes)].

Example connected_ready :
  let d := state_after connection in
  state d = ready ∧ pending (requests d) = [] ∧ length (settled (requests d)) = 5%nat
  ∧ (outcome <$> lastCompatibilityProbe d) = Some passed ∧ tasks d = [].
Proof. vm_compute. done. Qed.

(** A tool call of the server, resolved under the lease. *)
Definition tool_call : list event :=
  [OnMessage (default "" (stringify (JObject [("id", JString "s1"); ("method", JString "item/tool/call");
                                              ("params", JNull)])));
   ChainStep; Resume 0 (LeaseIs true); Resume 0 (ResolutionIs (Success (JBool true)))].

Definition turn_started : Driver := state_after (connection ++ [ClientCall turnStart (JObject []) None]).
Lemma turn_started_reachable : reachable turn_started.
Proof. apply state_after_reachable; refine (bool_decide_unpack _ _); vm_compute; exact I. Qed.

Lemma driver_accounted_witness :
  request_id 6 ∈ issued (requests turn_started)
  ∧ (request_id 6 ∈ timers (requests turn_started) ∨ request_id 6 ∈ settled_ids (requests turn_started)).
Proof.
  assert (Hin : request_id 6 ∈ issued (requests turn_started))
    by (refine (bool_decide_unpack _ _); vm_compute; exact I).
  destruct (driver_accounted turn_started turn_started_reachable) as [H _].
  exact (conj Hin (proj1 (H (request_id 6)) Hin)).
Defined.

Definition lease_confirmed : Driver := state_after (connection ++ tool_call ++ [Resume 0 (LeaseIs true)]).
Lemma lease_confirmed_reachable : reachable lease_confirmed.
Proof. apply state_after_reachable; refine (bool_decide_unpack _ _); vm_compute; exact I. Qed.

Lemma server_replies_witness :
  NoDup (map reply_seq (replies lease_confirmed)) ∧ map reply_seq (replies lease_confirmed) = [6].
Proof.
  destruct (server_replies lease_confirmed lease_confirmed_reachable) as [H _].
  split; [exact H|vm_compute; reflexivity].
Defined.

Definition asked : Driver := state_after handshake.
Lemma asked_reachable : reachable asked.
Proof. apply state_after_reachable; refine (bool_decide_unpack _ _); vm_compute; exact I. Qed.

Lemma probe_report_complete_witness : ∃ r, lastCompatibilityProbe asked = Some r ∧ report_ok r.
Proof.
  destruct (probe_report_complete asked asked_reachable) as [_ H].
  eexists; split; [vm_compute; reflexivity|]; apply H; vm_compute; reflexivity.
Defined.

(** *** An app-server that never answers *)

Definition silent (n : nat) : event :=
  match n with
  | 0 => Connect
  | 1 => Resume 0 Fulfilled
  | 2 => SendSettled (request_id 1) None
  | 3 => TimerFired (request_id 1)
  | _ => OnClose "gone"
  end%nat.

Fixpoint silent_states (n : nat) : Driver :=
  match n with
  | 0 => new_driver
  | S m => handle (silent m) (silent_states m)
  end%nat.

Lemma silent_settles n : (5 <= n)%nat → silent_states n = silent_states 5.
Proof.
  intros Hle; induction Hle as [|n Hle IH]; [done|].
  cbn [silent_states]; rewrite IH; do 5 (destruct n as [|n]; [lia|]); vm_compute; reflexivity.
Qed.

Lemma silent_run : run silent silent_states.
Proof.
  split; [done| |done]; intros n.
  do 4 (destruct n as [|n]; [vm_compute; reflexivity|]); reflexivity.
Qed.

Lemma silent_fair : timers_fair silent silent_states.
Proof.
  intros n id Hid; destruct (decide (n <= 3)%nat).
  - exists 4%nat; split; [lia|right]; change (timers (requests (silent_states 4))) with (@nil JsonRpcId).
    apply not_elem_of_nil.
  - exfalso; assert (Hn : timers (requests (silent_states n)) = []).
    { destruct (decide (n = 4%nat)) as [->|]; [vm_compute; reflexivity|].
      rewrite silent_settles by lia; vm_compute; reflexivity. }
    rewrite Hn in Hid; by apply elem_of_nil in Hid.
Qed.

Lemma request_liveness_witness :
  ∃ m s, (2 <= m)%nat ∧ ∀ k, (m <= k)%nat →
    map_get (request_id 1) (settled (requests (silent_states k))) = Some s.
Proof.
  apply (request_liveness silent silent_states 2 (request_id 1) silent_run silent_fair).
  refine (bool_decide_unpack _ _); vm_compute; exact I.
Defined.

(** *** Interleavings that end in the wrong state

    The transport closes while the handshake is being authorized: the driver ends ready,
    with the disconnect already notified. *)
Example ready_after_disconnect :
  let d := state_after (handshake ++ [OnClose "gone"; Resume 0 (AuthorizationIs yes)]) in
  state d = ready ∧ disconnectNotified d = true
  ∧ disconnectNotified (handle (OnClose "gone") d) = true ∧ state (handle (OnClose "gone") d) = ready.
Proof. vm_compute. done. Qed.

(** The same after [close]. *)
Example ready_after_close :
  state (state_after (handshake ++ [Close; Resume 0 (AuthorizationIs yes)])) = ready.
Proof. vm_compute. reflexivity. Qed.

(** The reply to a server request cannot be sent because the socket is closed: the driver
    takes it for a malformed message of an incompatible server. *)
Example failed_reply_incompatible :
  let d := state_after (connection ++ tool_call ++
             [Resume 0 (LeaseIs true); OnClose "gone";
              Resume 0 (RejectedWith (PlainError "Codex app-server WebSocket is not open"))]) in
  state d = incompatible
  ∧ existsb (λ o, match o with
                  | ReportedFault (protocol_fault malformed_message) m true _ =>
                      String.eqb m "Error: Codex app-server WebSocket is not open"
                  | _ => false
                  end) (outputs d) = true.
Proof. vm_compute. done. Qed.

(** [close] during the initialize request: the [catch] of [connect] reopens the driver. *)
Example closed_then_disconnected :
  state (state_after [Connect; Resume 0 Fulfilled; SendSettled (request_id 1) None; Close;
                      Resume 1 Fulfilled; Resume 0 Fulfilled]) = disconnected.
Proof. vm_compute. reflexivity. Qed.
End DriverExample.
