(* ===== verification/ExternalRuntime.v ===== *)
(** * The controller of external runtimes

    [ServiceExternalRuntimeController] of
    [ts/packages/brain-island/src/service-external-runtime.ts]: connecting the drivers of
    the registered runtimes, renewing the controller's leases, recovering a lost connection
    with a growing delay, and the interactions that wait for an operator.  The class is cut
    at its awaits as the driver is: a task waits for the native bridge, for a driver or for
    another operation, and every order of their answers is a run of the relation
    [ctl_step].  The bridge's answers, the clock and what the drivers do are events. *)

From stdpp Require Import sets list relations.
From S2P Require Import Prelude JsString JsDate Json CodexRequests CodexDriver.
#[local] Open Scope Z_scope.

(** ** Data *)

(** The members of [ExternalRuntimeRegistration] that the controller reads. *)
Record Registration := {
  reg_runtimeId : string;
  desiredState : string;
  reg_kind : string;
  observedState : string;
  lastCompatibilityOutcome : option probe_outcome
}.

Record Lease := { holderInstanceId : string; generation : Z; lease_expiresAt : string }.

(** [ControlledRuntime]; [driver] is the state of its driver. *)
Record ControlledRuntime := {
  registration : Registration;
  lease : Lease;
  driver : CodexDriverState;
  handshake : bool;
  retired : bool
}.

Inductive ExternalRuntimeRecoveryPhase :=
| recovery_idle | recovery_scheduled | recovery_attempting | recovery_succeeded | recovery_failed.
#[global] Instance recovery_phase_eq : EqDecision ExternalRuntimeRecoveryPhase.
Proof. solve_decision. Defined.

Record ExternalRuntimeRecoveryTracker := {
  phase : ExternalRuntimeRecoveryPhase;
  totalAttempts : Z;
  consecutiveFailures : Z;
  lastAttemptAt : option string;
  lastRecoveredAt : option string;
  nextAttemptAt : option string;
  lastFailureReason : option string
}.

(** The members of [ExternalInteractionRecord] that the controller reads. *)
Record Interaction := { interactionId : string; interaction_runtimeId : string; revision : Z }.

(** [PendingInteractionResolution]: the promise, by its number, its timer being the one
    with the same number. *)
Record PendingInteraction := { promise : nat; interaction : Interaction }.

(** ** Tasks *)

(** Where an operation of [#connectRuntime] waits.  A record is named by its place in the
    list of all records made. *)
Inductive connect_stage :=
| ExistingLease (l : nat)
| ExistingResume (l : nat)
| ExistingGet (l : nat)
| ExistingRestore (l : nat)
| FreshGet (existing : option nat)
| FreshLease (existing : option nat) (r : Registration)
| FreshClose (old new : nat) (r : Registration)
| FreshRecord (new : nat) (recovering : bool) (r : Registration)
| FreshConnect (new : nat) (recovering : bool) (r : Registration)
| FreshResume (new : nat) (recovering : bool) (r : Registration)
| FreshReget (new : nat) (recovering : bool) (r : Registration)
| FailedRecord (new : nat) (error : string).

Inductive ctl_task :=
| Connecting (op : nat) (rid : string) (st : connect_stage)
| TickList
| TickConnect (op : nat) (rest : list Registration)
| TickLease (r : Registration) (l : nat) (rest : list Registration)
| TickExpire
| TickDispatch
| StopClose (i : nat) (l : nat)
| StopRelease (i : nat) (l : nat)
| DisconnectClose (l : nat) (reason : string) (p : PendingInteraction)
| DisconnectRecord (l : nat)
| FaultRecord (l : nat)
| Handshake (l : nat)
| AskBinding (p : nat) (l : nat) (i : string)
| AskTurn (p : nat) (l : nat) (i : string) (bound : bool)
| AskRecord (p : nat) (l : nat) (i : string)
| AskTransition (p : nat) (l : nat) (i : Interaction)
| ExpireInteraction (p : nat)
| AnswerList (i : string) (result : json)
| AnswerSave (i : string) (result : json)
| AnswerTurns (i : string) (result : json) (rid : string)
| AnswerTransition (i : string) (result : json).

(** How a promise of an interaction, or an operation, ends. *)
Inductive outcome (A : Type) := Fulfilled (a : A) | Failed (error : string).
Arguments Fulfilled {A} a.
Arguments Failed {A} error.

(** What the controller asks of the bridge and of the drivers. *)
Inductive ctl_output :=
| AskedLease (rid : string)
| ConnectedDriver (l : nat)
| ClosedDriver (l : nat)
| ReleasedLease (l : nat)
| RecordedState (l : nat) (state reason : string)
| RequestedHandshake (l : nat)
| Terminalized (i : Interaction) (status : string)
| DispatchedTurns.

Definition set_registration (x : Registration) (c : ControlledRuntime) : ControlledRuntime :=
  {| registration := x; lease := lease c; driver := driver c; handshake := handshake c; retired := retired c
     |}.
Definition set_lease (x : Lease) (c : ControlledRuntime) : ControlledRuntime :=
  {| registration := registration c; lease := x; driver := driver c; handshake := handshake c; retired :=
     retired c |}.
Definition set_driver (x : CodexDriverState) (c : ControlledRuntime) : ControlledRuntime :=
  {| registration := registration c; lease := lease c; driver := x; handshake := handshake c; retired :=
     retired c |}.
Definition set_handshake (x : bool) (c : ControlledRuntime) : ControlledRuntime :=
  {| registration := registration c; lease := lease c; driver := driver c; handshake := x; retired :=
     retired c |}.
Definition set_retired (x : bool) (c : ControlledRuntime) : ControlledRuntime :=
  {| registration := registration c; lease := lease c; driver := driver c; handshake := handshake c; retired
     := x |}.

(** The fields of the class.  [heap] holds every record ever made, [operations] every
    connect operation with its end, [promises] every promise of an interaction. *)
Record Controller := {
  heap : list ControlledRuntime;
  controlled : jsmap string nat;
  connectInFlight : jsmap string nat;
  operations : list (option (outcome unit));
  recovery : jsmap string ExternalRuntimeRecoveryTracker;
  pendingInteractions : jsmap string PendingInteraction;
  promises : list (option (outcome ServerRequestResolution));
  interactionTimers : list (nat * Interaction);
  ticking : bool;
  ctl_tasks : list ctl_task;
  ctl_outputs : list ctl_output
}.

Definition set_heap (x : list ControlledRuntime) (c : Controller) : Controller :=
  {| heap := x; controlled := controlled c; connectInFlight := connectInFlight c; operations := operations
     c; recovery := recovery c; pendingInteractions := pendingInteractions c; promises := promises c;
     interactionTimers := interactionTimers c; ticking := ticking c; ctl_tasks := ctl_tasks c; ctl_outputs
     := ctl_outputs c |}.
Definition set_controlled (x : jsmap string nat) (c : Controller) : Controller :=
  {| heap := heap c; controlled := x; connectInFlight := connectInFlight c; operations := operations c;
     recovery := recovery c; pendingInteractions := pendingInteractions c; promises := promises c;
     interactionTimers := interactionTimers c; ticking := ticking c; ctl_tasks := ctl_tasks c; ctl_outputs
     := ctl_outputs c |}.
Definition set_connectInFlight (x : jsmap string nat) (c : Controller) : Controller :=
  {| heap := heap c; controlled := controlled c; connectInFlight := x; operations := operations c; recovery
     := recovery c; pendingInteractions := pendingInteractions c; promises := promises c; interactionTimers
     := interactionTimers c; ticking := ticking c; ctl_tasks := ctl_tasks c; ctl_outputs := ctl_outputs c
     |}.
Definition set_operations (x : list (option (outcome unit))) (c : Controller) : Controller :=
  {| heap := heap c; controlled := controlled c; connectInFlight := connectInFlight c; operations := x;
     recovery := recovery c; pendingInteractions := pendingInteractions c; promises := promises c;
     interactionTimers := interactionTimers c; ticking := ticking c; ctl_tasks := ctl_tasks c; ctl_outputs
     := ctl_outputs c |}.
Definition set_recovery (x : jsmap string ExternalRuntimeRecoveryTracker) (c : Controller) : Controller :=
  {| heap := heap c; controlled := controlled c; connectInFlight := connectInFlight c; operations :=
     operations c; recovery := x; pendingInteractions := pendingInteractions c; promises := promises c;
     interactionTimers := interactionTimers c; ticking := ticking c; ctl_tasks := ctl_tasks c; ctl_outputs
     := ctl_outputs c |}.
Definition set_pendingInteractions (x : jsmap string PendingInteraction) (c : Controller) : Controller :=
  {| heap := heap c; controlled := controlled c; connectInFlight := connectInFlight c; operations :=
     operations c; recovery := recovery c; pendingInteractions := x; promises := promises c;
     interactionTimers := interactionTimers c; ticking := ticking c; ctl_tasks := ctl_tasks c; ctl_outputs
     := ctl_outputs c |}.
Definition set_promises (x : list (option (outcome ServerRequestResolution))) (c : Controller) : Controller :=
  {| heap := heap c; controlled := controlled c; connectInFlight := connectInFlight c; operations :=
     operations c; recovery := recovery c; pendingInteractions := pendingInteractions c; promises := x;
     interactionTimers := interactionTimers c; ticking := ticking c; ctl_tasks := ctl_tasks c; ctl_outputs
     := ctl_outputs c |}.
Definition set_interactionTimers (x : list (nat * Interaction)) (c : Controller) : Controller :=
  {| heap := heap c; controlled := controlled c; connectInFlight := connectInFlight c; operations :=
     operations c; recovery := recovery c; pendingInteractions := pendingInteractions c; promises :=
     promises c; interactionTimers := x; ticking := ticking c; ctl_tasks := ctl_tasks c; ctl_outputs :=
     ctl_outputs c |}.
Definition set_ticking (x : bool) (c : Controller) : Controller :=
  {| heap := heap c; controlled := controlled c; connectInFlight := connectInFlight c; operations :=
     operations c; recovery := recovery c; pendingInteractions := pendingInteractions c; promises :=
     promises c; interactionTimers := interactionTimers c; ticking := x; ctl_tasks := ctl_tasks c;
     ctl_outputs := ctl_outputs c |}.
Definition set_ctl_tasks (x : list ctl_task) (c : Controller) : Controller :=
  {| heap := heap c; controlled := controlled c; connectInFlight := connectInFlight c; operations :=
     operations c; recovery := recovery c; pendingInteractions := pendingInteractions c; promises :=
     promises c; interactionTimers := interactionTimers c; ticking := ticking c; ctl_tasks := x; ctl_outputs
     := ctl_outputs c |}.
Definition set_ctl_outputs (x : list ctl_output) (c : Controller) : Controller :=
  {| heap := heap c; controlled := controlled c; connectInFlight := connectInFlight c; operations :=
     operations c; recovery := recovery c; pendingInteractions := pendingInteractions c; promises :=
     promises c; interactionTimers := interactionTimers c; ticking := ticking c; ctl_tasks := ctl_tasks c;
     ctl_outputs := x |}.
Definition new_controller : Controller :=
  {| heap := []; controlled := []; connectInFlight := []; operations := []; recovery := []; pendingInteractions := [];
     promises := []; interactionTimers := []; ticking := false; ctl_tasks := []; ctl_outputs := [] |}.

Definition ctl_await (t : ctl_task) (c : Controller) : Controller := set_ctl_tasks (ctl_tasks c ++ [t]) c.
Definition ctl_emit (o : ctl_output) (c : Controller) : Controller := set_ctl_outputs (ctl_outputs c ++ [o]) c.

(** A change of one record. *)
Definition on_record (l : nat) (f : ControlledRuntime → ControlledRuntime) (c : Controller) : Controller :=
  set_heap (alter f l (heap c)) c.


(** The answers a task can get. *)
Inductive ctl_answer :=
| Returned
| Threw (error : string)
| LeaseIs (x : Lease)
| RuntimeIs (r : option Registration)
| RuntimesAre (rs : list Registration)
| RegistrationIs (r : Registration)
| Decided (accepted : bool) (reasonCode : option string) (r : Registration)
| FoundIs (found : bool)
| SavedIs (rid : string) (revision : Z)
| OperationSettled.

(** The delays the constructor accepts. *)
Definition recovery_delays (base max : option Z) : result (Z * Z) :=
  let base := default 5000 base in
  let max := default 60000 max in
  if (base <=? 0) || (max <? base) then Throw "external runtime recovery delays must be positive and max must be at least base"
  else Ok (base, max).

(** The instance, its delays, which the constructor has checked, and the host's dates. *)
Class ControllerEnvironment := {
  instanceId : string;
  recoveryBaseDelayMs : Z;
  recoveryMaxDelayMs : Z;
  controller_dates : DateText;
  delays_checked : 0 < recoveryBaseDelayMs <= recoveryMaxDelayMs
}.

Section ControllerOperations.
Context {E : ControllerEnvironment}.
#[local] Existing Instance controller_dates.
Implicit Types (c : Controller) (l op p : nat) (rid : string) (now : Z).

(** [new Date(t).toISOString()] for a valid time *)
Definition iso (t : Z) : string := str (iso_text t).

(** ** Recovery *)

Definition new_tracker : ExternalRuntimeRecoveryTracker :=
  {| phase := recovery_idle; totalAttempts := 0; consecutiveFailures := 0; lastAttemptAt := None; lastRecoveredAt := None;
     nextAttemptAt := None; lastFailureReason := None |}.

Definition tracker c rid : ExternalRuntimeRecoveryTracker := default new_tracker (map_get rid (recovery c)).

Definition set_tracker rid (t : ExternalRuntimeRecoveryTracker) c : Controller := set_recovery (map_set rid t (recovery c)) c.

(** [#recoveryTracker] makes the tracker that is not there. *)
Definition recoveryTracker rid c : Controller := set_tracker rid (tracker c rid) c.

Definition schedule (reason : string) now (t : ExternalRuntimeRecoveryTracker) : ExternalRuntimeRecoveryTracker :=
  let waiting := match phase t, nextAttemptAt t with
                 | recovery_failed, Some a => match date_parse a with Some u => now <? u | None => false end
                 | _, _ => false
                 end in
  if waiting then t
  else {| phase := recovery_scheduled; totalAttempts := totalAttempts t; consecutiveFailures := consecutiveFailures t;
          lastAttemptAt := lastAttemptAt t; lastRecoveredAt := lastRecoveredAt t; nextAttemptAt := Some (iso now);
          lastFailureReason := Some (Str.slice reason 0 1024) |}.

Definition scheduleRecovery rid (reason : string) now c : Controller := set_tracker rid (schedule reason now (tracker c rid)) c.

(** [Math.min(base * 2 ** Math.min(failures - 1, 20), max)] *)
Definition recoveryDelay (failures : Z) : Z :=
  Z.min (recoveryBaseDelayMs * 2 ^ Z.min (failures - 1) 20) recoveryMaxDelayMs.

Definition installed_state c rid : option CodexDriverState := l ← map_get rid (controlled c); driver <$> heap c !! l.

Definition fail_attempt (error : string) now (disconnected_ : bool) (t : ExternalRuntimeRecoveryTracker)
    : ExternalRuntimeRecoveryTracker :=
  let failures := consecutiveFailures t + 1 in
  {| phase := recovery_failed; totalAttempts := totalAttempts t; consecutiveFailures := failures;
     lastAttemptAt := lastAttemptAt t; lastRecoveredAt := lastRecoveredAt t;
     nextAttemptAt := if disconnected_ then Some (iso (now + recoveryDelay failures)) else None;
     lastFailureReason := Some (Str.slice error 0 1024) |}.

Definition recordRecoveryFailure rid (error : string) now c : Controller :=
  set_tracker rid (fail_attempt error now (bool_decide (installed_state c rid = Some disconnected)) (tracker c rid)) c.

Definition recovery_due (t : ExternalRuntimeRecoveryTracker) now : bool :=
  match nextAttemptAt t with
  | None => true
  | Some a => match date_parse a with Some u => u <=? now | None => false end
  end.

Definition recoveryDue rid now c : bool := recovery_due (tracker c rid) now.

Definition begin_attempt now (t : ExternalRuntimeRecoveryTracker) : ExternalRuntimeRecoveryTracker :=
  {| phase := recovery_attempting; totalAttempts := totalAttempts t + 1; consecutiveFailures := consecutiveFailures t;
     lastAttemptAt := Some (iso now); lastRecoveredAt := lastRecoveredAt t; nextAttemptAt := None;
     lastFailureReason := lastFailureReason t |}.

Definition succeed_attempt now (t : ExternalRuntimeRecoveryTracker) : ExternalRuntimeRecoveryTracker :=
  {| phase := recovery_succeeded; totalAttempts := totalAttempts t; consecutiveFailures := 0;
     lastAttemptAt := lastAttemptAt t; lastRecoveredAt := Some (iso now); nextAttemptAt := None;
     lastFailureReason := lastFailureReason t |}.

(** The tracker of the operation, which a [stop] can have dropped. *)
Definition recovered rid now c : Controller :=
  match map_get rid (recovery c) with Some t => set_tracker rid (succeed_attempt now t) c | None => c end.

(** ** Authority *)

Definition record_runtime c l : option string := reg_runtimeId ∘ registration <$> heap c !! l.

Definition isActiveController c l : bool :=
  match heap c !! l with
  | Some x => negb (retired x) && bool_decide (map_get (reg_runtimeId (registration x)) (controlled c) = Some l)
  | None => false
  end.

Definition hasLease c l now : bool :=
  match heap c !! l with
  | Some x => String.eqb (holderInstanceId (lease x)) instanceId
              && match date_parse (lease_expiresAt (lease x)) with Some u => now <? u | None => false end
  | None => false
  end.

(** [hasControllerLease] of the authority a driver is given *)
Definition hasControllerLease c l now : bool := isActiveController c l && hasLease c l now.

(** ** Connecting *)

Definition acquireLease rid c : Controller := ctl_emit (AskedLease rid) c.

(** The operation's promise is settled and leaves the map of those in flight. *)
Definition finish_connect op rid (r : outcome unit) c : Controller :=
  let c := set_operations (<[op := Some r]> (operations c)) c in
  if bool_decide (map_get rid (connectInFlight c) = Some op)
  then set_connectInFlight (map_delete rid (connectInFlight c)) c else c.

Definition connectRuntime op rid c : Controller :=
  match map_get rid (controlled c) with
  | Some l =>
      if bool_decide (driver <$> heap c !! l = Some ready)
      then ctl_await (Connecting op rid (ExistingLease l)) (acquireLease rid c)
      else ctl_await (Connecting op rid (FreshGet (Some l))) c
  | None => ctl_await (Connecting op rid (FreshGet None)) c
  end.

(** [connect]: the operation in flight, or a new one. *)
Definition connect rid c : Controller * nat :=
  match map_get rid (connectInFlight c) with
  | Some op => (c, op)
  | None =>
      let op := length (operations c) in
      let c := connectRuntime op rid (set_operations (operations c ++ [None]) c) in
      (set_connectInFlight (map_set rid op (connectInFlight c)) c, op)
  end.

Definition recordState l (state reason : string) c : Controller := ctl_emit (RecordedState l state reason) c.

(** The new record becomes the runtime's. *)
Definition install op rid new (recovering : bool) (r : Registration) c : Controller :=
  ctl_await (Connecting op rid (FreshRecord new recovering r))
    (recordState new "connecting" (if recovering then "controller_recovery_attempting" else "controller_connecting")
       (set_controlled (map_set rid new (controlled c)) c)).

(** The [catch] of [#connectRuntime]. *)
Definition connect_caught op rid (new : option nat) (recovering : bool) (error : string) now c : Controller :=
  let c := if recovering then recordRecoveryFailure rid error now c else c in
  match new with
  | Some l =>
      if isActiveController c l && negb (bool_decide (driver <$> heap c !! l = Some incompatible))
         && negb (bool_decide (lastCompatibilityOutcome ∘ registration <$> heap c !! l = Some (Some transport_retryable)))
      then ctl_await (Connecting op rid (FailedRecord l error)) (recordState l "degraded" "controller_connect_failed" c)
      else finish_connect op rid (Failed error) c
  | None => finish_connect op rid (Failed error) c
  end.

(** What [#authorizeHandshake] keeps of a decision. *)
Definition decided (accepted : bool) (r : Registration) (x : ControlledRuntime) : ControlledRuntime :=
  set_handshake (accepted || handshake x) (set_registration r x).

(** [#restoreReadyRegistration]; a record with an accepted handshake has a probe report,
    since its driver probes before it asks. *)
Definition restoreReadyRegistration op rid l c : Controller :=
  if bool_decide (handshake <$> heap c !! l = Some true)
  then ctl_await (Connecting op rid (ExistingRestore l)) (ctl_emit (RequestedHandshake l) c)
  else finish_connect op rid (Failed ("external runtime " +:+ default "" (record_runtime c l) +:+
                              " has no accepted handshake identity")) c.

Definition found_runtime op rid (existing : option nat) (r : Registration) now c : Controller :=
  if negb (String.eqb (desiredState r) "enabled") then
    finish_connect op rid (Failed ("external runtime " +:+ rid +:+ " is disabled")) c
  else if negb (String.eqb (reg_kind r) "codex_app_server") then
    finish_connect op rid (Failed ("unsupported external runtime kind " +:+ reg_kind r)) c
  else
    let c := match existing with
             | Some _ => set_tracker rid (begin_attempt now (tracker c rid)) c
             | None => recoveryTracker rid c
             end in
    ctl_await (Connecting op rid (FreshLease existing r)) (acquireLease rid c).

(** A record with a new driver; the one it replaces is retired and closed first. *)
Definition leased op rid (existing : option nat) (r : Registration) (x : Lease) c : Controller :=
  let new := length (heap c) in
  let c := set_heap (heap c ++ [{| registration := r; lease := x; driver := disconnected; handshake := false;
                                   retired := false |}]) c in
  match existing with
  | Some old =>
      ctl_await (Connecting op rid (FreshClose old new r))
        (ctl_emit (ClosedDriver old) (on_record old (set_retired true) c))
  | None => install op rid new false r c
  end.

Definition is_some {A} (o : option A) : bool := match o with Some _ => true | None => false end.

(** What follows each await of [#connectRuntime]. *)
Definition continue_connect op rid (st : connect_stage) (a : ctl_answer) now c : Controller :=
  match st, a with
  | ExistingLease l, LeaseIs x => ctl_await (Connecting op rid (ExistingResume l)) (on_record l (set_lease x) c)
  | ExistingResume l, Returned => ctl_await (Connecting op rid (ExistingGet l)) c
  | ExistingGet l, RuntimeIs r =>
      let c := match r with Some r => on_record l (set_registration r) c | None => c end in
      if bool_decide (observedState ∘ registration <$> heap c !! l = Some "ready")
      then finish_connect op rid (Fulfilled ()) c else restoreReadyRegistration op rid l c
  | ExistingRestore l, Decided accepted reason r =>
      let c := on_record l (decided accepted r) c in
      finish_connect op rid (if accepted then Fulfilled ()
                     else Failed (default ("external runtime " +:+ reg_runtimeId r +:+ " handshake reconciliation failed")
                                    reason)) c
  | FreshGet existing, RuntimeIs (Some r) => found_runtime op rid existing r now c
  | FreshGet existing, RuntimeIs None => finish_connect op rid (Failed ("external runtime " +:+ rid +:+ " was not found")) c
  | FreshLease existing r, LeaseIs x => leased op rid existing r x c
  | FreshLease existing r, Threw e => connect_caught op rid None (is_some existing) e now c
  | FreshClose old new r, _ => install op rid new true r c
  | FreshRecord new recovering r, RegistrationIs _ =>
      ctl_await (Connecting op rid (FreshConnect new recovering r)) (ctl_emit (ConnectedDriver new) c)
  | FreshConnect new recovering r, Returned => ctl_await (Connecting op rid (FreshResume new recovering r)) c
  | FreshResume new recovering r, Returned => ctl_await (Connecting op rid (FreshReget new recovering r)) c
  | FreshReget new recovering r, RuntimeIs r' =>
      let c := on_record new (set_registration (default r r')) c in
      finish_connect op rid (Fulfilled ()) (if recovering then recovered rid now c else c)
  | FreshRecord new recovering _, Threw e | FreshConnect new recovering _, Threw e
  | FreshResume new recovering _, Threw e | FreshReget new recovering _, Threw e =>
      connect_caught op rid (Some new) recovering e now c
  | FailedRecord new error, RegistrationIs r => finish_connect op rid (Failed error) (on_record new (set_registration r) c)
  | _, Threw e => finish_connect op rid (Failed e) c
  | _, _ => c
  end.

(** ** The loop over the runtimes *)

Definition tick_done c : Controller := set_ticking false c.

Fixpoint tick_runtimes (rs : list Registration) now c : Controller :=
  match rs with
  | [] => ctl_await TickExpire c
  | r :: rest =>
      if negb (String.eqb (desiredState r) "enabled") then tick_runtimes rest now c
      else
        let connect_first c := let '(c, op) := connect (reg_runtimeId r) c in ctl_await (TickConnect op rest) c in
        match map_get (reg_runtimeId r) (controlled c) with
        | None => connect_first c
        | Some l =>
            match driver <$> heap c !! l with
            | Some disconnected =>
                let c := recoveryTracker (reg_runtimeId r) c in
                if recoveryDue (reg_runtimeId r) now c then connect_first c else tick_runtimes rest now c
            | st =>
                if bool_decide (st = Some ready) && negb (String.eqb (observedState r) "ready") then connect_first c
                else ctl_await (TickLease r l rest) (acquireLease (reg_runtimeId r) (on_record l (set_registration r) c))
            end
        end
  end.

Definition tick c : Controller := if ticking c then c else ctl_await TickList (set_ticking true c).

(** ** Interactions *)

(** A promise is settled by the first of its resolutions. *)
Definition settle_promise p (r : outcome ServerRequestResolution) c : Controller :=
  match promises c !! p with
  | Some None => set_promises (<[p := Some r]> (promises c)) c
  | _ => c
  end.

Definition clear_timer p c : Controller :=
  set_interactionTimers (List.filter (λ t, negb (t.1 =? p)%nat) (interactionTimers c)) c.

(** [resolveServerRequest] for a request that waits for an operator, which
    [#waitForInteraction] answers; [valid] says that it names a thread and a turn. *)
Definition resolveServerRequest l (request : string) (valid : bool) c : Controller :=
  let p := length (promises c) in
  let c := set_promises (promises c ++ [None]) c in
  if negb (isActiveController c l) then
    settle_promise p (Fulfilled (Failure (-32001) "Rusty Crew controller was superseded" JUndefined)) c
  else if negb valid then
    settle_promise p (Fulfilled (Failure (-32602) "interactive request lacks threadId or turnId" JUndefined)) c
  else ctl_await (AskBinding p l request) c.

Definition turn_found p l (request : string) (both : bool) c : Controller :=
  if both then ctl_await (AskRecord p l (default "" (record_runtime c l) +:+ ":" +:+ request)) c
  else settle_promise p
         (Fulfilled (Failure (-32004) "interactive request does not match an active Crew turn" JUndefined)) c.

(** The promise is registered, with its timer. *)
Definition register_interaction p (i : Interaction) c : Controller :=
  set_pendingInteractions (map_set (interactionId i) {| promise := p; interaction := i |} (pendingInteractions c))
    (set_interactionTimers (interactionTimers c ++ [(p, i)]) c).

Definition interaction_expired p (i : Interaction) c : Controller :=
  ctl_await (ExpireInteraction p)
    (ctl_emit (Terminalized i "expired")
       (set_pendingInteractions (map_delete (interactionId i) (pendingInteractions c)) (clear_timer p c))).

(** The last part of [resolveInteraction]. *)
Definition answer_pending (i : string) (result : json) c : Controller :=
  match map_get i (pendingInteractions c) with
  | Some q =>
      settle_promise (promise q) (Fulfilled (Success result))
        (set_pendingInteractions (map_delete i (pendingInteractions c)) (clear_timer (promise q) c))
  | None => c
  end.

Definition turns_listed (i : string) (result : json) rid (waiting : bool) c : Controller :=
  if waiting && bool_decide (installed_state c rid = Some ready)
  then ctl_await (AnswerTransition i result) c else answer_pending i result c.

(** ** Disconnection *)

(** The first interaction of the runtime that is left. *)
Definition next_lost rid c : option PendingInteraction :=
  snd <$> List.find (λ q, String.eqb (interaction_runtimeId (interaction q.2)) rid) (pendingInteractions c).

(** The loop over the pending interactions, then the observed state. *)
Definition disconnect_next l (reason : string) c : Controller :=
  match next_lost (default "" (record_runtime c l)) c with
  | Some q =>
      ctl_await (DisconnectClose l reason q)
        (ctl_emit (Terminalized (interaction q) "lost")
           (set_pendingInteractions (map_delete (interactionId (interaction q)) (pendingInteractions c))
              (clear_timer (promise q) c)))
  | None =>
      ctl_await (DisconnectRecord l) (recordState l "disconnected" ("controller_disconnected:" +:+ reason) c)
  end.

Definition onDisconnected l (reason : string) now c : Controller :=
  if negb (isActiveController c l) then c
  else disconnect_next l reason (scheduleRecovery (default "" (record_runtime c l)) reason now c).

Definition onProtocolFault l (fatal : bool) (reason : string) c : Controller :=
  if negb (isActiveController c l) then c
  else ctl_await (FaultRecord l) (recordState l (if fatal then "degraded" else "disconnected") reason c).

(** The authority's [authorizeHandshake]; a superseded controller is refused at once. *)
Definition authorizeHandshake l c : Controller :=
  if negb (isActiveController c l) then c else ctl_await (Handshake l) (ctl_emit (RequestedHandshake l) c).

(** ** [stop] *)

Definition stop_resolution : outcome ServerRequestResolution :=
  Fulfilled (Failure (-32002) "Rusty Crew controller stopped before interaction resolution" JUndefined).

Fixpoint stop_interactions (qs : list PendingInteraction) c : Controller :=
  match qs with
  | [] => c
  | q :: qs => stop_interactions qs (settle_promise (promise q) stop_resolution (clear_timer (promise q) c))
  end.

(** The loop over the map of controllers, which is read as it is when the loop comes to
    an entry; then the maps are cleared. *)
Definition stop_next (i : nat) c : Controller :=
  match controlled c !! i with
  | Some (_, l) => ctl_await (StopClose i l) (ctl_emit (ClosedDriver l) (on_record l (set_retired true) c))
  | None => set_recovery [] (set_connectInFlight [] (set_controlled [] c))
  end.

Definition stop c : Controller :=
  stop_next 0 (set_pendingInteractions [] (stop_interactions (map_values (pendingInteractions c)) c)).

(** ** Events *)

Inductive ctl_event :=
| CallConnect (rid : string)
| CallTick
| CallStop
| CallResolveInteraction (i : string) (result : json)
| ServerRequest (l : nat) (request : string) (valid : bool)
| HandshakeRequest (l : nat)
| DriverMoves (l : nat) (st : CodexDriverState)
| DriverDisconnected (l : nat) (reason : string)
| DriverFault (l : nat) (fatal : bool) (reason : string)
| TimerFires (p : nat)
| Continue (k : nat) (a : ctl_answer).

Definition continue_ctl (t : ctl_task) (a : ctl_answer) now c : Controller :=
  match t, a with
  | Connecting op rid st, _ => continue_connect op rid st a now c
  | TickList, RuntimesAre rs => tick_runtimes rs now c
  | TickConnect _ rest, _ => tick_runtimes rest now c
  | TickLease r l rest, LeaseIs x => tick_runtimes rest now (on_record l (set_lease x) c)
  | TickExpire, Returned => ctl_await TickDispatch (ctl_emit DispatchedTurns c)
  | TickList, _ | TickLease _ _ _, _ | TickExpire, _ | TickDispatch, _ => tick_done c
  | StopClose i l, _ => ctl_await (StopRelease i l) (ctl_emit (ReleasedLease l) c)
  | StopRelease i l, _ => stop_next (S i) c
  | DisconnectClose l reason q, _ =>
      disconnect_next l reason
        (settle_promise (promise q)
           (Fulfilled (Failure (-32006) "external interaction was lost with the controller connection" JUndefined)) c)
  | DisconnectRecord l, RegistrationIs r | FaultRecord l, RegistrationIs r => on_record l (set_registration r) c
  | DisconnectRecord _, _ | FaultRecord _, _ => c
  | Handshake l, Decided accepted _ r => on_record l (decided accepted r) c
  | Handshake _, _ => c
  | AskBinding p l request, FoundIs b => ctl_await (AskTurn p l request b) c
  | AskTurn p l request b, FoundIs b' => turn_found p l request (b && b') c
  | AskRecord p l i, SavedIs rid rev =>
      ctl_await (AskTransition p l {| interactionId := i; interaction_runtimeId := rid; revision := rev |}) c
  | AskTransition p l i, Returned => register_interaction p i c
  | AskBinding p _ _, Threw e | AskTurn p _ _ _, Threw e | AskRecord p _ _, Threw e | AskTransition p _ _, Threw e =>
      settle_promise p (Failed e) c
  | ExpireInteraction p, _ =>
      settle_promise p
        (Fulfilled (Failure (-32005) "external interaction expired before operator response" JUndefined)) c
  | AnswerList i result, FoundIs true => ctl_await (AnswerSave i result) c
  | AnswerSave i result, SavedIs rid _ => ctl_await (AnswerTurns i result rid) c
  | AnswerTurns i result rid, FoundIs waiting => turns_listed i result rid waiting c
  | AnswerTransition i result, Returned => answer_pending i result c
  | _, _ => c
  end.

(** The answers a task can get. *)
Definition ctl_answers (t : ctl_task) (a : ctl_answer) c : bool :=
  match t, a with
  | Connecting _ _ (ExistingLease _ | FreshLease _ _), LeaseIs _
  | Connecting _ _ (ExistingResume _ | FreshClose _ _ _ | FreshConnect _ _ _ | FreshResume _ _ _), Returned
  | Connecting _ _ (ExistingGet _ | FreshGet _ | FreshReget _ _ _), RuntimeIs _
  | Connecting _ _ (ExistingRestore _), Decided _ _ _
  | Connecting _ _ (FreshRecord _ _ _ | FailedRecord _ _), RegistrationIs _
  | TickList, RuntimesAre _
  | TickLease _ _ _, LeaseIs _
  | (TickExpire | TickDispatch | StopClose _ _ | StopRelease _ _ | DisconnectClose _ _ _ | AskTransition _ _ _
     | ExpireInteraction _ | AnswerTransition _ _), Returned
  | (DisconnectRecord _ | FaultRecord _), RegistrationIs _
  | Handshake _, Decided _ _ _
  | (AskBinding _ _ _ | AskTurn _ _ _ _ | AnswerList _ _ | AnswerTurns _ _ _), FoundIs _
  | (AskRecord _ _ _ | AnswerSave _ _), SavedIs _ _ => true
  | TickConnect op _, OperationSettled => match operations c !! op with Some (Some _) => true | _ => false end
  | TickConnect _ _, _ => false
  | _, Threw _ => true
  | _, _ => false
  end.

Definition ctl_enabled c (e : ctl_event) : bool :=
  match e with
  | ServerRequest l _ _ | HandshakeRequest l | DriverMoves l _ | DriverDisconnected l _ | DriverFault l _ _ =>
      (l <? length (heap c))%nat
  | TimerFires p => bool_decide (p ∈ (interactionTimers c).*1)
  | Continue k a => match ctl_tasks c !! k with Some t => ctl_answers t a c | None => false end
  | _ => true
  end.

Definition ctl_handle (e : ctl_event) now c : Controller :=
  match e with
  | CallConnect rid => (connect rid c).1
  | CallTick => tick c
  | CallStop => stop c
  | CallResolveInteraction i result => ctl_await (AnswerList i result) c
  | ServerRequest l request valid => resolveServerRequest l request valid c
  | HandshakeRequest l => authorizeHandshake l c
  | DriverMoves l st => on_record l (set_driver st) c
  | DriverDisconnected l reason => onDisconnected l reason now c
  | DriverFault l fatal reason => onProtocolFault l fatal reason c
  | TimerFires p =>
      match List.find (λ t, (t.1 =? p)%nat) (interactionTimers c) with
      | Some (_, i) => interaction_expired p i c
      | None => c
      end
  | Continue k a =>
      match ctl_tasks c !! k with
      | Some t => continue_ctl t a now (set_ctl_tasks (delete k (ctl_tasks c)) c)
      | None => c
      end
  end.

(** The runtime that the registration of an answer is about. *)
Definition answer_registration (a : ctl_answer) : option Registration :=
  match a with RuntimeIs r => r | RegistrationIs r | Decided _ _ r => Some r | _ => None end.

Definition asked_runtime c (t : ctl_task) : option string :=
  match t with
  | Connecting _ rid _ => Some rid
  | DisconnectRecord l | FaultRecord l | Handshake l => record_runtime c l
  | _ => None
  end.

(** The bridge answers about the runtime it was asked about. *)
Definition bridge_keeps c (e : ctl_event) : bool :=
  match e with
  | Continue k a =>
      match ctl_tasks c !! k, answer_registration a with
      | Some t, Some r => bool_decide (asked_runtime c t ∈ [None; Some (reg_runtimeId r)])
      | _, _ => true
      end
  | _ => true
  end.

Inductive ctl_step c : Controller → Prop :=
| ctl_stepped e now :
    ctl_enabled c e = true → bridge_keeps c e = true → ctl_step c (ctl_handle e now c).

(** The steps that are not of [stop]. *)
Definition not_stopping c (e : ctl_event) : bool :=
  match e with
  | CallStop => false
  | Continue k _ => match ctl_tasks c !! k with Some (StopClose _ _ | StopRelease _ _) => false | _ => true end
  | _ => true
  end.

Inductive running_step c : Controller → Prop :=
| ran e now :
    ctl_enabled c e = true → bridge_keeps c e = true → not_stopping c e = true → running_step c (ctl_handle e now c).

(** ** Runs *)

(** The events one after another, each at its time, when each is possible. *)
Fixpoint run_ctl (ok : Controller → ctl_event → bool) (es : list (ctl_event * Z)) c : option Controller :=
  match es with
  | [] => Some c
  | (e, now) :: es =>
      if ctl_enabled c e && bridge_keeps c e && ok c e then run_ctl ok es (ctl_handle e now c) else None
  end.

Lemma run_ctl_steps ok (R : Controller → Controller → Prop) es c c' :
  (∀ c e now, ctl_enabled c e = true → bridge_keeps c e = true → ok c e = true → R c (ctl_handle e now c)) →
  run_ctl ok es c = Some c' → rtc R c c'.
Proof.
  intros HR; revert c; induction es as [|[e now] es IH]; intros c; cbn; [intros [= ->]; apply rtc_refl|].
  destruct (ctl_enabled c e) eqn:H1, (bridge_keeps c e) eqn:H2, (ok c e) eqn:H3; cbn; try discriminate.
  intros Hrun; eapply rtc_l; [by apply HR|by apply IH].
Qed.

Lemma run_steps es c : run_ctl (λ _ _, true) es new_controller = Some c → rtc ctl_step new_controller c.
Proof. apply run_ctl_steps; intros; by constructor. Qed.

Lemma run_running es c : run_ctl not_stopping es new_controller = Some c → rtc running_step new_controller c.
Proof. apply run_ctl_steps; intros; by constructor. Qed.
(** ** Recovery *)

Lemma tracker_set rid x c : tracker (set_tracker rid x c) rid = x.
Proof. unfold tracker; cbn; by rewrite map_get_set_eq. Qed.

Lemma recoveryDelay_bounds failures :
  1 <= failures →
  recoveryBaseDelayMs <= recoveryDelay failures <= recoveryMaxDelayMs ∧
  recoveryDelay failures <= recoveryDelay (failures + 1) <= 2 * recoveryDelay failures.
Proof.
  intros Hf; unfold recoveryDelay; pose proof delays_checked.
  assert (0 < 2 ^ Z.min (failures - 1) 20) by (apply Z.pow_pos_nonneg; lia).
  assert (2 ^ Z.min (failures + 1 - 1) 20 = 2 ^ Z.min (failures - 1) 20 ∨
          2 ^ Z.min (failures + 1 - 1) 20 = 2 * 2 ^ Z.min (failures - 1) 20) as [->| ->].
  { destruct (decide (failures - 1 < 20)); [right|left; f_equal; lia].
    rewrite <- Z.pow_succ_r by lia; f_equal; lia. }
  - nia.
  - nia.
Qed.

(** C19. After a failed attempt on a runtime whose driver is disconnected, the next one is
    due exactly when the delay of that many consecutive failures has passed; the delay is
    between the configured base and maximum, grows with the failures and at most doubles,
    and a further disconnection in between does not shorten the wait. *)
Theorem recovery_backoff rid error now c t :
  let c' := recordRecoveryFailure rid error now c in
  let k := consecutiveFailures (tracker c' rid) in
  0 <= consecutiveFailures (tracker c rid) → Z.abs now + recoveryMaxDelayMs <= maxTime →
  installed_state c rid = Some disconnected →
  k = consecutiveFailures (tracker c rid) + 1 ∧
  recoveryDue rid t c' = (now + recoveryDelay k <=? t) ∧
  recoveryBaseDelayMs <= recoveryDelay k <= recoveryMaxDelayMs ∧
  recoveryDelay k <= recoveryDelay (k + 1) <= 2 * recoveryDelay k ∧
  (∀ reason s, s < now + recoveryDelay k → recoveryDue rid t (scheduleRecovery rid reason s c') = recoveryDue rid t c').
Proof.
  intros c' k Hf Hnow Hd.
  assert (tracker c' rid = fail_attempt error now true (tracker c rid)) as Ht.
  { unfold c', recordRecoveryFailure; by rewrite tracker_set, bool_decide_true. }
  assert (k = consecutiveFailures (tracker c rid) + 1) as Hk by (unfold k; by rewrite Ht).
  pose proof (recoveryDelay_bounds k ltac:(lia)) as [Hb Hg]; pose proof delays_checked.
  assert (date_parse (iso (now + recoveryDelay k)) = Some (now + recoveryDelay k)) as Hp by (apply date_parse_iso; lia).
  assert (recoveryDue rid t c' = (now + recoveryDelay k <=? t)) as Hdue.
  { unfold recoveryDue; rewrite Ht; unfold recovery_due; cbn; rewrite <- Hk; by rewrite Hp. }
  split_and!; try done; try lia.
  intros reason s Hs; unfold recoveryDue, scheduleRecovery; rewrite tracker_set, Ht; unfold schedule; cbn.
  rewrite <- Hk, Hp, (proj2 (Z.ltb_lt _ _)) by lia. rewrite <- Ht; exact Hdue.
Qed.
End ControllerOperations.

(** ** Runs on concrete answers *)

Module Scenario.
#[export, refine] Instance crew : ControllerEnvironment :=
  {| instanceId := "crew"; recoveryBaseDelayMs := 5000; recoveryMaxDelayMs := 60000; controller_dates := iso_date_text |}.
Proof. lia. Defined.

Definition runtime (rid observed : string) : Registration :=
  {| reg_runtimeId := rid; desiredState := "enabled"; reg_kind := "codex_app_server"; observedState := observed;
     lastCompatibilityOutcome := None |}.

Definition lease_until (t : Z) : Lease := {| holderInstanceId := "crew"; generation := 1; lease_expiresAt := iso t |}.

(** A first connection, its answers coming to the task at place [k]. *)
Definition connects_at (k l : nat) (rid : string) (now : Z) : list (ctl_event * Z) :=
  [(Continue k (RuntimeIs (Some (runtime rid "registered"))), now);
   (Continue k (LeaseIs (lease_until (now + 30000))), now);
   (Continue k (RegistrationIs (runtime rid "connecting")), now);
   (DriverMoves l ready, now); (Continue k Returned, now); (Continue k Returned, now);
   (Continue k (RuntimeIs (Some (runtime rid "ready"))), now)].

Definition first_connection : list (ctl_event * Z) := (CallConnect "r", 0) :: connects_at 0 0 "r" 0.

(** The connection is lost and the loop over the runtimes replaces the driver. *)
Definition recovery_run : list (ctl_event * Z) :=
  first_connection ++
  [(DriverMoves 0 disconnected, 10000); (DriverDisconnected 0 "socket closed", 10000);
   (Continue 0 (RegistrationIs (runtime "r" "disconnected")), 10000);
   (CallTick, 20000); (Continue 0 (RuntimesAre [runtime "r" "disconnected"]), 20000);
   (Continue 0 (RuntimeIs (Some (runtime "r" "disconnected"))), 20000);
   (Continue 1 (LeaseIs (lease_until 50000)), 20000); (Continue 1 Returned, 20001);
   (Continue 1 (RegistrationIs (runtime "r" "connecting")), 20001)].

(** A request waits for an operator. *)
Definition interaction_run : list (ctl_event * Z) :=
  first_connection ++
  [(ServerRequest 0 "7" true, 1000); (Continue 0 (FoundIs true), 1000); (Continue 0 (FoundIs true), 1000);
   (Continue 0 (SavedIs "r" 1), 1000); (Continue 0 Returned, 1000)].

(** [stop] is called while a connection is being made. *)
Definition stop_run : list (ctl_event * Z) :=
  [(CallConnect "r", 0); (Continue 0 (RuntimeIs (Some (runtime "r" "registered"))), 0); (CallStop, 1);
   (Continue 0 (LeaseIs (lease_until 30000)), 2); (Continue 0 (RegistrationIs (runtime "r" "connecting")), 2);
   (DriverMoves 0 ready, 3); (Continue 0 Returned, 3); (Continue 0 Returned, 3);
   (Continue 0 (RuntimeIs (Some (runtime "r" "ready"))), 3)].

(** The operator answers after the request was recorded and before its promise is there. *)
Definition early_answer_run : list (ctl_event * Z) :=
  first_connection ++
  [(ServerRequest 0 "7" true, 1000); (Continue 0 (FoundIs true), 1000); (Continue 0 (FoundIs true), 1000);
   (Continue 0 (SavedIs "r" 1), 1000);
   (CallResolveInteraction "r:7" (JBool true), 1001); (Continue 1 (FoundIs true), 1001);
   (Continue 1 (SavedIs "r" 2), 1001); (Continue 1 (FoundIs false), 1001);
   (Continue 0 Returned, 1002); (TimerFires 0, 301000); (Continue 0 (Threw "revision conflict"), 301000)].

(** The renewal of the first runtime's lease fails. *)
Definition renewal_run : list (ctl_event * Z) :=
  first_connection ++
  [(CallTick, 5000); (Continue 0 (RuntimesAre [runtime "r" "ready"; runtime "s" "registered"]), 5000);
   (Continue 0 (Threw "lease held by another instance"), 5000)].

(** A [stop] that comes while a connect operation waits for its lease ends at once, and the
    operation then installs and connects a driver that nothing closes. *)
Example stop_leaves_connection :
  (c ← run_ctl (λ _ _, true) stop_run new_controller;
   Some (controlled c, driver <$> heap c, ctl_tasks c, omap (λ o, match o with ClosedDriver l => Some l | _ => None end)
                                                         (ctl_outputs c)))
  = Some ([("r", 0%nat)], [ready], [], []).
Proof. vm_compute; reflexivity. Qed.

(** An answer that comes before the promise is registered is saved and lost: the request
    waits for its timer and is answered as expired. *)
Example early_answer_expires :
  (c ← run_ctl (λ _ _, true) early_answer_run new_controller; Some (promises c, ctl_tasks c))
  = Some ([Some (Fulfilled (Failure (-32005) "external interaction expired before operator response" JUndefined))], []).
Proof. vm_compute; reflexivity. Qed.

(** A lease that is not renewed ends the loop: the next runtime is not connected and no
    turn is dispatched. *)
Example renewal_ends_tick :
  (c ← run_ctl (λ _ _, true) renewal_run new_controller;
   Some (ticking c, map_keys (controlled c), ctl_tasks c, existsb (λ o, match o with DispatchedTurns => true | _ => false end) (ctl_outputs c)))
  = Some (false, ["r"], [], false).
Proof. vm_compute; reflexivity. Qed.

Definition lost_state : Controller := default new_controller (run_ctl not_stopping recovery_run new_controller).

Lemma recovery_backoff_witness :
  recoveryDue "r" 25000 (recordRecoveryFailure "r" "refused" 20001 lost_state) = (20001 + recoveryDelay 1 <=? 25000).
Proof.
  destruct (recovery_backoff "r" "refused" 20001 lost_state 25000) as (Hk & H & _);
    [vm_compute; discriminate|vm_compute; discriminate|vm_compute; reflexivity|].
  rewrite H, Hk; reflexivity.
Defined.
End Scenario.
