(* ===== verification/ExternalRuntimeFacts.v ===== *)
(** * The facts of the external runtime controller

    Over every run of the controller that is not being stopped: a runtime has one connect
    operation at most, every record that is not retired is its runtime's (or is about to
    be), and a driver that was told to connect is the installed one or was told to close.
    Each operation that was handed out is run by some task until it is settled. *)

From stdpp Require Import sets list relations.
From S2P Require Import Prelude JsString JsDate Json CodexRequests CodexDriver ExternalRuntime.
#[local] Open Scope Z_scope.

(** ** The protocol of the connect operations *)

(** What the exclusion of the controllers depends on: who is installed, which operations
    run and where they are, and which drivers were told to connect and to close. *)
Module Protocol.
Record View := {
  ids : list (string * bool);
  installed : jsmap string nat;
  in_flight : jsmap string nat;
  settled : list bool;
  connects : list (nat * string * connect_stage);
  connected : list nat;
  closed : list nat
}.

Definition ident (x : ControlledRuntime) : string * bool := (reg_runtimeId (registration x), retired x).

Definition connecting (t : ctl_task) : option (nat * string * connect_stage) :=
  match t with Connecting op rid st => Some (op, rid, st) | _ => None end.

Definition connect_of (o : ctl_output) : option nat := match o with ConnectedDriver l => Some l | _ => None end.
Definition close_of (o : ctl_output) : option nat := match o with ClosedDriver l => Some l | _ => None end.

Definition view (c : Controller) : View :=
  {| ids := ident <$> heap c; installed := controlled c; in_flight := connectInFlight c;
     settled := is_some <$> operations c; connects := omap connecting (ctl_tasks c);
     connected := omap connect_of (ctl_outputs c); closed := omap close_of (ctl_outputs c) |}.

Definition with_connects (x : list (nat * string * connect_stage)) (v : View) : View :=
  {| ids := ids v; installed := installed v; in_flight := in_flight v; settled := settled v; connects := x;
     connected := connected v; closed := closed v |}.

Definition push (x : nat * string * connect_stage) (v : View) : View := with_connects (connects v ++ [x]) v.

(** Where an operation is, against who is installed. *)
Definition stage_ok (v : View) (rid : string) (st : connect_stage) : Prop :=
  match st with
  | ExistingLease l | ExistingResume l | ExistingGet l | ExistingRestore l | FailedRecord l _ =>
      map_get rid (installed v) = Some l
  | FreshGet existing => map_get rid (installed v) = existing
  | FreshLease existing r => map_get rid (installed v) = existing ∧ reg_runtimeId r = rid
  | FreshClose old new r =>
      map_get rid (installed v) = Some old ∧ ids v !! old = Some (rid, true) ∧ old ∈ closed v ∧
      ids v !! new = Some (rid, false) ∧ reg_runtimeId r = rid
  | FreshRecord new _ r | FreshConnect new _ r | FreshResume new _ r | FreshReget new _ r =>
      map_get rid (installed v) = Some new ∧ reg_runtimeId r = rid
  end.

Definition replacing (st : connect_stage) : option nat := match st with FreshClose _ new _ => Some new | _ => None end.

Definition runs (v : View) (x : nat * string * connect_stage) : Prop :=
  map_get x.1.2 (in_flight v) = Some x.1.1 ∧ stage_ok v x.1.2 x.2.

Record exclusive (v : View) : Prop := {
  ex_runs : Forall (runs v) (connects v);
  ex_one : NoDup (map (λ x, x.1.2) (connects v));
  ex_flight : ∀ rid op, map_get rid (in_flight v) = Some op → ∃ st, (op, rid, st) ∈ connects v;
  ex_ops : ∀ op, settled v !! op = Some false → ∃ rid st, (op, rid, st) ∈ connects v;
  ex_installed : ∀ rid l, map_get rid (installed v) = Some l → ∃ b, ids v !! l = Some (rid, b);
  ex_live : ∀ l rid, ids v !! l = Some (rid, false) →
      map_get rid (installed v) = Some l ∨ ∃ op st, (op, rid, st) ∈ connects v ∧ replacing st = Some l;
  ex_closed : ∀ l, l ∈ connected v → (∃ rid, map_get rid (installed v) = Some l) ∨ l ∈ closed v
}.

Lemma exclusive_perm v v' cs :
  v' = with_connects cs v → connects v ≡ₚ cs → exclusive v → exclusive v'.
Proof.
  intros -> Hp [H1 H2 H3 H4 H5 H6 H7]; split; cbn; try done.
  - change (Forall (runs v) cs). by rewrite <- Hp.
  - by rewrite <- Hp.
  - by setoid_rewrite <- Hp.
  - by setoid_rewrite <- Hp.
  - by setoid_rewrite <- Hp.
Qed.

(** A stage is kept by what other operations do. *)
Lemma stage_ok_frame v v' rid st :
  map_get rid (installed v') = map_get rid (installed v) →
  (∀ l b, ids v !! l = Some (rid, b) → ids v' !! l = Some (rid, b)) → closed v ⊆ closed v' →
  stage_ok v rid st → stage_ok v' rid st.
Proof. intros Hi Hl Hc; destruct st; cbn; rewrite ?Hi; naive_solver. Qed.

(** The other operations are of other runtimes. *)
Lemma push_others x v y : exclusive (push x v) → y ∈ connects v → y.1.2 ≠ x.1.2.
Proof.
  intros [_ Hn _ _ _ _ _] Hy; cbn in Hn; rewrite map_app, NoDup_app in Hn.
  destruct Hn as (_ & Hd & _); intros He; apply (Hd (x.1.2)); [|left].
  rewrite <- He; by apply (list_elem_of_fmap_2 (λ x : nat * string * connect_stage, x.1.2)).
Qed.

Lemma push_runs x v : exclusive (push x v) → runs v x ∧ Forall (runs v) (connects v).
Proof. intros [H _ _ _ _ _ _]; cbn in H; rewrite Forall_app, Forall_singleton in H; destruct H as [H1 H2]; split; [exact H2|exact H1]. Qed.

(** An operation goes on: what it changes is of its own runtime. *)
Lemma operation_step op rid st st' v v' :
  exclusive (push (op, rid, st) v) →
  in_flight v' = in_flight v → settled v' = settled v → connects v' = connects v → closed v ⊆ closed v' →
  (∀ rid', rid' ≠ rid → map_get rid' (installed v') = map_get rid' (installed v)) →
  (∀ rid' l b, rid' ≠ rid → ids v' !! l = Some (rid', b) ↔ ids v !! l = Some (rid', b)) →
  stage_ok v' rid st' →
  (∀ l, map_get rid (installed v') = Some l → ∃ b, ids v' !! l = Some (rid, b)) →
  (∀ l, ids v' !! l = Some (rid, false) → map_get rid (installed v') = Some l ∨ replacing st' = Some l) →
  (∀ l, l ∈ connected v' → l ∈ connected v ∨ map_get rid (installed v') = Some l) →
  (∀ l, map_get rid (installed v) = Some l → map_get rid (installed v') = Some l ∨ l ∈ closed v') →
  exclusive (push (op, rid, st') v').
Proof.
  intros Hx Hf Hs Hc Hcl Hin Hid Hst Hi Hl Hcon Hold.
  pose proof (λ y, push_others _ _ y Hx) as Ho; destruct (push_runs _ _ Hx) as [[Hf0 _] Hr].
  destruct Hx as [_ Hn H3 H4 H5 H6 H7]; cbn in *; split; cbn; rewrite ?Hf, ?Hs, ?Hc.
  - apply Forall_app; split; [|apply Forall_singleton; split; [cbn; congruence|exact Hst]].
    rewrite Forall_forall in Hr |- *; intros y Hy; destruct (Hr y Hy) as [? ?]; split; [cbn; congruence|].
    change (stage_ok v' y.1.2 y.2); apply (stage_ok_frame v); auto; intros; apply Hid; auto.
  - by rewrite map_app in Hn |- *.
  - intros rid' op' Hg; destruct (H3 _ _ Hg) as [s [?|?%list_elem_of_singleton]%elem_of_app].
    + exists s; set_solver.
    + simplify_eq; exists st'; set_solver.
  - intros op' Hg; destruct (H4 _ Hg) as (rid' & s & [?|?%list_elem_of_singleton]%elem_of_app).
    + exists rid', s; set_solver.
    + simplify_eq; exists rid, st'; set_solver.
  - intros rid' l Hg; destruct (decide (rid' = rid)) as [->|Hne]; [by apply Hi|].
    rewrite Hin in Hg by done; destruct (H5 _ _ Hg) as [b Hb]; exists b; by apply Hid.
  - intros l rid' Hg; destruct (decide (rid' = rid)) as [->|Hne].
    + destruct (Hl _ Hg); [by left|right]; exists op, st'; split; [set_solver|done].
    + rewrite Hin by done; apply Hid in Hg; [|done]. destruct (H6 _ _ Hg) as [?|(op' & s & Hy & ?)]; [by left|right].
      exists op', s; split; [|done]. apply elem_of_app in Hy as [?|?%list_elem_of_singleton]; [set_solver|congruence].
  - intros l Hg; destruct (Hcon _ Hg) as [Hg'|?]; [|left; by exists rid].
    destruct (H7 _ Hg') as [(rid' & Hr')|?]; [|right; auto].
    destruct (decide (rid' = rid)) as [->|Hne]; [destruct (Hold _ Hr'); eauto|].
    left; exists rid'; by rewrite Hin.
Qed.

(** An operation ends. *)
Definition finished (op : nat) (rid : string) (v : View) : View :=
  {| ids := ids v; installed := installed v; in_flight := map_delete rid (in_flight v);
     settled := <[op := true]> (settled v); connects := connects v; connected := connected v; closed := closed v |}.

Lemma finished_exclusive op rid st v :
  exclusive (push (op, rid, st) v) → replacing st = None → exclusive (finished op rid v).
Proof.
  intros Hx Hst; pose proof (λ y, push_others _ _ y Hx) as Ho; destruct (push_runs _ _ Hx) as [[Hf0 _] Hr].
  destruct Hx as [_ Hn H3 H4 H5 H6 H7]; cbn in *; split; cbn; try done.
  - rewrite Forall_forall in Hr |- *; intros y Hy; destruct (Hr y Hy) as [? ?]; split; [|done].
    cbn; rewrite map_get_delete_ne; [done|by apply not_eq_sym, Ho].
  - rewrite map_app in Hn; apply NoDup_app in Hn; tauto.
  - intros rid' op' Hg; destruct (decide (rid' = rid)) as [->|Hne]; [by rewrite map_get_delete_eq in Hg|].
    rewrite map_get_delete_ne in Hg by done.
    destruct (H3 _ _ Hg) as [s [?|?%list_elem_of_singleton]%elem_of_app]; [eauto|congruence].
  - intros op' Hg; destruct (decide (op' = op)) as [->|Hne].
    + apply list_lookup_insert_Some in Hg; naive_solver.
    + rewrite list_lookup_insert_ne in Hg by done.
      destruct (H4 _ Hg) as (rid' & s & [?|?%list_elem_of_singleton]%elem_of_app); [eauto|congruence].
  - intros l rid' Hg; destruct (H6 _ _ Hg) as [?|(op' & s & Hy & ?)]; [by left|right].
    apply elem_of_app in Hy as [?|?%list_elem_of_singleton]; [eauto|congruence].
Qed.

(** An operation begins, at the runtime's installed record. *)
Definition begun (rid : string) (st : connect_stage) (v : View) : View :=
  {| ids := ids v; installed := installed v; in_flight := map_set rid (length (settled v)) (in_flight v);
     settled := settled v ++ [false]; connects := connects v ++ [(length (settled v), rid, st)];
     connected := connected v; closed := closed v |}.

Lemma begun_exclusive rid st v :
  exclusive v → map_get rid (in_flight v) = None → stage_ok v rid st → replacing st = None →
  exclusive (begun rid st v).
Proof.
  intros [H1 H2 H3 H4 H5 H6 H7] Hf Hst Hrep.
  assert (∀ y, y ∈ connects v → y.1.2 ≠ rid) as Ho.
  { intros y Hy He; rewrite Forall_forall in H1; destruct (H1 y Hy) as [Hq _]; congruence. }
  split; cbn; try done.
  - apply Forall_app; split; [|apply Forall_singleton; split; [apply map_get_set_eq|exact Hst]].
    rewrite Forall_forall in H1 |- *; intros y Hy; destruct (H1 y Hy) as [? ?]; split; [|done].
    cbn; rewrite map_get_set_ne; [done|by apply not_eq_sym, Ho].
  - rewrite map_app; apply NoDup_app; split; [done|split; [|apply NoDup_singleton]].
    intros y (z & -> & Hz)%list_elem_of_fmap ?%list_elem_of_singleton; by apply (Ho z).
  - intros rid' op Hg; destruct (decide (rid' = rid)) as [->|Hne].
    + rewrite map_get_set_eq in Hg; simplify_eq; exists st; set_solver.
    + rewrite map_get_set_ne in Hg by done; destruct (H3 _ _ Hg) as [s ?]; exists s; set_solver.
  - intros op [Hg|[Hle Hg]]%lookup_app_Some.
    + destruct (H4 _ Hg) as (rid' & s & ?); exists rid', s; set_solver.
    + apply list_lookup_singleton_Some in Hg as [Hz _].
      exists rid, st; replace op with (length (settled v)) by lia; set_solver.
  - intros l rid' Hg; destruct (H6 _ _ Hg) as [?|(op' & s & Hy & ?)]; [by left|right]; exists op', s; set_solver.
Qed.
End Protocol.

(** ** The controller follows the protocol *)

Module Exclusion.
Import Protocol.
Section Exclusion.
Context {E : ControllerEnvironment}.
#[local] Existing Instance controller_dates.
Implicit Types (c : Controller) (l op : nat) (rid : string) (v : View).

Lemma view_await t c :
  view (ctl_await t c) = match connecting t with Some x => push x (view c) | None => view c end.
Proof.
  unfold view, ctl_await, push, with_connects; cbn; rewrite omap_app; cbn.
  destruct (connecting t); [done|by rewrite app_nil_r].
Qed.

Lemma view_emit o c : connect_of o = None → close_of o = None → view (ctl_emit o c) = view c.
Proof. intros H1 H2; unfold view, ctl_emit; cbn; rewrite !omap_app; cbn; by rewrite H1, H2, !app_nil_r. Qed.

Lemma view_on_record l f c :
  (∀ x, heap c !! l = Some x → ident (f x) = ident x) → view (on_record l f c) = view c.
Proof.
  intros Hf; unfold view, on_record; cbn; f_equal; apply list_eq; intros i; rewrite !list_lookup_fmap.
  destruct (decide (i = l)) as [->|]; [|by rewrite list_lookup_alter_ne].
  rewrite list_lookup_alter_eq; destruct (heap c !! l) as [x|] eqn:Hx; cbn; [|done]. by rewrite (Hf x eq_refl).
Qed.

Lemma ids_lookup c l rid b :
  ids (view c) !! l = Some (rid, b) → ∃ x, heap c !! l = Some x ∧ ident x = (rid, b).
Proof. cbn; rewrite list_lookup_fmap; destruct (heap c !! l); naive_solver. Qed.

Lemma drop_task_same k t c :
  ctl_tasks c !! k = Some t → connecting t = None → view (set_ctl_tasks (delete k (ctl_tasks c)) c) = view c.
Proof.
  intros Hk Ht; unfold view; cbn; f_equal. rewrite delete_take_drop.
  rewrite <- (take_drop_middle _ _ _ Hk) at 3; rewrite !omap_app; cbn; by rewrite Ht.
Qed.

Lemma drop_task_push k t x c :
  ctl_tasks c !! k = Some t → connecting t = Some x → exclusive (view c) →
  exclusive (push x (view (set_ctl_tasks (delete k (ctl_tasks c)) c))).
Proof.
  intros Hk Ht; apply (exclusive_perm _ _ (omap connecting (delete k (ctl_tasks c)) ++ [x])); [done|cbn].
  rewrite delete_take_drop, <- (take_drop_middle _ _ _ Hk) at 1; rewrite !omap_app; cbn; rewrite Ht.
  rewrite <- app_assoc; apply Permutation_app_head, Permutation_cons_append.
Qed.

(** An operation goes on and changes nothing that matters. *)
Lemma advance op rid st st' v :
  exclusive (push (op, rid, st) v) → replacing st = None → stage_ok v rid st' → exclusive (push (op, rid, st') v).
Proof.
  intros Hx Hst Hok; apply (operation_step _ _ st _ v); auto; try (intros; tauto); destruct (Hx) as [_ _ _ _ H5 H6 _].
  - intros l Hl; by apply H5.
  - intros l Hl; destruct (H6 l rid Hl) as [|(op' & s & Hy & Hs)]; [by left|].
    apply elem_of_app in Hy as [Hy|Hy%list_elem_of_singleton]; [|congruence].
    by destruct (push_others _ _ _ Hx Hy).
Qed.

Lemma finish_view op rid st r c :
  exclusive (push (op, rid, st) (view c)) → replacing st = None → exclusive (view (finish_connect op rid r c)).
Proof.
  intros Hx Hst; destruct (push_runs _ _ Hx) as [[Hf _] _]; cbn in Hf.
  unfold finish_connect; cbn; rewrite bool_decide_true by done.
  pose proof (finished_exclusive _ _ _ _ Hx Hst) as Hy; unfold finished in Hy; cbn in Hy.
  unfold view; cbn; by rewrite list_fmap_insert.
Qed.

(** A record is changed and stays its runtime's. *)
Lemma view_on_installed l rid f c :
  (∃ b, ids (view c) !! l = Some (rid, b)) →
  (∀ x, reg_runtimeId (registration x) = rid → ident (f x) = ident x) → view (on_record l f c) = view c.
Proof.
  intros [b (y & Hy & Hi)%ids_lookup] Hf; apply view_on_record; intros x Hx; apply Hf; unfold ident in Hi; naive_solver.
Qed.

(** An operation that waits for nothing else but goes on or ends. *)
Lemma go_on op rid st st' c c' :
  exclusive (push (op, rid, st) (view c)) → replacing st = None → view c' = view c → stage_ok (view c) rid st' →
  exclusive (view (ctl_await (Connecting op rid st') c')).
Proof. intros Hx Hst Hv Hok; rewrite view_await; cbn; rewrite Hv; by apply (advance _ _ st). Qed.

Lemma ends op rid st r c c' :
  exclusive (push (op, rid, st) (view c)) → replacing st = None → view c' = view c →
  exclusive (view (finish_connect op rid r c')).
Proof. intros Hx Hst Hv; apply (finish_view _ _ st); [by rewrite Hv|done]. Qed.

(** The failure of an operation whose record, if any, is installed. *)
Lemma caught op rid st new recovering e now c :
  exclusive (push (op, rid, st) (view c)) → replacing st = None →
  (∀ l, new = Some l → map_get rid (controlled c) = Some l) →
  exclusive (view (connect_caught op rid new recovering e now c)).
Proof.
  intros Hx Hst Hnew; unfold connect_caught.
  set (c' := if recovering then _ else _); assert (view c' = view c) as Hv by (by subst c'; destruct recovering).
  destruct new as [l|]; [|by apply (ends _ _ st _ c)].
  destruct (_ && _); [|by apply (ends _ _ st _ c)].
  apply (go_on _ _ st _ c); [done..| |by apply Hnew]. unfold recordState; by rewrite view_emit.
Qed.

(** The new record takes the place of none, or of a retired and closed one. *)
Lemma install_view op rid st new recovering r c v0 :
  exclusive (push (op, rid, st) v0) → in_flight v0 = connectInFlight c → settled v0 = settled (view c) →
  connects v0 = connects (view c) → closed v0 ⊆ closed (view c) → connected v0 = connected (view c) →
  installed v0 = controlled c →
  (∀ rid' l b, rid' ≠ rid → ids (view c) !! l = Some (rid', b) ↔ ids v0 !! l = Some (rid', b)) →
  ids (view c) !! new = Some (rid, false) → reg_runtimeId r = rid →
  (∀ l, ids (view c) !! l = Some (rid, false) → l = new) →
  (∀ l, map_get rid (controlled c) = Some l → l ∈ closed (view c)) →
  exclusive (view (install op rid new recovering r c)).
Proof.
  intros Hx Hf Hs Hc Hcl Hcon Hin Hid Hnew Hr Hone Hold; unfold install, recordState.
  rewrite view_await; cbn [connecting]; rewrite view_emit by done.
  apply (operation_step _ _ st _ v0); auto.
  - intros rid' Hne; cbn; rewrite map_get_set_ne by done; congruence.
  - split; [cbn; apply map_get_set_eq|done].
  - cbn; intros l Hl; rewrite map_get_set_eq in Hl; simplify_eq; by exists false.
  - cbn; intros l Hl; left; rewrite map_get_set_eq; f_equal; symmetry; by apply Hone.
  - cbn; intros l Hl; left; by rewrite Hcon.
  - cbn; intros l Hl; right; apply Hold; congruence.
Qed.

(** The records, with one more and the one it replaces retired. *)
Definition record_made (r : Registration) (x : Lease) (c : Controller) : Controller :=
  set_heap (heap c ++ [{| registration := r; lease := x; driver := disconnected; handshake := false;
                          retired := false |}]) c.

Lemma ids_made r x c i y :
  ids (view (record_made r x c)) !! i = Some y ↔
  ids (view c) !! i = Some y ∨ i = length (heap c) ∧ y = (reg_runtimeId r, false).
Proof.
  cbn; rewrite fmap_app, lookup_app_Some, length_fmap; cbn; rewrite list_lookup_singleton_Some.
  split; [|naive_solver lia]. intros [|(? & ? & ?)]; [by left|right; split; [lia|done]].
Qed.

Lemma ids_retired l rid b c i y :
  ids (view c) !! l = Some (rid, b) →
  ids (view (on_record l (set_retired true) c)) !! i = Some y ↔
  (i = l ∧ y = (rid, true)) ∨ (i ≠ l ∧ ids (view c) !! i = Some y).
Proof.
  intros (x & Hx & Hi)%ids_lookup; cbn; rewrite !list_lookup_fmap, list_lookup_alter; unfold ident in Hi; simplify_eq.
  case_decide; subst; [rewrite Hx; cbn|]; naive_solver.
Qed.

Lemma no_live_but op rid st v l :
  exclusive (push (op, rid, st) v) → replacing st = None → ids v !! l = Some (rid, false) →
  map_get rid (installed v) = Some l.
Proof.
  intros Hx Hst Hl; destruct (Hx) as [_ _ _ _ _ H6 _]; destruct (H6 _ _ Hl) as [|(op' & s & Hy & Hs)]; [done|].
  apply elem_of_app in Hy as [Hy|Hy%list_elem_of_singleton]; [|congruence]. by destruct (push_others _ _ _ Hx Hy).
Qed.

Lemma emit_closed l c :
  closed (view (ctl_emit (ClosedDriver l) c)) = closed (view c) ++ [l] ∧
  connected (view (ctl_emit (ClosedDriver l) c)) = connected (view c).
Proof. cbn; rewrite !omap_app; cbn; by rewrite app_nil_r. Qed.

Lemma leased_view op rid existing r x c :
  exclusive (push (op, rid, FreshLease existing r) (view c)) → exclusive (view (leased op rid existing r x c)).
Proof.
  intros Hx; destruct (push_runs _ _ Hx) as [[_ [Hi Hr]] _]; cbn in Hi, Hr.
  assert (∀ l, ids (view c) !! l = Some (rid, false) → existing = Some l) as Hlive.
  { intros l Hl; rewrite <- Hi; by apply (no_live_but _ _ _ _ _ Hx). }
  assert (ids (view c) !! length (heap c) = None) as Hnone by (apply lookup_ge_None; cbn; by rewrite length_fmap).
  unfold leased; fold (record_made r x c); destruct existing as [old|].
  - destruct (ex_installed _ Hx rid old) as [b Hb]; [done|cbn in Hb].
    assert (ids (view (record_made r x c)) !! old = Some (rid, b)) as Hb' by (apply ids_made; by left).
    pose proof (λ i y, ids_retired _ _ _ _ i y Hb') as Hret.
    assert (old ≠ length (heap c)) as Hne by (intros Hq; cbn in Hb; rewrite Hq in Hb; cbn in Hnone; congruence).
    rewrite view_await; cbn [connecting]; set (c' := on_record _ _ _) in *.
    assert (∀ i, ids (view c') !! i = Some (rid, false) → i = length (heap c)) as Hnew.
    { intros i [[_ ?]|[Hn [Hl|[? _]]%ids_made]]%Hret; [congruence| |done]. specialize (Hlive i Hl); congruence. }
    destruct (emit_closed old c') as [Hcl Hcon]; set (w := view (ctl_emit _ _)) in *.
    change (closed (view c')) with (closed (view c)) in Hcl; change (connected (view c')) with (connected (view c)) in Hcon.
    apply (operation_step _ _ _ _ _ w Hx); auto; try (intros; tauto).
    + rewrite Hcl; set_solver.
    + intros rid' l b' Hn; change (ids w) with (ids (view c')); rewrite Hret, ids_made. cbn in Hb |- *; naive_solver.
    + split; [done|]. split; [apply Hret; by left|]. split; [rewrite Hcl; set_solver|]. split; [|done].
      apply Hret; right; split; [done|]. apply ids_made; right; by rewrite Hr.
    + intros l Hl; exists true. assert (l = old) as -> by (cbn in *; congruence). apply Hret; by left.
    + intros l Hl; right; cbn; f_equal; symmetry; by apply Hnew.
    + intros l Hl; left; by rewrite <- Hcon.
  - apply (install_view _ _ _ _ _ _ _ _ Hx); auto; try done.
    + intros rid' l b Hn; rewrite ids_made; naive_solver.
    + apply ids_made; right; by rewrite Hr.
    + intros l [Hl%Hlive|[? _]]%ids_made; done.
    + intros l Hl; cbn in Hl; congruence.
Qed.

(** The drivers told to connect are installed. *)
Lemma connect_driver op rid st new recovering r v v' :
  exclusive (push (op, rid, st) v) → replacing st = None → map_get rid (installed v) = Some new → reg_runtimeId r = rid →
  v' = {| ids := ids v; installed := installed v; in_flight := in_flight v; settled := settled v;
          connects := connects v; connected := connected v ++ [new]; closed := closed v |} →
  exclusive (push (op, rid, FreshConnect new recovering r) v').
Proof.
  intros Hx Hst Hi Hr ->; apply (operation_step _ _ _ _ _ _ Hx); cbn; auto; try (intros; tauto).
  - intros l Hl; by apply (ex_installed _ Hx).
  - intros l Hl; left; by apply (no_live_but _ _ _ _ _ Hx).
  - intros l [|<-%list_elem_of_singleton]%elem_of_app; auto.
Qed.

Definition about (rid : string) (a : ctl_answer) : Prop :=
  ∀ r, answer_registration a = Some r → reg_runtimeId r = rid.

Lemma existing_continues op rid l r c :
  exclusive (push (op, rid, ExistingGet l) (view c)) → about rid (RuntimeIs r) →
  ∀ now, exclusive (view (continue_connect op rid (ExistingGet l) (RuntimeIs r) now c)).
Proof.
  intros Hx Ha now; destruct (push_runs _ _ Hx) as [[_ Hi] _]; cbn in Hi.
  pose proof (ex_installed _ Hx rid l Hi) as Hid; cbn [continue_connect].
  set (c' := match r with Some _ => _ | None => c end).
  assert (view c' = view c) as Hv.
  { subst c'; destruct r as [r|]; [|done]. apply (view_on_installed _ rid); [done|].
    intros x <-; unfold ident; cbn; by rewrite (Ha r). }
  case_bool_decide; [by apply (ends _ _ (ExistingGet l) _ c)|].
  unfold restoreReadyRegistration; case_bool_decide; [|by apply (ends _ _ (ExistingGet l) _ c)].
  apply (go_on _ _ (ExistingGet l) _ c); [done..|by rewrite view_emit|done].
Qed.

Lemma found_continues op rid existing r now c :
  exclusive (push (op, rid, FreshGet existing) (view c)) → reg_runtimeId r = rid →
  exclusive (view (found_runtime op rid existing r now c)).
Proof.
  intros Hx Hr; destruct (push_runs _ _ Hx) as [[_ Hi] _]; cbn in Hi; unfold found_runtime.
  do 2 (case (negb _); [by apply (ends _ _ (FreshGet existing) _ c)|]).
  apply (go_on _ _ (FreshGet existing) _ c); [done..| |done].
  unfold acquireLease; rewrite view_emit by done; by destruct existing.
Qed.

Lemma replaced_installs op rid old new r c :
  exclusive (push (op, rid, FreshClose old new r) (view c)) → exclusive (view (install op rid new true r c)).
Proof.
  intros Hx; destruct (push_runs _ _ Hx) as [[_ (Hi & Ho & Hc & Hn & Hr)] _]; cbn [fst snd] in *.
  apply (install_view _ _ _ _ _ _ _ _ Hx); auto; try done.
  - intros l Hl; destruct (ex_live _ Hx l rid Hl) as [Hi'|(op' & s & Hy & Hs)].
    + assert (l = old) as -> by (cbn in *; congruence). congruence.
    + apply elem_of_app in Hy as [Hy|Hy%list_elem_of_singleton]; [by destruct (push_others _ _ _ Hx Hy)|].
      injection Hy as -> ->; cbn in Hs; congruence.
  - intros l Hl; assert (l = old) as -> by (cbn in *; congruence). done.
Qed.

Lemma connect_continues op rid st a now c :
  exclusive (push (op, rid, st) (view c)) → about rid a → ctl_answers (Connecting op rid st) a c = true →
  exclusive (view (continue_connect op rid st a now c)).
Proof.
  intros Hx Ha Hans; destruct (push_runs _ _ Hx) as [[_ Hst] _]; cbn in Hst.
  assert (∀ l f, map_get rid (installed (view c)) = Some l →
    (∀ x, reg_runtimeId (registration x) = rid → ident (f x) = ident x) → view (on_record l f c) = view c) as Hkeep.
  { intros l f Hl; apply (view_on_installed _ rid), (ex_installed _ Hx rid l Hl). }
  destruct st, a; try discriminate Hans; cbn [stage_ok] in Hst; try (by apply existing_continues); cbn [continue_connect];
    try (by eapply ends); try (by eapply caught; [exact Hx|done|naive_solver]);
    try (by apply (go_on _ _ _ _ _ _ Hx); [done..|naive_solver]).
  - apply (go_on _ _ _ _ _ _ Hx); [done|by apply (Hkeep _ _ Hst)|done].
  - eapply ends; [exact Hx|done|]. apply (Hkeep _ _ Hst); intros y <-; unfold ident; cbn; by rewrite (Ha r).
  - destruct r as [r|]; [|by eapply ends]. apply found_continues; [done|by apply Ha].
  - by apply leased_view.
  - by eapply replaced_installs.
  - by eapply replaced_installs.
  - rewrite view_await; destruct Hst; apply (connect_driver _ _ _ _ _ _ _ _ Hx); [done..|].
    unfold view; cbn; rewrite !omap_app; cbn; by rewrite app_nil_r.
  - destruct Hst as [Hst Hr]; eapply ends; [exact Hx|done|].
    enough (view (on_record new (set_registration (default r r0)) c) = view c) as Hv.
    { destruct recovering; [|exact Hv]. unfold recovered; by destruct (map_get rid (recovery _)). }
    apply (Hkeep _ _ Hst); intros y <-; unfold ident; cbn; destruct r0 as [r0|]; cbn; [by rewrite (Ha r0)|by rewrite Hr].
  - eapply ends; [exact Hx|done|]. apply (Hkeep _ _ Hst); intros y <-; unfold ident; cbn; by rewrite (Ha r).
Qed.

Lemma connect_exclusive rid c : exclusive (view c) → exclusive (view (connect rid c).1).
Proof.
  intros Hx; unfold connect; destruct (map_get rid (connectInFlight c)) as [op|] eqn:Hf; [done|cbn [fst]].
  assert (∀ st c', stage_ok (view c) rid st → replacing st = None →
    view c' = view (set_operations (operations c ++ [None]) c) →
    exclusive (view (set_connectInFlight (map_set rid (length (operations c)) (connectInFlight c'))
                 (ctl_await (Connecting (length (operations c)) rid st) c')))) as Hb.
  { intros st c' Hok Hrep Hv; pose proof (begun_exclusive _ _ _ Hx Hf Hok Hrep) as Hy.
    enough (view (set_connectInFlight (map_set rid (length (operations c)) (connectInFlight c'))
      (ctl_await (Connecting (length (operations c)) rid st) c')) = begun rid st (view c)) as -> by exact Hy.
    unfold view, begun in Hv |- *; cbn in Hv |- *; injection Hv as -> -> -> -> Ht -> ->.
    rewrite omap_app, Ht, length_fmap, fmap_app; done. }
  unfold connectRuntime; cbn; destruct (map_get rid (controlled c)) as [l|] eqn:Hl;
    [|by apply (Hb (FreshGet None) (set_operations (operations c ++ [None]) c))].
  case_bool_decide; [|by apply (Hb (FreshGet (Some l)) (set_operations (operations c ++ [None]) c))].
  apply (Hb (ExistingLease l) (acquireLease rid (set_operations _ c))); [done..|]. unfold acquireLease; by rewrite view_emit.
Qed.

Lemma await_exclusive t c : connecting t = None → exclusive (view c) → exclusive (view (ctl_await t c)).
Proof. intros Ht; by rewrite view_await, Ht. Qed.

Lemma tick_exclusive rs now c : exclusive (view c) → exclusive (view (tick_runtimes rs now c)).
Proof.
  revert c; induction rs as [|r rs IH]; intros c Hx; cbn [tick_runtimes]; [by apply await_exclusive|].
  assert (∀ c', view c' = view c →
    exclusive (view (let '(c, op) := connect (reg_runtimeId r) c' in ctl_await (TickConnect op rs) c))) as Hcon.
  { intros c' Hv; assert (exclusive (view c')) as Hx' by (by rewrite Hv).
    pose proof (connect_exclusive (reg_runtimeId r) c' Hx'); destruct (connect _ c'); by apply await_exclusive. }
  case (negb _); [by apply IH|]. destruct (map_get _ (controlled c)) as [l|] eqn:Hl; [|by apply Hcon].
  assert (exclusive (view (ctl_await (TickLease r l rs)
    (acquireLease (reg_runtimeId r) (on_record l (set_registration r) c))))) as Hlease.
  { apply await_exclusive; [done|]. unfold acquireLease; rewrite view_emit by done.
    rewrite (view_on_installed _ (reg_runtimeId r)); [done|by apply (ex_installed _ Hx)|].
    intros x Hq; unfold ident; cbn; by rewrite Hq. }
  destruct (driver <$> heap c !! l) as [[]|]; try (by case (_ && _); [apply Hcon|]).
  case (recoveryDue _ _ _); [by apply Hcon|by apply IH].
Qed.

(** A record that is told of its own runtime. *)
Lemma told_view l c (r : Registration) f :
  (∀ rid, record_runtime c l = Some rid → reg_runtimeId r = rid) →
  (∀ x, reg_runtimeId (registration (f x)) = reg_runtimeId r ∧ retired (f x) = retired x) →
  view (on_record l f c) = view c.
Proof.
  intros Hr Hf; apply view_on_record; intros x Hx; unfold ident; destruct (Hf x) as [-> ->]; f_equal.
  apply Hr; unfold record_runtime; by rewrite Hx.
Qed.

Lemma settle_view p r c : view (settle_promise p r c) = view c.
Proof. unfold settle_promise; by destruct (promises c !! p) as [[]|]. Qed.

Lemma disconnect_exclusive l reason c : exclusive (view c) → exclusive (view (disconnect_next l reason c)).
Proof.
  intros Hx; unfold disconnect_next; destruct (next_lost _ c) as [q|]; apply await_exclusive; try done.
  - by rewrite view_emit.
  - unfold recordState; by rewrite view_emit.
Qed.

Lemma answer_pending_view i result c : view (answer_pending i result c) = view c.
Proof. unfold answer_pending; destruct (map_get i _); [by rewrite settle_view|done]. Qed.

Lemma task_continues t a now c :
  exclusive (view c) → connecting t = None → (∀ i l, t ≠ StopClose i l ∧ t ≠ StopRelease i l) →
  (∀ r rid, answer_registration a = Some r → asked_runtime c t = Some rid → reg_runtimeId r = rid) →
  exclusive (view (continue_ctl t a now c)).
Proof.
  intros Hx Ht Hs Hr.
  destruct t; try discriminate Ht; try (by destruct (Hs i l)); cbn [continue_ctl]; rewrite ?settle_view;
    try (by apply disconnect_exclusive; rewrite settle_view); try (by apply tick_exclusive);
    destruct a; rewrite ?settle_view; try exact Hx; try (by apply await_exclusive); try (by apply tick_exclusive).
  - by apply tick_exclusive; rewrite view_on_record.
  - by apply await_exclusive; [|rewrite view_emit].
  - rewrite (told_view _ _ r); [done|intros; by apply Hr|done].
  - rewrite (told_view _ _ r); [done|intros; by apply Hr|done].
  - rewrite (told_view _ _ r); [done|intros; by apply Hr|done].
  - unfold turn_found; destruct (bound && found); [by apply await_exclusive|by rewrite settle_view].
  - by destruct found; [apply await_exclusive|].
  - unfold turns_listed; destruct (found && _); [by apply await_exclusive|by rewrite answer_pending_view].
  - by rewrite answer_pending_view.
Qed.

Lemma event_exclusive e now c :
  exclusive (view c) → ctl_enabled c e = true → bridge_keeps c e = true → not_stopping c e = true →
  exclusive (view (ctl_handle e now c)).
Proof.
  intros Hx Hen Hk Hs; destruct e; cbn [ctl_handle]; try discriminate Hs.
  - by apply connect_exclusive.
  - unfold tick; destruct (ticking c); [done|by apply await_exclusive].
  - by apply await_exclusive.
  - unfold resolveServerRequest; repeat (case (negb _); [by rewrite settle_view|]); by apply await_exclusive.
  - unfold authorizeHandshake; case (negb _); [done|apply await_exclusive; [done|by rewrite view_emit]].
  - by rewrite view_on_record.
  - unfold onDisconnected; case (negb _); [done|by apply disconnect_exclusive].
  - unfold onProtocolFault; case (negb _); [done|apply await_exclusive; [done|unfold recordState; by rewrite view_emit]].
  - destruct (List.find _ _) as [[q i]|]; [|done]. apply await_exclusive; [done|by rewrite view_emit].
  - cbn in Hen, Hk, Hs; destruct (ctl_tasks c !! k) as [t|] eqn:Ht; [|done].
    assert (∀ r rid, answer_registration a = Some r → asked_runtime c t = Some rid → reg_runtimeId r = rid) as Hr.
    { intros r rid Ha Hq; rewrite Ha, Hq in Hk; apply bool_decide_eq_true in Hk; set_solver. }
    destruct (connecting t) as [[[op rid] st]|] eqn:Hc.
    + destruct t; try discriminate Hc; injection Hc as -> -> ->.
      apply connect_continues; [by apply (drop_task_push k _ _ _ Ht)|intros r Ha; by apply (Hr r rid)|done].
    + apply task_continues; [by rewrite (drop_task_same _ t)|done| |done].
      intros i l; split; intros ->; discriminate.
Qed.

(** The states of the runs without a [stop]. *)
Definition running (c : Controller) : Prop := rtc running_step new_controller c.

Lemma running_exclusive c : running c → exclusive (view c).
Proof.
  intros H; enough (exclusive (view new_controller) ∧ (exclusive (view new_controller) → exclusive (view c))) by tauto.
  split; [split; cbn; try done; [apply NoDup_nil_2|]; intros l Hl; by apply not_elem_of_nil in Hl|].
  induction H as [|x y z [e now ? ? ?] _ IH]; [done|]. intros Hx; by apply IH, event_exclusive.
Qed.

Lemma tasks_connecting c op rid st : (op, rid, st) ∈ connects (view c) ↔ Connecting op rid st ∈ ctl_tasks c.
Proof.
  cbn; rewrite list_elem_of_omap; split; [|intros; by exists (Connecting op rid st)].
  intros (t & Ht & Hc); destruct t; try discriminate; by injection Hc as -> -> ->.
Qed.

(** The tasks of one runtime's operations. *)
Lemma one_operation c k1 k2 op1 op2 rid st1 st2 :
  exclusive (view c) → ctl_tasks c !! k1 = Some (Connecting op1 rid st1) →
  ctl_tasks c !! k2 = Some (Connecting op2 rid st2) → k1 = k2.
Proof.
  intros [_ Hn _ _ _ _ _] H1 H2; cbn in Hn; revert Hn H1 H2; generalize (ctl_tasks c) as ts.
  intros ts; revert k1 k2; induction ts as [|t ts IH]; intros [|k1] [|k2] Hn H1 H2; cbn in *; try done.
  - simplify_eq; cbn in Hn; apply NoDup_cons in Hn as [[] _].
    apply list_elem_of_fmap; exists (op2, rid, st2); split; [done|].
    apply list_elem_of_omap; eexists; split; [by eapply list_elem_of_lookup_2|done].
  - simplify_eq; cbn in Hn; apply NoDup_cons in Hn as [[] _].
    apply list_elem_of_fmap; exists (op1, rid, st1); split; [done|].
    apply list_elem_of_omap; eexists; split; [by eapply list_elem_of_lookup_2|done].
  - f_equal; apply IH; [|done..]. destruct (connecting t); [by apply NoDup_cons in Hn as [_ ?]|done].
Qed.

(** At most one record of a runtime is not retired. *)
Lemma one_live v l1 l2 rid :
  exclusive v → ids v !! l1 = Some (rid, false) → ids v !! l2 = Some (rid, false) → l1 = l2.
Proof.
  intros Hx H1 H2; destruct (Hx) as [Hr Hn _ _ _ H6 _].
  assert (∀ op l l' st, map_get rid (installed v) = Some l → ids v !! l = Some (rid, false) →
    (op, rid, st) ∈ connects v → replacing st = Some l' → False) as Hno.
  { intros op l l' st Hi Hl Hy Hs; rewrite Forall_forall in Hr; destruct (Hr _ Hy) as [_ Hok]; cbn in Hok.
    destruct st; try discriminate; cbn in Hok; destruct Hok as (? & ? & _); congruence. }
  destruct (H6 _ _ H1) as [Hi1|(op1 & s1 & Hy1 & Hs1)], (H6 _ _ H2) as [Hi2|(op2 & s2 & Hy2 & Hs2)];
    try (by exfalso; eauto); [congruence|].
  enough (s1 = s2) by congruence.
  apply list_elem_of_lookup in Hy1 as [i Hi], Hy2 as [j Hj].
  assert (i = j) as ->; [|congruence].
  eapply (NoDup_lookup (map (λ x, x.1.2) (connects v))); [done|rewrite list_lookup_fmap, Hi; done|].
  by rewrite list_lookup_fmap, Hj.
Qed.

(** C17. While the controller is not being stopped, whatever the order of the bridge's
    answers, the drivers' events and the calls, a runtime has at most one connect operation
    in progress and at most one record that is not retired, and every driver that was ever
    told to connect is the installed one of a runtime or was told to close: no connection
    is lost track of. *)
Theorem controllers_exclusive c :
  running c →
  (∀ rid k1 k2 op1 op2 st1 st2, ctl_tasks c !! k1 = Some (Connecting op1 rid st1) →
     ctl_tasks c !! k2 = Some (Connecting op2 rid st2) → k1 = k2) ∧
  (∀ l1 l2 x1 x2, heap c !! l1 = Some x1 → heap c !! l2 = Some x2 → retired x1 = false → retired x2 = false →
     reg_runtimeId (registration x1) = reg_runtimeId (registration x2) → l1 = l2) ∧
  (∀ l, ConnectedDriver l ∈ ctl_outputs c →
     (∃ rid, map_get rid (controlled c) = Some l) ∨ ClosedDriver l ∈ ctl_outputs c).
Proof.
  intros Hx%running_exclusive; split; [|split].
  - intros; by eapply one_operation.
  - intros l1 l2 x1 x2 H1 H2 R1 R2 He; apply (one_live _ _ _ (reg_runtimeId (registration x2)) Hx);
      cbn; rewrite list_lookup_fmap; [rewrite H1|rewrite H2]; cbn; unfold ident; congruence.
  - intros l Hl; destruct (ex_closed _ Hx l) as [|Hc]; [cbn; apply list_elem_of_omap; by exists (ConnectedDriver l)|by left|right].
    cbn in Hc; apply list_elem_of_omap in Hc as (o & Ho & Hc).
    destruct o; try discriminate; by injection Hc as ->.
Qed.

(** An operation that [connect] hands out is never orphaned: as long as it is not
    settled some task runs it, and a runtime's entry among the operations in flight is one
    that runs. So neither a caller nor the loop over the runtimes waits for nothing. *)
Theorem connect_never_orphaned c rid op :
  running c →
  (operations c !! op = Some None → ∃ rid st, Connecting op rid st ∈ ctl_tasks c) ∧
  (map_get rid (connectInFlight c) = Some op → ∃ st, Connecting op rid st ∈ ctl_tasks c).
Proof.
  intros Hx%running_exclusive; split.
  - intros Ho; destruct (ex_ops _ Hx op) as (rid' & st & H); [cbn; by rewrite list_lookup_fmap, Ho|].
    exists rid', st; by apply tasks_connecting.
  - intros Hf; destruct (ex_flight _ Hx rid op Hf) as [st H]; exists st; by apply tasks_connecting.
Qed.
End Exclusion.

Import Scenario.

Definition recovered_state : Controller := default new_controller (run_ctl not_stopping recovery_run new_controller).

Lemma recovered_reachable : running recovered_state.
Proof. apply (run_running recovery_run); vm_compute; reflexivity. Qed.

(** The record of the lost connection is not the one that is installed. *)
Lemma controllers_exclusive_witness :
  map_get "r" (controlled recovered_state) = Some 1%nat ∧ length (heap recovered_state) = 2%nat ∧
  ((∃ rid, map_get rid (controlled recovered_state) = Some 0%nat) ∨ ClosedDriver 0 ∈ ctl_outputs recovered_state).
Proof.
  split; [vm_compute; reflexivity|]. split; [vm_compute; reflexivity|].
  destruct (controllers_exclusive _ recovered_reachable) as (_ & _ & H); apply H.
  apply list_elem_of_In; vm_compute; repeat (first [left; reflexivity|right]).
Defined.

Lemma connect_never_orphaned_witness :
  operations recovered_state !! 1%nat = Some None ∧
  ∃ rid st, Connecting 1 rid st ∈ ctl_tasks recovered_state.
Proof.
  split; [vm_compute; reflexivity|].
  destruct (connect_never_orphaned _ "r" 1%nat recovered_reachable) as [H _]; apply H; vm_compute; reflexivity.
Defined.
End Exclusion.
