(* ===== verification/ExternalInteractions.v ===== *)
(** * The interactions of the external runtime controller

    Over every run of the controller, a [stop] included, a promise of an interaction that
    is not settled has a running timer or a task that will settle it, and a pending entry
    always has its timer; so every request that waits for an operator is answered. *)

From stdpp Require Import sets list relations.
From S2P Require Import Prelude JsString JsDate Json CodexRequests CodexDriver ExternalRuntime.
#[local] Open Scope Z_scope.

(** ** Who answers for a promise *)

(** The promise that a task will settle or pass on. *)
Definition holder (t : ctl_task) : option nat :=
  match t with
  | AskBinding p _ _ | AskTurn p _ _ _ | AskRecord p _ _ | AskTransition p _ _ | ExpireInteraction p => Some p
  | DisconnectClose _ _ q => Some (promise q)
  | _ => None
  end.

Record Accounts := {
  a_promises : list (option (outcome ServerRequestResolution));
  a_pending : jsmap string PendingInteraction;
  a_timers : list (nat * Interaction);
  a_holders : list nat
}.

Definition accounts (c : Controller) : Accounts :=
  {| a_promises := promises c; a_pending := pendingInteractions c; a_timers := interactionTimers c;
     a_holders := omap holder (ctl_tasks c) |}.

Definition hold (p : nat) (v : Accounts) : Accounts :=
  {| a_promises := a_promises v; a_pending := a_pending v; a_timers := a_timers v; a_holders := a_holders v ++ [p] |}.

(** A promise that is not settled has one answerer; only the promises not settled have
    one; and an entry has its timer. *)
Record accounted (v : Accounts) : Prop := {
  ac_held p : a_promises v !! p = Some None ↔ p ∈ (a_timers v).*1 ++ a_holders v;
  ac_once : NoDup ((a_timers v).*1 ++ a_holders v);
  ac_pending k q : map_get k (a_pending v) = Some q →
    interactionId (interaction q) = k ∧ (promise q, interaction q) ∈ a_timers v;
  ac_wf : map_wf (a_pending v)
}.

Lemma accounted_perm v v' hs :
  v' = {| a_promises := a_promises v; a_pending := a_pending v; a_timers := a_timers v; a_holders := hs |} →
  a_holders v ≡ₚ hs → accounted v → accounted v'.
Proof.
  intros -> Hp [H1 H2 H3 H4]; split; cbn; try done.
  - intros p; rewrite H1, !elem_of_app. by setoid_rewrite Hp.
  - by rewrite <- Hp.
Qed.

(** The promises whose timers are cleared. *)
Definition cleared (p : nat) (ts : list (nat * Interaction)) : list (nat * Interaction) :=
  List.filter (λ t, negb (t.1 =? p)%nat) ts.

Lemma elem_of_cleared p ts t : t ∈ cleared p ts ↔ t ∈ ts ∧ t.1 ≠ p.
Proof.
  unfold cleared; rewrite !list_elem_of_In, filter_In, negb_true_iff, Nat.eqb_neq; tauto.
Qed.

Lemma cleared_keys p ts : (cleared p ts).*1 = filter (λ q, q ≠ p) ts.*1.
Proof.
  unfold cleared; induction ts as [|[q i] ts IH]; [done|]. rewrite fmap_cons, filter_cons; cbn [List.filter fst].
  destruct (Nat.eqb_spec q p); cbn [negb]; case_decide; try done. rewrite fmap_cons; by f_equal.
Qed.

(** The timer of a promise ends and a task answers for the promise; entries of that
    promise are gone. *)
Lemma timer_to_task p i ps v :
  accounted v → (p, i) ∈ a_timers v →
  (∀ k q, map_get k ps = Some q → map_get k (a_pending v) = Some q ∧ k ≠ interactionId i) → map_wf ps →
  accounted {| a_promises := a_promises v; a_pending := ps; a_timers := cleared p (a_timers v);
               a_holders := a_holders v ++ [p] |}.
Proof.
  intros [H1 H2 H3 H4] Ht Hps Hwf.
  assert (p ∈ (a_timers v).*1) as Hp by (apply list_elem_of_fmap; by exists (p, i)).
  apply NoDup_app in H2 as (N1 & N2 & N3).
  split; cbn; try done.
  - intros p'; rewrite H1, cleared_keys, !elem_of_app, list_elem_of_filter, list_elem_of_singleton.
    destruct (decide (p' = p)) as [->|]; naive_solver.
  - rewrite cleared_keys; apply NoDup_app; split; [by apply NoDup_filter|split].
    + intros x [? Hx]%list_elem_of_filter [?|?%list_elem_of_singleton]%elem_of_app; [by apply (N2 x)|done].
    + apply NoDup_app; split; [done|split; [|apply NoDup_singleton]].
      intros x Hx ->%list_elem_of_singleton; by apply (N2 p).
  - intros k q [Hg Hk]%Hps; destruct (H3 _ _ Hg) as [Hi Hq]; split; [done|]. apply elem_of_cleared; split; [done|].
    cbn; intros He; apply Hk; rewrite <- Hi; f_equal. rewrite He in Hq.
    apply list_elem_of_lookup in Ht as [a Ha], Hq as [b Hb]. assert (a = b) as ->; [|congruence].
    apply (NoDup_lookup _ a b p N1); rewrite list_lookup_fmap; [by rewrite Ha|by rewrite Hb].
Qed.

(** The promise a task answers for is settled. *)
Lemma settle_held p r v :
  accounted (hold p v) →
  accounted {| a_promises := <[p := Some r]> (a_promises v); a_pending := a_pending v; a_timers := a_timers v;
               a_holders := a_holders v |}.
Proof.
  intros [H1 H2 H3 H4]; cbn in *; rewrite app_assoc in H2; apply NoDup_app in H2 as (N1 & N2 & _).
  assert (a_promises v !! p = Some None) as Hp by (apply H1; set_solver).
  split; cbn; try done.
  intros p'; destruct (decide (p' = p)) as [->|Hne].
  - rewrite list_lookup_insert_eq by (by apply lookup_lt_is_Some; rewrite Hp).
    split; [done|]. intros Hin; exfalso; apply (N2 p Hin); by apply list_elem_of_singleton.
  - rewrite list_lookup_insert_ne, H1 by done; set_solver.
Qed.

Section Interactions.
Context {E : ControllerEnvironment}.
#[local] Existing Instance controller_dates.
Implicit Types (c : Controller) (l op p : nat) (rid : string).

Lemma accounts_await t c :
  accounts (ctl_await t c) = match holder t with Some p => hold p (accounts c) | None => accounts c end.
Proof.
  unfold accounts, ctl_await, hold; cbn; rewrite omap_app; cbn; destruct (holder t); [done|by rewrite app_nil_r].
Qed.

Lemma drop_holder k t c :
  ctl_tasks c !! k = Some t → accounted (accounts c) →
  accounted (match holder t with
             | Some p => hold p (accounts (set_ctl_tasks (delete k (ctl_tasks c)) c))
             | None => accounts (set_ctl_tasks (delete k (ctl_tasks c)) c)
             end).
Proof.
  intros Hk; destruct (holder t) as [p|] eqn:Ht.
  - apply (accounted_perm _ _ (omap holder (delete k (ctl_tasks c)) ++ [p])); [done|cbn].
    rewrite delete_take_drop, <- (take_drop_middle _ _ _ Hk) at 1; rewrite !omap_app; cbn; rewrite Ht.
    rewrite <- app_assoc; apply Permutation_app_head, Permutation_cons_append.
  - apply (accounted_perm _ _ (omap holder (delete k (ctl_tasks c)))); [done|cbn].
    rewrite delete_take_drop, <- (take_drop_middle _ _ _ Hk) at 1; rewrite !omap_app; cbn; by rewrite Ht.
Qed.

Lemma settled_accounted p r c :
  accounted (hold p (accounts c)) → accounted (accounts (settle_promise p r c)).
Proof.
  intros Hx; pose proof (settle_held _ r _ Hx) as Hy; unfold settle_promise.
  assert (promises c !! p = Some None) as -> by (apply (ac_held _ Hx); cbn; set_solver). exact Hy.
Qed.

Lemma new_promise_accounted c :
  accounted (accounts c) →
  accounted (hold (length (promises c)) (accounts (set_promises (promises c ++ [None]) c))).
Proof.
  intros [H1 H2 H3 H4]; split; cbn in *; try done.
  - intros p; rewrite app_assoc, lookup_app_Some, elem_of_app, <- H1, list_elem_of_singleton.
    rewrite list_lookup_singleton_Some; split; [|intros [?| ->]; [by left|right; split; [lia|split; [lia|done]]]].
    intros [|(? & ? & _)]; [by left|right; lia].
  - rewrite app_assoc; apply NoDup_app; split; [done|split; [|apply NoDup_singleton]].
    intros p Hp%H1 ->%list_elem_of_singleton. apply lookup_lt_Some in Hp; lia.
Qed.

Lemma register_accounted p i c :
  accounted (hold p (accounts c)) → accounted (accounts (register_interaction p i c)).
Proof.
  intros [H1 H2 H3 H4]; split; cbn in *; rewrite ?fmap_app; cbn.
  - intros p'; rewrite H1; set_solver.
  - rewrite <- app_assoc, (Permutation_app_comm [p]); exact H2.
  - intros k q Hg; destruct (decide (k = interactionId i)) as [->|Hne].
    + rewrite map_get_set_eq in Hg; injection Hg as <-; set_solver.
    + rewrite map_get_set_ne in Hg by done; destruct (H3 _ _ Hg); set_solver.
  - by apply map_set_wf.
Qed.

Lemma expired_accounted p i c :
  accounted (accounts c) → (p, i) ∈ interactionTimers c → accounted (accounts (interaction_expired p i c)).
Proof.
  intros Hx Hp; unfold interaction_expired; rewrite accounts_await; cbn [holder].
  apply (timer_to_task p i _ _ Hx Hp); [|apply map_delete_wf, (ac_wf _ Hx)].
  intros k q Hg; destruct (decide (k = interactionId i)) as [->|Hne]; cbn in *.
  - by rewrite map_get_delete_eq in Hg.
  - rewrite map_get_delete_ne in Hg by done; done.
Qed.

(** An entry leaves the map, its timer is cleared and its promise is to be settled. *)
Lemma taken_accounted k q c :
  accounted (accounts c) → map_get k (pendingInteractions c) = Some q →
  accounted (hold (promise q)
    (accounts (set_pendingInteractions (map_delete k (pendingInteractions c)) (clear_timer (promise q) c)))).
Proof.
  intros Hx Hg; destruct (ac_pending _ Hx _ _ Hg) as [Hk Ht].
  apply (timer_to_task _ _ _ _ Hx Ht); [|apply map_delete_wf, (ac_wf _ Hx)].
  intros k' q' Hg'; rewrite Hk; cbn in *; destruct (decide (k' = k)) as [->|Hne].
  - by rewrite map_get_delete_eq in Hg'.
  - rewrite map_get_delete_ne in Hg' by done; done.
Qed.

Lemma answer_accounted i result c : accounted (accounts c) → accounted (accounts (answer_pending i result c)).
Proof.
  intros Hx; unfold answer_pending; destruct (map_get i _) as [q|] eqn:Hq; [|done].
  by apply settled_accounted, taken_accounted.
Qed.

Lemma disconnect_accounted l reason c : accounted (accounts c) → accounted (accounts (disconnect_next l reason c)).
Proof.
  intros Hx; unfold disconnect_next; destruct (next_lost _ c) as [q|] eqn:Hq; rewrite accounts_await; cbn [holder].
  - unfold next_lost in Hq; apply fmap_Some in Hq as ([k q'] & Hf & ->); apply List.find_some in Hf as [Hin _].
    assert (map_get k (pendingInteractions c) = Some q') as Hg.
    { apply map_get_wf; [apply (ac_wf _ Hx)|by apply list_elem_of_In]. }
    destruct (ac_pending _ Hx _ _ Hg) as [Hk _]; cbn; rewrite Hk; by apply taken_accounted.
  - exact Hx.
Qed.

Lemma cleared_absent p ts : p ∉ ts.*1 → cleared p ts = ts.
Proof.
  induction ts as [|[q i] ts IH]; cbn; [done|]. intros [Hne Hn]%not_elem_of_cons.
  destruct (Nat.eqb_spec q p); cbn in *; [congruence|]. f_equal; by apply IH.
Qed.

Lemma settle_timers p r c : interactionTimers (settle_promise p r c) = interactionTimers c.
Proof. unfold settle_promise; by destruct (promises c !! p) as [[]|]. Qed.

Lemma settle_pending p r m c :
  set_pendingInteractions m (settle_promise p r c) = settle_promise p r (set_pendingInteractions m c).
Proof. unfold settle_promise; cbn; by destruct (promises c !! p) as [[]|]. Qed.

Lemma stop_accounted qs c :
  accounted (accounts (set_pendingInteractions [] c)) →
  Forall (λ q, promise q ∈ (interactionTimers c).*1 ∨ ∃ r, promises c !! promise q = Some (Some r)) qs →
  accounted (accounts (set_pendingInteractions [] (stop_interactions qs c))).
Proof.
  revert c; induction qs as [|q qs IH]; intros c Hx Hq; cbn [stop_interactions]; [done|].
  apply Forall_cons in Hq as [Hq Hqs]; apply IH.
  - rewrite settle_pending; destruct Hq as [Hin|[r Hr]].
    + apply list_elem_of_fmap in Hin as ([p i] & Hp & Ht); cbn in Hp; subst p; apply settled_accounted.
      apply (timer_to_task _ i [] _ Hx Ht); [done|apply NoDup_nil_2].
    + unfold settle_promise; cbn; rewrite Hr.
      enough (set_pendingInteractions [] (clear_timer (promise q) c) = set_pendingInteractions [] c) as -> by done.
      unfold clear_timer, set_pendingInteractions; cbn; f_equal; apply cleared_absent; intros Hin.
      assert (promises c !! promise q = Some None); [|congruence]. apply (ac_held _ Hx); cbn; set_solver.
  - apply (Forall_impl _ _ _ Hqs); intros q' Hq'.
    rewrite settle_timers; cbn [clear_timer interactionTimers set_interactionTimers].
    fold (cleared (promise q) (interactionTimers c)); rewrite cleared_keys, list_elem_of_filter.
    destruct (decide (promise q' = promise q)) as [He|Hne].
    + right; rewrite He; destruct Hq as [Hin|[r Hr]].
      * assert (promises c !! promise q = Some None) as Hn by (apply (ac_held _ Hx); cbn; set_solver).
        unfold settle_promise; cbn; rewrite Hn; cbn; exists stop_resolution; apply list_lookup_insert_eq.
        by apply lookup_lt_is_Some; rewrite Hn.
      * exists r; unfold settle_promise; cbn; by rewrite Hr.
    + destruct Hq' as [|[r Hr]]; [by left; split|right; exists r].
      unfold settle_promise; cbn; destruct (promises c !! promise q) as [[]|]; [done| |done].
      cbn; by rewrite list_lookup_insert_ne.
Qed.

(** What has no part in the interactions. *)
Lemma accounts_finish op rid r c : accounts (finish_connect op rid r c) = accounts c.
Proof. unfold finish_connect; by case_bool_decide. Qed.

Lemma accounts_connect rid c : accounts (connect rid c).1 = accounts c.
Proof.
  unfold connect; destruct (map_get rid _); [done|]; unfold connectRuntime; cbn [fst].
  repeat case_match; match goal with |- accounts (set_connectInFlight _ ?x) = _ => change (accounts x = accounts c) end;
    by rewrite accounts_await.
Qed.

Lemma accounts_caught op rid new recovering e now c :
  accounts (connect_caught op rid new recovering e now c) = accounts c.
Proof.
  unfold connect_caught; destruct new; [case_match|]; rewrite ?accounts_await, ?accounts_finish; by destruct recovering.
Qed.

Lemma accounts_continue_connect op rid st a now c : accounts (continue_connect op rid st a now c) = accounts c.
Proof.
  unfold continue_connect, restoreReadyRegistration, found_runtime, leased, install, recovered.
  repeat case_match; rewrite ?accounts_await, ?accounts_finish, ?accounts_caught; done.
Qed.

Lemma accounts_tick rs now c : accounts (tick_runtimes rs now c) = accounts c.
Proof.
  revert c; induction rs as [|r rs IH]; intros c; cbn [tick_runtimes]; [by rewrite accounts_await|].
  assert (∀ c', accounts c' = accounts c →
    accounts (let '(c, op) := connect (reg_runtimeId r) c' in ctl_await (TickConnect op rs) c) = accounts c) as Hcon.
  { intros c' Hv; pose proof (accounts_connect (reg_runtimeId r) c'); destruct (connect _ c').
    rewrite accounts_await; cbn in *; congruence. }
  case (negb _); [apply IH|]. destruct (map_get _ (controlled c)) as [l|]; [|by apply Hcon].
  destruct (driver <$> heap c !! l) as [[]|]; try (case (_ && _); [by apply Hcon|by rewrite accounts_await]).
  case (recoveryDue _ _ _); [by apply Hcon|by rewrite IH].
Qed.

Lemma accounts_stop_next i c : accounts (stop_next i c) = accounts c.
Proof. unfold stop_next; destruct (controlled c !! i) as [[? ?]|]; [by rewrite accounts_await|done]. Qed.

Lemma task_accounted t a now c :
  accounted (match holder t with Some p => hold p (accounts c) | None => accounts c end) → ctl_answers t a c = true →
  accounted (accounts (continue_ctl t a now c)).
Proof.
  intros Hx Ha; destruct t; cbn [holder] in Hx; cbn [continue_ctl]; rewrite ?accounts_continue_connect, ?accounts_tick;
    try done; destruct a; try discriminate Ha; rewrite ?accounts_await, ?accounts_tick; cbn [holder]; try done;
    try (by apply settled_accounted).
  - by rewrite accounts_stop_next.
  - by rewrite accounts_stop_next.
  - by apply disconnect_accounted, settled_accounted.
  - by apply disconnect_accounted, settled_accounted.
  - unfold turn_found; case (_ && _); [by rewrite accounts_await|by apply settled_accounted].
  - by apply register_accounted.
  - by destruct found; rewrite ?accounts_await.
  - unfold turns_listed; case (_ && _); [by rewrite accounts_await|by apply answer_accounted].
  - by apply answer_accounted.
Qed.

Lemma event_accounted e now c :
  accounted (accounts c) → ctl_enabled c e = true → accounted (accounts (ctl_handle e now c)).
Proof.
  intros Hx Hen; destruct e; cbn [ctl_handle]; try done.
  - by rewrite accounts_connect.
  - unfold tick; destruct (ticking c); [done|by rewrite accounts_await].
  - unfold stop; rewrite accounts_stop_next; apply stop_accounted.
    + destruct Hx as [H1 H2 _ _]; split; cbn; try done. apply NoDup_nil_2.
    + apply Forall_forall; intros q ([k q'] & -> & Hq)%list_elem_of_fmap; left.
      destruct (ac_pending _ Hx k q') as [_ Ht]; [apply map_get_wf; [apply (ac_wf _ Hx)|done]|].
      apply list_elem_of_fmap; by exists (promise q', interaction q').
  - by rewrite accounts_await.
  - pose proof (new_promise_accounted _ Hx); unfold resolveServerRequest.
    repeat (case (negb _); [by apply settled_accounted|]). by rewrite accounts_await.
  - unfold authorizeHandshake; case (negb _); [done|by rewrite accounts_await].
  - unfold onDisconnected; case (negb _); [done|by apply disconnect_accounted].
  - unfold onProtocolFault; case (negb _); [done|by rewrite accounts_await].
  - destruct (List.find _ _) as [[q i]|] eqn:Hf; [|done]. apply List.find_some in Hf as [Hin Hq%Nat.eqb_eq].
    cbn in Hq; subst q; by apply expired_accounted; [|apply list_elem_of_In].
  - cbn in Hen; destruct (ctl_tasks c !! k) as [t|] eqn:Ht; [|done].
    apply task_accounted; [by apply drop_holder|]. destruct t, a; done.
Qed.

(** The states of all runs. *)
Definition reached (c : Controller) : Prop := rtc ctl_step new_controller c.

Lemma reachable_accounted c : reached c → accounted (accounts c).
Proof.
  intros H; enough (accounted (accounts new_controller) ∧ (accounted (accounts new_controller) → accounted (accounts c)))
    by tauto.
  split; [split; cbn; try done; [by intros p; split; [|intros ?%not_elem_of_nil]|apply NoDup_nil_2..]|].
  induction H as [|x y z [e now ? ?] _ IH]; [done|]. intros Hx; by apply IH, event_accounted.
Qed.

(** C18. In every state the controller can reach, a [stop] included, a request that waits
    for an operator and is not answered has exactly one answerer, a running timer or a task
    that holds its promise, no answered request has one, and each pending entry has its own
    running timer: no request waits for ever and none is answered twice. *)
Theorem interactions_accounted c :
  reached c →
  (∀ p, promises c !! p = Some None ↔ p ∈ (interactionTimers c).*1 ∨ ∃ t, t ∈ ctl_tasks c ∧ holder t = Some p) ∧
  NoDup ((interactionTimers c).*1 ++ omap holder (ctl_tasks c)) ∧
  (∀ k q, map_get k (pendingInteractions c) = Some q →
     interactionId (interaction q) = k ∧ (promise q, interaction q) ∈ interactionTimers c).
Proof.
  intros [H1 H2 H3 _]%reachable_accounted; split; [|by split].
  intros p; rewrite (H1 p); cbn; rewrite elem_of_app, list_elem_of_omap; done.
Qed.

Lemma settled_now p r c : promises c !! p = Some None → promises (settle_promise p r c) !! p = Some (Some r).
Proof.
  intros Hp; unfold settle_promise; rewrite Hp; cbn; apply list_lookup_insert_eq; by apply lookup_lt_is_Some; rewrite Hp.
Qed.

Lemma disconnect_promises l reason c : promises (disconnect_next l reason c) = promises c.
Proof. unfold disconnect_next; by destruct (next_lost _ c). Qed.

(** The task that holds a promise settles it when the bridge answers, or fails. *)
Lemma holder_settles k t p c :
  ctl_tasks c !! k = Some t → holder t = Some p → promises c !! p = Some None →
  ∃ c' r, ctl_step c c' ∧ promises c' !! p = Some (Some r).
Proof.
  intros Hk Ht Hp.
  assert (∃ a, answer_registration a = None ∧ ctl_answers t a c = true ∧
    ∃ r, promises (continue_ctl t a 0 (set_ctl_tasks (delete k (ctl_tasks c)) c)) !! p = Some (Some r))
    as (a & Hr & Ha & r & Hs).
  { destruct t; try discriminate Ht; injection Ht as <-;
      match goal with
      | |- ∃ a, _ ∧ ctl_answers (ExpireInteraction _) a _ = true ∧ _ => exists Returned
      | |- ∃ a, _ ∧ ctl_answers (DisconnectClose _ _ _) a _ = true ∧ _ => exists Returned
      | _ => exists (Threw "closed")
      end; (split; [done|split; [done|cbn [continue_ctl]; rewrite ?disconnect_promises; eexists; by apply settled_now]]). }
  exists (ctl_handle (Continue k a) 0 c), r; split; [constructor|].
  - cbn; by rewrite Hk.
  - cbn; by rewrite Hk, Hr.
  - cbn; by rewrite Hk.
Qed.

(** From every state the controller can reach, a request that waits for an operator is
    still answered: the run goes on to a state in which its promise is settled, by the task
    that holds it or by its timer. *)
Theorem interaction_answered c p :
  reached c → promises c !! p = Some None →
  ∃ c' r, rtc ctl_step c c' ∧ promises c' !! p = Some (Some r).
Proof.
  intros Hx%reachable_accounted Hp.
  assert (∀ c1 k t, ctl_tasks c1 !! k = Some t → holder t = Some p → promises c1 !! p = Some None → rtc ctl_step c c1 →
    ∃ c' r, rtc ctl_step c c' ∧ promises c' !! p = Some (Some r)) as Hend.
  { intros c1 k t Hk Ht H1 Hr; destruct (holder_settles k t p c1) as (c' & r & Hs & Hc); try done.
    exists c', r; split; [by eapply rtc_r|done]. }
  pose proof (proj1 (ac_held _ Hx p) Hp) as Hq; apply elem_of_app in Hq as [Ht|Hh].
  - set (c1 := ctl_handle (TimerFires p) 0 c).
    assert (ctl_step c c1) as Hs by (constructor; [by apply bool_decide_eq_true|done]).
    apply list_elem_of_fmap in Ht as ([p' i] & -> & Hin); cbn [fst] in *.
    destruct (List.find (λ t, (t.1 =? p')%nat) (interactionTimers c)) as [[q j]|] eqn:Hf.
    + assert (c1 = interaction_expired p' j c) as Hc by (unfold c1; cbn; by rewrite Hf).
      apply (Hend c1 (length (ctl_tasks c)) (ExpireInteraction p')); rewrite ?Hc;
        [cbn; by rewrite list_lookup_middle|done|done|rewrite <- Hc; by apply rtc_once].
    + apply list_elem_of_In in Hin; pose proof (List.find_none _ _ Hf _ Hin) as Hq; cbn in Hq.
      by apply Nat.eqb_neq in Hq.
  - cbn in Hh; apply list_elem_of_omap in Hh as (t & Ht & Hq); apply list_elem_of_lookup in Ht as [k Hk].
    by apply (Hend c k t).
Qed.
End Interactions.

(** ** On a run *)

Import Scenario.

Definition waiting_state : Controller := default new_controller (run_ctl (λ _ _, true) interaction_run new_controller).

Lemma waiting_reachable : reached waiting_state.
Proof. apply (run_steps interaction_run); vm_compute; reflexivity. Qed.

Lemma interactions_accounted_witness :
  map_keys (pendingInteractions waiting_state) = ["r:7"] ∧
  (∀ k q, map_get k (pendingInteractions waiting_state) = Some q → (promise q, interaction q) ∈ interactionTimers waiting_state).
Proof.
  split; [vm_compute; reflexivity|].
  destruct (interactions_accounted _ waiting_reachable) as (_ & _ & H); intros k q Hq; by destruct (H k q Hq).
Defined.

Lemma interaction_answered_witness :
  promises waiting_state = [None] ∧
  ∃ c' r, rtc ctl_step waiting_state c' ∧ promises c' !! 0%nat = Some (Some r).
Proof.
  split; [vm_compute; reflexivity|]. apply (interaction_answered _ 0%nat waiting_reachable); vm_compute; reflexivity.
Defined.
