(* ===== verification/ThreadLifecycle.v ===== *)
(** * Archiving, restoring and deleting the threads of an external runtime

    [archiveThread], [unarchiveThread] and [deleteThread] of
    [ServiceExternalRuntimeController]
    ([ts/packages/brain-island/src/service-external-runtime.ts]), with the listing of the
    native threads, the scope of a deletion and the compensation of a failed one.  The
    native bridge and the driver are the class [ThreadServices]: every call takes the
    world to an answer and a next world, so that anything may happen between two calls;
    what the theorems need of them are the laws of [BindingStore]. *)

From stdpp Require Import sets list relations.
From S2P Require Import Prelude JsString.
#[local] Open Scope Z_scope.

(** ** Data *)

(** The members of [ExternalAgentBinding] that the operations read or change. *)
Record ExternalAgentBinding := {
  bindingId : string;
  binding_runtimeId : string;
  nativeThreadId : option string;
  binding_sessionId : option string;
  binding_status : string;
  binding_updatedAt : string;
  binding_revision : Z
}.

Record NativeThread := { thread_id : string; parentThreadId : option string; status_type : string }.

#[global] Instance native_thread_eq : EqDecision NativeThread.
Proof. solve_decision. Defined.

Record NativeThreadCatalogEntry := { thread : NativeThread; archived : bool }.
#[global] Instance catalog_entry_eq : EqDecision NativeThreadCatalogEntry.
Proof. solve_decision. Defined.

Record ActiveTurn := { turn_runtimeId : string; turn_threadId : option string; turn_requestId : string; turn_bindingId : string }.

Record WaitingInteraction := { waiting_runtimeId : string; waiting_threadId : string; waiting_id : string }.

Record CrewSession := { sessionId : string; session_status : string }.

(** What is thrown: the lifecycle's own errors, an error the app server answered with, and
    any other error, by the text [String] gives it. *)
Inductive thrown :=
| LifecycleError (reasonCode message : string)
| RpcError (message : string)
| OtherError (text : string).

Definition String_thrown (e : thrown) : string :=
  match e with
  | LifecycleError r m => "ExternalThreadLifecycleError: " +:+ r +:+ ": " +:+ m
  | RpcError m => "Error: " +:+ m
  | OtherError t => t
  end.

Inductive answer (A : Type) := Returns (a : A) | Throws (e : thrown).
Arguments Returns {A} a.
Arguments Throws {A} e.

Definition Op (W A : Type) : Type := W → answer A * W.

Definition throw {W A} (e : thrown) : Op W A := λ w, (Throws e, w).

#[global] Instance op_ret {W} : MRet (Op W) := λ A a w, (Returns a, w).
#[global] Instance op_bind {W} : MBind (Op W) := λ A B f m w,
  match m w with
  | (Returns a, w') => f a w'
  | (Throws e, w') => (Throws e, w')
  end.

(** [try { m } catch (error) { h(error) }] *)
Definition catch {W A} (m : Op W A) (h : thrown → Op W A) : Op W A := λ w,
  match m w with (Throws e, w') => h e w' | r => r end.

Record Transition := { transition_bindingId : string; previousStatus : string; currentStatus : string; transition_revision : Z }.

Record SessionTransition := { s_sessionId : string; s_previousStatus : string; s_currentStatus : string }.

Inductive lifecycle_action := archive_action | unarchive_action.
Inductive lifecycle_outcome := applied | already_archived | already_active.
Inductive delete_outcome := delete_applied | already_deleted.

Record ExternalThreadLifecycleReceipt := {
  action : lifecycle_action;
  lifecycleOutcome : lifecycle_outcome;
  nativeArchived : bool;
  lifecycle_bindings : list Transition;
  crewSessions : list SessionTransition
}.

Record ExternalThreadDeleteReceipt := { deleteOutcome : delete_outcome; delete_bindings : list Transition }.

(** A binding before and after its change. *)
Definition saved_binding : Type := ExternalAgentBinding * ExternalAgentBinding.

(** The calls of the native bridge and of the driver of a runtime. *)
Class ThreadServices (W : Type) := {
  requireControlled : string → Op W ();
  listExternalBindings : Op W (list ExternalAgentBinding);
  bindExternalAgent : ExternalAgentBinding → Z → Op W ExternalAgentBinding;
  listActiveExternalTurns : Op W (list ActiveTurn);
  listPendingExternalInteractions : Op W (list WaitingInteraction);
  listSessions : Op W (list CrewSession);
  archiveSession : string → Op W string;
  threadList : bool → option string → Op W (list NativeThread * option string);
  threadRead : string → Op W NativeThread;
  threadArchive : string → Op W ();
  threadUnarchive : string → Op W ();
  threadDelete : string → Op W ();
  clock : W → string;
  localeCompare : string → string → comparison
}.

Section Lifecycle.
Context {W : Type} {services : ThreadServices W}.

(** ** The bindings *)

Definition bindingsForThread (runtimeId threadId : string) : Op W (list ExternalAgentBinding) :=
  bs ← listExternalBindings;
  mret (List.filter (λ b, String.eqb (binding_runtimeId b) runtimeId
                          && bool_decide (nativeThreadId b = Some threadId)) bs).

Definition with_status (status updatedAt : string) (b : ExternalAgentBinding) : ExternalAgentBinding :=
  {| bindingId := bindingId b; binding_runtimeId := binding_runtimeId b; nativeThreadId := nativeThreadId b;
     binding_sessionId := binding_sessionId b; binding_status := status; binding_updatedAt := updatedAt;
     binding_revision := binding_revision b |}.

Definition bind_status (status : string) (expectedRevision : Z) (b : ExternalAgentBinding) : Op W ExternalAgentBinding :=
  λ w, bindExternalAgent (with_status status (clock w) b) expectedRevision w.

(** The loop that archives the bindings: what was saved before an error stays known. *)
Fixpoint archive_bindings (bs : list ExternalAgentBinding) (saved : list saved_binding)
    : Op W (list saved_binding * option thrown) :=
  match bs with
  | [] => mret (saved, None)
  | b :: bs =>
      if String.eqb (binding_status b) "archived" then archive_bindings bs saved
      else λ w,
        match bind_status "archived" (binding_revision b) b w with
        | (Returns after, w') => archive_bindings bs (saved ++ [(b, after)]) w'
        | (Throws e, w') => (Returns (saved, Some e), w')
        end
  end.

Fixpoint restore_each (ts : list saved_binding) (failures : list string) : Op W (list string) :=
  match ts with
  | [] => mret failures
  | (before, after) :: ts => λ w,
      match bind_status (binding_status before) (binding_revision after) after w with
      | (Returns _, w') => restore_each ts failures w'
      | (Throws e, w') => restore_each ts (failures ++ [String_thrown e]) w'
      end
  end.

Definition restoreBindingTransitions (saved : list saved_binding) : Op W (list string) := restore_each (reverse saved) [].

Definition binding_transition (saved : list saved_binding) (b : ExternalAgentBinding) : Transition :=
  let current := default b (map_get (bindingId b) (map_of_entries ((λ s, (bindingId s.1, s.2)) <$> saved))) in
  {| transition_bindingId := bindingId b; previousStatus := binding_status b; currentStatus := binding_status current;
     transition_revision := binding_revision current |}.

Definition bindingTransitions (bs : list ExternalAgentBinding) (saved : list saved_binding) : list Transition :=
  binding_transition saved <$> bs.

(** ** Crew's own work *)

Definition works_on (runtimeId : string) (threadIds bindingIds : list string) (t : ActiveTurn) : bool :=
  String.eqb (turn_runtimeId t) runtimeId
  && (set_has (default "" (turn_threadId t)) threadIds || set_has (turn_bindingId t) bindingIds).

Definition assertThreadsHaveNoCrewWork (runtimeId : string) (threadIds : list string) (bs : list ExternalAgentBinding)
    : Op W () :=
  let bindingIds := set_of_list (bindingId <$> bs) in
  turns ← listActiveExternalTurns;
  match List.find (works_on runtimeId threadIds bindingIds) turns with
  | Some t => throw (LifecycleError "external_thread_active"
                       ("thread lifecycle scope has active Crew turn " +:+ turn_requestId t))
  | None =>
      waiting ← listPendingExternalInteractions;
      match List.find (λ i, String.eqb (waiting_runtimeId i) runtimeId && set_has (waiting_threadId i) threadIds) waiting with
      | Some i => throw (LifecycleError "external_thread_interaction_pending"
                           ("thread " +:+ waiting_threadId i +:+ " has unresolved interaction " +:+ waiting_id i))
      | None => mret ()
      end
  end.

(** ** The native threads *)

Definition listing_exceeded {A} (message : string) : Op W A :=
  throw (LifecycleError "external_thread_listing_limit_exceeded" message).

(** At most [pages] pages, the cursors seen so far. *)
Fixpoint list_pages (pages : nat) (archived_ : bool) (cursor : option string) (seen : list string)
    (entries : list NativeThreadCatalogEntry) : Op W (list NativeThreadCatalogEntry) :=
  match pages with
  | O => listing_exceeded "could not enumerate the bounded native thread catalog for deletion"
  | S pages =>
      '(data, next) ← threadList archived_ cursor;
      let entries := entries ++ ((λ t, {| thread := t; archived := archived_ |}) <$> data) in
      match next with
      | None => mret entries
      | Some c =>
          if set_has c seen
          then listing_exceeded "could not enumerate the bounded native thread catalog for deletion"
          else list_pages pages archived_ (Some c) (set_add c seen) entries
      end
  end.

Definition listNativeThreadCatalog (archived_ : bool) : Op W (list NativeThreadCatalogEntry) :=
  list_pages 100 archived_ None [] [].

Fixpoint find_pages (pages : nat) (threadId : string) (archived_ : bool) (cursor : option string) (seen : list string)
    : Op W (option NativeThread) :=
  let exceeded := listing_exceeded ("could not locate thread " +:+ threadId +:+ " within the bounded native thread catalog") in
  match pages with
  | O => exceeded
  | S pages =>
      '(data, next) ← threadList archived_ cursor;
      match List.find (λ t, String.eqb (thread_id t) threadId) data, next with
      | Some t, _ => mret (Some t)
      | None, None => mret None
      | None, Some c =>
          if set_has c seen then exceeded else find_pages pages threadId archived_ (Some c) (set_add c seen)
      end
  end.

Definition findThread (threadId : string) (archived_ : bool) : Op W (option NativeThread) :=
  find_pages 100 threadId archived_ None [].

Definition unavailable_messages : list string :=
  ["is not materialized yet; includeTurns is unavailable before first user message";
   "no rollout found for thread id"; "thread not found"; "thread not loaded"].

Definition isUnavailableNativeThreadRead (e : thrown) : bool :=
  match e with
  | RpcError m => existsb (λ p, Text.includes (chars m) (chars p)) unavailable_messages
  | _ => false
  end.

Definition isMissingThreadDelete (e : thrown) : bool :=
  match e with RpcError m => Text.includes (chars m) (chars "no rollout found for thread id") | _ => false end.

Inductive located := Live (t : NativeThread) | ArchivedThread | Nowhere.

Definition locateThread (threadId : string) : Op W located :=
  active ← findThread threadId false;
  match active with
  | Some t => mret (Live t)
  | None =>
      archived_ ← findThread threadId true;
      match archived_ with
      | Some _ => mret ArchivedThread
      | None =>
          catch (t ← threadRead threadId; mret (Live t))
            (λ e, if isUnavailableNativeThreadRead e then mret Nowhere else throw e)
      end
  end.

(** ** The scope of a deletion *)

Definition catalog_of (es : list NativeThreadCatalogEntry) : jsmap string NativeThreadCatalogEntry :=
  map_of_entries ((λ e, (thread_id (thread e), e)) <$> es).

(** One round over the catalog, which grows the scope as it goes. *)
Definition scope_add (st : list string * bool) (e : NativeThreadCatalogEntry) : list string * bool :=
  match parentThreadId (thread e) with
  | Some p => if set_has p st.1 && negb (set_has (thread_id (thread e)) st.1)
              then (set_add (thread_id (thread e)) st.1, true) else st
  | None => st
  end.

Definition scope_round (es : list NativeThreadCatalogEntry) (scope : list string) : list string * bool :=
  fold_left scope_add es (scope, false).

(** [while (changed)]; a round that changes the scope adds an entry to it. *)
Fixpoint scope_rounds (fuel : nat) (es : list NativeThreadCatalogEntry) (scope : list string) : option (list string) :=
  match fuel with
  | O => None
  | S fuel => let '(scope', changed) := scope_round es scope in
              if changed then scope_rounds fuel es scope' else Some scope'
  end.

Definition deletion_scope (catalog : jsmap string NativeThreadCatalogEntry) (threadId : string)
    : list NativeThreadCatalogEntry :=
  let es := map_values catalog in
  let scope := default [] (scope_rounds (S (length es)) es [threadId]) in
  omap (λ id, map_get id catalog) (sort_by String.compare scope).

(** The two listings, which only read, one after the other. *)
Definition threadDeletionScope (threadId : string) : Op W (list NativeThreadCatalogEntry) :=
  active ← listNativeThreadCatalog false;
  archived_ ← listNativeThreadCatalog true;
  mret (deletion_scope (catalog_of (archived_ ++ active)) threadId).

Definition remainingNativeThreadIds (scoped : list string) : Op W (list string) :=
  active ← listNativeThreadCatalog false;
  archived_ ← listNativeThreadCatalog true;
  mret (set_of_list (List.filter (λ id, set_has id scoped) (thread_id ∘ thread <$> active ++ archived_))).

(** ** The operations *)

(** What the controlled runtime remembers of its threads, next to the world. *)
Record ControlledThreads := {
  world : W;
  threadSettings : list string;
  threadUsage : list string;
  archivedThreadIds : list string
}.

Definition lift {A} (m : Op W A) : Op ControlledThreads A := λ c,
  let '(a, w) := m (world c) in
  (a, {| world := w; threadSettings := threadSettings c; threadUsage := threadUsage c;
         archivedThreadIds := archivedThreadIds c |}).

Definition forget_thread (threadId : string) : Op ControlledThreads () := λ c,
  (Returns (), {| world := world c; threadSettings := set_delete threadId (threadSettings c);
                  threadUsage := set_delete threadId (threadUsage c); archivedThreadIds := archivedThreadIds c |}).

Definition set_archivedThreadIds (f : list string → list string) : Op ControlledThreads () := λ c,
  (Returns (), {| world := world c; threadSettings := threadSettings c; threadUsage := threadUsage c;
                  archivedThreadIds := f (archivedThreadIds c) |}).

Definition not_found {S A} (runtimeId threadId : string) : Op S A :=
  throw (LifecycleError "external_thread_not_found"
           ("native thread " +:+ threadId +:+ " was not found in runtime " +:+ runtimeId)).

(** One session of an archived thread. *)
Definition archive_session (id : string) : Op W SessionTransition :=
  ss ← listSessions;
  match List.find (λ s, String.eqb (sessionId s) id) ss with
  | None => throw (LifecycleError "external_thread_crew_session_reconciliation_failed"
                     ("Crew session " +:+ id +:+
                      " could not be read after native and binding archive; retry archive to reconcile"))
  | Some before =>
      after ← (if String.eqb (session_status before) "archived" then mret (session_status before)
               else catch (archiveSession id)
                      (λ e, throw (LifecycleError "external_thread_crew_session_reconciliation_failed"
                                     ("native thread and binding are archived but Crew session " +:+ id +:+
                                      " is not: " +:+ String_thrown e +:+ "; retry archive to reconcile"))));
      mret {| s_sessionId := id; s_previousStatus := session_status before; s_currentStatus := after |}
  end.

Fixpoint archive_sessions (ids : list string) : Op W (list SessionTransition) :=
  match ids with
  | [] => mret []
  | id :: ids => t ← archive_session id; ts ← archive_sessions ids; mret (t :: ts)
  end.

Definition crew_sessions (bs : list ExternalAgentBinding) : list string :=
  sort_by String.compare (set_of_list (omap binding_sessionId bs)).

(** The native thread is archived; the bindings and the sessions follow. *)
Definition archive_rest (threadId : string) (bs : list ExternalAgentBinding) (outcome : lifecycle_outcome)
    : Op ControlledThreads ExternalThreadLifecycleReceipt :=
  '(saved, failure) ← lift (archive_bindings bs []);
  match failure with
  | Some e =>
      throw (LifecycleError "external_thread_binding_reconciliation_failed"
               ("binding reconciliation is partial after native archive: " +:+ String_thrown e +:+
                "; retry archive to reconcile the remaining binding and Crew session state"))
  | None =>
      sessions ← lift (archive_sessions (crew_sessions bs));
      _ ← set_archivedThreadIds (set_add threadId);
      mret {| action := archive_action; lifecycleOutcome := outcome; nativeArchived := true;
              lifecycle_bindings := bindingTransitions bs saved; crewSessions := sessions |}
  end.

Definition archiveThread (runtimeId threadId : string) : Op ControlledThreads ExternalThreadLifecycleReceipt :=
  _ ← lift (requireControlled runtimeId);
  bs ← lift (bindingsForThread runtimeId threadId);
  _ ← lift (assertThreadsHaveNoCrewWork runtimeId [threadId] bs);
  state ← lift (locateThread threadId);
  match state with
  | Nowhere => not_found runtimeId threadId
  | Live t =>
      if String.eqb (status_type t) "active" then
        throw (LifecycleError "external_thread_active" ("native thread " +:+ threadId +:+ " is active"))
      else
        _ ← lift (threadArchive threadId);
        _ ← forget_thread threadId;
        archive_rest threadId bs applied
  | ArchivedThread => archive_rest threadId bs already_archived
  end.

Definition unarchiveThread (runtimeId threadId : string) : Op ControlledThreads ExternalThreadLifecycleReceipt :=
  _ ← lift (requireControlled runtimeId);
  bs ← lift (bindingsForThread runtimeId threadId);
  _ ← lift (assertThreadsHaveNoCrewWork runtimeId [threadId] bs);
  state ← lift (locateThread threadId);
  match state with
  | Live _ =>
      mret {| action := unarchive_action; lifecycleOutcome := already_active; nativeArchived := true;
              lifecycle_bindings := bindingTransitions bs []; crewSessions := [] |}
  | Nowhere => not_found runtimeId threadId
  | ArchivedThread =>
      _ ← lift (threadUnarchive threadId);
      _ ← set_archivedThreadIds (set_delete threadId);
      mret {| action := unarchive_action; lifecycleOutcome := applied; nativeArchived := false;
              lifecycle_bindings := bindingTransitions bs []; crewSessions := [] |}
  end.

Definition scoped_bindings (runtimeId : string) (scoped : list string) (bs : list ExternalAgentBinding)
    : list ExternalAgentBinding :=
  List.filter (λ b, String.eqb (binding_runtimeId b) runtimeId
                    && match nativeThreadId b with Some t => set_has t scoped | None => false end) bs.

Definition failures_text (failures : list string) : string :=
  match failures with [] => "none" | _ => Str.join "; " failures end.

Definition delete_failed {A} (message : string) : Op W A :=
  throw (LifecycleError "external_thread_native_delete_failed" message).

(** The native delete failed. *)
Definition delete_caught (threadId : string) (nativeScope : list NativeThreadCatalogEntry) (scoped : list string)
    (bs : list ExternalAgentBinding) (saved : list saved_binding) (e : thrown) : Op W ExternalThreadDeleteReceipt :=
  let receipt o := {| deleteOutcome := o; delete_bindings := bindingTransitions bs saved |} in
  let compensate :=
    failures ← restoreBindingTransitions saved;
    delete_failed ("native delete failed: " +:+ String_thrown e +:+ "; binding compensation failures: " +:+
                   failures_text failures) in
  if bool_decide (nativeScope = []) && isMissingThreadDelete e then mret (receipt already_deleted)
  else match e with
       | RpcError _ => compensate
       | _ =>
           remaining ← catch (remainingNativeThreadIds scoped)
             (λ v, delete_failed ("native delete failed with an ambiguous outcome: " +:+ String_thrown e +:+
                                  "; verification failed: " +:+ String_thrown v +:+ "; bindings remain archived"));
           if (length remaining =? 0)%nat
           then mret (receipt (if bool_decide (nativeScope = []) then already_deleted else delete_applied))
           else if negb (length remaining =? length scoped)%nat
           then delete_failed ("native delete partially completed after " +:+ String_thrown e +:+
                               "; remaining native threads: " +:+ Str.join ", " (sort_by String.compare remaining) +:+
                               "; bindings remain archived")
           else compensate
       end.

(** The bindings are archived, then the native threads are deleted. *)
Definition delete_scope (threadId : string) (nativeScope : list NativeThreadCatalogEntry) (scoped : list string)
    (bs : list ExternalAgentBinding) : Op W ExternalThreadDeleteReceipt :=
  '(saved, failure) ← archive_bindings (sort_by (λ l r, localeCompare (bindingId l) (bindingId r)) bs) [];
  match failure with
  | Some e =>
      failures ← restoreBindingTransitions saved;
      throw (LifecycleError "external_thread_binding_reconciliation_failed"
               ("binding reconciliation failed before native delete: " +:+ String_thrown e +:+
                "; compensation failures: " +:+ failures_text failures))
  | None =>
      catch (_ ← threadDelete threadId;
             mret {| deleteOutcome := if bool_decide (nativeScope = []) then already_deleted else delete_applied;
                     delete_bindings := bindingTransitions bs saved |})
        (delete_caught threadId nativeScope scoped bs saved)
  end.

Definition deleteThread (runtimeId threadId : string) : Op W ExternalThreadDeleteReceipt :=
  _ ← requireControlled runtimeId;
  nativeScope ← threadDeletionScope threadId;
  let scoped := set_add threadId (set_of_list (thread_id ∘ thread <$> nativeScope)) in
  all ← listExternalBindings;
  let bs := scoped_bindings runtimeId scoped all in
  _ ← assertThreadsHaveNoCrewWork runtimeId scoped bs;
  match List.find (λ e, negb (archived e) && String.eqb (status_type (thread e)) "active") nativeScope with
  | Some e => throw (LifecycleError "external_thread_active"
                       ("native thread " +:+ thread_id (thread e) +:+ " in deletion scope " +:+ threadId +:+ " is active"))
  | None => delete_scope threadId nativeScope scoped bs
  end.
End Lifecycle.
Arguments ControlledThreads : clear implicits.

(** ** The scope is the thread and its descendants *)

Inductive descends (es : list NativeThreadCatalogEntry) (root : string) : string → Prop :=
| descends_root : descends es root root
| descends_child e p :
    e ∈ es → parentThreadId (thread e) = Some p → descends es root p → descends es root (thread_id (thread e)).

(** What a round keeps. *)
Lemma round_keeps es (P : string → Prop) st :
  (∀ e p, e ∈ es → parentThreadId (thread e) = Some p → P p → P (thread_id (thread e))) →
  (∀ x, x ∈ st.1 → P x) → ∀ x, x ∈ (fold_left scope_add es st).1 → P x.
Proof.
  revert st; induction es as [|e es IH]; intros st HP Hs x; cbn [fold_left]; [apply Hs|].
  apply IH; [intros; eapply HP; [by right|done..]|]. unfold scope_add.
  destruct (parentThreadId (thread e)) as [p|] eqn:Hp; [|done].
  destruct (set_has p st.1) eqn:H1, (set_has (thread_id (thread e)) st.1); cbn; try done.
  intros y [->|]%elem_of_set_add; [|auto]. apply (HP e p); [left|done|]. apply Hs; by apply set_has_true.
Qed.

(** A round changes nothing and the scope is closed, or it adds to the scope. *)
Lemma round_progress es st :
  let st' := fold_left scope_add es st in
  st.1 ⊆ st'.1 ∧ (NoDup st.1 → NoDup st'.1) ∧
  (st' = st ∧ (∀ e p, e ∈ es → parentThreadId (thread e) = Some p → p ∈ st.1 → thread_id (thread e) ∈ st.1) ∨
   st'.2 = true ∧ (length st.1 < length st'.1)%nat).
Proof.
  revert st; induction es as [|e es IH]; intros st; cbn [fold_left].
  { split; [done|split; [done|]]. left; split; [done|]. intros ? ? []%not_elem_of_nil. }
  assert (scope_add st e = st ∧ (∀ p, parentThreadId (thread e) = Some p → p ∈ st.1 → thread_id (thread e) ∈ st.1) ∨
    scope_add st e = (st.1 ++ [thread_id (thread e)], true) ∧ (thread_id (thread e) ∉ st.1)) as [[-> Hc]|[-> Hn]].
  { unfold scope_add; destruct (parentThreadId (thread e)) as [p|]; [|by left].
    destruct (set_has p st.1) eqn:H1, (set_has (thread_id (thread e)) st.1) eqn:H2; cbn.
    - left; split; [done|]. intros; by apply set_has_true.
    - right; apply set_has_false in H2; unfold set_add; by rewrite decide_False.
    - left; split; [done|]. intros q [= ->] ?%set_has_true; congruence.
    - left; split; [done|]. intros q [= ->] ?%set_has_true; congruence. }
  - destruct (IH st) as (Hs & Hd & [[-> Hcl]|Hp]); split_and!; try done; [left|by right].
    split; [done|]. intros e' p [->|]%elem_of_cons; eauto.
  - destruct (IH (st.1 ++ [thread_id (thread e)], true)) as (Hs & Hd & Hp); cbn [fst] in *; split_and!.
    + intros x Hx; apply Hs; set_solver.
    + intros Hst; apply Hd; apply NoDup_app; split_and!; [done| |apply NoDup_singleton].
      intros x Hx ->%list_elem_of_singleton; done.
    + right; destruct Hp as [[-> _]|[-> Hl]]; (split; [done|]); cbn; rewrite ?length_app in *; cbn in *; lia.
Qed.

Lemma scope_rounds_spec fuel es root scope :
  NoDup scope → (∀ x, x ∈ scope → descends es root x) → root ∈ scope →
  scope ⊆ root :: (thread_id ∘ thread <$> es) → (S (length es) < fuel + length scope)%nat →
  ∃ final, scope_rounds fuel es scope = Some final ∧ NoDup final ∧ ∀ x, x ∈ final ↔ descends es root x.
Proof.
  revert scope; induction fuel as [|fuel IH]; intros scope Hn Hd Hr Hb Hf; cbn [scope_rounds].
  { pose proof (submseteq_length _ _ (NoDup_submseteq _ _ Hn Hb)) as Hl; cbn in Hl; rewrite length_fmap in Hl; lia. }
  unfold scope_round; pose proof (round_progress es (scope, false)) as (Hs & Hn' & Hp).
  pose proof (round_keeps es (descends es root) (scope, false) (descends_child es root) Hd) as Hd'.
  pose proof (round_keeps es (λ x, x ∈ root :: (thread_id ∘ thread <$> es)) (scope, false)) as Hb'.
  destruct (fold_left scope_add es (scope, false)) as [scope' changed]; cbn [fst snd] in *.
  destruct Hp as [[[= -> ->] Hcl]|[-> Hl]].
  - exists scope; split_and!; [done|done|]. intros x; split; [apply Hd|].
    induction 1 as [|e p He Hp Hx IHx]; [done|]. by apply (Hcl e p).
  - apply IH; [auto|auto|by apply Hs| |lia]. intros x Hx; apply Hb'; [|apply Hb|done].
    intros e p He _ _; right; by apply (list_elem_of_fmap_2 (thread_id ∘ thread)).
Qed.

Lemma catalog_of_key es k e : map_get k (catalog_of es) = Some e → thread_id (thread e) = k.
Proof.
  intros H%map_get_elem; unfold catalog_of in H; apply map_of_entries_elem in H.
  apply list_elem_of_fmap in H as (e' & [= -> ->] & _); done.
Qed.

(** The scope of a deletion is exactly the listed entries of the requested thread and
    of its descendants through the parents of the catalog, however the catalogs order
    their threads and even when parents form a cycle; the loop that collects it ends. *)
Theorem deletion_scope_exact es root e :
  e ∈ deletion_scope (catalog_of es) root ↔
  map_get (thread_id (thread e)) (catalog_of es) = Some e ∧
  descends (map_values (catalog_of es)) root (thread_id (thread e)).
Proof.
  unfold deletion_scope; set (cat := catalog_of es).
  destruct (scope_rounds_spec (S (length (map_values cat))) (map_values cat) root [root])
    as (final & -> & _ & Hf).
  - apply NoDup_singleton.
  - intros x ->%list_elem_of_singleton; constructor.
  - by left.
  - intros x ->%list_elem_of_singleton; by left.
  - cbn; lia.
  - cbn [default]; rewrite list_elem_of_omap; setoid_rewrite sort_by_perm; setoid_rewrite Hf; split.
    + intros (k & Hk & He); by rewrite (catalog_of_key _ _ _ He).
    + intros [He Hd]; by exists (thread_id (thread e)).
Qed.
