(* ===== verification/ThreadLifecycleFacts.v ===== *)
(** * What archiving and deleting a thread does to its bindings

    Against the laws of a store of bindings with expected revisions ([BindingStore]):
    a deletion that returns has archived every binding of its scope; one that throws has
    put every binding back, or its message says that it has not. *)

From stdpp Require Import sets list relations gmap.
From S2P Require Import Prelude JsString ThreadLifecycle.
#[local] Open Scope Z_scope.

Definition with_revision (r : Z) (b : ExternalAgentBinding) : ExternalAgentBinding :=
  {| bindingId := bindingId b; binding_runtimeId := binding_runtimeId b; nativeThreadId := nativeThreadId b;
     binding_sessionId := binding_sessionId b; binding_status := binding_status b;
     binding_updatedAt := binding_updatedAt b; binding_revision := r |}.

(** What the operations rely on: the bindings are in a store that is listed as it is, a
    write with the expected revision stores the binding with the next one, a refused write
    stores nothing, and no other call changes the bindings, except [requireControlled], which
    may connect the runtime and then rewrite its bindings. *)
Class BindingStore (W : Type) {services : ThreadServices W} := {
  stored : W → string → option ExternalAgentBinding;
  listed w bs w' : listExternalBindings w = (Returns bs, w') →
    NoDup (bindingId <$> bs) ∧ (∀ b, b ∈ bs → stored w (bindingId b) = Some b) ∧
    (∀ id b, stored w id = Some b → bindingId b = id ∧ b ∈ bs);
  bound b rev w a w' : bindExternalAgent b rev w = (Returns a, w') →
    a = with_revision (rev + 1) b ∧
    ∀ id, stored w' id = if decide (id = bindingId b) then Some a else stored w id;
  refused b rev w e w' : bindExternalAgent b rev w = (Throws e, w') → ∀ id, stored w' id = stored w id;
  list_keeps w id : stored (listExternalBindings w).2 id = stored w id;
  turns_keep w id : stored (listActiveExternalTurns w).2 id = stored w id;
  waiting_keep w id : stored (listPendingExternalInteractions w).2 id = stored w id;
  sessions_keep w id : stored (listSessions w).2 id = stored w id;
  archiveSession_keeps s w id : stored (archiveSession s w).2 id = stored w id;
  threads_keep a c w id : stored (threadList a c w).2 id = stored w id;
  read_keeps t w id : stored (threadRead t w).2 id = stored w id;
  archive_keeps t w id : stored (threadArchive t w).2 id = stored w id;
  unarchive_keeps t w id : stored (threadUnarchive t w).2 id = stored w id;
  delete_keeps t w id : stored (threadDelete t w).2 id = stored w id
}.

Section Facts.
Context {W : Type} {services : ThreadServices W} {store : BindingStore W}.
Implicit Types (bs : list ExternalAgentBinding) (new : list saved_binding) (w : W).

(** An operation that leaves the bindings alone, on states that hold the world. *)
Definition keeps_in {S A} (π : S → W) (m : Op S A) : Prop := ∀ s id, stored (π (m s).2) id = stored (π s) id.
#[local] Abbreviation keeps := (keeps_in (λ w : W, w)).

Lemma keeps_ret {S A} (π : S → W) (a : A) : keeps_in π (mret a).
Proof. by intros w id. Qed.

Lemma keeps_throw {S A} (π : S → W) e : keeps_in π (throw (A:=A) e).
Proof. by intros w id. Qed.

Lemma keeps_bind {S A B} (π : S → W) (m : Op S A) (f : A → Op S B) :
  keeps_in π m → (∀ a, keeps_in π (f a)) → keeps_in π (m ≫= f).
Proof.
  intros Hm Hf w id; unfold mbind, op_bind; specialize (Hm w id); destruct (m w) as [[a|e] w']; cbn in *; [|done].
  by rewrite Hf.
Qed.

Lemma keeps_catch {A} (m : Op W A) h : keeps m → (∀ e, keeps (h e)) → keeps (catch m h).
Proof.
  intros Hm Hh w id; unfold catch; specialize (Hm w id); destruct (m w) as [[a|e] w']; cbn in *; [done|].
  by rewrite Hh.
Qed.

Create HintDb keeps.
#[local] Hint Resolve keeps_ret keeps_throw : keeps.
#[local] Hint Extern 1 (keeps _) => intros w id; first [apply list_keeps|apply turns_keep
  |apply waiting_keep|apply sessions_keep|apply threads_keep|apply read_keeps|apply delete_keeps] : keeps.

Ltac keeps_step :=
  first [ apply keeps_ret | apply keeps_throw | apply keeps_bind; [|intros ?] | apply keeps_catch; [|intros ?]
        | solve [eauto with keeps] ].
Ltac keeps_solve := repeat keeps_step.

Lemma keeps_no_work rid ts bs : keeps (assertThreadsHaveNoCrewWork rid ts bs).
Proof.
  unfold assertThreadsHaveNoCrewWork; apply keeps_bind; [eauto with keeps|intros turns].
  destruct (List.find _ turns); [apply keeps_throw|]. apply keeps_bind; [eauto with keeps|intros waiting].
  destruct (List.find _ waiting); keeps_solve.
Qed.

Lemma keeps_pages pages a cursor seen es : keeps (list_pages pages a cursor seen es).
Proof.
  revert cursor seen es; induction pages as [|pages IH]; intros cursor seen es; cbn [list_pages]; [apply keeps_throw|].
  apply keeps_bind; [eauto with keeps|]. intros [data [c|]]; [|apply keeps_ret].
  destruct (set_has c seen); [apply keeps_throw|apply IH].
Qed.

Lemma keeps_find pages t a cursor seen : keeps (find_pages pages t a cursor seen).
Proof.
  revert cursor seen; induction pages as [|pages IH]; intros cursor seen; cbn [find_pages]; [apply keeps_throw|].
  apply keeps_bind; [eauto with keeps|]. intros [data next].
  destruct (List.find _ data), next as [c|]; try apply keeps_ret. destruct (set_has c seen); [apply keeps_throw|apply IH].
Qed.

Lemma keeps_locate t : keeps (locateThread t).
Proof.
  unfold locateThread, findThread; apply keeps_bind; [apply keeps_find|]. intros [x|]; [apply keeps_ret|].
  apply keeps_bind; [apply keeps_find|]. intros [x|]; [apply keeps_ret|].
  apply keeps_catch; [apply keeps_bind; [eauto with keeps|intros; apply keeps_ret]|].
  intros e; destruct (isUnavailableNativeThreadRead e); [apply keeps_ret|apply keeps_throw].
Qed.

Lemma keeps_scope t : keeps (threadDeletionScope t).
Proof.
  unfold threadDeletionScope, listNativeThreadCatalog.
  apply keeps_bind; [apply keeps_pages|intros ?]. apply keeps_bind; [apply keeps_pages|intros ?]. apply keeps_ret.
Qed.

Lemma keeps_remaining scoped : keeps (remainingNativeThreadIds scoped).
Proof.
  unfold remainingNativeThreadIds, listNativeThreadCatalog.
  apply keeps_bind; [apply keeps_pages|intros ?]. apply keeps_bind; [apply keeps_pages|intros ?]. apply keeps_ret.
Qed.

(** ** Archiving the bindings and putting them back *)

(** The saved bindings by their ids. *)
Definition afters (saved : list saved_binding) : jsmap string ExternalAgentBinding := (λ s, (bindingId s.1, s.2)) <$> saved.
Definition befores (saved : list saved_binding) : jsmap string ExternalAgentBinding := (λ s, (bindingId s.1, s.1)) <$> saved.

(** A binding that was archived, at the next revision. *)
Definition archived_pair (s : saved_binding) : Prop :=
  bindingId s.2 = bindingId s.1 ∧ binding_status s.2 = "archived" ∧ binding_revision s.2 = binding_revision s.1 + 1.

Lemma bind_status_returns status rev b w a w' :
  bind_status status rev b w = (Returns a, w') →
  bindingId a = bindingId b ∧ binding_status a = status ∧ binding_revision a = rev + 1 ∧
  ∀ id, stored w' id = if decide (id = bindingId b) then Some a else stored w id.
Proof. by intros [-> Hs]%bound. Qed.

Lemma archive_bindings_spec bs saved w :
  NoDup (bindingId <$> bs) →
  ∃ new failure w', archive_bindings bs saved w = (Returns (saved ++ new, failure), w') ∧
    Forall archived_pair new ∧ (∀ s, s ∈ new → s.1 ∈ bs) ∧ NoDup (bindingId ∘ fst <$> new) ∧
    (∀ id, stored w' id = or_else (map_get id (afters new)) (stored w id)) ∧
    (failure = None → ∀ b, b ∈ bs → binding_status b = "archived" ∨ ∃ a, (b, a) ∈ new).
Proof.
  revert saved w; induction bs as [|b bs IH]; intros saved w Hn; cbn [archive_bindings].
  { exists [], None, w; split_and!; cbn; rewrite ?app_nil_r; try done; try apply NoDup_nil_2; [intros ? []%not_elem_of_nil|].
    intros _ ? []%not_elem_of_nil. }
  rewrite fmap_cons, NoDup_cons in Hn; destruct Hn as [Hb Hn].
  destruct (String.eqb_spec (binding_status b) "archived") as [Hst|Hst].
  { destruct (IH saved w Hn) as (new & f & w' & He & Ha & Hi & Hd & Hs & Hf); exists new, f, w'; split_and!; try done.
    - intros s Hs'; right; by apply Hi.
    - intros Hf' x [->|Hx]%elem_of_cons; [by left|by apply Hf]. }
  destruct (bind_status "archived" (binding_revision b) b w) as [[a|e] w1] eqn:Hw.
  - destruct (bind_status_returns _ _ _ _ _ _ Hw) as (A1 & A2 & A3 & A4).
    destruct (IH (saved ++ [(b, a)]) w1 Hn) as (new & f & w' & -> & Ha & Hi & Hd & Hs & Hf).
    assert (bindingId b ∉ (bindingId ∘ fst <$> new)) as Hbn.
    { intros (s & Hs1 & Hs2)%list_elem_of_fmap; apply Hb, list_elem_of_fmap; exists s.1; split; [done|by apply Hi]. }
    exists ((b, a) :: new), f, w'; rewrite <- app_assoc; split_and!; try done.
    + by constructor.
    + intros s [->|Hx]%elem_of_cons; [by left|right; by apply Hi].
    + rewrite fmap_cons; by apply NoDup_cons.
    + intros id; rewrite Hs, A4; cbn; destruct (decide (id = bindingId b)) as [->|Hne].
      * replace (map_get (bindingId b) (afters new)) with (@None ExternalAgentBinding); [done|].
        symmetry; apply map_get_None; unfold map_keys, afters; rewrite <- list_fmap_compose; exact Hbn.
      * done.
    + intros Hf' x [->|Hx]%elem_of_cons; [right; exists a; left|]. destruct (Hf Hf' x Hx) as [|[y Hy]]; [by left|right].
      exists y; by right.
  - exists [], (Some e), w1; rewrite app_nil_r; split_and!; try done; [by intros ? []%not_elem_of_nil|apply NoDup_nil_2|].
    intros id; cbn; by apply (refused _ _ _ _ _ Hw).
Qed.

Definition status (w : W) (id : string) : option string := binding_status <$> stored w id.

(** The bindings [left] are those whose restoration failed: one failure for each. *)
Lemma restore_each_spec ts failures w :
  Forall (λ s : saved_binding, bindingId s.2 = bindingId s.1) ts → NoDup (bindingId ∘ fst <$> ts) →
  ∃ more left w', restore_each ts failures w = (Returns (failures ++ more), w') ∧ length more = length left ∧
    left `sublist_of` (bindingId ∘ fst <$> ts) ∧ (∀ id, id ∈ left → status w' id = status w id) ∧
    ∀ id, id ∉ left → status w' id =
      match map_get id (befores ts) with Some b => Some (binding_status b) | None => status w id end.
Proof.
  revert failures w; induction ts as [|[b a] ts IH]; intros failures w Ha Hn; cbn [restore_each].
  { exists [], [], w; rewrite app_nil_r; split_and!; done. }
  apply Forall_cons in Ha as [Hba Ha]; cbn in Hba; rewrite fmap_cons, NoDup_cons in Hn; destruct Hn as [Hb Hn].
  assert (map_get (bindingId b) (befores ts) = None) as Hnone.
  { apply map_get_None; unfold map_keys, befores; rewrite <- list_fmap_compose; exact Hb. }
  destruct (bind_status (binding_status b) (binding_revision a) a w) as [[x|e] w1] eqn:Hw.
  - destruct (IH failures w1 Ha Hn) as (more & left & w' & -> & Hl & Hsub & Hk & Hm).
    destruct (bind_status_returns _ _ _ _ _ _ Hw) as (_ & X2 & _ & X4).
    assert (∀ id, id ∈ left → id ≠ bindingId b) as Hne.
    { intros id Hid ->. apply Hb. eapply elem_of_submseteq; [exact Hid|by apply sublist_submseteq]. }
    exists more, left, w'; split_and!; [done|done|by apply sublist_cons| |].
    + intros id Hid; rewrite (Hk id Hid); unfold status; by rewrite X4, Hba, decide_False by auto.
    + intros id Hid; rewrite (Hm id Hid); cbn. destruct (decide (id = bindingId b)) as [->|Hne'].
      * rewrite Hnone; unfold status; rewrite X4, Hba, decide_True by done. cbn. by rewrite X2.
      * unfold status; by rewrite X4, Hba, decide_False by done.
  - destruct (IH (failures ++ [String_thrown e]) w1 Ha Hn) as (more & left & w' & -> & Hl & Hsub & Hk & Hm).
    pose proof (refused _ _ _ _ _ Hw) as Hr.
    exists (String_thrown e :: more), (bindingId b :: left), w'; rewrite <- app_assoc; cbn; split_and!;
      [done|by rewrite Hl|by apply sublist_skip| |].
    + intros id Hid; destruct (decide (id ∈ left)) as [Hin|Hin]; [rewrite (Hk _ Hin)|rewrite (Hm _ Hin)];
        unfold status; rewrite Hr; [done|]. apply elem_of_cons in Hid as [->|]; [by rewrite Hnone|done].
    + intros id [Hne Hid]%not_elem_of_cons; rewrite (Hm id Hid), decide_False by done. unfold status; by rewrite Hr.
Qed.

Lemma saved_keys (f : saved_binding → ExternalAgentBinding) saved id :
  map_get id ((λ s, (bindingId s.1, f s)) <$> saved) = None ↔ id ∉ (bindingId ∘ fst <$> saved).
Proof. rewrite map_get_None; unfold map_keys; by rewrite <- list_fmap_compose. Qed.

(** The ids that a loop saved. *)
Definition ids_of (bs : list ExternalAgentBinding) : list string := bindingId <$> bs.

(** The state after [new] was archived from the bindings [bs] of the state [w0]. *)
Record archiving bs new (w0 w1 : W) : Prop := {
  archiving_stored b : b ∈ bs → stored w0 (bindingId b) = Some b;
  archiving_from s : s ∈ new → s.1 ∈ bs;
  archiving_pairs : Forall archived_pair new;
  archiving_once : NoDup (bindingId ∘ fst <$> new);
  archiving_now id : stored w1 id = or_else (map_get id (afters new)) (stored w0 id)
}.

Lemma archiving_keeps bs new w0 w1 w2 :
  archiving bs new w0 w1 → (∀ id, stored w2 id = stored w1 id) → archiving bs new w0 w2.
Proof. intros [] Hk; constructor; try done. intros id; by rewrite Hk. Qed.

(** A binding that is not among them is as it was. *)
Lemma archiving_others bs new w0 w1 id : archiving bs new w0 w1 → id ∉ ids_of bs → stored w1 id = stored w0 id.
Proof.
  intros [] Hid. rewrite archiving_now0. replace (map_get id (afters new)) with (@None ExternalAgentBinding); [done|].
  symmetry; apply (saved_keys snd). intros (s & -> & Hs)%list_elem_of_fmap. by apply Hid, (list_elem_of_fmap_2 bindingId), archiving_from0.
Qed.

Lemma archiving_saved bs new w0 w1 id :
  archiving bs new w0 w1 → id ∈ (bindingId ∘ fst <$> new) → id ∈ ids_of bs ∧ status w1 id = Some "archived".
Proof.
  intros [] Hid. split.
  { apply list_elem_of_fmap in Hid as (s & -> & Hs). by apply (list_elem_of_fmap_2 bindingId), archiving_from0. }
  unfold status; rewrite archiving_now0. destruct (map_get id (afters new)) as [a|] eqn:Hg; cbn;
    [|by apply (saved_keys snd) in Hg].
  apply map_get_elem in Hg; unfold afters in Hg; apply list_elem_of_fmap in Hg as (s & [= _ ->] & Hs).
  f_equal. by apply (proj1 (Forall_forall _ _) archiving_pairs0).
Qed.

(** The loop that archives, undone: [left] stays archived, one failure for each. *)
Lemma undone bs new w w1 :
  archiving bs new w w1 →
  ∃ failures left w', restoreBindingTransitions new w1 = (Returns failures, w') ∧ length failures = length left ∧
    NoDup left ∧ (∀ id, id ∈ left → id ∈ ids_of bs ∧ status w' id = Some "archived") ∧
    ∀ id, id ∉ left → status w' id = status w id.
Proof.
  intros Har; pose proof Har as [Hst Hbs Ha Hn H1]; unfold restoreBindingTransitions.
  assert (NoDup (bindingId ∘ fst <$> reverse new)) as Hn' by (by rewrite fmap_reverse, reverse_Permutation).
  destruct (restore_each_spec (reverse new) [] w1) as (more & left & w' & -> & Hl & Hsub & Hk & Hm).
  - apply Forall_reverse; eapply Forall_impl; [exact Ha|]. by intros s (? & _).
  - done.
  - pose proof (sublist_NoDup _ _ Hn' Hsub). apply sublist_submseteq in Hsub. rewrite fmap_reverse, reverse_Permutation in Hsub.
    exists more, left, w'; split_and!; [done..| |].
    + intros id Hid. rewrite (Hk id Hid). apply (archiving_saved _ _ _ _ _ Har). by eapply elem_of_submseteq.
    + intros id Hid; rewrite (Hm id Hid). destruct (map_get id (befores (reverse new))) as [b|] eqn:Hb.
      * apply map_get_elem in Hb; unfold befores in Hb; apply list_elem_of_fmap in Hb as (s & [= -> ->] & Hs).
        rewrite elem_of_reverse in Hs. unfold status; by rewrite (Hst s.1 (Hbs s Hs)).
      * unfold status; rewrite H1; replace (map_get id (afters new)) with (@None ExternalAgentBinding); [done|]. symmetry.
        apply (saved_keys snd); apply (saved_keys fst) in Hb; rewrite fmap_reverse, elem_of_reverse in Hb; exact Hb.
Qed.

(** What a failed deletion of the bindings [P] leaves: every binding has its status, but for
    [left], which are archived.  The error says so when there are any: all bindings [P]
    are and the message ends with the remark that they are, or the message lists one
    failed compensation for each. *)
Definition failed_delete (P : string → Prop) (w0 w' : W) (e : thrown) : Prop :=
  ∃ left, NoDup left ∧ (∀ id, id ∈ left → P id ∧ status w' id = Some "archived") ∧
    (∀ id, id ∉ left → status w' id = status w0 id) ∧
    (left = [] ∨
     (∀ id, P id → id ∈ left) ∧
       (∃ m, e = LifecycleError "external_thread_native_delete_failed" (m +:+ "; bindings remain archived")) ∨
     ∃ reason m fs, e = LifecycleError reason (m +:+ "compensation failures: " +:+ failures_text fs) ∧ length fs = length left).

Lemma failed_unchanged P (w0 w' : W) e : (∀ id, stored w' id = stored w0 id) → failed_delete P w0 w' e.
Proof.
  intros H. exists []. split_and!; [constructor|by intros ? []%not_elem_of_nil| |by left].
  intros id _. unfold status; by rewrite H.
Qed.

Lemma append_assoc (a b c : string) : a +:+ b +:+ c = (a +:+ b) +:+ c.
Proof. apply chars_inj; rewrite !chars_app; apply app_assoc. Qed.

Lemma compensation_restores A bs new w0 w1 w' e (msg : string → string) reason :
  archiving bs new w0 w1 → (∀ t, ∃ m, msg t = m +:+ "compensation failures: " +:+ t) →
  (fs ← restoreBindingTransitions new; throw (W:=W) (A:=A) (LifecycleError reason (msg (failures_text fs)))) w1 = (Throws e, w') →
  failed_delete (.∈ ids_of bs) w0 w' e.
Proof.
  intros Har Hm; destruct (undone bs new w0 w1 Har) as (fs & left & w2 & Hr & Hl & Hn & Hk & Hs).
  unfold mbind, op_bind; rewrite Hr; intros [= <- <-]. exists left; split_and!; [done..|]. right; right.
  destruct (Hm (failures_text fs)) as [m ->]; by exists reason, m, fs.
Qed.

(** ** A deletion *)

(** Every binding of the deletion is archived. *)
Definition all_archived bs (w0 w1 : W) : Prop :=
  (∀ id, id ∈ ids_of bs → status w1 id = Some "archived") ∧ ∀ id, id ∉ ids_of bs → stored w1 id = stored w0 id.

Lemma all_archived_keeps bs w0 w1 w2 :
  all_archived bs w0 w1 → (∀ id, stored w2 id = stored w1 id) → all_archived bs w0 w2.
Proof. intros [H1 H2] Hk; split; intros id Hid; unfold status; rewrite Hk; auto. by apply H1. Qed.

Lemma failed_remain bs w0 w1 m :
  NoDup (ids_of bs) → all_archived bs w0 w1 →
  failed_delete (.∈ ids_of bs) w0 w1 (LifecycleError "external_thread_native_delete_failed" (m +:+ "; bindings remain archived")).
Proof.
  intros Hn [H1 H2]. exists (ids_of bs). split_and!; [done|by intros; split; auto| |].
  - intros id Hid. unfold status; by rewrite H2.
  - right; left. split; [done|by exists m].
Qed.

Lemma delete_caught_restores threadId scope scoped bs new e0 w0 w1 e w' :
  NoDup (ids_of bs) → archiving bs new w0 w1 → all_archived bs w0 w1 →
  delete_caught threadId scope scoped bs new e0 w1 = (Throws e, w') → failed_delete (.∈ ids_of bs) w0 w' e.
Proof.
  intros Hn Har Hall; unfold delete_caught, delete_failed.
  assert (∀ t, ∃ m, ("native delete failed: " +:+ String_thrown e0 +:+ "; binding compensation failures: " +:+ t)
                    = m +:+ "compensation failures: " +:+ t) as Hmsg.
  { intros t; exists ("native delete failed: " +:+ String_thrown e0 +:+ "; binding ").
    rewrite <- !append_assoc; done. }
  destruct (bool_decide (scope = []) && isMissingThreadDelete e0); [done|].
  assert (∀ w2, (∀ id, stored w2 id = stored w1 id) → _ w2 = (Throws e, w') → _) as Hcomp
    by exact (λ w2 Hw2, compensation_restores ExternalThreadDeleteReceipt bs new w0 w2 w' e
                (λ t, "native delete failed: " +:+ String_thrown e0 +:+ "; binding compensation failures: " +:+ t)
                "external_thread_native_delete_failed" (archiving_keeps _ _ _ _ _ Har Hw2) Hmsg).
  assert (∀ w2 m, (∀ id, stored w2 id = stored w1 id) →
    failed_delete (.∈ ids_of bs) w0 w2 (LifecycleError "external_thread_native_delete_failed" (m +:+ "; bindings remain archived")))
    as Hremain by (intros w2 m Hk; by eapply failed_remain, all_archived_keeps).
  destruct e0 as [r0 m0|m0|t0]; [|by apply Hcomp|];
    (unfold mbind at 1, op_bind at 1, catch; pose proof (keeps_remaining scoped w1) as Hk;
     destruct (remainingNativeThreadIds scoped w1) as [[rem|v] w2]; cbn [snd] in Hk;
     [destruct (length rem =? 0)%nat; [done|]; destruct (negb _); [|by apply (Hcomp w2)]|];
     unfold throw; intros [= <- <-]; rewrite !append_assoc; by apply Hremain).
Qed.

Lemma delete_caught_returns threadId scope scoped bs new e0 w receipt w' :
  delete_caught threadId scope scoped bs new e0 w = (Returns receipt, w') →
  delete_bindings receipt = bindingTransitions bs new ∧ ∀ id, stored w' id = stored w id.
Proof.
  unfold delete_caught, delete_failed; destruct (bool_decide (scope = []) && isMissingThreadDelete e0); [by intros [= <- <-]|].
  assert (∀ w2 (f : list string → thrown), (fs ← restoreBindingTransitions new; throw (f fs)) w2 ≠ (Returns receipt, w'))
    as Hcomp.
  { intros w2 f; unfold mbind, op_bind, throw; by destruct (restoreBindingTransitions new w2) as [[?|?] ?]. }
  destruct e0 as [r0 m0|m0|t0]; [|by intros ?%Hcomp|];
    (unfold mbind at 1, op_bind at 1, catch; pose proof (keeps_remaining scoped w) as Hk;
     destruct (remainingNativeThreadIds scoped w) as [[rem|v] w2]; cbn [snd] in Hk; [|done];
     destruct (length rem =? 0)%nat; [by intros [= <- <-]|]; destruct (negb _); [done|by intros ?%Hcomp]).
Qed.

Lemma archived_all bs new w0 w1 :
  archiving bs new w0 w1 → (∀ b, b ∈ bs → binding_status b = "archived" ∨ ∃ a, (b, a) ∈ new) →
  (∀ t, t ∈ bindingTransitions bs new → currentStatus t = "archived") ∧ all_archived bs w0 w1.
Proof.
  intros Har Hall; pose proof Har as [Hst Hbs Ha Hd Hs].
  assert (map_wf (afters new)) as Hwf by (unfold map_wf, map_keys, afters; by rewrite <- list_fmap_compose).
  assert (∀ b, b ∈ bs → binding_status (default b (map_get (bindingId b) (afters new))) = "archived") as Hcur.
  { intros b Hb; destruct (map_get (bindingId b) (afters new)) as [a|] eqn:Hg; cbn.
    - apply map_get_elem in Hg; unfold afters in Hg; apply list_elem_of_fmap in Hg as (s & [= _ ->] & Hin).
      rewrite Forall_forall in Ha; by destruct (Ha s Hin) as (_ & ? & _).
    - destruct (Hall b Hb) as [|[a Hin]]; [done|]. apply (saved_keys snd) in Hg; exfalso; apply Hg.
      apply list_elem_of_fmap; by exists (b, a). }
  split; [|split].
  - intros t (b & -> & Hb)%list_elem_of_fmap; cbn; fold (afters new); rewrite (map_of_entries_wf _ Hwf); by apply Hcur.
  - intros id (b & -> & Hb)%list_elem_of_fmap; specialize (Hcur b Hb); unfold status; rewrite Hs, (Hst b Hb).
    destruct (map_get (bindingId b) (afters new)); cbn in *; congruence.
  - intros id; by apply (archiving_others _ new).
Qed.

Lemma transition_ids bs new : transition_bindingId <$> bindingTransitions bs new = ids_of bs.
Proof. unfold bindingTransitions, ids_of. rewrite <- list_fmap_compose. done. Qed.

(** The bindings a deletion archives: sorting them changes nothing. *)
Lemma delete_scope_spec threadId scope scoped bs w0 w r w' :
  (∀ b, b ∈ bs → stored w0 (bindingId b) = Some b) → NoDup (ids_of bs) → (∀ id, stored w id = stored w0 id) →
  delete_scope threadId scope scoped bs w = (r, w') →
  match r with
  | Returns receipt =>
      (∀ t, t ∈ delete_bindings receipt → currentStatus t = "archived") ∧
      transition_bindingId <$> delete_bindings receipt = ids_of bs ∧ all_archived bs w0 w'
  | Throws e => failed_delete (.∈ ids_of bs) w0 w' e
  end.
Proof.
  intros Hst Hn Hw; unfold delete_scope; set (sorted := sort_by _ bs).
  assert (∀ b, b ∈ sorted ↔ b ∈ bs) as Hin by (intros; unfold sorted; by rewrite sort_by_perm).
  destruct (archive_bindings_spec sorted [] w) as (new & failure & w1 & Hr & Ha & Hi & Hd & Hs & Hf).
  { unfold sorted; by rewrite sort_by_perm. }
  unfold mbind at 1, op_bind at 1; rewrite Hr; cbn [app].
  assert (archiving bs new w0 w1) as Har.
  { constructor; try done; [intros; by apply Hin, Hi|intros; by rewrite Hs, Hw]. }
  destruct failure as [e0|].
  - intros He; destruct r as [receipt|e].
    { unfold mbind, op_bind, throw in He; by destruct (restoreBindingTransitions new w1) as [[?|?] ?]. }
    refine (compensation_restores _ bs new w0 w1 w' e
              (λ t, "binding reconciliation failed before native delete: " +:+ String_thrown e0 +:+
                    "; compensation failures: " +:+ t) _ Har _ He).
    intros t; exists ("binding reconciliation failed before native delete: " +:+ String_thrown e0 +:+ "; ").
    by rewrite <- !append_assoc.
  - destruct (archived_all bs new w0 w1 Har) as [Ht Hb]; [intros b Hb; apply Hf; [done|by apply Hin]|].
    unfold catch, mbind, op_bind; pose proof (delete_keeps threadId w1) as Hk.
    destruct (threadDelete threadId w1) as [[u|e0] w2]; cbn [snd] in Hk.
    + intros [= <- <-]; split_and!; [exact Ht|apply transition_ids|by eapply all_archived_keeps..].
    + intros He; destruct r as [receipt|e].
      * destruct (delete_caught_returns _ _ _ _ _ _ _ _ _ He) as [-> Hk']; split_and!; [exact Ht|apply transition_ids|..];
          (eapply all_archived_keeps; [exact Hb|]; intros id; by rewrite Hk', Hk).
      * by refine (delete_caught_restores _ _ _ _ _ _ w0 w2 _ _ Hn (archiving_keeps _ _ _ _ _ Har Hk)
                  (all_archived_keeps _ _ _ _ Hb Hk) He).
Qed.

Lemma bind_step {A B} (m : Op W A) (f : A → Op W B) w r w' :
  (m ≫= f) w = (r, w') →
  (∃ e, m w = (Throws e, w') ∧ r = Throws e) ∨ ∃ a w1, m w = (Returns a, w1) ∧ f a w1 = (r, w').
Proof. unfold mbind, op_bind; destruct (m w) as [[a|e] w1]; [right; eauto|left; naive_solver]. Qed.

Lemma NoDup_fmap_List_filter {A B} (f : A → B) (p : A → bool) (l : list A) :
  NoDup (f <$> l) → NoDup (f <$> List.filter p l).
Proof.
  induction l as [|x l IH]; cbn; [done|]. intros [Hx Hl]%NoDup_cons; destruct (p x); [|by apply IH].
  rewrite fmap_cons; apply NoDup_cons; split; [|by apply IH].
  intros (y & Hy & Hin)%list_elem_of_fmap; apply Hx, list_elem_of_fmap; exists y; split; [done|].
  apply elem_of_List_filter in Hin; tauto.
Qed.

(** The next call of an operation leaves the bindings alone: when it throws they are as
    they were, otherwise the operation goes on. *)
Lemma keeping_step {A B} (m : Op W A) (f : A → Op W B) w w1 r w' :
  (∀ id, stored w1 id = stored w id) → keeps m → (m ≫= f) w1 = (r, w') →
  (∃ e, r = Throws e ∧ ∀ id, stored w' id = stored w id) ∨
  ∃ a w2, m w1 = (Returns a, w2) ∧ f a w2 = (r, w') ∧ ∀ id, stored w2 id = stored w id.
Proof.
  intros Hw Hm Hr; assert (∀ a w2, m w1 = (a, w2) → ∀ id, stored w2 id = stored w id) as Hk.
  { intros a w2 H id; rewrite <- Hw, <- (Hm w1 id), H; done. }
  apply bind_step in Hr as [(e & He & ->)|(a & w2 & He & Hf)]; eauto 7.
Qed.

(** [threads] are the threads of a deletion that lists the catalogs in [w0]: [tid] and what
    descends from it through the parents that the catalogs name. *)
Definition listed_scope (tid : string) (w0 : W) (threads : string → Prop) : Prop :=
  ∃ active w1 archived_ w2, listNativeThreadCatalog false w0 = (Returns active, w1) ∧
    listNativeThreadCatalog true w1 = (Returns archived_, w2) ∧
    ∀ t, threads t ↔ descends (map_values (catalog_of (archived_ ++ active))) tid t.

(** The bindings of a runtime to these threads. *)
Definition bound_to (rid : string) (threads : string → Prop) (w0 : W) (id : string) : Prop :=
  ∃ b t, stored w0 id = Some b ∧ binding_runtimeId b = rid ∧ nativeThreadId b = Some t ∧ threads t.

Lemma map_of_entries_keyed {K V} `{EqDecision K} (l : list (K * V)) : map_wf (map_of_entries l).
Proof.
  unfold map_of_entries. enough (∀ m, map_wf m → map_wf (fold_left (λ m '(k, v), map_set k v m) l m)) as H
    by (apply H; constructor).
  induction l as [|[k v] l IH]; intros m Hm; cbn; [done|]. by apply IH, map_set_wf.
Qed.

Lemma scope_threads es tid t :
  t ∈ set_add tid (set_of_list (thread_id ∘ thread <$> deletion_scope (catalog_of es) tid)) ↔
  descends (map_values (catalog_of es)) tid t.
Proof.
  rewrite elem_of_set_add, elem_of_set_of_list, list_elem_of_fmap. split.
  - intros [->|(e & -> & He)]; [constructor|]. by apply deletion_scope_exact in He as [_ ?].
  - intros Hd; pose proof Hd as Hd'. destruct Hd' as [|e p He Hp Hd']; [by left|right]. exists e; split; [done|].
    apply deletion_scope_exact; split; [|done].
    apply list_elem_of_fmap in He as ([k e'] & -> & Hk). pose proof (map_get_wf _ _ _ (map_of_entries_keyed _) Hk) as Hg.
    cbn; by rewrite (catalog_of_key _ _ _ Hg).
Qed.

Lemma threadDeletionScope_returns tid w scope w' :
  threadDeletionScope tid w = (Returns scope, w') →
  listed_scope tid w (.∈ set_add tid (set_of_list (thread_id ∘ thread <$> scope))).
Proof.
  unfold threadDeletionScope. intros H. apply bind_step in H as [(e & _ & [=])|(active & w1 & H1 & H)].
  apply bind_step in H as [(e & _ & [=])|(archived_ & w2 & H2 & H)]. injection H as <- _.
  exists active, w1, archived_, w2. split_and!; [done..|]. intros; apply scope_threads.
Qed.

Lemma scoped_bindings_bound rid scoped w w0 all :
  NoDup (bindingId <$> all) ∧ (∀ b, b ∈ all → stored w (bindingId b) = Some b) ∧
  (∀ id b, stored w id = Some b → bindingId b = id ∧ b ∈ all) → (∀ id, stored w id = stored w0 id) →
  NoDup (ids_of (scoped_bindings rid scoped all)) ∧
  (∀ b, b ∈ scoped_bindings rid scoped all → stored w0 (bindingId b) = Some b) ∧
  ∀ id, id ∈ ids_of (scoped_bindings rid scoped all) ↔ bound_to rid (.∈ scoped) w0 id.
Proof.
  intros (Hn & Hst & Hall) Hw. split; [by apply NoDup_fmap_List_filter|].
  assert (∀ b, b ∈ scoped_bindings rid scoped all ↔
    b ∈ all ∧ binding_runtimeId b = rid ∧ ∃ t, nativeThreadId b = Some t ∧ t ∈ scoped) as Hin.
  { intros b. unfold scoped_bindings. rewrite elem_of_List_filter, andb_true_iff, String.eqb_eq.
    destruct (nativeThreadId b) as [t|]; [rewrite set_has_true|]; naive_solver. }
  split; [intros b (Hb & _)%Hin; by rewrite <- Hw; apply Hst|]. intros id. unfold ids_of, bound_to. rewrite list_elem_of_fmap. split.
  - intros (b & -> & (Hb & Hr & t & Ht & Hs)%Hin). exists b, t. rewrite <- Hw. split_and!; try done. by apply Hst.
  - intros (b & t & Hb & Hr & Ht & Hs). rewrite <- Hw in Hb. destruct (Hall _ _ Hb) as [<- Hb'].
    exists b. split; [done|]. apply Hin; eauto.
Qed.

Lemma failed_delete_iff P Q w0 w' e : (∀ id, P id ↔ Q id) → failed_delete P w0 w' e → failed_delete Q w0 w' e.
Proof.
  intros HPQ (left & Hn & Hl & Ho & He). exists left. split_and!; [done|naive_solver|done|].
  destruct He as [?|[[? ?]|?]]; [by left|right; left|right; by right]. naive_solver.
Qed.

(** C16. A deletion touches the bindings of the requested thread and of the threads that
    descend from it in the listed catalogs, and no others.  One that returns has archived
    all of them, and they are the ones its receipt names, as archived.  One that throws, at
    whatever call, has left every binding as it was, or every status is as before, or
    the error tells what is not: its message says that the bindings remain archived, and
    all of them are, or it lists the failed compensations, one for each binding that stays
    archived.  All this is relative to the bindings that [requireControlled] leaves, which
    may connect the runtime first. *)
Theorem delete_thread_safe rid tid w r w' :
  deleteThread rid tid w = (r, w') →
  let w0 := (requireControlled rid w).2 in
  match r with
  | Returns receipt => ∃ threads, listed_scope tid w0 threads ∧
      (∀ id, id ∈ (transition_bindingId <$> delete_bindings receipt) ↔ bound_to rid threads w0 id) ∧
      (∀ t, t ∈ delete_bindings receipt → currentStatus t = "archived") ∧
      (∀ id, bound_to rid threads w0 id → status w' id = Some "archived") ∧
      (∀ id, ¬ bound_to rid threads w0 id → stored w' id = stored w0 id)
  | Throws e =>
      (∀ id, stored w' id = stored w0 id) ∨
      ∃ threads, listed_scope tid w0 threads ∧ failed_delete (bound_to rid threads w0) w0 w' e
  end.
Proof.
  cbv zeta; intros H; unfold deleteThread in H.
  apply bind_step in H as [(e & -> & ->)|([] & w0 & -> & H1)]; [by left|]; cbn [snd].
  destruct (keeping_step _ _ w0 _ _ _ (λ _, eq_refl) (keeps_scope tid) H1) as [(e & -> & ?)|(scope & w2 & Hsc & H & K2)];
    [by left|]; clear H1; apply threadDeletionScope_returns in Hsc.
  destruct (keeping_step _ _ w0 _ _ _ K2 list_keeps H) as [(e & -> & ?)|(all & w3 & Hr3 & H3 & K3)]; [by left|].
  set (scoped := set_add tid _) in *; set (bs := scoped_bindings rid scoped all) in *.
  destruct (keeping_step _ _ w0 _ _ _ K3 (keeps_no_work rid scoped bs) H3) as [(e & -> & ?)|(u & w4 & _ & H4 & K4)]; [by left|].
  destruct (List.find _ scope) as [x|]; [injection H4 as <- <-; by left|].
  destruct (scoped_bindings_bound rid scoped _ w0 all (listed _ _ _ Hr3) K2) as (Hn & Hst & Hb); fold bs in Hn, Hst, Hb.
  pose proof (delete_scope_spec tid scope scoped bs w0 w4 r w' Hst Hn K4 H4) as Hspec; destruct r as [receipt|e].
  - destruct Hspec as (Ht & Hi & Ha & Ho). exists (.∈ scoped). rewrite Hi. split_and!; [done..| |].
    + intros id Hid; by apply Ha, Hb.
    + intros id Hid; apply Ho; by rewrite Hb.
  - right. exists (.∈ scoped). split; [done|]. by apply (failed_delete_iff (.∈ ids_of bs)).
Qed.

(** ** An archival *)

Lemma bind_returns {S A B} (m : Op S A) (f : A → Op S B) s b s' :
  (m ≫= f) s = (Returns b, s') → ∃ a s1, m s = (Returns a, s1) ∧ f a s1 = (Returns b, s').
Proof. unfold mbind, op_bind; destruct (m s) as [[a|e] s1]; [eauto|discriminate]. Qed.

Lemma lift_keeps {A} (m : Op W A) : keeps m → keeps_in world (lift m).
Proof. intros Hm c id; unfold lift; specialize (Hm (world c) id); destruct (m (world c)); done. Qed.

Lemma lift_returns {A} (m : Op W A) c r c' : lift m c = (r, c') → m (world c) = (r, world c').
Proof. unfold lift; destruct (m (world c)) as [r1 w1]; by intros [= <- <-]. Qed.

Lemma keeps_bindings rid tid : keeps (bindingsForThread rid tid).
Proof. unfold bindingsForThread; apply keeps_bind; [exact list_keeps|intros; apply keeps_ret]. Qed.

Lemma bindings_listed rid tid w bs w' :
  bindingsForThread rid tid w = (Returns bs, w') →
  NoDup (bindingId <$> bs) ∧ (∀ b, b ∈ bs → stored w (bindingId b) = Some b) ∧
  (∀ b, stored w (bindingId b) = Some b → binding_runtimeId b = rid → nativeThreadId b = Some tid → b ∈ bs).
Proof.
  intros (all & w1 & Hl & [= <- <-])%bind_returns; destruct (listed _ _ _ Hl) as (Hn & Hst & Hall); split_and!.
  - by apply NoDup_fmap_List_filter.
  - intros b [Hb _]%elem_of_List_filter; by apply Hst.
  - intros b Hb Hr Ht; apply elem_of_List_filter; split; [by apply Hall in Hb as [_ ?]|].
    by rewrite Hr, String.eqb_refl, Ht, bool_decide_true.
Qed.

Lemma keeps_sessions ids : keeps (archive_sessions ids).
Proof.
  induction ids as [|id ids IH]; cbn [archive_sessions]; [apply keeps_ret|].
  apply keeps_bind; [|intros t; apply keeps_bind; [exact IH|intros; apply keeps_ret]].
  unfold archive_session; apply keeps_bind; [exact sessions_keep|]. intros ss; destruct (List.find _ ss); [|apply keeps_throw].
  apply keeps_bind; [|intros; apply keeps_ret]. destruct (String.eqb _ _); [apply keeps_ret|].
  apply keeps_catch; [exact (archiveSession_keeps id)|intros; apply keeps_throw].
Qed.

(** The part after the native archive, when it returns. *)
Lemma archive_rest_returns tid bs outcome w c receipt c' :
  (∀ b, b ∈ bs → stored w (bindingId b) = Some b) → NoDup (bindingId <$> bs) → (∀ id, stored (world c) id = stored w id) →
  archive_rest tid bs outcome c = (Returns receipt, c') →
  nativeArchived receipt = true ∧ lifecycleOutcome receipt = outcome ∧ tid ∈ archivedThreadIds c' ∧
  (∀ t, t ∈ lifecycle_bindings receipt → currentStatus t = "archived") ∧
  (∀ b, b ∈ bs → binding_status <$> stored (world c') (bindingId b) = Some "archived").
Proof.
  intros Hst Hn Hw ([saved failure] & c1 & Hl%lift_returns & H)%bind_returns.
  destruct (archive_bindings_spec bs [] (world c) Hn) as (new & f & w1 & Hr & Ha & Hi & Hd & Hs & Hf).
  rewrite Hr in Hl; injection Hl as <- <- ->; cbn [app] in H; destruct f as [e|]; [discriminate|].
  apply bind_returns in H as (sessions & c2 & Hc2 & [= <- <-]); cbn.
  pose proof (lift_keeps _ (keeps_sessions (crew_sessions bs)) c1) as Hk; rewrite Hc2 in Hk; cbn in Hk.
  assert (archiving bs new w (world c1)) as Har by (constructor; try done; intros; by rewrite Hs, Hw).
  destruct (archived_all bs new w (world c1) Har) as [Ht [Hb _]]; [by apply Hf|].
  split_and!; try done; [apply elem_of_set_add; by left|]. intros b Hb'; rewrite Hk. by apply Hb, (list_elem_of_fmap_2 bindingId).
Qed.

Lemma lifted_step {A B} (m : Op W A) (f : A → Op (ControlledThreads W) B) c b c' (st : string → option ExternalAgentBinding) :
  keeps m → (∀ id, stored (world c) id = st id) → (lift m ≫= f) c = (Returns b, c') →
  ∃ a c1, lift m c = (Returns a, c1) ∧ f a c1 = (Returns b, c') ∧ ∀ id, stored (world c1) id = st id.
Proof.
  intros Hm Hc (a & c1 & Ha & Hf)%bind_returns; exists a, c1; split_and!; [done|done|].
  intros id; rewrite <- Hc; pose proof (lift_keeps _ Hm c id) as K; by rewrite Ha in K.
Qed.

(** An archival that returns has archived the native thread or found it archived, and
    every binding of the thread in the store and in the receipt is archived. Restoring a
    thread never changes a binding, whatever its outcome.  Both are relative to the bindings
    that [requireControlled] leaves. *)
Theorem archive_thread_exact rid tid c r c' :
  let w0 := (requireControlled rid (world c)).2 in
  (archiveThread rid tid c = (Returns r, c') →
   nativeArchived r = true ∧ lifecycleOutcome r ≠ already_active ∧ tid ∈ archivedThreadIds c' ∧
   (∀ t, t ∈ lifecycle_bindings r → currentStatus t = "archived") ∧
   (∀ b, stored w0 (bindingId b) = Some b → binding_runtimeId b = rid → nativeThreadId b = Some tid →
         status (world c') (bindingId b) = Some "archived")) ∧
  (∀ id, stored (world (unarchiveThread rid tid c).2) id = stored w0 id).
Proof.
  cbv zeta; split.
  - intros H. apply bind_returns in H as ([] & c1 & K0 & H1). apply lift_returns in K0.
    assert (∀ id, stored (world c1) id = stored (requireControlled rid (world c)).2 id) as K1 by (by rewrite K0).
    destruct (lifted_step _ _ _ _ _ _ (keeps_bindings rid tid) K1 H1) as (bs & c2 & L & H2 & K2).
    destruct (bindings_listed _ _ _ _ _ (lift_returns _ _ _ _ L)) as (Hn & Hst & Hall).
    destruct (lifted_step _ _ _ _ _ _ (keeps_no_work rid [tid] bs) K2 H2) as (u & c3 & _ & H3 & K3).
    destruct (lifted_step _ _ _ _ _ _ (keeps_locate tid) K3 H3) as (state & c4 & _ & H4 & K4).
    match goal with |- ?G =>
      assert (∀ outcome c5, outcome ≠ already_active →
        (∀ id, stored (world c5) id = stored (requireControlled rid (world c)).2 id) →
        archive_rest tid bs outcome c5 = (Returns r, c') → G) as Hrest end.
    { intros outcome c5 Ho K5 Hr; destruct (archive_rest_returns tid bs outcome _ c5 r c'
        (λ b Hb, eq_trans (eq_sym (K1 _)) (Hst b Hb)) Hn K5 Hr) as (A1 & A2 & A3 & A4 & A5).
      refine (conj A1 (conj _ (conj A3 (conj A4 (λ b Hb Hr' Ht, A5 b (Hall b _ Hr' Ht)))))); [congruence|by rewrite K1]. }
    destruct state as [t| |]; [|by apply (Hrest already_archived c4)|discriminate].
    destruct (String.eqb _ _); [discriminate|].
    destruct (lifted_step _ _ _ _ _ _ (archive_keeps tid) K4 H4) as (u' & c5 & _ & H5 & K5).
    apply bind_returns in H5 as (u'' & c6 & [= <- <-] & K6). apply (Hrest applied _ ltac:(discriminate)) in K6; [exact K6|exact K5].
  - intros id; unfold unarchiveThread, mbind at 1, op_bind at 1.
    destruct (lift (requireControlled rid) c) as [o c1] eqn:E. rewrite (lift_returns _ _ _ _ E); cbn [snd].
    destruct o as [u|e]; [|reflexivity].
    match goal with |- stored (world (?m c1).2) id = _ => assert (keeps_in world m) as Hk; [|exact (Hk c1 id)] end.
    apply keeps_bind; [apply lift_keeps, keeps_bindings|intros bs].
    apply keeps_bind; [apply lift_keeps, keeps_no_work|intros _].
    apply keeps_bind; [apply lift_keeps, keeps_locate|intros [t| |]]; [apply keeps_ret| |apply keeps_throw].
    apply keeps_bind; [apply lift_keeps; exact (unarchive_keeps tid)|intros _].
    apply keeps_bind; [by intros s x|intros; apply keeps_ret].
Qed.
End Facts.

(** ** A store in memory *)

Module LifecycleExample.
Record World := {
  w_bindings : gmap string ExternalAgentBinding;
  w_active : list NativeThread;
  w_archived : list NativeThread;
  w_turns : list ActiveTurn;
  w_delete_error : option thrown
}.

Definition with_id (id : string) (b : ExternalAgentBinding) : ExternalAgentBinding :=
  {| bindingId := id; binding_runtimeId := binding_runtimeId b; nativeThreadId := nativeThreadId b;
     binding_sessionId := binding_sessionId b; binding_status := binding_status b;
     binding_updatedAt := binding_updatedAt b; binding_revision := binding_revision b |}.

Definition set_bindings (m : gmap string ExternalAgentBinding) (w : World) : World :=
  {| w_bindings := m; w_active := w_active w; w_archived := w_archived w; w_turns := w_turns w;
     w_delete_error := w_delete_error w |}.

Definition set_threads (active archived_ : list NativeThread) (w : World) : World :=
  {| w_bindings := w_bindings w; w_active := active; w_archived := archived_; w_turns := w_turns w;
     w_delete_error := w_delete_error w |}.

Definition bind_in_memory (b : ExternalAgentBinding) (rev : Z) : Op World ExternalAgentBinding := λ w,
  match w_bindings w !! bindingId b with
  | Some current =>
      if (binding_revision current =? rev) && negb (String.eqb (binding_updatedAt current) "locked")
      then let a := with_revision (rev + 1) b in (Returns a, set_bindings (<[bindingId b := a]> (w_bindings w)) w)
      else (Throws (OtherError "Error: revision conflict"), w)
  | None => (Throws (OtherError "Error: unknown binding"), w)
  end.

Definition is_thread (id : string) (t : NativeThread) : bool := String.eqb (thread_id t) id.

#[export] Instance memory : ThreadServices World := {|
  requireControlled := λ _, mret ();
  listExternalBindings := λ w, (Returns ((λ p, with_id p.1 p.2) <$> map_to_list (w_bindings w)), w);
  bindExternalAgent := bind_in_memory;
  listActiveExternalTurns := λ w, (Returns (w_turns w), w);
  listPendingExternalInteractions := mret [];
  listSessions := mret [];
  archiveSession := λ _, mret "archived";
  threadList := λ a _ w, (Returns (if a then w_archived w else w_active w, None), w);
  threadRead := λ _, throw (RpcError "thread not found");
  threadArchive := λ id w, (Returns (), set_threads (List.filter (λ t, negb (is_thread id t)) (w_active w))
                                          (w_archived w ++ List.filter (is_thread id) (w_active w)) w);
  threadUnarchive := λ id w, (Returns (), set_threads (w_active w ++ List.filter (is_thread id) (w_archived w))
                                            (List.filter (λ t, negb (is_thread id t)) (w_archived w)) w);
  threadDelete := λ id w,
    match w_delete_error w with
    | Some e => (Throws e, w)
    | None => (Returns (), set_threads [] [] w)
    end;
  clock := λ _, "2026-07-12T00:00:00.000Z";
  localeCompare := String.compare
|}.

#[export, refine] Instance memory_store : BindingStore World := {| stored := λ w id, with_id id <$> w_bindings w !! id |}.
Proof.
  all: try done.
  - intros w bs w' [= <- <-]; split_and!.
    + rewrite <- list_fmap_compose; apply (NoDup_fst_map_to_list (w_bindings w)).
    + intros b ([k x] & -> & Hin)%list_elem_of_fmap; apply elem_of_map_to_list in Hin; cbn; by rewrite Hin.
    + intros id b (x & Hx & ->)%fmap_Some; split; [done|]. apply list_elem_of_fmap; exists (id, x); split; [done|by apply elem_of_map_to_list].
  - intros b rev w a w'; cbn; unfold bind_in_memory; destruct (w_bindings w !! bindingId b) as [x|] eqn:Hx; [|done].
    destruct (_ && _); [|done]. intros [= <- <-]; split; [done|]. intros id; cbn.
    case_decide as Hd; [subst; by rewrite lookup_insert_eq|by rewrite lookup_insert_ne].
  - intros b rev w e w'; cbn; unfold bind_in_memory; destruct (w_bindings w !! bindingId b); [|by intros [= _ <-]].
    destruct (_ && _); [done|by intros [= _ <-]].
  - intros t w id; cbn; by destruct (w_delete_error w).
Defined.

Definition sample_binding (id thread_ status : string) : ExternalAgentBinding :=
  {| bindingId := id; binding_runtimeId := "r"; nativeThreadId := Some thread_; binding_sessionId := None;
     binding_status := status; binding_updatedAt := ""; binding_revision := 1 |}.

Definition native (id : string) (parent : option string) : NativeThread :=
  {| thread_id := id; parentThreadId := parent; status_type := "idle" |}.

Definition sample_world (e : option thrown) : World :=
  {| w_bindings := list_to_map ((λ b, (bindingId b, b)) <$>
       [sample_binding "b1" "root" "active"; sample_binding "b2" "child" "active"; sample_binding "b3" "other" "active"]);
     w_active := [native "child" (Some "root"); native "root" None; native "other" None]; w_archived := []; w_turns := [];
     w_delete_error := e |}.

Definition runtime_threads (w : World) : ControlledThreads World :=
  {| world := w; threadSettings := ["root"]; threadUsage := []; archivedThreadIds := [] |}.

Definition statuses (w : World) : list (option string) := (λ id, binding_status <$> stored w id) <$> ["b1"; "b2"; "b3"].

(** Restoring a thread that is not archived answers that it is archived. *)
Example unarchive_active_says_archived :
  ∃ r c, unarchiveThread "r" "root" (runtime_threads (sample_world None)) = (Returns r, c) ∧
         lifecycleOutcome r = already_active ∧ nativeArchived r = true.
Proof. eexists _, _; split_and!; [vm_compute; reflexivity|reflexivity|reflexivity]. Qed.

(** A binding that cannot be archived leaves the native thread archived. *)
Definition locked_world : World :=
  set_bindings (<["b4" := {| bindingId := "b4"; binding_runtimeId := "r"; nativeThreadId := Some "root";
                             binding_sessionId := None; binding_status := "active"; binding_updatedAt := "locked";
                             binding_revision := 1 |}]> (w_bindings (sample_world None)))
    (sample_world None).

Example archive_failure_keeps_native_archived :
  ∃ m c, archiveThread "r" "root" (runtime_threads locked_world)
         = (Throws (LifecycleError "external_thread_binding_reconciliation_failed" m), c) ∧
         thread_id <$> w_archived (world c) = ["root"].
Proof. eexists _, _; split; [vm_compute; reflexivity|reflexivity]. Qed.

Lemma deletion_scope_sample :
  (λ e, thread_id (thread e)) <$>
    deletion_scope (catalog_of ((λ t, {| thread := t; archived := false |}) <$> w_active (sample_world None))) "root"
  = ["child"; "root"].
Proof. vm_compute; reflexivity. Qed.

(** A deletion that archives the bindings of the thread and of its child, and one whose
    native call fails. *)
Lemma delete_thread_safe_witness :
  (∃ receipt w' threads, deleteThread "r" "root" (sample_world None) = (Returns receipt, w') ∧
     listed_scope "root" (sample_world None) threads ∧ bound_to "r" threads (sample_world None) "b2" ∧
     status w' "b2" = Some "archived" ∧ ¬ bound_to "r" threads (sample_world None) "b3") ∧
  let busy := sample_world (Some (RpcError "busy")) in
  ∃ e w', deleteThread "r" "root" busy = (Throws e, w') ∧
    ((∀ id, stored w' id = stored busy id) ∨
     ∃ threads, listed_scope "root" busy threads ∧ failed_delete (bound_to "r" threads busy) busy w' e).
Proof.
  split.
  - destruct (deleteThread "r" "root" (sample_world None)) as [[r|e] w'] eqn:He; [|vm_compute in He; discriminate].
    destruct (delete_thread_safe _ _ _ _ _ He) as (threads & Hl & Hi & _ & Ha & _).
    assert (transition_bindingId <$> delete_bindings r = ["b1"; "b2"]) as Hids
      by (vm_compute in He; injection He as <- _; reflexivity).
    rewrite Hids in Hi. exists r, w', threads. split; [reflexivity|]. split; [exact Hl|].
    assert (bound_to "r" threads (sample_world None) "b2") as Hb by (apply Hi; right; left).
    split; [exact Hb|]. split; [exact (Ha _ Hb)|]. intros Hb3%Hi. set_solver.
  - cbv zeta. destruct (deleteThread "r" "root" (sample_world (Some (RpcError "busy")))) as [[r|e] w'] eqn:He;
      [vm_compute in He; discriminate|].
    exists e, w'; split; [reflexivity|]. exact (delete_thread_safe _ _ _ _ _ He).
Defined.

Lemma archive_thread_exact_witness :
  ∃ r c', archiveThread "r" "root" (runtime_threads (sample_world None)) = (Returns r, c') ∧
    nativeArchived r = true ∧ "root" ∈ archivedThreadIds c'.
Proof.
  destruct (archiveThread "r" "root" (runtime_threads (sample_world None))) as [[r|e] c'] eqn:He.
  - exists r, c'; split; [reflexivity|].
    destruct (archive_thread_exact "r" "root" (runtime_threads (sample_world None)) r c') as [H _].
    destruct (H He) as (H1 & _ & H2 & _); split; [exact H1|exact H2].
  - vm_compute in He; discriminate.
Defined.
End LifecycleExample.
