(* ===== verification/TurnCursor.v ===== *)
(** * The cursors of an external thread's turns, and the pages of its events

    [encodeExternalTurnCursor], [decodeExternalTurnCursor],
    [#decodeAndValidateTurnCursor] and [#queryDurableExternalTurnEvents] of
    [ts/packages/brain-island/src/service-external-runtime.ts].  A cursor is a JSON object
    in base64url; [BufferText] is what the code relies on about [Buffer], with an
    instance that encodes the UTF-8 bytes of a text. *)

From Stdlib Require Import NArith.
From stdpp Require Import sets list.
From S2P Require Import Prelude JsString JsDate Json JsonParse.
#[local] Open Scope Z_scope.

(** ** [Buffer] *)

(** [Buffer.from(s, "utf8").toString("base64url")] and
    [Buffer.from(s, "base64url").toString("utf8")] *)
Class BufferText := {
  to_base64url : string → string;
  from_base64url : string → string;
  base64url_roundtrip s : from_base64url (to_base64url s) = s;
  base64url_empty : from_base64url "" = ""
}.

(** *** Base64 of bytes *)

Fixpoint sextets (bs : list Z) : list Z :=
  match bs with
  | [] => []
  | [a] => [a / 4; a mod 4 * 16]
  | [a; b] => [a / 4; a mod 4 * 16 + b / 16; b mod 16 * 4]
  | a :: b :: c :: r => a / 4 :: a mod 4 * 16 + b / 16 :: b mod 16 * 4 + c / 64 :: c mod 64 :: sextets r
  end.

Fixpoint bytes_of (ss : list Z) : list Z :=
  match ss with
  | [p; q] => [p * 4 + q / 16]
  | [p; q; r] => [p * 4 + q / 16; q mod 16 * 16 + r / 4]
  | p :: q :: r :: s :: rest => p * 4 + q / 16 :: q mod 16 * 16 + r / 4 :: r mod 4 * 64 + s :: bytes_of rest
  | _ => []
  end.

Definition byte (b : Z) : Prop := 0 <= b < 256.
Definition sextet (s : Z) : Prop := 0 <= s < 64.

Lemma first_byte a x : byte a → 0 <= x < 16 → a / 4 * 4 + (a mod 4 * 16 + x) / 16 = a.
Proof. unfold byte; intros; Z.to_euclidean_division_equations; lia. Qed.
Lemma second_byte a b x : byte b → 0 <= x < 4 → (a mod 4 * 16 + b / 16) mod 16 * 16 + (b mod 16 * 4 + x) / 4 = b.
Proof. unfold byte; intros; Z.to_euclidean_division_equations; lia. Qed.
Lemma third_byte b c : byte c → (b mod 16 * 4 + c / 64) mod 4 * 64 + c mod 64 = c.
Proof. unfold byte; intros; Z.to_euclidean_division_equations; lia. Qed.

Lemma bytes_of_sextets n bs : (length bs <= n)%nat → Forall byte bs → bytes_of (sextets bs) = bs.
Proof.
  revert bs; induction n as [|n IH]; intros [|a [|b [|c r]]] Hn H; try (cbn in Hn; lia); try done;
    repeat (apply Forall_cons in H as [? H]); cbn [sextets bytes_of].
  - f_equal; rewrite <- (Z.add_0_r (a mod 4 * 16)); apply first_byte; [done|lia].
  - rewrite first_byte by (unfold byte in *; Z.to_euclidean_division_equations; lia).
    rewrite <- (Z.add_0_r (b mod 16 * 4)), second_byte by (done || lia); done.
  - rewrite first_byte by (unfold byte in *; Z.to_euclidean_division_equations; lia).
    rewrite second_byte by (unfold byte in *; Z.to_euclidean_division_equations; lia).
    rewrite third_byte by done. rewrite IH; [done| |done]. cbn in Hn; lia.
Qed.

Lemma sextets_sextet n bs : (length bs <= n)%nat → Forall byte bs → Forall sextet (sextets bs).
Proof.
  revert bs; induction n as [|n IH]; intros [|a [|b [|c r]]] Hn H; try (cbn in Hn; lia); try (constructor; done);
    repeat (apply Forall_cons in H as [? H]); cbn [sextets]; unfold byte in *;
    repeat (apply Forall_cons; split; [unfold sextet; Z.to_euclidean_division_equations; lia|]); try (constructor; done).
  apply IH; [cbn in Hn; lia|done].
Qed.

(** *** The alphabet of base64url, and of base64 *)

Definition sextet_char (s : Z) : ascii :=
  Ascii.ascii_of_N (Z.to_N (if s <? 26 then 65 + s else if s <? 52 then 71 + s else if s <? 62 then s - 4
                            else if s =? 62 then 45 else 95)).

Definition char_sextet (c : ascii) : option Z :=
  let n := Z.of_N (code c) in
  if (65 <=? n) && (n <=? 90) then Some (n - 65)
  else if (97 <=? n) && (n <=? 122) then Some (n - 71)
  else if (48 <=? n) && (n <=? 57) then Some (n + 4)
  else if (n =? 45) || (n =? 43) then Some 62
  else if (n =? 95) || (n =? 47) then Some 63
  else None.

Lemma char_sextet_char s : sextet s → char_sextet (sextet_char s) = Some s.
Proof.
  intros Hs; assert (Forall (λ s, char_sextet (sextet_char s) = Some s) (seqZ 0 64)) as H
    by (refine (bool_decide_unpack _ _); vm_compute; exact I).
  rewrite Forall_forall in H; apply H, elem_of_seqZ; unfold sextet in Hs; lia.
Qed.

(** *** UTF-8 of the texts modelled, whose code units are below 256 *)

Definition utf8_char (c : ascii) : list Z :=
  let n := Z.of_N (code c) in if n <? 128 then [n] else [192 + n / 64; 128 + n mod 64].

Fixpoint utf8_text (bs : list Z) : text :=
  match bs with
  | [] => []
  | b :: r =>
      if b <? 128 then Ascii.ascii_of_N (Z.to_N b) :: utf8_text r
      else match r with
           | b' :: r => Ascii.ascii_of_N (Z.to_N ((b - 192) * 64 + (b' - 128))) :: utf8_text r
           | [] => []
           end
  end.

Lemma code_bound c : 0 <= Z.of_N (code c) < 256.
Proof. unfold code; pose proof (Ascii.N_ascii_bounded c); lia. Qed.

Lemma ascii_code c : Ascii.ascii_of_N (code c) = c.
Proof. unfold code; apply Ascii.ascii_N_embedding. Qed.

Lemma utf8_text_bytes t : utf8_text (t ≫= utf8_char) = t.
Proof.
  induction t as [|c t IH]; [done|]; cbn [mbind list_bind]; unfold utf8_char at 1.
  pose proof (code_bound c) as Hc; destruct (Z.ltb_spec (Z.of_N (code c)) 128); cbn [app utf8_text].
  - rewrite (proj2 (Z.ltb_lt _ _)) by lia; rewrite N2Z.id, ascii_code; by f_equal.
  - rewrite (proj2 (Z.ltb_ge _ _)) by (Z.to_euclidean_division_equations; lia).
    replace ((192 + Z.of_N (code c) / 64 - 192) * 64 + (128 + Z.of_N (code c) mod 64 - 128)) with (Z.of_N (code c))
      by (pose proof (Z.div_mod (Z.of_N (code c)) 64); lia).
    rewrite N2Z.id, ascii_code; by f_equal.
Qed.

Lemma utf8_bytes t : Forall byte (t ≫= utf8_char).
Proof.
  induction t as [|c t IH]; [constructor|]; cbn [mbind list_bind]; apply Forall_app; split; [|exact IH].
  pose proof (code_bound c); unfold utf8_char, byte; destruct (Z.ltb_spec (Z.of_N (code c)) 128);
    repeat constructor; Z.to_euclidean_division_equations; lia.
Qed.

Definition buffer_encode (s : string) : string := str (sextet_char <$> sextets (chars s ≫= utf8_char)).
Definition buffer_decode (s : string) : string := str (utf8_text (bytes_of (omap char_sextet (chars s)))).

Lemma buffer_roundtrip s : buffer_decode (buffer_encode s) = s.
Proof.
  unfold buffer_decode, buffer_encode; rewrite chars_str.
  pose proof (utf8_bytes (chars s)) as Hb; pose proof (sextets_sextet _ _ (le_n _) Hb) as Hs.
  assert (∀ l, Forall sextet l → omap char_sextet (sextet_char <$> l) = l) as Hl.
  { induction 1 as [|x l Hx _ IH]; [done|]. cbn; rewrite char_sextet_char by done; by f_equal. }
  rewrite Hl, (bytes_of_sextets _ _ (le_n _)), utf8_text_bytes, str_chars by done; done.
Qed.

Definition utf8_buffer : BufferText :=
  {| to_base64url := buffer_encode; from_base64url := buffer_decode; base64url_roundtrip := buffer_roundtrip;
     base64url_empty := eq_refl |}.

(** ** Cursors *)

Definition MAX_SAFE_INTEGER : Z := 2 ^ 53 - 1.

(** The text of an integer from 0 to [MAX_SAFE_INTEGER], which has at most 16 digits. *)
Definition decimal_width (n : Z) : nat :=
  default 16%nat (List.find (λ w, n <? 10 ^ Z.of_nat w) (seq 1 16)).
Definition integer_text (n : Z) : string := str (digits (decimal_width n) n).

(** A number of a JSON value that is a safe integer of at least 1, by its text. *)
Definition positive_safe_integer (v : json) : option Z :=
  match v with
  | JNumber t =>
      let n := Text.number (chars t) in
      if Text.all_digits (chars t) && (1 <=? n) && (n <=? MAX_SAFE_INTEGER) then Some n else None
  | _ => None
  end.

Record ExternalTurnCursorPayload := {
  cursor_runtimeId : string;
  cursor_threadId : string;
  creationOrdinal : Z;
  cursor_requestId : string
}.

(** [stringValue]: a non-empty string *)
Definition stringValue (v : json) : option string :=
  match v with JString (String _ _ as s) => Some s | _ => None end.

Section Cursors.
Context `{!BufferText, !JsonText}.

Definition cursor_json (p : ExternalTurnCursorPayload) : json :=
  JObject [("version", JNumber "2"); ("runtimeId", JString (cursor_runtimeId p)); ("threadId", JString (cursor_threadId p));
           ("creationOrdinal", JNumber (integer_text (creationOrdinal p))); ("requestId", JString (cursor_requestId p))].

Definition encodeExternalTurnCursor (runtimeId threadId : string) (creationOrdinal : Z) (requestId : string) : string :=
  to_base64url (default "" (stringify (cursor_json
    {| cursor_runtimeId := runtimeId; cursor_threadId := threadId; creationOrdinal := creationOrdinal;
       cursor_requestId := requestId |}))).

Definition cursor_payload (o : list (string * json)) : result ExternalTurnCursorPayload :=
  match stringValue (member o "runtimeId"), stringValue (member o "threadId"),
        positive_safe_integer (member o "creationOrdinal"), stringValue (member o "requestId") with
  | Some r, Some t, Some n, Some q =>
      Ok {| cursor_runtimeId := r; cursor_threadId := t; creationOrdinal := n; cursor_requestId := q |}
  | _, _, _, _ => Throw "turn cursor payload is malformed"
  end.

Definition decodeExternalTurnCursor (cursor : string) : result ExternalTurnCursorPayload :=
  if (String.length cursor =? 0)%nat || (2048 <? String.length cursor)%nat
  then Throw "turn cursor must be a non-empty bounded token"
  else match JSON_parse (from_base64url cursor) with
       | None => Throw "turn cursor is not valid base64url JSON"
       | Some (JObject o) =>
           match member o "version" with
           | JNumber "2" => cursor_payload o
           | _ => Throw "turn cursor version is unsupported"
           end
       | Some _ => Throw "turn cursor version is unsupported"
       end.

(** The members of a turn that are compared. *)
Record CorrelatedTurn := { correlated_runtimeId : string; correlated_threadId : option string; correlated_requestId : string }.

(** [#decodeAndValidateTurnCursor]; [getExternalTurn] is the bridge's. *)
Definition decodeAndValidateTurnCursor (getExternalTurn : string → option CorrelatedTurn) (runtimeId threadId : string)
    (cursor : option string) : result (option (Z * string)) :=
  match cursor with
  | None => Ok None
  | Some cursor =>
      match decodeExternalTurnCursor cursor with
      | Throw m => Throw ("external_thread_cursor_invalid: " +:+ m)
      | Ok p =>
          if negb (String.eqb (cursor_runtimeId p) runtimeId && String.eqb (cursor_threadId p) threadId)
          then Throw "external_thread_cursor_stale: turn cursor belongs to a different runtime or native thread"
          else match getExternalTurn (cursor_requestId p) with
               | Some turn =>
                   if String.eqb (correlated_runtimeId turn) runtimeId
                      && bool_decide (correlated_threadId turn = Some threadId)
                      && String.eqb (correlated_requestId turn) (cursor_requestId p)
                   then Ok (Some (creationOrdinal p, cursor_requestId p))
                   else Throw "external_thread_cursor_out_of_range: turn cursor no longer resolves within the selected native thread"
               | None => Throw "external_thread_cursor_out_of_range: turn cursor no longer resolves within the selected native thread"
               end
      end
  end.

(** A page's own description. *)
Record ExternalThreadTurnPage := {
  page_limit : Z;
  hasMoreBefore : bool;
  beforeCursor : option string;
  pageStartCursor : option string;
  pageEndCursor : option string
}.

Definition emptyExternalThreadTurnPage (limit : Z) : ExternalThreadTurnPage :=
  {| page_limit := limit; hasMoreBefore := false; beforeCursor := None; pageStartCursor := None; pageEndCursor := None |}.

(** The page of the turns with these cursors, oldest first. *)
Definition turn_page (runtimeId threadId : string) (limit : Z) (more : bool) (items : list (Z * string))
    : ExternalThreadTurnPage :=
  let encode i := encodeExternalTurnCursor runtimeId threadId i.1 i.2 in
  {| page_limit := limit; hasMoreBefore := more; beforeCursor := if more then encode <$> head items else None;
     pageStartCursor := encode <$> head items; pageEndCursor := encode <$> last items |}.

Definition externalThreadPageLimit (value : json) : result Z :=
  match value with
  | JUndefined => Ok 50
  | _ =>
      match positive_safe_integer value with
      | Some n => if n <=? 100 then Ok n
                  else Throw "external_thread_listing_limit_exceeded: turn page limit must be between 1 and 100"
      | None => Throw "external_thread_listing_limit_exceeded: turn page limit must be between 1 and 100"
      end
  end.
End Cursors.

(** *** Their texts *)

Lemma find_seq_first p a k w :
  List.find p (seq a k) = Some w → p w = true ∧ (a <= w)%nat ∧ ∀ v, (a <= v < w)%nat → p v = false.
Proof.
  revert a; induction k as [|k IH]; intros a; cbn; [done|]. destruct (p a) eqn:Hp.
  - intros [= <-]; split_and!; [done|lia|lia].
  - intros (? & ? & H)%IH; split_and!; [done|lia|]. intros v Hv; destruct (decide (v = a)) as [->|]; [done|apply H; lia].
Qed.

Lemma decimal_width_spec n :
  0 <= n <= MAX_SAFE_INTEGER →
  ∃ w, decimal_width n = S w ∧ n < 10 ^ Z.of_nat (S w) ∧ (w ≠ 0%nat → 10 ^ Z.of_nat w <= n).
Proof.
  intros Hn; unfold decimal_width; destruct (List.find _ _) as [w|] eqn:Hf; cbn [default].
  - apply find_seq_first in Hf as (Hp%Z.ltb_lt & Hw & Hv); destruct w as [|w]; [lia|]. exists w; split_and!; [done|done|].
    intros Hne; apply Z.ltb_ge, Hv; lia.
  - pose proof (List.find_none _ _ Hf 16%nat) as H; cbn in H; unfold MAX_SAFE_INTEGER in Hn.
    exfalso; assert (10 ^ Z.of_nat 16 <= n) by (apply Z.ltb_ge, H; tauto). lia.
Qed.

Lemma digits_head w n :
  n < 10 ^ Z.of_nat (S w) → 1 <= n → 10 ^ Z.of_nat w <= n →
  ∃ d r, digits (S w) n = digit_char d :: r ∧ 1 <= d < 10.
Proof.
  revert n; induction w as [|w IH]; intros n Hn H1 Hw.
  - exists (n mod 10), []; split; [done|]. cbn in Hn; rewrite Z.mod_small; lia.
  - destruct (IH (n / 10)) as (d & r & He & Hd).
    + apply Z.div_lt_upper_bound; [lia|]. rewrite Nat2Z.inj_succ, Z.pow_succ_r in Hn by lia; lia.
    + apply Z.div_le_lower_bound; [lia|]. rewrite Nat2Z.inj_succ, Z.pow_succ_r in Hw by lia.
      pose proof (Z.pow_pos_nonneg 10 (Z.of_nat w)); lia.
    + apply Z.div_le_lower_bound; [lia|]. rewrite Nat2Z.inj_succ, Z.pow_succ_r in Hw by lia; lia.
    + exists d, (r ++ [digit_char (n mod 10)]); split; [|done]. change (digits (S (S w)) n) with (digits (S w) (n / 10) ++ [digit_char (n mod 10)]).
      by rewrite He.
Qed.

Lemma integer_text_safe n : 1 <= n <= MAX_SAFE_INTEGER → positive_safe_integer (JNumber (integer_text n)) = Some n.
Proof.
  intros Hn; unfold positive_safe_integer, integer_text; rewrite chars_str.
  destruct (decimal_width_spec n) as (w & -> & Hw & _); [lia|].
  rewrite all_digits_digits by lia; rewrite number_digits by (split; [lia|exact Hw]); cbn [andb].
  rewrite (proj2 (Z.leb_le 1 n)), (proj2 (Z.leb_le n MAX_SAFE_INTEGER)) by lia; done.
Qed.

Lemma span_digits t : Forall (λ c, is_digit c = true) t → span is_digit t = (t, []).
Proof. induction 1 as [|c t Hc _ IH]; [done|]. cbn; by rewrite Hc, IH. Qed.

(** The texts of integers are number literals, so that [JSON.parse] reads them. *)
Lemma integer_text_literal n : 1 <= n <= MAX_SAFE_INTEGER → literal_text str (integer_text n).
Proof.
  intros Hn; unfold literal_text, integer_text; rewrite chars_str.
  destruct (decimal_width_spec n) as (w & -> & Hw & Hl); [lia|].
  assert (10 ^ Z.of_nat w <= n) as Hl' by (destruct w; [cbn; lia|by apply Hl]).
  destruct (digits_head w n Hw ltac:(lia) Hl') as (d & r & He & Hd).
  pose proof (digits_all (S w) n) as Ha; split_and!; [|rewrite He in Ha |- *|done].
  - apply forallb_forall; intros c Hc%list_elem_of_In; rewrite Forall_forall in Ha; unfold number_char; by rewrite Ha.
  - assert (is_char "-" (digit_char d :: r) = None) as Hm.
    { cbn; destruct (Ascii.eqb_spec (digit_char d) "-") as [E|]; [|done].
      pose proof (is_digit_char d ltac:(lia)) as Hdd; by rewrite E in Hdd. }
    unfold number_literal; rewrite Hm; cbn [default]; rewrite span_digits by done; cbn [is_char].
    destruct r as [|c r]; [done|]. destruct (Ascii.eqb_spec (digit_char d) "0") as [E|]; [|done].
    exfalso; assert (Text.digit_value (digit_char d) = d) as Hv by (apply digit_value_char; lia).
    rewrite E in Hv; change (Text.digit_value "0"%char) with 0 in Hv; lia.
Qed.

(** *** What a cursor is good for *)

(** The texts of integers are texts of doubles. *)
Class IntegerTexts `{!JsonText} := integer_double n : 1 <= n <= MAX_SAFE_INTEGER → double_text (integer_text n).

Section CursorFacts.
Context `{!BufferText, !JsonText, !IntegerTexts}.

(** What a cursor is made from: identities that are not empty and a place in the order of
    creation. *)
Definition cursor_source (p : ExternalTurnCursorPayload) : Prop :=
  cursor_runtimeId p ≠ "" ∧ cursor_threadId p ≠ "" ∧ cursor_requestId p ≠ "" ∧
  1 <= creationOrdinal p <= MAX_SAFE_INTEGER.

Definition encode_payload (p : ExternalTurnCursorPayload) : string :=
  encodeExternalTurnCursor (cursor_runtimeId p) (cursor_threadId p) (creationOrdinal p) (cursor_requestId p).

Lemma stringValue_nonempty s : s ≠ "" → stringValue (JString s) = Some s.
Proof. by destruct s. Qed.

Lemma decode_encode p :
  cursor_source p → (String.length (encode_payload p) <= 2048)%nat → decodeExternalTurnCursor (encode_payload p) = Ok p.
Proof.
  intros (Hr & Ht & Hq & Hn) Hl; unfold decodeExternalTurnCursor.
  destruct (stringify (cursor_json p)) as [s|] eqn:Hs; [|discriminate].
  assert (encode_payload p = to_base64url s) as He.
  { unfold encode_payload, encodeExternalTurnCursor; destruct p; cbn [cursor_runtimeId cursor_threadId creationOrdinal cursor_requestId].
    by rewrite Hs. }
  assert (integer_text (creationOrdinal p) ≠ "null") as Hnull.
  { intros E; pose proof (integer_text_safe _ Hn) as Hi; by rewrite E in Hi. }
  assert (JSON_parse s = Some (json_clone (cursor_json p))) as Hp.
  { apply parse_stringify; [|done]. apply plain_object; [by apply (bool_decide_unpack _); vm_compute|].
    repeat (apply Forall_cons; split; [split; [reflexivity|]|]); try constructor; try done.
    - exact (integer_double 2 ltac:(unfold MAX_SAFE_INTEGER; lia)).
    - by apply integer_double. }
  assert (json_clone (cursor_json p) = cursor_json p) as Hc.
  { unfold cursor_json; cbn [json_clone flat_map app]; rewrite (proj2 (String.eqb_neq _ _) Hnull); done. }
  assert (s ≠ "") as Hne by (cbn in Hs; injection Hs as <-; discriminate).
  assert (String.length (to_base64url s) ≠ 0%nat) as Hlen.
  { intros H0'; apply Hne; rewrite <- (base64url_roundtrip s). destruct (to_base64url s); [apply base64url_empty|discriminate]. }
  rewrite He in Hl |- *; rewrite (proj2 (Nat.eqb_neq _ _) Hlen), (proj2 (Nat.ltb_ge 2048 _) Hl); cbn [orb].
  rewrite base64url_roundtrip, Hp, Hc; unfold cursor_json; set (o := [_; _; _; _; _]).
  change (member o "version") with (JNumber "2"); unfold cursor_payload; cbv iota beta.
  change (member o "runtimeId") with (JString (cursor_runtimeId p)).
  change (member o "threadId") with (JString (cursor_threadId p)).
  change (member o "creationOrdinal") with (JNumber (integer_text (creationOrdinal p))).
  change (member o "requestId") with (JString (cursor_requestId p)).
  rewrite !stringValue_nonempty, integer_text_safe by done; by destruct p.
Qed.

(** A cursor that the service hands out for a turn is accepted for that turn's runtime
    and thread and yields the turn's place, as long as the turn is still there; for any
    other runtime or thread it is refused as stale, and it never yields another place. *)
Theorem turn_cursor_exact get rid tid p :
  cursor_source p → (String.length (encode_payload p) <= 2048)%nat →
  decodeExternalTurnCursor (encode_payload p) = Ok p ∧
  (∀ place, decodeAndValidateTurnCursor get rid tid (Some (encode_payload p)) = Ok (Some place) ↔
     rid = cursor_runtimeId p ∧ tid = cursor_threadId p ∧ place = (creationOrdinal p, cursor_requestId p) ∧
     get (cursor_requestId p) = Some {| correlated_runtimeId := rid; correlated_threadId := Some tid;
                                        correlated_requestId := cursor_requestId p |}) ∧
  ((rid, tid) ≠ (cursor_runtimeId p, cursor_threadId p) →
   decodeAndValidateTurnCursor get rid tid (Some (encode_payload p)) =
     Throw "external_thread_cursor_stale: turn cursor belongs to a different runtime or native thread").
Proof.
  intros Hs Hl; pose proof (decode_encode p Hs Hl) as Hd; split; [done|].
  unfold decodeAndValidateTurnCursor; rewrite Hd.
  destruct (String.eqb_spec (cursor_runtimeId p) rid) as [<-|Hr], (String.eqb_spec (cursor_threadId p) tid) as [<-|Ht]; cbn;
    (split; [intros place; split|try done; try congruence]); try (intros [=]; congruence); try (intros (? & ? & _); congruence).
  - destruct (get (cursor_requestId p)) as [[r t q]|]; [cbn|done].
    destruct (String.eqb_spec r (cursor_runtimeId p)) as [->|]; cbn; [|done]. case_bool_decide as Hb; [cbn|done].
    destruct (String.eqb_spec q (cursor_requestId p)) as [->|]; [|done]. intros [= <-]; by rewrite Hb.
  - intros (_ & _ & -> & ->); cbn; rewrite !String.eqb_refl, bool_decide_true by done; done.
Qed.
End CursorFacts.

Module CursorExample.
#[local] Existing Instance utf8_buffer.
#[local] Existing Instance literal_json.

#[local] Instance literal_integers : IntegerTexts := integer_text_literal.

Definition sample : ExternalTurnCursorPayload :=
  {| cursor_runtimeId := "codex"; cursor_threadId := "t-1"; creationOrdinal := 42; cursor_requestId := "req" |}.

Definition turns (id : string) : option CorrelatedTurn :=
  if String.eqb id "req"
  then Some {| correlated_runtimeId := "codex"; correlated_threadId := Some "t-1"; correlated_requestId := "req" |} else None.

Example sample_cursor :
  encode_payload sample
  = "eyJ2ZXJzaW9uIjoyLCJydW50aW1lSWQiOiJjb2RleCIsInRocmVhZElkIjoidC0xIiwiY3JlYXRpb25PcmRpbmFsIjo0MiwicmVxdWVzdElkIjoicmVxIn0".
Proof. vm_compute; reflexivity. Qed.

Lemma turn_cursor_exact_witness :
  decodeExternalTurnCursor (encode_payload sample) = Ok sample ∧
  decodeAndValidateTurnCursor turns "codex" "t-1" (Some (encode_payload sample)) = Ok (Some (42, "req")).
Proof.
  destruct (turn_cursor_exact turns "codex" "t-1" sample) as (H1 & H2 & _).
  - unfold cursor_source, MAX_SAFE_INTEGER; cbn; split_and!; done.
  - apply Nat.leb_le; vm_compute; reflexivity.
  - split; [exact H1|]. apply H2; split_and!; reflexivity.
Defined.
End CursorExample.
