(* ===== verification/ThreadTurns.v ===== *)
(** * The turns of an external thread from its durable events

    [#queryDurableExternalTurnEvents], [projectDurableExternalTurnItems],
    [projectDurableExternalThreadItem] and their helpers of
    [ts/packages/brain-island/src/service-external-runtime.ts]: the events of a turn are
    read page by page, grouped by item and projected to a bounded list of bounded
    items. *)

From stdpp Require Import sets list sorting.
From S2P Require Import Prelude JsString JsDate Json JsonParse CodexText CodexEvents TurnCursor.
#[local] Open Scope Z_scope.

(** The members of [NormalizedExternalRuntimeEvent] that are read. *)
Record ExternalEvent := {
  eventId : string;
  sequenceId : Z;
  event_kind : string;
  event_itemId : option string;
  payload : json;
  rawDetailRef : option string
}.

(** ** Reading the events *)

Section Query.
(** the bridge's [queryExternalRuntimeEvents] for one turn *)
Context (query : Z → list ExternalEvent).
Context (pageLimit : nat).

Fixpoint query_pages (fuel : nat) (afterSequence : Z) (events : list ExternalEvent) : option (result (list ExternalEvent)) :=
  match fuel with
  | O => None
  | S fuel =>
      let page := query afterSequence in
      let events := events ++ page in
      if (length page <? pageLimit)%nat then Some (Ok events)
      else match last page with
           | Some e => if sequenceId e <=? afterSequence
                       then Some (Throw "external turn event cursor did not advance")
                       else query_pages fuel (sequenceId e) events
           | None => Some (Throw "external turn event cursor did not advance")
           end
  end.

Definition queryDurableExternalTurnEvents (fuel : nat) : option (result (list ExternalEvent)) := query_pages fuel 0 [].
End Query.

Definition EXTERNAL_TURN_EVENT_PAGE_LIMIT : nat := 128.

(** ** Bounded texts *)

Definition MAX_EXTERNAL_THREAD_ITEMS_PER_TURN : nat := 128.
Definition MAX_EXTERNAL_THREAD_ITEM_TEXT_CHARS : nat := Nat.mul 64 1024.
Definition MAX_EXTERNAL_THREAD_ITEM_SUMMARY_ENTRIES : nat := 8.
Definition MAX_EXTERNAL_THREAD_ITEM_SUMMARY_CHARS : nat := 1024.

Definition boundedExternalThreadText (value : string) (limit : nat) : string * bool :=
  (str (truncate code TRUNCATION_MARKER limit (chars value)), (limit <? String.length value)%nat).

(** ** One item *)

Record ExternalThreadItemProjection := {
  itemId : string;
  kind : string;
  status : option string;
  item_text : option string;
  summary : list string;
  messagePhase : option string;
  detailHandle : option string;
  truncated : bool
}.

(** What the loop over the events of an item collects. *)
Record Collected := {
  mergedPayload : list (string * json);
  deltaText : list string;
  reasoningSummary : list string;
  explicitSummary : option (list string);
  snapshotText : option string;
  c_detailHandle : option string
}.

Definition collected0 : Collected :=
  {| mergedPayload := []; deltaText := []; reasoningSummary := []; explicitSummary := None; snapshotText := None;
     c_detailHandle := None |}.

(** [Object.assign(target, source)] *)
Definition assign (target source : list (string * json)) : list (string * json) :=
  fold_left (λ o p, map_set p.1 p.2 o) source target.

Definition strings_of (l : list json) : list string := omap (λ v, match v with JString s => Some s | _ => None end) l.

(** [last += text] on a list that is not empty *)
Definition append_last (l : list string) (t : string) : list string :=
  match last l with Some x => take (length l - 1) l ++ [x +:+ t] | None => [t] end.

Definition reasoning_delta (nativeMethod eventText : option string) (l : list string) : list string :=
  match nativeMethod with
  | Some m =>
      if Str.endsWith m "summaryPartAdded" then l ++ [""]
      else if Str.endsWith m "summaryTextDelta" then append_last l (default "" eventText)
      else l
  | None => l
  end.

Definition is_one_of (o : option string) (l : list string) : bool :=
  match o with Some s => existsb (String.eqb s) l | None => false end.

Definition mentions_delta (nativeMethod : option string) : bool :=
  match nativeMethod with Some m => Text.includes (Text.toLowerCase (chars m)) (chars "delta") | None => false end.

Definition collect (c : Collected) (e : ExternalEvent) : Collected :=
  let p := recordValue (payload e) in
  let nativeMethod := stringValue (member p "nativeMethod") in
  let eventText := stringValue (member p "text") in
  let explicit := match member p "summary" with
                  | JArray l => match strings_of l with [] => explicitSummary c | ss => Some ss end
                  | _ => explicitSummary c
                  end in
  let snapshot := is_one_of nativeMethod ["item/started"; "item/completed"] in
  let reasoning := negb snapshot && String.eqb (event_kind e) "reasoning_delta" in
  let delta := negb snapshot && negb reasoning
               && (is_one_of (Some (event_kind e)) ["assistant_text_delta"; "plan_delta"] || mentions_delta nativeMethod) in
  {| mergedPayload := assign (mergedPayload c) p;
     deltaText := match eventText with Some t => if delta then deltaText c ++ [t] else deltaText c | None => deltaText c end;
     reasoningSummary := if reasoning then reasoning_delta nativeMethod eventText (reasoningSummary c) else reasoningSummary c;
     explicitSummary := explicit;
     snapshotText := if snapshot then or_else (or_else eventText (stringValue (member p "output"))) (snapshotText c)
                     else snapshotText c;
     c_detailHandle := or_else (rawDetailRef e) (c_detailHandle c) |}.

Definition any_kind (events : list ExternalEvent) (kinds : list string) : bool :=
  existsb (λ e, is_one_of (Some (event_kind e)) kinds) events.

Definition steer_kinds : list string := ["external_turn_steer_input"; "external_turn_steer_intent"].

Definition is_some_string (v : json) : bool := match stringValue v with Some _ => true | None => false end.

Definition durableExternalThreadItemKind (events : list ExternalEvent) (p : list (string * json)) : string :=
  match stringValue (member p "itemType") with
  | Some t => t
  | None =>
      if any_kind events steer_kinds then "userMessage"
      else if is_some_string (member p "messagePhase") || any_kind events ["assistant_text_delta"] then "agentMessage"
      else if any_kind events ["command_activity"] then "commandExecution"
      else if any_kind events ["file_activity"] then "fileChange"
      else if any_kind events ["mcp_activity"] then "mcpToolCall"
      else if any_kind events ["dynamic_tool_activity"] then "dynamicToolCall"
      else if any_kind events ["reasoning_delta"] || match member p "summary" with JArray _ => true | _ => false end
           then "reasoning"
      else if any_kind events ["plan_delta"] then "plan" else "item"
  end.

(** The present ones, joined; absent when nothing is left. *)
Definition joined (sep : string) (parts : list (option string)) : option string :=
  match Str.join sep (omap id parts) with "" => None | s => Some s end.

Definition file_changes (n : nat) : string :=
  pretty n +:+ " file change" +:+ (if (n =? 1)%nat then "" else "s").

Section Items.
Context {JT : JsonText}.
(** [JSON.stringify(v, null, 2)] *)
Context (stringifyIndented : json → string).

Definition durableExternalThreadItemText (kind_ : string) (p : list (string * json)) (snapshot : option string) (delta : string)
    : option string :=
  let text k := stringValue (member p k) in
  let otherwise := match snapshot with Some t => Some t | None => match delta with "" => None | d => Some d end end in
  if String.eqb kind_ "userMessage" then or_else (text "text") otherwise
  else if String.eqb kind_ "commandExecution" then
    or_else (joined (str [newline]) [text "command"; text "output"]) otherwise
  else if String.eqb kind_ "fileChange" then
    match member p "fileChanges" with JArray l => Some (file_changes (length l)) | _ => otherwise end
  else if String.eqb kind_ "mcpToolCall" then or_else (joined "/" [text "server"; text "tool"]) otherwise
  else if String.eqb kind_ "dynamicToolCall" then
    match snapshot with
    | Some t => Some (projectDynamicToolResultDisplayText stringifyIndented t)
    | None => or_else (text "tool") otherwise
    end
  else otherwise.

Definition projectAgentMessagePhase (v : json) : option string :=
  match v with
  | JUndefined | JNull => None
  | JString s => if is_one_of (Some s) ["commentary"; "final_answer"] then Some s else Some "unknown"
  | _ => Some "unknown"
  end.

Definition bounded_summary (raw : list string) : list string :=
  (λ s, (boundedExternalThreadText s MAX_EXTERNAL_THREAD_ITEM_SUMMARY_CHARS).1)
    <$> take MAX_EXTERNAL_THREAD_ITEM_SUMMARY_ENTRIES raw.

Definition nonempty (s : string) : bool := negb (String.eqb s "").

Definition projectDurableExternalThreadItem (events : list ExternalEvent) : option ExternalThreadItemProjection :=
  match events with
  | [] => None
  | first :: _ =>
      let c := fold_left collect events collected0 in
      let p := mergedPayload c in
      let kind_ := durableExternalThreadItemKind events p in
      let text := (λ t, boundedExternalThreadText t MAX_EXTERNAL_THREAD_ITEM_TEXT_CHARS)
                    <$> durableExternalThreadItemText kind_ p (snapshotText c) (Str.join "" (deltaText c)) in
      let raw := List.filter nonempty (default (reasoningSummary c) (explicitSummary c)) in
      let summary_ := bounded_summary raw in
      if String.eqb kind_ "userMessage" && negb (any_kind events steer_kinds) then None
      else if bool_decide (text = None) && bool_decide (summary_ = [])
              && is_one_of (Some kind_) ["item"; "agentMessage"; "reasoning"; "plan"] then None
      else Some {| itemId := default (eventId first) (event_itemId first); kind := kind_;
                   status := stringValue (member p "status"); item_text := fst <$> text; summary := summary_;
                   messagePhase := if String.eqb kind_ "agentMessage"
                                   then projectAgentMessagePhase (member p "messagePhase") else None;
                   detailHandle := c_detailHandle c;
                   truncated := match text with Some (_, true) => true | _ => false end
                                || (length summary_ <? length raw)%nat
                                || existsb (λ s, (MAX_EXTERNAL_THREAD_ITEM_SUMMARY_CHARS <? String.length s)%nat) raw |}
  end.

(** ** The items of a turn *)

Inductive input_part := TextPart (t : string) | ImagePart (url : string).

Record TurnRequest := { requestId : string; input : list input_part }.

(** [eventsByItem]: an item with the first of its sequence ids. *)
Definition group_event (m : jsmap string (Z * list ExternalEvent)) (e : ExternalEvent) : jsmap string (Z * list ExternalEvent) :=
  match event_itemId e with
  | None => m
  | Some i =>
      match map_get i m with
      | None => map_set i (sequenceId e, [e]) m
      | Some (s, es) => map_set i (s, es ++ [e]) m
      end
  end.

Definition eventsByItem (events : list ExternalEvent) : jsmap string (Z * list ExternalEvent) := fold_left group_event events [].

Definition request_item (r : TurnRequest) : list ExternalThreadItemProjection :=
  let inputText := Str.join (str [newline]) (omap (λ p, match p with TextPart t => Some t | _ => None end) (input r)) in
  if nonempty inputText then
    let '(t, cut) := boundedExternalThreadText inputText MAX_EXTERNAL_THREAD_ITEM_TEXT_CHARS in
    [{| itemId := "request:" +:+ requestId r; kind := "userMessage"; status := None; item_text := Some t; summary := [];
        messagePhase := None; detailHandle := None; truncated := cut |}]
  else [].

Definition projected_items (events : list ExternalEvent) : list ExternalThreadItemProjection :=
  omap (λ h, projectDurableExternalThreadItem h.2)
    (sort_by (λ l r : Z * list ExternalEvent, l.1 ?= r.1) (map_values (eventsByItem events))).

Definition projectDurableExternalTurnItems (r : TurnRequest) (events : list ExternalEvent)
    : list ExternalThreadItemProjection * bool :=
  let items := request_item r in
  let projected := projected_items events in
  let durable := take (MAX_EXTERNAL_THREAD_ITEMS_PER_TURN - length items) projected in
  (items ++ durable, (length durable <? length projected)%nat).
End Items.

(** ** The images of a turn's input *)

Record ExternalInputImageReference := {
  attachmentId : string;
  filename : string;
  mimeType : string;
  byteSize : string;
  image_sha256 : option string;
  contentUrl : string
}.

Section Images.
Context (encodeURIComponent : string → string) (sessionId : string).

Definition image_reference (attachment : list (string * json)) : option (string * ExternalInputImageReference) :=
  let native k := match member attachment k with JString s => Some s | _ => None end in
  storageUrl ← native "storage_url"; attachmentId ← native "attachment_id"; filename ← native "filename";
  mimeType ← native "mime_type"; byteSize ← numberValue (member attachment "byte_size");
  let metadata := recordValue (member attachment "metadata_json") in
  Some (storageUrl,
        {| attachmentId := attachmentId; filename := filename; mimeType := mimeType; byteSize := byteSize;
           image_sha256 := match member metadata "content_sha256" with JString s => Some s | _ => None end;
           contentUrl := "/v1/chat/sessions/" +:+ encodeURIComponent sessionId +:+ "/attachments/" +:+
                         encodeURIComponent attachmentId +:+ "/content" |}).

Definition steer_image_ids (steerInputs : list ExternalEvent) (item : ExternalThreadItemProjection) : list string :=
  match List.find (λ e, bool_decide (event_itemId e = Some (itemId item))) steerInputs with
  | Some e => match payload e with
              | JObject o => match member o "imageAttachmentIds" with JArray l => strings_of l | _ => [] end
              | _ => []
              end
  | None => []
  end.

(** Each item with its input images. *)
Definition attachDurableExternalTurnInputImages (items : list ExternalThreadItemProjection) (request : TurnRequest)
    (events : list ExternalEvent) (attachments : list (list (string * json)))
    : list (ExternalThreadItemProjection * list ExternalInputImageReference) :=
  let initialUrls := omap (λ p, match p with ImagePart u => Some u | _ => None end) (input request) in
  let steerInputs := List.filter (λ e, String.eqb (event_kind e) "external_turn_steer_input"
                                       && bool_decide (is_Some (event_itemId e))) events in
  if bool_decide (initialUrls = []) && bool_decide (length steerInputs = 0%nat) then (λ i, (i, [])) <$> items
  else
    let references := omap image_reference attachments in
    let byUrl := map_of_entries references in
    let byId := map_of_entries ((λ r, (attachmentId r.2, r.2)) <$> references) in
    imap (λ index item,
            (item, if (index =? 0)%nat then omap (λ u, map_get u byUrl) initialUrls
                   else omap (λ i, map_get i byId) (steer_image_ids steerInputs item))) items.
End Images.

(** ** Facts: the pages *)

Section QueryFacts.
Context (log : list ExternalEvent) (pageLimit : nat).

(** The bridge's answer: the first events after a sequence id, oldest first. *)
Definition log_page (after : Z) : list ExternalEvent :=
  take pageLimit (List.filter (λ e, after <? sequenceId e) log).

Definition ascending (l : list ExternalEvent) : Prop := StronglySorted Z.lt (sequenceId <$> l).

Lemma filter_split after done_ rest :
  Forall (λ e, sequenceId e <= after) done_ → Forall (λ e, after < sequenceId e) rest →
  List.filter (λ e, after <? sequenceId e) (done_ ++ rest) = rest.
Proof.
  intros Hd Hr; rewrite List.filter_app; replace (List.filter _ done_) with (@nil ExternalEvent); cbn.
  - induction Hr as [|e l He _ IH]; cbn; [done|]. by rewrite (proj2 (Z.ltb_lt _ _) He), IH.
  - induction Hd as [|e l He _ IH]; cbn; [done|]. by rewrite (proj2 (Z.ltb_ge _ _) He).
Qed.

Lemma ascending_after l n e :
  ascending l → last (take n l) = Some e →
  Forall (λ x, sequenceId x <= sequenceId e) (take n l) ∧ Forall (λ x, sequenceId e < sequenceId x) (drop n l).
Proof.
  unfold ascending; intros Ha Hl; apply last_Some in Hl as [pre Hp].
  assert (∀ x y, x ∈ take n l → y ∈ drop n l → sequenceId x < sequenceId y) as Hc.
  { intros x y Hx Hy; rewrite <- (take_drop n l), fmap_app in Ha.
    eapply StronglySorted_app_1_elem_of; [exact Ha|by apply list_elem_of_fmap_2..]. }
  split; apply Forall_forall.
  - intros x Hx; rewrite Hp in Hx; apply elem_of_app in Hx as [Hx| ->%list_elem_of_singleton]; [|done].
    rewrite <- (take_drop n l), Hp, !fmap_app in Ha; apply StronglySorted_app_1_l in Ha.
    apply Z.lt_le_incl; eapply StronglySorted_app_1_elem_of; [exact Ha|by apply list_elem_of_fmap_2|by left].
  - intros x Hx; apply Hc; [rewrite Hp; set_solver|done].
Qed.

Lemma query_pages_log fuel after done_ rest :
  (0 < pageLimit)%nat → log = done_ ++ rest → ascending rest →
  Forall (λ e, sequenceId e <= after) done_ → Forall (λ e, after < sequenceId e) rest → (length rest < fuel)%nat →
  query_pages log_page pageLimit fuel after done_ = Some (Ok log).
Proof.
  intros Hp; revert after done_ rest; induction fuel as [|fuel IH]; intros after done_ rest Hl Ha Hd Hr Hf; [lia|].
  cbn [query_pages]; assert (log_page after = take pageLimit rest) as -> by (unfold log_page; by rewrite Hl, filter_split).
  rewrite length_take; destruct (Nat.ltb_spec (pageLimit `min` length rest) pageLimit) as [Hs|Hs].
  - rewrite take_ge by lia; by rewrite Hl.
  - destruct (last (take pageLimit rest)) as [e|] eqn:He.
    + destruct (ascending_after _ _ _ Ha He) as [H1 H2].
      assert (after < sequenceId e) as Hlt.
      { rewrite Forall_forall in Hr; apply Hr, (subseteq_take pageLimit rest), last_Some_elem_of; exact He. }
      rewrite (proj2 (Z.leb_gt _ _) Hlt); apply (IH _ _ (drop pageLimit rest)).
      * by rewrite <- app_assoc, take_drop.
      * unfold ascending in *; rewrite <- (take_drop pageLimit rest), fmap_app in Ha.
        by apply StronglySorted_app_1_r in Ha.
      * apply Forall_app; split; [|done]. eapply Forall_impl; [exact Hd|]. cbn; lia.
      * done.
      * rewrite length_drop; lia.
    + apply last_None in He; rewrite <- (take_drop pageLimit rest), He in Hs; cbn in Hs; rewrite length_drop in Hs.
      apply (f_equal length) in He; rewrite length_take in He; cbn in He; lia.
Qed.

(** The events of a turn are read completely: when the bridge answers each query with
    the first events after the cursor, the loop over the pages ends, after at most one
    query more than there are events, with exactly the events of the log in order. *)
Theorem durable_events_complete :
  (0 < pageLimit)%nat → ascending log → Forall (λ e, 0 < sequenceId e) log →
  queryDurableExternalTurnEvents log_page pageLimit (S (length log)) = Some (Ok log).
Proof. intros Hp Ha Hs; apply (query_pages_log _ _ [] log); try done; lia. Qed.
End QueryFacts.

(** ** Facts: the items *)

(** Grouping collects the events of each item in order. *)
Definition events_of (i : string) (events : list ExternalEvent) : list ExternalEvent :=
  List.filter (λ e, bool_decide (event_itemId e = Some i)) events.

Lemma eventsByItem_get events i :
  map_get i (eventsByItem events) =
  match events_of i events with [] => None | (e :: _) as es => Some (sequenceId e, es) end.
Proof.
  induction events as [|e events IH] using rev_ind; [done|].
  unfold eventsByItem in *; rewrite fold_left_app; cbn [fold_left]; unfold events_of in *; rewrite List.filter_app.
  cbn [List.filter]; set (m := fold_left group_event events []) in *; unfold group_event.
  destruct (event_itemId e) as [j|] eqn:Hj.
  - destruct (decide (i = j)) as [->|Hne].
    + rewrite bool_decide_true by done; rewrite IH; destruct (List.filter _ events) as [|x es]; cbn;
        by rewrite map_get_set_eq.
    + rewrite bool_decide_false by congruence; rewrite app_nil_r, <- IH.
      destruct (map_get j _) as [[s es]|]; by rewrite map_get_set_ne by done.
  - rewrite bool_decide_false by done; by rewrite app_nil_r, IH.
Qed.

Lemma eventsByItem_wf events : map_wf (eventsByItem events).
Proof.
  unfold eventsByItem; enough (∀ m, map_wf m → map_wf (fold_left group_event events m)) as H
    by (apply H, NoDup_nil_2).
  induction events as [|e events IH]; intros m Hm; [done|]. cbn; apply IH; unfold group_event.
  destruct (event_itemId e) as [i|]; [|done]. destruct (map_get i m) as [[s es]|]; by apply map_set_wf.
Qed.

Section ItemFacts.
Context {JT : JsonText} (stringifyIndented : json → string).

(** What the limits promise of an item. *)
Definition item_within (i : ExternalThreadItemProjection) : Prop :=
  (∀ t, item_text i = Some t → (String.length t <= MAX_EXTERNAL_THREAD_ITEM_TEXT_CHARS)%nat) ∧
  (length (summary i) <= MAX_EXTERNAL_THREAD_ITEM_SUMMARY_ENTRIES)%nat ∧
  Forall (λ s, (String.length s <= MAX_EXTERNAL_THREAD_ITEM_SUMMARY_CHARS)%nat) (summary i).

Lemma bounded_length t limit :
  (length TRUNCATION_MARKER <= limit)%nat → (String.length (boundedExternalThreadText t limit).1 <= limit)%nat.
Proof.
  intros Hl; unfold boundedExternalThreadText; cbn [fst]; rewrite <- length_chars, chars_str.
  pose proof (truncate_length code TRUNCATION_MARKER limit (chars t)); lia.
Qed.

Lemma bounded_summary_within raw :
  (length (bounded_summary raw) <= MAX_EXTERNAL_THREAD_ITEM_SUMMARY_ENTRIES)%nat ∧
  Forall (λ s, (String.length s <= MAX_EXTERNAL_THREAD_ITEM_SUMMARY_CHARS)%nat) (bounded_summary raw).
Proof.
  unfold bounded_summary; rewrite length_fmap, length_take; split; [lia|].
  apply Forall_fmap, Forall_true; intros s; apply bounded_length; apply Nat.leb_le; vm_compute; reflexivity.
Qed.

Lemma item_within_limits events i :
  projectDurableExternalThreadItem stringifyIndented events = Some i → item_within i.
Proof.
  unfold projectDurableExternalThreadItem; destruct events as [|e events]; [done|].
  case_match; [done|]. case_match; [done|]. intros [= <-]; split; cbn [item_text summary]; [|apply bounded_summary_within].
  destruct (durableExternalThreadItemText _ _ _ _ _) as [t|]; cbn [fmap option_fmap option_map fst]; [|done].
  intros t' [= <-]; apply (bounded_length t); apply Nat.leb_le; vm_compute; reflexivity.
Qed.

Lemma request_item_within r : Forall item_within (request_item r).
Proof.
  unfold request_item; destruct (nonempty _); [|by apply Forall_nil]. apply Forall_singleton; split; cbn [item_text summary].
  - intros t [= <-]; apply (bounded_length (Str.join _ _)); apply Nat.leb_le; vm_compute; reflexivity.
  - split; [cbn; lia|by apply Forall_nil].
Qed.

Lemma projected_items_exact events i :
  i ∈ projected_items stringifyIndented events ↔
  ∃ id, projectDurableExternalThreadItem stringifyIndented (events_of id events) = Some i.
Proof.
  unfold projected_items; rewrite list_elem_of_omap; setoid_rewrite sort_by_perm; split.
  - intros ([s es] & Hin & Hp); unfold map_values in Hin; apply list_elem_of_fmap in Hin as ([id h] & E & Hin); cbn in E; subst h.
    apply map_get_wf in Hin; [|apply eventsByItem_wf]. rewrite eventsByItem_get in Hin; exists id.
    destruct (events_of id events); [done|]. by injection Hin as <- <-.
  - intros [id Hp]; pose proof (eventsByItem_get events id) as Hg.
    destruct (events_of id events) as [|e es]; [done|]. exists (sequenceId e, e :: es); split; [|done].
    apply list_elem_of_fmap; exists (id, (sequenceId e, e :: es)); split; [done|by apply map_get_elem].
Qed.

Lemma projected_itemId id events i :
  projectDurableExternalThreadItem stringifyIndented (events_of id events) = Some i → itemId i = id.
Proof.
  destruct (events_of id events) as [|e es] eqn:He; [done|].
  assert (e ∈ events_of id events) as Hin by (rewrite He; left).
  unfold events_of in Hin; apply elem_of_List_filter in Hin as [_ Hid%bool_decide_eq_true].
  unfold projectDurableExternalThreadItem; case_match; [done|]. case_match; [done|]. intros [= <-]; cbn; by rewrite Hid.
Qed.

(** The items of a turn are the request's own message and one item for each item id
    of the events that has anything to show, made from exactly the events of that id in
    order. At most 128 are kept, the flag says exactly whether any is left out, and every
    text and summary is within its limit. *)
Theorem durable_turn_items r events items cut :
  projectDurableExternalTurnItems stringifyIndented r events = (items, cut) →
  (length items <= MAX_EXTERNAL_THREAD_ITEMS_PER_TURN)%nat ∧ Forall item_within items ∧
  items `prefix_of` request_item r ++ projected_items stringifyIndented events ∧
  (cut = false ↔ items = request_item r ++ projected_items stringifyIndented events) ∧
  (∀ i, i ∈ projected_items stringifyIndented events ↔
        itemId i ∈ omap event_itemId events ∧
        projectDurableExternalThreadItem stringifyIndented (events_of (itemId i) events) = Some i).
Proof.
  intros [= <- <-]; set (ps := projected_items _ _).
  assert (length (request_item r) <= 1)%nat as Hr by (unfold request_item; destruct (nonempty _); cbn; lia).
  split_and!.
  - rewrite length_app, length_take; unfold MAX_EXTERNAL_THREAD_ITEMS_PER_TURN; lia.
  - apply Forall_app; split; [apply request_item_within|]. apply Forall_forall; intros i Hi%subseteq_take.
    apply projected_items_exact in Hi as [id Hi]; by eapply item_within_limits.
  - apply prefix_app; eexists; by rewrite take_drop.
  - rewrite length_take, Nat.ltb_ge; split; [intros; by rewrite take_ge by lia|].
    intros Ht%(app_inv_head (request_item r)); apply (f_equal length) in Ht; rewrite length_take in Ht; lia.
  - intros i; unfold ps; rewrite projected_items_exact; split; [|intros [_ ?]; eauto].
    intros [id Hp]; pose proof (projected_itemId _ _ _ Hp) as <-; split; [|done].
    destruct (events_of (itemId i) events) as [|e es] eqn:He; [done|].
    assert (e ∈ events_of (itemId i) events) as Hin by (rewrite He; left).
    unfold events_of in Hin; apply elem_of_List_filter in Hin as [Hin Hid%bool_decide_eq_true].
    apply list_elem_of_omap; eauto.
Qed.
End ItemFacts.

(** ** On concrete events *)

Module TurnExample.
#[local] Existing Instance literal_json.

Definition text_event (n : Z) (item t : string) : ExternalEvent :=
  {| eventId := "e"; sequenceId := n; event_kind := "assistant_text_delta"; event_itemId := Some item;
     payload := JObject [("nativeMethod", JString "item/agentMessage/delta"); ("text", JString t)]; rawDetailRef := None |}.

Definition log : list ExternalEvent := [text_event 1 "a" "Hel"; text_event 2 "b" "Bye"; text_event 5 "a" "lo"].

Definition show (v : json) : string := default "" (stringify v).

Lemma durable_events_complete_witness :
  queryDurableExternalTurnEvents (log_page log 2) 2 4 = Some (Ok log).
Proof.
  apply (durable_events_complete log 2); [lia| |].
  - unfold ascending; cbn; repeat constructor; lia.
  - unfold log; repeat constructor; cbn; lia.
Defined.

Lemma durable_turn_items_witness :
  (λ i, (itemId i, item_text i)) <$> (projectDurableExternalTurnItems show {| requestId := "q"; input := [TextPart "Hi"] |} log).1
    = [("request:q", Some "Hi"); ("a", Some "Hello"); ("b", Some "Bye")] ∧
  Forall item_within (projectDurableExternalTurnItems show {| requestId := "q"; input := [TextPart "Hi"] |} log).1.
Proof.
  split; [vm_compute; reflexivity|].
  destruct (projectDurableExternalTurnItems show {| requestId := "q"; input := [TextPart "Hi"] |} log) as [items cut] eqn:He.
  exact (proj1 (proj2 (durable_turn_items show _ _ _ _ He))).
Defined.

(** A request of one image and no text has no item of its own, so that its image is shown
    with the agent's first item. *)
Definition image_attachment : list (string * json) :=
  [("storage_url", JString "blob:1"); ("attachment_id", JString "att"); ("filename", JString "cat.png");
   ("mime_type", JString "image/png"); ("byte_size", JNumber "12")].

Example image_of_request_on_answer :
  let request := {| requestId := "q"; input := [ImagePart "blob:1"] |} in
  map (λ p, (itemId p.1, kind p.1, map attachmentId p.2))
    (attachDurableExternalTurnInputImages id "s" (projectDurableExternalTurnItems show request log).1 request log
       [image_attachment])
  = [("a", "agentMessage", ["att"]); ("b", "agentMessage", [])].
Proof. vm_compute; reflexivity. Qed.
End TurnExample.
