(* ===== verification/AsyncCalls.v ===== *)
(** * Asynchronous operations against shared services

    An [async] function awaits the services of the program one call at a time, and between
    two of its calls anything else may run.  Its code is a tree of awaited calls, [Io]; the
    operations that are under way form a pool over one shared world, in which each step is
    one call of one operation, an operation that starts, one that ends or whose process
    dies, or a change that comes from outside.  The second half is the reasoning the
    protocols share: what an operation may rely on between its calls, what each of its calls
    must guarantee, and the theorem that a pool of operations that keep to it preserves the
    invariant of the world. *)

From stdpp Require Import sets list relations.
From S2P Require Import Prelude.

(** ** The code of an operation *)

(** A call may also be rejected. *)
Inductive outcome (X A : Type) : Type :=
| Value (a : A)
| Raise (x : X).
Arguments Value {X A} a.
Arguments Raise {X A} x.

Section Code.
Context (X : Type) (call : Type → Type).

(** [Endless] is a loop that has used up the number of rounds it was given. *)
Inductive Io (A : Type) : Type :=
| Done (r : outcome X A)
| Endless
| Await (B : Type) (e : call B) (k : outcome X B → Io A).
End Code.
Arguments Done {X call A} r.
Arguments Endless {X call A}.
Arguments Await {X call A B} e k.

Section Combinators.
Context {X : Type} {call : Type → Type}.

Fixpoint continue {A B} (m : Io X call A) (k : outcome X A → Io X call B) : Io X call B :=
  match m with
  | Done r => k r
  | Endless => Endless
  | Await e k' => Await e (λ r, continue (k' r) k)
  end.

#[global] Instance io_ret : MRet (Io X call) := λ A a, Done (Value a).
#[global] Instance io_bind : MBind (Io X call) := λ A B f m,
  continue m (λ r, match r with Value a => f a | Raise x => Done (Raise x) end).

(** [await e] *)
Definition await {A} (e : call A) : Io X call A := Await e Done.

Definition raise {A} (x : X) : Io X call A := Done (Raise x).

(** [try { m } catch (error) { h(error) }] *)
Definition catch {A} (m : Io X call A) (h : X → Io X call A) : Io X call A :=
  continue m (λ r, match r with Value a => mret a | Raise x => h x end).

(** The outcome of [m] as a value: [try { m } catch] whose handler goes another way. *)
Definition attempt {A} (m : Io X call A) : Io X call (outcome X A) := continue m (λ r, mret r).

(** [try { m } finally { f }] *)
Definition finally {A} (m : Io X call A) (f : Io X call ()) : Io X call A :=
  continue m (λ r, continue f (λ r', match r' with Value _ => Done r | Raise x => Done (Raise x) end)).

(** [for (const x of xs) acc = await step(acc, x)] *)
Fixpoint for_each {A B} (step : B → A → Io X call B) (acc : B) (xs : list A) : Io X call B :=
  match xs with
  | [] => mret acc
  | x :: xs => acc ← step acc x; for_each step acc xs
  end.

(** [Promise.all] of operations that do not depend on each other: all are awaited, and the
    first rejection of the list is thrown. *)
Fixpoint promise_all {A} (ms : list (Io X call A)) : Io X call (list A) :=
  match ms with
  | [] => mret []
  | m :: ms =>
      head ← attempt m;
      tail ← attempt (promise_all ms);
      match head, tail with
      | Raise x, _ => raise x
      | Value _, Raise x => raise x
      | Value a, Value l => mret (a :: l)
      end
  end.
End Combinators.

(** ** An operation that runs alone *)

Section Alone.
Context {X : Type} {call : Type → Type} {W : Type}.
(** what a call answers, and the world after it *)
Context (serve : ∀ B, call B → W → outcome X B * W).

Fixpoint perform {A} (m : Io X call A) (w : W) : option (outcome X A * W) :=
  match m with
  | Done r => Some (r, w)
  | Endless => None
  | @Await _ _ _ B e k => let '(r, w') := serve B e w in perform (k r) w'
  end.

Lemma perform_continue {A B} (m : Io X call A) (k : outcome X A → Io X call B) w :
  perform (continue m k) w = perform m w ≫= λ '(r, w'), perform (k r) w'.
Proof.
  revert w; induction m as [r| |C e k' IH]; intros w; cbn; [done|done|]; destruct (serve C e w) as [r w']; apply IH.
Qed.
End Alone.

(** ** An operation among others *)

Section Executions.
Context {X : Type} {call : Type → Type} {W : Type}.
Context (handles : ∀ B, call B → W → outcome X B → W → Prop).
(** what may happen between two calls *)
Context (between : W → W → Prop).

Inductive ends_with {A} : Io X call A → W → outcome X A → W → Prop :=
| ends_done r w : ends_with (Done r) w r w
| ends_await B (e : call B) k w w1 r w2 x w3 :
    between w w1 → handles B e w1 r w2 → ends_with (k r) w2 x w3 → ends_with (Await e k) w x w3.

(** However the calls answer, [m] ends, and [Q] holds there. *)
Fixpoint ensures {A} (m : Io X call A) (Q : outcome X A → W → Prop) (w : W) : Prop :=
  match m with
  | Done r => Q r w
  | Endless => False
  | @Await _ _ _ B e k => ∀ w', between w w' → ∀ r w'', handles B e w' r w'' → ensures (k r) Q w''
  end.

Lemma ensures_mono {A} (m : Io X call A) (Q Q' : outcome X A → W → Prop) w :
  (∀ r w, Q r w → Q' r w) → ensures m Q w → ensures m Q' w.
Proof. intros HQ; revert w; induction m as [r| |B e k IH]; intros w; cbn; [auto|done|]; intros Hm w' Hb r w'' Hh; eauto. Qed.

Lemma ensures_continue {A B} (m : Io X call A) (k : outcome X A → Io X call B) Q w :
  ensures m (λ r w, ensures (k r) Q w) w → ensures (continue m k) Q w.
Proof. revert w; induction m as [r| |C e k' IH]; intros w; cbn; [done|done|]; intros Hm w' Hb r w'' Hh; eauto. Qed.

Lemma ensures_bind {A B} (m : Io X call A) (f : A → Io X call B) Q w :
  ensures m (λ r w, match r with Value a => ensures (f a) Q w | Raise x => Q (Raise x) w end) w → ensures (m ≫= f) Q w.
Proof. intros Hm; apply ensures_continue; eapply ensures_mono; [|done]; by intros [a|x] w'. Qed.

Lemma ensures_attempt {A} (m : Io X call A) Q w : ensures m (λ r w, Q (Value r) w) w → ensures (attempt m) Q w.
Proof. intros Hm; by apply ensures_continue. Qed.

Lemma ensures_catch {A} (m : Io X call A) (h : X → Io X call A) Q w :
  ensures m (λ r w, match r with Value a => Q (Value a) w | Raise x => ensures (h x) Q w end) w → ensures (catch m h) Q w.
Proof. intros Hm; apply ensures_continue; eapply ensures_mono; [|done]; by intros [a|x] w'. Qed.

Lemma ensures_await {A} (e : call A) Q w :
  (∀ w', between w w' → ∀ r w'', handles A e w' r w'' → Q r w'') → ensures (await e) Q w.
Proof. done. Qed.

Lemma ensures_sound {A} (m : Io X call A) Q w r w' : ends_with m w r w' → ensures m Q w → Q r w'.
Proof. induction 1; cbn; eauto. Qed.
End Executions.

(** ** Operations that run together *)

Record process (T X : Type) (call : Type → Type) := Process { tag : T; Answer : Type; code : Io X call Answer }.
Arguments Process {T X call} tag {Answer} code.
Arguments tag {T X call} p.
Arguments Answer {T X call} p.
Arguments code {T X call} p.

Section Pools.
Context {T X : Type} {call : Type → Type} {W : Type}.
(** what a call may do and answer *)
Context (handles : ∀ B, call B → W → outcome X B → W → Prop).
(** what happens outside *)
Context (outside : W → W → Prop).
(** which operations may begin, and beside which others *)
Context (starts : W → process T X call → Prop).
Context (beside : T → T → Prop).
(** whether an operation may be lost before its end *)
Context (mortal : bool).

Definition pool : Type := W * list (process T X call).

Inductive step : pool → pool → Prop :=
| step_start w ps p :
    starts w p → Forall (λ q, beside (tag p) (tag q)) ps → step (w, ps) (w, p :: ps)
| step_call w w' ps rest t A B (e : call B) (k : outcome X B → Io X call A) r :
    ps ≡ₚ Process t (Await e k) :: rest → handles B e w r w' → step (w, ps) (w', Process t (k r) :: rest)
| step_end w ps p rest :
    ps ≡ₚ p :: rest → (mortal = true ∨ ∃ r, code p = Done r) → step (w, ps) (w, rest)
| step_outside w w' ps : outside w w' → step (w, ps) (w', ps).

(** ** Rely and guarantee *)

Context (invariant : W → Prop).
Context (rely : T → W → W → Prop).
Context (guard : T → ∀ B, call B → W → Prop).
(** what holds at the end of an operation that returned, or threw *)
Context (post : T → bool → W → Prop).

Definition returned {A} (r : outcome X A) : bool := match r with Value _ => true | Raise _ => false end.

(** From [w] on, every call that [m] makes is one it may make, and if [m] ends, [Q] holds
    at its end. *)
Fixpoint wp (t : T) {A} (m : Io X call A) (Q : outcome X A → W → Prop) (w : W) : Prop :=
  match m with
  | Done r => Q r w
  | Endless => True
  | @Await _ _ _ B e k =>
      ∀ w', rely t w w' → invariant w' → guard t B e w' ∧ ∀ r w'', handles B e w' r w'' → invariant w'' → wp t (k r) Q w''
  end.

Lemma wp_mono t {A} (m : Io X call A) (Q Q' : outcome X A → W → Prop) w :
  (∀ r w, Q r w → Q' r w) → wp t m Q w → wp t m Q' w.
Proof.
  intros HQ; revert w; induction m as [r| |B e k IH]; intros w; cbn; [auto|done|].
  intros Hm w' Hr Hi; destruct (Hm w' Hr Hi) as [Hg Hk]; split; [done|]; intros r w'' Hh Hi'; apply IH; eauto.
Qed.

Lemma wp_continue t {A B} (m : Io X call A) (k : outcome X A → Io X call B) Q w :
  wp t m (λ r w, wp t (k r) Q w) w → wp t (continue m k) Q w.
Proof.
  revert w; induction m as [r| |C e k' IH]; intros w; cbn; [done|done|].
  intros Hm w' Hr Hi; destruct (Hm w' Hr Hi) as [Hg Hk]; split; [done|]; intros r w'' Hh Hi'; apply IH; eauto.
Qed.

Lemma wp_bind t {A B} (m : Io X call A) (f : A → Io X call B) Q w :
  wp t m (λ r w, match r with Value a => wp t (f a) Q w | Raise x => Q (Raise x) w end) w →
  wp t (m ≫= f) Q w.
Proof. intros Hm; apply wp_continue; eapply wp_mono; [|done]; intros [a|x] w'; done. Qed.

Lemma wp_attempt t {A} (m : Io X call A) Q w : wp t m (λ r w, Q (Value r) w) w → wp t (attempt m) Q w.
Proof. intros Hm; by apply wp_continue. Qed.

Lemma wp_await t {A} (e : call A) Q w :
  (∀ w', rely t w w' → invariant w' → guard t A e w' ∧ ∀ r w'', handles A e w' r w'' → invariant w'' → Q r w'') →
  wp t (await e) Q w.
Proof. done. Qed.

Lemma wp_for_each t {A B} (step : B → A → Io X call B) (P : W → Prop) acc xs Q w :
  P w → (∀ r w, P w → Q r w) →
  (∀ b x w, x ∈ xs → P w → wp t (step b x) (λ _ w, P w) w) →
  wp t (for_each step acc xs) Q w.
Proof.
  intros HP HQ; revert acc w HP; induction xs as [|x xs IH]; intros acc w HP Hs; cbn; [by apply HQ|].
  apply wp_bind; eapply wp_mono; [|apply Hs; [by left|done]]; intros [b|x'] w' HP'; [|by apply HQ].
  apply IH; [done|]; intros b' y w'' Hy; apply Hs; by right.
Qed.

(** Two operations of the pool may run beside each other. *)
Fixpoint apart (ps : list (process T X call)) : Prop :=
  match ps with
  | [] => True
  | p :: ps => Forall (λ q, beside (tag p) (tag q)) ps ∧ apart ps
  end.

Context {rely_pre : ∀ t, PreOrder (rely t)} {beside_sym : Symmetric beside}.
Hypothesis call_keeps : ∀ t B (e : call B) w r w',
  invariant w → guard t B e w → handles B e w r w' →
  invariant w' ∧ ∀ t', beside t t' → rely t' w w'.
Hypothesis outside_keeps : ∀ w w', invariant w → outside w w' → invariant w' ∧ ∀ t, rely t w w'.
Hypothesis starts_well : ∀ w p, invariant w → starts w p → wp (tag p) (code p) (λ r w, post (tag p) (returned r) w) w.
Hypothesis post_stable : ∀ t b w w', rely t w w' → post t b w → post t b w'.

#[local] Instance apart_proper : Proper (Permutation ==> iff) apart.
Proof.
  assert (∀ ps qs, ps ≡ₚ qs → apart ps → apart qs) as H.
  { induction 1 as [|p ps qs Hp IH|p q ps|ps qs rs _ IH1 _ IH2]; cbn; [done| |rewrite !Forall_cons|by auto].
    - intros [Hf Ha]; split; [by rewrite <- Hp|by apply IH].
    - intros ([Hqp ?] & ? & ?); repeat split; try done; by symmetry. }
  intros ps qs Hp; split; apply H; [done|by symmetry].
Qed.

Lemma apart_pair ps p q rest : ps ≡ₚ p :: q :: rest → apart ps → beside (tag p) (tag q).
Proof. intros ->; intros [[Hb _]%Forall_cons _]; exact Hb. Qed.

Lemma wp_rely t {A} (m : Io X call A) w w' :
  rely t w w' → wp t m (λ r w, post t (returned r) w) w → wp t m (λ r w, post t (returned r) w) w'.
Proof. destruct m; cbn; [by apply post_stable|done|]; intros Hr Hm w'' Hr'; apply Hm; by transitivity w'. Qed.

Definition sound (s : pool) : Prop :=
  invariant s.1 ∧ Forall (λ p, wp (tag p) (code p) (λ r w, post (tag p) (returned r) w) s.1) s.2 ∧ apart s.2.

Lemma step_sound s s' : step s s' → sound s → sound s'.
Proof.
  unfold sound; destruct 1 as [w ps p Hs Hb|w w' ps rest t A B e k r Hp Hh|w ps p rest Hp _|w w' ps Ho];
    cbn [fst snd]; intros (Hi & Hw & Ha).
  - split; [done|]; split; [constructor; [by apply starts_well|done]|done].
  - rewrite Hp in Hw, Ha; apply Forall_cons in Hw as [Hm Hw]; destruct Ha as [Hb Ha]; cbn in Hm, Hb.
    destruct (Hm w ltac:(done) Hi) as [Hg Hk]; destruct (call_keeps _ _ _ _ _ _ Hi Hg Hh) as [Hi' Hr].
    split; [done|]; split; [|done]; constructor; [by apply (Hk _ _ Hh)|].
    clear Ha Hp; induction Hw as [|q rest Hq Hw IH]; [done|]; apply Forall_cons in Hb as [Hb1 Hb2].
    constructor; [by apply (wp_rely _ _ w w' (Hr _ Hb1))|by apply IH].
  - rewrite Hp in Hw, Ha; apply Forall_cons in Hw as [_ Hw]; by destruct Ha.
  - destruct (outside_keeps _ _ Hi Ho) as [Hi' Hr]; split; [done|]; split; [|done].
    eapply Forall_impl; [done|]; intros p; by apply wp_rely.
Qed.

(** Whatever operations run together, in whatever order: the invariant is kept, and what is
    promised for the end of an operation holds there. *)
Lemma pool_sound w0 s : invariant w0 → rtc step (w0, []) s → sound s.
Proof.
  intros Hi Hr; assert (sound (w0, [])) as H0 by done; clear Hi.
  induction Hr as [s|s s' s'' Hs Hr IH]; [done|]; eauto using step_sound.
Qed.

(** ** Debts: what an operation that has begun must still do *)

(** what is owed, and by which operation *)
Context {K : Type} (owes : W → K → Prop) (owner : T → option K).
Hypothesis call_owes : ∀ t B (e : call B) w r w' k,
  guard t B e w → handles B e w r w' → owes w' k → owes w k ∨ owner t = Some k.
Hypothesis outside_owes : ∀ w w' k, outside w w' → owes w' k → owes w k.
Hypothesis post_owes : ∀ t b w k, post t b w → owner t = Some k → ¬ owes w k.

Definition owned (s : pool) : Prop := ∀ k, owes s.1 k → ∃ p, p ∈ s.2 ∧ owner (tag p) = Some k.

Lemma step_owned s s' : mortal = false → sound s → step s s' → owned s → owned s'.
Proof.
  intros Hm Hsd Hs Ho k Hk.
  destruct Hs as [w ps p Hs Hb|w w' ps rest t A B e f r Hp Hh|w ps p rest Hp Hd|w w' ps Hout]; cbn [fst snd] in *.
  - destruct (Ho k Hk) as (q & Hq & Hqk); exists q; split; [by right|done].
  - destruct Hsd as (Hi & Hw & _); cbn in Hi, Hw; rewrite Hp in Hw; apply Forall_cons in Hw as [Hmm _]; cbn in Hmm.
    destruct (Hmm w ltac:(reflexivity) Hi) as [Hg _].
    destruct (call_owes _ _ _ _ _ _ _ Hg Hh Hk) as [Hw|Hw]; [|eexists; split; [by left|exact Hw]].
    destruct (Ho k Hw) as (q & Hq & Hqk); cbn in Hq; rewrite Hp in Hq; apply elem_of_cons in Hq as [->|Hq]; [|exists q; split; [by right|done]].
    eexists; split; [by left|exact Hqk].
  - destruct (Ho k Hk) as (q & Hq & Hqk); cbn in Hq; rewrite Hp in Hq; apply elem_of_cons in Hq as [->|Hq]; [|by exists q].
    destruct Hd as [?|[r Hr]]; [congruence|]; destruct Hsd as (_ & Hw & _); cbn in Hw; rewrite Hp in Hw.
    apply Forall_cons in Hw as [Hmm _]; rewrite Hr in Hmm; by destruct (post_owes _ _ _ _ Hmm Hqk).
  - by apply Ho; eapply outside_owes.
Qed.

(** While operations are not lost, what is owed is owed by an operation that is under way. *)
Lemma pool_debts w0 s :
  mortal = false → invariant w0 → (∀ k, ¬ owes w0 k) → rtc step (w0, []) s → owned s.
Proof.
  intros Hm Hi H0 Hr; assert (sound (w0, [])) as Hsd by done.
  assert (owned (w0, [])) as Ho by (intros k Hk; by destruct (H0 k)); clear Hi H0.
  induction Hr as [s|s s' s'' Hs Hr IH]; [done|]; apply IH; [by eapply step_sound|by eapply step_owned].
Qed.
End Pools.
