(* ===== verification/NativeThread.v ===== *)
(** * The threads of the app server as the service shows them

    [projectExternalThread], [projectExternalThreadTurn], [projectExternalThreadItem],
    [reconcileExternalThreadProjection] and their helpers of
    [ts/packages/brain-island/src/service-external-runtime.ts]: what a thread the app server
    answers with becomes, which answers are refused, and how the outcome that the service
    recorded for a turn takes the place of the native one. *)

From stdpp Require Import sets list.
From S2P Require Import Prelude JsString Json JsonParse CodexCodec CodexText CodexEvents ThreadTurns.

(** ** Reading native values *)

(** [requireNativeRecord] *)
Definition requireNativeRecord (value : json) (label : string) : result (list (string * json)) :=
  match isPlainRecord value with
  | Some o => Ok o
  | None => Throw ("invalid native " +:+ label +:+ " payload")
  end.

Definition requireNativeString (value : json) (label : string) : result string :=
  match stringValue value with
  | Some s => Ok s
  | None => Throw ("invalid native " +:+ label)
  end.

Definition projectOptionalNativeStatus (value : json) : option string :=
  match value with
  | JString s => Some s
  | JObject o => stringValue (member o "type")
  | _ => None
  end.

Definition projectNativeStatus (value : json) : string := default "unknown" (projectOptionalNativeStatus value).

(** ** Items *)

Definition content_text (entry : json) : option string :=
  match isPlainRecord entry with
  | Some o => or_else (stringValue (member o "text")) (stringValue (member o "value"))
  | None => None
  end.

Definition projectThreadItemText (kind_ : string) (item : list (string * json)) : option string :=
  let text k := stringValue (member item k) in
  match member item "text" with
  | JString t => Some t
  | _ =>
      if String.eqb kind_ "commandExecution" then
        Some (Str.join (str [newline]) (omap id [text "command"; text "aggregatedOutput"]))
      else match String.eqb kind_ "fileChange", member item "changes" with
      | true, JArray changes => Some (file_changes (length changes))
      | _, _ =>
      if String.eqb kind_ "mcpToolCall" then Some (Str.join "/" (omap id [text "server"; text "tool"]))
      else if String.eqb kind_ "dynamicToolCall" then text "tool"
      else match String.eqb kind_ "userMessage", member item "content" with
      | true, JArray content =>
          match Str.join (str [newline]) (omap content_text content) with "" => None | s => Some s end
      | _, _ => None
      end
      end
  end.

Definition projectExternalThreadItem (value : json) : result ExternalThreadItemProjection :=
  item ← requireNativeRecord value "thread item";
  kind_ ← requireNativeString (member item "type") "thread item type";
  itemId_ ← requireNativeString (member item "id") "thread item id";
  Ok {| itemId := itemId_; kind := kind_; status := projectOptionalNativeStatus (member item "status");
        item_text := projectThreadItemText kind_ item;
        summary := strings_of (arrayValue (member item "summary"));
        messagePhase := if String.eqb kind_ "agentMessage" then projectAgentMessagePhase (member item "phase") else None;
        detailHandle := None; truncated := false |}.

(** ** Turns *)

Record TurnError := { diagnostic : CodexErrorDiagnostic; willRetry : option bool }.

Inductive status_source := native_source | crew_terminal.

Record ExternalThreadTurnProjection := {
  turnId : string;
  turn_status : string;
  statusSource : status_source;
  terminalReasonCode : option string;
  turn_error : option TurnError;
  startedAt : option string;
  completedAt : option string;
  durationMs : option string;
  items : list ExternalThreadItemProjection
}.

Definition projectNativeTurnError (value : json) : option TurnError :=
  (λ d, {| diagnostic := d; willRetry := None |}) <$> projectCodexErrorDiagnostic value.

Definition projectExternalThreadTurn (value : json) : result ExternalThreadTurnProjection :=
  turn ← requireNativeRecord value "thread turn";
  turnId_ ← requireNativeString (member turn "id") "turn.id";
  items_ ← mapR projectExternalThreadItem (arrayValue (member turn "items"));
  Ok {| turnId := turnId_; turn_status := default "unknown" (stringValue (member turn "status"));
        statusSource := native_source; terminalReasonCode := None;
        turn_error := projectNativeTurnError (member turn "error");
        startedAt := numberValue (member turn "startedAt"); completedAt := numberValue (member turn "completedAt");
        durationMs := numberValue (member turn "durationMs"); items := items_ |}.

(** ** Threads *)

Record ExternalThreadProjection := {
  threadId : string;
  thread_sessionId : string;
  thread_bindingId : option string;
  crewSessionId : option string;
  lineage : json;
  nativeMaterialized : bool;
  thread_parentThreadId : option string;
  preview : string;
  ephemeral : bool;
  modelProvider : string;
  effectiveModel : option string;
  thread_createdAt : string;
  thread_updatedAt : string;
  thread_status : string;
  cwd : string;
  cliVersion : string;
  name : option string;
  agentNickname : option string;
  agentRole : option string;
  turns : list ExternalThreadTurnProjection
}.

(** [managedLabel] is [None] where the source passes [undefined]. *)
Definition projectExternalThread (value : json) (effectiveModel_ : option string) (managedLabel : option (option string))
    : result ExternalThreadProjection :=
  thread ← requireNativeRecord value "thread";
  threadId_ ← requireNativeString (member thread "id") "thread.id";
  sessionId_ ← requireNativeString (member thread "sessionId") "thread.sessionId";
  cwd_ ← requireNativeString (member thread "cwd") "thread.cwd";
  turns_ ← mapR projectExternalThreadTurn (arrayValue (member thread "turns"));
  let text k := stringValue (member thread k) in
  let number k := default "0" (numberValue (member thread k)) in
  Ok {| threadId := threadId_; thread_sessionId := sessionId_; thread_bindingId := None; crewSessionId := None;
        lineage := JNull; nativeMaterialized := true; thread_parentThreadId := text "parentThreadId";
        preview := default "" (text "preview");
        ephemeral := match member thread "ephemeral" with JBool true => true | _ => false end;
        modelProvider := default "unknown" (text "modelProvider"); effectiveModel := effectiveModel_;
        thread_createdAt := number "createdAt"; thread_updatedAt := number "updatedAt";
        thread_status := projectNativeStatus (member thread "status"); cwd := cwd_;
        cliVersion := default "unknown" (text "cliVersion");
        name := default (text "name") managedLabel;
        agentNickname := text "agentNickname"; agentRole := text "agentRole"; turns := turns_ |}.

(** ** The outcome the service recorded *)

Inductive ExternalTurnPhase :=
| phase_accepted | phase_starting | phase_active | phase_waiting_interaction | phase_completed | phase_failed
| phase_interrupted | phase_outcome_unknown.

#[global] Instance phase_eq : EqDecision ExternalTurnPhase.
Proof. solve_decision. Defined.

(** The members of [ExternalTurnCorrelation] that are read here; [terminalError] as the
    record it is, and its [willRetry]. *)
Record TurnCorrelation := {
  correlation_nativeTurnId : option string;
  correlation_phase : ExternalTurnPhase;
  correlation_reasonCode : option string;
  correlation_error : option (json * option bool)
}.

Definition crewTerminalStatus (phase : ExternalTurnPhase) : option string :=
  match phase with
  | phase_failed => Some "failed"
  | phase_interrupted => Some "interrupted"
  | phase_outcome_unknown => Some "outcomeUnknown"
  | _ => None
  end.

Definition nativeTurnTerminalPhase (status : option string) : option ExternalTurnPhase :=
  match status with
  | Some "completed" => Some phase_completed
  | Some "failed" => Some phase_failed
  | Some "interrupted" => Some phase_interrupted
  | _ => None
  end.

Definition projectTerminalError (value : option (json * option bool)) : option TurnError :=
  match value with
  | None => None
  | Some (v, retry) => (λ d, {| diagnostic := d; willRetry := retry |}) <$> projectCodexErrorDiagnostic v
  end.

Definition byNativeTurnId (correlations : list TurnCorrelation) : jsmap string TurnCorrelation :=
  map_of_entries (omap (λ c, (λ t, (t, c)) <$> correlation_nativeTurnId c) correlations).

Definition reconcile_turn (correlations : list TurnCorrelation) (turn : ExternalThreadTurnProjection)
    : ExternalThreadTurnProjection :=
  match map_get (turnId turn) (byNativeTurnId correlations) with
  | None => turn
  | Some c =>
      match crewTerminalStatus (correlation_phase c) with
      | None => turn
      | Some s =>
          {| turnId := turnId turn; turn_status := s; statusSource := crew_terminal;
             terminalReasonCode := correlation_reasonCode c;
             turn_error := or_else (projectTerminalError (correlation_error c)) (turn_error turn);
             startedAt := startedAt turn; completedAt := completedAt turn; durationMs := durationMs turn;
             items := items turn |}
      end
  end.

Definition with_turns (ts : list ExternalThreadTurnProjection) (t : ExternalThreadProjection) : ExternalThreadProjection :=
  {| threadId := threadId t; thread_sessionId := thread_sessionId t; thread_bindingId := thread_bindingId t;
     crewSessionId := crewSessionId t; lineage := lineage t; nativeMaterialized := nativeMaterialized t;
     thread_parentThreadId := thread_parentThreadId t; preview := preview t; ephemeral := ephemeral t;
     modelProvider := modelProvider t; effectiveModel := effectiveModel t; thread_createdAt := thread_createdAt t;
     thread_updatedAt := thread_updatedAt t; thread_status := thread_status t; cwd := cwd t;
     cliVersion := cliVersion t; name := name t; agentNickname := agentNickname t; agentRole := agentRole t;
     turns := ts |}.

Definition reconcileExternalThreadProjection (thread : ExternalThreadProjection) (correlations : list TurnCorrelation)
    : ExternalThreadProjection :=
  with_turns (reconcile_turn correlations <$> turns thread) thread.

(** ** Facts *)

(** The ids of the items of a thread, by turn. *)
Definition item_ids (t : ExternalThreadProjection) : list string := turns t ≫= λ turn, itemId <$> items turn.
