(* ===== verification/SteerDelivery.v ===== *)
(** * Messages steered into a running external turn

    [applyCoordinationDelivery], [#reconcileSteerIntent], [#reconcileBindingSteerIntents]
    and their helpers of
    [ts/packages/brain-island/src/service-external-runtime.ts]: a message for an agent whose
    turn is under way is handed to the app server with [turn/steer], after an event that
    records the intent and before one that records the success, so that a later call can
    tell what became of it.

    The native bridge, the driver and the resolver of images are calls, [SteerCall]; every
    call may also be rejected, with or without its effect. *)

From stdpp Require Import sets list gmap strings.
From S2P Require Import Prelude JsString Json JsonParse CodexText CodexEvents ThreadTurns AsyncCalls NativeThread.
#[local] Open Scope Z_scope.

(** ** Data *)

(** The members of [AgentMessageDeliveryRequest] that are read; [imageAttachmentIds] is
    empty where it is absent. *)
Record DeliveryRequest := {
  deliveryId : string;
  messageId : string;
  toSessionId : option string;
  createdAt : string;
  expiresAt : string;
  imageAttachmentIds : list string
}.

Record SteerActivation := {
  steer_bindingId : string;
  messageText : string;
  steer_threadId : string;
  steer_turnId : string;
  steer_requestId : string
}.

Inductive AgentActivation :=
| direct_brain_wake_requested
| external_turn_requested
| external_turn_steer_requested (a : SteerActivation)
| queued_for_next_turn
| rejected_activation.

Inductive AgentMessageDeliveryStatus := pending | accepted | rejected | expired.
#[global] Instance delivery_status_eq : EqDecision AgentMessageDeliveryStatus.
Proof. solve_decision. Defined.

Record AgentMessageDeliveryReceipt := {
  request : DeliveryRequest;
  activation : option AgentActivation;
  delivery_status : AgentMessageDeliveryStatus;
  reasonCode : option string;
  revision : Z
}.

Record Completion := {
  completion_deliveryId : string;
  expectedRevision : Z;
  completion_status : AgentMessageDeliveryStatus;
  completion_reasonCode : string;
  completion_completedAt : string
}.

(** [ExternalRuntimeEventInput], and an event of the log with the number it got there. *)
Record EventInput := {
  input_eventId : string;
  input_sessionId : option string;
  input_createdAt : string;
  input_kind : string;
  input_runtimeId : string;
  input_threadId : string;
  input_turnId : option string;
  input_itemId : option string;
  input_requestId : option string;
  input_payload : json
}.

Record LoggedEvent := { logged_sequence : Z; logged : EventInput }.

Record RunningTurn := {
  running_requestId : string;
  running_threadId : string;
  running_turnId : option string;
  running_phase : ExternalTurnPhase
}.

Record NativeInput := { native_text : string; native_images : list string }.

(** An error the app server answered with, [CodexRpcError], and any other. *)
Inductive thrown := RpcError (message : string) | OtherError (message : string).

Abbreviation outcome := (AsyncCalls.outcome thrown).

(** What the operations await.  The controller's context that goes with an event is read
    when the call is made; a bridge that no longer accepts it rejects the call. *)
Inductive SteerCall : Type → Type :=
| Now : SteerCall string
| GetExternalBinding (bindingId : string) : SteerCall (option string)
| ListActiveExternalTurns : SteerCall (list RunningTurn)
| RequireControlled (runtimeId : string) : SteerCall ()
| QueryExternalRuntimeEvents (runtimeId threadId : string) (afterSequence : Z) (limit : nat) : SteerCall (list LoggedEvent)
| RecordExternalRuntimeEvent (event : EventInput) : SteerCall ()
| GetAgentMessageDelivery (id : string) : SteerCall (option AgentMessageDeliveryReceipt)
| CompleteAgentMessageDelivery (c : Completion) : SteerCall AgentMessageDeliveryReceipt
| QueryAttachmentsPage (sessionId : string) (offset : Z) : SteerCall (list (list (string * json)) * option Z)
| ResolveInputImage (sessionId storageUrl : string) : SteerCall string
| TurnSteer (threadId expectedTurnId clientUserMessageId : string) (input : NativeInput) : SteerCall ()
| ThreadRead (threadId : string) : SteerCall json.

Abbreviation Steer := (Io thrown SteerCall).

Definition of_result {A} (r : result A) : Steer A :=
  match r with Ok a => mret a | Throw m => raise (OtherError m) end.

(** ** Reading the log and the attachments *)

Section Service.
(** [#resolveInputImage] is configured *)
Context (canResolveImages : bool).
(** how many pages a loop over pages may ask for *)
Context (rounds : nat).

Definition event_page_limit : nat := 1000.

Fixpoint query_event_pages (fuel : nat) (runtimeId threadId : string) (afterSequence : Z) (events : list LoggedEvent)
    : Steer (list LoggedEvent) :=
  match fuel with
  | O => Endless
  | S fuel =>
      page ← await (QueryExternalRuntimeEvents runtimeId threadId afterSequence event_page_limit);
      let events := events ++ page in
      if (length page <? event_page_limit)%nat then mret events
      else match last page with
           | None => mret events
           | Some e => if logged_sequence e <=? afterSequence then mret events
                       else query_event_pages fuel runtimeId threadId (logged_sequence e) events
           end
  end.

Definition queryThreadEvents (runtimeId threadId : string) : Steer (list LoggedEvent) :=
  query_event_pages rounds runtimeId threadId 0 [].

Fixpoint query_attachment_pages (fuel : nat) (sessionId : string) (offset : Z) (attachments : list (list (string * json)))
    : Steer (list (list (string * json))) :=
  match fuel with
  | O => Endless
  | S fuel =>
      '(page, next_offset) ← await (QueryAttachmentsPage sessionId offset);
      let attachments := attachments ++ page in
      match next_offset with
      | None => mret attachments
      | Some offset => query_attachment_pages fuel sessionId offset attachments
      end
  end.

Definition querySessionAttachments (sessionId : string) : Steer (list (list (string * json))) :=
  query_attachment_pages rounds sessionId 0 [].

(** ** The input of a steer *)

Definition attachmentsById (attachments : list (list (string * json))) : jsmap string (list (string * json)) :=
  map_of_entries (omap (λ a, (λ i, (i, a)) <$> stringValue (member a "attachment_id")) attachments).

Definition resolve_image (sessionId : string) (byId : jsmap string (list (string * json))) (attachmentId : string) : Steer string :=
  match map_get attachmentId byId ≫= λ a, stringValue (member a "storage_url") with
  | None => raise (OtherError ("external delivery image " +:+ attachmentId +:+ " is unavailable"))
  | Some storageUrl => await (ResolveInputImage sessionId storageUrl)
  end.

Definition resolveDeliveryInputImages (receipt : AgentMessageDeliveryReceipt) : Steer (list string) :=
  match imageAttachmentIds (request receipt) with
  | [] => mret []
  | attachmentIds =>
      match toSessionId (request receipt), canResolveImages with
      | Some sessionId, true =>
          attachments ← querySessionAttachments sessionId;
          promise_all (resolve_image sessionId (attachmentsById attachments) <$> attachmentIds)
      | _, _ => raise (OtherError "external delivery image resolver is unavailable")
      end
  end.

(** ** The events of a steer *)

Inductive steer_event_kind := external_turn_steer_intent | external_turn_steer_input.

Definition kind_name (k : steer_event_kind) : string :=
  match k with
  | external_turn_steer_intent => "external_turn_steer_intent"
  | external_turn_steer_input => "external_turn_steer_input"
  end.

(** [s.replaceAll("_", "-")] *)
Definition dashed (s : string) : string := str ((λ c, if Ascii.eqb c "_" then "-"%char else c) <$> chars s).

Definition steer_event_id (delivery : string) (k : steer_event_kind) : string := delivery +:+ ":" +:+ dashed (kind_name k).
Definition intentEventId (delivery : string) : string := delivery +:+ ":external-turn-steer-intent".
Definition associationEventId (delivery : string) : string := delivery +:+ ":external-turn-steer-input".

Definition clientUserMessageId_of (r : DeliveryRequest) : string := "rusty-crew:" +:+ messageId r.

Definition steer_payload (r : DeliveryRequest) (a : SteerActivation) : json :=
  JObject [("source", JString "agent_message_delivery"); ("deliveryId", JString (deliveryId r));
           ("messageId", JString (messageId r)); ("text", JString (messageText a));
           ("imageAttachmentIds", JArray (JString <$> imageAttachmentIds r))].

Definition steerAssociationEvent (runtimeId : string) (receipt : AgentMessageDeliveryReceipt) (clientUserMessageId : string)
    (k : steer_event_kind) : result EventInput :=
  match activation receipt with
  | Some (external_turn_steer_requested a) =>
      Ok {| input_eventId := steer_event_id (deliveryId (request receipt)) k;
            input_sessionId := toSessionId (request receipt); input_createdAt := createdAt (request receipt);
            input_kind := kind_name k; input_runtimeId := runtimeId; input_threadId := steer_threadId a;
            input_turnId := Some (steer_turnId a); input_itemId := Some clientUserMessageId;
            input_requestId := Some (steer_requestId a); input_payload := steer_payload (request receipt) a |}
  | _ => Throw "external steer association requires steer activation"
  end.

Definition record_steer_event (runtimeId : string) (receipt : AgentMessageDeliveryReceipt) (clientUserMessageId : string)
    (k : steer_event_kind) : Steer () :=
  event ← of_result (steerAssociationEvent runtimeId receipt clientUserMessageId k);
  await (RecordExternalRuntimeEvent event).

(** ** Settling a delivery *)

Definition complete (delivery : string) (rev : Z) (s : AgentMessageDeliveryStatus) (reason now : string)
    : Steer AgentMessageDeliveryReceipt :=
  await (CompleteAgentMessageDelivery
           {| completion_deliveryId := delivery; expectedRevision := rev;
              completion_status := s; completion_reasonCode := reason; completion_completedAt := now |}).

Definition completeAcceptedSteerDelivery (receipt : AgentMessageDeliveryReceipt) : Steer AgentMessageDeliveryReceipt :=
  found ← await (GetAgentMessageDelivery (deliveryId (request receipt)));
  let latest := default receipt found in
  if bool_decide (delivery_status latest ≠ pending) then mret latest
  else (now ← await Now; complete (deliveryId (request latest)) (revision latest) accepted "external_turn_steer_accepted" now).

Definition shows_item (clientUserMessageId : string) (t : ExternalThreadProjection) : bool :=
  existsb (λ turn, existsb (λ i, String.eqb (itemId i) clientUserMessageId) (items turn)) (turns t).

Definition reconcileSteerIntent (runtimeId : string) (receipt : AgentMessageDeliveryReceipt) (clientUserMessageId : string)
    : Steer AgentMessageDeliveryReceipt :=
  match activation receipt with
  | Some (external_turn_steer_requested a) =>
      native ← await (ThreadRead (steer_threadId a));
      thread ← of_result (projectExternalThread native None None);
      if shows_item clientUserMessageId thread then
        record_steer_event runtimeId receipt clientUserMessageId external_turn_steer_input ≫= λ _,
        completeAcceptedSteerDelivery receipt
      else mret receipt
  | _ => mret receipt
  end.

(** The handler of an error of the steer or of its association. *)
Definition steer_failed (receipt : AgentMessageDeliveryReceipt) (nativeAccepted : bool) (error : thrown)
    : Steer AgentMessageDeliveryReceipt :=
  found ← catch (await (GetAgentMessageDelivery (deliveryId (request receipt)))) (λ _, mret None);
  let latest := default receipt found in
  if bool_decide (is_Some found ∧ delivery_status latest ≠ pending) then mret latest
  else match nativeAccepted, error with
       | false, RpcError _ =>
           now ← await Now;
           complete (deliveryId (request receipt)) (revision latest) rejected "external_turn_steer_rejected" now
       | _, _ => mret latest
       end.

(** ** Applying a delivery *)

Definition string_le (l r : string) : bool := match String.compare l r with Gt => false | _ => true end.

Definition steered_turn (a : SteerActivation) (t : RunningTurn) : bool :=
  String.eqb (running_requestId t) (steer_requestId a) && String.eqb (running_threadId t) (steer_threadId a) &&
  bool_decide (running_turnId t = Some (steer_turnId a)) && bool_decide (running_phase t = phase_active).

Definition has_event (events : list LoggedEvent) (id : string) : bool :=
  existsb (λ e, String.eqb (input_eventId (logged e)) id) events.

(** The intent is recorded; now the message is handed to the app server. *)
Definition steer (runtimeId : string) (receipt : AgentMessageDeliveryReceipt) (a : SteerActivation)
    (clientUserMessageId : string) : Steer AgentMessageDeliveryReceipt :=
  steered ← attempt (
    images ← resolveDeliveryInputImages receipt;
    await (TurnSteer (steer_threadId a) (steer_turnId a) clientUserMessageId
             {| native_text := messageText a; native_images := images |}));
  match steered with
  | Raise error => steer_failed receipt false error
  | Value _ =>
      associated ← attempt (record_steer_event runtimeId receipt clientUserMessageId external_turn_steer_input);
      match associated with
      | Raise error => steer_failed receipt true error
      | Value _ => completeAcceptedSteerDelivery receipt
      end
  end.

(** The delivery is live and its turn is running on a runtime under control. *)
Definition apply_to_turn (runtimeId : string) (receipt : AgentMessageDeliveryReceipt) (a : SteerActivation)
    : Steer AgentMessageDeliveryReceipt :=
  let clientUserMessageId := clientUserMessageId_of (request receipt) in
  queried ← attempt (queryThreadEvents runtimeId (steer_threadId a));
  match queried with
  | Raise _ => mret receipt
  | Value events =>
      if has_event events (associationEventId (deliveryId (request receipt))) then completeAcceptedSteerDelivery receipt
      else if has_event events (intentEventId (deliveryId (request receipt)))
      then reconcileSteerIntent runtimeId receipt clientUserMessageId
      else
        recorded ← attempt (record_steer_event runtimeId receipt clientUserMessageId external_turn_steer_intent);
        match recorded with
        | Raise _ => mret receipt
        | Value _ => steer runtimeId receipt a clientUserMessageId
        end
  end.

Definition applyCoordinationDelivery (receipt : AgentMessageDeliveryReceipt) : Steer AgentMessageDeliveryReceipt :=
  match delivery_status receipt, activation receipt with
  | pending, Some (external_turn_steer_requested a) =>
      now ← await Now;
      if string_le (expiresAt (request receipt)) now
      then complete (deliveryId (request receipt)) (revision receipt) expired "agent_message_expired_before_steer" now
      else
        binding ← await (GetExternalBinding (steer_bindingId a));
        turns ← await ListActiveExternalTurns;
        match binding, existsb (steered_turn a) turns with
        | Some runtimeId, true =>
            await (RequireControlled runtimeId) ≫= λ _, apply_to_turn runtimeId receipt a
        | _, _ => complete (deliveryId (request receipt)) (revision receipt) rejected
                    "external_turn_steer_precondition_changed" now
        end
  | _, _ => mret receipt
  end.

(** ** Reconciling the intents of a thread when its binding is resumed *)

Definition payload_deliveryId (e : LoggedEvent) : option string :=
  isPlainRecord (input_payload (logged e)) ≫= λ o, stringValue (member o "deliveryId").

Definition has_kind (k : steer_event_kind) (e : LoggedEvent) : bool := String.eqb (input_kind (logged e)) (kind_name k).

Definition acceptedDeliveryIds (events : list LoggedEvent) : list string :=
  omap payload_deliveryId (List.filter (has_kind external_turn_steer_input) events).

Definition open_intents (events : list LoggedEvent) : list LoggedEvent :=
  List.filter (λ e, has_kind external_turn_steer_intent e
                    && match isPlainRecord (input_payload (logged e)) with Some _ => true | None => false end
                    && negb (set_has (default "" (payload_deliveryId e)) (acceptedDeliveryIds events))) events.

Definition reconcile_intent (runtimeId : string) (itemIds : list string) (reconciled : Z) (intent : LoggedEvent) : Steer Z :=
  match payload_deliveryId intent with
  | None => mret reconciled
  | Some delivery =>
      found ← await (GetAgentMessageDelivery delivery);
      match found with
      | Some receipt =>
          match delivery_status receipt, activation receipt with
          | pending, Some (external_turn_steer_requested a) =>
              let clientUserMessageId := clientUserMessageId_of (request receipt) in
              (if set_has clientUserMessageId itemIds then
                 record_steer_event runtimeId receipt clientUserMessageId external_turn_steer_input ≫= λ _,
                 completeAcceptedSteerDelivery receipt
               else
                 now ← await Now;
                 complete delivery (revision receipt) rejected "external_turn_steer_outcome_unknown_after_restart" now) ≫= λ _,
              mret (reconciled + 1)
          | _, _ => mret reconciled
          end
      | None => mret reconciled
      end
  end.

Definition reconcileBindingSteerIntents (runtimeId threadId_ : string) (nativeThread : json) : Steer Z :=
  events ← queryThreadEvents runtimeId threadId_;
  match open_intents events with
  | [] => mret 0
  | intents =>
      native ← match nativeThread with JUndefined | JNull => await (ThreadRead threadId_) | v => mret v end;
      thread ← of_result (projectExternalThread native None None);
      for_each (reconcile_intent runtimeId (item_ids thread)) 0 intents
  end.
End Service.
