(* ===== verification/SteerDeliveryFacts.v ===== *)
(** * A steered message is handed over once and accepted only if it arrived

    The shared world of the operations of [SteerDelivery]: the receipts and the event log
    of the native bridge, the items the app server shows, and the steers it was asked for.
    Any number of operations run over it, their calls interleaved, any call rejected with
    or without its effect, any operation lost between two calls. *)

From stdpp Require Import sets list gmap strings relations sorting.
From S2P Require Import Prelude JsString Json JsonParse CodexText CodexEvents ThreadTurns AsyncCalls NativeThread SteerDelivery.
#[local] Open Scope Z_scope.
#[local] Arguments clientUserMessageId_of : simpl never.
#[local] Arguments intentEventId : simpl never.
#[local] Arguments associationEventId : simpl never.

(** ** The world *)

Record world := {
  deliveries : gmap string AgentMessageDeliveryReceipt;
  log : list LoggedEvent;
  native : list (string * string);
  steers : list string
}.

Definition with_deliveries (x : gmap string AgentMessageDeliveryReceipt) (w : world) : world :=
  {| deliveries := x; log := log w; native := native w; steers := steers w |}.
Definition with_log (x : list LoggedEvent) (w : world) : world :=
  {| deliveries := deliveries w; log := x; native := native w; steers := steers w |}.
Definition with_native (x : list (string * string)) (w : world) : world :=
  {| deliveries := deliveries w; log := log w; native := x; steers := steers w |}.
Definition asked (cid : string) (w : world) : world :=
  {| deliveries := deliveries w; log := log w; native := native w; steers := steers w ++ [cid] |}.

Definition steer_of (rc : AgentMessageDeliveryReceipt) : option SteerActivation :=
  match activation rc with Some (external_turn_steer_requested a) => Some a | _ => None end.

Abbreviation client := clientUserMessageId_of.

Definition on_thread (runtimeId thread : string) (e : LoggedEvent) : bool :=
  String.eqb (input_runtimeId (logged e)) runtimeId && String.eqb (input_threadId (logged e)) thread.

Definition page_of (w : world) (runtimeId thread : string) (after : Z) (limit : nat) : list LoggedEvent :=
  take limit (List.filter (λ e, on_thread runtimeId thread e && (after <? logged_sequence e)) (log w)).

(** [append_external_runtime_event_allocated]: an event that is there already is not
    recorded again, a new one gets a number beyond those of its runtime. *)
Definition records (ev : EventInput) (w w' : world) : Prop :=
  ((∃ e, e ∈ log w ∧ logged e = ev) ∧ w' = w) ∨
  (∃ n, 0 < n ∧ Forall (λ e, input_runtimeId (logged e) = input_runtimeId ev → logged_sequence e < n) (log w) ∧
        Forall (λ e, input_eventId (logged e) ≠ input_eventId ev) (log w) ∧
        w' = with_log (log w ++ [{| logged_sequence := n; logged := ev |}]) w).

Definition settled (c : Completion) (cur : AgentMessageDeliveryReceipt) : AgentMessageDeliveryReceipt :=
  {| request := request cur; activation := activation cur; delivery_status := completion_status c;
     reasonCode := Some (completion_reasonCode c); revision := revision cur + 1 |}.

(** [complete_agent_message_delivery]: a settled delivery is answered as it is. *)
Definition completes (c : Completion) (w : world) (rc : AgentMessageDeliveryReceipt) (w' : world) : Prop :=
  ∃ cur, deliveries w !! completion_deliveryId c = Some cur ∧
    ((delivery_status cur ≠ pending ∧ rc = cur ∧ w' = w) ∨
     (delivery_status cur = pending ∧ revision cur = expectedRevision c ∧ is_Some (steer_of cur) ∧
      completion_status c ≠ pending ∧ rc = settled c cur ∧
      w' = with_deliveries (<[completion_deliveryId c := settled c cur]> (deliveries w)) w)).

(** A thread the app server answers with shows only what it has. *)
Definition truthful (w : world) (thread : string) (v : json) : Prop :=
  ∀ t i, projectExternalThread v None None = Ok t → i ∈ item_ids t → (thread, i) ∈ native w.

Section World.
(** the runtime of a binding, which never changes *)
Context (binding_runtime : string → string).

(** What a call may do.  A call that is rejected may have had its effect, except a steer
    that the app server itself refuses. *)
Definition handles (B : Type) (e : SteerCall B) : world → outcome B → world → Prop :=
  match e in SteerCall B return world → outcome B → world → Prop with
  | GetExternalBinding b => λ w r w', w' = w ∧ ∀ rt, r = Value (Some rt) → rt = binding_runtime b
  | QueryExternalRuntimeEvents rt th after limit => λ w r w',
      w' = w ∧ ∀ page, r = Value page → page = page_of w rt th after limit
  | RecordExternalRuntimeEvent ev => λ w r w', records ev w w' ∨ (w' = w ∧ ∃ x, r = Raise x)
  | GetAgentMessageDelivery id => λ w r w', w' = w ∧ ∀ o, r = Value o → o = deliveries w !! id
  | CompleteAgentMessageDelivery c => λ w r w',
      match r with
      | Value rc => completes c w rc w'
      | Raise _ => w' = w ∨ ∃ rc, completes c w rc w'
      end
  | TurnSteer th turn cid input => λ w r w',
      match r with
      | Value _ => w' = with_native ((th, cid) :: native w) (asked cid w)
      | Raise (RpcError _) => w' = asked cid w
      | Raise (OtherError _) => w' = asked cid w ∨ w' = with_native ((th, cid) :: native w) (asked cid w)
      end
  | ThreadRead th => λ w r w', w' = w ∧ ∀ v, r = Value v → truthful w th v
  | _ => λ w r w', w' = w
  end.

(** What happens outside: a delivery is accepted by the bridge, another event is recorded,
    an item of another origin appears. *)
Inductive outside : world → world → Prop :=
| outside_delivery w rc :
    let d := deliveryId (request rc) in
    deliveries w !! d = None → delivery_status rc = pending →
    (∀ d' rc', deliveries w !! d' = Some rc' → messageId (request rc') ≠ messageId (request rc)) →
    Forall (λ e, input_eventId (logged e) ≠ intentEventId d ∧ input_eventId (logged e) ≠ associationEventId d ∧
                 payload_deliveryId e ≠ Some d) (log w) →
    (client (request rc) ∉ steers w) → (∀ th, (th, client (request rc)) ∉ native w) →
    outside w (with_deliveries (<[d := rc]> (deliveries w)) w)
| outside_event w ev w' :
    (∀ d, input_eventId ev ≠ intentEventId d ∧ input_eventId ev ≠ associationEventId d) →
    input_kind ev ≠ kind_name external_turn_steer_intent →
    records ev w w' → outside w w'
| outside_item w th i :
    (∀ r, i ≠ client r) → outside w (with_native ((th, i) :: native w) w).

(** ** The operations *)

Context (canResolveImages : bool) (rounds : nat).

(** Whether two operations for one delivery are kept apart. *)
Context (serial : bool).

Abbreviation process := (process (option DeliveryRequest) thrown SteerCall).

Inductive starts : world → process → Prop :=
| starts_apply w rc cur :
    deliveries w !! deliveryId (request rc) = Some cur → request cur = request rc → activation cur = activation rc →
    starts w (Process (Some (request rc)) (applyCoordinationDelivery canResolveImages rounds rc))
| starts_reconcile w runtimeId thread v :
    truthful w thread v →
    starts w (Process None (reconcileBindingSteerIntents rounds runtimeId thread v)).

Definition beside (t t' : option DeliveryRequest) : Prop :=
  match t, t' with
  | Some r, Some r' => serial = true → deliveryId r ≠ deliveryId r' ∧ messageId r ≠ messageId r'
  | _, _ => True
  end.

#[global] Instance beside_sym : Symmetric beside.
Proof. intros [r|] [r'|]; cbn; intuition congruence. Qed.

Definition empty_world : world := {| deliveries := ∅; log := []; native := []; steers := [] |}.

Definition reachable (w : world) : Prop := ∃ ps, rtc (step handles outside starts beside true) (empty_world, []) (w, ps).

(** ** The invariant *)

Definition STEER_REFUSED : string := "external_turn_steer_rejected".

Definition refused (rc : AgentMessageDeliveryReceipt) : Prop :=
  delivery_status rc = rejected ∧ reasonCode rc = Some STEER_REFUSED.

Definition intended (w : world) (d : string) (a : SteerActivation) : Prop :=
  ∃ e, e ∈ log w ∧ input_eventId (logged e) = intentEventId d ∧
       on_thread (binding_runtime (steer_bindingId a)) (steer_threadId a) e = true.

Definition ascending_on (rt : string) (l : list LoggedEvent) : Prop :=
  StronglySorted Z.lt (logged_sequence <$> List.filter (λ e, String.eqb (input_runtimeId (logged e)) rt) l).

(** [receipt_of w d rc a]: [rc] is the receipt of delivery [d], to be steered as [a] says. *)
Definition receipt_of (w : world) (d : string) (rc : AgentMessageDeliveryReceipt) (a : SteerActivation) : Prop :=
  deliveries w !! d = Some rc ∧ steer_of rc = Some a.

Record invariant (w : world) : Prop := {
  inv_keys : ∀ d rc, deliveries w !! d = Some rc → deliveryId (request rc) = d;
  inv_messages : ∀ d d' rc rc', deliveries w !! d = Some rc → deliveries w !! d' = Some rc' →
                                messageId (request rc) = messageId (request rc') → d = d';
  inv_order : ∀ rt, ascending_on rt (log w);
  inv_positive : Forall (λ e, 0 < logged_sequence e) (log w);
  inv_thread : ∀ d rc a e, receipt_of w d rc a → e ∈ log w → has_kind external_turn_steer_intent e = true →
                           payload_deliveryId e = Some d → input_threadId (logged e) = steer_threadId a;
  inv_association : ∀ d rc a e, receipt_of w d rc a → e ∈ log w → input_eventId (logged e) = associationEventId d →
                                (steer_threadId a, client (request rc)) ∈ native w;
  inv_accepted : ∀ d rc a, receipt_of w d rc a → delivery_status rc = accepted → (steer_threadId a, client (request rc)) ∈ native w;
  inv_intent : ∀ d rc a, receipt_of w d rc a → client (request rc) ∈ steers w → intended w d a;
  inv_native : ∀ d rc a th, receipt_of w d rc a → (th, client (request rc)) ∈ native w → client (request rc) ∈ steers w;
  inv_once : serial = true → NoDup (steers w);
  inv_refused : ∀ d rc a, receipt_of w d rc a → refused rc →
                  intended w d a ∧ (serial = true → (steer_threadId a, client (request rc)) ∉ native w)
}.

(** ** What an operation relies on and what its calls guarantee *)

Record grows (w w' : world) : Prop := {
  grows_log : log w ⊆ log w';
  grows_native : native w ⊆ native w';
  grows_steers : steers w ⊆ steers w';
  grows_deliveries : ∀ d rc, deliveries w !! d = Some rc →
    ∃ rc', deliveries w' !! d = Some rc' ∧ request rc' = request rc ∧ activation rc' = activation rc
}.

(** Nobody else steers the delivery, records its intent or reports it refused. *)
Record untouched (r : DeliveryRequest) (w w' : world) : Prop := {
  same_steers : client r ∈ steers w' → client r ∈ steers w;
  same_native : ∀ th, (th, client r) ∈ native w' → (th, client r) ∈ native w;
  same_intent : ∀ e, e ∈ log w' → input_eventId (logged e) = intentEventId (deliveryId r) → e ∈ log w;
  same_refusal : ∀ rc', deliveries w' !! deliveryId r = Some rc' → refused rc' →
                 ∃ rc, deliveries w !! deliveryId r = Some rc ∧ refused rc
}.

Definition rely (t : option DeliveryRequest) (w w' : world) : Prop :=
  grows w w' ∧ match t with Some r => serial = true → untouched r w w' | None => True end.

#[global] Instance grows_pre : PreOrder grows.
Proof.
  split.
  - intros w; split; try done; eauto.
  - intros w1 w2 w3 [] []; split; [set_solver|set_solver|set_solver|].
    intros d rc Hd; destruct (grows_deliveries0 _ _ Hd) as (rc' & Hd' & H1 & H2).
    destruct (grows_deliveries1 _ _ Hd') as (rc'' & Hd'' & H1' & H2'); exists rc''; split; [done|]; split; congruence.
Qed.

Lemma untouched_trans r w1 w2 w3 : untouched r w1 w2 → untouched r w2 w3 → untouched r w1 w3.
Proof.
  intros [s1 n1 i1 f1] [s2 n2 i2 f2]; split; [auto|auto|auto|].
  intros rc Hd Hf; destruct (f2 _ Hd Hf) as (rc' & Hd' & Hf'); eauto.
Qed.

#[global] Instance rely_pre t : PreOrder (rely t).
Proof.
  split.
  - intros w; split; [done|]; destruct t; [|done]; intros _; split; eauto.
  - intros w1 w2 w3 [G1 U1] [G2 U2]; split; [by transitivity w2|].
    destruct t; [|done]; intros Hs; eapply untouched_trans; eauto.
Qed.

Definition guard (t : option DeliveryRequest) (B : Type) (e : SteerCall B) (w : world) : Prop :=
  match e with
  | RecordExternalRuntimeEvent ev =>
      (∀ d rc a, receipt_of w d rc a → input_eventId ev = associationEventId d → (steer_threadId a, client (request rc)) ∈ native w) ∧
      (∀ d, input_eventId ev = intentEventId d → ∃ r, t = Some r ∧ deliveryId r = d) ∧
      (∀ d rc a, receipt_of w d rc a → input_kind ev = kind_name external_turn_steer_intent →
                 payload_deliveryId {| logged_sequence := 0; logged := ev |} = Some d → input_threadId ev = steer_threadId a)
  | CompleteAgentMessageDelivery c =>
      ∀ rc a, receipt_of w (completion_deliveryId c) rc a →
        (completion_status c = accepted → (steer_threadId a, client (request rc)) ∈ native w) ∧
        (completion_status c = rejected → completion_reasonCode c = STEER_REFUSED →
           intended w (completion_deliveryId c) a ∧ (∃ r, t = Some r ∧ deliveryId r = completion_deliveryId c) ∧
           (serial = true → (steer_threadId a, client (request rc)) ∉ native w))
  | TurnSteer th turn cid input =>
      ∃ r rc a, t = Some r ∧ receipt_of w (deliveryId r) rc a ∧ request rc = r ∧ cid = client r ∧ th = steer_threadId a ∧
                intended w (deliveryId r) a ∧ (serial = true → (cid ∉ steers w) ∧ ¬ refused rc)
  | _ => True
  end.
(** ** Names of events *)

Lemma intent_inj d d' : intentEventId d = intentEventId d' → d = d'.
Proof.
  intros H; apply chars_inj; apply (f_equal chars) in H; unfold intentEventId in H; rewrite !chars_app in H.
  by apply app_inv_tail in H.
Qed.

Lemma association_inj d d' : associationEventId d = associationEventId d' → d = d'.
Proof.
  intros H; apply chars_inj; apply (f_equal chars) in H; unfold associationEventId in H; rewrite !chars_app in H.
  by apply app_inv_tail in H.
Qed.

Lemma intent_not_association d d' : intentEventId d ≠ associationEventId d'.
Proof.
  intros H; apply (f_equal (λ s, take 2 (reverse (chars s)))) in H; unfold intentEventId, associationEventId in H.
  rewrite !chars_app, !reverse_app in H; by vm_compute in H.
Qed.

Lemma client_inj r r' : client r = client r' → messageId r = messageId r'.
Proof. unfold client; intros H; by injection H. Qed.

(** ** Each effect keeps the invariant *)

Lemma intended_grows w w' d a : grows w w' → intended w d a → intended w' d a.
Proof. intros G (e & He & ?); exists e; split; [by apply G|done]. Qed.

Lemma receipt_of_grows w w' d rc a :
  grows w w' → receipt_of w d rc a → ∃ rc', receipt_of w' d rc' a ∧ request rc' = request rc.
Proof.
  intros G [Hd Ha]; destruct (grows_deliveries _ _ G _ _ Hd) as (rc' & Hd' & Hr & Hact).
  exists rc'; split; [split; [done|]|done]; unfold steer_of in *; by rewrite Hact.
Qed.

Lemma records_grows ev w w' : records ev w w' → grows w w'.
Proof. intros [[_ ->]|(n & _ & _ & _ & ->)]; [done|]; split; cbn; [set_solver|done|done|eauto]. Qed.

Lemma ascending_on_snoc rt l e :
  ascending_on rt l → Forall (λ x, input_runtimeId (logged x) = input_runtimeId (logged e) → logged_sequence x < logged_sequence e) l →
  ascending_on rt (l ++ [e]).
Proof.
  unfold ascending_on; intros Hs Hf; rewrite List.filter_app; cbn; destruct (String.eqb_spec (input_runtimeId (logged e)) rt) as [<-|Hne].
  - rewrite fmap_app; apply StronglySorted_app; split; [|split; [done|repeat constructor]].
    intros x y Hx Hy; apply list_elem_of_fmap in Hx as (x' & -> & Hx); apply list_elem_of_singleton in Hy as ->.
    apply elem_of_List_filter in Hx as [Hx Hr]; rewrite Forall_forall in Hf; apply Hf; [done|by apply String.eqb_eq].
  - by rewrite app_nil_r.
Qed.

Lemma invariant_record t ev w w' :
  invariant w → guard t _ (RecordExternalRuntimeEvent ev) w → records ev w w' → invariant w'.
Proof.
  intros I (Hassoc & _ & Hth) Hrec; pose proof (records_grows _ _ _ Hrec) as G.
  destruct Hrec as [[_ ->]|(n & Hn & Hseq & _ & ->)]; [done|].
  destruct I as [keys msgs order positive thread assoc acc int nat once ref]; split; cbn.
  - done.
  - done.
  - intros rt; by apply ascending_on_snoc.
  - apply Forall_app; split; [done|]; by constructor.
  - intros d rc a e Hd [He| ->%list_elem_of_singleton]%elem_of_app Hk Hp; [by eapply thread|].
    apply String.eqb_eq in Hk; by apply (Hth d rc a).
  - intros d rc a e Hd [He| ->%list_elem_of_singleton]%elem_of_app Hk; [by eapply assoc|]; by apply (Hassoc d rc a).
  - done.
  - intros d rc a Hd Hc; eapply intended_grows; [done|]; by eapply int.
  - done.
  - done.
  - intros d rc a Hd Hr; destruct (ref d rc a Hd Hr) as [Hi Hs]; split; [by eapply intended_grows|done].
Qed.

Lemma steer_of_settled c cur : steer_of (settled c cur) = steer_of cur.
Proof. done. Qed.

Lemma completes_grows c w rc w' : completes c w rc w' → grows w w'.
Proof.
  intros (cur & Hc & [(_ & _ & ->)|(_ & _ & _ & _ & _ & ->)]); [done|]; split; cbn; [done|done|done|].
  intros d rc' Hd; destruct (decide (d = completion_deliveryId c)) as [->|Hne].
  - rewrite Hc in Hd; injection Hd as <-; eexists; rewrite lookup_insert_eq; done.
  - exists rc'; by rewrite lookup_insert_ne.
Qed.

(** A receipt after a completion is the one before it, or the settled one. *)
Lemma completed_receipt c cur w d rc a :
  deliveries w !! completion_deliveryId c = Some cur →
  receipt_of (with_deliveries (<[completion_deliveryId c := settled c cur]> (deliveries w)) w) d rc a →
  (d = completion_deliveryId c ∧ rc = settled c cur ∧ receipt_of w d cur a) ∨
  (d ≠ completion_deliveryId c ∧ receipt_of w d rc a).
Proof.
  intros Hc [Hd Ha]; cbn in Hd; destruct (decide (d = completion_deliveryId c)) as [->|Hne].
  - rewrite lookup_insert_eq in Hd; injection Hd as <-; left; done.
  - rewrite lookup_insert_ne in Hd by done; by right.
Qed.

Lemma invariant_complete t c w rc w' :
  invariant w → guard t _ (CompleteAgentMessageDelivery c) w → completes c w rc w' → invariant w'.
Proof.
  intros I Hg Hc; pose proof (completes_grows _ _ _ _ Hc) as G.
  destruct Hc as (cur & Hcur & [(_ & _ & ->)|(Hp & _ & _ & Hn & _ & ->)]); [done|].
  assert (∀ d x, <[completion_deliveryId c := settled c cur]> (deliveries w) !! d = Some x →
                 ∃ x', deliveries w !! d = Some x' ∧ request x' = request x) as Hold.
  { intros d x Hx; destruct (decide (d = completion_deliveryId c)) as [->|Hne].
    - rewrite lookup_insert_eq in Hx; injection Hx as <-; by exists cur.
    - rewrite lookup_insert_ne in Hx by done; by exists x. }
  destruct I as [keys msgs order positive thread assoc acc int nat once ref]; split; cbn; try done.
  - intros d x Hx; destruct (Hold d x Hx) as (x' & Hx' & <-); by apply keys.
  - intros d d' x y Hx Hy; destruct (Hold d x Hx) as (x' & Hx' & <-), (Hold d' y Hy) as (y' & Hy' & <-); by apply msgs.
  - intros d x a e [(-> & -> & Hr)|[_ Hr]]%completed_receipt; [by eapply thread|by eapply thread|done].
  - intros d x a e [(-> & -> & Hr)|[_ Hr]]%completed_receipt; [by eapply (assoc _ cur)|by eapply assoc|done].
  - intros d x a [(-> & -> & Hr)|[_ Hr]]%completed_receipt; [|by eapply acc|done].
    cbn; intros Hs; by apply (proj1 (Hg _ _ Hr)).
  - intros d x a [(-> & -> & Hr)|[_ Hr]]%completed_receipt; [by apply (int _ cur)|by eapply int|done].
  - intros d x a th [(-> & -> & Hr)|[_ Hr]]%completed_receipt; [by apply (nat _ cur _ _ Hr)|by eapply nat|done].
  - intros d x a [(-> & -> & Hr)|[_ Hr]]%completed_receipt; [|by eapply ref|done].
    intros [Hs Hre]; cbn in Hs, Hre; injection Hre as Hre; destruct (proj2 (Hg _ _ Hr) Hs Hre) as (? & _ & ?); done.
Qed.
Lemma steer_asked_grows w cid : grows w (asked cid w).
Proof. split; cbn; [done|done|set_solver|eauto]. Qed.

Lemma arrived_grows w th cid : grows w (with_native ((th, cid) :: native w) w).
Proof. split; cbn; [done|set_solver|done|eauto]. Qed.

(** Asking for a steer: nothing has arrived yet. *)
Lemma invariant_asked t th turn cid input w :
  invariant w → guard t _ (TurnSteer th turn cid input) w → invariant (asked cid w).
Proof.
  intros I (r & rc & a & _ & Hd & Hr & -> & _ & Hi & Hs).
  destruct I as [keys msgs order positive thread assoc acc int nat once ref]; split; cbn; try done.
  - intros d rc' a' Hd' [H| H%list_elem_of_singleton]%elem_of_app; [by eapply int|].
    apply client_inj in H; subst r; assert (d = deliveryId (request rc)) as ->.
    { destruct Hd as [Hl _], Hd' as [Hl' _]; by eapply msgs. }
    destruct Hd as [Hl Ha], Hd' as [Hl' Ha']; cbn in Hl'; replace a' with a by congruence; done.
  - intros d rc' a' th' Hd' H; apply elem_of_app; left; by eapply nat.
  - intros Hse; apply NoDup_app; split; [by apply once|]; split; [|apply NoDup_singleton].
    intros x Hx ->%list_elem_of_singleton; by apply (proj1 (Hs Hse)).
Qed.

(** Its arrival: the item was not there, and no refusal was reported. *)
Lemma invariant_arrived t th turn cid input w :
  invariant w → guard t _ (TurnSteer th turn cid input) w → invariant (with_native ((th, cid) :: native w) (asked cid w)).
Proof.
  intros I Hg; pose proof (invariant_asked _ _ _ _ _ _ I Hg) as I'; destruct Hg as (r & rc & a & _ & Hd & Hr & -> & -> & Hi & Hs).
  destruct I' as [keys msgs order positive thread assoc acc int nat once ref]; cbn in *; split; cbn; try done.
  - intros; right; by eapply assoc.
  - intros; right; by eapply acc.
  - intros d rc' a' th' Hd' [H|H]%elem_of_cons; [|by eapply nat].
    apply (f_equal snd) in H; cbn in H; rewrite H; set_solver.
  - intros d rc' a' Hd' Hf; destruct (ref d rc' a' Hd' Hf) as [Hi' Hn]; split; [done|]; intros Hse Hin.
    apply elem_of_cons in Hin as [H|Hin]; [|by apply Hn]; apply (f_equal snd) in H; cbn in H.
    apply client_inj in H; subst r.
    assert (d = deliveryId (request rc)) as -> by (destruct Hd, Hd'; by eapply msgs).
    destruct Hd as [Hl _], Hd' as [Hl' _]; cbn in Hl'; apply (proj2 (Hs Hse)); congruence.
Qed.

Lemma steer_effect t th turn cid input w r w' :
  invariant w → guard t _ (TurnSteer th turn cid input) w → handles _ (TurnSteer th turn cid input) w r w' →
  invariant w' ∧ (w' = asked cid w ∨ w' = with_native ((th, cid) :: native w) (asked cid w)).
Proof.
  intros I Hg; cbn; destruct r as [[]|[m|m]]; [intros ->|intros ->|intros [->| ->]]; (split; [|by auto]);
    eauto using invariant_asked, invariant_arrived.
Qed.

(** ** No effect disturbs another delivery's operation *)

Lemma record_untouched t ev w w' r :
  beside t (Some r) → serial = true → guard t _ (RecordExternalRuntimeEvent ev) w → records ev w w' → untouched r w w'.
Proof.
  intros Hb Hs (_ & Hint & _) [[_ ->]|(n & _ & _ & _ & ->)]; split; cbn; eauto.
  intros e [He| ->%list_elem_of_singleton]%elem_of_app Hid; [done|].
  destruct (Hint _ Hid) as (r' & -> & Hr); destruct (Hb Hs); congruence.
Qed.

Lemma complete_untouched t c w rc w' r :
  beside t (Some r) → serial = true → guard t _ (CompleteAgentMessageDelivery c) w → completes c w rc w' → untouched r w w'.
Proof.
  intros Hb Hs Hg (cur & Hc & [(_ & _ & ->)|(_ & _ & [a Ha] & _ & _ & ->)]); split; cbn; eauto.
  intros rc' Hd [Hst Hre]; destruct (decide (deliveryId r = completion_deliveryId c)) as [He|Hne].
  - rewrite He, lookup_insert_eq in Hd; injection Hd as <-; cbn in Hst, Hre; injection Hre as Hre.
    destruct (proj2 (Hg cur a (conj Hc Ha)) Hst Hre) as (_ & (r' & -> & Hr') & _); destruct (Hb Hs); congruence.
  - rewrite lookup_insert_ne in Hd by done; exists rc'; by repeat split.
Qed.

Lemma steer_untouched t th turn cid input w w' r :
  beside t (Some r) → serial = true → guard t _ (TurnSteer th turn cid input) w →
  w' = asked cid w ∨ w' = with_native ((th, cid) :: native w) (asked cid w) → untouched r w w'.
Proof.
  intros Hb Hs (r' & rc & a & -> & _ & _ & -> & _) Hw; destruct (Hb Hs) as [_ Hm].
  assert (client r ≠ client r') as Hne by (intros H%client_inj; congruence).
  destruct Hw as [->| ->]; split; cbn; eauto; set_solver.
Qed.

Lemma steer_call_keeps t B (e : SteerCall B) w r w' :
  invariant w → guard t B e w → handles B e w r w' → invariant w' ∧ ∀ t', beside t t' → rely t' w w'.
Proof.
  intros I Hg Hh.
  assert (w' = w → invariant w' ∧ ∀ t', beside t t' → rely t' w w') as Hread by (intros ->; split; [done|intros; reflexivity]).
  assert (invariant w' → grows w w' → (∀ r, beside t (Some r) → serial = true → untouched r w w') →
          invariant w' ∧ ∀ t', beside t t' → rely t' w w') as Hsum.
  { intros Hi G U; split; [done|]; intros [r'|] Hb; split; eauto. }
  destruct e; try (apply Hread; first [exact Hh|exact (proj1 Hh)]).
  - destruct Hh as [Hrec|[-> _]]; [|by apply Hread].
    apply Hsum; [by eapply invariant_record|by eapply records_grows|]; intros; by eapply record_untouched.
  - assert (w' = w ∨ ∃ rc, completes c w rc w') as [->|[rc Hc]] by (destruct r; eauto); [by apply Hread|].
    apply Hsum; [by eapply invariant_complete|by eapply completes_grows|]; intros; by eapply complete_untouched.
  - destruct (steer_effect _ _ _ _ _ _ _ _ I Hg Hh) as [I' Hw]; apply Hsum; [done| |].
    + destruct Hw as [->| ->]; [apply steer_asked_grows|]; transitivity (asked clientUserMessageId w); [apply steer_asked_grows|].
      apply (arrived_grows (asked clientUserMessageId w)).
    + intros; by eapply steer_untouched.
Qed.
(** ** What happens outside *)

Lemma new_delivery_keeps w rc :
  let d := deliveryId (request rc) in
  invariant w → deliveries w !! d = None → delivery_status rc = pending →
  (∀ d' rc', deliveries w !! d' = Some rc' → messageId (request rc') ≠ messageId (request rc)) →
  Forall (λ e, input_eventId (logged e) ≠ intentEventId d ∧ input_eventId (logged e) ≠ associationEventId d ∧
               payload_deliveryId e ≠ Some d) (log w) →
  (client (request rc) ∉ steers w) → (∀ th, (th, client (request rc)) ∉ native w) →
  invariant (with_deliveries (<[d := rc]> (deliveries w)) w).
Proof.
  intros d I Hd Hp Hm Hl Hs Hn; rewrite Forall_forall in Hl.
  assert (∀ d' rc' a, receipt_of (with_deliveries (<[d := rc]> (deliveries w)) w) d' rc' a →
            (d' = d ∧ rc' = rc) ∨ receipt_of w d' rc' a) as Hor.
  { intros d' rc' a [H Ha]; cbn in H; destruct (decide (d' = d)) as [->|Hne].
    - rewrite lookup_insert_eq in H; left; split; congruence.
    - rewrite lookup_insert_ne in H by done; by right. }
  destruct I as [keys msgs order positive thread assoc acc int nat once ref]; split; cbn; try done.
  - intros d' rc' [[<- <-]|[_ ?]]%lookup_insert_Some; [done|by apply keys].
  - intros d1 d2 r1 r2 [[<- <-]|[_ H1]]%lookup_insert_Some [[<- <-]|[_ H2]]%lookup_insert_Some He; [done| | |by eapply msgs].
    + by destruct (Hm _ _ H2).
    + by destruct (Hm _ _ H1).
  - intros d' rc' a e [[-> ->]|H]%Hor He Hk Hpay; [|by eapply thread]; by destruct (Hl _ He) as (_ & _ & ?).
  - intros d' rc' a e [[-> ->]|H]%Hor He Hid; [|by eapply assoc]; by destruct (Hl _ He) as (_ & ? & _).
  - intros d' rc' a [[-> ->]|H]%Hor Hac; [congruence|by eapply acc].
  - intros d' rc' a [[-> ->]|H]%Hor Hc; [done|by eapply int].
  - intros d' rc' a th [[-> ->]|H]%Hor Hc; [by destruct (Hn th)|by eapply nat].
  - intros d' rc' a [[-> ->]|H]%Hor Hf; [destruct Hf; congruence|by eapply ref].
Qed.

Lemma new_item_keeps w th i : invariant w → (∀ r, i ≠ client r) → invariant (with_native ((th, i) :: native w) w).
Proof.
  intros I Hi; destruct I as [keys msgs order positive thread assoc acc int nat once ref]; split; cbn; try done.
  - intros; right; by eapply assoc.
  - intros; right; by eapply acc.
  - intros d rc a th' Hd [H|H]%elem_of_cons; [|by eapply nat]; apply (f_equal snd) in H; cbn in H; by destruct (Hi (request rc)).
  - intros d rc a Hd Hf; destruct (ref d rc a Hd Hf) as [? Hn]; split; [done|]; intros Hs [H'|H']%elem_of_cons; [|by apply Hn].
    apply (f_equal snd) in H'; cbn in H'; by destruct (Hi (request rc)).
Qed.

Lemma steer_outside_keeps w w' : invariant w → outside w w' → invariant w' ∧ ∀ t, rely t w w'.
Proof.
  intros I; destruct 1 as [w rc d Hd Hp Hm Hl Hs Hn|w ev w' Hids Hk Hrec|w th i Hi].
  - split; [by apply new_delivery_keeps|].
    assert (grows w (with_deliveries (<[d := rc]> (deliveries w)) w)) as G.
    { split; cbn; [done|done|done|]; intros d' rc' H; exists rc'; split; [|done].
      by rewrite lookup_insert_ne by congruence. }
    intros [r|]; (split; [done|]); [|done]; intros _; split; cbn; try done.
    intros rc' [[He <-]|[_ H]]%lookup_insert_Some Hf; [destruct Hf; congruence|by exists rc'].
  - assert (guard None _ (RecordExternalRuntimeEvent ev) w) as Hg.
    { split; [|split]; intros d *; [by destruct (Hids d)|by destruct (Hids d)|done]. }
    split; [by eapply invariant_record|]; intros [r|]; (split; [by eapply records_grows|]); [|done].
    intros Hs; by apply (record_untouched None ev).
  - split; [by apply new_item_keeps|]; intros [r|]; (split; [apply arrived_grows|]); [|done].
    intros _; split; cbn; try done; [|eauto].
    intros th' [H|H]%elem_of_cons; [|done]; apply (f_equal snd) in H; cbn in H; by destruct (Hi r).
Qed.

(** ** Code that only reads *)

Abbreviation wp := (wp handles invariant rely guard).

Definition reading {B} (e : SteerCall B) : bool :=
  match e with
  | RecordExternalRuntimeEvent _ | CompleteAgentMessageDelivery _ | TurnSteer _ _ _ _ => false
  | _ => true
  end.

Fixpoint reads {A} (m : Steer A) : Prop :=
  match m with
  | Done _ | Endless => True
  | Await e k => reading e = true ∧ ∀ r, reads (k r)
  end.

Lemma reading_effect B (e : SteerCall B) w r w' : reading e = true → handles B e w r w' → w' = w.
Proof. destruct e; cbn; intros Hr Hh; try done; by destruct Hh. Qed.

Lemma wp_reads t {A} (m : Steer A) w : reads m → wp t m (λ _ w', rely t w w') w.
Proof.
  assert (∀ w0, rely t w0 w → reads m → wp t m (λ _ w', rely t w0 w') w) as H; [|by apply H].
  revert w; induction m as [r| |B e k IH]; intros w w0 Hw; cbn; [done|done|]; intros [He Hk] w' Hr Hi.
  split; [by destruct e|]; intros r w'' Hh _; rewrite (reading_effect _ _ _ _ _ He Hh); apply IH; [|done]; by transitivity w.
Qed.

Lemma reads_continue {A B} (m : Steer A) (k : outcome A → Steer B) : reads m → (∀ r, reads (k r)) → reads (continue m k).
Proof. induction m as [r| |C e k' IH]; cbn; intros Hm Hk; [done|done|]; destruct Hm; split; auto. Qed.

Lemma steer_reads_bind {A B} (m : Steer A) (f : A → Steer B) : reads m → (∀ a, reads (f a)) → reads (m ≫= f).
Proof. intros Hm Hf; apply reads_continue; [done|]; by intros [a|x]. Qed.
(** ** Reading the whole log of a thread *)

Lemma filter_sorted (p q : LoggedEvent → bool) l :
  (∀ e, q e = true → p e = true) →
  StronglySorted Z.lt (logged_sequence <$> List.filter p l) → StronglySorted Z.lt (logged_sequence <$> List.filter q l).
Proof.
  intros Hpq; induction l as [|e l IH]; cbn; [done|]; destruct (q e) eqn:Hq.
  - rewrite (Hpq e Hq); cbn; inversion 1 as [|x y Hs Hf]; subst; constructor; [by apply IH|].
    rewrite Forall_forall in Hf |- *; intros x (e' & -> & He')%list_elem_of_fmap; apply Hf, list_elem_of_fmap_2.
    apply elem_of_List_filter in He' as [? ?]; apply elem_of_List_filter; auto.
  - destruct (p e); cbn; [inversion 1; subst; by apply IH|by apply IH].
Qed.

(** What is not beyond the end of a prefix of an ascending list is in it. *)
Lemma prefix_complete n (F : list LoggedEvent) e l :
  StronglySorted Z.lt (logged_sequence <$> F) → last (take n F) = Some l → e ∈ F → logged_sequence e <= logged_sequence l →
  e ∈ take n F.
Proof.
  intros Hs Hl He Hle; rewrite <- (take_drop n F) in He, Hs; apply elem_of_app in He as [?|He]; [done|exfalso].
  rewrite fmap_app in Hs; apply StronglySorted_app in Hs as (Hlt & _ & _).
  specialize (Hlt (logged_sequence l) (logged_sequence e)); enough (logged_sequence l < logged_sequence e) by lia.
  apply Hlt; apply list_elem_of_fmap_2; [by apply last_Some_elem_of|done].
Qed.

Lemma reads_pages fuel rt th after acc : reads (query_event_pages fuel rt th after acc).
Proof.
  revert after acc; induction fuel as [|fuel IH]; intros after acc; [done|]; cbn [query_event_pages].
  apply steer_reads_bind; [done|]; intros page; destruct (_ <? _)%nat; [done|].
  destruct (last page) as [e|]; [|done]; destruct (_ <=? _); [done|apply IH].
Qed.

(** the events of [w0] that the pages read so far must hold *)
Definition read_up_to (w0 : world) (rt th : string) (after : Z) (acc : list LoggedEvent) : Prop :=
  ∀ e, e ∈ log w0 → on_thread rt th e = true → logged_sequence e <= after → e ∈ acc.

Lemma page_step w0 w rt th after acc :
  invariant w → log w0 ⊆ log w → read_up_to w0 rt th after acc →
  let page := page_of w rt th after event_page_limit in
  ((length page < event_page_limit)%nat → ∀ e, e ∈ log w0 → on_thread rt th e = true → e ∈ acc ++ page) ∧
  ∀ l, last page = Some l → after < logged_sequence l ∧ read_up_to w0 rt th (logged_sequence l) (acc ++ page).
Proof.
  intros I Hsub Hacc page; unfold page, page_of; set (F := List.filter _ _).
  assert (∀ e, e ∈ log w0 → on_thread rt th e = true → after < logged_sequence e → e ∈ F) as HF.
  { intros e He Ho Ha; apply elem_of_List_filter; split; [by apply Hsub|]; rewrite Ho; by apply Z.ltb_lt. }
  split.
  - intros Hlen e He Ho; apply elem_of_app; destruct (Z.le_gt_cases (logged_sequence e) after); [left; by apply Hacc|right].
    rewrite length_take in Hlen; rewrite take_ge by lia; apply HF; [done|done|lia].
  - intros l Hl; assert (l ∈ F) as HlF by (eapply subseteq_take, last_Some_elem_of, Hl).
    apply elem_of_List_filter in HlF as [_ Hpl]; apply andb_true_iff in Hpl as [_ Hpl]; apply Z.ltb_lt in Hpl; split; [done|].
    intros e He Ho Hle; apply elem_of_app; destruct (Z.le_gt_cases (logged_sequence e) after); [left; by apply Hacc|right].
    apply (prefix_complete _ _ _ l); [|done|apply HF; [done|done|lia]|done].
    eapply filter_sorted; [|apply (inv_order _ I rt)]; intros x Hx; by apply andb_true_iff in Hx as [[? _]%andb_true_iff _].
Qed.

Lemma wp_pages t fuel rt th w0 w after acc :
  rely t w0 w → (∀ e, e ∈ acc → e ∈ log w ∧ on_thread rt th e = true) → read_up_to w0 rt th after acc →
  wp t (query_event_pages fuel rt th after acc)
    (λ r w', rely t w0 w' ∧ ∀ events, r = Value events →
             invariant w' ∧ (∀ e, e ∈ events → e ∈ log w' ∧ on_thread rt th e = true) ∧ ∀ e, e ∈ log w0 → on_thread rt th e = true → e ∈ events) w.
Proof.
  revert w after acc; induction fuel as [|fuel IH]; intros w after acc Hr Hsub Hacc; [done|]; cbn [query_event_pages].
  apply wp_bind, wp_await; intros w' Hr' I; split; [done|]; intros o w'' [-> Hp] _.
  assert (rely t w0 w') as Hr0 by (by transitivity w); destruct o as [page|x]; [|split; [done|discriminate]].
  assert (page = page_of w' rt th after event_page_limit) as -> by (by apply Hp); clear Hp.
  destruct (page_step w0 w' rt th after acc I (grows_log _ _ (proj1 Hr0)) Hacc) as [Hshort Hlast].
  assert (∀ e, e ∈ acc ++ page_of w' rt th after event_page_limit → e ∈ log w' ∧ on_thread rt th e = true) as Hall.
  { intros e [He|He]%elem_of_app; [destruct (Hsub e He); split; [by apply (grows_log _ _ (proj1 Hr'))|done]|].
    unfold page_of in He; apply subseteq_take, elem_of_List_filter in He as [He [? _]%andb_true_iff]; done. }
  destruct (Nat.ltb_spec (length (page_of w' rt th after event_page_limit)) event_page_limit) as [Hlt|Hge].
  - split; [done|]; intros events [= <-]; split; [done|]; split; [done|by apply Hshort].
  - destruct (last _) as [l|] eqn:Hl.
    + destruct (Hlast l eq_refl) as [Hgt Hup]; destruct (Z.leb_spec (logged_sequence l) after); [lia|]; by apply IH.
    + apply last_None in Hl; rewrite Hl in Hge; cbn in Hge; unfold event_page_limit in Hge; lia.
Qed.

Lemma wp_queryThreadEvents t rt th w :
  invariant w →
  wp t (queryThreadEvents rounds rt th)
    (λ r w', rely t w w' ∧ ∀ events, r = Value events →
             invariant w' ∧ (∀ e, e ∈ events → e ∈ log w' ∧ on_thread rt th e = true) ∧ ∀ e, e ∈ log w → on_thread rt th e = true → e ∈ events) w.
Proof.
  intros I; apply wp_pages; [done|set_solver|]; intros e He _ Hle.
  pose proof (inv_positive _ I) as Hp; rewrite Forall_forall in Hp; specialize (Hp e He); lia.
Qed.
(** ** The steps of the operations *)

Definition mine (w : world) (r : DeliveryRequest) (a : SteerActivation) : Prop :=
  ∃ rc, receipt_of w (deliveryId r) rc a ∧ request rc = r.

Definition delivered (w : world) (r : DeliveryRequest) (a : SteerActivation) : Prop :=
  mine w r a ∧ (steer_threadId a, client r) ∈ native w.

Lemma mine_rely t w w' r a : rely t w w' → mine w r a → mine w' r a.
Proof.
  intros [G _] (rc & Hrc & Hr); destruct (receipt_of_grows _ _ _ _ _ G Hrc) as (rc' & ? & ?); exists rc'; split; congruence.
Qed.

Lemma delivered_rely t w w' r a : rely t w w' → delivered w r a → delivered w' r a.
Proof. intros R [Hm Hn]; split; [by eapply mine_rely|]; by apply (grows_native _ _ (proj1 R)). Qed.

Lemma mine_receipt w r a rc a' : mine w r a → receipt_of w (deliveryId r) rc a' → request rc = r ∧ a' = a.
Proof. intros (rc' & [Hl Ha] & Hr) [Hl' Ha']; assert (rc' = rc) as -> by congruence; split; congruence. Qed.

(** The world after a call, as the caller of the call knows it. *)
Lemma own_step t B (e : SteerCall B) w r w' :
  invariant w → guard t B e w → handles B e w r w' → grows w w'.
Proof. intros I Hg Hh; by apply (proj2 (steer_call_keeps t B e w r w' I Hg Hh) None); destruct t. Qed.

Lemma wp_completeAccepted t receipt a w :
  delivered w (request receipt) a → wp t (completeAcceptedSteerDelivery receipt) (λ _ _, True) w.
Proof.
  intros Hd; unfold completeAcceptedSteerDelivery; apply wp_bind, wp_await; intros w1 R1 I1; split; [done|].
  intros o w2 [-> Ho] _; destruct o as [found|]; [|done]; apply (delivered_rely _ _ _ _ _ R1) in Hd.
  destruct (proj1 Hd) as (rc & [Hl Ha] & Hr); rewrite (Ho _ eq_refl), Hl; cbn [default from_option].
  case_bool_decide; [done|]; apply wp_bind, wp_await; intros w3 R3 _; split; [done|].
  intros [now|] w4 -> _; [|done]; apply wp_await; intros w5 R5 _; split; [|done].
  apply (delivered_rely _ _ _ _ _ R3), (delivered_rely _ _ _ _ _ R5) in Hd.
  intros rc' a' Hrc'; cbn in Hrc'; rewrite Hr in Hrc'; split; [|done]; intros _.
  destruct (mine_receipt _ _ _ _ _ (proj1 Hd) Hrc') as [-> ->]; apply Hd.
Qed.

Lemma wp_record_steer_event t rt receipt a k (P : world → Prop) Q w :
  steer_of receipt = Some a → (∀ w w', rely t w w' → P w → P w') → P w →
  (∀ ev w, P w → invariant w → steerAssociationEvent rt receipt (client (request receipt)) k = Ok ev →
           guard t _ (RecordExternalRuntimeEvent ev) w) →
  (∀ ev r w w', P w → invariant w → steerAssociationEvent rt receipt (client (request receipt)) k = Ok ev →
                grows w w' → handles _ (RecordExternalRuntimeEvent ev) w r w' → Q r w') →
  wp t (record_steer_event rt receipt (client (request receipt)) k) Q w.
Proof.
  intros Ha Hs HP Hg HQ; unfold record_steer_event, steer_of in *.
  destruct (steerAssociationEvent _ _ _ _) as [ev|x] eqn:Hev.
  - cbn [of_result]; apply wp_bind; cbn; intros w1 R1 I1; assert (P w1) as HP1 by eauto; split; [by apply Hg|].
    intros r w2 Hh _; assert (Q r w2) as HQ2.
    { eapply (HQ ev r w1 w2); eauto; eapply own_step; eauto; by apply Hg. }
    by destruct r as [[]|].
  - unfold steerAssociationEvent in Hev; by destruct (activation receipt) as [[]|].
Qed.

Lemma association_event rt receipt a ev k :
  steer_of receipt = Some a → steerAssociationEvent rt receipt (client (request receipt)) k = Ok ev →
  input_eventId ev = steer_event_id (deliveryId (request receipt)) k ∧ input_kind ev = kind_name k ∧
  input_threadId ev = steer_threadId a ∧ input_runtimeId ev = rt ∧
  payload_deliveryId {| logged_sequence := 0; logged := ev |} = Some (deliveryId (request receipt)).
Proof.
  unfold steer_of, steerAssociationEvent; destruct (activation receipt) as [[]|]; try done.
  by intros [= <-] [= <-].
Qed.

Lemma wp_record_association t rt receipt a w :
  steer_of receipt = Some a → delivered w (request receipt) a →
  wp t (record_steer_event rt receipt (client (request receipt)) external_turn_steer_input)
    (λ _ w', delivered w' (request receipt) a) w.
Proof.
  intros Ha Hd; apply (wp_record_steer_event t rt receipt a _ (λ w, delivered w (request receipt) a)); [done| |done| |].
  - intros w1 w2; apply delivered_rely.
  - intros ev w1 Hd1 I1 Hev; destruct (association_event _ _ _ _ _ Ha Hev) as (Hid & Hk & _).
    change (steer_event_id _ _) with (associationEventId (deliveryId (request receipt))) in Hid.
    split; [|split].
    + intros d rc a' Hrc He; rewrite Hid in He; apply association_inj in He as <-.
      destruct (mine_receipt _ _ _ _ _ (proj1 Hd1) Hrc) as [-> ->]; apply Hd1.
    + intros d He; rewrite Hid in He; by destruct (intent_not_association d (deliveryId (request receipt))).
    + intros d rc a' _ He; rewrite Hk in He; discriminate.
  - intros ev r w1 w2 Hd1 _ _ G _; by apply (delivered_rely None w1); [split|].
Qed.
(** The delivery was never steered. *)
Definition unsteered (w : world) (r : DeliveryRequest) : Prop :=
  serial = true → (client r ∉ steers w) ∧ (∀ th, (th, client r) ∉ native w) ∧
                  ∀ rc, deliveries w !! deliveryId r = Some rc → ¬ refused rc.

Lemma unsteered_rely r w w' : rely (Some r) w w' → unsteered w r → unsteered w' r.
Proof.
  intros [_ U] Hu Hs; destruct (U Hs) as [us un _ uf], (Hu Hs) as (H1 & H2 & H3); split; [auto|]; split; [intros th ?; by eapply H2, un|].
  intros rc Hl Hf; destruct (uf rc Hl Hf) as (rc' & Hl' & Hf'); by apply (H3 rc').
Qed.

Lemma intended_rely t w w' d a : rely t w w' → intended w d a → intended w' d a.
Proof. intros [G _]; by apply intended_grows. Qed.

Lemma wp_any_reads t {A} (m : Steer A) w : reads m → wp t m (λ _ _, True) w.
Proof. intros Hm; eapply wp_mono; [|by apply wp_reads]; done. Qed.

Lemma reads_steer_failed receipt accepted_ error :
  accepted_ = true ∨ (∀ m, error ≠ RpcError m) → reads (steer_failed receipt accepted_ error).
Proof.
  intros H; apply steer_reads_bind; [by apply reads_continue; [|intros []]|].
  intros found; cbn beta zeta; case_bool_decide; [done|]; destruct accepted_; [done|]; destruct error as [m|m]; [|done].
  by destruct H as [?|H]; [|destruct (H m)].
Qed.

Lemma wp_steer_failed receipt a error w :
  mine w (request receipt) a → intended w (deliveryId (request receipt)) a →
  (serial = true → (steer_threadId a, client (request receipt)) ∉ native w) →
  wp (Some (request receipt)) (steer_failed receipt false error) (λ _ _, True) w.
Proof.
  intros Hm Hi Hn; destruct error as [m|m]; [|apply wp_any_reads, reads_steer_failed; by right].
  apply wp_bind; eapply wp_mono; [|apply wp_reads; by apply reads_continue; [|intros []]].
  intros [found|] w1 R1; [|done]; cbn beta zeta; case_bool_decide; [done|].
  apply wp_bind, wp_await; intros w2 R2 _; split; [done|]; intros [now|] w3 -> _; [|done].
  apply wp_await; intros w4 R4 _; split; [|done].
  assert (rely (Some (request receipt)) w w4) as R by (by transitivity w2; [transitivity w1|]).
  intros rc a' Hrc; cbn in Hrc; destruct (mine_receipt _ _ _ _ _ (mine_rely _ _ _ _ _ R Hm) Hrc) as [-> ->].
  split; [done|]; intros _ _; split; [by eapply intended_rely|]; split; [by exists (request receipt)|].
  intros Hs Hin; by apply (Hn Hs), (same_native _ _ _ (proj2 R Hs)).
Qed.

Lemma reads_images receipt : reads (resolveDeliveryInputImages canResolveImages rounds receipt).
Proof.
  unfold resolveDeliveryInputImages; destruct (imageAttachmentIds _) as [|i ids]; [done|].
  destruct (toSessionId _) as [session|]; [|done]; destruct canResolveImages; [|done]; apply steer_reads_bind.
  - unfold querySessionAttachments; generalize 0 at 1; generalize (@nil (list (string * json))).
    induction rounds as [|n IH]; intros l z; [done|]; apply steer_reads_bind; [done|]; intros [page [o|]]; [apply IH|done].
  - intros attachments; generalize (i :: ids); intros l; induction l as [|j l IH]; [done|]; cbn [promise_all fmap list_fmap].
    apply steer_reads_bind; [apply reads_continue; [|done]|].
    { unfold resolve_image; by destruct (_ ≫= _). }
    intros head; apply steer_reads_bind; [by apply reads_continue|]; intros tail; by destruct head, tail.
Qed.

Lemma wp_steer rt receipt a w :
  steer_of receipt = Some a → mine w (request receipt) a → intended w (deliveryId (request receipt)) a →
  unsteered w (request receipt) →
  wp (Some (request receipt)) (steer canResolveImages rounds rt receipt a (client (request receipt))) (λ _ _, True) w.
Proof.
  intros Ha Hm Hi Hu; set (t := Some (request receipt)).
  unfold steer; apply wp_bind, wp_attempt, wp_bind; eapply wp_mono; [|apply wp_reads, reads_images].
  intros [images|x] w1 R1; apply (mine_rely _ _ _ _ _ R1) in Hm; apply (intended_rely _ _ _ _ _ R1) in Hi;
    apply (unsteered_rely _ _ _ R1) in Hu.
  2: { apply (wp_steer_failed receipt a); [done|done|]; intros Hs; by apply Hu. }
  apply wp_await; intros w2 R2 I2; apply (mine_rely _ _ _ _ _ R2) in Hm; apply (intended_rely _ _ _ _ _ R2) in Hi;
    apply (unsteered_rely _ _ _ R2) in Hu.
  assert (guard t _ (TurnSteer (steer_threadId a) (steer_turnId a) (client (request receipt))
                       {| native_text := messageText a; native_images := images |}) w2) as Hg.
  { destruct Hm as (rc & Hrc & Hr); exists (request receipt), rc, a; repeat split; try done; [apply Hrc|apply Hrc|by apply Hu|].
    by apply Hu, Hrc. }
  split; [done|]; intros r w3 Hh _; pose proof (own_step _ _ _ _ _ _ I2 Hg Hh) as G.
  assert (rely None w2 w3) as R3 by done; apply (mine_rely _ _ _ _ _ R3) in Hm; apply (intended_rely _ _ _ _ _ R3) in Hi.
  destruct r as [[]|[m|m]].
  - cbn in Hh; apply wp_bind, wp_attempt; eapply wp_mono; [|apply (wp_record_association t rt receipt a); [done|]].
    + intros [[]|x] w4 Hd; [by eapply wp_completeAccepted|]; apply wp_any_reads, reads_steer_failed; by left.
    + split; [done|]; subst w3; by left.
  - apply (wp_steer_failed receipt a); [done|done|]; intros Hs; cbn in Hh; subst w3; by apply Hu.
  - apply wp_any_reads, reads_steer_failed; by right.
Qed.
Lemma shows_item_ids cid thread : shows_item cid thread = true → cid ∈ item_ids thread.
Proof.
  unfold shows_item, item_ids; intros (turn & Ht & (i & Hi & <-%String.eqb_eq)%existsb_exists)%existsb_exists.
  apply list_elem_of_In in Ht, Hi; apply list_elem_of_bind; exists turn; split; [|done]; by apply list_elem_of_fmap_2.
Qed.

(** The association of a message that is in its thread, and its acceptance. *)
Lemma wp_accept t rt receipt a Q w :
  steer_of receipt = Some a → delivered w (request receipt) a → (∀ r w, Q r w) →
  wp t (record_steer_event rt receipt (client (request receipt)) external_turn_steer_input ≫= λ _,
        completeAcceptedSteerDelivery receipt) Q w.
Proof.
  intros Ha Hd HQ; apply wp_bind; eapply wp_mono; [|by apply (wp_record_association t rt receipt a)].
  intros [[]|x] w1 Hd1; [|done]; eapply wp_mono; [|by eapply wp_completeAccepted]; done.
Qed.

Lemma wp_reconcileSteerIntent t rt receipt a w :
  steer_of receipt = Some a → mine w (request receipt) a →
  wp t (reconcileSteerIntent rt receipt (client (request receipt))) (λ _ _, True) w.
Proof.
  intros Ha Hm; unfold reconcileSteerIntent; assert (activation receipt = Some (external_turn_steer_requested a)) as ->.
  { unfold steer_of in Ha; destruct (activation receipt) as [[]|]; congruence. }
  apply wp_bind, wp_await; intros w1 R1 _; split; [done|]; intros [v|] w2 [-> Hv] _; [|done].
  destruct (projectExternalThread v None None) as [thread|x] eqn:Hp; [|done]; cbn [of_result]; apply wp_bind; cbn.
  destruct (shows_item _ thread) eqn:Hi; [|done]; apply (wp_accept t rt receipt a); [done| |done].
  split; [by eapply mine_rely|]; apply (Hv v eq_refl thread _ Hp), shows_item_ids, Hi.
Qed.

(** No intent in what was read: the delivery was never steered. *)
Lemma no_intent_unsteered w r a events :
  invariant w → mine w r a →
  (∀ e, e ∈ log w → on_thread (binding_runtime (steer_bindingId a)) (steer_threadId a) e = true → e ∈ events) →
  has_event events (intentEventId (deliveryId r)) = false → unsteered w r.
Proof.
  intros I (rc & Hrc & Hr) Hall Hno _; assert (¬ intended w (deliveryId r) a) as Hni.
  { intros (e & He & Hid & Ho); assert (has_event events (intentEventId (deliveryId r)) = true); [|congruence].
    apply existsb_exists; exists e; split; [apply list_elem_of_In; by apply Hall|by apply String.eqb_eq]. }
  assert (client r ∉ steers w) as Hns by (intros Hin; apply Hni; subst r; by eapply (inv_intent _ I)).
  split; [done|]; split; [|intros rc' Hl Hf; apply Hni].
  - intros th Hin; apply Hns; subst r; by eapply (inv_native _ I).
  - destruct Hrc as [Hl' Ha]; assert (rc' = rc) as -> by congruence; by apply (inv_refused _ I _ rc a).
Qed.

Lemma wp_record_intent receipt a w :
  let r := request receipt in
  steer_of receipt = Some a → mine w r a → unsteered w r →
  wp (Some r) (record_steer_event (binding_runtime (steer_bindingId a)) receipt (client r) external_turn_steer_intent)
    (λ o w', ∀ u, o = Value u → mine w' r a ∧ unsteered w' r ∧ intended w' (deliveryId r) a) w.
Proof.
  intros r Ha Hm Hu; apply (wp_record_steer_event _ _ receipt a _ (λ w, mine w r a ∧ unsteered w r)); [done| |done| |].
  - intros w1 w2 R [? ?]; split; [by eapply mine_rely|by eapply unsteered_rely].
  - intros ev w1 [Hm1 _] I1 Hev; destruct (association_event _ _ _ _ _ Ha Hev) as (Hid & Hk & Ht & _ & Hp).
    change (steer_event_id _ _) with (intentEventId (deliveryId r)) in Hid; split; [|split].
    + intros d rc a' _ He; rewrite Hid in He; by destruct (intent_not_association (deliveryId r) d).
    + intros d He; rewrite Hid in He; apply intent_inj in He as <-; by exists r.
    + intros d rc a' Hrc _ Hp'; rewrite Hp in Hp'; injection Hp' as <-.
      by destruct (mine_receipt _ _ _ _ _ Hm1 Hrc) as [_ ->].
  - intros ev o w1 w2 [Hm1 Hu1] I1 Hev G Hh [] ->; destruct (association_event _ _ _ _ _ Ha Hev) as (Hid & _ & Ht & Hrt & _).
    destruct Hh as [Hrec|[_ [x Hx]]]; [|done]; split; [by apply (mine_rely None w1); [split|]|].
    assert (deliveries w2 = deliveries w1 ∧ native w2 = native w1 ∧ steers w2 = steers w1 ∧
            ∃ e, e ∈ log w2 ∧ logged e = ev) as (Hd & Hn & Hs & e & He & Hle).
    { destruct Hrec as [[Hex ->]|(n & _ & _ & _ & ->)]; [done|]; repeat split; cbn; try done.
      eexists; split; [apply elem_of_app; right; by apply list_elem_of_singleton|done]. }
    split; [unfold unsteered; by rewrite Hd, Hn, Hs|]; exists e; rewrite Hle; split; [done|]; split; [done|].
    unfold on_thread; by rewrite Hle, Ht, Hrt, !String.eqb_refl.
Qed.

Lemma wp_apply_to_turn receipt a w :
  steer_of receipt = Some a → mine w (request receipt) a → invariant w →
  wp (Some (request receipt)) (apply_to_turn canResolveImages rounds (binding_runtime (steer_bindingId a)) receipt a)
    (λ _ _, True) w.
Proof.
  intros Ha Hm I; unfold apply_to_turn; cbn beta zeta; apply wp_bind, wp_attempt.
  eapply wp_mono; [|by apply wp_queryThreadEvents]; intros [events|x] w1 [R1 Hev]; [|done]; cbn beta iota.
  destruct (Hev events eq_refl) as (I1 & Hsub & Hall); pose proof (mine_rely _ _ _ _ _ R1 Hm) as Hm1.
  destruct (has_event events (associationEventId _)) eqn:Hassoc; [|destruct (has_event events (intentEventId _)) eqn:Hint].
  - apply existsb_exists in Hassoc as (e & He & Hid%String.eqb_eq); apply list_elem_of_In in He.
    eapply wp_completeAccepted; split; [done|]; destruct Hm1 as (rc & Hrc & <-).
    by eapply (inv_association _ I1); [|apply Hsub|].
  - by eapply wp_reconcileSteerIntent.
  - assert (unsteered w1 (request receipt)) as Hu1 by (eapply unsteered_rely; [done|by eapply no_intent_unsteered]).
    apply wp_bind, wp_attempt; eapply wp_mono; [|by apply (wp_record_intent receipt a)].
    intros [u|x] w2 H2; [|done]; destruct (H2 u eq_refl) as (? & ? & ?); by apply wp_steer.
Qed.
(** A completion that neither accepts nor reports a refusal is always allowed. *)
Lemma wp_settle t d rev s reason now Q w :
  s ≠ accepted → reason ≠ STEER_REFUSED → (∀ r w, Q r w) → wp t (complete d rev s reason now) Q w.
Proof. intros Hs Hr HQ; apply wp_await; intros w1 _ _; split; [|done]; intros rc a _; by split; cbn. Qed.

Lemma wp_apply receipt cur w :
  invariant w → deliveries w !! deliveryId (request receipt) = Some cur → request cur = request receipt →
  activation cur = activation receipt →
  wp (Some (request receipt)) (applyCoordinationDelivery canResolveImages rounds receipt) (λ _ _, True) w.
Proof.
  intros I Hl Hr Hact; unfold applyCoordinationDelivery; destruct (delivery_status receipt); try done.
  destruct (activation receipt) as [[| |a| |]|] eqn:Ha; try done.
  assert (steer_of receipt = Some a) as Hs by (unfold steer_of; by rewrite Ha).
  assert (mine w (request receipt) a) as Hm by (exists cur; split; [split; [done|unfold steer_of; by rewrite Hact]|done]).
  apply wp_bind, wp_await; intros w1 R1 _; split; [done|]; intros [now|] w1' -> _; [|done].
  destruct (string_le _ now); [by apply wp_settle|].
  apply wp_bind, wp_await; intros w2 R2 _; split; [done|]; intros [binding|] w2' [-> Hb] _; [|done].
  apply wp_bind, wp_await; intros w3 R3 _; split; [done|]; intros [turns|] w3' -> _; [|done].
  destruct binding as [rt|]; [|by apply wp_settle]; rewrite (Hb rt eq_refl).
  destruct (existsb (steered_turn a) turns); [|by apply wp_settle].
  apply wp_bind, wp_await; intros w4 R4 I4; split; [done|]; intros [[]|] w4' -> _; [|done].
  apply wp_apply_to_turn; [done| |done]; by do 4 (eapply mine_rely; [eassumption|]).
Qed.

Lemma wp_reconcile_intent rt itemIds reconciled e w0 w thread :
  e ∈ log w0 → has_kind external_turn_steer_intent e = true → input_threadId (logged e) = thread →
  (∀ i, i ∈ itemIds → (thread, i) ∈ native w0) → rely None w0 w →
  wp None (reconcile_intent rt itemIds reconciled e) (λ _ _, True) w.
Proof.
  intros He Hk Hth Hit R; unfold reconcile_intent; destruct (payload_deliveryId e) as [d|] eqn:Hp; [|done].
  apply wp_bind, wp_await; intros w1 R1 I1; split; [done|]; intros [found|] w1' [-> Hf] _; [|done].
  destruct found as [receipt|]; [|done]; destruct (delivery_status receipt); try done.
  destruct (activation receipt) as [[| |a| |]|] eqn:Ha; try done; cbn beta zeta; apply wp_bind.
  assert (steer_of receipt = Some a) as Hs by (unfold steer_of; by rewrite Ha); specialize (Hf _ eq_refl); symmetry in Hf.
  assert (rely None w0 w1) as R01 by (by transitivity w).
  assert (deliveryId (request receipt) = d) as Hd by (by apply (inv_keys _ I1)).
  assert (∀ (o : outcome AgentMessageDeliveryReceipt) (w' : world),
            match o with Value _ => wp None (mret (reconciled + 1)) (λ _ _, True) w' | Raise _ => True end) as Hrest by (by intros []).
  destruct (set_has _ itemIds) eqn:Hin.
  - apply (wp_accept None rt receipt a); [done| |done]; split; [by exists receipt; rewrite Hd|].
    apply set_has_true, Hit in Hin; apply (grows_native _ _ (proj1 R01)); rewrite <- Hth in Hin.
    by rewrite <- (inv_thread _ I1 d receipt a e); [|split|apply (grows_log _ _ (proj1 R01))| |].
  - apply wp_bind, wp_await; intros w2 _ _; split; [done|]; intros [now|] w2' -> _; [|done]; by apply wp_settle.
Qed.

Lemma wp_own_growth t {A} (m : Steer A) Q w : wp t m Q w → wp t m (λ r w', Q r w' ∧ rely None w w') w.
Proof.
  assert (∀ w0, rely None w0 w → wp t m Q w → wp t m (λ r w', Q r w' ∧ rely None w0 w') w) as H; [|by apply H].
  revert w; induction m as [r| |B e k IH]; intros w w0 R; cbn; [done|done|]; intros Hm w1 R1 I1.
  destruct (Hm w1 R1 I1) as [Hg Hk]; split; [done|]; intros r w2 Hh I2; apply IH; [|by apply Hk].
  split; [|done]; transitivity w1; [|by eapply own_step]; transitivity w; [apply R|apply R1].
Qed.

Lemma truthful_rely t w w' thread v : rely t w w' → truthful w thread v → truthful w' thread v.
Proof. intros [G _] Hv th i Hp Hi; by eapply (grows_native _ _ G), Hv. Qed.

Lemma wp_native_thread t thread v w :
  truthful w thread v →
  wp t (match v with JUndefined | JNull => await (ThreadRead thread) | v => mret v end)
    (λ o w', rely t w w' ∧ ∀ nv, o = Value nv → truthful w' thread nv) w.
Proof.
  intros Hv; destruct v; try (split; [done|]; intros nv [= <-]; done);
    apply wp_await; intros w1 R1 _; (split; [done|]); intros r w2 [-> Hr] _; by split.
Qed.

Lemma wp_reconcile_intents rt thread v w :
  invariant w → truthful w thread v → wp None (reconcileBindingSteerIntents rounds rt thread v) (λ _ _, True) w.
Proof.
  intros I Hv; unfold reconcileBindingSteerIntents; apply wp_bind; eapply wp_mono; [|by apply wp_queryThreadEvents].
  intros [events|] w1 [R1 Hev]; [|done]; destruct (Hev events eq_refl) as (I1 & Hsub & _).
  destruct (open_intents events) as [|e0 es] eqn:Ho; [done|]; rewrite <- Ho.
  assert (∀ e, e ∈ open_intents events → e ∈ log w1 ∧ has_kind external_turn_steer_intent e = true ∧
                                          input_threadId (logged e) = thread) as Hin.
  { intros e [He Hb]%elem_of_List_filter; destruct (Hsub e He) as [? [_ Ht]%andb_true_iff]; split; [done|].
    split; [by apply andb_true_iff in Hb as [[? _]%andb_true_iff _]|by apply String.eqb_eq]. }
  clear Ho; apply wp_bind; eapply wp_mono; [|apply wp_native_thread; by eapply truthful_rely].
  intros [nv|] w2 [R2 Hnv]; [|done]; cbn beta iota; apply wp_bind.
  destruct (projectExternalThread nv None None) as [shown|] eqn:Hp; [|done]; cbn [of_result].
  cbn [AsyncCalls.wp mret io_ret]; eapply wp_for_each with (P := λ w', rely None w2 w'); [done|done|].
  intros n e w3 He R3; destruct (Hin e He) as (Hl & Hk & Ht).
  eapply wp_mono; [|apply wp_own_growth; eapply (wp_reconcile_intent rt _ n e w2 w3 thread)]; try done.
  - intros r w4 [_ R4]; by transitivity w3.
  - by apply (grows_log _ _ (proj1 R2)).
  - intros i Hi; by eapply (Hnv nv eq_refl).
Qed.
(** ** The protocol *)

Lemma starts_well w (p : process) : invariant w → starts w p → wp (tag p) (code p) (λ _ _, True) w.
Proof. intros I; destruct 1; [by eapply wp_apply|by apply wp_reconcile_intents]. Qed.

Lemma empty_invariant : invariant empty_world.
Proof.
  assert (∀ d rc a, ¬ receipt_of empty_world d rc a) as Hno by (intros d rc a [H _]; cbn in H; by rewrite lookup_empty in H).
  split; cbn; try (intros *; by intros ?%Hno); try constructor; intros *; by rewrite lookup_empty.
Qed.

Lemma steer_reachable_invariant w : reachable w → invariant w.
Proof.
  intros [ps Hr]; exact (proj1 (pool_sound handles outside starts beside true invariant rely guard (λ _ _ _, True)
    steer_call_keeps steer_outside_keeps starts_well (λ _ _ _ _ _ _, I) empty_world (w, ps) empty_invariant Hr)).
Qed.

Lemma receipt_steer w d rc a :
  deliveries w !! d = Some rc → activation rc = Some (external_turn_steer_requested a) → receipt_of w d rc a.
Proof. intros Hl Ha; split; [done|]; unfold steer_of; by rewrite Ha. Qed.

(** C14. A message is reported as accepted only if it arrived: however the calls of any
    number of operations interleave, whichever calls fail and whichever operations are
    lost, a steered delivery whose receipt says "accepted" is an item that the app server
    has in the thread it was meant for, it was handed over by a steer, and the intent was
    on record for that. *)
Theorem steer_accepted_arrived w d rc a :
  reachable w → deliveries w !! d = Some rc → activation rc = Some (external_turn_steer_requested a) →
  delivery_status rc = accepted →
  (steer_threadId a, client (request rc)) ∈ native w ∧ client (request rc) ∈ steers w ∧ intended w d a.
Proof.
  intros I%steer_reachable_invariant Hl Ha Hst; pose proof (receipt_steer _ _ _ _ Hl Ha) as Hrc.
  assert ((steer_threadId a, client (request rc)) ∈ native w) as Hn by (by eapply (inv_accepted _ I)).
  assert (client (request rc) ∈ steers w) as Hs by (by eapply (inv_native _ I)).
  split; [done|]; split; [done|]; by eapply (inv_intent _ I).
Qed.

(** C12. A message is handed over at most once: when two operations for one delivery do not
    overlap, no message is ever steered a second time, through failures, lost operations,
    retries and reconciliations; and one whose receipt says that the app server refused it
    is in no thread. *)
Theorem steer_at_most_once w :
  serial = true → reachable w →
  NoDup (steers w) ∧
  ∀ d rc a, deliveries w !! d = Some rc → activation rc = Some (external_turn_steer_requested a) →
    delivery_status rc = rejected → reasonCode rc = Some STEER_REFUSED →
    (steer_threadId a, client (request rc)) ∉ native w.
Proof.
  intros Hs I%steer_reachable_invariant; split; [by apply (inv_once _ I)|].
  intros d rc a Hl Ha Hst Hre; by apply (inv_refused _ I d rc a (receipt_steer _ _ _ _ Hl Ha)).
Qed.
End World.
