(* ===== verification/SteerScenario.v ===== *)
(** * Runs of the steer protocol

    Schedules of operations of [SteerDelivery] against services that answer as they should
    except where the schedule loses a call: each is a run of the pool, so that the theorems
    of the protocol apply to where it leads.  Two runs show the limits of the protocol. *)

From stdpp Require Import sets list gmap strings relations.
From S2P Require Import Prelude JsString Json JsonParse CodexText CodexEvents ThreadTurns AsyncCalls NativeThread SteerDelivery SteerDeliveryFacts.
#[local] Open Scope Z_scope.

(** ** Equality of events *)

Fixpoint json_eqb (v v' : json) : bool :=
  match v, v' with
  | JUndefined, JUndefined | JNull, JNull => true
  | JBool b, JBool b' => Bool.eqb b b'
  | JNumber t, JNumber t' => String.eqb t t'
  | JString s, JString s' => String.eqb s s'
  | JArray l, JArray l' =>
      (fix go l l' := match l, l' with
                      | [], [] => true
                      | x :: l, x' :: l' => json_eqb x x' && go l l'
                      | _, _ => false
                      end) l l'
  | JObject o, JObject o' =>
      (fix go o o' := match o, o' with
                      | [], [] => true
                      | (k, x) :: o, (k', x') :: o' => String.eqb k k' && json_eqb x x' && go o o'
                      | _, _ => false
                      end) o o'
  | _, _ => false
  end.

Lemma json_eqb_eq v v' : json_eqb v v' = true → v = v'.
Proof.
  revert v'; induction v as [| |b|t|s|l IH|o IH] using json_nested_ind; intros v'; destruct v'; cbn; try done.
  - by intros ->%Bool.eqb_prop.
  - by intros ->%String.eqb_eq.
  - by intros ->%String.eqb_eq.
  - intros H; f_equal; revert l0 H; induction IH as [|x l Hx _ IH]; intros [|y l']; cbn; try done.
    intros [Hxy Hl]%andb_true_iff; f_equal; [by apply Hx|by apply IH].
  - intros H; f_equal; revert o0 H; induction IH as [|[k x] o Hx _ IH]; intros [|[k' y] o']; cbn; try done.
    intros [[Hk Hxy]%andb_true_iff Hl]%andb_true_iff; apply String.eqb_eq in Hk as ->; f_equal; [|by apply IH].
    f_equal; by apply Hx.
Qed.

Definition event_eqb (e e' : EventInput) : bool :=
  String.eqb (input_eventId e) (input_eventId e') && bool_decide (input_sessionId e = input_sessionId e') &&
  String.eqb (input_createdAt e) (input_createdAt e') && String.eqb (input_kind e) (input_kind e') &&
  String.eqb (input_runtimeId e) (input_runtimeId e') && String.eqb (input_threadId e) (input_threadId e') &&
  bool_decide (input_turnId e = input_turnId e') && bool_decide (input_itemId e = input_itemId e') &&
  bool_decide (input_requestId e = input_requestId e') && json_eqb (input_payload e) (input_payload e').

Lemma event_eqb_eq e e' : event_eqb e e' = true → e = e'.
Proof.
  unfold event_eqb; intros H; repeat apply andb_true_iff in H as [H ?].
  destruct e, e'; cbn in *; repeat match goal with
    | H : String.eqb _ _ = true |- _ => apply String.eqb_eq in H as ->
    | H : bool_decide _ = true |- _ => apply bool_decide_eq_true in H as ->
    | H : json_eqb _ _ = true |- _ => apply json_eqb_eq in H as ->
    end; done.
Qed.

(** ** Services that do their work *)

(** [now] is what the clock says, [running] the turns under way; [lost] rejects the call
    without an effect. *)
Section Services.
Context (runtime : string) (running : list RunningTurn).

Definition next_number (ev : EventInput) (l : list LoggedEvent) : Z :=
  fold_right (λ e n, Z.max (logged_sequence e + 1) n) 1 l.

Definition serve (lost : bool) (now : string) {B} (e : SteerCall B) (w : world) : outcome B * world :=
  match e in SteerCall B return outcome B * world with
  | Now => (Value now, w)
  | GetExternalBinding _ => (Value (Some runtime), w)
  | ListActiveExternalTurns => (Value running, w)
  | RequireControlled _ => (Value (), w)
  | QueryExternalRuntimeEvents rt th after limit => (Value (page_of w rt th after limit), w)
  | RecordExternalRuntimeEvent ev =>
      if lost then (Raise (OtherError "lost"), w)
      else match List.find (λ e, String.eqb (input_eventId (logged e)) (input_eventId ev)) (log w) with
           | Some e => if event_eqb (logged e) ev then (Value (), w) else (Raise (OtherError "conflict"), w)
           | None => (Value (), with_log (log w ++ [{| logged_sequence := next_number ev (log w); logged := ev |}]) w)
           end
  | GetAgentMessageDelivery id => (Value (deliveries w !! id), w)
  | CompleteAgentMessageDelivery c =>
      if lost then (Raise (OtherError "lost"), w)
      else match deliveries w !! completion_deliveryId c with
           | None => (Raise (OtherError "agent message delivery was not found"), w)
           | Some cur =>
               if bool_decide (delivery_status cur ≠ pending) then (Value cur, w)
               else if bool_decide (revision cur = expectedRevision c ∧ is_Some (steer_of cur) ∧ completion_status c ≠ pending)
               then (Value (settled c cur), with_deliveries (<[completion_deliveryId c := settled c cur]> (deliveries w)) w)
               else (Raise (OtherError "agent_message_delivery_revision_conflict"), w)
           end
  | TurnSteer th turn cid _ =>
      if lost then (Raise (RpcError "no active turn to steer"), asked cid w)
      else (Value (), with_native ((th, cid) :: native w) (asked cid w))
  | QueryAttachmentsPage _ _ => (Value ([], None), w)
  | ResolveInputImage _ _ => (Raise (OtherError "no images"), w)
  | ThreadRead _ => (Raise (OtherError "unavailable"), w)
  end.

Lemma next_number_beyond ev l : 0 < next_number ev l ∧ Forall (λ e, logged_sequence e < next_number ev l) l.
Proof.
  unfold next_number; induction l as [|e l [IH1 IH2]]; cbn; [split; [lia|constructor]|].
  split; [lia|]; constructor; [lia|]; eapply Forall_impl; [exact IH2|]; cbn; intros; lia.
Qed.

Lemma steer_serve_handles lost now B (e : SteerCall B) w :
  handles (λ _, runtime) B e w (serve lost now e w).1 (serve lost now e w).2.
Proof.
  destruct e; cbn; try done; try (split; [done|]; intros ? [= <-]; done).
  - destruct lost; cbn; [right; eauto|]; destruct (List.find _ _) as [x|] eqn:Hf.
    + apply List.find_some in Hf as [Hx _]; apply list_elem_of_In in Hx.
      destruct (event_eqb _ _) eqn:He; cbn; [left; left; split; [|done]; exists x; split; [done|by apply event_eqb_eq]|right; eauto].
    + left; right; destruct (next_number_beyond event (log w)) as [Hp Hb].
      eexists; split; [exact Hp|]; split; [by eapply Forall_impl; [exact Hb|]|]; split; [|done].
      apply Forall_forall; intros x Hx He; apply list_elem_of_In in Hx.
      pose proof (List.find_none _ _ Hf x Hx) as Hn; cbn in Hn; by apply String.eqb_neq in Hn.
  - destruct lost; cbn; [by left|]; destruct (deliveries w !! _) as [cur|] eqn:Hl; cbn; [|by left].
    case_bool_decide as Hs; cbn; [exists cur; split; [done|by left]|].
    case_bool_decide as Hr; cbn; [|by left]; exists cur; split; [done|]; right; destruct Hr as (? & ? & ?).
    split; [destruct (delivery_status cur); [done|by destruct Hs ..]|done].
  - by destruct lost.
Qed.

(** ** Schedules *)

Abbreviation pool := (pool (T := option DeliveryRequest) (X := thrown) (call := SteerCall) (W := world)).

Inductive action :=
| Begin (d : string)
| Call (i : nat) (lost : bool) (now : string)
| End.

Context (serial : bool).

Definition act (a : action) (s : pool) : option pool :=
  let '(w, ps) := s in
  match a with
  | Begin d =>
      match deliveries w !! d with
      | Some rc =>
          if bool_decide (deliveryId (request rc) = d) && (negb serial || match ps with [] => true | _ => false end)
          then Some (w, Process (Some (request rc)) (applyCoordinationDelivery false 1 rc) :: ps) else None
      | None => None
      end
  | Call i lost now =>
      match ps !! i with
      | Some (Process t (Await e k)) =>
          let '(r, w') := serve lost now e w in Some (w', Process t (k r) :: delete i ps)
      | _ => None
      end
  | End => match ps with _ :: rest => Some (w, rest) | [] => None end
  end.

Fixpoint run (acts : list action) (s : pool) : option pool :=
  match acts with
  | [] => Some s
  | a :: acts => act a s ≫= run acts
  end.

Abbreviation step := (step (handles (λ _, runtime)) outside (starts false 1) (beside serial) true).

Lemma steer_act_step a s s' : act a s = Some s' → step s s'.
Proof.
  destruct s as [w ps]; destruct a as [d|i lost now|]; cbn.
  - destruct (deliveries w !! d) as [rc|] eqn:Hl; [|done]; destruct (_ && _) eqn:Hb; [|done]; intros [= <-].
    apply andb_true_iff in Hb as [Hd%bool_decide_eq_true Hs]; constructor; [econstructor; [by rewrite Hd|done|done]|].
    destruct ps as [|p ps]; [done|]; apply orb_true_iff in Hs as [Hs|?]; [|done].
    apply Forall_forall; intros q _; destruct (tag q); cbn; [|done]; intros ->; done.
  - destruct (ps !! i) as [[t A [r| |B e k]]|] eqn:Hi; try done.
    destruct (serve lost now e w) as [r w'] eqn:Hs; intros [= <-].
    apply (step_call _ _ _ _ _ w w' ps (delete i ps) t A B e k r); [by apply delete_Permutation|].
    pose proof (steer_serve_handles lost now B e w) as H; by rewrite Hs in H.
  - destruct ps as [|p rest]; [done|]; intros [= <-]; apply step_end with p; auto.
Qed.

Lemma steer_run_steps acts s s' : run acts s = Some s' → rtc step s s'.
Proof.
  revert s; induction acts as [|a acts IH]; intros s; cbn; [by intros [= ->]|].
  intros (s1 & Ha%steer_act_step & Hr)%bind_Some; eapply rtc_l; [exact Ha|by apply IH].
Qed.
End Services.

(** ** A delivery *)

Definition example_request : DeliveryRequest :=
  {| deliveryId := "d"; messageId := "m"; toSessionId := Some "s"; createdAt := "2025-01-01T00:00:00.000Z";
     expiresAt := "2025-01-01T00:05:00.000Z"; imageAttachmentIds := [] |}.

Definition example_activation : SteerActivation :=
  {| steer_bindingId := "b"; messageText := "Hi"; steer_threadId := "th"; steer_turnId := "tu"; steer_requestId := "q" |}.

Definition example_receipt : AgentMessageDeliveryReceipt :=
  {| request := example_request; activation := Some (external_turn_steer_requested example_activation);
     delivery_status := pending; reasonCode := None; revision := 1 |}.

Definition example_turns : list RunningTurn :=
  [{| running_requestId := "q"; running_threadId := "th"; running_turnId := Some "tu"; running_phase := phase_active |}].

Definition example_world : world := with_deliveries {[ "d" := example_receipt ]} empty_world.

Abbreviation example_run serial acts := (run "rt" example_turns serial acts (example_world, [])).

Lemma example_start serial :
  rtc (step (handles (λ _, "rt")) outside (starts false 1) (beside serial) true) (empty_world, []) (example_world, []).
Proof.
  apply rtc_once, step_outside.
  apply (outside_delivery empty_world example_receipt); cbn; [done|done|intros d rc [=]|constructor|set_solver|set_solver].
Qed.

Lemma steer_run_reachable serial acts w ps :
  example_run serial acts = Some (w, ps) → reachable (λ _, "rt") false 1 serial w.
Proof. intros Hr; exists ps; etransitivity; [apply example_start|by eapply steer_run_steps]. Qed.

Definition noon : string := "2025-01-01T00:01:00.000Z".
Definition later : string := "2025-01-01T00:06:00.000Z".
Definition calls (n : nat) (now : string) : list action := repeat (Call 0 false now) n.

(** Where a run leads: the steers and the receipt of the delivery. *)
Definition seen (s : option (pool (T := option DeliveryRequest) (X := thrown) (call := SteerCall) (W := world)))
    : option (list string * list (string * string) * option (AgentMessageDeliveryStatus * option string)) :=
  (λ '(w, _), (steers w, native w, (λ rc, (delivery_status rc, reasonCode rc)) <$> deliveries w !! "d")) <$> s.

Definition final (s : option (pool (T := option DeliveryRequest) (X := thrown) (call := SteerCall) (W := world))) : world :=
  match s with Some (w, _) => w | None => empty_world end.

(** ** The protocol at work *)

(** The intent, the steer, its association and the acceptance. *)
Definition accepted_run : list action := Begin "d" :: calls 11 noon.

(** The answer to the association is lost; the next call finds the intent and leaves the
    delivery as it is. *)
Definition retried_run : list action :=
  Begin "d" :: calls 7 noon ++ [Call 0 true noon; Call 0 false noon; End; Begin "d"] ++ calls 6 noon.

Lemma steer_accepted_arrived_witness :
  seen (example_run false accepted_run)
    = Some (["rusty-crew:m"], [("th", "rusty-crew:m")], Some (accepted, Some "external_turn_steer_accepted")) ∧
  ("th", "rusty-crew:m") ∈ native (final (example_run false accepted_run)).
Proof.
  split; [vm_compute; reflexivity|].
  destruct (example_run false accepted_run) as [[w ps]|] eqn:Hr; [|vm_compute in Hr; discriminate].
  pose proof (steer_run_reachable _ _ _ _ Hr) as Hw.
  destruct (deliveries w !! "d") as [rc|] eqn:Hl; [|revert Hl; injection Hr as <- _; vm_compute; discriminate].
  assert (rc = {| request := example_request; activation := Some (external_turn_steer_requested example_activation);
                  delivery_status := accepted; reasonCode := Some "external_turn_steer_accepted"; revision := 2 |}) as ->
    by (revert Hl; injection Hr as <- _; vm_compute; by intros [= <-]).
  exact (proj1 (steer_accepted_arrived _ _ _ _ w "d" _ example_activation Hw Hl eq_refl eq_refl)).
Defined.

Lemma steer_at_most_once_witness :
  seen (example_run true retried_run) = Some (["rusty-crew:m"], [("th", "rusty-crew:m")], Some (pending, None)) ∧
  NoDup (steers (final (example_run true retried_run))).
Proof.
  split; [vm_compute; reflexivity|].
  destruct (example_run true retried_run) as [[w ps]|] eqn:Hr; [|vm_compute in Hr; discriminate].
  exact (proj1 (steer_at_most_once _ _ _ true w eq_refl (steer_run_reachable _ _ _ _ Hr))).
Defined.

(** ** The limits of the protocol *)

(** Two operations for one delivery that overlap: both read the log before either records
    the intent, the bridge takes the second record for a repetition of the first, and the
    message is steered twice. *)
Definition overlapping_run : list action :=
  [Begin "d"] ++ calls 5 noon ++ [Begin "d"] ++ calls 5 noon ++ calls 2 noon ++ [Call 1 false noon; Call 0 false noon].

Example overlap_steers_twice :
  seen (example_run false overlapping_run) =
  Some (["rusty-crew:m"; "rusty-crew:m"], [("th", "rusty-crew:m"); ("th", "rusty-crew:m")], Some (pending, None)).
Proof. vm_compute; reflexivity. Qed.

(** The expiry is looked at before the log: a message that was steered, and whose association
    was not recorded, is reported as expired before it was steered. *)
Definition expired_run : list action :=
  Begin "d" :: calls 7 noon ++ [Call 0 true noon; Call 0 false noon; End; Begin "d"] ++ calls 2 later.

Example steered_but_expired :
  seen (example_run true expired_run) =
  Some (["rusty-crew:m"], [("th", "rusty-crew:m")], Some (expired, Some "agent_message_expired_before_steer")).
Proof. vm_compute; reflexivity. Qed.
