(* ===== verification/TurnDispatch.v ===== *)
(** * The turns of external agents: dispatch, start and end

    [#dispatchAcceptedTurns], [#startAcceptedTurn], [#resolveCollaborationMode],
    [#sessionWorkspaceCwd], [#terminalizeDispatchFailure], [#applyTerminalEvent],
    [#reconcileBindingExternalTurns] and their helpers of
    [ts/packages/brain-island/src/service-external-runtime.ts].  A turn that the bridge has
    accepted is handed to the app server; what is known of it afterwards is its phase, which
    only the bridge changes, one transition at a time.

    The bridge, the driver and the settings that the controller keeps are calls, [TurnCall];
    the prompt context of a binding is one of them. *)

From stdpp Require Import sets list gmap strings.
From S2P Require Import Prelude JsString Json JsonParse CodexText CodexEvents ThreadTurns AsyncCalls NativeThread.

(** ** Data *)

(** [ExternalTurnInputPart]: text, an image, or a skill or fact by its type and as JSON. *)
Inductive turn_part :=
| part_text (t : string)
| part_image (url : string)
| part_other (type : string) (part : json).

Record TerminalError := {
  terminal_message : string;
  terminal_code : option string;
  terminal_details : option string;
  terminal_willRetry : option bool
}.

(** The members of [ExternalTurnCorrelation] that are read or change. *)
Record Turn := {
  turn_requestId : string;
  turn_bindingId : string;
  turn_sessionId : string;
  turn_runtimeId : string;
  turn_threadId : string;
  turn_mode : option string;
  turn_input : list turn_part;
  turn_phase : ExternalTurnPhase;
  turn_nativeId : option string;
  turn_reason : option string;
  turn_terminalError : option TerminalError
}.

Record Binding := {
  dispatch_bindingId : string;
  dispatch_status : string;
  dispatch_threadId : option string;
  dispatch_sessionId : option string
}.

Record ThreadSettings := {
  settings_model : string;
  settings_effort : option string;
  settings_instructions : option string
}.

Record Preset := { preset_mode : string; preset_model : option string; preset_effort : option string }.

Record CollaborationMode := { mode : string; mode_settings : ThreadSettings }.

Inductive native_part := native_text (t : string) | native_image (path : string).

Record TurnStartParams := {
  start_threadId : string;
  start_input : list native_part;
  start_cwd : string;
  start_mode : CollaborationMode
}.

Record Transition := {
  transition_requestId : string;
  nextPhase : ExternalTurnPhase;
  transition_nativeId : option string;
  transition_reason : option string;
  transition_error : option TerminalError
}.

(** What is thrown: [ExternalTurnDispatchError], or any other error by its message. *)
Inductive failure :=
| DispatchError (phase : ExternalTurnPhase) (reasonCode message : string)
| OtherFailure (message : string).

Definition message_of (x : failure) : string := match x with DispatchError _ _ m | OtherFailure m => m end.

(** [RuntimeReady] is whether a runtime is under control and its driver ready.  A turn start
    names the request it is made for, which the app server is not told. *)
Inductive TurnCall : Type → Type :=
| ListActiveExternalTurns : TurnCall (list Turn)
| RuntimeReady (runtimeId : string) : TurnCall bool
| GetBinding (bindingId : string) : TurnCall (option Binding)
| BindingPromptContext (b : Binding) : TurnCall (Binding * option (option string))
| GetThreadSettings (threadId : string) : TurnCall (option ThreadSettings)
| SetThreadSettings (threadId : string) (s : ThreadSettings) : TurnCall ()
| CollaborationModeList : TurnCall (list Preset)
| SessionCwd (sessionId : string) : TurnCall (option string)
| ResolveTurnImage (sessionId url : string) : TurnCall string
| TransitionExternalTurn (t : Transition) : TurnCall ()
| TurnStart (requestId : string) (p : TurnStartParams) : TurnCall string
| RecordDispatchFailure (requestId reasonCode message : string) : TurnCall ().

Abbreviation Dispatch := (Io failure TurnCall).

(** ** Preparing a turn *)

Definition resolveCollaborationMode (b : Binding) (mode_ : string) : Dispatch CollaborationMode :=
  presets ← await CollaborationModeList;
  match List.find (λ p, String.eqb (preset_mode p) mode_) presets with
  | None => raise (OtherFailure ("Codex app-server did not advertise the " +:+ mode_ +:+ " collaboration preset"))
  | Some preset =>
      await (GetThreadSettings (default "" (dispatch_threadId b))) ≫= λ current : option ThreadSettings,
      match or_else (preset_model preset) (settings_model <$> current) with
      | None => raise (OtherFailure ("Codex " +:+ mode_ +:+ " mode could not resolve the thread model"))
      | Some model =>
          mret {| mode := mode_;
                  mode_settings := {| settings_model := model;
                                      settings_effort := or_else (preset_effort preset) (current ≫= settings_effort);
                                      settings_instructions := current ≫= settings_instructions |} |}
      end
  end.

Definition sessionWorkspaceCwd (b : Binding) : Dispatch string :=
  match dispatch_sessionId b with
  | None => raise (OtherFailure ("external binding " +:+ dispatch_bindingId b +:+ " has no Crew session workspace authority"))
  | Some session =>
      cwd ← await (SessionCwd session);
      match cwd with
      | Some (String _ _ as c) => mret c
      | _ => raise (OtherFailure ("session_workspace_missing: session " +:+ session +:+ " has no canonical workspace"))
      end
  end.

Section Service.
(** [#resolveInputImage] is configured *)
Context (canResolveImages : bool).

Definition native_input (sessionId : string) (p : turn_part) : Dispatch native_part :=
  match p with
  | part_text t => mret (native_text t)
  | part_image url =>
      if canResolveImages then path ← await (ResolveTurnImage sessionId url); mret (native_image path)
      else raise (OtherFailure "external input image resolver is unavailable")
  | part_other type part => mret (native_text ("[" +:+ type +:+ "] " +:+ default "undefined" (stringify part)))
  end.

Definition with_instructions (i : option string) (s : ThreadSettings) : ThreadSettings :=
  {| settings_model := settings_model s; settings_effort := settings_effort s; settings_instructions := i |}.

(** The first part of [#startAcceptedTurn]: nothing has been sent yet. *)
Definition preflight (b : Binding) (turn : Turn) : Dispatch (Binding * CollaborationMode) :=
  '(current, instructions) ← await (BindingPromptContext b);
  match instructions with
  | None => mret ()
  | Some i =>
      settings ← await (GetThreadSettings (turn_threadId turn));
      match settings with
      | Some s => await (SetThreadSettings (turn_threadId turn) (with_instructions i s))
      | None => mret ()
      end
  end ≫= λ _,
  collaboration ← resolveCollaborationMode current (default "default" (turn_mode turn));
  mret (current, collaboration).

Definition transition (r : string) (p : ExternalTurnPhase) : Transition :=
  {| transition_requestId := r; nextPhase := p; transition_nativeId := None; transition_reason := None; transition_error := None |}.

(** The part of [#startAcceptedTurn] from which on the outcome may be unknown. *)
Definition start_native (b : Binding) (turn : Turn) (collaboration : CollaborationMode) : Dispatch () :=
  cwd ← sessionWorkspaceCwd b;
  parts ← promise_all (native_input (turn_sessionId turn) <$> turn_input turn);
  started ← await (TurnStart (turn_requestId turn)
                     {| start_threadId := turn_threadId turn; start_input := parts; start_cwd := cwd;
                        start_mode := collaboration |});
  await (TransitionExternalTurn
           {| transition_requestId := turn_requestId turn; nextPhase := phase_active; transition_nativeId := Some started;
              transition_reason := None; transition_error := None |}).

Definition startAcceptedTurn (b : Binding) (turn : Turn) : Dispatch () :=
  '(current, collaboration) ← catch (preflight b turn)
     (λ x, raise (DispatchError phase_failed "external_turn_preflight_failed" (message_of x)));
  await (TransitionExternalTurn (transition (turn_requestId turn) phase_starting)) ≫= λ _,
  catch (start_native current turn collaboration)
    (λ x, raise (DispatchError phase_outcome_unknown "external_turn_start_outcome_unknown" (message_of x))).

(** ** Dispatch *)

Definition terminalizeDispatchFailure (turn : Turn) (reasonCode message : string) (phase : ExternalTurnPhase) : Dispatch () :=
  await (TransitionExternalTurn
           {| transition_requestId := turn_requestId turn; nextPhase := phase; transition_nativeId := None;
              transition_reason := Some reasonCode; transition_error := None |}) ≫= λ _,
  catch (await (RecordDispatchFailure (turn_requestId turn) reasonCode (Str.slice message 0 2000))) (λ _, mret ()).

Definition start_failed (turn : Turn) (x : failure) : Dispatch () :=
  match x with
  | DispatchError phase reason m => terminalizeDispatchFailure turn reason m phase
  | OtherFailure m => terminalizeDispatchFailure turn "external_turn_start_failed" m phase_failed
  end.

Definition dispatch_turn (turn : Turn) : Dispatch () :=
  if bool_decide (turn_phase turn ≠ phase_accepted) then mret ()
  else
    ready ← await (RuntimeReady (turn_runtimeId turn));
    if ready : bool then
      binding ← await (GetBinding (turn_bindingId turn));
      match binding with
      | None =>
          terminalizeDispatchFailure turn "external_turn_binding_missing"
            ("external binding " +:+ turn_bindingId turn +:+ " was not found") phase_failed
      | Some b =>
          if String.eqb (dispatch_status b) "active" then catch (startAcceptedTurn b turn) (start_failed turn)
          else terminalizeDispatchFailure turn "external_turn_binding_not_active"
                 ("external binding " +:+ turn_bindingId turn +:+ " is " +:+ dispatch_status b) phase_failed
      end
    else mret ().

Definition dispatchAcceptedTurns : Dispatch () :=
  turns ← await ListActiveExternalTurns;
  for_each (λ _ turn, dispatch_turn turn) () turns.
End Service.

(** ** The end of a turn *)

(** [stringValue] of this file: a string that is not empty. *)
Definition someString (v : json) : option string := match v with JString (String _ _ as s) => Some s | _ => None end.

(** The members of [NormalizedExternalRuntimeEvent] that are read. *)
Record TurnEvent := {
  turn_event_kind : string;
  turn_event_runtimeId : string;
  turn_event_turnId : option string;
  turn_event_payload : json
}.

Definition payload_member (e : TurnEvent) (k : string) : json :=
  match isPlainRecord (turn_event_payload e) with Some o => member o k | None => JUndefined end.

Definition terminalPhase (e : TurnEvent) : option ExternalTurnPhase :=
  let source := default (turn_event_kind e) (someString (payload_member e "nativeMethod")) in
  if String.eqb source "turn/completed" then
    match someString (payload_member e "status") with
    | Some "interrupted" => Some phase_interrupted
    | Some "failed" => Some phase_failed
    | _ => Some phase_completed
    end
  else if String.eqb source "turn/interrupted" then Some phase_interrupted
  else if String.eqb source "turn/failed" then Some phase_failed
  else if String.eqb source "error" then
    match payload_member e "error" with
    | JObject o => match member o "willRetry" with JBool true => None | _ => Some phase_failed end
    | _ => Some phase_failed
    end
  else None.

Definition terminalError (e : TurnEvent) : option TerminalError :=
  match payload_member e "error" with
  | JObject o =>
      (λ m, {| terminal_message := m; terminal_code := someString (member o "code");
               terminal_details := someString (member o "additionalDetails");
               terminal_willRetry := match member o "willRetry" with JBool b => Some b | _ => None end |})
        <$> someString (member o "message")
  | _ => None
  end.

Definition phase_name (p : ExternalTurnPhase) : string :=
  match p with
  | phase_accepted => "accepted" | phase_starting => "starting" | phase_active => "active"
  | phase_waiting_interaction => "waiting_interaction" | phase_completed => "completed" | phase_failed => "failed"
  | phase_interrupted => "interrupted" | phase_outcome_unknown => "outcome_unknown"
  end.

Definition codex_end (r : string) (p : ExternalTurnPhase) (error : option TerminalError) : Transition :=
  {| transition_requestId := r; nextPhase := p; transition_nativeId := None;
     transition_reason := if bool_decide (p = phase_completed) then None else Some ("codex_" +:+ phase_name p);
     transition_error := error |}.

Definition applyTerminalEvent (e : TurnEvent) : Dispatch () :=
  match terminalPhase e, turn_event_turnId e with
  | Some phase, Some native =>
      turns ← await ListActiveExternalTurns;
      match List.find (λ t, String.eqb (turn_runtimeId t) (turn_event_runtimeId e)
                            && bool_decide (turn_nativeId t = Some native)) turns with
      | None => mret ()
      | Some turn => await (TransitionExternalTurn (codex_end (turn_requestId turn) phase (terminalError e)))
      end
  | _, _ => mret ()
  end.

(** ** Reconciling the turns of a binding with its native thread *)

Definition native_error (x : option TurnError) : option TerminalError :=
  (λ x, {| terminal_message := diagnostic_message (diagnostic x); terminal_code := diagnostic_code (diagnostic x);
           terminal_details := additionalDetails (diagnostic x); terminal_willRetry := willRetry x |}) <$> x.

Definition reconcile_native_turn (nativeTurns : jsmap string ExternalThreadTurnProjection) (reconciled : Z) (turn : Turn) : Dispatch Z :=
  match turn_nativeId turn with
  | None => mret reconciled
  | Some native =>
      match map_get native nativeTurns with
      | None => mret reconciled
      | Some shown =>
          match nativeTurnTerminalPhase (Some (turn_status shown)) with
          | None => mret reconciled
          | Some phase =>
              await (TransitionExternalTurn (codex_end (turn_requestId turn) phase (native_error (turn_error shown)))) ≫= λ _,
              mret (reconciled + 1)%Z
          end
      end
  end.

(** [candidates] is [None] where the source passes nothing. *)
Definition reconcileBindingExternalTurns (runtimeId bindingId : string) (nativeThread : json) (candidates : option (list Turn))
    : Dispatch Z :=
  activeTurns ← match candidates with Some l => mret l | None => await ListActiveExternalTurns end;
  match List.filter (λ t, String.eqb (turn_runtimeId t) runtimeId && String.eqb (turn_bindingId t) bindingId) activeTurns with
  | [] => mret 0%Z
  | matching =>
      match projectExternalThread nativeThread None None with
      | Throw m => raise (OtherFailure m)
      | Ok thread =>
          for_each (reconcile_native_turn (map_of_entries ((λ t, (turnId t, t)) <$> turns thread))) 0%Z matching
      end
  end.
