(* ===== verification/TurnDispatchFacts.v ===== *)
(** * A turn is started once, and what is reported as failed was never started

    The world of the operations of [TurnDispatch]: the turns as the bridge has them, the
    starts the app server was asked for and the native turns that came of them.  One
    dispatch runs at a time, as the controller's [#ticking] sees to; events of the app
    server, reconciliations and everything else that moves a turn may fall between any two
    of its calls, and any call may be rejected with or without its effect. *)

From stdpp Require Import sets list gmap strings relations.
From S2P Require Import Prelude JsString Json JsonParse CodexText CodexEvents ThreadTurns AsyncCalls NativeThread TurnDispatch.

(** ** Phases *)

Definition is_terminal (p : ExternalTurnPhase) : bool :=
  match p with phase_completed | phase_failed | phase_interrupted | phase_outcome_unknown => true | _ => false end.

Definition can_transition_to (current next : ExternalTurnPhase) : bool :=
  if bool_decide (current = next) then true
  else match current, next with
       | phase_accepted, (phase_starting | phase_failed | phase_interrupted) => true
       | phase_starting, (phase_active | phase_failed | phase_interrupted | phase_outcome_unknown) => true
       | phase_active, (phase_waiting_interaction | phase_completed | phase_failed | phase_interrupted
                        | phase_outcome_unknown) => true
       | phase_waiting_interaction, (phase_active | phase_failed | phase_interrupted | phase_outcome_unknown) => true
       | _, _ => false
       end.

(** ** The world *)

Record world := { table : gmap string Turn; started : list string; natives : list (string * string) }.

Definition with_table (x : gmap string Turn) (w : world) : world :=
  {| table := x; started := started w; natives := natives w |}.
Definition asked (r : string) (w : world) : world :=
  {| table := table w; started := started w ++ [r]; natives := natives w |}.
Definition with_native (r n : string) (w : world) : world :=
  {| table := table w; started := started w; natives := (r, n) :: natives w |}.

Definition applied (tr : Transition) (t : Turn) : Turn :=
  {| turn_requestId := turn_requestId t; turn_bindingId := turn_bindingId t; turn_sessionId := turn_sessionId t;
     turn_runtimeId := turn_runtimeId t; turn_threadId := turn_threadId t; turn_mode := turn_mode t;
     turn_input := turn_input t; turn_phase := nextPhase tr;
     turn_nativeId := or_else (transition_nativeId tr) (turn_nativeId t);
     turn_reason := transition_reason tr; turn_terminalError := transition_error tr |}.

(** [transition_external_turn_with_error] and [update_external_turn] of the core. *)
Definition transitions (tr : Transition) (w w' : world) : Prop :=
  ∃ cur, table w !! transition_requestId tr = Some cur ∧
    can_transition_to (turn_phase cur) (nextPhase tr) = true ∧
    ((is_terminal (turn_phase cur) = true ∧ w' = w) ∨
     (is_terminal (turn_phase cur) = false ∧
      (∀ n n', turn_nativeId cur = Some n → transition_nativeId tr = Some n' → n' = n) ∧
      w' = with_table (<[transition_requestId tr := applied tr cur]> (table w)) w)).

Definition plain {A} (r : outcome failure A) : Prop := match r with Raise (DispatchError _ _ _) => False | _ => True end.

Definition effect (B : Type) (e : TurnCall B) : world → outcome failure B → world → Prop :=
  match e in TurnCall B return world → outcome failure B → world → Prop with
  | ListActiveExternalTurns => λ w r w',
      w' = w ∧ ∀ l, r = Value l →
        NoDup (turn_requestId <$> l) ∧
        ∀ t, t ∈ l ↔ table w !! turn_requestId t = Some t ∧ is_terminal (turn_phase t) = false
  | TransitionExternalTurn tr => λ w r w',
      match r with Value _ => transitions tr w w' | Raise _ => w' = w ∨ transitions tr w w' end
  | TurnStart q p => λ w r w',
      match r with
      | Value n => w' = with_native q n (asked q w)
      | Raise _ => w' = asked q w ∨ ∃ n, w' = with_native q n (asked q w)
      end
  | _ => λ w r w', w' = w
  end.

(** What a call throws is an error of its own. *)
Definition handles (B : Type) (e : TurnCall B) (w : world) (r : outcome failure B) (w' : world) : Prop :=
  effect B e w r w' ∧ plain r.

(** The reasons a dispatch gives for a turn that it reports as failed. *)
Definition DISPATCH_FAILED : list string :=
  ["external_turn_binding_missing"; "external_turn_binding_not_active"; "external_turn_preflight_failed";
   "external_turn_start_failed"].

Definition reports_failure (p : ExternalTurnPhase) (reason : option string) : Prop :=
  p = phase_failed ∧ ∃ s, reason = Some s ∧ s ∈ DISPATCH_FAILED.

Definition dispatch_failed (t : Turn) : Prop := reports_failure (turn_phase t) (turn_reason t).

(** Outside, turns are accepted, and controls, interactions and the clock move them. *)
Inductive outside : world → world → Prop :=
| outside_turn w t :
    table w !! turn_requestId t = None → turn_phase t = phase_accepted → turn_nativeId t = None →
    (turn_requestId t ∉ started w) → (∀ n, (turn_requestId t, n) ∉ natives w) →
    outside w (with_table (<[turn_requestId t := t]> (table w)) w)
| outside_transition w tr w' :
    nextPhase tr ≠ phase_starting → nextPhase tr ≠ phase_completed → transition_nativeId tr = None →
    ¬ reports_failure (nextPhase tr) (transition_reason tr) →
    (nextPhase tr = phase_active → ∀ t, table w !! transition_requestId tr = Some t → turn_phase t ≠ phase_starting) →
    transitions tr w w' → outside w w'.

(** ** The operations *)

Inductive role := Dispatcher | Observer.

Definition beside (t t' : role) : Prop := match t, t' with Dispatcher, Dispatcher => False | _, _ => True end.

#[global] Instance beside_sym : Symmetric beside.
Proof. by intros [] []. Qed.

Section Runs.
Context (canResolveImages : bool).

Inductive starts : world → process role failure TurnCall → Prop :=
| starts_dispatch w : starts w (Process Dispatcher (dispatchAcceptedTurns canResolveImages))
| starts_event w e : starts w (Process Observer (applyTerminalEvent e))
| starts_reconcile w runtimeId bindingId v candidates :
    starts w (Process Observer (reconcileBindingExternalTurns runtimeId bindingId v candidates)).

Definition empty_world : world := {| table := ∅; started := []; natives := [] |}.

Definition reachable (w : world) : Prop := ∃ ps, rtc (step handles outside starts beside true) (empty_world, []) (w, ps).

(** ** The invariant *)

Definition known (p : ExternalTurnPhase) : bool :=
  match p with phase_active | phase_waiting_interaction | phase_completed => true | _ => false end.

Record invariant (w : world) : Prop := {
  inv_keys : ∀ r t, table w !! r = Some t → turn_requestId t = r;
  inv_started : ∀ r, r ∈ started w → ∃ t, table w !! r = Some t ∧ turn_phase t ≠ phase_accepted;
  inv_once : NoDup (started w);
  inv_failed : ∀ r t, table w !! r = Some t → dispatch_failed t → r ∉ started w;
  inv_native : ∀ r t n, table w !! r = Some t → turn_nativeId t = Some n → (r, n) ∈ natives w;
  inv_natives : ∀ r n, (r, n) ∈ natives w → r ∈ started w;
  inv_known : ∀ r t, table w !! r = Some t → known (turn_phase t) = true → is_Some (turn_nativeId t)
}.

Record grows (w w' : world) : Prop := {
  grows_table : ∀ r t, table w !! r = Some t →
    ∃ t', table w' !! r = Some t' ∧ (turn_phase t ≠ phase_accepted → turn_phase t' ≠ phase_accepted);
  grows_started : started w ⊆ started w';
  grows_natives : natives w ⊆ natives w'
}.

(** Nobody but the dispatcher starts a turn or reports one as failed to start. *)
Record undisturbed (w w' : world) : Prop := {
  same_started : started w' ⊆ started w;
  same_failed : ∀ r t', table w' !! r = Some t' → dispatch_failed t' → ∃ t, table w !! r = Some t ∧ dispatch_failed t
}.

Definition rely (t : role) (w w' : world) : Prop :=
  grows w w' ∧ match t with Dispatcher => undisturbed w w' | Observer => True end.

#[global] Instance grows_pre : PreOrder grows.
Proof.
  split; [intros w; split; eauto|].
  intros w1 w2 w3 [t1 s1 n1] [t2 s2 n2]; split; [|set_solver|set_solver].
  intros r t Ht; destruct (t1 _ _ Ht) as (t' & Ht' & Hp); destruct (t2 _ _ Ht') as (t'' & Ht'' & Hp'); eauto.
Qed.

#[global] Instance undisturbed_pre : PreOrder undisturbed.
Proof.
  split; [intros w; split; eauto|].
  intros w1 w2 w3 [s1 f1] [s2 f2]; split; [set_solver|].
  intros r t Ht Hf; destruct (f2 _ _ Ht Hf) as (t' & Ht' & Hf'); eauto.
Qed.

#[global] Instance rely_pre t : PreOrder (rely t).
Proof.
  split; [intros w; split; [done|by destruct t]|].
  intros w1 w2 w3 [G1 U1] [G2 U2]; split; [by transitivity w2|]; destruct t; [by transitivity w2|done].
Qed.

Definition guard (t : role) (B : Type) (e : TurnCall B) (w : world) : Prop :=
  match e with
  | TransitionExternalTurn tr =>
      (reports_failure (nextPhase tr) (transition_reason tr) → t = Dispatcher ∧ (transition_requestId tr ∉ started w)) ∧
      (∀ n, transition_nativeId tr = Some n → (transition_requestId tr, n) ∈ natives w) ∧
      (nextPhase tr = phase_active → is_Some (transition_nativeId tr))
  | TurnStart r p =>
      t = Dispatcher ∧ (r ∉ started w) ∧
      ∃ x, table w !! r = Some x ∧ turn_phase x ≠ phase_accepted ∧ ¬ dispatch_failed x
  | _ => True
  end.

(** ** Each effect keeps the invariant *)

Lemma transition_from_accepted p q : can_transition_to p q = true → p ≠ phase_accepted → q ≠ phase_accepted.
Proof. by destruct p, q. Qed.

Lemma transitions_grows tr w w' : transitions tr w w' → grows w w'.
Proof.
  intros (cur & Hc & Hp & [[_ ->]|(_ & _ & ->)]); [done|]; split; cbn; [|done|done].
  intros r t Ht; destruct (decide (r = transition_requestId tr)) as [->|Hne].
  - rewrite Hc in Ht; injection Ht as <-; rewrite lookup_insert_eq; eexists; split; [done|]; cbn.
    by apply transition_from_accepted.
  - exists t; by rewrite lookup_insert_ne.
Qed.

(** What may be assumed of a transition from either source. *)
Definition sound_transition (tr : Transition) (w : world) : Prop :=
  (reports_failure (nextPhase tr) (transition_reason tr) → transition_requestId tr ∉ started w) ∧
  (∀ n, transition_nativeId tr = Some n → (transition_requestId tr, n) ∈ natives w) ∧
  (∀ cur, table w !! transition_requestId tr = Some cur → turn_phase cur = phase_starting → nextPhase tr = phase_active →
          is_Some (transition_nativeId tr)).

Lemma known_before p q : can_transition_to p q = true → known q = true → known p = true ∨ (p = phase_starting ∧ q = phase_active).
Proof. destruct p, q; cbn; auto. Qed.

Lemma invariant_transition tr w w' : invariant w → sound_transition tr w → transitions tr w w' → invariant w'.
Proof.
  intros I (Hf & Hn & Hk) (cur & Hc & Hp & [[_ ->]|(_ & _ & ->)]); [done|].
  destruct I as [keys starts_ once failed nat nats kn]; split; cbn; [| |done| | |done|].
  - intros r t [[<- <-]|[_ H]]%lookup_insert_Some; [cbn; by apply keys|by apply keys].
  - intros r Hr; destruct (starts_ r Hr) as (t & Ht & Hpt); destruct (decide (r = transition_requestId tr)) as [->|Hne].
    + rewrite Hc in Ht; injection Ht as <-; rewrite lookup_insert_eq; eexists; split; [done|]; cbn.
      by eapply transition_from_accepted.
    + exists t; by rewrite lookup_insert_ne.
  - intros r t [[<- <-]|[_ H]]%lookup_insert_Some Hd; [by apply Hf|by eapply failed].
  - intros r t n [[<- <-]|[_ H]]%lookup_insert_Some; [|by eapply nat]; cbn; unfold or_else.
    destruct (transition_nativeId tr) eqn:He; [intros [= <-]; by apply Hn|by eapply nat].
  - intros r t [[<- <-]|[_ H]]%lookup_insert_Some; [|by eapply kn]; cbn; intros Hq; unfold or_else.
    destruct (known_before _ _ Hp Hq) as [Hkc|[Hs Hqa]].
    + destruct (transition_nativeId tr); [done|by apply (kn _ _ Hc)].
    + destruct (Hk cur Hc Hs Hqa) as [n ->]; done.
Qed.
Lemma asked_effect r w n :
  invariant w → (r ∉ started w) → (∃ t, table w !! r = Some t ∧ turn_phase t ≠ phase_accepted ∧ ¬ dispatch_failed t) →
  invariant (asked r w) ∧ invariant (with_native r n (asked r w)).
Proof.
  intros I Hr (t & Ht & Hp & Hd); assert (invariant (asked r w)) as I'.
  { destruct I as [keys starts_ once failed nat nats kn]; split; cbn; try done.
    - intros r' [?| ->%list_elem_of_singleton]%elem_of_app; eauto.
    - apply NoDup_app; split; [done|]; split; [|apply NoDup_singleton]; by intros x Hx ->%list_elem_of_singleton.
    - intros r' t' Ht' Hf [Hin| ->%list_elem_of_singleton]%elem_of_app; [by eapply failed|]; congruence.
    - intros r' n' Hn; apply elem_of_app; left; eauto. }
  split; [done|]; destruct I' as [keys starts_ once failed nat nats kn]; split; cbn in *; try done.
  - intros r' t' n' Ht' Hn'; right; eauto.
  - intros r' n' [[= -> ->]|Hn]%elem_of_cons; [set_solver|eauto].
Qed.

Lemma start_asked_grows r w n : grows w (asked r w) ∧ grows w (with_native r n (asked r w)).
Proof. split; split; cbn; eauto; set_solver. Qed.

Lemma transition_undisturbed tr w w' :
  (reports_failure (nextPhase tr) (transition_reason tr) → False) → transitions tr w w' → undisturbed w w'.
Proof.
  intros Hf (cur & Hc & Hp & [[_ ->]|(_ & _ & ->)]); split; cbn; eauto.
  intros r t [[<- <-]|[_ H]]%lookup_insert_Some Hd; [by destruct Hf|eauto].
Qed.

Lemma guarded_sound t tr w : guard t _ (TransitionExternalTurn tr) w → sound_transition tr w.
Proof. intros (Hf & Hn & Ha); split; [intros H; by apply Hf|]; split; [done|]; auto. Qed.

Lemma turn_call_keeps t B (e : TurnCall B) w r w' :
  invariant w → guard t B e w → handles B e w r w' → invariant w' ∧ ∀ t', beside t t' → rely t' w w'.
Proof.
  intros I Hg [Hh _].
  assert (w' = w → invariant w' ∧ ∀ t', beside t t' → rely t' w w') as Hread by (intros ->; split; [done|intros; reflexivity]).
  destruct e; try (apply Hread; first [exact Hh|exact (proj1 Hh)]).
  - assert (w' = w ∨ transitions t0 w w') as [->|Htr] by (destruct r; cbn in Hh; eauto); [by apply Hread|].
    split; [eapply invariant_transition; [done|by eapply guarded_sound|done]|].
    intros t' Hb; split; [by eapply transitions_grows|]; destruct t'; [|done]; eapply transition_undisturbed; [|done].
    intros Hf; by destruct (proj1 Hg Hf) as [-> _].
  - destruct Hg as (-> & Hn & Hx); split.
    + destruct r as [n|x]; [cbn in Hh; subst w'; by apply asked_effect|].
      destruct Hh as [->|[n ->]]; [by apply (asked_effect _ _ EmptyString)|by apply asked_effect].
    + intros [] Hb; [done|]; split; [|done]; destruct r as [n|x]; [cbn in Hh; subst w'; by apply start_asked_grows|].
      destruct Hh as [->|[n ->]]; [by apply (start_asked_grows _ _ EmptyString)|by apply start_asked_grows].
Qed.

Lemma turn_outside_keeps w w' : invariant w → outside w w' → invariant w' ∧ ∀ t, rely t w w'.
Proof.
  intros I; destruct 1 as [w t Ht Hp Hn Hs Hns|w tr w' H1 H2 Hn Hf Ha Htr].
  - split.
    + destruct I as [keys starts_ once failed nat nats kn]; split; cbn; try done.
      * intros r x [[<- <-]|[_ H]]%lookup_insert_Some; eauto.
      * intros r Hr; destruct (starts_ r Hr) as (x & Hx & Hpx); exists x; rewrite lookup_insert_ne; [done|congruence].
      * intros r x [[<- <-]|[_ H]]%lookup_insert_Some Hd; [done|eauto].
      * intros r x n [[<- <-]|[_ H]]%lookup_insert_Some Hx; [congruence|eauto].
      * intros r x [[<- <-]|[_ H]]%lookup_insert_Some Hx; [by rewrite Hp in Hx|eauto].
    + assert (grows w (with_table (<[turn_requestId t := t]> (table w)) w)) as G.
      { split; cbn; [|done|done]; intros r x Hx; exists x; rewrite lookup_insert_ne; [done|congruence]. }
      intros []; (split; [done|]); [|done]; split; cbn; [done|].
      intros r x [[<- <-]|[_ H]]%lookup_insert_Some Hd; [|eauto]; destruct Hd as [Hd _]; congruence.
  - split.
    + eapply invariant_transition; [done| |done]; split; [by intros ?%Hf|]; split; [congruence|].
      intros cur Hc Hst Hac; by destruct (Ha Hac cur Hc).
    + intros []; (split; [by eapply transitions_grows|]); [|done]; by eapply transition_undisturbed.
Qed.

(** ** What a dispatch knows of a turn it has not started *)

Abbreviation wp := (wp handles invariant rely guard).

Definition unstarted (w : world) (r : string) : Prop :=
  (r ∉ started w) ∧ is_Some (table w !! r) ∧ ∀ t, table w !! r = Some t → ¬ dispatch_failed t.

Lemma unstarted_rely w w' r : rely Dispatcher w w' → unstarted w r → unstarted w' r.
Proof.
  intros [G [Us Uf]] (Hs & [t Ht] & Hf); split; [set_solver|]; split.
  - destruct (grows_table _ _ G _ _ Ht) as (t' & -> & _); eauto.
  - intros t' Ht' Hd; destruct (Uf _ _ Ht' Hd) as (t'' & Ht'' & Hd'); by eapply Hf.
Qed.

(** A call that moves no turn. *)
Definition quiet {B} (e : TurnCall B) : bool :=
  match e with TransitionExternalTurn _ | TurnStart _ _ => false | _ => true end.

Fixpoint quiets {A} (m : Dispatch A) : Prop :=
  match m with Done _ => True | Endless => False | Await e k => quiet e = true ∧ ∀ r, quiets (k r) end.

Lemma quiets_continue {A B} (m : Dispatch A) (k : outcome failure A → Dispatch B) :
  quiets m → (∀ r, quiets (k r)) → quiets (continue m k).
Proof. induction m as [r| |C e k' IH]; cbn; intros Hm Hk; [done|done|]; destruct Hm; split; auto. Qed.

Lemma quiets_bind {A B} (m : Dispatch A) (f : A → Dispatch B) : quiets m → (∀ a, quiets (f a)) → quiets (m ≫= f).
Proof. intros Hm Hf; apply quiets_continue; [done|]; by intros [a|x]. Qed.

Lemma quiets_all {A} (ms : list (Dispatch A)) : Forall quiets ms → quiets (promise_all ms).
Proof.
  induction 1 as [|m ms Hm _ IH]; [done|]; cbn [promise_all]; apply quiets_bind; [by apply quiets_continue|].
  intros head; apply quiets_bind; [by apply quiets_continue|]; intros tail; by destruct head, tail.
Qed.

Lemma wp_quiets t {A} (m : Dispatch A) w : quiets m → wp t m (λ _ w', rely t w w') w.
Proof.
  assert (∀ w0, rely t w0 w → quiets m → wp t m (λ _ w', rely t w0 w') w) as H; [|by apply H].
  revert w; induction m as [r| |B e k IH]; intros w w0 Hw; cbn; [done|done|]; intros [He Hk] w' Hr Hi.
  split; [by destruct e|]; intros r w'' [Hh _] _; assert (w'' = w') as -> by (destruct e; try done; by destruct Hh).
  apply IH; [|done]; by transitivity w.
Qed.
(** ** The frame: what is done for one turn leaves the others unstarted *)

Definition target {B} (e : TurnCall B) : option string :=
  match e with TransitionExternalTurn tr => Some (transition_requestId tr) | TurnStart r _ => Some r | _ => None end.

Fixpoint targets (r : string) {A} (m : Dispatch A) : Prop :=
  match m with Done _ | Endless => True | Await e k => (target e = None ∨ target e = Some r) ∧ ∀ x, targets r (k x) end.

Lemma targets_continue r {A B} (m : Dispatch A) (k : outcome failure A → Dispatch B) :
  targets r m → (∀ x, targets r (k x)) → targets r (continue m k).
Proof. induction m as [x| |C e k' IH]; cbn; intros Hm Hk; [done|done|]; destruct Hm; split; auto. Qed.

Lemma targets_bind r {A B} (m : Dispatch A) (f : A → Dispatch B) :
  targets r m → (∀ a, targets r (f a)) → targets r (m ≫= f).
Proof. intros Hm Hf; apply targets_continue; [done|]; by intros [a|x]. Qed.

Lemma quiets_targets r {A} (m : Dispatch A) : quiets m → targets r m.
Proof. induction m as [x| |B e k IH]; cbn; [done|done|]; intros [He Hk]; split; [left; by destruct e|auto]. Qed.

Lemma step_unstarted B (e : TurnCall B) w o w' r r' :
  handles B e w o w' → (target e = None ∨ target e = Some r) → r' ≠ r → unstarted w r' → unstarted w' r'.
Proof.
  intros [Hh _] Ht Hne (Hs & [x Hx] & Hf).
  assert (w' = w → unstarted w' r') as Hread by (intros ->; split; [done|]; split; eauto).
  destruct e; try (apply Hread; first [exact Hh|exact (proj1 Hh)]); destruct Ht as [[=]|[= <-]].
  - assert (w' = w ∨ transitions t w w') as [->|Htr] by (destruct o; cbn in Hh; eauto); [by apply Hread|].
    destruct Htr as (cur & Hc & _ & [[_ ->]|(_ & _ & ->)]); [by apply Hread|].
    split; [done|]; cbn; rewrite lookup_insert_ne by done; eauto.
  - assert (w' = asked requestId w ∨ ∃ n, w' = with_native requestId n (asked requestId w)) as Hw
      by (destruct o; cbn in Hh; eauto).
    destruct Hw as [->|[n ->]]; (split; [cbn; set_solver|]); cbn; eauto.
Qed.

Lemma wp_other_turns r r' {A} (m : Dispatch A) Q w :
  targets r m → r' ≠ r → unstarted w r' → wp Dispatcher m Q w → wp Dispatcher m (λ x w', Q x w' ∧ unstarted w' r') w.
Proof.
  intros Ht Hne; revert w; induction m as [x| |B e k IH]; intros w Hu; cbn; [done|done|]; intros Hm w1 R1 I1.
  destruct Ht as [He Hk]; destruct (Hm w1 R1 I1) as [Hg Hn]; split; [done|]; intros x w2 Hh I2.
  apply IH; [done| |by apply Hn]; eapply step_unstarted; [done|done|done|by eapply unstarted_rely].
Qed.

(** ** One turn *)

Lemma wp_terminalize r reason m p turn w :
  turn_requestId turn = r → p ≠ phase_active → (reports_failure p (Some reason) → unstarted w r) →
  wp Dispatcher (terminalizeDispatchFailure turn reason m p) (λ _ _, True) w.
Proof.
  intros Hr Hp Hu; apply wp_bind, wp_await; intros w1 R1 _; split.
  - split; [|split; [done|intros Ha; by destruct Hp]]; cbn; rewrite Hr; intros Hf; split; [done|].
    by apply (unstarted_rely _ _ _ R1 (Hu Hf)).
  - intros [[]|x] w2 _ _; [|done]; eapply wp_mono; [|apply wp_quiets; by apply quiets_continue; [|intros []]]; done.
Qed.

Lemma quiets_preflight b turn : quiets (preflight b turn).
Proof.
  apply quiets_bind; [done|]; intros [current instructions]; apply quiets_bind.
  - destruct instructions; [|done]; apply quiets_bind; [done|]; by intros [].
  - intros _; apply quiets_bind; [|done]; apply quiets_bind; [done|]; intros presets.
    destruct (List.find _ presets); [|done]; apply quiets_bind; [done|]; intros settings; by destruct (or_else _ _).
Qed.

Lemma quiets_cwd b : quiets (sessionWorkspaceCwd b).
Proof. unfold sessionWorkspaceCwd; destruct (dispatch_sessionId b); [|done]; apply quiets_bind; [done|]; by intros [[]|]. Qed.

Lemma quiets_inputs session parts : quiets (promise_all (native_input canResolveImages session <$> parts)).
Proof.
  apply quiets_all, Forall_fmap, Forall_true; intros [t|url|type part]; [done| |done]; unfold native_input.
  destruct canResolveImages; [|done]; by apply quiets_bind.
Qed.

Lemma wp_start_native b turn c w :
  unstarted w (turn_requestId turn) →
  (∃ t, table w !! turn_requestId turn = Some t ∧ turn_phase t ≠ phase_accepted) →
  wp Dispatcher (start_native canResolveImages b turn c) (λ _ _, True) w.
Proof.
  intros Hu (t & Ht & Hp); apply wp_bind; eapply wp_mono; [|apply wp_quiets, quiets_cwd].
  intros [cwd|x] w1 R1; [|done]; apply wp_bind; eapply wp_mono; [|apply wp_quiets, quiets_inputs].
  intros [parts|x] w2 R2; [|done]; apply wp_bind, wp_await; intros w3 R3 I3.
  assert (rely Dispatcher w w3) as R by (by transitivity w2; [transitivity w1|]); split.
  - destruct (grows_table _ _ (proj1 R) _ _ Ht) as (t' & Ht' & Hp'); destruct (unstarted_rely _ _ _ R Hu) as (Hs & _ & Hf).
    split; [done|]; split; [done|]; exists t'; eauto.
  - intros [n|x] w4 [Hh _] _; [|done]; cbn in Hh; apply wp_await; intros w5 R5 _; split; [|done]; split; [by intros [? _]|].
    split; [|by eexists]; intros n' [= <-]; apply (grows_natives _ _ (proj1 R5)); subst w4; by left.
Qed.

Lemma wp_startAcceptedTurn b turn w :
  unstarted w (turn_requestId turn) →
  wp Dispatcher (catch (startAcceptedTurn canResolveImages b turn) (start_failed turn)) (λ _ _, True) w.
Proof.
  intros Hu; apply wp_continue, wp_bind, wp_continue; eapply wp_mono; [|apply wp_quiets, quiets_preflight].
  intros [[current c]|x] w1 R1; cbn beta iota; apply (unstarted_rely _ _ _ R1) in Hu.
  2: { by apply (wp_terminalize (turn_requestId turn)). }
  apply wp_bind, wp_await; intros w2 R2 I2; apply (unstarted_rely _ _ _ R2) in Hu; split.
  { split; [by intros [? _]|]; split; by cbn. }
  intros [[]|x] w3 [Hh Hpl] _; cbn beta iota.
  - apply wp_continue; assert (unstarted w3 (turn_requestId turn) ∧
      ∃ t, table w3 !! turn_requestId turn = Some t ∧ turn_phase t ≠ phase_accepted) as [Hu3 Ht3].
    { destruct Hh as (cur & Hc & Hp & [[Ht ->]|(_ & _ & ->)]); cbn in Hc.
      - by destruct (turn_phase cur).
      - split; [|eexists; cbn; rewrite lookup_insert_eq; done]; destruct Hu as (Hs & _ & _); split; [done|]; cbn.
        rewrite lookup_insert_eq; split; [done|]; intros t [= <-] [Hd _]; done. }
    eapply wp_mono; [|by apply wp_start_native]; intros [[]|x] w4 _; [done|].
    apply (wp_terminalize (turn_requestId turn)); [done|done|]; by intros [? _].
  - destruct x as [| m]; [done|]; apply (wp_terminalize (turn_requestId turn)); [done|done|]; intros _.
    destruct Hh as [->|(cur & Hc & Hp & [[_ ->]|(_ & _ & ->)])]; [done|done|].
    destruct Hu as (Hs & _ & _); split; [done|]; cbn; rewrite lookup_insert_eq; split; [done|].
    by intros t [= <-] [Hd _].
Qed.
Lemma wp_dispatch_turn turn w :
  (turn_phase turn = phase_accepted → unstarted w (turn_requestId turn)) →
  wp Dispatcher (dispatch_turn canResolveImages turn) (λ _ _, True) w.
Proof.
  intros Hu; unfold dispatch_turn; case_bool_decide as Hp; [done|].
  assert (unstarted w (turn_requestId turn)) as Hu' by (apply Hu; destruct (turn_phase turn); [done|by destruct Hp ..]).
  clear Hu Hp; apply wp_bind, wp_await; intros w1 R1 _; split; [done|]; intros [[]|] w1' [Hw _] _; cbn in Hw; subst w1'; [|done|done].
  apply wp_bind, wp_await; intros w2 R2 _; split; [done|]; intros [binding|] w2' [Hw _] _; cbn in Hw; subst w2'; [|done].
  apply (unstarted_rely _ _ _ R1), (unstarted_rely _ _ _ R2) in Hu'.
  destruct binding as [b|]; [|by apply (wp_terminalize (turn_requestId turn))].
  destruct (String.eqb _ _); [by apply wp_startAcceptedTurn|by apply (wp_terminalize (turn_requestId turn))].
Qed.

Lemma targets_terminalize turn reason m p : targets (turn_requestId turn) (terminalizeDispatchFailure turn reason m p).
Proof.
  apply targets_bind; [split; [by right|done]|]; intros _; apply quiets_targets; by apply quiets_continue; [|intros []].
Qed.

Lemma targets_dispatch_turn turn : targets (turn_requestId turn) (dispatch_turn canResolveImages turn).
Proof.
  unfold dispatch_turn; case_bool_decide; [done|]; apply targets_bind; [split; [by left|done]|]; intros []; [|done].
  apply targets_bind; [split; [by left|done]|]; intros [b|]; [|apply targets_terminalize].
  destruct (String.eqb _ _); [|apply targets_terminalize]; apply targets_continue.
  - apply targets_bind; [apply targets_continue; [apply quiets_targets, quiets_preflight|by intros []]|]; intros [current c].
    apply targets_bind; [split; [by right|done]|]; intros _; apply targets_continue; [|by intros []].
    apply targets_bind; [apply quiets_targets, quiets_cwd|]; intros cwd.
    apply targets_bind; [apply quiets_targets, quiets_inputs|]; intros parts.
    apply targets_bind; [split; [by right|done]|]; intros n; split; [by right|done].
  - intros [[]|x]; [done|]; destruct x; apply targets_terminalize.
Qed.

(** ** The operations *)

Lemma wp_turns ts w :
  NoDup (turn_requestId <$> ts) → (∀ t, t ∈ ts → turn_phase t = phase_accepted → unstarted w (turn_requestId t)) →
  wp Dispatcher (for_each (λ _ turn, dispatch_turn canResolveImages turn) () ts) (λ _ _, True) w.
Proof.
  revert w; induction ts as [|t ts IH]; intros w Hd Hu; [done|]; cbn [for_each].
  apply NoDup_cons in Hd as [Hn Hd].
  assert (wp Dispatcher (dispatch_turn canResolveImages t)
            (λ _ w', ∀ t', t' ∈ ts → turn_phase t' = phase_accepted → unstarted w' (turn_requestId t')) w) as Hw.
  { clear IH Hd; assert (wp Dispatcher (dispatch_turn canResolveImages t) (λ _ _, True) w) as H0.
    { apply wp_dispatch_turn, Hu; by left. }
    induction ts as [|t' ts IH]; [eapply wp_mono; [|exact H0]; set_solver|].
    assert (wp Dispatcher (dispatch_turn canResolveImages t)
              (λ _ w', ∀ x, x ∈ ts → turn_phase x = phase_accepted → unstarted w' (turn_requestId x)) w) as H1.
    { apply IH; [set_solver|]; intros x Hx; apply Hu; set_solver. }
    destruct (decide (turn_phase t' = phase_accepted)) as [Ha|Ha].
    - eapply wp_mono; [|eapply (wp_other_turns _ (turn_requestId t')); [apply targets_dispatch_turn| |apply Hu; [set_solver|done]|exact H1]].
      + intros r w' [Hrest Ht'] x [->|Hx]%elem_of_cons; [done|by apply Hrest].
      + intros He; apply Hn; cbn; rewrite He; by left.
    - eapply wp_mono; [|exact H1]; intros r w' Hrest x [->|Hx]%elem_of_cons; [done|by apply Hrest]. }
  apply wp_bind; eapply wp_mono; [|exact Hw]; intros [[]|x] w' Hu'; [by apply IH|done].
Qed.

Lemma wp_dispatch w : wp Dispatcher (dispatchAcceptedTurns canResolveImages) (λ _ _, True) w.
Proof.
  apply wp_bind, wp_await; intros w1 R1 I1; split; [done|]; intros [ts|x] w2 [[-> Hl] _] _; [|done].
  destruct (Hl ts eq_refl) as [Hd Hts]; apply wp_turns; [done|]; intros t [Ht _]%Hts Hp.
  split; [intros Hin|split; [by rewrite Ht|]].
  - destruct (inv_started _ I1 _ Hin) as (t' & Ht' & Hp'); congruence.
  - intros t' Ht' [Hd' _]; congruence.
Qed.

Lemma codex_not_dispatch r p error : ¬ reports_failure (nextPhase (codex_end r p error)) (transition_reason (codex_end r p error)).
Proof.
  intros [Hp (s & Hs & Hin)]; cbn in Hp, Hs; subst p; rewrite bool_decide_false in Hs by done.
  injection Hs as <-; by repeat (apply elem_of_cons in Hin as [Hin|Hin]; [vm_compute in Hin; discriminate|]); inversion Hin.
Qed.

Lemma wp_codex_end t r p error w :
  is_terminal p = true → wp t (await (TransitionExternalTurn (codex_end r p error))) (λ _ _, True) w.
Proof.
  intros Hp; apply wp_await; intros w1 _ _; split; [|done]; split; [by intros ?%codex_not_dispatch|]; split; [done|].
  cbn; intros ->; done.
Qed.

Lemma terminalPhase_terminal e p : terminalPhase e = Some p → is_terminal p = true.
Proof. unfold terminalPhase; intros H; repeat case_match; simplify_eq/=; done. Qed.

Lemma wp_applyTerminalEvent e w : wp Observer (applyTerminalEvent e) (λ _ _, True) w.
Proof.
  unfold applyTerminalEvent; destruct (terminalPhase e) as [p|] eqn:Hp; [|done]; destruct (turn_event_turnId e); [|done].
  apply wp_bind, wp_await; intros w1 _ _; split; [done|]; intros [ts|x] w2 _ _; [|done].
  destruct (List.find _ _); [|done]; by eapply wp_codex_end, terminalPhase_terminal.
Qed.

Lemma wp_reconcile_turns rt b v candidates w : wp Observer (reconcileBindingExternalTurns rt b v candidates) (λ _ _, True) w.
Proof.
  unfold reconcileBindingExternalTurns; apply wp_bind; eapply (wp_mono _ _ _ _ _ _ (λ _ _, True)).
  - intros [ts|x] w1 _; [|done]; destruct (List.filter _ ts) as [|t ts'] eqn:Hf; [done|].
    destruct (projectExternalThread v None None) as [thread|m]; [|done].
    eapply wp_for_each with (P := λ _, True); [done|done|]; intros n t' w2 _ _; unfold reconcile_native_turn.
    destruct (turn_nativeId t'); [|done]; destruct (map_get _ _) as [shown|]; [|done].
    destruct (nativeTurnTerminalPhase _) as [p|] eqn:Hp; [|done]; apply wp_bind.
    eapply wp_mono; [|apply wp_codex_end]; [by intros []|]; unfold nativeTurnTerminalPhase in Hp; repeat case_match; by simplify_eq.
  - destruct candidates; [done|]; apply wp_await; intros; by split.
Qed.

Lemma turn_starts_well w p : invariant w → starts w p → wp (tag p) (code p) (λ _ _, True) w.
Proof. intros _ []; [apply wp_dispatch|apply wp_applyTerminalEvent|apply wp_reconcile_turns]. Qed.

Lemma no_turns_invariant : invariant empty_world.
Proof. split; cbn; try set_solver; try constructor; intros *; by rewrite lookup_empty. Qed.

Lemma turn_reachable_invariant w : reachable w → invariant w.
Proof.
  intros [ps Hr]; exact (proj1 (pool_sound handles outside starts beside true invariant rely guard (λ _ _ _, True)
    turn_call_keeps turn_outside_keeps turn_starts_well (λ _ _ _ _ _ _, I) empty_world (w, ps) no_turns_invariant Hr)).
Qed.

(** C13. No turn is handed to the app server twice, and one that the dispatch reports as
    failed - its binding missing or inactive, its preparation failed, its start not
    recorded - was never handed over, so that it can be sent again; a turn that is running,
    waiting or completed carries the id of a native turn that was started for it.  This holds
    whatever events, controls and failures fall between the calls of a dispatch. *)
Theorem turn_started_once w :
  reachable w →
  NoDup (started w) ∧
  ∀ r t, table w !! r = Some t →
    (turn_phase t = phase_failed → ∀ s, turn_reason t = Some s → s ∈ DISPATCH_FAILED → r ∉ started w) ∧
    (known (turn_phase t) = true → ∃ n, turn_nativeId t = Some n ∧ (r, n) ∈ natives w ∧ r ∈ started w).
Proof.
  intros I%turn_reachable_invariant; split; [apply (inv_once _ I)|]; intros r t Ht; split.
  - intros Hp s Hs Hin; apply (inv_failed _ I _ _ Ht); split; [done|]; by exists s.
  - intros Hk; destruct (inv_known _ I _ _ Ht Hk) as [n Hn]; pose proof (inv_native _ I _ _ _ Ht Hn) as Hin.
    exists n; split; [done|]; split; [done|]; by eapply (inv_natives _ I).
Qed.
End Runs.
