(* ===== verification/TurnScenario.v ===== *)
(** * Runs of the turns

    A dispatch that runs alone settles every turn it finds, as long as the bridge works,
    whatever the app server answers; and schedules of dispatches and events whose result is
    computed, two of which show how a turn can be left behind. *)

From stdpp Require Import sets list gmap strings relations.
From S2P Require Import Prelude JsString Json JsonParse CodexText CodexEvents ThreadTurns AsyncCalls NativeThread TurnDispatch TurnDispatchFacts.

(** ** A bridge that works *)

Class WorkingBridge (serve : ∀ B, TurnCall B → world → outcome failure B * world) (ready : string → bool) := {
  works_list : ∀ w, ∃ l, serve _ ListActiveExternalTurns w = (Value l, w) ∧ NoDup (turn_requestId <$> l) ∧
    ∀ t, t ∈ l ↔ table w !! turn_requestId t = Some t ∧ is_terminal (turn_phase t) = false;
  works_transition : ∀ w tr cur, table w !! transition_requestId tr = Some cur →
    can_transition_to (turn_phase cur) (nextPhase tr) = true → is_terminal (turn_phase cur) = false →
    turn_nativeId cur = None →
    serve _ (TransitionExternalTurn tr) w = (Value (), with_table (<[transition_requestId tr := applied tr cur]> (table w)) w);
  works_ready : ∀ w rt, serve _ (RuntimeReady rt) w = (Value (ready rt), w);
  works_binding : ∀ w b, ∃ o, serve _ (GetBinding b) w = (Value o, w);
  works_quiet : ∀ B (e : TurnCall B) w, quiet e = true → (serve _ e w).2 = w;
  works_start : ∀ r p w, table (serve _ (TurnStart r p) w).2 = table w
}.

Section Settles.
Context (canResolveImages : bool).
Context {serve : ∀ B, TurnCall B → world → outcome failure B * world} {ready : string → bool}.
Context {works : WorkingBridge serve ready}.

Abbreviation perform := (perform serve).

Lemma perform_quiets {A} (m : Dispatch A) w : quiets m → ∃ o, perform m w = Some (o, w).
Proof.
  revert w; induction m as [r| |B e k IH]; intros w; cbn; [by exists r|done|]; intros [He Hk].
  pose proof (works_quiet B e w He) as Hw; destruct (serve B e w) as [r w']; cbn in Hw; subst w'; by apply IH.
Qed.

Lemma perform_bind {A B} (m : Dispatch A) (f : A → Dispatch B) w :
  perform (m ≫= f) w =
  perform m w ≫= λ '(o, w'), match o with Value a => perform (f a) w' | Raise x => Some (Raise x, w') end.
Proof. unfold mbind at 1, io_bind; rewrite perform_continue; destruct (perform m w) as [[[a|x] w']|]; done. Qed.

Lemma perform_catch {A} (m : Dispatch A) (h : failure → Dispatch A) w :
  perform (catch m h) w =
  perform m w ≫= λ '(o, w'), match o with Value a => Some (Value a, w') | Raise x => perform (h x) w' end.
Proof. unfold catch; rewrite perform_continue; destruct (perform m w) as [[[a|x] w']|]; done. Qed.

(** The phases in which a dispatch leaves a turn. *)
Definition dispatched (p : ExternalTurnPhase) : bool :=
  match p with phase_active | phase_failed | phase_outcome_unknown => true | _ => false end.

(** [moved r w w']: only the turn [r] may have changed. *)
Definition moved (r : string) (w w' : world) : Prop := ∀ r', r' ≠ r → table w' !! r' = table w !! r'.

Definition settles (r : string) (m : Dispatch ()) (w : world) : Prop :=
  ∃ w' t', perform m w = Some (Value (), w') ∧ moved r w w' ∧ table w' !! r = Some t' ∧ dispatched (turn_phase t') = true.

Lemma terminalize_settles turn cur reason m p w :
  table w !! turn_requestId turn = Some cur → can_transition_to (turn_phase cur) p = true → is_terminal (turn_phase cur) = false →
  turn_nativeId cur = None → dispatched p = true →
  settles (turn_requestId turn) (terminalizeDispatchFailure turn reason m p) w.
Proof.
  intros Hc Hp Ht Hn Hd; unfold terminalizeDispatchFailure, settles; rewrite perform_bind; cbn [AsyncCalls.perform await].
  rewrite (works_transition w _ cur) by done; cbn [mbind option_bind].
  match goal with |- context [perform (catch ?m ?h) ?w1] => set (w1' := w1); assert (∃ o, perform (catch m h) w1' = Some (o, w1')) as [o Ho] end.
  { apply perform_quiets; by apply quiets_continue; [|intros []]. }
  assert (o = Value ()) as ->.
  { rewrite perform_catch in Ho; cbn [AsyncCalls.perform await] in Ho.
    destruct (serve _ _ w1') as [[[]|x] w2]; cbn in Ho; congruence. }
  exists w1', (applied {| transition_requestId := turn_requestId turn; nextPhase := p; transition_nativeId := None;
                     transition_reason := Some reason; transition_error := None |} cur).
  split; [done|]; split; [intros r' Hr'; unfold w1'; cbn; by rewrite lookup_insert_ne|]; unfold w1'; cbn.
  by rewrite lookup_insert_eq.
Qed.
Lemma moved_trans r w1 w2 w3 : moved r w1 w2 → moved r w2 w3 → moved r w1 w3.
Proof. intros H1 H2 r' Hr'; by rewrite H2, H1. Qed.

(** A start that fails is terminalized; one that succeeds is recorded. *)
Lemma start_native_settles b turn cur c w :
  table w !! turn_requestId turn = Some cur → turn_phase cur = phase_starting → turn_nativeId cur = None →
  (∃ x w', perform (start_native canResolveImages b turn c) w = Some (Raise x, w') ∧ table w' = table w) ∨
  (∃ w' t', perform (start_native canResolveImages b turn c) w = Some (Value (), w') ∧
            moved (turn_requestId turn) w w' ∧ table w' !! turn_requestId turn = Some t' ∧ turn_phase t' = phase_active).
Proof.
  intros Hc Hp Hn; unfold start_native; rewrite perform_bind.
  destruct (perform_quiets (sessionWorkspaceCwd b) w (quiets_cwd b)) as [[cwd|x] ->]; [|left; by exists x, w]; cbn [mbind option_bind].
  rewrite perform_bind.
  destruct (perform_quiets _ w (quiets_inputs canResolveImages (turn_sessionId turn) (turn_input turn))) as [[parts|x] ->];
    [|left; by exists x, w]; cbn [mbind option_bind].
  rewrite perform_bind; cbn [AsyncCalls.perform await].
  set (p := {| start_threadId := _; start_input := _; start_cwd := _; start_mode := _ |}).
  pose proof (works_start (turn_requestId turn) p w) as Hs; destruct (serve _ (TurnStart _ p) w) as [[n|x] w2]; cbn in Hs |- *;
    [|left; by exists x, w2].
  rewrite (works_transition w2 _ cur); [|by rewrite Hs|by rewrite Hp|by rewrite Hp|done].
  right; eexists _, _; split; [done|]; cbn; rewrite lookup_insert_eq; split; [|done].
  intros r' Hr'; cbn; by rewrite lookup_insert_ne, Hs.
Qed.

Lemma start_settles b turn cur w :
  table w !! turn_requestId turn = Some cur → turn_phase cur = phase_accepted → turn_nativeId cur = None →
  settles (turn_requestId turn) (catch (startAcceptedTurn canResolveImages b turn) (start_failed turn)) w.
Proof.
  intros Hc Hp Hn; unfold settles; rewrite perform_catch; unfold startAcceptedTurn; rewrite perform_bind, perform_catch.
  destruct (perform_quiets _ w (quiets_preflight b turn)) as [[[current c]|x] ->]; cbn [mbind option_bind AsyncCalls.perform mret io_ret raise].
  2: { by apply (terminalize_settles turn cur); rewrite ?Hp. }
  rewrite perform_bind; cbn [AsyncCalls.perform await].
  rewrite (works_transition w _ cur) by (by rewrite ?Hp); cbn [mbind option_bind].
  set (w1 := with_table _ w); set (cur1 := applied (transition (turn_requestId turn) phase_starting) cur).
  assert (table w1 !! turn_requestId turn = Some cur1) as Hc1 by (unfold w1; cbn; by rewrite lookup_insert_eq).
  assert (moved (turn_requestId turn) w w1) as Hm1 by (intros r' Hr'; unfold w1; cbn; by rewrite lookup_insert_ne).
  rewrite perform_catch.
  destruct (start_native_settles current turn cur1 c w1 Hc1 eq_refl Hn) as [(x & w2 & -> & Ht)|(w2 & t' & -> & Hm & Ht' & Hp')];
    cbn [mbind option_bind AsyncCalls.perform mret io_ret raise].
  - rewrite <- Ht in Hc1; destruct (terminalize_settles turn cur1 "external_turn_start_outcome_unknown" (message_of x)
      phase_outcome_unknown w2 Hc1 eq_refl eq_refl Hn eq_refl) as (w3 & t3 & H3 & Hm3 & Ht3 & Hd3).
    exists w3, t3; split; [done|]; split; [|done]; eapply moved_trans; [exact Hm1|].
    intros r' Hr'; by rewrite (Hm3 r' Hr'), Ht.
  - exists w2, t'; split; [done|]; split; [by eapply moved_trans|]; split; [done|by rewrite Hp'].
Qed.

(** What becomes of the turn [t]: a turn to dispatch is dispatched, any other stays. *)
Definition becomes (t : Turn) (w' : world) : Prop :=
  if bool_decide (turn_phase t = phase_accepted) && ready (turn_runtimeId t)
  then ∃ t', table w' !! turn_requestId t = Some t' ∧ dispatched (turn_phase t') = true
  else table w' !! turn_requestId t = Some t.

Lemma turn_settles t w :
  table w !! turn_requestId t = Some t → (turn_phase t = phase_accepted → turn_nativeId t = None) →
  ∃ w', perform (dispatch_turn canResolveImages t) w = Some (Value (), w') ∧ moved (turn_requestId t) w w' ∧ becomes t w'.
Proof.
  intros Ht Hn; unfold dispatch_turn, becomes; destruct (decide (turn_phase t = phase_accepted)) as [Ha|Ha].
  2: { rewrite (bool_decide_true (turn_phase t ≠ phase_accepted)) by done; rewrite bool_decide_false by done; by exists w. }
  rewrite (bool_decide_false (turn_phase t ≠ phase_accepted)) by (by intros []); rewrite bool_decide_true by done.
  rewrite perform_bind; cbn [AsyncCalls.perform await]; rewrite works_ready; cbn [mbind option_bind andb].
  destruct (ready (turn_runtimeId t)); [|by exists w].
  assert (∀ m, settles (turn_requestId t) m w → ∃ w', perform m w = Some (Value (), w') ∧ moved (turn_requestId t) w w' ∧
            ∃ t', table w' !! turn_requestId t = Some t' ∧ dispatched (turn_phase t') = true) as Hset.
  { intros m (w' & t' & ? & ? & ? & ?); exists w'; eauto. }
  rewrite perform_bind; cbn [AsyncCalls.perform await].
  destruct (works_binding w (turn_bindingId t)) as [[b|] ->]; cbn [mbind option_bind]; apply Hset.
  - destruct (String.eqb _ _); [eapply start_settles; eauto|]; eapply terminalize_settles; rewrite ?Ha; eauto.
  - eapply terminalize_settles; rewrite ?Ha; eauto.
Qed.

Lemma turns_settle ts w :
  NoDup (turn_requestId <$> ts) →
  (∀ t, t ∈ ts → table w !! turn_requestId t = Some t ∧ (turn_phase t = phase_accepted → turn_nativeId t = None)) →
  ∃ w', perform (for_each (λ _ turn, dispatch_turn canResolveImages turn) () ts) w = Some (Value (), w') ∧
        (∀ r, r ∉ turn_requestId <$> ts → table w' !! r = table w !! r) ∧ ∀ t, t ∈ ts → becomes t w'.
Proof.
  revert w; induction ts as [|t ts IH]; intros w Hd Hts; [exists w; split; [done|]; set_solver|].
  cbn [for_each]; cbn in Hd; apply NoDup_cons in Hd as [Hnin Hd].
  destruct (turn_settles t w) as (w1 & Hp & Hm & Hb); [by apply Hts; left|by apply Hts; left|].
  rewrite perform_bind, Hp; cbn [mbind option_bind].
  destruct (IH w1 Hd) as (w2 & Hp2 & Hm2 & Hb2).
  { intros x Hx; destruct (Hts x) as [Hl Hn]; [by right|]; split; [|done]; rewrite Hm; [done|].
    intros He; apply Hnin; rewrite <- He; by apply list_elem_of_fmap_2. }
  exists w2; split; [done|]; split.
  - intros r Hr; cbn in Hr; rewrite Hm2 by set_solver; apply Hm; set_solver.
  - intros x [->|Hx]%elem_of_cons; [|by apply Hb2]; unfold becomes in *; by rewrite Hm2.
Qed.

(** C15. A dispatch settles every turn it is for: when the bridge does its work, the loop
    ends, and each accepted turn of a runtime that is ready is then running, failed or of
    unknown outcome - whatever the bindings, the presets, the images and the app server
    answered, errors included; no turn is left starting, one turn's failure does not keep
    the next from being dispatched, and every other turn is as it was. *)
Theorem dispatch_settles w :
  (∀ r t, table w !! r = Some t → turn_requestId t = r ∧ (turn_phase t = phase_accepted → turn_nativeId t = None)) →
  ∃ w', perform (dispatchAcceptedTurns canResolveImages) w = Some (Value (), w') ∧
        ∀ r t, table w !! r = Some t → becomes t w'.
Proof.
  intros Hw; unfold dispatchAcceptedTurns; rewrite perform_bind; cbn [AsyncCalls.perform await].
  destruct (works_list w) as (l & -> & Hd & Hl); cbn [mbind option_bind].
  destruct (turns_settle l w Hd) as (w' & Hp & Hm & Hb).
  { intros t Ht; apply Hl in Ht as [Ht _]; split; [done|]; by apply (Hw _ _ Ht). }
  exists w'; split; [done|]; intros r t Ht; destruct (Hw _ _ Ht) as [Hr _]; subst r.
  destruct (is_terminal (turn_phase t)) eqn:Hte; [|by apply Hb, Hl].
  unfold becomes; rewrite bool_decide_false by (by intros He; rewrite He in Hte); cbn.
  rewrite Hm; [done|]; intros (x & He & Hx)%list_elem_of_fmap; apply Hl in Hx as [Hx Hxt]; congruence.
Qed.
End Settles.

(** ** Services that answer *)

Section Services.
(** the native turn that the app server starts for a request, if it does *)
Context (start : string → option string).

Definition active_turns (w : world) : list Turn :=
  (filter (λ p, turn_requestId p.2 = p.1 ∧ is_terminal (turn_phase p.2) = false) (map_to_list (table w))).*2.

Definition compatible (a b : option string) : bool :=
  match a, b with Some n, Some n' => String.eqb n n' | _, _ => true end.

Definition serve B (e : TurnCall B) (w : world) : outcome failure B * world :=
  match e in TurnCall B return outcome failure B * world with
  | ListActiveExternalTurns => (Value (active_turns w), w)
  | RuntimeReady _ => (Value true, w)
  | GetBinding b => (Value (Some {| dispatch_bindingId := b; dispatch_status := "active"; dispatch_threadId := Some "th";
                                    dispatch_sessionId := Some "s" |}), w)
  | BindingPromptContext b => (Value (b, None), w)
  | GetThreadSettings _ => (Value (Some {| settings_model := "gpt"; settings_effort := None; settings_instructions := None |}), w)
  | SetThreadSettings _ _ => (Value (), w)
  | CollaborationModeList => (Value [{| preset_mode := "default"; preset_model := None; preset_effort := None |}], w)
  | SessionCwd _ => (Value (Some "/work"), w)
  | ResolveTurnImage _ _ => (Raise (OtherFailure "no images"), w)
  | TransitionExternalTurn tr =>
      match table w !! transition_requestId tr with
      | None => (Raise (OtherFailure "external turn was not found"), w)
      | Some cur =>
          if can_transition_to (turn_phase cur) (nextPhase tr) && negb (is_terminal (turn_phase cur))
             && compatible (turn_nativeId cur) (transition_nativeId tr)
          then (Value (), with_table (<[transition_requestId tr := applied tr cur]> (table w)) w)
          else (Raise (OtherFailure "invalid external turn transition"), w)
      end
  | TurnStart r _ =>
      match start r with
      | Some n => (Value n, with_native r n (asked r w))
      | None => (Raise (OtherFailure "turn/start failed"), asked r w)
      end
  | RecordDispatchFailure _ _ _ => (Value (), w)
  end.

Lemma active_turns_spec w :
  NoDup (turn_requestId <$> active_turns w) ∧
  ∀ t, t ∈ active_turns w ↔ table w !! turn_requestId t = Some t ∧ is_terminal (turn_phase t) = false.
Proof.
  unfold active_turns; split.
  - assert (∀ l : list (string * Turn), turn_requestId <$> (filter (λ p, turn_requestId p.2 = p.1 ∧ is_terminal (turn_phase p.2) = false) l).*2
              = (filter (λ p, turn_requestId p.2 = p.1 ∧ is_terminal (turn_phase p.2) = false) l).*1) as ->.
    { induction l as [|[k t] l IH]; [done|]; rewrite filter_cons; case_decide as H; [|done]; cbn; rewrite IH; destruct H as [H _]; cbn in H; by rewrite H. }
    apply (sublist_NoDup _ (map_to_list (table w)).*1); [apply NoDup_fst_map_to_list|]; apply fmap_sublist, sublist_filter.
  - intros t; rewrite list_elem_of_fmap; split.
    + intros ([k x] & -> & [[Hk Ht] Hin]%list_elem_of_filter); cbn in *; subst k; by rewrite elem_of_map_to_list in Hin.
    + intros [Hl Ht]; exists (turn_requestId t, t); split; [done|]; apply list_elem_of_filter; split; [done|].
      by apply elem_of_map_to_list.
Qed.

#[export] Instance serve_works : WorkingBridge serve (λ _, true).
Proof.
  split.
  - intros w; exists (active_turns w); split; [done|]; apply active_turns_spec.
  - intros w tr cur Hc Hp Ht Hn; cbn; rewrite Hc, Hp, Ht, Hn; done.
  - done.
  - eauto.
  - intros B e w; by destruct e.
  - intros r p w; cbn; by destruct (start r).
Qed.

Lemma turn_serve_handles B (e : TurnCall B) w : handles B e w (serve B e w).1 (serve B e w).2.
Proof.
  destruct e; cbn; try done.
  - split; [|done]; split; [done|]; intros l [= <-]; apply active_turns_spec.
  - destruct (table w !! _) as [cur|] eqn:Hc; cbn; [|split; [by left|done]].
    destruct (_ && compatible _ _) eqn:Hb; cbn; [|split; [by left|done]].
    apply andb_true_iff in Hb as [[Hp Ht%negb_true_iff]%andb_true_iff Hn]; split; [|done]; exists cur; split; [done|]; split; [done|].
    right; split; [done|]; split; [|done]; intros n n' H1 H2; rewrite H1, H2 in Hn; by apply String.eqb_eq in Hn.
  - destruct (start requestId); cbn; (split; [|done]); [done|by left].
Qed.

(** ** Schedules *)

Abbreviation pool := (pool (T := role) (X := failure) (call := TurnCall) (W := world)).
Abbreviation step := (step handles outside (starts false) beside true).

Inductive action :=
| BeginDispatch
| BeginEvent (e : TurnEvent)
| Call (i : nat)
| Ask (r : string)
| End.

Definition to_waiting (r : string) : Transition := transition r phase_waiting_interaction.

Definition act (a : action) (s : pool) : option pool :=
  let '(w, ps) := s in
  match a with
  | BeginDispatch => match ps with [] => Some (w, [Process Dispatcher (dispatchAcceptedTurns false)]) | _ => None end
  | BeginEvent e => Some (w, Process Observer (applyTerminalEvent e) :: ps)
  | Call i =>
      match ps !! i with
      | Some (Process t (@Await _ _ _ B e k)) => let '(r, w') := serve B e w in Some (w', Process t (k r) :: delete i ps)
      | _ => None
      end
  | Ask r =>
      match serve _ (TransitionExternalTurn (to_waiting r)) w with (Value _, w') => Some (w', ps) | _ => None end
  | End => match ps with _ :: rest => Some (w, rest) | [] => None end
  end.

Fixpoint run (acts : list action) (s : pool) : option pool :=
  match acts with
  | [] => Some s
  | a :: acts => act a s ≫= run acts
  end.

Lemma turn_act_step a s s' : act a s = Some s' → step s s'.
Proof.
  destruct s as [w ps]; destruct a as [|e|i|r|]; cbn [act].
  - destruct ps; [|done]; intros [= <-]; constructor; constructor.
  - intros [= <-]; constructor; [constructor|]; apply Forall_forall; intros q _; done.
  - destruct (ps !! i) as [[t A [r| |B e k]]|] eqn:Hi; try done.
    destruct (serve B e w) as [r w'] eqn:Hs; intros [= <-].
    apply (step_call _ _ _ _ _ w w' ps (delete i ps) t A B e k r); [by apply delete_Permutation|].
    pose proof (turn_serve_handles B e w) as H; by rewrite Hs in H.
  - pose proof (turn_serve_handles _ (TransitionExternalTurn (to_waiting r)) w) as [H _].
    destruct (serve _ (TransitionExternalTurn (to_waiting r)) w) as [[[]|x] w']; [|done]; intros [= <-].
    apply step_outside, (outside_transition _ (to_waiting r)); cbn; try done; by intros [? _].
  - destruct ps as [|p rest]; [done|]; intros [= <-]; apply step_end with p; auto.
Qed.

Lemma turn_run_steps acts s s' : run acts s = Some s' → rtc step s s'.
Proof.
  revert s; induction acts as [|a acts IH]; intros s; cbn; [by intros [= ->]|].
  intros (s1 & Ha%turn_act_step & Hr)%bind_Some; eapply rtc_l; [exact Ha|by apply IH].
Qed.
End Services.

(** ** A turn *)

Definition example_turn : Turn :=
  {| turn_requestId := "q"; turn_bindingId := "b"; turn_sessionId := "s"; turn_runtimeId := "rt"; turn_threadId := "th";
     turn_mode := None; turn_input := [part_text "Hi"]; turn_phase := phase_accepted; turn_nativeId := None;
     turn_reason := None; turn_terminalError := None |}.

Definition example_world : world := with_table {[ "q" := example_turn ]} empty_world.

Abbreviation example_run start acts := (run start acts (example_world, [])).

Definition starts_it (r : string) : option string := Some "n".
Definition refuses (r : string) : option string := None.

Lemma turn_run_reachable start acts w ps : example_run start acts = Some (w, ps) → reachable false w.
Proof.
  intros Hr; exists ps; eapply rtc_l; [|by eapply turn_run_steps]; apply step_outside.
  by apply (outside_turn empty_world example_turn); cbn; [| | |set_solver|set_solver].
Qed.

(** The phase and the native turn, and the starts that were asked for. *)
Definition seen (s : option (pool (T := role) (X := failure) (call := TurnCall) (W := world)))
    : option (list string * option (ExternalTurnPhase * option string)) :=
  (λ '(w, _), (started w, (λ t, (turn_phase t, turn_nativeId t)) <$> table w !! "q")) <$> s.

Definition final (s : option (pool (T := role) (X := failure) (call := TurnCall) (W := world))) : world :=
  match s with Some (w, _) => w | None => empty_world end.

Definition completed_event : TurnEvent :=
  {| turn_event_kind := "turn_lifecycle"; turn_event_runtimeId := "rt"; turn_event_turnId := Some "n";
     turn_event_payload := JObject [("nativeMethod", JString "turn/completed"); ("status", JString "completed")] |}.

Definition dispatch_calls : list action := BeginDispatch :: repeat (Call 0) 10.

Lemma turn_started_once_witness :
  seen (example_run starts_it dispatch_calls) = Some (["q"], Some (phase_active, Some "n")) ∧
  NoDup (started (final (example_run starts_it dispatch_calls))).
Proof.
  split; [vm_compute; reflexivity|].
  destruct (example_run starts_it dispatch_calls) as [[w ps]|] eqn:Hr; [|vm_compute in Hr; discriminate].
  exact (proj1 (turn_started_once false w (turn_run_reachable _ _ _ _ Hr))).
Defined.

(** The app server refuses the start: the turn does not stay behind. *)
Lemma dispatch_settles_witness :
  ∃ w', perform (serve refuses) (dispatchAcceptedTurns false) example_world = Some (Value (), w') ∧
        (turn_phase <$> table w' !! "q") = Some phase_outcome_unknown ∧ becomes (ready := λ _, true) example_turn w'.
Proof.
  destruct (dispatch_settles (serve := serve refuses) false example_world) as (w' & Hp & Hb).
  - intros r t Ht; unfold example_world in Ht; cbn in Ht; apply lookup_singleton_Some in Ht as [<- <-]; split; reflexivity.
  - exists w'; split; [exact Hp|]; split; [|apply (Hb "q"); reflexivity].
    assert (perform (serve refuses) (dispatchAcceptedTurns false) example_world =
            Some (Value (), final (example_run refuses (BeginDispatch :: repeat (Call 0) 11)))) as He by (vm_compute; reflexivity).
    rewrite He in Hp; injection Hp as <-; vm_compute; reflexivity.
Defined.

(** ** How a turn is left behind *)

(** A completed turn is settled by its event. *)
Example completion_settles :
  seen (example_run starts_it (dispatch_calls ++ [BeginEvent completed_event; Call 0; Call 0])) =
  Some (["q"], Some (phase_completed, Some "n")).
Proof. vm_compute; reflexivity. Qed.

(** The event of a turn that ends before the start is recorded finds no turn of its id and is
    dropped: the turn is then recorded as running, and stays so. *)
Example early_completion_lost :
  seen (example_run starts_it
    (BeginDispatch :: repeat (Call 0) 9 ++ [BeginEvent completed_event; Call 0; End; Call 0])) =
  Some (["q"], Some (phase_active, Some "n")).
Proof. vm_compute; reflexivity. Qed.

(** A turn whose interaction was not answered still waits for it when the app server ends the
    turn: there is no transition from waiting to completed, and the turn keeps waiting. *)
Example waiting_turn_not_completed :
  seen (example_run starts_it (dispatch_calls ++ [Ask "q"; BeginEvent completed_event; Call 0; Call 0; End])) =
  Some (["q"], Some (phase_waiting_interaction, Some "n")).
Proof. vm_compute; reflexivity. Qed.
