(* ===== verification/WakeChat.v ===== *)
(** * What a wake leaves in the chat log

    The events a wake is observed by, their projection to the chat log and the summaries
    that are made of them: [appendCoreEventsToChatLog], [appendBrainEventToChatLog],
    [wakeCompletionSummary], [wakeLifecycleDisposition], [classifyWakeDispatchFailure] and
    their helpers of [ts/packages/brain-island/src/service-wake-dispatch.ts], and
    [chat-wake-failure-summary.ts]. *)

From stdpp Require Import sets list.
From S2P Require Import Prelude JsString Json JsonParse CodexText CodexEvents.

(** ** Events *)

(** An optional member of an event is absent where it has no value, as the core leaves it
    out.  [tool_metadata] is the whole record; the members that are read stand beside it. *)
Record ToolCallMetadata := {
  debugDetailId : option string;
  tool_source : string;
  tool_bindingId : option string;
  sourceToolName : option string;
  tool_metadata : json
}.

Inductive BrainEvent :=
| started
| text_delta (text : string)
| reasoning_delta (text : string) (format : option string)
| phase_change (phase : string) (message : option string)
| provider_status (level message : string) (metadataJson : option string)
| tool_call_started (toolName : string) (metadata : option ToolCallMetadata)
| tool_call_finished (toolName : string) (isError : bool) (metadata : option ToolCallMetadata)
| finished.

Inductive LifecycleKind :=
| admitted | continuation_claimed | continuation_progress | continuation_checkpointed | continuation_yielded
| continuation_resumed | attention_required | rebind_requested | rebound | cancel_requested | completed_turn
| cancelled_turn | failed_turn.

Record LogicalTurnLifecycleEvent := {
  lifecycle_kind : LifecycleKind;
  lifecycle_sessionId : string;
  logicalTurnId : string;
  projectionId : string;
  continuationId : string;
  continuationCount : json;
  executionEpochId : option string;
  lifecycle_wakeId : string;
  lifecycle_phase : string;
  operatorState : string;
  progressClassification : string;
  lifecycle_reasonCode : string;
  lifecycle_summary : string;
  progress : json;
  logicalTurnRevision : json
}.

Record SessionExecutionState := {
  execution_sessionId : string;
  lifecycleStatus : string;
  execution_phase : string;
  execution_source : string;
  execution_wakeId : option string;
  execution_logicalTurnId : option string;
  lastOutcome : option string;
  execution_reasonCode : option string;
  execution_json : json
}.

Record CompletionPacket := { packet_sessionId : string; packet_status : string; packet_summary : string }.

(** The [wakeId] of an observed event is a string or [null]. *)
Inductive CoreEvent :=
| brain_event_observed (sessionId : string) (wakeId : json) (event : BrainEvent)
| session_execution_observed (execution : SessionExecutionState)
| logical_turn_lifecycle_observed (lifecycle : LogicalTurnLifecycleEvent)
| completion_packet_delivered (packet : CompletionPacket)
| brain_actions_accepted (sessionId : string) (count : json)
| other_core_event.

Record ChatEvent := { chat_kind : string; chat_payload : list (string * json) }.

(** An optional member: absent is [undefined]. *)
Definition maybe (v : option string) : json := match v with Some s => JString s | None => JUndefined end.
Definition nullable (v : option string) : json := match v with Some s => JString s | None => JNull end.

(** ** The chat log *)

Definition logicalTurnChatEventKind (k : LifecycleKind) : string :=
  match k with
  | continuation_yielded => "logical_turn_yielding"
  | continuation_resumed | continuation_claimed | continuation_checkpointed | continuation_progress => "logical_turn_continuing"
  | attention_required => "logical_turn_attention_required"
  | completed_turn => "logical_turn_completed"
  | failed_turn => "logical_turn_failed"
  | cancelled_turn => "logical_turn_cancelled"
  | cancel_requested => "logical_turn_cancelling"
  | admitted => "logical_turn_admitted"
  | rebind_requested | rebound => "unknown"
  end.

Definition lifecycle_payload (l : LogicalTurnLifecycleEvent) (projection reasonCode summary : string) : list (string * json) :=
  [("logical_turn_id", JString (logicalTurnId l)); ("projection_id", JString projection);
   ("continuation_id", JString (continuationId l)); ("continuation_count", continuationCount l);
   ("execution_epoch_id", maybe (executionEpochId l)); ("wake_id", JString (lifecycle_wakeId l));
   ("phase", JString (lifecycle_phase l)); ("operator_state", JString (operatorState l));
   ("progress_classification", JString (progressClassification l)); ("reason_code", JString reasonCode);
   ("summary", JString summary); ("progress", progress l); ("logical_turn_revision", logicalTurnRevision l)].

Definition safe_id_char (c : ascii) : bool :=
  is_lower c || is_upper c || is_digit c || bool_decide (c ∈ ["_"; "."; ":"; "-"]%char).

(** [part.replace(/[^A-Za-z0-9_.:-]+/g, "_")] *)
Fixpoint replace_unsafe (in_run : bool) (t : text) : text :=
  match t with
  | [] => []
  | c :: t => if safe_id_char c then c :: replace_unsafe false t
              else if in_run then replace_unsafe true t else "_"%char :: replace_unsafe true t
  end.

Definition chatToolCallId (wakeId : option string) (toolName : string) (metadata : option ToolCallMetadata) : string :=
  match metadata ≫= debugDetailId with
  | Some (String _ _ as d) => d
  | _ => Str.join ":" ((λ s, str (replace_unsafe false (chars s))) <$>
           [default "wake" wakeId; default "tool" (tool_source <$> metadata);
            default "local" (metadata ≫= tool_bindingId); default toolName (metadata ≫= sourceToolName)])
  end.

Definition tool_json (m : option ToolCallMetadata) : json := match m with Some x => tool_metadata x | None => JUndefined end.

Section Projection.
Context {JT : JsonText}.

Definition contextCompactionEventKind (metadataJson : option string) : option string :=
  match metadataJson with
  | Some (String _ _ as m) =>
      match JSON_parse m with
      | Some (JObject o) =>
          match member o "kind" with
          | JString k => if bool_decide (k ∈ ["context_compaction_started"; "context_compaction_completed";
                                              "context_compaction_failed"]) then Some k else None
          | _ => None
          end
      | _ => None
      end
  | _ => None
  end.

(** What the projection of an event does, in order: append an event, or keep the artifact of
    a compaction. *)
Inductive chat_effect :=
| AppendsChat (e : ChatEvent)
| KeepsCompaction (wakeId metadataJson : option string).

Definition appends (k : string) (p : list (string * json)) : chat_effect := AppendsChat {| chat_kind := k; chat_payload := p |}.

Definition appendBrainEventToChatLog (wakeId : option string) (event : BrainEvent) : list chat_effect :=
  let w := ("wake_id", maybe wakeId) in
  match event with
  | started => [appends "assistant_turn_started" [w]]
  | text_delta t => [appends "assistant_text_delta" [w; ("text", JString t)]]
  | reasoning_delta t format =>
      [appends "assistant_reasoning_delta" ([w; ("text", JString t); ("visibility", JString "reasoning")]
         ++ match format with Some f => [("format", JString f)] | None => [] end)]
  | phase_change p message =>
      [appends "phase_change" ([w; ("phase", JString p)] ++ match message with Some m => [("message", JString m)] | None => [] end)]
  | provider_status level message metadataJson =>
      let compactionKind := contextCompactionEventKind metadataJson in
      appends (default "provider_status" compactionKind)
        ([w; ("level", JString level); ("message", JString message)]
         ++ match metadataJson with Some m => [("metadata_json", JString m)] | None => [] end)
      :: (if bool_decide (compactionKind ∈ [Some "context_compaction_completed"; Some "context_compaction_failed"])
          then [KeepsCompaction wakeId metadataJson] else [])
  | tool_call_started toolName m =>
      [appends "tool_call_started" [w; ("tool_call_id", JString (chatToolCallId wakeId toolName m));
         ("tool_name", JString toolName); ("debug_detail_id", maybe (m ≫= debugDetailId)); ("metadata", tool_json m)]]
  | tool_call_finished toolName isError m =>
      [appends (if isError then "tool_call_failed" else "tool_call_completed")
         [w; ("tool_call_id", JString (chatToolCallId wakeId toolName m)); ("tool_name", JString toolName);
          ("is_error", JBool isError); ("debug_detail_id", maybe (m ≫= debugDetailId)); ("metadata", tool_json m)]]
  | finished => []
  end.

(** One round of the loop of [appendCoreEventsToChatLog]. *)
Definition core_event_effects (session wakeId : string) (event : CoreEvent) : list chat_effect :=
  match event with
  | brain_event_observed s w e => if String.eqb s session then appendBrainEventToChatLog (stringValue w) e else []
  | session_execution_observed x =>
      if String.eqb (execution_sessionId x) session then [appends "session_execution_changed" [("execution", execution_json x)]] else []
  | logical_turn_lifecycle_observed l =>
      if String.eqb (lifecycle_sessionId l) session then
        appends (logicalTurnChatEventKind (lifecycle_kind l))
          (lifecycle_payload l (projectionId l) (lifecycle_reasonCode l) (lifecycle_summary l))
        :: match lifecycle_kind l with
           | continuation_yielded =>
               [appends "logical_turn_queued_to_continue"
                  (lifecycle_payload l (projectionId l +:+ ":queued") "continuation_queued" "logical turn is queued to continue")]
           | _ => []
           end
      else []
  | completion_packet_delivered p =>
      if String.eqb (packet_sessionId p) session then
        [appends "assistant_message_completed"
           [("status", JString (packet_status p)); ("summary", JString (packet_summary p)); ("wake_id", JString wakeId)];
         appends "assistant_turn_finished" [("wake_id", JString wakeId)]]
      else []
  | brain_actions_accepted s n =>
      if String.eqb s session then
        [appends "unknown" [("source_event_type", JString "brain_actions_accepted"); ("accepted_action_count", n)]]
      else []
  | other_core_event => []
  end.
End Projection.

(** ** Summaries *)

(** [parts.filter(nonempty).reduce(...)] *)
Definition merge_part (merged part : string) : string :=
  if String.eqb merged "" then part
  else if Str.startsWith part merged then part
  else if Str.endsWith merged part then merged
  else merged +:+ part.

Definition mergeTextParts (parts : list string) : string :=
  fold_left merge_part (List.filter (λ p, negb (String.eqb p "")) parts) "".

Definition truncate (value : string) (maxChars : nat) : string :=
  if (String.length value <=? maxChars)%nat then value else Str.slice value 0 maxChars +:+ "...".

Definition wakeCompletionPacket (events : list CoreEvent) : option CompletionPacket :=
  last (omap (λ e, match e with completion_packet_delivered p => Some p | _ => None end) events).

Definition text_deltas (events : list CoreEvent) : list string :=
  omap (λ e, match e with brain_event_observed _ _ (text_delta t) => Some t | _ => None end) events.

Definition nonblank (s : string) : option string := match s with "" => None | s => Some s end.

Definition wakeCompletionSummary (events : list CoreEvent) : option string :=
  match wakeCompletionPacket events ≫= λ p, nonblank (Str.trim (packet_summary p)) with
  | Some s => Some s
  | None => (λ t, truncate t 480) <$> nonblank (Str.trim (mergeTextParts (text_deltas events)))
  end.

Inductive disposition_status := disposed_cancelled | disposed_failed.
Record Disposition := { disposition : disposition_status; disposition_summary : string; disposition_reasonCode : string }.

Definition dispose (d : option Disposition) (e : CoreEvent) : option Disposition :=
  match e with
  | logical_turn_lifecycle_observed l =>
      let at_status s := Some {| disposition := s; disposition_summary := lifecycle_summary l;
                                 disposition_reasonCode := lifecycle_reasonCode l |} in
      match lifecycle_kind l with
      | cancel_requested | cancelled_turn => at_status disposed_cancelled
      | failed_turn => at_status disposed_failed
      | _ => d
      end
  | _ => d
  end.

Definition wakeLifecycleDisposition (events : list CoreEvent) : option Disposition := fold_left dispose events None.

(** ** Failures *)

(** What a wake throws: the brain's own error, and any other with the message of an [Error]
    and a reason code where it has one. *)
Inductive wake_error :=
| BufferedBrainWakeError (reasonCode source message : string)
| OtherWakeError (message reasonCode : option string).

Definition errorMessage (e : wake_error) (fallback : string) : string :=
  match e with BufferedBrainWakeError _ _ m => m | OtherWakeError m _ => default fallback m end.

(** The first match of [/\[(postgres_[a-z_]+)\]/], its group. *)
Fixpoint code_chars (t : text) : text * text :=
  match t with
  | c :: t' => if is_lower c || Ascii.eqb c "_" then let '(a, b) := code_chars t' in (c :: a, b) else ([], t)
  | [] => ([], [])
  end.

Definition postgres_prefix : text := chars "[postgres_".

Fixpoint postgres_code (t : text) : option string :=
  match t with
  | [] => None
  | _ :: t' =>
      match (if Text.startsWith postgres_prefix t then
               match code_chars (drop (length postgres_prefix) t) with
               | ((_ :: _) as code, "]"%char :: _) => Some (str (chars "postgres_" ++ code))
               | _ => None
               end
             else None) with
      | Some code => Some code
      | None => postgres_code t'
      end
  end.

Definition classifyWakeDispatchFailure (e : wake_error) (sessionId : string) : string * string :=
  let message := errorMessage e ("wake for " +:+ sessionId +:+ " failed") in
  let explicit := match e with
                  | BufferedBrainWakeError r _ _ => nonblank r
                  | OtherWakeError _ r => r ≫= nonblank
                  end in
  (message, default "wake_dispatch_failed" (or_else explicit (postgres_code (chars message)))).

(** ** [chat-wake-failure-summary.ts] *)

Section Failure.
(** the value of the final result that the tool call store keeps, and the tool's name *)
Context (toolDebugLookup : string → string → option (option string * json)).

Definition text_member (e : ChatEvent) (k : string) : option string := stringValue (member (chat_payload e) k).
Definition of_kind (k : string) (e : ChatEvent) : bool := String.eqb (chat_kind e) k.

Definition add_tool_call (k : string) (calls : jsmap string string) (e : ChatEvent) : jsmap string string :=
  if of_kind k e then
    match text_member e "tool_name" with
    | None => calls
    | Some toolName =>
        map_set (default (k +:+ ":" +:+ pretty (length calls) +:+ ":" +:+ toolName) (text_member e "tool_call_id")) toolName calls
    end
  else calls.

Definition toolCallsForChatEvents (events : list ChatEvent) (k : string) : jsmap string string :=
  fold_left (add_tool_call k) events [].

Definition unsuccessfulToolDetail (value : json) : option string :=
  match value with
  | JObject v =>
      match member v "details" with
      | JObject details =>
          let ok_false := match member details "ok" with JBool false => true | _ => false end in
          let action := stringValue (member details "action") in
          if ok_false || bool_decide (action = Some "failed")
          then Some (default "ok=false" (or_else (stringValue (member details "reasonCode")) action)) else None
      | _ => None
      end
  | _ => None
  end.

Definition unsuccessful_tool (sessionId : string) (e : ChatEvent) : option string :=
  if of_kind "tool_call_completed" e then
    match text_member e "debug_detail_id" with
    | Some (String _ _ as detailId) =>
        let record := toolDebugLookup sessionId detailId in
        match unsuccessfulToolDetail (match record with Some (_, v) => v | None => JUndefined end) with
        | Some (String _ _ as detail) =>
            match or_else (text_member e "tool_name") (record ≫= fst) with
            | Some (String _ _ as toolName) => Some (toolName +:+ " (" +:+ detail +:+ ")")
            | _ => Some detail
            end
        | _ => None
        end
    | _ => None
    end
  else None.

(** [String(payload.level ?? "info")] of a level that is a string *)
Definition provider_line (e : ChatEvent) : option string :=
  if of_kind "provider_status" e then
    (λ m, default "info" (text_member e "level") +:+ ": " +:+ m) <$> text_member e "message"
  else None.

Definition when (b : bool) (line : string) : list string := if b then [line] else [].
Definition some_of {A} (l : list A) : bool := match l with [] => false | _ => true end.

Definition failure_lines (base : string) (events : list ChatEvent) (sessionId : string) : list string :=
  let text := Str.trim (mergeTextParts (omap (λ e, if of_kind "assistant_text_delta" e then text_member e "text" else None) events)) in
  let reasoning := length (List.filter (of_kind "assistant_reasoning_delta") events) in
  let startedTools := toolCallsForChatEvents events "tool_call_started" in
  let completedTools := toolCallsForChatEvents events "tool_call_completed" in
  let failedTools := toolCallsForChatEvents events "tool_call_failed" in
  let unsuccessful := omap (unsuccessful_tool sessionId) events in
  let inFlight := List.filter (λ p, negb (map_has p.1 completedTools) && negb (map_has p.1 failedTools)) startedTools in
  let statuses := omap provider_line events in
  ["Assistant turn failed before it could finish: " +:+ base]
  ++ when (negb (String.eqb text "")) ("Partial response before failure: " +:+ truncate text 360)
  ++ when (some_of failedTools) ("Failed tool calls: " +:+ Str.join ", " (take 5 (map_values failedTools)) +:+ ".")
  ++ when (some_of unsuccessful) ("Tool calls reporting unsuccessful results: " +:+ Str.join "; " (take 5 unsuccessful) +:+ ".")
  ++ when (some_of completedTools) ("Completed tool calls before failure: " +:+ pretty (length completedTools) +:+ ".")
  ++ when (some_of inFlight) ("Tool calls still in flight: " +:+ Str.join ", " (take 5 inFlight.*2) +:+ ".")
  ++ when (0 <? reasoning)%nat ("Reasoning updates before failure: " +:+ pretty reasoning +:+ ".")
  ++ when (some_of statuses) ("Recent provider status: " +:+ Str.join "; " (drop (length statuses - 3) statuses) +:+ ".").

Definition buildChatWakeFailureSummaryFromEvents (failureSummary : string) (events : list ChatEvent) (sessionId : string) : string :=
  let base := default "assistant turn failed" (nonblank (Str.trim failureSummary)) in
  match events with
  | [] => base
  | _ => truncate (Str.join (str [newline]) (failure_lines base events sessionId)) 1500
  end.
End Failure.

(** Two deltas of which the second ends what came before are taken for one: a doubled letter
    that falls between two deltas is lost from the summary. *)
Example merged_text_loses_repeats : mergeTextParts ["hel"; "l"; "o"] = "helo".
Proof. reflexivity. Qed.
