(* ===== verification/CompactionArtifact.v ===== *)
(** * The artifact of a context compaction

    [contextCompactionArtifactFromMetadata] of
    [ts/packages/brain-island/src/service-wake-dispatch.ts]: the status event of a compaction
    carries JSON, of which the artifact is made that later wakes read the compacted context
    from.  A compaction that failed without an artifact leaves one that keeps the context as
    it was.  [sha256] is the digest in hex of [node:crypto]. *)

From Stdlib Require Import NArith.
From stdpp Require Import sets list.
From S2P Require Import Prelude JsString Json JsonParse CodexText WakeChat.
#[local] Open Scope Z_scope.

(** A member whose value may be [undefined] or [null]. *)
Definition opt_json (f : option string) : json := match f with Some s => JString s | None => JUndefined end.

Definition isRecord (v : json) : bool := match v with JObject _ => true | _ => false end.

(** [a ?? b] of two members *)
Definition coalesce (a b : json) : json := match a with JUndefined | JNull => b | _ => a end.

Definition nonEmptyString (v : json) : option string :=
  match v with JString s => if String.eqb (Str.trim s) "" then None else Some s | _ => None end.

(** [typeof raw === "string" && raw.trim().length > 0 ? raw.trim() : fallback] *)
Definition trimmed_or (v : json) (fallback : string) : string := default fallback (Str.trim <$> nonEmptyString v).

(** [Number.isSafeInteger(value) && value >= 0 ? value : undefined]; a number is kept by its
    text. *)
Definition nonNegativeInteger (v : json) : json :=
  match v with
  | JNumber t => if Text.all_digits (chars t) && (Text.number (chars t) <=? 2 ^ 53 - 1) then v else JUndefined
  | _ => JUndefined
  end.

Definition positiveInteger (v : json) : json :=
  match nonNegativeInteger v with JNumber t => if Text.number (chars t) =? 0 then JUndefined else JNumber t | _ => JUndefined end.

Definition number_member (o : list (string * json)) (k : string) : json :=
  match member o k with JNumber t => JNumber t | _ => JUndefined end.

Definition defined (v : json) : bool := match v with JUndefined => false | _ => true end.

Section Artifact.
Context {JT : JsonText}.
Context (sha256 : string → string).

Abbreviation record := (list (string * json)).

Definition digest_id (parts : list string) : string :=
  "context_compaction_" +:+ Str.slice (sha256 (Str.join ":" parts)) 0 32.

(** The artifact of a failed compaction that sent none. *)
Definition failed_artifact (sessionId : string) (wakeId : option string) (metadata : record) (now : string) : record :=
  let usage := member metadata "usage" in
  let usageRecord := match usage with JObject o => o | _ => [] end in
  let promptTokens := number_member usageRecord "prompt_tokens" in
  let completionTokens := number_member usageRecord "completion_tokens" in
  let totalTokens := number_member usageRecord "total_tokens" in
  let beforeTokens := coalesce promptTokens (coalesce totalTokens (JNumber "0")) in
  let either k k' := coalesce (member metadata k) (member metadata k') in
  let intentKey := trimmed_or (either "intentKey" "intent_key") (default "manual" wakeId) in
  let sourceFingerprint := trimmed_or (either "sourceProjectionFingerprint" "source_projection_fingerprint") ("manual-" +:+ intentKey) in
  let strategyId := trimmed_or (either "strategyId" "strategy_id") "rolling_summary_compaction" in
  let strategyRevision := trimmed_or (either "strategyRevision" "strategy_revision") "1" in
  let reasonCode := trimmed_or (either "reasonCode" "reason_code") "manual_intent_failed" in
  let estimate := if isRecord usage then usage
                  else JObject [("prompt_tokens", promptTokens); ("completion_tokens", completionTokens); ("total_tokens", totalTokens)] in
  [("artifact_id", JString (digest_id [sessionId; default "unknown_wake" wakeId; intentKey; now]));
   ("session_id", JString sessionId); ("branch_id", JUndefined); ("strategy_id", JString strategyId);
   ("strategy_revision", JString strategyRevision); ("logical_turn_id", JUndefined); ("execution_epoch_id", JUndefined);
   ("source_projection_fingerprint", JString sourceFingerprint); ("trigger", JString "manual_intent");
   ("before_tokens", beforeTokens); ("after_tokens", beforeTokens); ("preserved_item_count", JNumber "0");
   ("excised_item_count", JNumber "0"); ("intent_key", JString intentKey); ("terminal_status", JString "failed");
   ("provider_chain_action", JString "preserve_prior_valid_projection");
   ("source_refs_json", JObject [("source", JString "native_brain_stream_failed"); ("wake_id", opt_json wakeId);
      ("reason_code", JString reasonCode); ("synthetic_failed_artifact", JBool true)]);
   ("provider_metadata_json", JObject [("provider_chain_action", JString "preserve_prior_valid_projection");
      ("source_event_kind", JString "context_compaction_failed"); ("reason_code", JString reasonCode)]);
   ("estimate_before_json", estimate); ("estimate_after_json", estimate);
   ("summary_text", JString ("manual compaction " +:+ intentKey +:+ " failed (" +:+ reasonCode +:+ ") – prior projection preserved"));
   ("enters_future_context", JBool false); ("context_policy", JString strategyId);
   ("metadata_json", JObject [("schema_version", JNumber "1"); ("wake_id", opt_json wakeId);
      ("reason_code", JString reasonCode); ("synthetic_failed_artifact", JBool true)]);
   ("created_at", JString now); ("updated_at", JString now)].

(** The artifact of the event, [a], where it has all that is required. *)
Definition runtime_artifact (sessionId : string) (wakeId : option string) (metadata a : record) (now : string) : option record :=
  let sequence := positiveInteger (member a "sequence") in
  let usageBefore := member a "usageBefore" in
  let estimatedTokensAfter := nonNegativeInteger (member a "estimatedTokensAfter") in
  let compactedItemCount := positiveInteger (member a "compactedItemCount") in
  let retainedItemCount := positiveInteger (member a "retainedItemCount") in
  match nonEmptyString (member a "strategyId"), nonEmptyString (member a "reasonCode"), nonEmptyString (member a "summaryText") with
  | Some strategyId, Some reasonCode, Some summaryText =>
      if defined sequence && isRecord usageBefore && defined estimatedTokensAfter && defined compactedItemCount
         && defined retainedItemCount
      then
        let text k := opt_json (nonEmptyString (member a k)) in
        let providerChainAction := match member a "providerChainAction" with JNull => JNull | v => opt_json (nonEmptyString v) end in
        let strategyPayloadMetadata := match member a "strategyPayloadMetadata" with JObject o => JObject o | _ => JUndefined end in
        let topIntent := nonEmptyString (coalesce (member metadata "intentKey") (member metadata "intent_key")) in
        let intentKey := or_else topIntent (nonEmptyString (member a "intentKey")) in
        let terminalStatus := nonEmptyString (member a "terminalStatus") in
        let sequence_text := match sequence with JNumber t => t | _ => "" end in
        let digest := digest_id [sessionId; default "unknown_wake" wakeId; sequence_text] in
        Some
          [("artifact_id", JString (default digest (nonEmptyString (member a "artifactId"))));
           ("session_id", JString sessionId); ("branch_id", JUndefined); ("strategy_id", JString strategyId);
           ("strategy_revision", text "strategyRevision"); ("logical_turn_id", text "logicalTurnId");
           ("execution_epoch_id", text "executionEpochId");
           ("source_projection_fingerprint", text "sourceProjectionFingerprint"); ("trigger", text "trigger");
           ("before_tokens", nonNegativeInteger (member a "beforeTokens"));
           ("after_tokens", nonNegativeInteger (member a "afterTokens"));
           ("preserved_item_count", nonNegativeInteger (member a "preservedItemCount"));
           ("excised_item_count", nonNegativeInteger (member a "excisedItemCount"));
           ("intent_key", opt_json intentKey); ("terminal_status", opt_json terminalStatus);
           ("provider_chain_action", providerChainAction);
           ("source_refs_json", JObject [("source", JString "native_brain_stream"); ("wake_id", opt_json wakeId);
              ("sequence", sequence); ("reason_code", JString reasonCode); ("compacted_item_count", compactedItemCount);
              ("retained_item_count", retainedItemCount)]);
           ("provider_metadata_json", JObject [("provider_chain_action", providerChainAction);
              ("source_event_kind",
                 JString (if bool_decide (terminalStatus = Some "failed") then "context_compaction_failed"
                          else "context_compaction_completed"))]);
           ("estimate_before_json", usageBefore);
           ("estimate_after_json", JObject [("tokens", estimatedTokensAfter); ("source", JString "serialized_compaction_projection")]);
           ("summary_text", JString summaryText); ("enters_future_context", JBool true); ("context_policy", JString strategyId);
           ("metadata_json", JObject [("schema_version", JNumber "1"); ("runtime_artifact_sequence", sequence);
              ("wake_id", opt_json wakeId); ("reason_code", JString reasonCode); ("strategy_payload", strategyPayloadMetadata)]);
           ("created_at", JString now); ("updated_at", JString now)]
      else None
  | _, _, _ => None
  end.

Definition contextCompactionArtifactFromMetadata (sessionId : string) (wakeId metadataJson : option string) (now : string)
    : option record :=
  match metadataJson with
  | Some (String _ _ as m) =>
      match JSON_parse m with
      | Some (JObject metadata) =>
          match member metadata "artifact" with
          | JObject a => runtime_artifact sessionId wakeId metadata a now
          | _ =>
              if is_string "context_compaction_failed" (member metadata "kind")
              then Some (failed_artifact sessionId wakeId metadata now) else None
          end
      | _ => None
      end
  | _ => None
  end.

(** ** What an artifact says *)

(** What is kept is the session's, and either stands for a compaction that the brain sent, in
    which case its id does not depend on when it was kept, or for one that failed, which
    changes nothing and is not read back. *)
Lemma compaction_artifact_kept s w m now o :
  contextCompactionArtifactFromMetadata s w m now = Some o →
  member o "session_id" = JString s ∧
  ((member o "enters_future_context" = JBool true ∧
    ∀ now', ∃ o', contextCompactionArtifactFromMetadata s w m now' = Some o' ∧ member o' "artifact_id" = member o "artifact_id") ∨
   (member o "enters_future_context" = JBool false ∧ member o "terminal_status" = JString "failed" ∧
    member o "after_tokens" = member o "before_tokens")).
Proof.
  unfold contextCompactionArtifactFromMetadata; destruct m as [[|c t]|]; [done| |done].
  destruct (JSON_parse _) as [[]|]; try done.
  destruct (member o0 "artifact") as [| | | | | |a].
  all: try (destruct (is_string _ _); [|done]; intros [= <-]; split; [reflexivity|right]; repeat split; reflexivity).
  unfold runtime_artifact; destruct (nonEmptyString (member a "strategyId")); [|done].
  destruct (nonEmptyString (member a "reasonCode")); [|done]; destruct (nonEmptyString (member a "summaryText")); [|done].
  destruct (_ && _); [|done]; intros [= <-]; split; [reflexivity|left]; split; [reflexivity|].
  intros now'; eexists; split; [reflexivity|reflexivity].
Qed.
End Artifact.

(** The kind of the event is not read where it carries an artifact: one of a failed
    compaction whose artifact does not name its status is kept as that of a completed one,
    and is read back. *)
Example failed_event_enters_context :
  (λ o, (member o "enters_future_context", member o "terminal_status", member o "provider_metadata_json")) <$>
  runtime_artifact (λ s, s) "s" (Some "w") [("kind", JString "context_compaction_failed")]
    [("sequence", JNumber "1"); ("strategyId", JString "rolling"); ("reasonCode", JString "provider_failed");
     ("usageBefore", JObject []); ("estimatedTokensAfter", JNumber "10"); ("compactedItemCount", JNumber "2");
     ("retainedItemCount", JNumber "3"); ("summaryText", JString "partial")] "now"
  = Some (JBool true, JUndefined,
          JObject [("provider_chain_action", JUndefined); ("source_event_kind", JString "context_compaction_completed")]).
Proof. reflexivity. Qed.
