(* ===== verification/WakeDispatch.v ===== *)
(** * The dispatch of a wake

    [dispatchWake], [observeWakeEvents], [drainSubscriptionEventsUntilIdle],
    [appendCoreEventsToChatLog], [ensureChatWakeTerminalEvents] and their helpers of
    [ts/packages/brain-island/src/service-wake-dispatch.ts], and the queue of settlements of
    [runtime-activity-settlement.ts].

    The sets of sessions in flight and deferred, the bridge, the chat log and the services of
    the context are calls, [WakeCall].  The promise of the brain that is started while its
    events are observed is an operation of its own, [wake_callback]; [StartCallback] is what
    begins it and [ResolveCallback] its end.  Calls by which a dispatch does something that
    it must undo or answer for, and the drain of its events, carry the number [me] of the dispatch, which the source does
    not have. *)

From stdpp Require Import sets list gmap strings.
From S2P Require Import Prelude JsString Json JsonParse CodexText CodexEvents ToolRegistry ToolSelection AsyncCalls WakeChat CompactionArtifact.

(** ** Data *)

Record SessionState := {
  session_id : string;
  session_agentId : string;
  session_profileId : string;
  session_status : string;
  session_limits : option ResourceLimits
}.

(** [WakeRuntimePauseRecord] *)
Record WakePause := { pause_scope : string; pause_targetId : string; pause_reason : option string }.

(** The members of the profile that are read; [mechanic] is [roleplayMechanic] with its
    [autoMonitor]. *)
Record WakeProfile := {
  wake_profileId : string;
  displayName : option string;
  modelConfigId : option string;
  mechanic : option json;
  localToolProfileId : option string
}.

Record WakeProfileContext := { profile : WakeProfile; toolSelection : ToolProfileSelection }.

Record Preparation := { prepared_instructions : list string; prepared_memory : option string }.

Record MechanicPlan := { plan_systemPrompt : string; plan_localToolProfileId : string }.

Record RoleInput := {
  systemPromptOverride : option string;
  sessionMemoryContext : option string;
  additionalInstructions : list string
}.

Record Role := { role_systemPrompt : string; roleAssembly : json }.

Record WakeRequestInput := {
  request_brain : string;
  request_sessionId : string;
  request_systemPrompt : string;
  request_roleAssembly : option string;
  request_wakeId : string
}.

(** What [wakeBrain] answers. *)
Record Accepted := { accepted : bool; accepted_outcome : option string }.

Inductive WakeStatus := wake_completed | wake_continuing | wake_skipped | wake_failed | wake_cancelled.

#[export] Instance WakeStatus_eq_dec : EqDecision WakeStatus.
Proof. solve_decision. Defined.

Record WakeReport := {
  report_sessionId : string;
  report_wakeId : option string;
  report_status : WakeStatus;
  report_summary : string;
  report_reasonCode : option string;
  report_packet : option CompletionPacket;
  report_events : list CoreEvent
}.

Record RuntimeActivityFinish := {
  activityId : string;
  finish_status : string;
  finish_phase : string;
  finish_reasonCode : option string;
  finish_summary : string
}.

Record RuntimeActivityWakeSettlement := {
  settlement_wakeId : string;
  settlement_status : string;
  settlement_reasonCode : option string;
  settlement_summary : string
}.

Record DeferredSettlement := { deferred_wake : RuntimeActivityWakeSettlement; deferred_dispatch : RuntimeActivityFinish }.

(** [PrepareContextStrategy] includes the look for the configured session.  [EnterWake] is the look at the sessions in flight and what follows on it at once: [true]
    where the session is now in flight, [false] where it was, and is deferred.  [queued] says
    that the dispatch comes from the microtask of an earlier one.  [TakeDeferred] takes the
    session from the deferred ones and queues the microtask where it was one of them. *)
Inductive WakeCall : Type → Type :=
| EnterWake (me : nat) (queued : bool) (sessionId : string) : WakeCall bool
| LeaveWake (me : nat) (sessionId : string) : WakeCall ()
| TakeDeferred (me : nat) (sessionId : string) : WakeCall ()
| ListSessions : WakeCall (list SessionState)
| RuntimePauseForSession (x : SessionState) : WakeCall (option WakePause)
| BrainForProfile (profileId : string) : WakeCall (option string)
| NextWakeId (x : SessionState) : WakeCall string
| BeginRuntimeActivity (me : nat) (wakeId : string) (x : SessionState) (source : string) : WakeCall ()
| LoadProfileContext (profileId : string) : WakeCall WakeProfileContext
| PrepareContextStrategy (x : SessionState) (p : WakeProfileContext) : WakeCall Preparation
| RoleplayPromptContext (x : SessionState) : WakeCall (option string)
| PlanRoleplayMechanic (name : string) (modelConfig : option string) (autoMonitor : json) : WakeCall MechanicPlan
| SubscribeEvents (kinds : list string) (sessionId : string) : WakeCall string
| DrainSubscriptionEvents (me : nat) (subscription : string) (limit : nat) : WakeCall (list CoreEvent)
| UnsubscribeEvents (subscription : string) : WakeCall ()
| StartCallback (me : nat) (input : WakeRequestInput) : WakeCall ()
| CallbackSettled (me : nat) : WakeCall bool
| CallbackResult (me : nat) : WakeCall Accepted
| Delay (ms : nat) : WakeCall ()
| BuildBrainWakeRequest (input : WakeRequestInput) : WakeCall json
| WakeBrain (request : json) : WakeCall Accepted
| ResolveCallback (me : nat) (r : outcome wake_error Accepted) : WakeCall ()
| AppendChatEvent (sessionId : string) (e : ChatEvent) : WakeCall ()
| ListChatEvents (x : SessionState) (limit : nat) : WakeCall (list ChatEvent)
| Now : WakeCall string
| SaveCompactionArtifact (artifact : list (string * json)) : WakeCall ()
| PublishWakeToolActivity (x : SessionState) (wakeId : string) (events : list CoreEvent) : WakeCall ()
| RunPostTurnMaintenance (x : SessionState) (p : WakeProfileContext) (wakeId source : string) (events : list CoreEvent)
    (summary : string) : WakeCall ()
| PersistSessionActivityDigest (x : SessionState) (wakeId source : string) (events : list CoreEvent) (summary : string) : WakeCall ()
| SettleRuntimeActivityWake (s : RuntimeActivityWakeSettlement) : WakeCall ()
| FinishRuntimeActivity (f : RuntimeActivityFinish) : WakeCall ()
| DeferSettlement (d : DeferredSettlement) : WakeCall ()
| FirstPendingSettlement : WakeCall (option (string * DeferredSettlement))
| DeletePendingSettlement (wakeId : string) : WakeCall ()
| ReadChatExecution (sessionId : string) : WakeCall SessionExecutionState
| AfterWakeSettled (sessionId : string) (profileId : option string) : WakeCall ()
| RecordEvent (eventType : string) (severity : option string) (summary : string) : WakeCall ().

Abbreviation Wake := (Io wake_error WakeCall).

(** ** Small parts *)

Definition status_name (s : WakeStatus) : string :=
  match s with
  | wake_completed => "completed" | wake_continuing => "continuing" | wake_skipped => "skipped" | wake_failed => "failed"
  | wake_cancelled => "cancelled"
  end.

Definition execution_json_key (x : SessionExecutionState) : json :=
  JArray [JString (execution_sessionId x); JString (lifecycleStatus x); JString (execution_phase x); JString (execution_source x);
          nullable (execution_wakeId x); nullable (execution_logicalTurnId x); nullable (lastOutcome x);
          nullable (execution_reasonCode x)].

Definition executionTransitionKey (x : SessionExecutionState) : option string := stringify (execution_json_key x).

Definition dispatch_activity (wakeId : string) : string := "dispatch:" +:+ wakeId.

Definition runtimeDispatchFinish (r : WakeReport) : option RuntimeActivityFinish :=
  (λ wakeId,
     {| activityId := dispatch_activity wakeId;
        finish_status := match report_status r with
                         | wake_completed | wake_continuing => "completed"
                         | wake_cancelled => "cancelled"
                         | wake_skipped | wake_failed => "failed"
                         end;
        finish_phase := status_name (report_status r);
        finish_reasonCode := report_reasonCode r;
        finish_summary := "wake dispatch " +:+ status_name (report_status r) |}) <$> report_wakeId r.

(** [activityId.replace(/^dispatch:/, "")] *)
Definition without_dispatch (id : string) : string :=
  if Str.startsWith id "dispatch:" then str (drop 9 (chars id)) else id.

Definition runtimeWakeSettlement (f : RuntimeActivityFinish) : RuntimeActivityWakeSettlement :=
  {| settlement_wakeId := without_dispatch (activityId f); settlement_status := finish_status f;
     settlement_reasonCode := finish_reasonCode f; settlement_summary := finish_summary f |}.

Definition plain_report (sessionId : string) (wakeId : option string) (s : WakeStatus) (summary : string)
    (reasonCode : option string) : WakeReport :=
  {| report_sessionId := sessionId; report_wakeId := wakeId; report_status := s; report_summary := summary;
     report_reasonCode := reasonCode; report_packet := None; report_events := [] |}.

Definition record_event (eventType severity summary : string) : Wake () := await (RecordEvent eventType (Some severity) summary).

Definition wakeDispatchSkipped (sessionId reasonCode summary : string) : Wake WakeReport :=
  record_event "brain_wake_skipped" "warning" summary ≫= λ _,
  mret (plain_report sessionId None wake_skipped summary (Some reasonCode)).

Definition runtimePauseSummary (p : WakePause) (sessionId : string) : string :=
  let reason := match pause_reason p with Some (String _ _ as r) => ": " +:+ r | _ => "" end in
  "runtime wake for " +:+ sessionId +:+ " is paused by " +:+ pause_scope p +:+ " " +:+ pause_targetId p +:+ reason.

Definition runtimePauseWakeReport (sessionId : string) (p : WakePause) : Wake WakeReport :=
  wakeDispatchSkipped sessionId "runtime_paused" (runtimePauseSummary p sessionId).

(** [payload.wake_id === wakeId] *)
Definition of_wake (wakeId : string) (e : ChatEvent) : bool := is_string wakeId (member (chat_payload e) "wake_id").

Definition last_execution (events : list CoreEvent) : option SessionExecutionState :=
  last (omap (λ e, match e with session_execution_observed x => Some x | _ => None end) events).

(** ** The chat log *)

Section Service.
Context {JT : JsonText}.
Context (sha256 : string → string).
(** the store of tool calls, by session and detail *)
Context (toolDebugLookup : string → string → option (option string * json)).
(** [buildProfileRoleAssembly], and the registry of tools it is given *)
Context (buildProfileRoleAssembly : WakeProfileContext → RoleInput → Role).
Context (registry : ToolRegistry).
(** [context.afterWakeSettled] is defined *)
Context (settles_after : bool).
(** how often the events of a wake are polled *)
Context (rounds : nat).

Definition persistContextCompactionArtifact (sessionId : string) (artifact : list (string * json)) : Wake () :=
  catch (await (SaveCompactionArtifact artifact))
    (λ x, record_event "context_compaction_artifact_persist_failed" "warning"
            (errorMessage x ("context compaction artifact persistence failed for " +:+ sessionId))).

Definition chat_effect_code (sessionId : string) (f : chat_effect) : Wake () :=
  match f with
  | AppendsChat e => await (AppendChatEvent sessionId e)
  | KeepsCompaction wakeId metadataJson =>
      now ← await Now;
      match contextCompactionArtifactFromMetadata sha256 sessionId wakeId metadataJson now with
      | Some artifact => persistContextCompactionArtifact sessionId artifact
      | None => mret ()
      end
  end.

Definition appendCoreEventsToChatLog (x : SessionState) (wakeId : string) (events : list CoreEvent) : Wake () :=
  for_each (λ _ f, chat_effect_code (session_id x) f) () (events ≫= core_event_effects (session_id x) wakeId).

Record TerminalInput := {
  terminal_status : WakeStatus;
  terminal_summary : option string;
  terminal_reasonCode : option string;
  terminal_source : string;
  requireCompletion : bool;
  requireFinished : bool;
  allowWithoutAssistantTurn : bool
}.

Definition ASSISTANT_TURN_KINDS : list string :=
  ["assistant_turn_started"; "assistant_text_delta"; "assistant_reasoning_delta"; "tool_call_started"; "tool_call_completed";
   "tool_call_failed"].

Definition reason_member (r : option string) : list (string * json) :=
  match r with Some r => [("reason_code", JString r)] | None => [] end.

Definition ensureChatWakeTerminalEventsFromChatLog (x : SessionState) (wakeId : string) (i : TerminalInput) : Wake () :=
  events ← await (ListChatEvents x 1000);
  let wakeEvents := List.filter (of_wake wakeId) events in
  let hasAssistantTurn := existsb (λ e, bool_decide (chat_kind e ∈ ASSISTANT_TURN_KINDS)) wakeEvents in
  if negb hasAssistantTurn && negb (allowWithoutAssistantTurn i) then mret ()
  else
    let needsCompletion := requireCompletion i && negb (existsb (of_kind "assistant_message_completed") wakeEvents) in
    let needsFinished := requireFinished i && negb (existsb (of_kind "assistant_turn_finished") wakeEvents) in
    match needsCompletion, Str.trim <$> terminal_summary i with
    | true, Some (String _ _ as summary) =>
        await (AppendChatEvent (session_id x)
                 {| chat_kind := "assistant_message_completed";
                    chat_payload := [("status", JString (status_name (terminal_status i))); ("summary", JString summary);
                                     ("wake_id", JString wakeId); ("source", JString (terminal_source i))]
                                    ++ reason_member (terminal_reasonCode i) |})
    | _, _ => mret ()
    end ≫= λ _,
    if needsFinished then
      await (AppendChatEvent (session_id x)
               {| chat_kind := "assistant_turn_finished";
                  chat_payload := [("wake_id", JString wakeId); ("source", JString (terminal_source i));
                                   ("status", JString (status_name (terminal_status i)))]
                                  ++ reason_member (terminal_reasonCode i) |})
    else mret ().

Definition starts_assistant_turn (x : SessionState) (wakeId : string) (e : CoreEvent) : bool :=
  match e with
  | brain_event_observed s w b =>
      String.eqb s (session_id x) && match w with JUndefined => true | JString w => String.eqb w wakeId | _ => false end &&
      match b with
      | started | text_delta _ | reasoning_delta _ _ | tool_call_started _ _ | tool_call_finished _ _ _ => true
      | _ => false
      end
  | _ => false
  end.

Definition ensureChatWakeTerminalEvents (x : SessionState) (wakeId : string) (events : list CoreEvent) (summary : string) : Wake () :=
  if existsb (starts_assistant_turn x wakeId) events then
    ensureChatWakeTerminalEventsFromChatLog x wakeId
      {| terminal_status := wake_completed; terminal_summary := Some summary; terminal_reasonCode := None;
         terminal_source := "terminal_fallback"; requireCompletion := true; requireFinished := true;
         allowWithoutAssistantTurn := false |}
  else mret ().

Definition buildChatWakeFailureSummary (active : option (SessionState * string)) (failureSummary : string) : Wake string :=
  let base := default "assistant turn failed" (nonblank (Str.trim failureSummary)) in
  match active with
  | Some (x, String _ _ as wakeId) =>
      events ← await (ListChatEvents x 1000);
      match List.filter (of_wake wakeId) events with
      | [] => mret base
      | wakeEvents => mret (buildChatWakeFailureSummaryFromEvents toolDebugLookup base wakeEvents (session_id x))
      end
  | _ => mret base
  end.

(** ** Observing a wake *)

(** 512 full chunks are [maxEvents]. *)
Fixpoint drain_until_idle (fuel me : nat) (subscription : string) (events : list CoreEvent) : Wake (list CoreEvent) :=
  if (Z.of_nat (length events) <? 65536)%Z then
    match fuel with
    | O => Endless
    | S fuel =>
        chunk ← await (DrainSubscriptionEvents me subscription 128);
        if (length chunk <? 128)%nat then mret (events ++ chunk)
        else drain_until_idle fuel me subscription (events ++ chunk)
    end
  else mret events.

Definition drainSubscriptionEventsUntilIdle (me : nat) (subscription : string) : Wake (list CoreEvent) :=
  drain_until_idle 512 me subscription [].

(** [if (chunk.length > 0) { events.push(...chunk); await onEvents?.(chunk) }] *)
Definition note_events (onEvents : list CoreEvent → Wake ()) (events chunk : list CoreEvent) : Wake (list CoreEvent) :=
  match chunk with
  | [] => mret events
  | _ => onEvents chunk ≫= λ _, mret (events ++ chunk)
  end.

Fixpoint watch_callback (fuel me : nat) (subscription : string) (onEvents : list CoreEvent → Wake ()) (events : list CoreEvent)
    : Wake (list CoreEvent) :=
  match fuel with
  | O => Endless
  | S fuel =>
      settled ← await (CallbackSettled me);
      if settled : bool then mret events
      else
        await (Delay 25) ≫= λ _,
        chunk ← drainSubscriptionEventsUntilIdle me subscription;
        events ← note_events onEvents events chunk;
        watch_callback fuel me subscription onEvents events
  end.

Definition WAKE_EVENT_KINDS : list string :=
  ["session_execution_observed"; "logical_turn_lifecycle_observed"; "brain_event_observed"; "brain_actions_accepted";
   "completion_packet_delivered"].

(** What the promise of the wake does. *)
Definition wake_callback (me : nat) (input : WakeRequestInput) : Wake () :=
  result ← attempt (request ← await (BuildBrainWakeRequest input); await (WakeBrain request));
  await (ResolveCallback me result).

Definition observeWakeEvents (me : nat) (sessionId : string) (input : WakeRequestInput) (onEvents : list CoreEvent → Wake ())
    : Wake (Accepted * list CoreEvent) :=
  subscription ← await (SubscribeEvents WAKE_EVENT_KINDS sessionId);
  finally
    (await (StartCallback me input) ≫= λ _,
     events ← watch_callback rounds me subscription onEvents [];
     value ← await (CallbackResult me);
     finalEvents ← drainSubscriptionEventsUntilIdle me subscription;
     events ← note_events onEvents events finalEvents;
     mret (value, events))
    (catch (await (UnsubscribeEvents subscription)) (λ _, mret ())).

(** ** One dispatch *)

Context (source : string).
(** [options.appendChatEvents !== false] *)
Context (appendChatEvents : bool).

Inductive admission :=
| Skipped (r : WakeReport)
| Permitted (x : SessionState) (brain wakeId : string).

(** From the look at the sessions to the id of the wake. *)
Definition admit_wake (sessionId : string) : Wake admission :=
  let skipped reasonCode summary := r ← wakeDispatchSkipped sessionId reasonCode summary; mret (Skipped r) in
  sessions ← await ListSessions;
  match List.find (λ x, String.eqb (session_id x) sessionId) sessions with
  | None => skipped "wake_session_missing" ("wake for " +:+ sessionId +:+ " skipped because the session is missing")
  | Some x =>
      if String.eqb (session_status x) "archived" then
        skipped "wake_session_archived" ("wake for " +:+ sessionId +:+ " skipped because the session is archived")
      else
        await (RuntimePauseForSession x) ≫= λ pause : option WakePause,
        match pause with
        | Some p => r ← runtimePauseWakeReport sessionId p; mret (Skipped r)
        | None =>
            await (BrainForProfile (session_profileId x)) ≫= λ brain : option string,
            match brain with
            | None =>
                skipped "wake_brain_missing"
                  ("wake for " +:+ sessionId +:+ " skipped because profile " +:+ session_profileId x +:+ " has no registered brain")
            | Some brain => wakeId ← await (NextWakeId x); mret (Permitted x brain wakeId)
            end
        end
  end.

(** Whether the activity of the dispatch has begun. *)
Definition begin_activity (me : nat) (x : SessionState) (wakeId : string) : Wake bool :=
  catch (await (BeginRuntimeActivity me wakeId x source) ≫= λ _, mret true)
    (λ thrown, record_event "runtime_activity_record_failed" "warning" (errorMessage thrown "wake dispatch activity begin failed") ≫= λ _,
              mret false).

Definition role_input (prep : Preparation) (plan : option MechanicPlan) (roleplay : option string) : RoleInput :=
  {| systemPromptOverride := plan_systemPrompt <$> plan;
     sessionMemoryContext := prepared_memory prep;
     additionalInstructions := prepared_instructions prep ++ match roleplay with Some c => [c] | None => [] end |}.

Definition effective_context (x : SessionState) (p : WakeProfileContext) : WakeProfileContext :=
  {| profile := profile p;
     toolSelection := effectiveToolSelectionForResourceLimits (toolSelection p) (session_limits x) registry |}.

(** The role that the brain is given. *)
Definition prepare_role (x : SessionState) : Wake (WakeProfileContext * Role) :=
  p ← await (LoadProfileContext (session_profileId x));
  prep ← await (PrepareContextStrategy x p);
  roleplay ← await (RoleplayPromptContext x);
  plan ← match mechanic (profile p) with
         | None => mret None
         | Some autoMonitor =>
             plan ← await (PlanRoleplayMechanic (default (wake_profileId (profile p)) (displayName (profile p)))
                             (modelConfigId (profile p)) autoMonitor);
             mret (Some plan)
         end;
  let selects_other :=
    match plan with
    | Some l => negb (bool_decide (localToolProfileId (profile p) = Some (plan_localToolProfileId l)))
    | None => false
    end in
  if selects_other then
    raise (OtherWakeError (Some ("roleplay mechanic profile " +:+ wake_profileId (profile p) +:+ " must select local tool profile "
                                 +:+ default "" (plan_localToolProfileId <$> plan))) None)
  else mret (p, buildProfileRoleAssembly (effective_context x p) (role_input prep plan roleplay)).

(** Everything from the context of the profile to the publication of the tools' activity. *)
Definition observe_wake (me : nat) (x : SessionState) (brain wakeId : string)
    : Wake (WakeProfileContext * Accepted * list CoreEvent) :=
  '(p, role) ← prepare_role x;
  '(value, events) ← observeWakeEvents me (session_id x)
     {| request_brain := brain; request_sessionId := session_id x; request_systemPrompt := role_systemPrompt role;
        request_roleAssembly := stringify (roleAssembly role); request_wakeId := wakeId |}
     (λ events, if appendChatEvents then appendCoreEventsToChatLog x wakeId events else mret ());
  await (PublishWakeToolActivity x wakeId events) ≫= λ _,
  mret (p, value, events).

Definition disposed (d : Disposition) : WakeStatus :=
  match disposition d with disposed_cancelled => wake_cancelled | disposed_failed => wake_failed end.

Definition wake_report (x : SessionState) (wakeId : string) (a : Accepted) (events : list CoreEvent) : WakeReport :=
  let d := wakeLifecycleDisposition events in
  let continuing := bool_decide (accepted_outcome a = Some "continuing") in
  {| report_sessionId := session_id x;
     report_wakeId := Some wakeId;
     report_status := default (if accepted a then if continuing then wake_continuing else wake_completed else wake_failed)
                        (disposed <$> d);
     report_summary :=
       default (if accepted a then
                  if continuing then "wake " +:+ wakeId +:+ " yielded and will continue for " +:+ session_agentId x
                  else "wake " +:+ wakeId +:+ " completed for " +:+ session_agentId x
                else "wake " +:+ wakeId +:+ " was rejected for " +:+ session_agentId x)
         (or_else (disposition_summary <$> d) (wakeCompletionSummary events));
     report_reasonCode := or_else (disposition_reasonCode <$> d) (if accepted a then None else Some "wake_rejected");
     report_packet := match d with Some _ => None | None => wakeCompletionPacket events end;
     report_events := events |}.

Definition terminal_events (x : SessionState) (wakeId : string) (events : list CoreEvent) (r : WakeReport) : Wake () :=
  let ends status source require allow :=
    ensureChatWakeTerminalEventsFromChatLog x wakeId
      {| terminal_status := status; terminal_summary := Some (report_summary r); terminal_reasonCode := report_reasonCode r;
         terminal_source := source; requireCompletion := require; requireFinished := true; allowWithoutAssistantTurn := allow |} in
  if appendChatEvents then
    match report_status r with
    | wake_completed =>
        ensureChatWakeTerminalEvents x wakeId events (default (report_summary r) (wakeCompletionSummary events))
    | wake_cancelled => ends wake_cancelled "logical_turn_cancelled" false false
    | wake_failed => ends wake_failed "logical_turn_failed" true true
    | wake_continuing | wake_skipped => mret ()
    end
  else mret ().

(** From the events to the report. *)
Definition finish_wake (x : SessionState) (wakeId : string) (p : WakeProfileContext) (a : Accepted) (events : list CoreEvent)
    : Wake WakeReport :=
  let r := wake_report x wakeId a events in
  terminal_events x wakeId events r ≫= λ _,
  await (RecordEvent (match report_status r with wake_cancelled => "brain_wake_cancelled" | _ => "brain_wake_dispatched" end)
           (match report_status r with wake_failed => Some "error" | wake_cancelled => Some "warning" | _ => None end)
           (report_summary r +:+ " (" +:+ source +:+ ").")) ≫= λ _,
  match report_status r with
  | wake_completed =>
      await (RunPostTurnMaintenance x p wakeId source events (report_summary r)) ≫= λ _,
      await (PersistSessionActivityDigest x wakeId source events (report_summary r))
  | _ => mret ()
  end ≫= λ _,
  mret r.

(** The [catch] of the dispatch; the two branches of the source differ in the code and in
    the source of the terminal events. *)
Definition wake_failure (sessionId : string) (active : option (SessionState * string)) (x : wake_error) : Wake WakeReport :=
  let '(message, reasonCode, terminalSource) :=
    match x with
    | BufferedBrainWakeError r s m => (m, r, s)
    | OtherWakeError _ _ => let '(m, r) := classifyWakeDispatchFailure x sessionId in (m, r, r)
    end in
  summary ← buildChatWakeFailureSummary active message;
  match active with
  | Some (session, wakeId) =>
      if appendChatEvents then
        ensureChatWakeTerminalEventsFromChatLog session wakeId
          {| terminal_status := wake_failed; terminal_summary := Some summary; terminal_reasonCode := Some reasonCode;
             terminal_source := terminalSource; requireCompletion := true; requireFinished := true;
             allowWithoutAssistantTurn := true |}
      else mret ()
  | None => mret ()
  end ≫= λ _,
  record_event "brain_wake_failed" "error" summary ≫= λ _,
  mret (plain_report sessionId (snd <$> active) wake_failed summary (Some reasonCode)).

(** ** The end of a dispatch *)

(** Whether the bridge was told, or the event that says it was not. *)
Definition told (m : Wake ()) (eventType fallback : string) : Wake bool :=
  catch (m ≫= λ _, mret true)
    (λ thrown, record_event eventType "warning" (errorMessage thrown fallback) ≫= λ _, mret false).

Definition settle_activity (f : RuntimeActivityFinish) : Wake () :=
  let s := runtimeWakeSettlement f in
  settled ← told (await (SettleRuntimeActivityWake s)) "runtime_activity_wake_settlement_deferred"
              "wake runtime activity settlement failed";
  finished ← told (await (FinishRuntimeActivity f)) "runtime_activity_record_failed" "wake dispatch activity finish failed";
  if settled && finished then mret () else await (DeferSettlement {| deferred_wake := s; deferred_dispatch := f |}).

Definition project_execution (x : SessionState) (lastObserved : option SessionExecutionState) : Wake () :=
  catch
    (execution ← await (ReadChatExecution (session_id x));
     if bool_decide ((executionTransitionKey <$> lastObserved) = Some (executionTransitionKey execution)) then mret ()
     else await (AppendChatEvent (session_id x)
                   {| chat_kind := "session_execution_changed"; chat_payload := [("execution", execution_json execution)] |}))
    (λ thrown, record_event "session_execution_projection_failed" "warning"
                (errorMessage thrown "wake terminal execution projection failed")).

(** The [finally] of the dispatch, with what the [try] leaves it. *)
Definition conclude (me : nat) (sessionId : string) (active : option (SessionState * string)) (activityStarted : bool)
    (lastObserved : option SessionExecutionState) (r : outcome wake_error WakeReport) : Wake WakeReport :=
  match activityStarted, (match r with Value report => runtimeDispatchFinish report | Raise _ => None end) with
  | true, Some f =>
      settle_activity f ≫= λ _,
      match active with
      | Some (x, _) => if appendChatEvents then project_execution x lastObserved else mret ()
      | None => mret ()
      end
  | _, _ => mret ()
  end ≫= λ _,
  await (LeaveWake me sessionId) ≫= λ _,
  (if settles_after then
     catch (await (AfterWakeSettled sessionId ((λ a, session_profileId a.1) <$> active)))
       (λ thrown, record_event "post_wake_settlement_failed" "error"
                   (errorMessage thrown ("post-wake settlement for " +:+ sessionId +:+ " failed")))
   else mret ()) ≫= λ _,
  await (TakeDeferred me sessionId) ≫= λ _,
  Done r.

(** The wake of a session that has been admitted. *)
Definition dispatch_admitted (me : nat) (sessionId : string) (x : SessionState) (brain wakeId : string) : Wake WakeReport :=
  let active := Some (x, wakeId) in
  activityStarted ← begin_activity me x wakeId;
  observed ← attempt (observe_wake me x brain wakeId);
  match observed with
  | Raise thrown => r ← attempt (wake_failure sessionId active thrown); conclude me sessionId active activityStarted None r
  | Value (p, a, events) =>
      r ← attempt (catch (finish_wake x wakeId p a events) (wake_failure sessionId active));
      conclude me sessionId active activityStarted (last_execution events) r
  end.

Definition dispatchWake (me : nat) (queued : bool) (sessionId : string) : Wake WakeReport :=
  entered ← await (EnterWake me queued sessionId);
  if entered : bool then
    admitted ← attempt (admit_wake sessionId);
    match admitted with
    | Value (Skipped report) => conclude me sessionId None false None (Value report)
    | Raise thrown => r ← attempt (wake_failure sessionId None thrown); conclude me sessionId None false None r
    | Value (Permitted x brain wakeId) => dispatch_admitted me sessionId x brain wakeId
    end
  else mret (plain_report sessionId None wake_skipped
               ("wake for " +:+ sessionId +:+ " skipped because one is already in flight") (Some "wake_already_in_flight")).

(** The microtask that takes up a deferred wake. *)
Definition dispatch_deferred (me : nat) (sessionId : string) : Wake () :=
  catch (dispatchWake me true sessionId ≫= λ _, mret ())
    (λ thrown, record_event "deferred_wake_dispatch_failed" "error"
                (errorMessage thrown ("deferred wake for " +:+ sessionId +:+ " failed"))).
End Service.

(** ** The settlements that were deferred *)

Record Reconciliation := { reconciledWakeIds : list string; reconcile_failure : option (string * wake_error) }.

(** Each round takes the first settlement that is left: the one before it has been deleted. *)
Fixpoint reconcile_settlements (fuel : nat) (done : list string) : Wake Reconciliation :=
  match fuel with
  | O => Endless
  | S fuel =>
      await FirstPendingSettlement ≫= λ next : option (string * DeferredSettlement),
      match next with
      | None => mret {| reconciledWakeIds := done; reconcile_failure := None |}
      | Some (wakeId, d) =>
          told ← attempt (await (SettleRuntimeActivityWake (deferred_wake d)) ≫= λ _,
                          await (FinishRuntimeActivity (deferred_dispatch d)));
          match told with
          | Raise thrown => mret {| reconciledWakeIds := done; reconcile_failure := Some (wakeId, thrown) |}
          | Value _ =>
              await (DeletePendingSettlement wakeId) ≫= λ _,
              reconcile_settlements fuel (done ++ [wakeId])
          end
      end
  end.
