(* ===== verification/WakeDispatchFacts.v ===== *)
(** * No wake is lost, and no two dispatches of a session overlap

    The world of the operations of [WakeDispatch]: the sessions in flight with the dispatch
    that holds each, the deferred sessions, the microtasks that are queued, the activities
    that dispatches have begun and what the bridge was told of their ends, the brains that
    were started and have ended, and the dispatches of which a write to the chat or a drain of
    the events was rejected.  Wakes are requested at any time, dispatches, their brains and
    reconciliations run together, and any call of a service may be rejected with or without
    its effect.

    What an operation may rely on, [rely], and what each of its calls must observe, [guard],
    are stated for the three roles; [working] is code that only works on the session it
    holds, [loud] code that throws only after a fault of its dispatch. *)

From stdpp Require Import sets list gmap gmultiset strings relations.
From S2P Require Import Prelude JsString Json JsonParse CodexText CodexEvents ToolRegistry ToolSelection AsyncCalls WakeChat CompactionArtifact WakeDispatch.

(** ** The world *)

(** [unmet] are the sessions of which a wake was deferred and that no dispatch has entered
    since; [debts] are the dispatches that have entered and not yet looked at the deferred
    sessions; [spawned] are the dispatches that have started their brain, and [resolved]
    those of which it has ended; [faults] are those of which a write to the chat or the drain
    of the events was rejected. *)
Record world := {
  holder : gmap string nat;
  deferred : gset string;
  microtasks : gmultiset string;
  unmet : gset string;
  debts : gmap nat string;
  begun : gmap nat string;
  settled : gset string;
  ended : gset string;
  pending : gmap string DeferredSettlement;
  spawned : gmap nat WakeRequestInput;
  resolved : gmap nat (outcome wake_error Accepted);
  faults : gset nat
}.

Definition empty_world : world :=
  {| holder := ∅; deferred := ∅; microtasks := ∅; unmet := ∅; debts := ∅; begun := ∅; settled := ∅; ended := ∅; pending := ∅;
     spawned := ∅; resolved := ∅; faults := ∅ |}.

Definition unqueue (queued : bool) (s : string) (w : world) : gmultiset string :=
  if queued then microtasks w ∖ {[+ s +]} else microtasks w.

Definition entered (me : nat) (queued : bool) (s : string) (w : world) : world :=
  {| holder := <[s := me]> (holder w); deferred := deferred w; microtasks := unqueue queued s w; unmet := unmet w ∖ {[s]};
     debts := <[me := s]> (debts w); begun := begun w; settled := settled w; ended := ended w; pending := pending w;
     spawned := spawned w; resolved := resolved w; faults := faults w |}.

Definition postponed (queued : bool) (s : string) (w : world) : world :=
  {| holder := holder w; deferred := {[s]} ∪ deferred w; microtasks := unqueue queued s w; unmet := {[s]} ∪ unmet w;
     debts := debts w; begun := begun w; settled := settled w; ended := ended w; pending := pending w; spawned := spawned w;
     resolved := resolved w; faults := faults w |}.

Definition left_ (s : string) (w : world) : world :=
  {| holder := delete s (holder w); deferred := deferred w; microtasks := microtasks w; unmet := unmet w; debts := debts w;
     begun := begun w; settled := settled w; ended := ended w; pending := pending w; spawned := spawned w; resolved := resolved w; faults := faults w |}.

Definition taken (me : nat) (s : string) (w : world) : world :=
  {| holder := holder w; deferred := deferred w ∖ {[s]};
     microtasks := if bool_decide (s ∈ deferred w) then microtasks w ⊎ {[+ s +]} else microtasks w; unmet := unmet w;
     debts := delete me (debts w); begun := begun w; settled := settled w; ended := ended w; pending := pending w;
     spawned := spawned w; resolved := resolved w; faults := faults w |}.

Definition with_begun (me : nat) (wakeId : string) (w : world) : world :=
  {| holder := holder w; deferred := deferred w; microtasks := microtasks w; unmet := unmet w; debts := debts w;
     begun := <[me := wakeId]> (begun w); settled := settled w; ended := ended w; pending := pending w; spawned := spawned w;
     resolved := resolved w; faults := faults w |}.

Definition with_ends (st en : gset string) (p : gmap string DeferredSettlement) (w : world) : world :=
  {| holder := holder w; deferred := deferred w; microtasks := microtasks w; unmet := unmet w; debts := debts w; begun := begun w;
     settled := st; ended := en; pending := p; spawned := spawned w; resolved := resolved w; faults := faults w |}.

Definition with_callback (sp : gmap nat WakeRequestInput) (rs : gmap nat (outcome wake_error Accepted)) (w : world) : world :=
  {| holder := holder w; deferred := deferred w; microtasks := microtasks w; unmet := unmet w; debts := debts w; begun := begun w;
     settled := settled w; ended := ended w; pending := pending w; spawned := sp; resolved := rs; faults := faults w |}.

Definition with_fault (o : option nat) (w : world) : world :=
  {| holder := holder w; deferred := deferred w; microtasks := microtasks w; unmet := unmet w; debts := debts w; begun := begun w;
     settled := settled w; ended := ended w; pending := pending w; spawned := spawned w; resolved := resolved w;
     faults := match o with Some me => {[me]} ∪ faults w | None => faults w end |}.

(** A service that may do its work and yet be rejected. *)
Definition does {A} (w2 : world) (w : world) (r : outcome wake_error A) (w' : world) : Prop :=
  match r with Value _ => w' = w2 | Raise _ => w' = w ∨ w' = w2 end.

Definition effect (B : Type) (e : WakeCall B) : world → outcome wake_error B → world → Prop :=
  match e in WakeCall B return world → outcome wake_error B → world → Prop with
  | EnterWake me queued s => λ w r w',
      match holder w !! s with
      | None => r = Value true ∧ w' = entered me queued s w
      | Some _ => r = Value false ∧ w' = postponed queued s w
      end
  | LeaveWake me s => λ w r w', r = Value () ∧ w' = left_ s w
  | TakeDeferred me s => λ w r w', r = Value () ∧ w' = taken me s w
  | BeginRuntimeActivity me wakeId x _ => λ w r w',
      match r with Value _ => w' = with_begun me wakeId w | Raise _ => w' = w end
  | SettleRuntimeActivityWake s => λ w r w', does (with_ends ({[settlement_wakeId s]} ∪ settled w) (ended w) (pending w) w) w r w'
  | FinishRuntimeActivity f => λ w r w', does (with_ends (settled w) ({[activityId f]} ∪ ended w) (pending w) w) w r w'
  | DeferSettlement d => λ w r w',
      r = Value () ∧ w' = with_ends (settled w) (ended w) (<[settlement_wakeId (deferred_wake d) := d]> (pending w)) w
  | FirstPendingSettlement => λ w r w',
      w' = w ∧ match r with
               | Value None => pending w = ∅
               | Value (Some (k, d)) => pending w !! k = Some d
               | Raise _ => False
               end
  | DeletePendingSettlement k => λ w r w', r = Value () ∧ w' = with_ends (settled w) (ended w) (delete k (pending w)) w
  | StartCallback me input => λ w r w', r = Value () ∧ w' = with_callback (<[me := input]> (spawned w)) (delete me (resolved w)) w
  | CallbackSettled me => λ w r w', w' = w ∧ r = Value (bool_decide (is_Some (resolved w !! me)))
  | CallbackResult me => λ w r w', w' = w ∧ resolved w !! me = Some r
  | ResolveCallback me x => λ w r w', r = Value () ∧ w' = with_callback (spawned w) (<[me := x]> (resolved w)) w
  | DrainSubscriptionEvents me _ _ => λ w r w', w' = match r with Value _ => w | Raise _ => with_fault (Some me) w end
  | AppendChatEvent s _ => λ w r w', w' = match r with Value _ => w | Raise _ => with_fault (holder w !! s) w end
  | RecordEvent _ _ _ => λ w r w', w' = w ∧ r = Value ()
  | Delay _ => λ w r w', w' = w ∧ r = Value ()
  | Now => λ w r w', w' = w ∧ ∃ now, r = Value now
  | _ => λ w r w', w' = w
  end.

(** ** The operations *)

(** [reports]: a dispatch whose report somebody awaits, rather than one of a microtask. *)
Inductive role := Dispatcher (reports : bool) (me : nat) | Callback (me : nat) | Reconciler.

Definition owner (t : role) : option nat := match t with Dispatcher _ me => Some me | _ => None end.

(** Every dispatch and every promise of a brain is there once. *)
Definition beside (t t' : role) : Prop :=
  match t, t' with
  | Dispatcher _ a, Dispatcher _ b => a ≠ b
  | Callback a, Callback b => a ≠ b
  | _, _ => True
  end.

#[global] Instance beside_sym : Symmetric beside.
Proof. intros [] []; cbn; auto. Qed.

Section Runs.
Context {JT : JsonText}.
Context (sha256 : string → string) (toolDebugLookup : string → string → option (option string * json)).
Context (buildProfileRoleAssembly : WakeProfileContext → RoleInput → Role) (registry : ToolRegistry).
Context (settles_after : bool) (rounds : nat).

Abbreviation dispatchWake := (dispatchWake sha256 toolDebugLookup buildProfileRoleAssembly registry settles_after rounds).
Abbreviation dispatch_deferred := (dispatch_deferred sha256 toolDebugLookup buildProfileRoleAssembly registry settles_after rounds).

(** The number of a dispatch is not in use. *)
Inductive starts : world → process role wake_error WakeCall → Prop :=
| starts_request w me source chat s :
    debts w !! me = None → begun w !! me = None → spawned w !! me = None →
    starts w (Process (Dispatcher true me) (dispatchWake source chat me false s))
| starts_microtask w me source chat s :
    debts w !! me = None → begun w !! me = None → spawned w !! me = None → s ∈ microtasks w →
    starts w (Process (Dispatcher false me) (dispatch_deferred source chat me s))
| starts_callback w me input :
    spawned w !! me = Some input → resolved w !! me = None → starts w (Process (Callback me) (wake_callback me input))
| starts_reconcile w fuel : starts w (Process Reconciler (reconcile_settlements fuel [])).

(** Nothing happens outside, and no operation is lost: the service holds all of this in its
    memory. *)
Definition nothing (w w' : world) : Prop := False.

Abbreviation steps := (step effect nothing starts beside false).

(** ** The invariant *)

Record invariant (w : world) : Prop := {
  inv_holder : ∀ s me, holder w !! s = Some me → debts w !! me = Some s;
  inv_deferred : ∀ s, s ∈ deferred w → ∃ me, debts w !! me = Some s;
  inv_unmet : ∀ s, s ∈ unmet w → s ∈ deferred w ∨ s ∈ microtasks w;
  inv_pending : ∀ k d, pending w !! k = Some d →
    settlement_wakeId (deferred_wake d) = k ∧ activityId (deferred_dispatch d) = dispatch_activity k;
  inv_brain : ∀ me input, spawned w !! me = Some input →
    is_Some (resolved w !! me) ∨ me ∈ faults w ∨ holder w !! request_sessionId input = Some me;
  inv_resolved : ∀ me, is_Some (resolved w !! me) → is_Some (spawned w !! me)
}.

(** The bridge has been told of the end of a wake, or will be. *)
Definition told_end (w : world) (wakeId : string) : Prop := wakeId ∈ settled w ∧ dispatch_activity wakeId ∈ ended w.
Definition answered (w : world) (wakeId : string) : Prop := told_end w wakeId ∨ is_Some (pending w !! wakeId).

Record grows (w w' : world) : Prop := {
  grows_settled : settled w ⊆ settled w';
  grows_ended : ended w ⊆ ended w';
  grows_answered : ∀ k, answered w k → answered w' k;
  grows_faults : faults w ⊆ faults w'
}.

(** What is the dispatch's own. *)
Record keeps (me : nat) (w w' : world) : Prop := {
  keeps_holder : ∀ s, holder w' !! s = Some me ↔ holder w !! s = Some me;
  keeps_debts : debts w' !! me = debts w !! me;
  keeps_begun : begun w' !! me = begun w !! me;
  keeps_spawned : spawned w' !! me = spawned w !! me;
  keeps_resolved : is_Some (resolved w !! me) → is_Some (resolved w' !! me)
}.

(** What is its brain's own. *)
Record undisturbed (me : nat) (w w' : world) : Prop := {
  undisturbed_spawned : ∀ input, spawned w !! me = Some input → spawned w' !! me = Some input;
  undisturbed_resolved : resolved w' !! me = resolved w !! me
}.

Definition rely (t : role) (w w' : world) : Prop :=
  grows w w' ∧
  match t with
  | Dispatcher _ me => keeps me w w'
  | Callback me => undisturbed me w w'
  | Reconciler => True
  end.

#[global] Instance grows_pre : PreOrder grows.
Proof. split; [by intros w; split|]; intros w1 w2 w3 [] []; split; [set_solver|set_solver|auto|set_solver]. Qed.

#[global] Instance keeps_pre me : PreOrder (keeps me).
Proof.
  split; [by intros w; split|]; intros w1 w2 w3 [h1 d1 b1 s1 r1] [h2 d2 b2 s2 r2]; split; [|congruence|congruence|congruence|auto].
  intros s; by rewrite h2.
Qed.

#[global] Instance undisturbed_pre me : PreOrder (undisturbed me).
Proof. split; [by intros w; split|]; intros w1 w2 w3 [] []; split; [auto|congruence]. Qed.

#[global] Instance rely_pre t : PreOrder (rely t).
Proof.
  split; [intros w; split; [done|by destruct t]|].
  intros w1 w2 w3 [G1 K1] [G2 K2]; split; [by transitivity w2|]; destruct t; [by transitivity w2|by transitivity w2|done].
Qed.

(** The session on which a call does the work of a wake. *)
Definition session_work {B} (e : WakeCall B) : option string :=
  match e with
  | BeginRuntimeActivity _ _ x _ => Some (session_id x)
  | StartCallback _ input => Some (request_sessionId input)
  | AppendChatEvent s _ => Some s
  | SubscribeEvents _ s => Some s
  | PublishWakeToolActivity x _ _ => Some (session_id x)
  | RunPostTurnMaintenance x _ _ _ _ _ => Some (session_id x)
  | PersistSessionActivityDigest x _ _ _ _ => Some (session_id x)
  | LeaveWake _ s => Some s
  | _ => None
  end.

Definition numbered {B} (e : WakeCall B) : option nat :=
  match e with
  | EnterWake me _ _ | LeaveWake me _ | TakeDeferred me _ | BeginRuntimeActivity me _ _ _ | StartCallback me _
  | DrainSubscriptionEvents me _ _ => Some me
  | _ => None
  end.

(** If the dispatch has started its brain, the brain has ended, or a write to the chat or a
    drain of the events was rejected. *)
Definition brain_over (me : nat) (w : world) : Prop := is_Some (spawned w !! me) → is_Some (resolved w !! me) ∨ me ∈ faults w.

(** The brain of [me] is under way with [input]. *)
Definition brain_works (t : role) (input : WakeRequestInput) (w : world) : Prop :=
  ∃ me, t = Callback me ∧ spawned w !! me = Some input ∧ resolved w !! me = None.

Definition guard (t : role) (B : Type) (e : WakeCall B) (w : world) : Prop :=
  (∀ me, numbered e = Some me → owner t = Some me) ∧
  (∀ s, session_work e = Some s → ∃ me, owner t = Some me ∧ holder w !! s = Some me) ∧
  match e with
  | EnterWake me _ s => debts w !! me = None
  | StartCallback me _ => spawned w !! me = None
  | LeaveWake me _ => brain_over me w
  | BuildBrainWakeRequest input => brain_works t input w
  | WakeBrain _ => ∃ input, brain_works t input w
  | ResolveCallback me _ => t = Callback me ∧ is_Some (spawned w !! me)
  | TakeDeferred me s => debts w !! me = Some s ∧ ∀ s', holder w !! s' ≠ Some me
  | DeferSettlement d => activityId (deferred_dispatch d) = dispatch_activity (settlement_wakeId (deferred_wake d))
  | DeletePendingSettlement k => told_end w k
  | _ => True
  end.

(** ** Each call keeps the invariant *)

Definition steady {B} (e : WakeCall B) : bool :=
  match e with
  | EnterWake _ _ _ | LeaveWake _ _ | TakeDeferred _ _ | BeginRuntimeActivity _ _ _ _ | SettleRuntimeActivityWake _
  | FinishRuntimeActivity _ | DeferSettlement _ | DeletePendingSettlement _ | StartCallback _ _ | ResolveCallback _ _ => false
  | _ => true
  end.

(** Nothing but a fault. *)
Definition same (w w' : world) : Prop := w' = w ∨ ∃ o, w' = with_fault o w.

Lemma steady_same B (e : WakeCall B) w r w' : steady e = true → effect B e w r w' → same w w'.
Proof.
  unfold same; destruct e; cbn; try done; intros _;
    first [intros ->; destruct r; eauto|intros [-> _]; eauto|intros [_ ->]; eauto].
Qed.

Lemma fault_invariant o w : invariant w → invariant (with_fault o w).
Proof.
  intros []; split; cbn; [done|done|done|done| |done].
  intros me input H; destruct (inv_brain0 me input H) as [?|[?|?]]; [by left|right; left; destruct o; set_solver|auto].
Qed.

Lemma untouched_ends w w' :
  settled w' = settled w → ended w' = ended w → pending w' = pending w → faults w ⊆ faults w' → grows w w'.
Proof. intros s e p f; split; unfold answered, told_end; rewrite ?s, ?e, ?p; done. Qed.

Lemma fault_grows o w : grows w (with_fault o w).
Proof. apply untouched_ends; [done|done|done|]; destruct o; cbn; set_solver. Qed.

Lemma same_invariant w w' : same w w' → invariant w → invariant w'.
Proof. intros [->|[o ->]]; [done|apply fault_invariant]. Qed.

Lemma same_rely t w w' : same w w' → rely t w w'.
Proof. intros [->|[o ->]]; [done|]; split; [apply fault_grows|]; by destruct t. Qed.

Lemma unqueued_other q s s' w : s' ≠ s → s' ∈ microtasks w → s' ∈ unqueue q s w.
Proof. unfold unqueue; destruct q; [|done]; multiset_solver. Qed.

(** What a dispatch does leaves the other dispatches alone, and the brains. *)
Definition apart_from (me : nat) (w w' : world) : Prop :=
  grows w w' ∧ (∀ me', me ≠ me' → keeps me' w w') ∧ ∀ me', undisturbed me' w w'.

Lemma entered_keeps me q s w :
  invariant w → holder w !! s = None → debts w !! me = None →
  invariant (entered me q s w) ∧ apart_from me w (entered me q s w).
Proof.
  intros [ih id iu ip ib ir] Hs Hd; split; [|split; [by apply untouched_ends|split; [|done]]].
  - split; cbn; [| | |done| |done].
    + intros s' me' [[<- <-]|[Hne H]]%lookup_insert_Some; [by rewrite lookup_insert_eq|].
      apply ih in H; rewrite lookup_insert_ne; [done|congruence].
    + intros s' [me' H]%id; exists me'; rewrite lookup_insert_ne; [done|congruence].
    + intros s' [Hu Hne]%elem_of_difference; destruct (iu s' Hu) as [?|Hm]; [by left|right].
      apply unqueued_other; [set_solver|done].
    + intros me' input [?|[?|H]]%ib; [auto|auto|right; right]; rewrite lookup_insert_ne; [done|congruence].
  - intros me' Hne; split; cbn; [|by rewrite lookup_insert_ne|done|done|done]; intros s'; rewrite lookup_insert_Some; split.
    + by intros [[-> ->]|[_ ?]].
    + intros H; right; split; [congruence|done].
Qed.

Lemma postponed_keeps me q s w :
  invariant w → holder w !! s = Some me → invariant (postponed q s w) ∧ ∀ t, rely t w (postponed q s w).
Proof.
  intros [ih id iu ip ib ir] Hs; split; [|intros t; split; [by apply untouched_ends|by destruct t]]; split; cbn; [done| | |done|done|done].
  - intros s' [->%elem_of_singleton|H]%elem_of_union; [exists me; by apply ih|by apply id].
  - intros s' [->%elem_of_singleton|Hu]%elem_of_union; [left; set_solver|].
    destruct (decide (s' = s)) as [->|Hne]; [left; set_solver|]; destruct (iu s' Hu) as [?|Hm]; [left; set_solver|right].
    by apply unqueued_other.
Qed.

Lemma left_keeps me s w :
  invariant w → holder w !! s = Some me → brain_over me w → invariant (left_ s w) ∧ apart_from me w (left_ s w).
Proof.
  intros [ih id iu ip ib ir] Hs Hov; split; [split; cbn; [|done|done|done| |done]|split; [by apply untouched_ends|split; [|done]]].
  - intros s' me' [_ H]%lookup_delete_Some; by apply ih.
  - intros me' input H; destruct (decide (me' = me)) as [->|Hne]; [destruct Hov; eauto|].
    destruct (ib me' input H) as [?|[?|Hh]]; [auto|auto|right; right]; rewrite lookup_delete_ne; [done|congruence].
  - intros me' Hne; split; cbn; [|done|done|done|done]; intros s'; rewrite lookup_delete_Some; split; [by intros []|].
    intros H; split; [congruence|done].
Qed.

Lemma taken_keeps me s w :
  invariant w → debts w !! me = Some s → (∀ s', holder w !! s' ≠ Some me) →
  invariant (taken me s w) ∧ apart_from me w (taken me s w).
Proof.
  intros [ih id iu ip ib ir] Hd Hh; split; [|split; [by apply untouched_ends|split; [|done]]].
  - split; cbn; [| | |done|done|done].
    + intros s' me' H; rewrite lookup_delete_ne; [by apply ih|intros <-; by eapply Hh].
    + intros s' [H Hne]%elem_of_difference; destruct (id s' H) as [me' Hm]; exists me'; rewrite lookup_delete_ne; [done|].
      intros <-; rewrite Hd in Hm; injection Hm as <-; set_solver.
    + intros s' Hu; destruct (iu s' Hu) as [H|H]; [|right; case_bool_decide; multiset_solver].
      destruct (decide (s' = s)) as [->|Hne]; [right; rewrite bool_decide_true by done; multiset_solver|left; set_solver].
  - intros me' Hne; split; cbn; [done|by rewrite lookup_delete_ne|done|done|done].
Qed.

Lemma begun_keeps me k w : invariant w → invariant (with_begun me k w) ∧ apart_from me w (with_begun me k w).
Proof.
  intros []; split; [by split|]; split; [by apply untouched_ends|]; split; [|done].
  intros me' Hne; split; cbn; [done|done|by rewrite lookup_insert_ne|done|done].
Qed.

(** A brain is started once, by a dispatch that holds the session. *)
Lemma brain_started me input w :
  invariant w → spawned w !! me = None → holder w !! request_sessionId input = Some me →
  let w' := with_callback (<[me := input]> (spawned w)) (delete me (resolved w)) w in invariant w' ∧ apart_from me w w'.
Proof.
  intros [ih id iu ip ib ir] Hs Hh; split; [split; cbn; [done|done|done|done| |]|split; [by apply untouched_ends|split]].
  - intros me' input' [[<- <-]|[Hne H]]%lookup_insert_Some; [auto|]; rewrite lookup_delete_ne by done; by apply ib.
  - intros me' [r [Hne H]%lookup_delete_Some]; rewrite lookup_insert_ne by done; apply ir; eauto.
  - intros me' Hne; split; cbn; [done|done|done|by rewrite lookup_insert_ne|by rewrite lookup_delete_ne].
  - intros me'; split; cbn.
    + intros input' H; rewrite lookup_insert_ne; [done|congruence].
    + destruct (decide (me = me')) as [<-|Hne]; [|by rewrite lookup_delete_ne].
      rewrite lookup_delete_eq; symmetry; apply eq_None_not_Some; intros H%ir; rewrite Hs in H; by destruct H.
Qed.

Lemma brain_ended me r w :
  invariant w → is_Some (spawned w !! me) →
  let w' := with_callback (spawned w) (<[me := r]> (resolved w)) w in
  invariant w' ∧ grows w w' ∧ (∀ me', keeps me' w w') ∧ ∀ me', me ≠ me' → undisturbed me' w w'.
Proof.
  intros [ih id iu ip ib ir] Hs.
  assert (∀ me', is_Some (resolved w !! me') → is_Some (<[me := r]> (resolved w) !! me')) as Hr.
  { intros me' H; destruct (decide (me = me')) as [<-|Hne]; [rewrite lookup_insert_eq; eauto|by rewrite lookup_insert_ne]. }
  split; [split; cbn; [done|done|done|done| |]|split; [by apply untouched_ends|split]].
  - intros me' input [?|[?|?]]%ib; auto.
  - intros me' [r' [[<- _]|[Hne H]]%lookup_insert_Some]; [done|apply ir; eauto].
  - intros me'; split; cbn; auto; done.
  - intros me' Hne; split; cbn; [done|by rewrite lookup_insert_ne].
Qed.

(** What is told of the ends of wakes is nobody's own. *)
Lemma ends_keeps st en p w :
  invariant w → settled w ⊆ st → ended w ⊆ en →
  (∀ k d, p !! k = Some d → settlement_wakeId (deferred_wake d) = k ∧ activityId (deferred_dispatch d) = dispatch_activity k) →
  (∀ k, is_Some (pending w !! k) → answered (with_ends st en p w) k) →
  invariant (with_ends st en p w) ∧ ∀ t, rely t w (with_ends st en p w).
Proof.
  intros [ih id iu ip ib ir] Hs He Hp Ha; split; [by split|]; intros t; split; [|by destruct t]; split; [done|done| |done].
  intros k [[H1 H2]|H]; [left; split; cbn; set_solver|by apply Ha].
Qed.

(** The ends of wakes. *)
Lemma settlement_keeps t B (e : WakeCall B) w r w' :
  invariant w → guard t B e w → effect B e w r w' →
  match e with
  | SettleRuntimeActivityWake _ | FinishRuntimeActivity _ | DeferSettlement _ | DeletePendingSettlement _ => True
  | _ => False
  end → invariant w' ∧ ∀ t', rely t' w w'.
Proof.
  intros I (_ & _ & Hg) He; destruct e; try done; intros _; cbn in He.
  - assert (w' = w ∨ w' = with_ends ({[settlement_wakeId s]} ∪ settled w) (ended w) (pending w) w) as [->| ->]
      by (destruct r; cbn in He; auto); [done|].
    apply ends_keeps; [done|set_solver|done|apply (inv_pending _ I)|]; intros k Hk; by right.
  - assert (w' = w ∨ w' = with_ends (settled w) ({[activityId f]} ∪ ended w) (pending w) w) as [->| ->]
      by (destruct r; cbn in He; auto); [done|].
    apply ends_keeps; [done|done|set_solver|apply (inv_pending _ I)|]; intros k Hk; by right.
  - destruct He as [-> ->]; apply ends_keeps; [done|done|done| |].
    + intros k d' [[<- <-]|[_ H]]%lookup_insert_Some; [done|by apply (inv_pending _ I)].
    + intros k Hk; right; cbn; destruct (decide (k = settlement_wakeId (deferred_wake d))) as [->|Hne].
      * rewrite lookup_insert_eq; eauto.
      * by rewrite lookup_insert_ne.
  - destruct He as [-> ->]; apply ends_keeps; [done|done|done| |].
    + intros k d' [_ H]%lookup_delete_Some; by apply (inv_pending _ I).
    + intros k Hk; destruct (decide (k = wakeId)) as [->|Hne]; [by left|right]; cbn; by rewrite lookup_delete_ne.
Qed.

Lemma apart_rely t me w w' : owner t = Some me → apart_from me w w' → ∀ t', beside t t' → rely t' w w'.
Proof. destruct t; intros [= ->] (G & K & U) [] Hb; cbn in Hb; split; auto. Qed.

Lemma wake_call_keeps t B (e : WakeCall B) w r w' :
  invariant w → guard t B e w → effect B e w r w' → invariant w' ∧ ∀ t', beside t t' → rely t' w w'.
Proof.
  intros I G He; pose proof (settlement_keeps t B e w r w' I G He) as Hends; destruct G as (Hn & Hs & Hg).
  destruct (steady e) eqn:Hst.
  { pose proof (steady_same _ _ _ _ _ Hst He) as Hsame; split; [by eapply same_invariant|]; intros t' _; by apply same_rely. }
  destruct e; try done; clear Hst; cbn in He;
    try (destruct (Hends Logic.I) as [? HR]; split; [done|]; intros; apply HR); clear Hends;
    try specialize (Hn _ eq_refl).
  - destruct (holder w !! sessionId) as [me'|] eqn:Hh; destruct He as [-> ->].
    + destruct (postponed_keeps me' queued sessionId w I Hh) as [I1 R]; split; [done|]; intros; apply R.
    + destruct (entered_keeps me queued sessionId w I Hh Hg) as [I1 K]; split; [done|by eapply apart_rely].
  - destruct He as [-> ->]; destruct (Hs _ eq_refl) as (me' & Hme & Hh); rewrite Hn in Hme; injection Hme as <-.
    destruct (left_keeps me sessionId w I Hh Hg) as [I1 K]; split; [done|by eapply apart_rely].
  - destruct He as [-> ->]; destruct Hg as [Hd Hh].
    destruct (taken_keeps me sessionId w I Hd Hh) as [I1 K]; split; [done|by eapply apart_rely].
  - destruct (begun_keeps me wakeId w I) as [I1 K].
    destruct r; subst w'; [|by split]; split; [done|by eapply apart_rely].
  - destruct He as [-> ->]; destruct (Hs _ eq_refl) as (me' & Hme & Hh); rewrite Hn in Hme; injection Hme as <-.
    destruct (brain_started me input w I Hg Hh) as [I1 K]; split; [done|by eapply apart_rely].
  - destruct He as [-> ->], Hg as [-> Hg]; destruct (brain_ended me r0 w I Hg) as (I1 & G & K & U); split; [done|].
    intros [] Hb; cbn in Hb; split; auto.
Qed.

(** ** Work on a session that a dispatch holds *)

Abbreviation wp := (wp effect invariant rely guard).

(** Every call of [m] leaves the marks of the dispatches alone and works on the session [os]
    at most; what [m] ends with satisfies [Q]. *)
Definition works {B} (t : role) (os : option string) (e : WakeCall B) : Prop :=
  steady e = true ∧ (∀ me, numbered e = Some me → owner t = Some me) ∧ (session_work e = None ∨ session_work e = os) ∧
  match e with BuildBrainWakeRequest _ | WakeBrain _ => False | _ => True end.

(** A call that does not throw. *)
Definition total {B} (e : WakeCall B) : bool :=
  match e with RecordEvent _ _ _ | Now | Delay _ | CallbackSettled _ => true | _ => false end.

Lemma total_returns {B} (e : WakeCall B) w r w' : total e = true → effect B e w r w' → returned r = true.
Proof. destruct e; try done; intros _; cbn; [by intros [_ ->]|by intros [_ ->]|by intros [_ [now ->]]|by intros [_ ->]]. Qed.

Fixpoint working (t : role) (os : option string) {A} (Q : outcome wake_error A → Prop) (m : Wake A) : Prop :=
  match m with
  | Done r => Q r
  | Endless => True
  | Await e k => works t os e ∧ ∀ r, (total e = true → returned r = true) → working t os Q (k r)
  end.

Lemma working_mono t os {A} (Q Q' : outcome wake_error A → Prop) m : (∀ r, Q r → Q' r) → working t os Q m → working t os Q' m.
Proof. intros HQ; induction m as [r| |B e k IH]; cbn; [auto|done|]; intros []; split; auto. Qed.

Lemma working_continue t os {A B} (m : Wake A) (k : outcome wake_error A → Wake B) Q :
  working t os (λ r, working t os Q (k r)) m → working t os Q (continue m k).
Proof. induction m as [r| |C e k' IH]; cbn; [done|done|]; intros []; split; auto. Qed.

Lemma working_bind t os {A B} (m : Wake A) (f : A → Wake B) Q :
  working t os (λ r, match r with Value a => working t os Q (f a) | Raise x => Q (Raise x) end) m → working t os Q (m ≫= f).
Proof. intros Hm; apply working_continue; eapply working_mono; [|exact Hm]; by intros [a|x]. Qed.

Definition anything {A} (r : outcome wake_error A) : Prop := True.

Lemma working_then t os {A B} (m : Wake A) (f : A → Wake B) :
  working t os anything m → (∀ a, working t os anything (f a)) → working t os anything (m ≫= f).
Proof. intros Hm Hf; apply working_bind; eapply working_mono; [|exact Hm]; by intros [a|x]. Qed.

Lemma working_handled t os {A B} (m : Wake A) (k : outcome wake_error A → Wake B) :
  working t os anything m → (∀ r, working t os anything (k r)) → working t os anything (continue m k).
Proof. intros Hm Hk; apply working_continue; eapply working_mono; [|exact Hm]; auto. Qed.

Lemma working_call t os {A} (e : WakeCall A) : works t os e → working t os anything (await e).
Proof. intros He; split; [done|]; by intros []. Qed.

Lemma working_ask t os {A B} (e : WakeCall A) (f : A → Wake B) Q :
  works t os e → (∀ x, Q (Raise x)) → (∀ a, working t os Q (f a)) → working t os Q (await e ≫= f).
Proof. intros He Hx Hf; split; [done|]; intros [a|x] _; [apply Hf|apply Hx]. Qed.

Lemma working_each t os {A B} (f : B → A → Wake B) acc xs :
  (∀ b x, working t os anything (f b x)) → working t os anything (for_each f acc xs).
Proof. intros Hf; revert acc; induction xs as [|x xs IH]; intros acc; [done|]; cbn [for_each]; by apply working_then. Qed.

Lemma works_here {B} t os (e : WakeCall B) :
  steady e = true → numbered e = None → (session_work e = None ∨ session_work e = os) →
  match e with BuildBrainWakeRequest _ | WakeBrain _ => False | _ => True end → works t os e.
Proof. intros H1 H2 H3 H4; split; [done|]; split; [by rewrite H2|done]. Qed.

Lemma works_guard {B} t os (e : WakeCall B) w :
  works t os e → (∀ s, os = Some s → ∃ me, owner t = Some me ∧ holder w !! s = Some me) → guard t B e w.
Proof.
  intros (He & Hn & Hs & Hb) Hh; split; [done|]; split; [|by destruct e].
  intros s Hse; destruct Hs as [Hs|Hs]; rewrite Hse in Hs; [done|by apply Hh].
Qed.

Lemma held_rely t os w w' :
  rely t w w' → (∀ s, os = Some s → ∃ me, owner t = Some me ∧ holder w !! s = Some me) →
  ∀ s, os = Some s → ∃ me, owner t = Some me ∧ holder w' !! s = Some me.
Proof.
  intros [_ K] Hh s Hs; destruct (Hh s Hs) as (me & Ho & Hm); exists me; split; [done|].
  destruct t; try done; injection Ho as ->; by apply (keeps_holder _ _ _ K).
Qed.

Lemma wp_working t os {A} (Q : outcome wake_error A → Prop) (m : Wake A) w :
  working t os Q m → (∀ s, os = Some s → ∃ me, owner t = Some me ∧ holder w !! s = Some me) →
  wp t m (λ r w', Q r ∧ rely t w w') w.
Proof.
  intros Hm Hh; assert (∀ w1, rely t w w1 → wp t m (λ r w', Q r ∧ rely t w w') w1) as H; [|by apply H].
  induction m as [r| |B e k IH]; cbn; [done|done|]; destruct Hm as [He Hk]; intros w1 R1 w2 R2 I2.
  assert (rely t w w2) as R by (by transitivity w1); split; [by eapply works_guard, held_rely|].
  intros r w3 Heff I3; apply IH; [apply Hk; intros Ht; by eapply total_returns|].
  transitivity w2; [done|]; eapply same_rely, steady_same; [apply He|exact Heff].
Qed.

(** *** Code that throws only after a rejected write to the chat or a rejected drain *)

Definition faulty {B} (e : WakeCall B) : bool := match e with DrainSubscriptionEvents _ _ _ | AppendChatEvent _ _ => true | _ => false end.

Fixpoint loud (t : role) (os : option string) (failed : bool) {A} (m : Wake A) : Prop :=
  match m with
  | Done r => returned r = false → failed = true
  | Endless => True
  | Await e k =>
      works t os e ∧
      ∀ r, (total e = true → returned r = true) → loud t os (failed || faulty e && negb (returned r)) (k r)
  end.

Lemma loud_more t os {A} (m : Wake A) b b' : (b = true → b' = true) → loud t os b m → loud t os b' m.
Proof.
  revert b b'; induction m as [r| |B e k IH]; intros b b' Hb; cbn; [auto|done|]; intros [He Hk]; split; [done|]; intros r Hr.
  apply (IH r (b || faulty e && negb (returned r))); [|by apply Hk].
  rewrite !orb_true_iff; intros [?|?]; [left; auto|by right].
Qed.

Lemma loud_then t os {A B} (m : Wake A) (f : A → Wake B) b :
  loud t os b m → (∀ a, loud t os false (f a)) → loud t os b (m ≫= f).
Proof.
  intros Hm Hf; revert b Hm; unfold mbind, io_bind; induction m as [[a|x]| |C e k IH]; intros b; cbn [continue loud]; [|done|done|].
  - intros _; eapply loud_more; [|apply Hf]; done.
  - intros [He Hk]; split; [done|]; intros r Hr; by apply IH, Hk.
Qed.

Lemma loud_call t os {A} (e : WakeCall A) : works t os e → (total e || faulty e) = true → loud t os false (await e).
Proof.
  intros He Hl; split; [done|]; intros r Hr; cbn; intros Hx; rewrite Hx.
  destruct (total e); [rewrite Hr in Hx; done|]; cbn in Hl; by rewrite Hl.
Qed.

(** A call whose rejection is only recorded. *)
Lemma loud_recorded t os (e : WakeCall ()) type severity (message : wake_error → string) :
  works t os e → loud t os false (catch (await e) (λ x, record_event type severity (message x))).
Proof.
  intros He; split; [done|]; intros [[]|x] _; [done|]; cbn; split; [by apply works_here; auto|].
  intros [[]|x'] Ht; [done|by specialize (Ht eq_refl)].
Qed.

Lemma loud_each t os {A B} (f : B → A → Wake B) acc xs :
  (∀ b x, loud t os false (f b x)) → loud t os false (for_each f acc xs).
Proof. intros Hf; revert acc; induction xs as [|x xs IH]; intros acc; [done|]; cbn [for_each]; by apply loud_then. Qed.

Lemma fault_noted {B} (e : WakeCall B) rep me s w r w' :
  works (Dispatcher rep me) (Some s) e → holder w !! s = Some me → faulty e = true → returned r = false → effect B e w r w' →
  me ∈ faults w'.
Proof.
  intros (_ & Hn & Hs & _) Hh Hf Hr He; destruct e; try done; destruct r; try done; cbn in *; subst w'; cbn.
  - specialize (Hn _ eq_refl); injection Hn as ->; set_solver.
  - destruct Hs as [|[= ->]]; [done|]; rewrite Hh; set_solver.
Qed.

Lemma wp_loud rep me s {A} (m : Wake A) w :
  loud (Dispatcher rep me) (Some s) false m → holder w !! s = Some me →
  wp (Dispatcher rep me) m (λ r w', rely (Dispatcher rep me) w w' ∧ (returned r = false → me ∈ faults w')) w.
Proof.
  intros Hm Hh.
  assert (∀ b w1, loud (Dispatcher rep me) (Some s) b m → rely (Dispatcher rep me) w w1 → (b = true → me ∈ faults w1) →
    wp (Dispatcher rep me) m (λ r w', rely (Dispatcher rep me) w w' ∧ (returned r = false → me ∈ faults w')) w1) as H.
  2: { by apply (H false). }
  clear Hm; induction m as [r| |B e k IH]; intros b w1; cbn; [auto|done|]; intros [He Hk] R1 Hb w2 R2 I2.
  assert (rely (Dispatcher rep me) w w2) as R by (by transitivity w1).
  assert (holder w2 !! s = Some me) as Hh2 by (by apply (keeps_holder _ _ _ (proj2 R))); split.
  { eapply works_guard; [exact He|]; intros ? [= <-]; by exists me. }
  intros r w3 Heff I3; assert (rely (Dispatcher rep me) w2 w3) as R3 by (eapply same_rely, steady_same; [apply He|exact Heff]).
  apply (IH r _ w3 (Hk r (λ Ht, total_returns e w2 r w3 Ht Heff))); [by transitivity w2|].
  intros [Hf|[Hf Hr%negb_true_iff]%andb_true_iff]%orb_true_iff; [|by eapply fault_noted].
  apply (grows_faults _ _ (proj1 R3)), (grows_faults _ _ (proj1 R2)); auto.
Qed.

(** One call, or a sequence, handler or choice of them. *)
Ltac one_call := apply working_call, works_here; [done|done|first [by left|by right]|done].

Ltac work :=
  lazymatch goal with
  | |- working _ _ anything (Done _) => done
  | |- working _ _ anything (mret _) => done
  | |- working _ _ anything (raise _) => done
  | |- working _ _ anything (await _) => one_call
  | |- working _ _ anything (record_event _ _ _) => one_call
  | |- working _ _ anything (_ ≫= _) => apply working_then; [work|intros ?; work]
  | |- working _ _ anything (continue _ _) => apply working_handled; [work|intros ?; work]
  | |- working _ _ anything (catch _ _) => apply working_handled; [work|intros ?; work]
  | |- working _ _ anything (attempt _) => apply working_handled; [work|intros ?; work]
  | |- working _ _ anything (finally _ _) => apply working_handled; [work|intros ?; work]
  | |- working _ _ anything (match ?x with _ => _ end) => destruct x; work
  | |- working _ _ anything (let '_ := ?x in _) => destruct x; work
  | |- _ => auto
  end.

Lemma working_chat_effect t s f : working t (Some s) anything (chat_effect_code sha256 s f).
Proof. destruct f; cbn [chat_effect_code]; [one_call|]; unfold persistContextCompactionArtifact; work. Qed.

Lemma loud_append t x wakeId events :
  loud t (Some (session_id x)) false (appendCoreEventsToChatLog sha256 x wakeId events).
Proof.
  apply loud_each; intros _ [e|k m]; cbn [chat_effect_code]; [apply loud_call; [by apply works_here; auto|done]|].
  apply loud_then; [apply loud_call; [by apply works_here; auto|done]|]; intros now.
  destruct (contextCompactionArtifactFromMetadata _ _ _ _ _); [|done]; apply loud_recorded; by apply works_here; auto.
Qed.

Lemma loud_drain rep me os fuel subscription events : loud (Dispatcher rep me) os false (drain_until_idle fuel me subscription events).
Proof.
  revert events; induction fuel as [|fuel IH]; intros events; cbn [drain_until_idle]; (destruct (_ <? _)%Z; [|done]); [done|].
  apply loud_then; [|intros chunk; destruct (_ <? _)%nat; [done|apply IH]].
  apply loud_call; [|done]; split; [done|]; split; [by intros ? [= ->]|by split; [left|]].
Qed.

Lemma loud_note t os onEvents events chunk :
  (∀ l, loud t os false (onEvents l)) → loud t os false (note_events onEvents events chunk).
Proof. intros H; unfold note_events; destruct chunk; [done|]; by apply loud_then. Qed.

Lemma working_terminal_log t x wakeId i :
  working t (Some (session_id x)) anything (ensureChatWakeTerminalEventsFromChatLog x wakeId i).
Proof. unfold ensureChatWakeTerminalEventsFromChatLog; work. Qed.

Lemma working_terminal t x wakeId events summary :
  working t (Some (session_id x)) anything (ensureChatWakeTerminalEvents x wakeId events summary).
Proof. unfold ensureChatWakeTerminalEvents; destruct (existsb _ _); [apply working_terminal_log|done]. Qed.

Lemma working_failure_summary t os active summary :
  working t os anything (buildChatWakeFailureSummary toolDebugLookup active summary).
Proof. unfold buildChatWakeFailureSummary; work. Qed.

Section Dispatch.
Context (source : string) (chat rep : bool).

Lemma working_prepare t os x : working t os anything (prepare_role buildProfileRoleAssembly registry x).
Proof. unfold prepare_role; work. Qed.

(** The session that is admitted is the one that was to be woken. *)
Lemma working_admit t s :
  working t (Some s) (λ r, ∀ x brain wakeId, r = Value (Permitted x brain wakeId) → session_id x = s) (admit_wake s).
Proof.
  unfold admit_wake; apply working_ask; [by apply works_here; auto|done|]; intros sessions.
  assert (∀ m, working t (Some s) anything m → working t (Some s)
            (λ r, ∀ x brain wakeId, r = Value (Permitted x brain wakeId) → session_id x = s) (r ← m; mret (Skipped r))) as Hskip.
  { intros m Hm; apply working_bind; eapply working_mono; [|exact Hm]; by intros [r|e] _. }
  destruct (List.find _ sessions) as [x|] eqn:Hf; [|apply Hskip; unfold wakeDispatchSkipped; work].
  apply List.find_some in Hf as [_ Hx%String.eqb_eq].
  destruct (String.eqb _ _); [apply Hskip; unfold wakeDispatchSkipped; work|].
  apply working_ask; [by apply works_here; auto|done|]; intros [pause|].
  { apply Hskip; unfold runtimePauseWakeReport, wakeDispatchSkipped; work. }
  apply working_ask; [by apply works_here; auto|done|]; intros [brain|].
  - apply working_ask; [by apply works_here; auto|done|]; by intros wakeId ? ? ? [= <-].
  - apply Hskip; unfold wakeDispatchSkipped; work.
Qed.

Definition reports_wake (k : option string) (r : outcome wake_error WakeReport) : Prop :=
  ∀ report, r = Value report → report_wakeId report = k.

(** A sequence that ends with a report. *)
Lemma working_report t os k {A} (m : Wake A) (f : A → Wake WakeReport) :
  working t os anything m → (∀ a, working t os (reports_wake k) (f a)) → working t os (reports_wake k) (m ≫= f).
Proof. intros Hm Hf; apply working_bind; eapply working_mono; [|exact Hm]; intros [a|e] _; [apply Hf|done]. Qed.

Lemma working_finish t x wakeId p a events :
  working t (Some (session_id x)) (reports_wake (Some wakeId)) (finish_wake source chat x wakeId p a events).
Proof.
  unfold finish_wake; apply working_report.
  { unfold terminal_events; destruct chat; [|done].
    destruct (report_status _); try done; first [apply working_terminal|apply working_terminal_log]. }
  intros _; apply working_report; [one_call|]; intros _; apply working_report; [|intros _ r [= <-]; done].
  destruct (report_status _); work.
Qed.

Lemma working_failure t s active e :
  (∀ x k, active = Some (x, k) → session_id x = s) →
  working t (Some s) (reports_wake (snd <$> active)) (wake_failure toolDebugLookup chat s active e).
Proof.
  intros Ha; unfold wake_failure; destruct (match e with BufferedBrainWakeError _ _ _ => _ | _ => _ end) as [[message reason] src].
  apply working_report; [apply working_failure_summary|]; intros summary.
  apply working_report; [|intros _; apply working_report; [one_call|]; by intros _ r [= <-]].
  destruct active as [[x k]|]; [|done]; rewrite <- (Ha x k eq_refl); destruct chat; [apply working_terminal_log|done].
Qed.

(** ** The end of a dispatch *)

Definition holding (me : nat) (s : string) (b : option string) (w : world) : Prop :=
  holder w !! s = Some me ∧ debts w !! me = Some s ∧ begun w !! me = b ∧ brain_over me w.

Lemma over_rely me w w' : rely (Dispatcher rep me) w w' → brain_over me w → brain_over me w'.
Proof.
  intros [G K] Ho Hs; rewrite (keeps_spawned _ _ _ K) in Hs; destruct (Ho Hs) as [H|H].
  - left; by apply (keeps_resolved _ _ _ K).
  - right; by apply (grows_faults _ _ G).
Qed.

Lemma holding_rely me s b w w' : rely (Dispatcher rep me) w w' → holding me s b w → holding me s b w'.
Proof.
  intros R (H1 & H2 & H3 & H4); pose proof (over_rely _ _ _ R H4); destruct R as [_ [h d g _ _]]; split; [by apply h|].
  split; [congruence|split; [congruence|done]].
Qed.

Lemma wp_held me s b {A} (Q : outcome wake_error A → Prop) (m : Wake A) w :
  working (Dispatcher rep me) (Some s) Q m → holding me s b w →
  wp (Dispatcher rep me) m (λ r w', Q r ∧ rely (Dispatcher rep me) w w' ∧ holding me s b w') w.
Proof.
  intros Hm Hh; eapply wp_mono; [|eapply (wp_working _ (Some s)); [exact Hm|intros ? [= <-]; exists me; by split; [|apply Hh]]].
  intros r w' [HQ HR]; split; [done|]; split; [done|by eapply holding_rely].
Qed.

(** What is promised at the end of an operation. *)
Definition post (t : role) (returns : bool) (w : world) : Prop :=
  match t with
  | Dispatcher rep me => debts w !! me = None ∧ (rep = true → returns = true → ∀ k, begun w !! me = Some k → answered w k)
  | _ => True
  end.

Lemma post_stable t b w w' : rely t w w' → post t b w → post t b w'.
Proof.
  intros [G K]; destruct t as [reports me| |]; [|done|done]; intros [Hd Ha]; destruct K as [_ Kd Kb]; cbn; rewrite Kd, Kb; split; [done|].
  intros Hp Hr k Hk; by apply (grows_answered _ _ G), Ha.
Qed.

(** A call whose guard is only that it is made: what holds of the world after it. *)
Lemma wp_told me (e : WakeCall ()) (P : world → Prop) type fallback w :
  (∀ w1, guard (Dispatcher rep me) _ e w1) →
  (∀ w1, rely (Dispatcher rep me) w w1 → ∀ r w2, effect _ e w1 r w2 → rely (Dispatcher rep me) w w2 ∧ (returned r = true → P w2)) →
  (∀ w1 w2, rely (Dispatcher rep me) w1 w2 → P w1 → P w2) →
  wp (Dispatcher rep me) (told (await e) type fallback)
    (λ r w2, rely (Dispatcher rep me) w w2 ∧ ∃ b, r = Value b ∧ (b = true → P w2)) w.
Proof.
  intros Hg He HP; apply wp_continue, wp_bind, wp_await; intros w1 R1 I1; split; [done|]; intros [[]|x] w2 Heff I2.
  - destruct (He w1 R1 _ _ Heff) as [R2 H2]; split; [done|]; exists true; split; [done|]; intros _; by apply H2.
  - destruct (He w1 R1 _ _ Heff) as [R2 _]; intros w3 R3 I3; split; [done|]; intros r w4 [-> ->] I4.
    split; [by transitivity w2|]; by exists false.
Qed.

Lemma without_dispatch_activity k : without_dispatch (dispatch_activity k) = k.
Proof.
  unfold without_dispatch, dispatch_activity, Str.startsWith; rewrite chars_app.
  rewrite (proj2 (Text.startsWith_spec _ _)) by eauto; apply str_chars.
Qed.

Lemma wp_settle_activity me s k f w :
  activityId f = dispatch_activity k → holding me s (Some k) w →
  wp (Dispatcher rep me) (settle_activity f)
    (λ r w', (∃ x, r = Value x) ∧ holding me s (Some k) w' ∧ answered w' k) w.
Proof.
  intros Hf Hh; assert (settlement_wakeId (runtimeWakeSettlement f) = k) as Hk by (cbn; by rewrite Hf, without_dispatch_activity).
  assert (∀ w0 w1 w2 (st en : gset string), settled w1 ⊆ st → ended w1 ⊆ en → rely (Dispatcher rep me) w0 w1 →
            w2 = with_ends st en (pending w1) w1 → rely (Dispatcher rep me) w0 w2) as Hends.
  { intros w0 w1 w2 st en Hst Hen R ->; transitivity w1; [done|]; split; [|by split]; split; [done|done| |done].
    intros k' [[H1 H2]|H]; [left; split; cbn; set_solver|by right]. }
  apply wp_bind; eapply wp_mono; [|apply (wp_told me _ (λ w, k ∈ settled w))]; [|done| |].
  2: { intros w1 R1 [[]|x] w2 He; cbn in He.
       - split; [by eapply Hends; [| | |exact He]; [set_solver| |]|]; intros _; subst w2; cbn; set_solver.
       - split; [|done]; destruct He as [->| ->]; [done|by eapply Hends; [| | |done]; [set_solver| |]]. }
  2: { intros w1 w2 [G _]; apply (grows_settled _ _ G). }
  intros r w1 (R1 & b & -> & Hb); cbn beta iota; apply (holding_rely _ _ _ _ _ R1) in Hh.
  apply wp_bind; eapply wp_mono; [|apply (wp_told me _ (λ w, dispatch_activity k ∈ ended w))]; [|done| |].
  2: { intros w2 R2 [[]|x] w3 He; cbn in He.
       - split; [by eapply Hends; [| | |exact He]; [|set_solver|]|]; intros _; subst w3; cbn; rewrite <- Hf; set_solver.
       - split; [|done]; destruct He as [->| ->]; [done|by eapply Hends; [| | |done]; [|set_solver|]]. }
  2: { intros w2 w3 [G _]; apply (grows_ended _ _ G). }
  intros r w2 (R2 & b' & -> & Hb'); cbn beta iota; pose proof (holding_rely _ _ _ _ _ R2 Hh) as Hh2.
  destruct (b && b') eqn:Hbb.
  - apply andb_true_iff in Hbb as [-> ->]; split; [by eexists|]; split; [done|]; left; split; [|by apply Hb'].
    apply (grows_settled _ _ (proj1 R2)); by apply Hb.
  - apply wp_await; intros w3 R3 I3; split; [split; [done|]; split; [done|]; cbn -[runtimeWakeSettlement]; by rewrite Hk, Hf|].
    intros r w4 [-> ->] _; split; [by eexists|]; apply (holding_rely _ _ _ _ _ R3) in Hh2; split; [done|].
    right; cbn -[runtimeWakeSettlement]; rewrite Hk, lookup_insert_eq; eauto.
Qed.

Definition leaving (me : nat) (s : string) (b : option string) (w : world) : Prop :=
  debts w !! me = Some s ∧ holder w !! s ≠ Some me ∧ begun w !! me = b.

Lemma leaving_rely me s b w w' : rely (Dispatcher rep me) w w' → leaving me s b w → leaving me s b w'.
Proof. intros [_ [h d g _ _]] (H1 & H2 & H3); split; [congruence|]; split; [by rewrite h|congruence]. Qed.

Lemma wp_take {A} me s b (r : outcome wake_error A) w :
  leaving me s b w → (returned r = true → ∀ k, b = Some k → answered w k) →
  wp (Dispatcher rep me) (await (TakeDeferred me s) ≫= λ _, Done r) (λ r' w', post (Dispatcher rep me) (returned r') w') w.
Proof.
  intros Hl Ha; apply wp_bind, wp_await; intros w1 R1 I1; pose proof (leaving_rely _ _ _ _ _ R1 Hl) as (Hd & Hh & Hb); split.
  - split; [by intros ? [= <-]|]; split; [done|]; split; [done|]; intros s' Hs'; apply (inv_holder _ I1) in Hs' as Hd'.
    rewrite Hd in Hd'; injection Hd' as <-; done.
  - intros r' w2 [-> ->] _; cbn; rewrite lookup_delete_eq; split; [done|]; intros _ Hr k Hk.
    apply (grows_answered _ _ (proj1 R1) k), Ha; [done|congruence].
Qed.

Lemma wp_leave {A} me s b (after : Wake ()) (r : outcome wake_error A) w :
  holding me s b w → working (Dispatcher rep me) None (λ r', ∃ x, r' = Value x) after →
  (returned r = true → ∀ k, b = Some k → answered w k) →
  wp (Dispatcher rep me) (await (LeaveWake me s) ≫= λ _, after ≫= λ _, await (TakeDeferred me s) ≫= λ _, Done r)
    (λ r' w', post (Dispatcher rep me) (returned r') w') w.
Proof.
  intros Hh Haf Ha; apply wp_bind, wp_await; intros w1 R1 I1; pose proof (holding_rely _ _ _ _ _ R1 Hh) as (H1 & H2 & H3 & H4); split.
  - split; [by intros ? [= <-]|]; split; [|exact H4]; intros ? [= <-]; by exists me.
  - intros r' w2 [-> ->] _; apply wp_bind; eapply wp_mono; [|eapply (wp_working _ None); [exact Haf|done]].
    intros r' w3 [[x ->] R3]; apply (wp_take _ _ b).
    + apply (leaving_rely _ _ _ _ _ R3); split; [done|]; split; [cbn; by rewrite lookup_delete_eq|done].
    + intros Hr k Hk; apply (grows_answered _ _ (proj1 R3) k), (grows_answered _ _ (proj1 R1) k), Ha; done.
Qed.

Lemma working_recorded t os (m : Wake ()) type severity (message : wake_error → string) :
  working t os anything m → working t os (λ r, ∃ x, r = Value x) (catch m (λ x, record_event type severity (message x))).
Proof.
  intros Hm; apply working_continue; eapply working_mono; [|exact Hm]; intros [[]|x] _; [by eexists|].
  split; [by apply works_here; auto|]; intros [[]|x'] Ht; [by eexists|by specialize (Ht eq_refl)].
Qed.

(** How the end of a dispatch finds its activity. *)
Definition answerable (b : option string) (started : bool) (r : outcome wake_error WakeReport) : Prop :=
  match b with
  | Some k => started = true ∧ reports_wake (Some k) r
  | None => started = false
  end.
Lemma wp_conclude me s active b activityStarted lastObserved r w :
  holding me s b w → (∀ x k, active = Some (x, k) → session_id x = s) → answerable b activityStarted r →
  wp (Dispatcher rep me) (conclude settles_after chat me s active activityStarted lastObserved r)
    (λ r' w', post (Dispatcher rep me) (returned r') w') w.
Proof.
  intros Hh Hx Hr; unfold conclude.
  match goal with |- wp _ (_ ≫= λ _, await _ ≫= λ _, ?m ≫= _) _ _ => assert (working (Dispatcher rep me) None (λ r', ∃ x, r' = Value x) m) as Haf end.
  { destruct settles_after; [apply working_recorded; one_call|by eexists]. }
  destruct b as [k|]; cbn in Hr.
  2: { rewrite Hr; apply wp_bind; by apply (wp_leave _ _ None). }
  destruct Hr as [-> Hrep]; destruct r as [report|x]; [|by apply wp_bind, (wp_leave _ _ (Some k))].
  specialize (Hrep report eq_refl); unfold runtimeDispatchFinish; rewrite Hrep; cbn [fmap option_fmap option_map].
  apply wp_bind, wp_bind; eapply wp_mono; [|by apply (wp_settle_activity me s k)].
  intros r w1 ([[] ->] & Hh1 & Ha1); cbn beta iota.
  assert (wp (Dispatcher rep me) (match active with
            | Some (x, _) => if chat then project_execution x lastObserved else mret ()
            | None => mret ()
            end) (λ r w', (∃ x, r = Value x) ∧ rely (Dispatcher rep me) w1 w' ∧ holding me s (Some k) w') w1) as Hp.
  { destruct active as [[x wakeId]|]; [|split; [by eexists|done]]; rewrite <- (Hx x wakeId eq_refl) in *.
    destruct chat; [|split; [by eexists|done]]; apply wp_held; [|done]; apply working_recorded; work. }
  eapply wp_mono; [|exact Hp]; intros r w2 ([[] ->] & R2 & Hh2); apply (wp_leave _ _ (Some k)); [done|done|].
  intros _ k' [= <-]; by apply (grows_answered _ _ (proj1 R2)).
Qed.

(** ** A dispatch *)

Lemma wp_begin me s x wakeId w :
  session_id x = s → holding me s None w → spawned w !! me = None →
  wp (Dispatcher rep me) (begin_activity source me x wakeId)
    (λ r w', ∃ b : bool, r = Value b ∧ holding me s (if b then Some wakeId else None) w' ∧ spawned w' !! me = None) w.
Proof.
  intros Hx Hh Hs; apply wp_continue, wp_bind, wp_await; intros w1 R1 I1; apply (holding_rely _ _ _ _ _ R1) in Hh.
  rewrite <- (keeps_spawned _ _ _ (proj2 R1)) in Hs; split.
  - split; [by intros ? [= <-]|]; split; [|done]; intros ? [= <-]; exists me; rewrite Hx; by split; [|apply Hh].
  - intros [[]|e] w2 He I2; cbn in He; subst w2.
    + destruct Hh as (H1 & H2 & H3 & H4); exists true; split; [done|]; split; [|done].
      split; [done|]; split; [done|]; split; [apply lookup_insert_eq|done].
    + intros w3 R3 I3; split; [done|]; intros r w4 [-> ->] _; exists false; split; [done|].
      split; [by apply (holding_rely _ _ _ _ _ R3)|]; by rewrite (keeps_spawned _ _ _ (proj2 R3)).
Qed.

(** The events are watched until the brain has ended, or a write or a drain is rejected. *)
Lemma wp_watch me s fuel subscription onEvents events w :
  (∀ l, loud (Dispatcher rep me) (Some s) false (onEvents l)) → holder w !! s = Some me →
  wp (Dispatcher rep me) (watch_callback fuel me subscription onEvents events)
    (λ r w', rely (Dispatcher rep me) w w' ∧ if returned r then is_Some (resolved w' !! me) else me ∈ faults w') w.
Proof.
  intros Ho; revert events w; induction fuel as [|fuel IH]; intros events w Hh; [done|]; cbn [watch_callback].
  apply wp_bind, wp_await; intros w1 R1 I1; split; [done|]; intros r w2 [-> ->] _; cbn beta iota.
  case_bool_decide as Hr; [by split|]; cbn beta iota.
  apply wp_bind, wp_await; intros w2 R2 I2; split; [done|]; intros r w3 [-> ->] _; cbn beta iota.
  assert (rely (Dispatcher rep me) w w2) as R by (by transitivity w1).
  assert (∀ w3, rely (Dispatcher rep me) w w3 → holder w3 !! s = Some me) as Hheld.
  { intros w3 R3; by apply (keeps_holder _ _ _ (proj2 R3)). }
  apply wp_bind; eapply wp_mono; [|apply (wp_loud rep me s); [apply loud_drain|by apply Hheld]].
  intros [chunk|x] w3 [R3 H3]; [|split; [by transitivity w2|by apply H3]].
  assert (rely (Dispatcher rep me) w w3) as R3' by (by transitivity w2).
  apply wp_bind; eapply wp_mono; [|apply (wp_loud rep me s); [by apply loud_note|by apply Hheld]].
  intros [events'|x] w4 [R4 H4]; [|split; [by transitivity w3|by apply H4]].
  assert (rely (Dispatcher rep me) w w4) as R4' by (by transitivity w3).
  eapply wp_mono; [|apply IH, Hheld, R4']; intros r w5 [R5 H5]; split; [by transitivity w4|done].
Qed.

(** Once the brain is started, the observation ends no sooner than it, but for a fault. *)
Lemma wp_observed me s subscription onEvents b w :
  (∀ l, loud (Dispatcher rep me) (Some s) false (onEvents l)) →
  holder w !! s = Some me → debts w !! me = Some s → begun w !! me = b →
  wp (Dispatcher rep me)
    (events ← watch_callback rounds me subscription onEvents [];
     value ← await (CallbackResult me);
     finalEvents ← drainSubscriptionEventsUntilIdle me subscription;
     events ← note_events onEvents events finalEvents;
     mret (value, events))
    (λ _ w', holding me s b w') w.
Proof.
  intros Ho H1 H2 H3; apply wp_bind; eapply wp_mono; [|by apply (wp_watch me s)].
  intros [events|x] w1 [[G K] H]; cbn in H;
    (assert (holding me s b w1) as Hh by
       (split; [by apply (keeps_holder _ _ _ K)|]; rewrite (keeps_debts _ _ _ K), (keeps_begun _ _ _ K);
        split; [done|]; split; [done|]; intros _; auto)); [|done].
  apply wp_bind, wp_await; intros w2 R2 I2; split; [done|]; intros [value|x] w3 [-> _] _;
    apply (holding_rely _ _ _ _ _ R2) in Hh; [|done].
  apply wp_bind; eapply wp_mono; [|apply (wp_loud rep me s); [apply loud_drain|apply Hh]].
  intros [final|x] w4 [R4 _]; apply (holding_rely _ _ _ _ _ R4) in Hh; [|done].
  apply wp_bind; eapply wp_mono; [|apply (wp_loud rep me s); [by apply loud_note|apply Hh]].
  intros [events'|x] w5 [R5 _]; by apply (holding_rely _ _ _ _ _ R5) in Hh.
Qed.

Lemma wp_observe me s input onEvents b w :
  request_sessionId input = s → (∀ l, loud (Dispatcher rep me) (Some s) false (onEvents l)) →
  holding me s b w → spawned w !! me = None →
  wp (Dispatcher rep me) (observeWakeEvents rounds me s input onEvents) (λ _ w', holding me s b w') w.
Proof.
  intros Hi Ho Hh Hs; unfold observeWakeEvents; apply wp_bind, wp_await; intros w1 R1 I1.
  apply (holding_rely _ _ _ _ _ R1) in Hh; rewrite <- (keeps_spawned _ _ _ (proj2 R1)) in Hs; split.
  { split; [done|]; split; [|done]; intros ? [= <-]; exists me; by split; [|apply Hh]. }
  intros [subscription|x] w2 -> I2; [|done]; apply wp_continue, wp_bind, wp_await; intros w3 R3 I3.
  apply (holding_rely _ _ _ _ _ R3) in Hh; rewrite <- (keeps_spawned _ _ _ (proj2 R3)) in Hs; split.
  { split; [by intros ? [= <-]|]; split; [|done]; intros ? [= <-]; exists me; rewrite Hi; by split; [|apply Hh]. }
  intros r w4 [-> ->] _; cbn beta iota; destruct Hh as (H1 & H2 & H3 & _).
  eapply wp_mono; [|by apply (wp_observed me s _ _ b)]; intros r w5 Hh; cbn beta iota.
  apply wp_continue; eapply wp_mono; [|apply (wp_held me s b anything); [|exact Hh]].
  - intros [[]|x] w6 (_ & _ & Hh6); exact Hh6.
  - work.
Qed.

Lemma wp_observe_wake me s x brain wakeId b w :
  session_id x = s → holding me s b w → spawned w !! me = None →
  wp (Dispatcher rep me) (observe_wake sha256 buildProfileRoleAssembly registry rounds chat me x brain wakeId)
    (λ _ w', holding me s b w') w.
Proof.
  intros Hx Hh Hs; unfold observe_wake; rewrite Hx; apply wp_bind; eapply wp_mono; [|eapply (wp_held me s b); [apply working_prepare|exact Hh]].
  intros [[p role]|e] w1 (_ & R1 & Hh1); [|done]; cbn beta iota; rewrite <- (keeps_spawned _ _ _ (proj2 R1)) in Hs.
  apply wp_bind; eapply wp_mono; [|apply (wp_observe me s _ _ b); [done| |done|done]].
  - intros [[value events]|e] w2 Hh2; [|done]; cbn beta iota.
    eapply wp_mono; [|apply (wp_held me s b anything); [|exact Hh2]]; [intros r w3 (_ & _ & H); exact H|].
    apply working_then; [|done]; apply working_call, works_here; [done|done|right; cbn; by rewrite Hx|done].
  - intros events; destruct chat; [rewrite <- Hx; apply loud_append|done].
Qed.

Lemma wp_admitted me s x brain wakeId w :
  session_id x = s → holding me s None w → spawned w !! me = None →
  wp (Dispatcher rep me)
    (dispatch_admitted sha256 toolDebugLookup buildProfileRoleAssembly registry settles_after rounds source chat me s x brain wakeId)
    (λ r w', post (Dispatcher rep me) (returned r) w') w.
Proof.
  intros Hx Hh Hs; unfold dispatch_admitted; apply wp_bind; eapply wp_mono; [|by apply wp_begin].
  intros r w1 (b & -> & Hh1 & Hs1); cbn beta iota; set (active := Some (x, wakeId)).
  assert (∀ x' k, active = Some (x', k) → session_id x' = s) as Ha by (by intros ? ? [= <- <-]).
  assert (∀ r, reports_wake (Some wakeId) r → answerable (if b then Some wakeId else None) b r) as Hans by (by destruct b).
  apply wp_bind, wp_attempt; eapply wp_mono; [|by apply (wp_observe_wake me s)].
  intros [[[p a] events]|e] w2 Hh2; cbn beta iota.
  - apply wp_bind, wp_attempt; eapply wp_mono; [|apply (wp_held _ s (if b then Some wakeId else None) (reports_wake (Some wakeId))); [|exact Hh2]].
    + intros r w3 (Hr & _ & Hh3); cbn beta iota; eapply wp_conclude; [exact Hh3|done|by apply Hans].
    + apply working_continue; eapply working_mono; [|rewrite <- Hx; apply working_finish].
      intros [report|e] Hr; [exact Hr|]; by apply (working_failure _ _ active).
  - apply wp_bind, wp_attempt; eapply wp_mono; [|apply (wp_held _ s (if b then Some wakeId else None) (reports_wake (Some wakeId))); [|exact Hh2]].
    + intros r w3 (Hr & _ & Hh3); cbn beta iota; eapply wp_conclude; [exact Hh3|done|by apply Hans].
    + by apply (working_failure _ _ active).
Qed.

Lemma wp_dispatchWake me q s w :
  debts w !! me = None → begun w !! me = None → spawned w !! me = None →
  wp (Dispatcher rep me) (dispatchWake source chat me q s) (λ r w', post (Dispatcher rep me) (returned r) w') w.
Proof.
  intros Hd Hb Hs; apply wp_bind, wp_await; intros w1 R1 I1.
  rewrite <- (keeps_debts _ _ _ (proj2 R1)) in Hd; rewrite <- (keeps_begun _ _ _ (proj2 R1)) in Hb.
  rewrite <- (keeps_spawned _ _ _ (proj2 R1)) in Hs; split.
  { split; [by intros ? [= <-]|]; split; [done|exact Hd]. }
  intros r w2 He I2; cbn in He; destruct (holder w1 !! s) as [me'|] eqn:Hh; destruct He as [-> ->].
  { split; [done|]; intros _ _ k; cbn; by rewrite Hb. }
  assert (holding me s None (entered me q s w1)) as Hh2.
  { split; [apply lookup_insert_eq|]; split; [apply lookup_insert_eq|]; split; [done|]; unfold brain_over; cbn; rewrite Hs; by intros []. }
  apply wp_bind, wp_attempt; eapply wp_mono; [|eapply (wp_held _ s); [apply working_admit|exact Hh2]].
  intros [[report|x brain wakeId]|e] w3 (Hx & R3 & Hh3); cbn beta iota.
  - by eapply wp_conclude.
  - apply wp_admitted; [by eapply Hx|done|by rewrite (keeps_spawned _ _ _ (proj2 R3))].
  - apply wp_bind, wp_attempt; eapply wp_mono; [|apply (wp_held _ s None (reports_wake None)); [by apply (working_failure _ _ None)|exact Hh3]].
    intros r w4 (_ & _ & Hh4); by eapply wp_conclude.
Qed.
End Dispatch.

(** ** The operations *)

Lemma wp_deferred source chat me s w :
  debts w !! me = None → begun w !! me = None → spawned w !! me = None →
  wp (Dispatcher false me) (dispatch_deferred source chat me s) (λ r w', post (Dispatcher false me) (returned r) w') w.
Proof.
  intros Hd Hb Hs; apply wp_continue, wp_bind; eapply wp_mono; [|by apply wp_dispatchWake].
  intros [report|x] w1 [Hd1 _]; [by split|]; intros w2 R2 I2; split; [done|]; intros r w3 [-> ->] _; split; [|done].
  by rewrite (keeps_debts _ _ _ (proj2 R2)).
Qed.

Definition brain_going (me : nat) (input : WakeRequestInput) (w : world) : Prop :=
  spawned w !! me = Some input ∧ resolved w !! me = None.

Lemma going_rely me input w w' : rely (Callback me) w w' → brain_going me input w → brain_going me input w'.
Proof. intros [_ [Hs Hr]] [H1 H2]; split; [by apply Hs|by rewrite Hr]. Qed.

(** The brain's promise asks the brain while it is the one that was started, and says once
    how it ended. *)
Lemma wp_callback me input w : brain_going me input w → wp (Callback me) (wake_callback me input) (λ _ _, True) w.
Proof.
  intros Hg; unfold wake_callback.
  assert (∀ r w1, brain_going me input w1 → wp (Callback me) (await (ResolveCallback me r)) (λ _ _, True) w1) as Hend.
  { intros r w1 Hg1 w2 R2 I2; destruct (going_rely _ _ _ _ R2 Hg1) as [Hs _]; split; [split; [done|]; split; [done|]|done].
    by split; [|eexists]. }
  apply wp_bind, wp_attempt, wp_bind, wp_await; intros w1 R1 I1; apply (going_rely _ _ _ _ R1) in Hg; split.
  { split; [done|]; split; [done|]; by exists me. }
  intros [request|x] w2 -> _; [|by apply Hend]; apply wp_await; intros w3 R3 I3; apply (going_rely _ _ _ _ R3) in Hg; split.
  { split; [done|]; split; [done|]; exists input, me; by split; [|apply Hg]. }
  intros r w4 -> _; by apply Hend.
Qed.

Lemma wp_reconcile fuel l w : wp Reconciler (reconcile_settlements fuel l) (λ _ _, True) w.
Proof.
  revert l w; induction fuel as [|fuel IH]; intros l w; [done|]; cbn [reconcile_settlements].
  apply wp_bind, wp_await; intros w1 R1 I1; split; [done|]; intros [[[k d]|]|x] w2 [-> He] _; [|done|done]; cbn beta iota.
  apply (inv_pending _ I1) in He as [Hk Ha]; apply wp_bind, wp_attempt, wp_bind, wp_await; intros w3 R3 I3; split; [done|].
  intros [[]|x] w4 He _; [|done]; cbn in He; apply wp_await; intros w5 R5 I5; split; [done|].
  intros [[]|x] w6 He' _; [|done]; cbn in He'; cbn beta iota; apply wp_bind, wp_await; intros w7 R7 I7; split.
  - split; [done|]; split; [done|]; split.
    + apply (grows_settled _ _ (proj1 R7)); subst w6; cbn; apply (grows_settled _ _ (proj1 R5)); subst w4; cbn; set_solver.
    + apply (grows_ended _ _ (proj1 R7)); subst w6; cbn; set_solver.
  - intros r w8 [-> ->] _; apply IH.
Qed.

Lemma wake_starts_well w p : invariant w → starts w p → wp (tag p) (code p) (λ r w, post (tag p) (returned r) w) w.
Proof.
  intros _ []; [by apply wp_dispatchWake|by apply wp_deferred| |].
  - eapply wp_mono; [|by apply wp_callback]; done.
  - eapply wp_mono; [|apply wp_reconcile]; done.
Qed.

Lemma idle_world_invariant : invariant empty_world.
Proof. split; cbn; try set_solver; intros *; by rewrite lookup_empty. Qed.

Definition reachable (s : world * list (process role wake_error WakeCall)) : Prop := rtc steps (empty_world, []) s.

Lemma wake_reachable_sound s :
  reachable s → sound effect beside invariant rely guard post s.
Proof.
  apply (pool_sound effect nothing starts beside false invariant rely guard post wake_call_keeps ltac:(done) wake_starts_well post_stable),
    idle_world_invariant.
Qed.

Lemma wake_call_owes t B (e : WakeCall B) w r w' me :
  guard t B e w → effect B e w r w' → is_Some (debts w' !! me) → is_Some (debts w !! me) ∨ owner t = Some me.
Proof.
  intros (Hn & _ & _) He; destruct (steady e) eqn:Hst.
  { destruct (steady_same _ _ _ _ _ Hst He) as [->|[o ->]]; auto. }
  destruct e; try done; cbn in He; try (destruct He as [_ ->]; by auto).
  - destruct (holder w !! sessionId); destruct He as [_ ->]; cbn; [auto|]; intros H.
    destruct (decide (me0 = me)) as [->|Hne]; [right; by apply Hn|left]; by rewrite lookup_insert_ne in H by done.
  - destruct He as [_ ->]; cbn; intros [s [_ H]%lookup_delete_Some]; left; by exists s.
  - destruct r; subst w'; auto.
  - destruct r; cbn in He; [subst w'|destruct He as [->| ->]]; auto.
  - destruct r; cbn in He; [subst w'|destruct He as [->| ->]]; auto.
Qed.

Lemma wake_debts w ps : reachable (w, ps) → ∀ me, is_Some (debts w !! me) → ∃ p, p ∈ ps ∧ owner (tag p) = Some me.
Proof.
  intros Hr; apply (pool_debts effect nothing starts beside false invariant rely guard post wake_call_keeps ltac:(done) wake_starts_well
    post_stable (λ w me, is_Some (debts w !! me)) owner wake_call_owes ltac:(done)) with (w0 := empty_world) (s := (w, ps));
    [|done|apply idle_world_invariant| |exact Hr].
  - intros [reports me| |] b w' me'; cbn; [|done|done]; intros [Hd _] [= ->]; rewrite Hd; by intros [].
  - intros me; cbn; rewrite lookup_empty; by intros [].
Qed.

(** ** What holds of every run *)

(** C1. No wake is lost and no session stays in flight: a wake that is skipped because one
    is in flight for its session is taken up again - whatever services failed meanwhile, as
    long as no dispatch has entered the session since, either the microtask that will do so
    is queued or an operation is under way that still has to look at the deferred sessions.
    In particular, when every operation has ended and no microtask is left, no wake is
    unmet, no session is deferred and none is in flight. *)
Theorem no_wake_lost w ps :
  reachable (w, ps) →
  (∀ s, s ∈ unmet w → s ∈ microtasks w ∨
     ∃ p me, p ∈ ps ∧ owner (tag p) = Some me ∧ debts w !! me = Some s) ∧
  (ps = [] → holder w = ∅ ∧ deferred w = ∅ ∧ (microtasks w = ∅ → unmet w = ∅)).
Proof.
  intros Hr; destruct (wake_reachable_sound _ Hr) as [I _]; cbn in I; pose proof (wake_debts _ _ Hr) as Hd.
  assert (∀ s, s ∈ unmet w → s ∈ microtasks w ∨ ∃ p me, p ∈ ps ∧ owner (tag p) = Some me ∧ debts w !! me = Some s) as Hu.
  { intros s [H|H]%(inv_unmet _ I); [right|by left]; destruct (inv_deferred _ I s H) as [me Hme].
    destruct (Hd me) as (p & Hp & Ho); [by exists s|]; by exists p, me. }
  split; [done|]; intros ->; assert (∀ me s, debts w !! me ≠ Some s) as Hno.
  { intros me s Hme; destruct (Hd me) as (p & Hp & _); [by exists s|set_solver]. }
  split_and!.
  - apply map_eq; intros s; rewrite lookup_empty; destruct (holder w !! s) as [me|] eqn:Hs; [|done].
    by destruct (Hno me s (inv_holder _ I _ _ Hs)).
  - apply set_eq; intros s; split; [|set_solver]; intros [me Hme]%(inv_deferred _ I); by destruct (Hno me s).
  - intros Hm; apply set_eq; intros s; split; [|set_solver]; intros [H|(p & me & Hp & _)]%Hu; [|set_solver].
    rewrite Hm in H; multiset_solver.
Qed.

(** The session on which an operation is about to work. *)
Definition next_work (p : process role wake_error WakeCall) : option string :=
  match code p with Await e _ => session_work e | _ => None end.

Lemma next_work_holder s p w ps :
  reachable (w, ps) → p ∈ ps → next_work p = Some s → ∃ me, owner (tag p) = Some me ∧ holder w !! s = Some me.
Proof.
  intros Hr Hp Hn; destruct (wake_reachable_sound _ Hr) as (I & Hw & _); cbn in I, Hw.
  rewrite Forall_forall in Hw; specialize (Hw p Hp); destruct p as [t A [r| |B e k]]; cbn in Hn, Hw; [done|done|].
  destruct (Hw w ltac:(reflexivity) I) as [(_ & Hs & _) _]; by apply Hs.
Qed.

(** The session on which the brain of a dispatch is about to work. *)
Definition brain_work (w : world) (p : process role wake_error WakeCall) : option string :=
  match tag p, code p with
  | Callback me, Await (BuildBrainWakeRequest _) _ | Callback me, Await (WakeBrain _) _ => request_sessionId <$> spawned w !! me
  | _, _ => None
  end.

(** A brain that is about to work has not ended. *)
Lemma brain_work_holder s p w ps :
  reachable (w, ps) → p ∈ ps → brain_work w p = Some s →
  ∃ me, tag p = Callback me ∧ (me ∈ faults w ∨ holder w !! s = Some me).
Proof.
  intros Hr Hp Hb; destruct (wake_reachable_sound _ Hr) as (I & Hw & _); cbn in I, Hw.
  rewrite Forall_forall in Hw; specialize (Hw p Hp); destruct p as [t A [r| |B e k]]; unfold brain_work in Hb; cbn in Hb, Hw;
    [by destruct t|by destruct t|].
  destruct (Hw w ltac:(reflexivity) I) as [(_ & _ & Hg) _]; destruct t as [| me|]; try done; exists me; split; [done|].
  destruct (spawned w !! me) as [input|] eqn:Hs; [|by destruct e].
  assert (request_sessionId input = s ∧ resolved w !! me = None) as [<- Hn].
  { destruct e; try done; injection Hb as ->; split; try done.
    - by destruct Hg as (me' & [= <-] & _ & H).
    - by destruct Hg as (input' & me' & [= <-] & _ & H). }
  destruct (inv_brain _ I me input Hs) as [H|H]; [rewrite Hn in H; by destruct H|done].
Qed.

(** C2. Two dispatches never work on one session at a time: whoever is about to begin the
    activity of a wake, subscribe to its events, start its brain, write to the session's
    chat, publish, maintain or end the wake holds the session, and of two operations under
    way at most one does - also while one of them waits between two of its calls.  The same
    holds of the brain itself, which runs beside its dispatch: while it is about to be asked,
    its dispatch holds the session, nobody but that dispatch is about to work on it, and no
    other brain is - unless a write to the chat or a drain of the events of a dispatch was
    rejected, whose brain may outlive it. *)
Theorem one_dispatch_per_session w ps p q rest s :
  reachable (w, ps) → ps ≡ₚ p :: q :: rest →
  (next_work p = Some s →
     (∃ me, owner (tag p) = Some me ∧ holder w !! s = Some me ∧ owner (tag q) ≠ Some me) ∧ next_work q ≠ Some s) ∧
  (brain_work w p = Some s →
     ∃ me, tag p = Callback me ∧
       (me ∉ faults w →
          holder w !! s = Some me ∧ (next_work q = Some s → owner (tag q) = Some me) ∧
          ∀ me', tag q = Callback me' → brain_work w q = Some s → me' ∈ faults w)).
Proof.
  intros Hr Hps; assert (beside (tag p) (tag q)) as Hb.
  { destruct (wake_reachable_sound _ Hr) as (_ & _ & Ha); by apply (apart_pair _ _ p q rest Hps). }
  assert (p ∈ ps ∧ q ∈ ps) as [Hp Hq] by (rewrite Hps; set_solver); split; intros H.
  - destruct (next_work_holder s p w _ Hr Hp H) as (me & Ho & Hh).
    assert (owner (tag q) ≠ Some me) as Hne by (intros Hoq; destruct (tag p), (tag q); cbn in *; congruence).
    split; [by exists me|]; intros Hn; destruct (next_work_holder s q w _ Hr Hq Hn) as (me' & Ho' & Hh'); congruence.
  - destruct (brain_work_holder s p w _ Hr Hp H) as (me & Ht & Hh); exists me; split; [done|]; intros Hf.
    destruct Hh as [?|Hh]; [done|]; split; [done|]; split.
    + intros Hn; destruct (next_work_holder s q w _ Hr Hq Hn) as (me' & Ho' & Hh'); congruence.
    + intros me' Ht' Hbq; destruct (brain_work_holder s q w _ Hr Hq Hbq) as (me2 & Ht2 & Hh2); rewrite Ht' in Ht2.
      injection Ht2 as <-; destruct Hh2 as [?|Hh2]; [done|]; rewrite Ht, Ht' in Hb; cbn in Hb; congruence.
Qed.

(** C3. The end of a wake is not kept from the bridge: when a dispatch that began the
    activity of a wake ends with a report, the bridge has been told that the wake is settled
    and the activity finished, or the settlement is among those that are retried - and what
    is retried stays there until the bridge has been told of both. *)
Theorem wake_end_reported w ps me {A} (r : A) k :
  reachable (w, ps) → Process (Dispatcher true me) (Done (Value r)) ∈ ps → begun w !! me = Some k → answered w k.
Proof.
  intros Hr Hp Hk; destruct (wake_reachable_sound _ Hr) as (_ & Hw & _); cbn in Hw.
  rewrite Forall_forall in Hw; specialize (Hw _ Hp); cbn in Hw; by apply Hw.
Qed.
End Runs.

(** ** The drain of a subscription ends *)

Section Drain.
#[local] Open Scope Z_scope.
Context {W : Type} (serve : ∀ B, WakeCall B → W → outcome wake_error B * W).

Lemma drain_ends me fuel j subscription events w :
  (∀ w l w', serve _ (DrainSubscriptionEvents me subscription 128) w = (Value l, w') → (length l ≤ 128)%nat) →
  Z.of_nat (length events) = 128 * j → 512 = j + Z.of_nat fuel →
  ∃ r w', perform serve (drain_until_idle fuel me subscription events) w = Some (r, w') ∧
          ∀ l, r = Value l → Z.of_nat (length l) ≤ 65536.
Proof.
  intros Hc; revert j events w; induction fuel as [|fuel IH]; intros j events w Hl Hf; cbn [drain_until_idle];
    (destruct (Z.ltb_spec (Z.of_nat (length events)) 65536); [|eexists _, w; split; [done|]; intros l [= <-]; lia]); [lia|].
  unfold mbind at 1, io_bind; rewrite perform_continue; cbn [perform await].
  destruct (serve _ _ w) as [[chunk|x] w1] eqn:He; cbn [mbind option_bind]; [|by eexists _, w1].
  apply Hc in He; destruct (Nat.ltb_spec (length chunk) 128).
  - eexists _, w1; split; [done|]; intros l [= <-]; rewrite length_app; lia.
  - apply (IH (j + 1)); rewrite ?length_app; lia.
Qed.

(** The drain always ends, and with at most [maxEvents] events, since the bridge gives no
    more than it is asked for. *)
Lemma wake_drain_ends me subscription w :
  (∀ w l w', serve _ (DrainSubscriptionEvents me subscription 128) w = (Value l, w') → (length l ≤ 128)%nat) →
  ∃ r w', perform serve (drainSubscriptionEventsUntilIdle me subscription) w = Some (r, w') ∧
          ∀ l, r = Value l → Z.of_nat (length l) ≤ 65536.
Proof. intros Hc; by apply (drain_ends me 512 0). Qed.
End Drain.
