(* ===== verification/WakeScenario.v ===== *)
(** * Runs of wakes

    Services that answer, schedules of dispatches, brains and reconciliations over them, and
    what is seen of the runs: the properties of [WakeDispatchFacts] at work, and two ways in
    which a failing service leaves more behind than the report of a failure. *)

From stdpp Require Import sets list gmap gmultiset strings relations.
From S2P Require Import Prelude JsString Json JsonParse CodexText CodexEvents ToolRegistry ToolSelection AsyncCalls WakeChat CompactionArtifact WakeDispatch WakeDispatchFacts.

(** ** Services that answer *)

Definition example_session : SessionState :=
  {| session_id := "s"; session_agentId := "a"; session_profileId := "p"; session_status := "active"; session_limits := None |}.

Definition example_profile : WakeProfileContext :=
  {| profile := {| wake_profileId := "p"; displayName := None; modelConfigId := None; mechanic := None; localToolProfileId := None |};
     toolSelection := {| selection_profileId := "p"; selection_catalogId := "c";
                         inventory := {| selectedTools := []; selectedBindings := []; selectedDescriptors := []; items := [] |};
                         toolProfile := [] |} |}.

Definition example_execution : SessionExecutionState :=
  {| execution_sessionId := "s"; lifecycleStatus := "active"; execution_phase := "idle"; execution_source := "core";
     execution_wakeId := None; execution_logicalTurnId := None; lastOutcome := None; execution_reasonCode := None;
     execution_json := JNull |}.

Definition broken : wake_error := OtherWakeError (Some "unavailable") None.

Abbreviation wake_pool := (pool (T := role) (X := wake_error) (call := WakeCall) (W := world)).

Section Services.
(** the services that fail: the event subscription, the chat log, the end of an activity *)
Context (drain_fails log_fails finish_fails : bool).

(** [o]: whose fault a rejection is. *)
Definition or_broken {A} (o : option nat) (fails : bool) (a : A) (w : world) : option (outcome wake_error A * world) :=
  Some (if fails then (Raise broken, with_fault o w) else (Value a, w)).

(** The answer of a call, where it can answer. *)
Definition serve B (e : WakeCall B) (w : world) : option (outcome wake_error B * world) :=
  match e in WakeCall B return option (outcome wake_error B * world) with
  | EnterWake me queued s =>
      Some (match holder w !! s with
            | None => (Value true, entered me queued s w)
            | Some _ => (Value false, postponed queued s w)
            end)
  | LeaveWake _ s => Some (Value (), left_ s w)
  | TakeDeferred me s => Some (Value (), taken me s w)
  | ListSessions => Some (Value [example_session], w)
  | RuntimePauseForSession _ => Some (Value None, w)
  | BrainForProfile _ => Some (Value (Some "brain"), w)
  | NextWakeId _ => Some (Value "w1", w)
  | BeginRuntimeActivity me k _ _ => Some (Value (), with_begun me k w)
  | LoadProfileContext _ => Some (Value example_profile, w)
  | PrepareContextStrategy _ _ => Some (Value {| prepared_instructions := []; prepared_memory := None |}, w)
  | RoleplayPromptContext _ => Some (Value None, w)
  | PlanRoleplayMechanic _ _ _ => Some (Raise broken, w)
  | SubscribeEvents _ _ => Some (Value "sub", w)
  | DrainSubscriptionEvents me _ _ => or_broken (Some me) drain_fails [] w
  | UnsubscribeEvents _ => Some (Value (), w)
  | StartCallback me input => Some (Value (), with_callback (<[me := input]> (spawned w)) (delete me (resolved w)) w)
  | CallbackSettled me => Some (Value (bool_decide (is_Some (resolved w !! me))), w)
  | CallbackResult me => (λ r, (r, w)) <$> resolved w !! me
  | Delay _ => Some (Value (), w)
  | BuildBrainWakeRequest _ => Some (Value JNull, w)
  | WakeBrain _ => Some (Value {| accepted := true; accepted_outcome := None |}, w)
  | ResolveCallback me x => Some (Value (), with_callback (spawned w) (<[me := x]> (resolved w)) w)
  | AppendChatEvent s _ => or_broken (holder w !! s) log_fails () w
  | ListChatEvents _ _ => Some (if log_fails then Raise broken else Value [], w)
  | Now => Some (Value "now", w)
  | SaveCompactionArtifact _ => Some (Value (), w)
  | PublishWakeToolActivity _ _ _ => Some (Value (), w)
  | RunPostTurnMaintenance _ _ _ _ _ _ => Some (Value (), w)
  | PersistSessionActivityDigest _ _ _ _ _ => Some (Value (), w)
  | SettleRuntimeActivityWake s => Some (Value (), with_ends ({[settlement_wakeId s]} ∪ settled w) (ended w) (pending w) w)
  | FinishRuntimeActivity f =>
      Some (if finish_fails then (Raise broken, w)
            else (Value (), with_ends (settled w) ({[activityId f]} ∪ ended w) (pending w) w))
  | DeferSettlement d => Some (Value (), with_ends (settled w) (ended w) (<[settlement_wakeId (deferred_wake d) := d]> (pending w)) w)
  | FirstPendingSettlement => Some (Value (head (map_to_list (pending w))), w)
  | DeletePendingSettlement k => Some (Value (), with_ends (settled w) (ended w) (delete k (pending w)) w)
  | ReadChatExecution _ => Some (Value example_execution, w)
  | AfterWakeSettled _ _ => Some (Value (), w)
  | RecordEvent _ _ _ => Some (Value (), w)
  end.

Lemma wake_serve_effect B (e : WakeCall B) w r w' : serve B e w = Some (r, w') → effect B e w r w'.
Proof.
  destruct e; cbn; unfold or_broken; try (by intros [= <- <-]).
  - destruct (holder w !! sessionId); by intros [= <- <-].
  - destruct drain_fails; by intros [= <- <-].
  - destruct (resolved w !! me) eqn:He; [|done]; by intros [= <- <-].
  - destruct log_fails; by intros [= <- <-].
  - intros [= <- <-]; split; [done|]; by exists "now".
  - destruct finish_fails; intros [= <- <-]; [by left|done].
  - intros [= <- <-]; split; [done|]; destruct (map_to_list (pending w)) as [|[k d] l] eqn:Hl; cbn.
    + by apply map_to_list_empty_iff.
    + apply elem_of_map_to_list; rewrite Hl; by left.
Qed.

(** ** Schedules *)

Definition role_of (_ : WakeProfileContext) (_ : RoleInput) : Role := {| role_systemPrompt := ""; roleAssembly := JNull |}.
Definition no_tools : ToolRegistry := {| entries := []; bindings := []; byName := []; aliasToName := [] |}.

Abbreviation dispatch := (@dispatchWake literal_json (λ s, s) (λ _ _, None) role_of no_tools true 3 "chat" true).
Abbreviation dispatch_queued := (@dispatch_deferred literal_json (λ s, s) (λ _ _, None) role_of no_tools true 3 "chat" true).
Abbreviation wake_starts := (@starts literal_json (λ s, s) (λ _ _, None) role_of no_tools true 3).
Abbreviation wake_step := (step effect nothing wake_starts beside false).

Inductive action :=
| Request (me : nat)
| Microtask (me : nat)
| Brain (me : nat)
| Reconcile
| Call (i : nat)
| End.

Definition fresh (me : nat) (s : wake_pool) : bool :=
  bool_decide (debts s.1 !! me = None) && bool_decide (begun s.1 !! me = None) && bool_decide (spawned s.1 !! me = None)
  && forallb (λ p, negb (bool_decide (owner (tag p) = Some me))) s.2.

(** The brain of a dispatch is under way or has ended. *)
Definition asked (me : nat) (s : wake_pool) : bool :=
  bool_decide (is_Some (resolved s.1 !! me))
  || existsb (λ p, match tag p with Callback me' => Nat.eqb me' me | _ => false end) s.2.

Definition act (a : action) (s : wake_pool) : option wake_pool :=
  let '(w, ps) := s in
  match a with
  | Request me => if fresh me s then Some (w, Process (Dispatcher true me) (dispatch me false "s") :: ps) else None
  | Microtask me =>
      if fresh me s && bool_decide ("s" ∈ microtasks w)
      then Some (w, Process (Dispatcher false me) (dispatch_queued me "s") :: ps) else None
  | Brain me =>
      match spawned w !! me with
      | Some input => if asked me s then None else Some (w, Process (Callback me) (wake_callback me input) :: ps)
      | None => None
      end
  | Reconcile => Some (w, Process Reconciler (reconcile_settlements 5 []) :: ps)
  | Call i =>
      match ps !! i with
      | Some (Process t (@Await _ _ _ B e k)) => '(r, w') ← serve B e w; Some (w', Process t (k r) :: delete i ps)
      | _ => None
      end
  | End => match ps with p :: rest => match code p with Done _ => Some (w, rest) | _ => None end | [] => None end
  end.

Fixpoint run (acts : list action) (s : wake_pool) : option wake_pool :=
  match acts with
  | [] => Some s
  | a :: acts => act a s ≫= run acts
  end.

Lemma fresh_apart me s :
  fresh me s = true →
  debts s.1 !! me = None ∧ begun s.1 !! me = None ∧ spawned s.1 !! me = None ∧
  ∀ reports, Forall (λ q, beside (Dispatcher reports me) (tag q)) s.2.
Proof.
  intros [[[Hd%bool_decide_eq_true Hb%bool_decide_eq_true]%andb_true_iff Hs%bool_decide_eq_true]%andb_true_iff Hf]%andb_true_iff.
  split; [done|]; split; [done|]; split; [done|].
  intros reports; rewrite forallb_forall in Hf; apply Forall_forall; intros q Hq%list_elem_of_In; apply Hf in Hq.
  apply negb_true_iff, bool_decide_eq_false in Hq; destruct (tag q); cbn in *; [congruence|done|done].
Qed.

Lemma asked_apart me s :
  asked me s = false → resolved s.1 !! me = None ∧ Forall (λ q, beside (Callback me) (tag q)) s.2.
Proof.
  intros [Hr%bool_decide_eq_false Hf]%orb_false_iff; split; [by apply eq_None_not_Some|].
  apply Forall_forall; intros q Hq%list_elem_of_In; destruct (tag q) as [|me'|] eqn:Ht; cbn; [done| |done]; intros <-.
  assert (existsb (λ p, match tag p with Callback me' => Nat.eqb me' me | _ => false end) s.2 = true); [|congruence].
  apply existsb_exists; exists q; split; [done|]; rewrite Ht; apply Nat.eqb_refl.
Qed.

Lemma wake_act_step a s s' : act a s = Some s' → wake_step s s'.
Proof.
  destruct s as [w ps]; destruct a as [me|me|me| |i|]; cbn [act].
  - destruct (fresh me _) eqn:Hf; [|done]; intros [= <-]; apply fresh_apart in Hf as (Hd & Hb & Hs & Hp).
    constructor; [by constructor|apply Hp].
  - destruct (fresh me _) eqn:Hf; [|done]; cbn [andb]; case_bool_decide as Hm; [|done]; intros [= <-].
    apply fresh_apart in Hf as (Hd & Hb & Hs & Hp); constructor; [by constructor|apply Hp].
  - destruct (spawned w !! me) as [input|] eqn:Hs; [|done]; destruct (asked me _) eqn:Ha; [done|]; intros [= <-].
    apply asked_apart in Ha as [Hr Hp]; constructor; [by constructor|exact Hp].
  - intros H; injection H as <-; apply step_start; [apply (starts_reconcile _ _ _ _ _ _ w 5)|]; apply Forall_forall; intros q _; done.
  - destruct (ps !! i) as [[t A [r| |B e k]]|] eqn:Hi; try done.
    intros ([r w'] & Hs%wake_serve_effect & [= <-])%bind_Some.
    apply (step_call _ _ _ _ _ w w' ps (delete i ps) t A B e k r); [by apply delete_Permutation|done].
  - destruct ps as [|p rest]; [done|]; destruct (code p) as [r| |] eqn:Hc; try done; intros [= <-].
    apply step_end with p; [done|]; right; eauto.
Qed.

Lemma wake_run_steps acts s s' : run acts s = Some s' → rtc wake_step s s'.
Proof.
  revert s; induction acts as [|a acts IH]; intros s; cbn; [by intros [= ->]|].
  intros (s1 & Ha%wake_act_step & Hr)%bind_Some; eapply rtc_l; [exact Ha|by apply IH].
Qed.
End Services.

Definition calls (n : nat) : list action := repeat (Call 0) n.

Abbreviation example_run d l f acts := (run d l f acts (empty_world, [])).

Lemma wake_run_reachable d l f acts s :
  example_run d l f acts = Some s → @reachable literal_json (λ s, s) (λ _ _, None) role_of no_tools true 3 s.
Proof. apply wake_run_steps. Qed.

(** ** The protocol at work *)

(** A dispatch has started its brain; the wake that is requested meanwhile is deferred. *)
Definition deferring_run : list action := Request 1 :: calls 11 ++ [Request 2; Call 0; End].

(** The brain answers, the first dispatch ends, and its microtask takes up the wake. *)
Definition resumed_run : list action := deferring_run ++ Brain 1 :: calls 3 ++ [End] ++ calls 17 ++ [End; Microtask 3; Call 0].

Definition sessions_seen (s : option wake_pool) : option (option nat * list string * list string) :=
  (λ s : wake_pool, (holder s.1 !! "s", elements (deferred s.1), elements (unmet s.1))) <$> s.

Example deferred_wake_resumes :
  sessions_seen (example_run false false true deferring_run) = Some (Some 1, ["s"], ["s"]) ∧
  sessions_seen (example_run false false true resumed_run) = Some (Some 3, [], []).
Proof. split; vm_compute; reflexivity. Qed.

Lemma no_wake_lost_witness :
  ∃ w ps, @reachable literal_json (λ s, s) (λ _ _, None) role_of no_tools true 3 (w, ps) ∧ "s" ∈ unmet w ∧
    ("s" ∈ microtasks w ∨ ∃ p me, p ∈ ps ∧ owner (tag p) = Some me ∧ debts w !! me = Some "s").
Proof.
  assert (sessions_seen (example_run false false true deferring_run) = Some (Some 1, ["s"], ["s"])) as H by (vm_compute; reflexivity).
  destruct (example_run false false true deferring_run) as [[w ps]|] eqn:Hr; [|discriminate].
  apply wake_run_reachable in Hr; unfold sessions_seen in H; cbn [fmap option_fmap option_map fst snd] in H.
  assert ("s" ∈ unmet w) as Hu by (apply elem_of_elements; injection H as _ _ ->; by left).
  exists w, ps; split; [exact Hr|]; split; [exact Hu|]; by apply (proj1 (no_wake_lost _ _ _ _ _ _ w ps Hr)).
Defined.

(** Two dispatches of which the first is about to begin its activity; and a dispatch that is
    about to drain its events while its brain is about to be asked. *)
Definition contending_run : list action := [Request 2; Request 1] ++ calls 5.
Definition asking_run : list action := Request 1 :: calls 12 ++ [Brain 1; Call 0].

Definition works_seen (s : option wake_pool) : option (list (option string * option string) * list nat) :=
  (λ s : wake_pool, ((λ p, (next_work p, brain_work s.1 p)) <$> s.2, elements (faults s.1))) <$> s.

Lemma one_dispatch_per_session_witness :
  (∃ w p q, @reachable literal_json (λ s, s) (λ _ _, None) role_of no_tools true 3 (w, [p; q]) ∧ next_work p = Some "s" ∧
     ∃ me, owner (tag p) = Some me ∧ holder w !! "s" = Some me ∧ owner (tag q) ≠ Some me) ∧
  (∃ w p q, @reachable literal_json (λ s, s) (λ _ _, None) role_of no_tools true 3 (w, [p; q]) ∧ brain_work w p = Some "s" ∧
     ∃ me, tag p = Callback me ∧ holder w !! "s" = Some me).
Proof.
  split.
  - assert (works_seen (example_run false false false contending_run) = Some ([(Some "s", None); (None, None)], [])) as H
      by (vm_compute; reflexivity).
    destruct (example_run false false false contending_run) as [[w ps]|] eqn:Hr; [|discriminate].
    apply wake_run_reachable in Hr; unfold works_seen in H; cbn [fmap option_fmap option_map fst snd] in H.
    destruct ps as [|p [|q [|]]]; try discriminate; injection H as Hp _.
    exists w, p, q; split; [exact Hr|]; split; [exact Hp|].
    exact (proj1 (proj1 (one_dispatch_per_session _ _ _ _ _ _ w _ p q [] "s" Hr ltac:(reflexivity)) Hp)).
  - assert (works_seen (example_run false false false asking_run) = Some ([(None, Some "s"); (None, None)], [])) as H
      by (vm_compute; reflexivity).
    destruct (example_run false false false asking_run) as [[w ps]|] eqn:Hr; [|discriminate].
    apply wake_run_reachable in Hr; unfold works_seen in H; cbn [fmap option_fmap option_map fst snd] in H.
    destruct ps as [|p [|q [|]]]; try discriminate.
    assert (brain_work w p = Some "s") as Hp by (apply (f_equal (λ x, default None (x ≫= λ x, (λ y, y.2) <$> head x.1))) in H; exact H).
    assert (faults w = ∅) as Hf by (apply leibniz_equiv, elements_empty_inv; congruence).
    exists w, p, q; split; [exact Hr|]; split; [exact Hp|].
    destruct (proj2 (one_dispatch_per_session _ _ _ _ _ _ w _ p q [] "s" Hr ltac:(reflexivity)) Hp) as (me & Ht & Hh).
    exists me; split; [exact Ht|]; apply Hh; rewrite Hf; set_solver.
Defined.

(** The bridge does not take the end of the activity: its settlement waits. *)
Definition unfinished_run : list action := Request 1 :: calls 11 ++ Brain 1 :: calls 3 ++ [End] ++ calls 17.

Definition reports_of (me : nat) (p : process role wake_error WakeCall) : bool :=
  match p with Process (Dispatcher true me') (Done (Value _)) => Nat.eqb me me' | _ => false end.

Definition ends_seen (s : option wake_pool) : option (option string * list string * list string * list string * bool) :=
  (λ s : wake_pool, (begun s.1 !! 1, elements (settled s.1), elements (ended s.1), (map_to_list (pending s.1)).*1,
             match s.2 with [p] => reports_of 1 p | _ => false end)) <$> s.

Lemma wake_end_reported_witness :
  ∃ w ps A (r : A), @reachable literal_json (λ s, s) (λ _ _, None) role_of no_tools true 3 (w, ps) ∧
    Process (Dispatcher true 1) (Done (Value r)) ∈ ps ∧ begun w !! 1 = Some "w1" ∧ answered w "w1".
Proof.
  assert (ends_seen (example_run false false true unfinished_run) = Some (Some "w1", ["w1"], [], ["w1"], true)) as H
    by (vm_compute; reflexivity).
  destruct (example_run false false true unfinished_run) as [[w ps]|] eqn:Hr; [|discriminate].
  apply wake_run_reachable in Hr; unfold ends_seen in H; cbn [fmap option_fmap option_map fst snd] in H.
  destruct ps as [|p [|]]; try discriminate; apply (f_equal (λ x, default (None, [], [], [], false) x)) in H; cbn in H.
  assert (reports_of 1 p = true) as Hp by congruence; assert (begun w !! 1 = Some "w1") as Hb by congruence.
  destruct p as [[[] me| |] A [[r|]| |]]; try discriminate; apply Nat.eqb_eq in Hp; subst me.
  exists w, [Process (Dispatcher true 1) (Done (Value r))], A, r; split; [exact Hr|]; split; [by left|]; split; [exact Hb|].
  exact (wake_end_reported _ _ _ _ _ _ w _ 1 r "w1" Hr ltac:(by left) Hb).
Defined.

(** ** What a failing service leaves behind *)

(** The drain of the events fails while the brain runs: the dispatch reports a failure and
    gives the session up, and the next dispatch starts a second brain beside the first. *)
Definition overlapping_run : list action :=
  Request 1 :: calls 11 ++ [Brain 1; Call 0; Call 1] ++ calls 15 ++ [End; Request 2] ++ calls 11.

Definition brains_seen (s : option wake_pool) : option (option nat * list nat * list nat * list nat) :=
  (λ s : wake_pool,
     (holder s.1 !! "s", (map_to_list (spawned s.1)).*1, (map_to_list (resolved s.1)).*1, elements (faults s.1))) <$> s.

Example brains_overlap : brains_seen (example_run true false false overlapping_run) = Some (Some 2, [2; 1], [], [1]).
Proof. vm_compute; reflexivity. Qed.

(** The chat log fails with it: the failure cannot be summarised, the dispatch throws, and
    the activity it has begun is neither finished nor left to be settled later. *)
Definition throwing_run : list action := Request 1 :: calls 19.

Example activity_left_open :
  ends_seen (example_run true true false throwing_run) = Some (Some "w1", [], [], [], false) ∧
  (λ s : wake_pool, match s.2 with [Process _ (Done (Raise _))] => true | _ => false end) <$> example_run true true false throwing_run
    = Some true.
Proof. split; vm_compute; reflexivity. Qed.
