(* ===== verification/ConstrainedFiles.v ===== *)
(** * Files of a delegated workspace

    [ts/packages/brain-island/src/constrained-filesystem.ts]: opening a file below a
    directory so that nobody who changes the tree meanwhile can lead the opener elsewhere,
    and replacing the content of the file that was opened.

    The kernel's file system is a table of inodes and the process's descriptors; its calls
    are [FsCall].  A path below [/proc/self/fd/N] is the descriptor [N] and a name in the
    directory it is open on.  Everything but the descriptors of the process may change
    between two calls. *)

From stdpp Require Import sets list gmap strings.
From S2P Require Import Prelude JsString Paths AsyncCalls.

(** ** The operations *)

(** An error of the kernel by its code, or one the code makes. *)
Inductive fs_error := Errno (errno : string) | Message (m : string).

(** Every mode has [O_NOFOLLOW]: [O_RDONLY | O_DIRECTORY], [O_RDWR], and
    [O_RDWR | O_CREAT | O_EXCL]. *)
Inductive open_mode := as_directory | read_write | create_exclusive.

Record Metadata := { isFile : bool; nlink : nat }.

Inductive FsCall : Type → Type :=
| RealPath (p : string) : FsCall string
| RealPathFd (fd : nat) : FsCall string
| OpenDirectory (p : string) : FsCall nat
| OpenAt (fd : nat) (name : string) (mode : open_mode) : FsCall nat
| Stat (fd : nat) : FsCall Metadata
| CloseFd (fd : nat) : FsCall ()
| Truncate (fd : nat) : FsCall ()
| WriteAt (fd : nat) (bytes : text) (position : nat) : FsCall nat
| Sync (fd : nat) : FsCall ().

Abbreviation Fs := (Io fs_error FsCall).

Section Files.
(** the working directory of the process *)
Context (cwd : string).

Definition isOutside (root target : string) : bool :=
  let pathFromRoot := relative cwd root target in
  String.eqb pathFromRoot ".." || Str.startsWith pathFromRoot "../" || Str.startsWith pathFromRoot "/".

Definition delegatedOpenError (component : string) (x : fs_error) : fs_error :=
  match x with
  | Errno "ELOOP" | Errno "ENOTDIR" =>
      Message ("delegated workspace path contains symlink or invalid directory: " +:+ component)
  | _ => x
  end.

Definition ignored (m : Fs ()) : Fs () := catch m (λ _, mret ()).

(** The descriptors are closed at once in the source; their closes commute. *)
Definition closeAll (handles : list nat) : Fs () :=
  for_each (λ _ fd, ignored (await (CloseFd fd))) () handles.

(** The directories of the path below the first one; [directories] are the descriptors that
    are to be closed at the end. *)
Fixpoint open_directories (directories : list nat) (directory : nat) (components : list string)
    : Fs (outcome fs_error nat * list nat) :=
  match components with
  | [] => mret (Value directory, directories)
  | component :: rest =>
      opened ← attempt (await (OpenAt directory component as_directory));
      match opened with
      | Raise x => mret (Raise (delegatedOpenError component x), directories)
      | Value d => open_directories (directories ++ [d]) d rest
      end
  end.

Definition open_leaf (directory : nat) (leaf : string) (create : bool) : Fs nat :=
  catch (await (OpenAt directory leaf read_write))
    (λ x, match x with
          | Errno "ELOOP" => raise (delegatedOpenError leaf x)
          | Errno "ENOENT" => if create then await (OpenAt directory leaf create_exclusive) else raise x
          | _ => raise x
          end).

(** The checks of the file that has been opened; it is closed where one fails. *)
Definition checked (canonicalRoot target : string) (handle : nat) : Fs nat :=
  catch
    (metadata ← await (Stat handle);
     if negb (isFile metadata) then raise (Message ("delegated workspace target is not a regular file: " +:+ target))
     else if negb (nlink metadata =? 1) then raise (Message ("delegated workspace target has multiple hard links: " +:+ target))
     else
       openedPath ← await (RealPathFd handle);
       if isOutside canonicalRoot openedPath || String.eqb openedPath canonicalRoot
       then raise (Message ("path escapes delegated workspace: " +:+ target))
       else mret handle)
    (λ x, await (CloseFd handle) ≫= λ _, raise x).

Definition path_components (root target : string) : list string :=
  str <$> List.filter (λ s, negb (bool_decide (s = []))) (Text.split slash (chars (relative cwd root target))).

(** What is opened below the root's descriptor, with the directories to close. *)
Definition open_below (root : string) (canonicalRoot target : string) (components : list string) (leaf : string) (create : bool)
    (rootFd : nat) : Fs (outcome fs_error nat * list nat) :=
  actual ← attempt (await (RealPathFd rootFd));
  match actual with
  | Raise x => mret (Raise x, [rootFd])
  | Value p =>
      if negb (String.eqb p canonicalRoot)
      then mret (Raise (Message ("delegated workspace root changed during open: " +:+ root)), [rootFd])
      else
        '(directory, directories) ← open_directories [rootFd] rootFd components;
        match directory with
        | Raise x => mret (Raise x, directories)
        | Value d =>
            handle ← attempt (handle ← open_leaf d leaf create; checked canonicalRoot target handle);
            mret (handle, directories)
        end
  end.

Definition openConstrainedMutableFile (root target : string) (create : bool) : Fs nat :=
  let resolvedRoot := resolve cwd [root] in
  let resolvedTarget := resolve cwd [target] in
  if isOutside resolvedRoot resolvedTarget then raise (Message ("path escapes delegated workspace: " +:+ target))
  else
    canonicalRoot ← await (RealPath resolvedRoot);
    match reverse (path_components resolvedRoot resolvedTarget) with
    | [] => raise (Message ("delegated workspace target is not a file: " +:+ target))
    | leaf :: above =>
        rootFd ← await (OpenDirectory resolvedRoot);
        '(handle, directories) ← open_below root canonicalRoot target (reverse above) leaf create rootFd;
        closeAll directories ≫= λ _, Done handle
    end.
End Files.

(** [written] is how much of [bytes] has been written; each round writes some. *)
Fixpoint write_rest (fuel : nat) (handle : nat) (bytes : text) (written : nat) : Fs () :=
  if (written <? length bytes)%nat then
    match fuel with
    | O => Endless
    | S fuel =>
        bytesWritten ← await (WriteAt handle (drop written bytes) written);
        if (bytesWritten =? 0)%nat then raise (Message "delegated workspace write made no progress")
        else write_rest fuel handle bytes (written + bytesWritten)
    end
  else mret ().

(** [bytes] is [Buffer.from(content, "utf8")] *)
Definition replaceOpenFile (handle : nat) (bytes : text) : Fs () :=
  await (Truncate handle) ≫= λ _,
  write_rest (length bytes) handle bytes 0 ≫= λ _,
  await (Sync handle).

(** ** The kernel *)

Inductive node :=
| Directory (entries : gmap string nat)
| Regular (content : text) (links : nat)
| Symlink (target : string)
| Special.

(** [followed] are the entries by which descriptors were opened, [resolved] the paths that
    were read off descriptors, both as they were at the time. *)
Record files := {
  nodes : gmap nat node;
  fds : gmap nat nat;
  followed : list (nat * string * nat);
  resolved : list (nat * string)
}.

Definition with_fds (f : gmap nat nat) (w : files) : files :=
  {| nodes := nodes w; fds := f; followed := followed w; resolved := resolved w |}.

(** The paths of an inode from the root of the file system, by its directories alone. *)
Inductive located (w : files) : nat → list text → Prop :=
| located_root : located w 0 []
| located_entry d p entries name i :
    located w d p → nodes w !! d = Some (Directory entries) → entries !! name = Some i → normal_segment (chars name) →
    located w i (p ++ [chars name]).

Definition opens (mode : open_mode) (n : node) : Prop :=
  match mode, n with
  | as_directory, Directory _ => True
  | (read_write | create_exclusive), (Regular _ _ | Special) => True
  | _, _ => False
  end.

(** A descriptor on the entry [name] of the directory [d]. *)
Definition open_entry (d : nat) (name : string) (i fd : nat) (w : files) : files :=
  {| nodes := nodes w; fds := <[fd := i]> (fds w); followed := (d, name, i) :: followed w; resolved := resolved w |}.

Definition created (d : nat) (entries : gmap string nat) (name : string) (i : nat) (w : files) : files :=
  {| nodes := <[i := Regular [] 1]> (<[d := Directory (<[name := i]> entries)]> (nodes w)); fds := fds w; followed := followed w;
     resolved := resolved w |}.

(** [bytes] written over the content at a position within it. *)
Definition overwrite (content bytes : text) (position : nat) : text :=
  take position content ++ bytes ++ drop (position + length bytes) content.

Definition with_content (i : nat) (c : text) (l : nat) (w : files) : files :=
  {| nodes := <[i := Regular c l]> (nodes w); fds := fds w; followed := followed w; resolved := resolved w |}.

Definition kernel (B : Type) (e : FsCall B) : files → outcome fs_error B → files → Prop :=
  match e in FsCall B return files → outcome fs_error B → files → Prop with
  | RealPath _ => λ w r w', w' = w
  | RealPathFd fd => λ w r w',
      match r with
      | Value p =>
          ∃ i, fds w !! fd = Some i ∧
               w' = {| nodes := nodes w; fds := fds w; followed := followed w; resolved := (i, p) :: resolved w |} ∧
               ((∃ l, located w i l ∧ p = path_text l) ∨ ∀ l, ¬ located w i l)
      | Raise _ => w' = w
      end
  | OpenDirectory _ => λ w r w',
      match r with
      | Value fd => ∃ i entries, fds w !! fd = None ∧ nodes w !! i = Some (Directory entries) ∧ w' = with_fds (<[fd := i]> (fds w)) w
      | Raise _ => w' = w
      end
  | OpenAt dir name mode => λ w r w',
      match r with
      | Value fd =>
          ∃ d entries i, fds w !! dir = Some d ∧ nodes w !! d = Some (Directory entries) ∧ fds w !! fd = None ∧
            match mode with
            | create_exclusive => entries !! name = None ∧ nodes w !! i = None ∧ w' = open_entry d name i fd (created d entries name i w)
            | _ => entries !! name = Some i ∧ (∃ n, nodes w !! i = Some n ∧ opens mode n) ∧ w' = open_entry d name i fd w
            end
      | Raise _ => w' = w
      end
  | Stat fd => λ w r w',
      w' = w ∧ ∀ m, r = Value m → ∃ i n, fds w !! fd = Some i ∧ nodes w !! i = Some n ∧
        (isFile m = true → ∃ c, n = Regular c (nlink m))
  | CloseFd fd => λ w r w', w' = with_fds (delete fd (fds w)) w
  | Truncate fd => λ w r w',
      match r with
      | Value _ => ∃ i c l, fds w !! fd = Some i ∧ nodes w !! i = Some (Regular c l) ∧ w' = with_content i [] l w
      | Raise _ => w' = w
      end
  | WriteAt fd bytes position => λ w r w',
      match r with
      | Value n => ∃ i c l, fds w !! fd = Some i ∧ nodes w !! i = Some (Regular c l) ∧ (n ≤ length bytes)%nat ∧
          w' = with_content i (overwrite c (take n bytes) position) l w
      | Raise _ => w' = w
      end
  | Sync _ => λ w r w', w' = w
  end.

(** Anything may happen to the tree, except that an inode with a descriptor on it stays what
    it is. *)
Definition kind (n : node) : nat := match n with Directory _ => 0 | Regular _ _ => 1 | Symlink _ => 2 | Special => 3 end.

Record others (w w' : files) : Prop := {
  others_fds : fds w' = fds w;
  others_followed : followed w' = followed w;
  others_resolved : resolved w' = resolved w;
  others_kind : ∀ fd i n, fds w !! fd = Some i → nodes w !! i = Some n → ∃ n', nodes w' !! i = Some n' ∧ kind n' = kind n
}.
