(* ===== verification/ConstrainedFilesFacts.v ===== *)
(** * What a delegated agent can open

    A file that [openConstrainedMutableFile] returns was reached from the root of the
    workspace by directory entries alone, whatever was done to the tree meanwhile, and no
    descriptor is left open; [replaceOpenFile] ends and leaves what it was given. *)

From stdpp Require Import sets list gmap strings.
From S2P Require Import Prelude JsString Paths AsyncCalls ConstrainedFiles.

(** From the directory [d] by the names [l] to [j], by entries that were followed. *)
Inductive reached (L : list (nat * string * nat)) (d : nat) : list string → nat → Prop :=
| reached_here : reached L d [] d
| reached_entry l i name j : reached L d l i → (i, name, j) ∈ L → reached L d (l ++ [name]) j.

Lemma reached_mono L L' d l j : L ⊆ L' → reached L d l j → reached L' d l j.
Proof. intros HL; induction 1; [constructor|econstructor; eauto]. Qed.

(** The descriptors [mine] were opened since [w0]; the others are as they were. *)
Definition opened_since (w0 : files) (mine : list nat) (w : files) : Prop :=
  (∀ fd, fd ∈ mine → fds w0 !! fd = None) ∧ ∀ fd, (fd ∉ mine) → fds w !! fd = fds w0 !! fd.

Abbreviation ensures := (ensures kernel others).

Lemma opened_since_others w0 mine w w' : others w w' → opened_since w0 mine w → opened_since w0 mine w'.
Proof. intros [E _ _ _] [H1 H2]; split; [done|]; by rewrite E. Qed.

Lemma opened_since_open w0 mine w fd i :
  fds w !! fd = None → (∀ x, x ∈ mine → is_Some (fds w !! x)) → opened_since w0 mine w →
  (fd ∉ mine) ∧ fds w0 !! fd = None ∧
  ∀ w', fds w' = <[fd := i]> (fds w) → opened_since w0 (mine ++ [fd]) w' ∧ ∀ x, x ∈ mine ++ [fd] → is_Some (fds w' !! x).
Proof.
  intros Hn Hs [H1 H2]; assert (fd ∉ mine) as Hf by (intros Hin; destruct (Hs fd Hin); congruence).
  assert (fds w0 !! fd = None) as H0 by (by rewrite <- H2); split; [done|]; split; [done|]; intros w' E; split; [split|].
  - intros x [?| ->%list_elem_of_singleton]%elem_of_app; auto.
  - intros x [Hx Hne]%not_elem_of_app; rewrite E, lookup_insert_ne by set_solver; auto.
  - intros x Hx; rewrite E; destruct (decide (x = fd)) as [->|Hne]; [rewrite lookup_insert_eq; eauto|].
    rewrite lookup_insert_ne by done; apply Hs; set_solver.
Qed.

Definition live (mine : list nat) (w : files) : Prop := ∀ x, x ∈ mine → is_Some (fds w !! x).

Lemma live_others mine w w' : others w w' → live mine w → live mine w'.
Proof. intros [E _ _ _] H x Hx; rewrite E; auto. Qed.

(** ** Closing *)

Lemma ensures_closeAll w0 mine dirs w (Q : files → Prop) :
  (∀ w w', others w w' → Q w → Q w') → (∀ w fd, fd ∈ dirs → Q w → Q (with_fds (delete fd (fds w)) w)) →
  opened_since w0 (mine ++ dirs) w → Q w →
  ensures (closeAll dirs) (λ r w', r = Value () ∧ opened_since w0 mine w' ∧ Q w') w.
Proof.
  intros Qo Qc; unfold closeAll; revert w; induction dirs as [|fd dirs IH]; intros w Hw HQ.
  { rewrite app_nil_r in Hw; by cbn. }
  cbn [for_each]; apply ensures_bind, ensures_catch, ensures_await; intros w1 O1 r w2 ->.
  assert (opened_since w0 (mine ++ dirs) (with_fds (delete fd (fds w1)) w1)) as H2.
  { apply (opened_since_others _ _ _ _ O1) in Hw as [H1 H2]; split; [intros x Hx; apply H1; set_solver|]; cbn.
    intros x Hx; destruct (decide (x = fd)) as [->|Hne]; [rewrite lookup_delete_eq; symmetry; apply H1; set_solver|].
    rewrite lookup_delete_ne by done; apply H2; set_solver. }
  assert (Q (with_fds (delete fd (fds w1)) w1)) as Q2 by (apply Qc; [by left|by eapply Qo]).
  destruct r as [[]|x]; apply IH; try done; intros w' fd' Hfd; apply Qc; by right.
Qed.

(** ** The directories *)

Lemma ensures_directories w0 r components : ∀ mine dir pre i w,
  opened_since w0 mine w → live mine w → dir ∈ mine → fds w !! dir = Some i → reached (followed w) r pre i →
  ensures (open_directories mine dir components)
    (λ o w', ∃ res mine', o = Value (res, mine') ∧ opened_since w0 mine' w' ∧ live mine' w' ∧ resolved w' = resolved w ∧
       match res with
       | Value d => ∃ j, d ∈ mine' ∧ fds w' !! d = Some j ∧ reached (followed w') r (pre ++ components) j
       | Raise _ => True
       end) w.
Proof.
  induction components as [|c rest IH]; intros mine dir pre i w Ho Hl Hd Hi Hr; cbn [open_directories].
  { rewrite app_nil_r; exists (Value dir), mine; split_and!; [done|done|done|done|]; by exists i. }
  apply ensures_bind, ensures_attempt, ensures_await; intros w1 O1 o w2 He; cbn in He.
  apply (opened_since_others _ _ _ _ O1) in Ho; apply (live_others _ _ _ O1) in Hl.
  pose proof (others_resolved _ _ O1) as Er; pose proof (others_followed _ _ O1) as Ef; rewrite <- (others_fds _ _ O1) in Hi.
  destruct o as [fd|x]; [|subst w2; eexists _, mine; split; [done|]; by rewrite Er].
  destruct He as (d & entries & j & Hdd & _ & Hfd & _ & _ & ->).
  destruct (opened_since_open w0 mine w1 fd j Hfd Hl Ho) as (_ & _ & Hopen).
  destruct (Hopen (open_entry d c j fd w1) eq_refl) as [Ho' Hl'].
  assert (d = i) as -> by congruence.
  eapply ensures_mono; [|apply (IH (mine ++ [fd]) fd (pre ++ [c]) j)]; [|done|done|set_solver| |].
  - intros o w3 (res & mine' & -> & H1 & H2 & H3 & H4); exists res, mine'; split_and!; try done; [by rewrite H3|].
    destruct res as [d'|]; [|done]; destruct H4 as (j' & ? & ? & H4); exists j'; split_and!; try done.
    by rewrite <- app_assoc in H4.
  - cbn; apply lookup_insert_eq.
  - eapply reached_entry; [|by left]; eapply reached_mono; [|exact Hr]; cbn; rewrite Ef; set_solver.
Qed.

(** ** The file *)

(** [h] is a descriptor of its own on the inode [i], which was reached by [l]. *)
Definition opened_leaf (w0 : files) (mine : list nat) (r : nat) (l : list string) (h : nat) (w : files) : Prop :=
  ∃ i n, opened_since w0 (mine ++ [h]) w ∧ (h ∉ mine) ∧ fds w !! h = Some i ∧ nodes w !! i = Some n ∧ reached (followed w) r l i.

Lemma ensures_open_at w0 mine r pre i dir name mode w :
  (mode ≠ as_directory) → opened_since w0 mine w → live mine w → fds w !! dir = Some i → reached (followed w) r pre i →
  ensures (await (OpenAt dir name mode))
    (λ o w', resolved w' = resolved w ∧
       match o with
       | Value h => opened_leaf w0 mine r (pre ++ [name]) h w'
       | Raise _ => opened_since w0 mine w' ∧ live mine w' ∧ fds w' !! dir = Some i ∧ reached (followed w') r pre i
       end) w.
Proof.
  intros Hm Ho Hl Hi Hr; apply ensures_await; intros w1 O1 o w2 He; cbn in He.
  apply (opened_since_others _ _ _ _ O1) in Ho; apply (live_others _ _ _ O1) in Hl.
  pose proof (others_resolved _ _ O1) as Er; pose proof (others_followed _ _ O1) as Ef; rewrite <- (others_fds _ _ O1) in Hi.
  destruct o as [fd|x]; [|subst w2; by rewrite Er, Ef].
  destruct He as (d & entries & j & Hdd & _ & Hfd & He); assert (d = i) as -> by congruence.
  destruct (opened_since_open w0 mine w1 fd j Hfd Hl Ho) as (Hn & _ & Hopen).
  assert (∃ w3 n, w2 = open_entry i name j fd w3 ∧ fds w3 = fds w1 ∧ followed w3 = followed w1 ∧ resolved w3 = resolved w1 ∧
            nodes w3 !! j = Some n) as (w3 & n & -> & E1 & E2 & E3 & E4).
  { destruct mode; [done| |]; [destruct He as (_ & (n & Hn' & _) & ->); by exists w1, n|].
    destruct He as (_ & _ & ->); exists (created i entries name j w1), (Regular [] 1); split_and!; try done; apply lookup_insert_eq. }
  split; [cbn; by rewrite E3, Er|]; exists j, n; split_and!; [|done|cbn; apply lookup_insert_eq|done|].
  - apply Hopen; cbn; by rewrite E1.
  - eapply reached_entry; [|by left]; eapply reached_mono; [|exact Hr]; cbn; rewrite E2, Ef; set_solver.
Qed.

Lemma ensures_leaf w0 mine r pre i dir leaf create w :
  opened_since w0 mine w → live mine w → fds w !! dir = Some i → reached (followed w) r pre i →
  ensures (open_leaf dir leaf create)
    (λ o w', resolved w' = resolved w ∧
       match o with Value h => opened_leaf w0 mine r (pre ++ [leaf]) h w' | Raise _ => opened_since w0 mine w' end) w.
Proof.
  intros Ho Hl Hi Hr; unfold open_leaf; apply ensures_catch.
  eapply ensures_mono; [|by apply (ensures_open_at w0 mine r pre i dir leaf read_write)].
  intros [h|x] w1 [Er H]; [done|]; destruct H as (Ho1 & Hl1 & Hi1 & Hr1).
  assert (ensures (raise (A := nat) x) (λ o w', resolved w' = resolved w ∧
       match o with Value h => opened_leaf w0 mine r (pre ++ [leaf]) h w' | Raise _ => opened_since w0 mine w' end) w1) as Hx by done.
  assert (ensures (await (OpenAt dir leaf create_exclusive)) (λ o w', resolved w' = resolved w ∧
       match o with Value h => opened_leaf w0 mine r (pre ++ [leaf]) h w' | Raise _ => opened_since w0 mine w' end) w1) as Hc.
  { eapply ensures_mono; [|by apply (ensures_open_at w0 mine r pre i dir leaf create_exclusive)].
    intros [h|y] w2 [E H]; (split; [congruence|]); [done|by destruct H]. }
  repeat case_match; done.
Qed.

Definition regular (w : files) (i : nat) : Prop := ∃ c l, nodes w !! i = Some (Regular c l).

(** The descriptor [h] is on a regular file that was reached by [l] and whose path was read
    off it as one below [canonicalRoot]. *)
Definition confined (cwd canonicalRoot : string) (r : nat) (l : list string) (h : nat) (w : files) : Prop :=
  ∃ i p, fds w !! h = Some i ∧ regular w i ∧ reached (followed w) r l i ∧ (i, p) ∈ resolved w ∧
    isOutside cwd canonicalRoot p = false ∧ p ≠ canonicalRoot.

Lemma confined_others cwd cr r l h w w' : others w w' → confined cwd cr r l h w → confined cwd cr r l h w'.
Proof.
  intros [Ef El Er Ek] (i & p & Hi & (c & k & Hc) & Hr & Hp & Ho & Hne); exists i, p; rewrite Ef, El, Er; split_and!; try done.
  destruct (Ek _ _ _ Hi Hc) as (n & Hn & Hk); destruct n; try done; by eexists _, _.
Qed.

Lemma opened_leaf_others w0 mine r l h w w' : others w w' → opened_leaf w0 mine r l h w → opened_leaf w0 mine r l h w'.
Proof.
  intros O (i & n & Ho & Hn & Hi & Hx & Hr); pose proof (opened_since_others _ _ _ _ O Ho) as Ho'; destruct O as [Ef El _ Ek].
  destruct (Ek _ _ _ Hi Hx) as (n' & Hn' & _); exists i, n'; rewrite Ef, El; by split_and!.
Qed.

(** Closing the file gives back what was open before. *)
Lemma close_leaf w0 mine r l h w : opened_leaf w0 mine r l h w → opened_since w0 mine (with_fds (delete h (fds w)) w).
Proof.
  intros (i & n & [H1 H2] & _); split; [intros x Hx; apply H1; set_solver|]; cbn; intros x Hx.
  destruct (decide (x = h)) as [->|Hne]; [rewrite lookup_delete_eq; symmetry; apply H1; set_solver|].
  rewrite lookup_delete_ne by done; apply H2; set_solver.
Qed.

Lemma ensures_checked cwd cr target w0 mine r l h w :
  opened_leaf w0 mine r l h w →
  ensures (checked cwd cr target h)
    (λ o w', resolved w ⊆ resolved w' ∧
       match o with
       | Value h' => h' = h ∧ opened_since w0 (mine ++ [h]) w' ∧ (h ∉ mine) ∧ confined cwd cr r l h w'
       | Raise _ => opened_since w0 mine w'
       end) w.
Proof.
  intros Hl; unfold checked; apply ensures_catch.
  assert (∀ x w1, resolved w ⊆ resolved w1 → opened_leaf w0 mine r l h w1 →
            ensures (await (CloseFd h) ≫= λ _, raise (A := nat) x) (λ o w', resolved w ⊆ resolved w' ∧
              match o with
              | Value h' => h' = h ∧ opened_since w0 (mine ++ [h]) w' ∧ (h ∉ mine) ∧ confined cwd cr r l h w'
              | Raise _ => opened_since w0 mine w'
              end) w1) as Hclose.
  { intros x w1 Hs H1; apply ensures_bind, ensures_await; intros w2 O2 o w3 ->.
    apply (opened_leaf_others _ _ _ _ _ _ _ O2), close_leaf in H1; rewrite <- (others_resolved _ _ O2) in Hs.
    by destruct o; cbn. }
  apply ensures_bind, ensures_await; intros w1 O1 o w2 [-> Hm]; apply (opened_leaf_others _ _ _ _ _ _ _ O1) in Hl.
  assert (resolved w ⊆ resolved w1) as Hs by (by rewrite (others_resolved _ _ O1)).
  destruct o as [m|x]; [|by apply Hclose]; destruct (Hm m eq_refl) as (i & n & Hi & Hn & Hreg); clear Hm.
  destruct (isFile m); [|by apply Hclose]; destruct (nlink m =? 1); [|by apply Hclose]; cbn [negb].
  destruct (Hreg eq_refl) as [c ->]; apply ensures_bind, ensures_await; intros w3 O3 o w4 He; cbn in He.
  pose proof (opened_leaf_others _ _ _ _ _ _ _ O3 Hl) as Hl3; rewrite <- (others_resolved _ _ O3) in Hs.
  destruct o as [p|x]; [|subst w4; by apply Hclose]; destruct He as (i' & Hi' & -> & _).
  assert (i' = i) as -> by (rewrite (others_fds _ _ O3) in Hi'; congruence).
  destruct (others_kind _ _ O3 _ _ _ Hi Hn) as (n' & Hn' & Hk); destruct n'; try done.
  match goal with |- ensures _ _ ?w4 => assert (opened_leaf w0 mine r l h w4) as Hl4 by exact Hl3;
    assert (resolved w ⊆ resolved w4) as Hs4 by (cbn; set_solver) end.
  destruct (isOutside cwd cr p) eqn:Hout; [by apply Hclose|]; destruct (String.eqb_spec p cr); [by apply Hclose|]; cbn [orb].
  split; [done|]; destruct Hl4 as (j & n' & Ho & Hnin & Hj & _ & Hr); assert (j = i) as -> by (cbn in Hj; congruence).
  split_and!; [done|done|done|]; exists i, p; split_and!; try done; [by eexists _, _|cbn; set_solver].
Qed.

(** ** Opening *)

(** A descriptor [h] beside those that were open, on a file below the directory whose path
    was [canonicalRoot]. *)
Definition opened_below (cwd canonicalRoot : string) (names : list string) (w0 w : files) (h : nat) : Prop :=
  opened_since w0 [h] w ∧ ∃ r, (r, canonicalRoot) ∈ resolved w ∧ confined cwd canonicalRoot r names h w.

Lemma ensures_below cwd root cr target above leaf create rootFd r w0 w :
  opened_since w0 [rootFd] w → fds w !! rootFd = Some r →
  ensures (open_below cwd root cr target above leaf create rootFd)
    (λ o w', ∃ res mine, o = Value (res, mine) ∧
       match res with
       | Value h => opened_since w0 ([h] ++ mine) w' ∧ (h ∉ mine) ∧ (r, cr) ∈ resolved w' ∧ confined cwd cr r (above ++ [leaf]) h w'
       | Raise _ => opened_since w0 mine w'
       end) w.
Proof.
  intros Ho Hr; unfold open_below; apply ensures_bind, ensures_attempt, ensures_await; intros w1 O1 o w2 He; cbn in He.
  apply (opened_since_others _ _ _ _ O1) in Ho; rewrite <- (others_fds _ _ O1) in Hr.
  destruct o as [p|x]; [|subst w2; by eexists _, _]; destruct He as (i & Hi & -> & _); assert (i = r) as -> by congruence.
  destruct (String.eqb_spec p cr) as [->|]; [|by eexists _, _]; cbn [negb].
  match goal with |- ensures _ _ ?w2 => set (v := w2); assert (opened_since w0 [rootFd] v ∧ live [rootFd] v ∧ fds v !! rootFd = Some r)
    as (Ho2 & Hl2 & Hr2) end.
  { split; [exact Ho|]; split; [|exact Hr]; intros x ->%list_elem_of_singleton; by exists r. }
  apply ensures_bind; eapply ensures_mono; [|apply (ensures_directories w0 r above [rootFd] rootFd [] r)];
    [|done|done|set_solver|done|constructor].
  intros o w3 (res & mine & -> & Ho3 & Hl3 & Er & Hd); cbn beta iota.
  destruct res as [d|x]; [|by eexists _, _]; destruct Hd as (j & _ & Hj & Hreach); cbn [app] in Hreach.
  apply ensures_bind, ensures_attempt, ensures_bind; eapply ensures_mono; [|by apply (ensures_leaf w0 mine r above j)].
  intros [h|x] w4 [E4 H4]; [|by eexists _, _]; eapply ensures_mono; [|by apply ensures_checked].
  intros [h'|x] w5 [E5 H5]; [|by eexists _, _]; destruct H5 as (-> & H5 & Hn & Hc).
  eexists _, mine; split; [done|]; split_and!; [|done| |done].
  - destruct H5 as [A B]; split; [intros y Hy; apply A; set_solver|intros y Hy; apply B; set_solver].
  - apply E5; rewrite E4, Er; cbn; by left.
Qed.

(** The names are those by which the target lies below the root. *)
Lemma path_components_below cwd root target :
  isOutside cwd (resolve cwd [root]) (resolve cwd [target]) = false →
  ∃ rest, normalize (resolve_segments cwd [target]) = normalize (resolve_segments cwd [root]) ++ rest ∧
          Forall normal_segment rest ∧ path_components cwd (resolve cwd [root]) (resolve cwd [target]) = str <$> rest.
Proof.
  pose proof (resolve_normal cwd [root]) as Nr; pose proof (resolve_normal cwd [target]) as Nt.
  intros H; change (leads_up (relative cwd (resolve cwd [root]) (resolve cwd [target])) = false) in H; revert H; rewrite leads_up_relative; unfold resolve.
  set (L := normalize (resolve_segments cwd [root])) in *; set (T := normalize (resolve_segments cwd [target])) in *.
  rewrite !resolve_path_text by done; intros [rest E]; exists rest; split; [done|].
  assert (Forall normal_segment rest) as Hr by (rewrite E in Nt; by apply Forall_app in Nt as [_ ?]); split; [done|].
  unfold path_components; rewrite E, relative_prefix, chars_str by (by rewrite <- E); f_equal.
  destruct rest as [|s rest]; [done|]; rewrite Text.split_join; [|done|eapply Forall_impl; [exact Hr|]; by intros ? (_ & _ & _ & ?)].
  clear E Nt; induction Hr as [|x l (Hx & _) _ IH]; [done|]; cbn [List.filter].
  rewrite bool_decide_eq_false_2 by done; cbn [negb]; by rewrite IH.
Qed.

(** C5. Whatever is done to the tree while it runs - directories renamed, replaced by
    symbolic links, files moved - [openConstrainedMutableFile] ends, and either throws, with
    no descriptor left open, or returns one descriptor and no other, on a regular file that
    was reached from the directory of the workspace by entries of directories named like
    the parts of the requested path, no link ever being followed, and whose own path was
    read as one below the path of that directory. *)
Theorem constrained_open_confined cwd root target create w :
  ensures (openConstrainedMutableFile cwd root target create)
    (λ o w', match o with
             | Value h => ∃ canonicalRoot rest,
                 normalize (resolve_segments cwd [target]) = normalize (resolve_segments cwd [root]) ++ rest ∧
                 Forall normal_segment rest ∧ opened_below cwd canonicalRoot (str <$> rest) w w' h
             | Raise _ => ∀ fd, fds w' !! fd = fds w !! fd
             end) w.
Proof.
  unfold openConstrainedMutableFile; destruct (isOutside _ _ _) eqn:Hin; [done|].
  destruct (path_components_below cwd root target Hin) as (rest & Hrest & Hnormal & Hcomp); rewrite Hcomp.
  apply ensures_bind, ensures_await; intros w1 O1 o w2 ->; pose proof (others_fds _ _ O1) as E1.
  destruct o as [cr|x]; [|intros fd; by rewrite E1].
  destruct (reverse _) as [|leaf above] eqn:Hrev; [intros fd; by rewrite E1|].
  apply ensures_bind, ensures_await; intros w2 O2 o w3 He; cbn in He; pose proof (others_fds _ _ O2) as E2.
  destruct o as [rootFd|x]; [|subst w3; intros fd; by rewrite E2, E1].
  destruct He as (r & entries & Hfree & _ & ->); rewrite E2, E1 in Hfree.
  apply ensures_bind; eapply ensures_mono; [|apply (ensures_below cwd root cr target (reverse above) leaf create rootFd r w)].
  - intros o w4 (res & mine & -> & H); cbn beta iota; apply ensures_bind.
    assert (reverse above ++ [leaf] = str <$> rest) as Hnames by (rewrite <- (reverse_involutive (str <$> rest)), Hrev; by rewrite reverse_cons).
    destruct res as [h|x].
    + destruct H as (Ho & Hn & Hres & Hc).
      eapply ensures_mono; [|apply (ensures_closeAll w [h] mine _ (λ w', (r, cr) ∈ resolved w' ∧ confined cwd cr r (reverse above ++ [leaf]) h w'))].
      * intros o w5 (-> & Ho5 & Hres5 & Hc5); cbn; exists cr, rest; split; [done|]; split; [done|]; split; [done|]; exists r; by rewrite <- Hnames.
      * intros v v' O [A B]; split; [by rewrite (others_resolved _ _ O)|by eapply confined_others].
      * intros v fd Hfd [A (i & p & Hi & Rest)]; split; [done|]; exists i, p; split; [|exact Rest]; cbn; rewrite lookup_delete_ne; [done|].
        intros ->; done.
      * done.
      * done.
    + eapply ensures_mono; [|apply (ensures_closeAll w [] mine _ (λ _, True))]; [|done|done|done|done].
      intros o w5 (-> & [_ Ho5] & _); cbn; intros fd; apply Ho5; set_solver.
  - split; [intros fd ->%list_elem_of_singleton; done|]; cbn; intros fd Hfd; rewrite lookup_insert_ne by set_solver; by rewrite E2, E1.
  - cbn; apply lookup_insert_eq.
Qed.

(** ** Replacing the content *)

(** Nobody else writes to the file. *)
Definition undisturbed (i : nat) (w w' : files) : Prop := others w w' ∧ nodes w' !! i = nodes w !! i.

Section Replace.
Context (h i : nat) (l : nat) (bytes : text).

(** The first [n] bytes have been written, and nothing else is in the file. *)
Definition written_to (n : nat) (w : files) : Prop := fds w !! h = Some i ∧ nodes w !! i = Some (Regular (take n bytes) l).

Lemma written_undisturbed n w w' : undisturbed i w w' → written_to n w → written_to n w'.
Proof. intros [[E _ _ _] En] [H1 H2]; split; congruence. Qed.

Lemma overwrite_next n k : (n + k ≤ length bytes)%nat → overwrite (take n bytes) (take k (drop n bytes)) n = take (n + k) bytes.
Proof.
  intros H; unfold overwrite; assert (length (take n bytes) = n) as Hn by (rewrite length_take; lia).
  rewrite (take_ge (take n bytes)), (drop_ge (take n bytes)), app_nil_r by lia; by rewrite take_take_drop.
Qed.

Lemma ensures_write fuel n w :
  written_to n w → (n ≤ length bytes)%nat → (length bytes ≤ n + fuel)%nat →
  AsyncCalls.ensures kernel (undisturbed i) (write_rest fuel h bytes n)
    (λ o w', ∃ k, written_to k w' ∧ (o = Value () → k = length bytes)) w.
Proof.
  revert n w; induction fuel as [|fuel IH]; intros n w Hw Hn Hf; cbn [write_rest];
    (destruct (Nat.ltb_spec n (length bytes)); [|exists n; split; [done|intros _; lia]]); [lia|].
  apply ensures_bind, ensures_await; intros w1 U1 o w2 He; cbn in He; pose proof (written_undisturbed _ _ _ U1 Hw) as [Hi Hc].
  destruct o as [k|x]; [|subst w2; by exists n].
  destruct He as (i' & c & l' & Hi' & Hc' & Hk & ->); assert (i' = i) as -> by congruence; rewrite Hc in Hc'; injection Hc' as <- <-.
  rewrite length_drop in Hk; rewrite overwrite_next by lia.
  assert (written_to (n + k) (with_content i (take (n + k) bytes) l w1)) as H2 by (split; [done|cbn; apply lookup_insert_eq]).
  destruct (Nat.eqb_spec k 0); [by eexists|]; apply IH; [done|lia|lia].
Qed.

(** C6. Replacing the content of an open file that nobody else writes ends, however many
    bytes each write takes, and leaves exactly the new content where it succeeds; where it
    throws, the file has the old content or a part of the new one from its start. *)
Theorem replace_open_file_exact c w :
  fds w !! h = Some i → nodes w !! i = Some (Regular c l) →
  AsyncCalls.ensures kernel (undisturbed i) (replaceOpenFile h bytes)
    (λ o w', ∃ c', nodes w' !! i = Some (Regular c' l) ∧
       match o with Value _ => c' = bytes | Raise _ => c' = c ∨ ∃ n, c' = take n bytes end) w.
Proof.
  intros Hi Hc; unfold replaceOpenFile; apply ensures_bind, ensures_await; intros w1 [O1 E1] o w2 He; cbn in He.
  destruct o as [[]|x]; [|subst w2; exists c; rewrite E1; auto].
  destruct He as (i' & c' & l' & Hi' & Hc' & ->); assert (i' = i) as -> by (rewrite (others_fds _ _ O1) in Hi'; congruence).
  rewrite E1, Hc in Hc'; injection Hc' as <- <-.
  apply ensures_bind; eapply ensures_mono; [|apply (ensures_write (length bytes) 0)]; [| |lia|lia].
  2: { split; [done|cbn; apply lookup_insert_eq]. }
  intros [[]|x] w2 (k & [Hi2 Hc2] & Hk); [|exists (take k bytes); split; [done|right; eauto]].
  rewrite (Hk eq_refl), take_ge in Hc2 by done; apply ensures_await; intros w3 [_ E3] o w4 ->; rewrite E3.
  exists bytes; split; [done|]; destruct o; [done|]; right; exists (length bytes); by rewrite take_ge.
Qed.
End Replace.

(** ** A kernel that answers *)

Module FilesExample.

(** [/w] is the inode 1 with the directory [a], the inode 2, in which [f] is the file 3 and
    [s] a symbolic link. *)
Definition tree : files :=
  {| nodes := {[ 0 := Directory {[ "w" := 1 ]}; 1 := Directory {[ "a" := 2 ]}; 2 := Directory {[ "f" := 3; "s" := 4 ]};
                 3 := Regular (chars "old") 1; 4 := Symlink "/etc" ]};
     fds := ∅; followed := []; resolved := [] |}.

Definition path_of (i : nat) : string :=
  match i with 1 => "/w" | 2 => "/w/a" | 3 => "/w/a/f" | 5 => "/w/a/g" | _ => "/" end.

Definition open_fd (mode : open_mode) (d : nat) (entries : gmap string nat) (name : string) (w : files) : outcome fs_error nat * files :=
  let fd := 10 + size (fds w) in
  match entries !! name with
  | None => match mode with
            | create_exclusive => (Value fd, open_entry d name 5 fd (created d entries name 5 w))
            | _ => (Raise (Errno "ENOENT"), w)
            end
  | Some i =>
      match mode, nodes w !! i with
      | create_exclusive, _ => (Raise (Errno "EEXIST"), w)
      | _, Some (Symlink _) => (Raise (Errno "ELOOP"), w)
      | as_directory, Some (Directory _) | read_write, Some (Regular _ _) => (Value fd, open_entry d name i fd w)
      | as_directory, _ => (Raise (Errno "ENOTDIR"), w)
      | _, _ => (Raise (Errno "EISDIR"), w)
      end
  end.

Definition serve B (e : FsCall B) (w : files) : outcome fs_error B * files :=
  let bad {A} : outcome fs_error A * files := (Raise (Errno "EBADF"), w) in
  match e in FsCall B return outcome fs_error B * files with
  | RealPath p => (Value p, w)
  | RealPathFd fd => match fds w !! fd with
                     | Some i => (Value (path_of i), {| nodes := nodes w; fds := fds w; followed := followed w;
                                                        resolved := (i, path_of i) :: resolved w |})
                     | None => bad
                     end
  | OpenDirectory _ => (Value 9, with_fds (<[9 := 1]> (fds w)) w)
  | OpenAt dir name mode =>
      match fds w !! dir with
      | Some d => match nodes w !! d with Some (Directory entries) => open_fd mode d entries name w | _ => (Raise (Errno "ENOTDIR"), w) end
      | None => bad
      end
  | Stat fd => match fds w !! fd ≫= λ i, nodes w !! i with
               | Some (Regular _ l) => (Value {| isFile := true; nlink := l |}, w)
               | Some _ => (Value {| isFile := false; nlink := 1 |}, w)
               | None => bad
               end
  | CloseFd fd => (Value (), with_fds (delete fd (fds w)) w)
  | Truncate fd => match fds w !! fd with
                   | Some i => match nodes w !! i with Some (Regular _ l) => (Value (), with_content i [] l w) | _ => bad end
                   | None => bad
                   end
  | WriteAt fd bytes position =>
      match fds w !! fd with
      | Some i => match nodes w !! i with
                  | Some (Regular c l) => (Value (Nat.min 2 (length bytes)), with_content i (overwrite c (take 2 bytes) position) l w)
                  | _ => bad
                  end
      | None => bad
      end
  | Sync _ => (Value (), w)
  end.

Definition seen (r : option (outcome fs_error nat * files)) : option (outcome fs_error nat * list (nat * nat)) :=
  (λ '(o, w), (o, map_to_list (fds w))) <$> r.

(** The file is opened and nothing else stays open; a link is refused, also as a directory;
    a missing file is made. *)
Example opened_and_refused :
  seen (perform serve (openConstrainedMutableFile "/" "/w" "/w/a/f" false) tree) = Some (Value 12, [(12, 3)]) ∧
  seen (perform serve (openConstrainedMutableFile "/" "/w" "/w/a/s" true) tree)
    = Some (Raise (Message "delegated workspace path contains symlink or invalid directory: s"), []) ∧
  seen (perform serve (openConstrainedMutableFile "/" "/w" "/w/a/s/x" true) tree)
    = Some (Raise (Message "delegated workspace path contains symlink or invalid directory: s"), []) ∧
  seen (perform serve (openConstrainedMutableFile "/" "/w" "/w/a/g" true) tree) = Some (Value 12, [(12, 5)]) ∧
  seen (perform serve (openConstrainedMutableFile "/" "/w" "/w/../etc" true) tree)
    = Some (Raise (Message "path escapes delegated workspace: /w/../etc"), []).
Proof. vm_compute; split_and!; reflexivity. Qed.

Lemma replace_open_file_exact_witness :
  AsyncCalls.ensures kernel (undisturbed 3) (replaceOpenFile 11 (chars "new"))
    (λ o w', ∃ c', nodes w' !! 3 = Some (Regular c' 1) ∧
       match o with Value _ => c' = chars "new" | Raise _ => c' = chars "old" ∨ ∃ n, c' = take n (chars "new") end)
    (with_fds {[ 11 := 3 ]} tree).
Proof. apply (replace_open_file_exact 11 3 1 (chars "new") (chars "old")); reflexivity. Defined.

(** Two bytes at a time. *)
Example replaced_in_parts :
  (λ '(_, w), nodes w !! 3) <$> perform serve (replaceOpenFile 11 (chars "replaced")) (with_fds {[ 11 := 3 ]} tree)
  = Some (Some (Regular (chars "replaced") 1)).
Proof. vm_compute; reflexivity. Qed.
End FilesExample.
