(* ===== verification/CrewSessions.v ===== *)
(** * The lifecycle of crew sessions

    [ts/packages/brain-island/src/service-crew-session-lifecycle.ts]: archiving a session,
    creating one and moving one to another workspace.  Each of the three changes the authored
    configuration, a JSON file, and the canonical session of the core, and takes back what it
    has done when it cannot do the rest.  With it, the reading of the configuration
    ([service-profile-admin-mutations.ts]), the bindings of a profile
    ([service-profile-runtime-mutations.ts]) and their names ([mcp-binding-identity.ts]).

    The configuration is changed in place in the source; [previousRuntimeConfig] is its deep
    copy, so that both are values here.  The core, the file, the validation and the clock are
    calls, [CrewCall]. *)

From stdpp Require Import sets list strings pretty.
From S2P Require Import Prelude JsString Json JsonParse CodexText CodexEvents AsyncCalls.
#[local] Open Scope Z_scope.

(** ** Data *)

Abbreviation record := (list (string * json)).

Record SessionWorkspace := { cwd : string; workspace_revision : Z }.

Record CrewSession := {
  sessionId : string; agentId : string; profileId : string; session_kind : string; session_status : string;
  workspace : option SessionWorkspace;
  maxDurationMs : option string; maxDelegationDepth : option string; maxMessages : option string
}.

Record CrewSessionLifecyclePartialOutcome := {
  outcome_kind : string; outcome_sessionId : string; requestedCwd : string;
  canonicalCwd : option string; canonicalRevision : option Z; authoredCwd : option string;
  primaryError : string; compensationError : option string; reconciliationError : option string
}.

Inductive crew_error :=
| CrewSessionLifecycleError (reasonCode message : string) (retryable : bool) (partialOutcome : option CrewSessionLifecyclePartialOutcome)
| OtherError (message : string).

Definition errorMessage (x : crew_error) : string :=
  match x with CrewSessionLifecycleError _ m _ _ | OtherError m => m end.

Record PlanBinding := { plan_bindingId : string; plan_sessionId : option string }.
Record RuntimePlan := { channelBindings : list PlanBinding; mcpBindings : list PlanBinding }.
Record Validation := { ok : bool; diagnostics : list (string * string); runtimePlan : option RuntimePlan }.

Record SessionWorkspaceUpdateRecord := { current : SessionWorkspace; previous : SessionWorkspace; updated_session : CrewSession }.

Record CreationRequest := {
  expectedProfileRevision : Z; idempotencyKey : string; request_profileId : string; requestedAt : string; workspaceCwd : string
}.
Inductive CreationOutcome := created | replayed | recovered.
Record CreationRecord := {
  creation_outcome : CreationOutcome; profileRevision : Z; requestFingerprint : string; creation_session : CrewSession; templateSessionId : option string
}.

Record ProfileRecord := {
  profile_id : string; lifecycleStatus : string; displayName : option string; summary : option string;
  defaultSessionKind : option string; profile_agentId : option string; ownerId : option string;
  promptSoulMarkdown : option string; promptMemoryMarkdown : option string;
  activeRuntimeSettingsJson : json; sourceAssetRefs : json; derivedRuntimeRefs : list record; importExport : json;
  profile_revision : Z
}.

(** [write_now] is the time of the write. *)
Record ProfileWrite := { write : ProfileRecord; write_now : string; expectedRevision : Z }.

Inductive CrewCall : Type → Type :=
| SessionById (s : string) : CrewCall CrewSession
| InFlight (s : string) : CrewCall bool
| ReadConfigFile : CrewCall json
| ValidateConfig (v : record) : CrewCall Validation
| WriteConfig (v : record) : CrewCall ()
| ApplyConfig (eventType summaryPrefix : string) : CrewCall json
| UpdateSessionWorkspace (s to : string) (expected : Z) (at_ : string) : CrewCall SessionWorkspaceUpdateRecord
| ArchiveSession (s : string) : CrewCall CrewSession
| CreateCrewAgentSession (r : CreationRequest) : CrewCall CreationRecord
| GetProfile (p : string) : CrewCall (option ProfileRecord)
| UpdateProfile (w : ProfileWrite) : CrewCall ()
| AppendChatEvent (s k : string) (payload : record) : CrewCall string
| RefreshMcpTools (s : CrewSession) (bindingIds : list string) : CrewCall ()
| Now : CrewCall string.

Abbreviation Crew := (Io crew_error CrewCall).

Definition lift {A} (r : result A) : Crew A :=
  match r with Ok a => mret a | Throw e => raise (OtherError e) end.

(** [m.catch(() => undefined)] *)
Definition best_effort {A} (m : Crew A) : Crew () := attempt m ≫= λ _, mret ().

Definition fails {A} (reasonCode message : string) (retryable : bool) : Crew A :=
  raise (CrewSessionLifecycleError reasonCode message retryable None).

(** A member that may be [undefined]. *)
Definition maybe_string (v : option string) : json := from_option JString JUndefined v.

(** ** The entries of the configuration *)

Definition isRecord (v : json) : option record := match v with JObject o => Some o | _ => None end.

Definition entrySessionRef (entry : json) (camelKey snakeKey : string) : option string :=
  match isRecord entry with
  | None => None
  | Some o => stringValue (nullish_or (member o camelKey) (member o snakeKey))
  end.

Definition entrySessionId (entry : json) : option string := entrySessionRef entry "sessionId" "session_id".

(** [entries.splice(index, 1)] *)
Definition splice_out {A} (l : list A) (index : nat) : list A := take index l ++ drop (S index) l.

(** [n] entries are left to look at, the one at [n - 1] first. *)
Fixpoint removeEntries (matches : json → bool) (n : nat) (entries : list json) (removed : nat) : list json * nat :=
  match n with
  | O => (entries, removed)
  | S index =>
      match entries !! index with
      | Some entry => if matches entry then removeEntries matches index (splice_out entries index) (S removed)
                      else removeEntries matches index entries removed
      | None => removeEntries matches index entries removed
      end
  end.

Definition id_matches (ids : list string) (camelKey snakeKey : string) (entry : json) : bool :=
  match isRecord entry with
  | None => false
  | Some o => match nullish_or (member o camelKey) (member o snakeKey) with JString id => set_has id ids | _ => false end
  end.

Definition removeEntriesByIds (entries : list json) (ids : list string) (camelKey snakeKey : string) : list json * nat :=
  removeEntries (id_matches ids camelKey snakeKey) (length entries) entries 0.

Definition session_matches (s camelKey snakeKey : string) (entry : json) : bool :=
  bool_decide (entrySessionRef entry camelKey snakeKey = Some s).

Definition removeEntriesBySessionId (entries : list json) (s camelKey snakeKey : string) : list json * nat :=
  removeEntries (session_matches s camelKey snakeKey) (length entries) entries 0.

Definition bindingIdsTargetingSession (bindings : list PlanBinding) (s : string) : list string :=
  set_of_list (plan_bindingId <$> List.filter (λ b, bool_decide (plan_sessionId b = Some s)) bindings).

(** ** The file *)

Section Lifecycle.
(** the settings of the service that the file may leave out *)
Context (profilesDir : string) (skillsDir : option string).

Definition with_default (key : string) (value : option string) (o : record) : record :=
  match value, member o key with
  | Some d, JUndefined => map_set key (JString d) o
  | _, _ => o
  end.

Definition readRuntimeConfigFileForMutation : Crew record :=
  parsed ← await ReadConfigFile;
  match isRecord parsed with
  | None => raise (OtherError "service runtime config root must be an object")
  | Some o => mret (with_default "skillsDir" skillsDir (with_default "profilesDir" (Some profilesDir) o))
  end.

(** The array, and the configuration that has it. *)
Definition array (key : string) (value : record) : result (list json * record) :=
  match member value key with
  | JUndefined => Ok ([], map_set key (JArray []) value)
  | JArray l => Ok (l, value)
  | _ => Throw ("runtime config " +:+ key +:+ " must be an array")
  end.

Definition with_array (key : string) (l : list json) (value : record) : record := map_set key (JArray l) value.

Definition assertValidRuntimeConfig (value : record) : Crew RuntimePlan :=
  validation ← await (ValidateConfig value);
  match ok validation, runtimePlan validation with
  | true, Some plan => mret plan
  | _, _ =>
      let message := snd <$> List.find (λ d, String.eqb (fst d) "error") (diagnostics validation) in
      fails "crew_session_runtime_config_invalid"
        (default "Crew session runtime config mutation did not produce a canonical Rust plan." message) false
  end.

(** ** Archiving *)

(** The references of a profile, those of the session marked, and whether there was one. *)
Fixpoint mark_references (s : string) (references : list record) : Crew (list record * bool) :=
  match references with
  | [] => mret ([], false)
  | reference :: rest =>
      if is_string "session" (member reference "refKind") && is_string s (member reference "refId") then
        at_ ← await Now;
        '(marked, _) ← mark_references s rest;
        mret (map_set "updatedAt" (JString at_) (map_set "status" (JString "archived") reference) :: marked, true)
      else
        '(marked, changed) ← mark_references s rest;
        mret (reference :: marked, changed)
  end.

Definition profile_write (profile : ProfileRecord) (references : list record) (at_ : string) : ProfileWrite :=
  {| write := {| profile_id := profile_id profile; lifecycleStatus := lifecycleStatus profile; displayName := displayName profile;
                 summary := summary profile; defaultSessionKind := defaultSessionKind profile;
                 profile_agentId := profile_agentId profile; ownerId := ownerId profile;
                 promptSoulMarkdown := promptSoulMarkdown profile; promptMemoryMarkdown := promptMemoryMarkdown profile;
                 activeRuntimeSettingsJson := nullish_or (activeRuntimeSettingsJson profile) (JObject []);
                 sourceAssetRefs := sourceAssetRefs profile; derivedRuntimeRefs := references;
                 importExport := importExport profile; profile_revision := profile_revision profile |};
     write_now := at_; expectedRevision := profile_revision profile |}.

Definition markProfileSessionRefArchived (session : CrewSession) : Crew () :=
  profile ← await (GetProfile (profileId session));
  match profile with
  | None => mret ()
  | Some profile =>
      '(references, changed) ← mark_references (sessionId session) (derivedRuntimeRefs profile);
      if negb changed then mret ()
      else at_ ← await Now; await (UpdateProfile (profile_write profile references at_))
  end.

Record RemovedEntries := { sessionEntriesRemoved : nat; channelBindingsDetached : nat; mcpBindingsDetached : nat; scheduledJobsRemoved : nat }.

Record ArchiveInput := { archive_sessionId : string; commandName : option string; requestId : option string; actorId : option string }.

Record ArchiveCrewSessionResult := { archived : CrewSession; commandEventCursor : option string; runtime : RemovedEntries; applyResult : json }.

(** The configuration without what belongs to the session. *)
Definition detach_session (plan : RuntimePlan) (s : string) (value : record) : result (record * RemovedEntries) :=
  let channelBindingIds := bindingIdsTargetingSession (channelBindings plan) s in
  let mcpBindingIds := bindingIdsTargetingSession (mcpBindings plan) s in
  '(sessions, value) ← array "sessions" value;
  let '(sessions, n1) := removeEntriesBySessionId sessions s "sessionId" "session_id" in
  let value := with_array "sessions" sessions value in
  '(channels, value) ← array "channelBindings" value;
  let '(channels, n2) := removeEntriesByIds channels channelBindingIds "bindingId" "binding_id" in
  let value := with_array "channelBindings" channels value in
  '(mcps, value) ← array "mcpBindings" value;
  let '(mcps, n3) := removeEntriesByIds mcps mcpBindingIds "bindingId" "binding_id" in
  let value := with_array "mcpBindings" mcps value in
  '(jobs, value) ← array "scheduledJobs" value;
  let '(jobs, n4) := removeEntriesBySessionId jobs s "targetSessionId" "target_session_id" in
  let value := with_array "scheduledJobs" jobs value in
  Ok (value, {| sessionEntriesRemoved := n1; channelBindingsDetached := n2; mcpBindingsDetached := n3; scheduledJobsRemoved := n4 |}).

(** whether the context has [appendChatEvent] *)
Context (has_chat : bool).

(** The part of the archive that is taken back when it fails. *)
Definition commit_archive (input : ArchiveInput) (s : string) : Crew (option string * CrewSession) :=
  cursor ← (if bool_decide (commandName input = Some "archive") && has_chat then
              eventId ← await (AppendChatEvent s "command_completed"
                [("status", JString "completed"); ("command_name", JString "archive");
                 ("summary", JString ("Archived session " +:+ s +:+ "."));
                 ("request_id", maybe_string (requestId input)); ("actor_id", maybe_string (actorId input));
                 ("session_id", JString s)]);
              mret (Some eventId)
            else mret None);
  archived ← await (ArchiveSession s);
  mret (cursor, archived).

Definition archiveCrewSession (input : ArchiveInput) : Crew ArchiveCrewSessionResult :=
  session ← await (SessionById (archive_sessionId input));
  let s := sessionId session in
  if negb (String.eqb (session_kind session) "full" || String.eqb (session_kind session) "delegated") then
    fails "crew_session_archive_kind_invalid" "Only full or delegated Crew sessions can be archived through this lifecycle." false
  else if String.eqb (session_status session) "archived" then
    fails "crew_session_already_archived" ("Session " +:+ s +:+ " is already archived.") false
  else
    busy ← await (InFlight s);
    if (busy : bool) then
      fails "crew_session_archive_in_flight" ("Session " +:+ s +:+ " has an active turn; cancel or finish it before archiving.") true
    else
      value ← readRuntimeConfigFileForMutation;
      plan ← assertValidRuntimeConfig value;
      '(detached, removed) ← lift (detach_session plan s value);
      assertValidRuntimeConfig detached ≫= λ _,
      await (WriteConfig detached) ≫= λ _,
      commit ← attempt (commit_archive input s);
      match commit with
      | Raise x =>
          best_effort (await (WriteConfig value)) ≫= λ _,
          best_effort (await (ApplyConfig "crew_session_archive_rolled_back" ("Crew session " +:+ s +:+ " archive rolled back"))) ≫= λ _,
          fails "crew_session_archive_commit_failed" (errorMessage x) true
      | Value (cursor, archived) =>
          markProfileSessionRefArchived session ≫= λ _,
          result ← await (ApplyConfig "crew_session_archived" ("Crew session " +:+ s +:+ " archived"));
          mret {| archived := archived; commandEventCursor := cursor; runtime := removed; applyResult := result |}
      end.

(** ** Creating *)

Definition CREATION_REASON_CODES : list string :=
  ["crew_agent_session_creation_idempotency_key_required";
   "crew_agent_session_creation_requested_at_required";
   "crew_agent_session_creation_profile_not_found";
   "crew_agent_session_creation_profile_agent_missing";
   "crew_agent_session_creation_idempotency_conflict";
   "crew_agent_session_creation_session_config_missing";
   "crew_agent_session_creation_profile_inactive";
   "crew_agent_session_creation_profile_revision_conflict";
   "crew_agent_session_creation_profile_session_kind_invalid";
   "crew_agent_session_creation_active_session_conflict"].

Definition creationError (x : crew_error) : crew_error :=
  let message := errorMessage x in
  let reasonCode := List.find (λ candidate, Text.includes (chars message) (chars candidate)) CREATION_REASON_CODES in
  CrewSessionLifecycleError (default "crew_agent_session_creation_internal_error" reasonCode) message
    (match reasonCode with None => true | Some _ => false end) None.

(** The members that are not [undefined]. *)
Definition compact (input : record) : record := List.filter (λ p, match p.2 with JUndefined => false | _ => true end) input.

Definition runtimeSessionEntry (session : CrewSession) : record :=
  compact [("sessionId", JString (sessionId session)); ("agentId", JString (agentId session)); ("profileId", JString (profileId session));
           ("kind", JString (session_kind session)); ("workspaceCwd", maybe_string (cwd <$> workspace session));
           ("resourceLimits", JObject (compact [("maxDurationMs", from_option JNumber JUndefined (maxDurationMs session));
                                                ("maxDelegationDepth", from_option JNumber JUndefined (maxDelegationDepth session))]));
           ("maxHistoryMessages", from_option JNumber JUndefined (maxMessages session))].

Definition SESSION_MATERIALIZATION_DELIMITER : string := "--session--".

(** An id that begins with the delimiter is kept whole. *)
Definition desiredMcpBindingTemplateId (bindingId : string) : string :=
  match Text.indexOf (chars bindingId) (chars SESSION_MATERIALIZATION_DELIMITER) 0 with
  | None | Some O => bindingId
  | Some index => Str.slice bindingId 0 index
  end.

Definition materializedMcpBindingId (desiredBindingId s : string) : string :=
  desiredMcpBindingTemplateId desiredBindingId +:+ SESSION_MATERIALIZATION_DELIMITER +:+ s.

Record EditableProfileMcpBinding := {
  serverId : string; bindingId : option string; adapterId : option string; serverNames : option (list string);
  transport : option string; toolProfileKey : option string
}.

Definition optionalString (v : json) : option string :=
  match v with JString s => match Str.trim s with "" => None | t => Some t end | _ => None end.

Definition optionalStringArray (v : json) : option (list string) :=
  match v with JArray l => match omap optionalString l with [] => None | parsed => Some parsed end | _ => None end.

Definition serverIdFromEndpointRef (value : option string) : option string :=
  v ← value; if Str.startsWith v "config://mcp/" then Some (Str.slice_from v 13) else None.

Definition profile_binding (item : json) : option EditableProfileMcpBinding :=
  o ← isRecord item;
  let either (a b : string) := nullish_or (member o a) (member o b) in
  let serverNames := optionalStringArray (either "serverNames" "server_names") in
  let endpointRef := optionalString (either "endpointRef" "endpoint_ref") in
  serverId ← or_else (optionalString (either "serverId" "server_id"))
               (or_else (serverIdFromEndpointRef endpointRef) (serverNames ≫= head));
  Some {| serverId := serverId;
          bindingId := desiredMcpBindingTemplateId <$> optionalString (either "bindingId" "binding_id");
          adapterId := optionalString (either "adapterId" "adapter_id"); serverNames := serverNames;
          transport := optionalString (member o "transport");
          toolProfileKey := optionalString (either "toolProfileKey" "tool_profile_key") |}.

Definition profileMcpBindingsFromRegistryRecord (profile : ProfileRecord) : list EditableProfileMcpBinding :=
  let settings := default [] (isRecord (activeRuntimeSettingsJson profile)) in
  match nullish_or (member settings "mcpBindings") (member settings "mcp_bindings") with
  | JArray l => omap profile_binding l
  | _ => []
  end.

(** The targets of the bindings that the configuration has: [undefined] is [None]. *)
Definition existing_targets (runtimeBindings : list json) : jsmap string (option string) :=
  map_of_entries (omap (λ entry,
    o ← isRecord entry;
    bindingId ← stringValue (nullish_or (member o "bindingId") (member o "binding_id"));
    Some (bindingId, stringValue (nullish_or (member o "sessionId") (member o "session_id")))) runtimeBindings).

Definition desired_id (session : CrewSession) (binding : EditableProfileMcpBinding) (index : nat) : string :=
  default (agentId session +:+ "-mcp-" +:+ pretty (N.of_nat (index + 1))) (bindingId binding).

Definition materialized_binding (session : CrewSession) (binding : EditableProfileMcpBinding) (index : nat) (id : string) : json :=
  JObject [("bindingId", JString id); ("adapterId", JString (default "mcp-ts-main" (adapterId binding)));
           ("agentId", JString (agentId session)); ("sessionId", JString (sessionId session)); ("profileId", JString (profileId session));
           ("serverNames", JArray (JString <$> default [serverId binding] (serverNames binding)));
           ("endpointRef", JString ("config://mcp/" +:+ serverId binding));
           ("transport", JString (default "streamable_http" (transport binding)));
           ("toolProfileKey", JString (default (profileId session) (toolProfileKey binding)));
           ("status", JString "active");
           ("diagnostics", JObject [("desiredProfileBindingId", JString (desired_id session binding index));
                                    ("reconciliationSource", JString "profile_registry")])].

Fixpoint materialize (session : CrewSession) (configured : list EditableProfileMcpBinding) (index : nat)
    (targets : jsmap string (option string)) (runtimeBindings : list json) (ids : list string) : list json * list string :=
  match configured with
  | [] => (runtimeBindings, ids)
  | binding :: rest =>
      let id := materializedMcpBindingId (desired_id session binding index) (sessionId session) in
      if bool_decide (map_get id targets = Some (Some (sessionId session)))
      then materialize session rest (S index) targets runtimeBindings (ids ++ [id])
      else materialize session rest (S index) (map_set id (Some (sessionId session)) targets)
             (runtimeBindings ++ [materialized_binding session binding index id]) (ids ++ [id])
  end.

(** The bindings of the configuration with those of the profile, and the ids of the latter. *)
Definition restoreProfileMcpBindingsForSession (runtimeBindings : list json) (session : CrewSession) : Crew (list json * list string) :=
  profile ← await (GetProfile (profileId session));
  match profile with
  | None => mret (runtimeBindings, [])
  | Some profile => mret (materialize session (profileMcpBindingsFromRegistryRecord profile) 0 (existing_targets runtimeBindings) runtimeBindings [])
  end.

Definition add_session_entry (session : CrewSession) (sessions : list json) : list json :=
  if existsb (session_matches (sessionId session) "sessionId" "session_id") sessions then sessions
  else sessions ++ [JObject (runtimeSessionEntry session)].

(** What is taken back when it fails. *)
Definition apply_creation (session : CrewSession) (value : record) : Crew json :=
  '(mcps, value) ← lift (array "mcpBindings" value);
  '(mcps, ids) ← restoreProfileMcpBindingsForSession mcps session;
  let value := with_array "mcpBindings" mcps value in
  assertValidRuntimeConfig value ≫= λ _,
  await (WriteConfig value) ≫= λ _,
  result ← await (ApplyConfig "crew_session_created" ("Crew session " +:+ sessionId session +:+ " created"));
  (match ids with [] => mret () | _ => await (RefreshMcpTools session ids) end) ≫= λ _,
  mret result.

Definition createFreshCrewSession (request : CreationRequest) : Crew (CreationRecord * json) :=
  creation ← catch (await (CreateCrewAgentSession request)) (λ x, raise (creationError x));
  let session := creation_session creation in
  previous ← readRuntimeConfigFileForMutation;
  '(sessions, value) ← lift (array "sessions" previous);
  applied ← attempt (apply_creation session (with_array "sessions" (add_session_entry session sessions) value));
  match applied with
  | Value result => mret (creation, result)
  | Raise x =>
      best_effort (await (WriteConfig previous)) ≫= λ _,
      (match creation_outcome creation with
       | replayed => mret ()
       | _ => best_effort (await (ArchiveSession (sessionId session))) ≫= λ _,
              best_effort (markProfileSessionRefArchived session)
       end) ≫= λ _,
      best_effort (await (ApplyConfig "crew_session_creation_rolled_back" ("Crew session " +:+ sessionId session +:+ " creation rolled back"))) ≫= λ _,
      fails "crew_agent_session_creation_runtime_apply_failed" (errorMessage x) true
  end.

(** ** Moving to another workspace *)

Record SwitchInput := { switch_sessionId : string; switch_cwd : string; switch_expectedRevision : Z }.

(** [entry.workspaceCwd = to; delete entry.workspace_cwd] *)
Definition author_cwd (to : string) (entry : record) : record := map_delete "workspace_cwd" (map_set "workspaceCwd" (JString to) entry).

(** The entries, the first of the session with another workspace. *)
Fixpoint author_first (s to : string) (entries : list json) : option (list json) :=
  match entries with
  | [] => None
  | entry :: rest =>
      match isRecord entry with
      | Some o => if session_matches s "sessionId" "session_id" entry then Some (JObject (author_cwd to o) :: rest)
                  else (entry ::.) <$> author_first s to rest
      | None => (entry ::.) <$> author_first s to rest
      end
  end.

(** [runtimeConfigSessionById] and the assignment to what it finds. *)
Definition author_config (s to : string) (value : record) : option record :=
  match member value "sessions" with
  | JArray l => (λ l, with_array "sessions" l value) <$> author_first s to l
  | _ => None
  end.

Definition workspaceReconciliationFailure (input : SwitchInput) (primary : string) (compensation : option string)
    (canonical : option SessionWorkspace) (authored : option string) (reconciliation : string) : crew_error :=
  CrewSessionLifecycleError "session_workspace_change_reconciliation_failed"
    ("Workspace switch failed and its authority reconciliation did not complete: " +:+ reconciliation) true
    (Some {| outcome_kind := "workspace_reconciliation_failed"; outcome_sessionId := switch_sessionId input; requestedCwd := switch_cwd input;
             canonicalCwd := cwd <$> canonical; canonicalRevision := workspace_revision <$> canonical; authoredCwd := authored;
             primaryError := primary; compensationError := compensation; reconciliationError := Some reconciliation |}).

Definition reconciled_forward (input : SwitchInput) (primary compensation : string) (canonical : SessionWorkspace) : crew_error :=
  CrewSessionLifecycleError "session_workspace_change_reconciled_forward"
    ("Workspace switch failed to apply and rollback was rejected; canonical and authored state were reconciled at " +:+ cwd canonical +:+ ".")
    false
    (Some {| outcome_kind := "workspace_reconciled_forward"; outcome_sessionId := switch_sessionId input; requestedCwd := switch_cwd input;
             canonicalCwd := Some (cwd canonical); canonicalRevision := Some (workspace_revision canonical); authoredCwd := Some (cwd canonical);
             primaryError := primary; compensationError := Some compensation; reconciliationError := None |}).

(** The file follows the core, whose workspace is [canonical]. *)
Definition settle_switch (input : SwitchInput) (previous : record) (x : crew_error) (compensation : option string)
    (canonical : SessionWorkspace) : Crew (SessionWorkspaceUpdateRecord * json) :=
  let s := switch_sessionId input in
  let failure := workspaceReconciliationFailure input (errorMessage x) compensation (Some canonical) in
  match author_config s (cwd canonical) previous with
  | None => raise (failure None "authored runtime session disappeared during reconciliation")
  | Some reconciled =>
      settled ← attempt (assertValidRuntimeConfig reconciled ≫= λ _, await (WriteConfig reconciled));
      match settled with
      | Raise y => raise (failure None (errorMessage y))
      | Value _ =>
          applied ← attempt (match compensation with
            | None => await (ApplyConfig "crew_session_workspace_change_rolled_back" ("Crew session " +:+ s +:+ " workspace change rolled back"))
            | Some _ => await (ApplyConfig "crew_session_workspace_change_reconciled_forward"
                                 ("Crew session " +:+ s +:+ " workspace change reconciled to canonical state"))
            end);
          match applied, compensation with
          | Raise y, _ => raise (failure (Some (cwd canonical)) (errorMessage y))
          | Value _, Some c => raise (reconciled_forward input (errorMessage x) c canonical)
          | Value _, None => raise x
          end
      end
  end.

Definition compensate_switch (input : SwitchInput) (previous_config : record) (update : SessionWorkspaceUpdateRecord) (x : crew_error)
    : Crew (SessionWorkspaceUpdateRecord * json) :=
  let s := switch_sessionId input in
  at_ ← await Now;
  undone ← attempt (await (UpdateSessionWorkspace s (cwd (previous update)) (workspace_revision (current update)) at_));
  let compensation := match undone with Raise y => Some (errorMessage y) | Value _ => None end in
  canonical ← attempt (session ← await (SessionById s);
                       match workspace session with
                       | Some w => mret w
                       | None => raise (OtherError "canonical session has no workspace state")
                       end);
  match canonical with
  | Raise y => raise (workspaceReconciliationFailure input (errorMessage x) compensation None None (errorMessage y))
  | Value w => settle_switch input previous_config x compensation w
  end.

(** The core has changed the workspace. *)
Definition finish_switch (input : SwitchInput) (previous_config value : record) (update : SessionWorkspaceUpdateRecord)
    : Crew (SessionWorkspaceUpdateRecord * json) :=
  done_ ← attempt (await (WriteConfig value) ≫= λ _,
                   await (ApplyConfig "crew_session_workspace_changed" ("Crew session " +:+ switch_sessionId input +:+ " workspace changed")));
  match done_ with
  | Value result => mret (update, result)
  | Raise x =>
      if String.eqb (cwd (current update)) (cwd (previous update)) then raise x
      else compensate_switch input previous_config update x
  end.

Definition switchCrewSessionWorkspace (input : SwitchInput) : Crew (SessionWorkspaceUpdateRecord * json) :=
  let s := switch_sessionId input in
  previous_config ← readRuntimeConfigFileForMutation;
  '(sessions, value) ← lift (array "sessions" previous_config);
  match author_first s (switch_cwd input) sessions with
  | None => fails "session_workspace_config_missing" ("Session " +:+ s +:+ " has no authored runtime configuration.") false
  | Some sessions =>
      let value := with_array "sessions" sessions value in
      assertValidRuntimeConfig value ≫= λ _,
      at_ ← await Now;
      update ← await (UpdateSessionWorkspace s (switch_cwd input) (switch_expectedRevision input) at_);
      finish_switch input previous_config value update
  end.
End Lifecycle.
