(* ===== verification/CrewSessionsFacts.v ===== *)
(** * The authored and the canonical session stay together

    The world of the operations of [CrewSessions]: the configuration file, and of the core's
    sessions their workspaces and statuses.  The operations are run one after the other by
    the queue of configuration changes, so that meanwhile nobody else changes the file or the
    session; every call may be rejected, and a rejected update or archive of the core may
    have had its effect. *)

From stdpp Require Import sets list gmap strings.
From S2P Require Import Prelude JsString Json JsonParse CodexText CodexEvents AsyncCalls CrewSessions.
#[local] Open Scope Z_scope.

(** ** The world *)

(** What went wrong in a way its caller cannot see. *)
Inductive mishap := late_update | late_archive | rejected_write | rejected_archive | rejected_read.

Record world := {
  authored : json;
  canonical : gmap string SessionWorkspace;
  statuses : gmap string string;
  mishaps : list mishap
}.

Definition with_mishap (m : mishap) (w : world) : world :=
  {| authored := authored w; canonical := canonical w; statuses := statuses w; mishaps := m :: mishaps w |}.
Definition with_authored (v : json) (w : world) : world :=
  {| authored := v; canonical := canonical w; statuses := statuses w; mishaps := mishaps w |}.
Definition with_workspace (s : string) (c : SessionWorkspace) (w : world) : world :=
  {| authored := authored w; canonical := <[s := c]> (canonical w); statuses := statuses w; mishaps := mishaps w |}.
Definition with_status (s status : string) (w : world) : world :=
  {| authored := authored w; canonical := canonical w; statuses := <[s := status]> (statuses w); mishaps := mishaps w |}.

(** The core as far as the operations see it.  [norm] is the normal form it gives a
    directory, if it accepts it. *)
Class CoreWorkspaces := {
  norm : string → option string;
  norm_idempotent p q : norm p = Some q → norm q = Some q;
  (** the session that an idempotency key stands for *)
  session_of : string → string
}.

Section World.
Context {core : CoreWorkspaces}.

(** What an update to the directory [to] answers and makes of the world. *)
Definition workspace_update (s to : string) (expected : Z) (w : world) (u : SessionWorkspaceUpdateRecord) (w' : world) : Prop :=
  ∃ c, canonical w !! s = Some (previous u) ∧ workspace_revision (previous u) = expected ∧ norm to = Some c ∧
    if String.eqb c (cwd (previous u)) then current u = previous u ∧ w' = w
    else current u = {| cwd := c; workspace_revision := expected + 1 |} ∧ w' = with_workspace s (current u) w.

(** Applying the file gives workspaces to sessions that have none, and changes no other. *)
Definition applies (w w' : world) : Prop :=
  authored w' = authored w ∧ statuses w' = statuses w ∧ mishaps w' = mishaps w ∧ canonical w ⊆ canonical w'.

Definition services (B : Type) (e : CrewCall B) : world → outcome crew_error B → world → Prop :=
  match e in CrewCall B return world → outcome crew_error B → world → Prop with
  | SessionById s => λ w r w',
      w' = w ∧ ∀ x, r = Value x → sessionId x = s ∧ workspace x = canonical w !! s ∧ statuses w !! s = Some (session_status x)
  | InFlight _ => λ w r w', w' = w ∧ ∃ b, r = Value b
  | ReadConfigFile => λ w r w',
      match r with Value v => w' = w ∧ v = authored w | Raise _ => w' = with_mishap rejected_read w end
  | ValidateConfig _ => λ w r w', w' = w
  | WriteConfig v => λ w r w',
      match r with Value _ => w' = with_authored (JObject v) w | Raise _ => w' = with_mishap rejected_write w end
  | ApplyConfig _ _ => λ w r w', applies w w'
  | UpdateSessionWorkspace s to expected _ => λ w r w',
      match r with
      | Value u => workspace_update s to expected w u w'
      | Raise _ => w' = w ∨ ∃ u w1, workspace_update s to expected w u w1 ∧ w' = with_mishap late_update w1
      end
  | ArchiveSession s => λ w r w',
      match r with
      | Value _ => w' = with_status s "archived" w
      | Raise _ => w' = with_mishap rejected_archive w ∨ w' = with_mishap late_archive (with_status s "archived" w)
      end
  | CreateCrewAgentSession q => λ w r w',
      match r with
      | Value c =>
          sessionId (creation_session c) = session_of (idempotencyKey q) ∧
          match creation_outcome c with
          | replayed => w' = w
          | _ => authored w' = authored w ∧ mishaps w' = mishaps w ∧
                 statuses w' = <[sessionId (creation_session c) := session_status (creation_session c)]> (statuses w)
          end
      | Raise _ => w' = w
      end
  | GetProfile _ => λ w r w', w' = w
  | UpdateProfile _ => λ w r w', w' = w
  | AppendChatEvent _ _ _ => λ w r w', w' = w
  | RefreshMcpTools _ _ => λ w r w', w' = w
  | Now => λ w r w', w' = w ∧ ∃ t, r = Value t
  end.

(** Services throw errors of their own. *)
Definition crew_handles (B : Type) (e : CrewCall B) (w : world) (r : outcome crew_error B) (w' : world) : Prop :=
  services B e w r w' ∧ ∀ x, r = Raise x → ∃ m, x = OtherError m.

(** What others do meanwhile. *)
Record meanwhile (s : string) (w w' : world) : Prop := {
  meanwhile_authored : authored w' = authored w;
  meanwhile_workspace : canonical w' !! s = canonical w !! s;
  meanwhile_status : statuses w' !! s = statuses w !! s;
  meanwhile_mishaps : mishaps w' = mishaps w
}.
End World.

(** ** Entries *)

Lemma removeEntries_spec matches n entries removed :
  (n ≤ length entries)%nat →
  removeEntries matches n entries removed =
    (List.filter (λ e, negb (matches e)) (take n entries) ++ drop n entries,
     (removed + length (List.filter matches (take n entries)))%nat).
Proof.
  revert entries removed; induction n as [|n IH]; intros entries removed Hn; cbn [removeEntries].
  { by rewrite take_0, drop_0, Nat.add_0_r. }
  destruct (lookup_lt_is_Some_2 entries n) as [e He]; [lia|]; rewrite He.
  rewrite (take_S_r _ _ _ He), !List.filter_app, length_app; cbn [List.filter].
  destruct (matches e); cbn [negb]; rewrite IH; unfold splice_out; rewrite ?length_app, ?length_take, ?length_drop; try lia.
  - rewrite take_app_le, take_take, Nat.min_id, drop_app_ge by (rewrite length_take; lia); rewrite length_take, app_nil_r.
    f_equal; [|cbn; lia]; f_equal; replace (n - _)%nat with 0%nat by lia; by rewrite drop_0.
  - cbn; rewrite Nat.add_0_r, <- app_assoc; f_equal; f_equal; by rewrite (drop_S _ _ _ He).
Qed.

Lemma removeEntries_all matches entries :
  removeEntries matches (length entries) entries 0 = (List.filter (λ e, negb (matches e)) entries, length (List.filter matches entries)).
Proof. rewrite removeEntries_spec by done; by rewrite take_ge, drop_ge, app_nil_r. Qed.

(** ** Where a session is authored to work *)

Abbreviation of_session s := (session_matches s "sessionId" "session_id").

Definition authored_cwd (s : string) (v : json) : option string :=
  o ← isRecord v;
  match member o "sessions" with
  | JArray l => entry ← List.find (of_session s) l; o ← isRecord entry;
                stringValue (nullish_or (member o "workspaceCwd") (member o "workspace_cwd"))
  | _ => None
  end.

Lemma member_set_eq k v (o : record) : member (map_set k v o) k = v.
Proof. unfold member; by rewrite map_get_set_eq. Qed.
Lemma member_set_ne k k' v (o : record) : k ≠ k' → member (map_set k v o) k' = member o k'.
Proof. intros; unfold member; by rewrite map_get_set_ne. Qed.
Lemma member_delete_ne k k' (o : record) : k ≠ k' → member (map_delete k o) k' = member o k'.
Proof. intros; unfold member; by rewrite map_get_delete_ne. Qed.

Lemma author_cwd_session s to o : of_session s (JObject (author_cwd to o)) = of_session s (JObject o).
Proof. unfold session_matches, entrySessionRef, author_cwd; cbn [isRecord]; by rewrite !member_delete_ne, !member_set_ne. Qed.

Lemma author_first_found s to l l' :
  author_first s to l = Some l' → ∃ o, List.find (of_session s) l' = Some (JObject (author_cwd to o)).
Proof.
  revert l'; induction l as [|entry l IH]; intros l'; cbn [author_first]; [done|].
  assert (∀ x, (entry ::.) <$> author_first s to l = Some x → of_session s entry = false →
          ∃ o, List.find (of_session s) x = Some (JObject (author_cwd to o))) as Hrest.
  { intros x (l1 & Hl & ->)%fmap_Some Hm; destruct (IH _ Hl) as [o Ho]; exists o; cbn; by rewrite Hm. }
  destruct (isRecord entry) as [o|] eqn:He.
  - destruct entry; try done; injection He as ->; destruct (of_session s (JObject o)) eqn:Hm; [|by intros ?%Hrest].
    injection 1 as <-; exists o; cbn [List.find]; by rewrite author_cwd_session, Hm.
  - intros H; apply Hrest in H; [done|]; unfold session_matches, entrySessionRef; by rewrite He.
Qed.

Lemma authored_cwd_after s to l l' o :
  author_first s to l = Some l' → authored_cwd s (JObject (with_array "sessions" l' o)) = Some to.
Proof.
  intros [e He]%author_first_found; unfold authored_cwd, with_array; cbn [isRecord mbind option_bind]; rewrite member_set_eq, He.
  cbn [mbind option_bind isRecord]; unfold author_cwd; by rewrite member_delete_ne, member_set_eq.
Qed.

(** ** Reading *)

Section Facts.
Context {core : CoreWorkspaces}.

#[global] Instance meanwhile_preorder s : PreOrder (meanwhile s).
Proof. split; [by constructor|]; intros w1 w2 w3 [] []; constructor; congruence. Qed.

Definition plain_error (x : crew_error) : Prop := match x with CrewSessionLifecycleError _ _ _ (Some _) => False | _ => True end.

Definition other_error (x : crew_error) : Prop := ∃ m, x = OtherError m.

Definition config_error (x : crew_error) : Prop :=
  other_error x ∨ ∃ m, x = CrewSessionLifecycleError "crew_session_runtime_config_invalid" m false None.

Lemma config_error_plain x : config_error x → plain_error x.
Proof. by intros [[m ->]|[m ->]]. Qed.

(** [m] changes nothing, and throws errors of [E] only. *)
Definition only_reads (between : world → world → Prop) (E : crew_error → Prop) {A} (m : Crew A) (P : world → A → Prop) : Prop :=
  ∀ w, ensures crew_handles between m
    (λ r w', between w w' ∧ match r with Value a => P w' a | Raise x => E x end) w.

Lemma only_reads_await (between : world → world → Prop) `{!PreOrder between} {A} (e : CrewCall A) (P : world → A → Prop) :
  (∀ w r w', services A e w r w' → w' = w ∧ ∀ a, r = Value a → P w a) → only_reads between other_error (await e) P.
Proof.
  intros He w; apply ensures_await; intros w1 M r w2 [Hs Hx]; destruct (He _ _ _ Hs) as [-> Ha]; split; [done|].
  destruct r as [a|x]; [by apply Ha|by apply Hx].
Qed.

Lemma only_reads_bind (between : world → world → Prop) `{!PreOrder between} (E F : crew_error → Prop) {A B} (m : Crew A) (f : A → Crew B) (P : world → A → Prop) (Q : world → B → Prop) :
  only_reads between E m P → (∀ x, E x → F x) →
  (∀ a w, P w a → ensures crew_handles between (f a)
     (λ r w', between w w' ∧ match r with Value b => Q w' b | Raise x => F x end) w) →
  only_reads between F (m ≫= f) Q.
Proof.
  intros Hm HE Hf w; apply ensures_bind; eapply ensures_mono; [|apply Hm]; intros [a|x] w1 [M1 Ha]; [|split; [done|by apply HE]].
  eapply ensures_mono; [|by apply Hf]; intros r w2 [M2 Hr]; split; [by transitivity w1|done].
Qed.

Lemma only_reads_assertValid (between : world → world → Prop) `{!PreOrder between} value : only_reads between config_error (assertValidRuntimeConfig value) (λ _ _, True).
Proof.
  eapply (only_reads_bind between); [apply (only_reads_await between _ (λ _ _, True)); by intros w r w' ->|by left|].
  intros v w _; cbn beta; repeat case_match; (split; [done|]); try done; right; by eexists.
Qed.

Lemma ensures_now (between : world → world → Prop) `{!PreOrder between} {A} (f : string → Crew A) Q w :
  (∀ t w', between w w' → ensures crew_handles between (f t) Q w') → ensures crew_handles between (await Now ≫= f) Q w.
Proof. intros Hf; apply ensures_bind, ensures_await; intros w1 M r w2 [[-> [t ->]] _]; by apply Hf. Qed.

(** Reading the file changes nothing, and a rejected reading is remembered. *)
Definition read_rejected (between : world → world → Prop) (w w' : world) (x : crew_error) : Prop :=
  other_error x ∧ ∃ w1, between w w1 ∧ (w' = w1 ∨ w' = with_mishap rejected_read w1).

Lemma ensures_config (between : world → world → Prop) `{!PreOrder between} profilesDir skillsDir w :
  ensures crew_handles between (readRuntimeConfigFileForMutation profilesDir skillsDir)
    (λ r w', match r with
             | Value v => between w w' ∧ ∃ o, authored w' = JObject o ∧
                 v = with_default "skillsDir" skillsDir (with_default "profilesDir" (Some profilesDir) o)
             | Raise x => read_rejected between w w' x
             end) w.
Proof.
  apply ensures_bind, ensures_await; intros w1 M1 r w2 [Hs Hx]; cbn in Hs; destruct r as [v|x].
  - destruct Hs as [-> ->]; cbn beta iota; destruct (isRecord (authored w1)) as [o|] eqn:E.
    + split; [done|]. exists o; split; [by destruct (authored w1); simplify_eq/=|done].
    + split; [by eexists|]. exists w1; split; [done|by left].
  - split; [by apply Hx|]. exists w1; split; [done|by right].
Qed.

Lemma only_reads_lift (between : world → world → Prop) `{!PreOrder between} {A} (r : result A) : only_reads between other_error (lift r) (λ _ a, r = Ok a).
Proof. intros w; destruct r; cbn; split; try done; by eexists. Qed.

(** ** Moving to another workspace *)

Definition agrees (s : string) (w : world) : Prop :=
  ∀ a, authored_cwd s (authored w) = Some a → ∃ c, canonical w !! s = Some c ∧ norm a = Some (cwd c).

Definition normalised (s : string) (w : world) : Prop := ∀ c, canonical w !! s = Some c → norm (cwd c) = Some (cwd c).

Definition cwd_of (s : string) (w : world) : option string := cwd <$> canonical w !! s.

(** What the partial outcome says is so. *)
Definition honest (s : string) (p : CrewSessionLifecyclePartialOutcome) (w : world) : Prop :=
  (∀ c, canonicalCwd p = Some c → cwd_of s w = Some c) ∧
  ∀ a, authoredCwd p = Some a → authored_cwd s (authored w) = Some a ∧ agrees s w.

(** The first update was made and rejected: the core is at the requested directory, and the
    file is as it was. *)
Definition late_move (input : SwitchInput) (w0 w : world) : Prop :=
  late_update ∈ mishaps w ∧ authored w = authored w0 ∧
  ∃ c, norm (switch_cwd input) = Some c ∧ cwd_of (switch_sessionId input) w = Some c.

Definition switch_post (input : SwitchInput) (w0 : world) (r : outcome crew_error (SessionWorkspaceUpdateRecord * json)) (w : world) : Prop :=
  let s := switch_sessionId input in
  match r with
  | Value (u, _) => authored_cwd s (authored w) = Some (switch_cwd input) ∧ canonical w !! s = Some (current u) ∧
                    norm (switch_cwd input) = Some (cwd (current u))
  | Raise (CrewSessionLifecycleError _ _ _ (Some p)) => honest s p w
  | Raise _ => late_move input w0 w ∨ (agrees s w ∧ cwd_of s w = cwd_of s w0)
  end.

Lemma switch_post_plain input w0 x w :
  plain_error x → late_move input w0 w ∨ (agrees (switch_sessionId input) w ∧ cwd_of (switch_sessionId input) w = cwd_of (switch_sessionId input) w0) →
  switch_post input w0 (Raise x) w.
Proof. by destruct x as [? ? ? []|]. Qed.

Lemma agrees_meanwhile s w w' : meanwhile s w w' → agrees s w → agrees s w'.
Proof. intros [Ea Ec _ _] H a; rewrite Ea, Ec; apply H. Qed.

Lemma cwd_of_meanwhile s w w' : meanwhile s w w' → cwd_of s w' = cwd_of s w.
Proof. intros [_ Ec _ _]; unfold cwd_of; by rewrite Ec. Qed.

Lemma applies_workspace s c w w' : applies w w' → canonical w !! s = Some c → canonical w' !! s = Some c.
Proof. intros (_ & _ & _ & H) Hc; by eapply lookup_weaken. Qed.

Lemma agrees_at s a c w : authored_cwd s (authored w) = Some a → canonical w !! s = Some c → norm a = Some (cwd c) → agrees s w.
Proof. intros Ha Hc Hn b Hb; exists c; split; [done|]; congruence. Qed.

Lemma ensures_settle input prev x comp c w0 w :
  canonical w !! switch_sessionId input = Some c → norm (cwd c) = Some (cwd c) → plain_error x →
  (comp = None → cwd_of (switch_sessionId input) w0 = Some (cwd c)) →
  ensures crew_handles (meanwhile (switch_sessionId input)) (settle_switch input prev x comp c) (switch_post input w0) w.
Proof.
  intros Hc Hn Hx Hcomp; set (s := switch_sessionId input) in *; unfold settle_switch; fold s.
  assert (∀ v m, canonical v !! s = Some c →
    switch_post input w0 (Raise (workspaceReconciliationFailure input (errorMessage x) comp (Some c) None m)) v) as Hfail.
  { intros v m Hv; split; cbn; [|done]; intros ? [= <-]; unfold cwd_of; fold s; by rewrite Hv. }
  unfold author_config; destruct (member prev "sessions") as [| | | | |l|]; try (by apply Hfail).
  destruct (author_first s (cwd c) l) as [l'|] eqn:Hl; [cbn [fmap option_fmap option_map]|by apply Hfail].
  pose proof (authored_cwd_after s (cwd c) l l' prev Hl) as Ha.
  apply ensures_bind, ensures_attempt, ensures_bind; eapply ensures_mono; [|apply (only_reads_assertValid (meanwhile _))].
  intros [plan|y] w1 [M1 _]; [|apply Hfail; by rewrite (meanwhile_workspace _ _ _ M1)].
  apply ensures_await; intros w2 M2 r w3 [Hw _]; cbn in Hw.
  assert (canonical w2 !! s = Some c) as Hc2 by (by rewrite (meanwhile_workspace _ _ _ M2), (meanwhile_workspace _ _ _ M1)).
  destruct r as [[]|y]; subst w3; [|by apply Hfail].
  assert (∀ v, authored v = JObject (with_array "sessions" l' prev) → canonical v !! s = Some c →
    authored_cwd s (authored v) = Some (cwd c) ∧ agrees s v ∧ cwd_of s v = Some (cwd c)) as Hv.
  { intros v Ev Ec; rewrite Ev; split; [done|]; split; [eapply agrees_at; [by rewrite Ev|done..]|unfold cwd_of; by rewrite Ec]. }
  assert (∀ e p, ensures crew_handles (meanwhile s) (attempt (await (ApplyConfig e p)))
    (λ r v, ∃ q, r = Value q ∧ authored_cwd s (authored v) = Some (cwd c) ∧ agrees s v ∧ cwd_of s v = Some (cwd c))
    (with_authored (JObject (with_array "sessions" l' prev)) w2)) as Happly.
  { intros e p; apply ensures_attempt, ensures_await; intros w3 M3 r w4 [Hap _]; exists r; split; [done|]; apply Hv.
    - destruct Hap as [-> _]; by rewrite (meanwhile_authored _ _ _ M3).
    - eapply applies_workspace; [done|]; by rewrite (meanwhile_workspace _ _ _ M3). }
  destruct comp as [m|]; apply ensures_bind; (eapply ensures_mono; [|apply Happly]); intros q w3 (r & -> & A1 & A2 & A3);
    (destruct r as [j|y]; cbn beta iota; [|by split; cbn; [intros ? [= <-]|intros ? [= <-]]]).
  - by split; cbn; [intros ? [= <-]|intros ? [= <-]].
  - apply switch_post_plain; [done|]; right; fold s; split; [done|]; rewrite A3, Hcomp by done; done.
Qed.

(** What is left after an update, rejected or not, is a normal directory. *)
Lemma update_normalised s to expected w u w' : workspace_update s to expected w u w' → normalised s w → normalised s w'.
Proof.
  intros (c & Hp & _ & Hc & H) Hn; destruct (String.eqb_spec c (cwd (previous u))) as [E|E]; destruct H as [Eu ->]; [done|].
  intros d; cbn; rewrite lookup_insert_eq; intros [= <-]; rewrite Eu; cbn; by eapply norm_idempotent.
Qed.

Lemma normalised_meanwhile s w w' : meanwhile s w w' → normalised s w → normalised s w'.
Proof. intros [_ Ec _ _] H c; rewrite Ec; apply H. Qed.

Lemma ensures_compensate input prev u x w0 w :
  let s := switch_sessionId input in
  canonical w !! s = Some (current u) → normalised s w → norm (cwd (previous u)) = Some (cwd (previous u)) →
  cwd (current u) ≠ cwd (previous u) → cwd_of s w0 = Some (cwd (previous u)) → plain_error x →
  ensures crew_handles (meanwhile s) (compensate_switch input prev u x) (switch_post input w0) w.
Proof.
  intros s Hc Hn Hp Hne H0 Hx; unfold compensate_switch; fold s; apply (ensures_now (meanwhile _)); intros at_ w1 M1.
  apply (normalised_meanwhile _ _ _ M1) in Hn; rewrite <- (meanwhile_workspace _ _ _ M1) in Hc.
  apply ensures_bind, ensures_attempt, ensures_await; intros w2 M2 r w3 [Hu _]; cbn in Hu.
  apply (normalised_meanwhile _ _ _ M2) in Hn; rewrite <- (meanwhile_workspace _ _ _ M2) in Hc.
  set (comp := match r with Value _ => None | Raise y => Some (errorMessage y) end).
  assert (normalised s w3 ∧ (comp = None → cwd_of s w3 = Some (cwd (previous u)))) as [Hn3 Hcomp].
  { destruct r as [u'|y]; [split; [by eapply update_normalised|intros _]|split; [|done]].
    - destruct Hu as (c & Hpu & _ & Ec & H); rewrite Hp in Ec; injection Ec as <-; rewrite Hc in Hpu; injection Hpu as Eu.
      destruct (String.eqb_spec (cwd (previous u)) (cwd (previous u'))) as [E|_]; [destruct Hne; congruence|].
      destruct H as [Ec ->]; unfold cwd_of; cbn; by rewrite lookup_insert_eq, Ec.
    - destruct Hu as [->|(u' & w4 & Hu & ->)]; [done|]; pose proof (update_normalised _ _ _ _ _ _ Hu Hn) as H; exact H. }
  apply ensures_bind, ensures_attempt, ensures_bind, ensures_await; intros w4 M4 q w5 [[-> Hq] _].
  apply (normalised_meanwhile _ _ _ M4) in Hn3.
  destruct q as [session|y]; [|by split]; destruct (Hq _ eq_refl) as (_ & Hw & _).
  destruct (workspace session) as [c|]; [|by split]; cbn; symmetry in Hw.
  apply (ensures_settle input prev x comp c w0); [done|by apply Hn3|done|]; intros Hnone; fold s; rewrite H0, <- (Hcomp Hnone).
  rewrite <- (cwd_of_meanwhile _ _ _ M4); unfold cwd_of; by rewrite Hw.
Qed.

(** Writing the file and applying it. *)
Lemma ensures_write_apply s v e p c w :
  canonical w !! s = Some c →
  ensures crew_handles (meanwhile s) (await (WriteConfig v) ≫= λ _, await (ApplyConfig e p))
    (λ r w', canonical w' !! s = Some c ∧
       match r with Value _ => authored w' = JObject v | Raise x => plain_error x ∧ (authored w' = authored w ∨ authored w' = JObject v) end) w.
Proof.
  intros Hc; apply ensures_bind, ensures_await; intros w1 M1 r w2 [Hw Hx]; cbn in Hw; rewrite <- (meanwhile_workspace _ _ _ M1) in Hc.
  destruct r as [[]|x]; subst w2.
  - apply ensures_await; intros w3 M3 r w4 [Ha Hx']; split; [eapply applies_workspace; [done|]; by rewrite (meanwhile_workspace _ _ _ M3)|].
    destruct Ha as [Ea _]; rewrite Ea, (meanwhile_authored _ _ _ M3); destruct r as [j|x]; [done|]; split; [|by right].
    by destruct (Hx' x eq_refl) as [m ->].
  - split; [done|]; split; [by destruct (Hx x eq_refl) as [m ->]|]; left; apply (meanwhile_authored _ _ _ M1).
Qed.

Lemma ensures_finish input prev v u w0 w w' :
  let s := switch_sessionId input in
  meanwhile s w0 w → agrees s w0 → normalised s w0 → authored_cwd s (JObject v) = Some (switch_cwd input) →
  workspace_update s (switch_cwd input) (switch_expectedRevision input) w u w' →
  ensures crew_handles (meanwhile s) (finish_switch input prev v u) (switch_post input w0) w'.
Proof.
  intros s M Ha Hn Hv Hu; assert (normalised s w') as Hn' by (eapply update_normalised; [done|by eapply normalised_meanwhile]).
  apply (agrees_meanwhile _ _ _ M) in Ha; destruct Hu as (c & Hp & _ & Hc & Hw).
  assert (canonical w' !! s = Some (current u) ∧ cwd (current u) = c ∧ authored w' = authored w) as (Hcur & Ec & Eauth).
  { destruct (String.eqb_spec c (cwd (previous u))) as [->|]; destruct Hw as [-> ->]; [done|]; split_and!; [apply lookup_insert_eq|done..]. }
  assert (cwd_of s w0 = Some (cwd (previous u))) as H0 by (rewrite <- (cwd_of_meanwhile _ _ _ M); unfold cwd_of; by rewrite Hp).
  unfold finish_switch; fold s; apply ensures_bind, ensures_attempt; eapply ensures_mono; [|by apply (ensures_write_apply s v)].
  intros [j|x] w1 [Hc1 H1]; [rewrite <- Ec in Hc; split; [by rewrite H1|by split]|]; destruct H1 as [Hx H1].
  destruct (String.eqb_spec (cwd (current u)) (cwd (previous u))) as [E|E].
  - apply switch_post_plain; [done|]; right; fold s; split; [|unfold cwd_of at 1; rewrite Hc1, H0; cbn; by rewrite E].
    intros a; destruct H1 as [-> | ->]; [rewrite Eauth|rewrite Hv]; intros Hau; [|injection Hau as <-; exists (current u); by rewrite Ec].
    destruct (Ha a Hau) as (d & Hd & Hna); exists (current u); split; [done|]; rewrite Hp in Hd; injection Hd as <-; by rewrite E.
  - assert (norm (cwd (previous u)) = Some (cwd (previous u))) as Hnp.
    { apply Hn; by rewrite <- (meanwhile_workspace _ _ _ M). }
    apply (ensures_compensate input prev u x w0); try done.
    intros d Hd; fold s in Hd; rewrite Hc1 in Hd; injection Hd as <-; by apply Hn'.
Qed.

(** C9. Moving a session to another workspace, with configuration changes made one after the
    other, ends.  It returns with the file and the core at the requested directory.  Where it
    throws, whichever call was rejected, one of three things holds: the file agrees with the
    core and the session is where it was; or the error carries an outcome that says truly
    where the core and the file are and does not say of the file what was not restored; or
    the core made the first update and rejected it all the same, which is not noticed: the core is
    at the requested directory then, and the file is as it was. *)
Theorem workspace_switch_consistent profilesDir skillsDir input w :
  let s := switch_sessionId input in
  agrees s w → normalised s w → mishaps w = [] →
  ensures crew_handles (meanwhile s) (switchCrewSessionWorkspace profilesDir skillsDir input) (switch_post input w) w.
Proof.
  intros s Ha Hn _; assert (∀ x w', meanwhile s w w' → plain_error x → switch_post input w (Raise x) w') as Hraise.
  { intros x w' M Hx; apply switch_post_plain; [done|]; right; fold s; split; [by eapply agrees_meanwhile|by apply cwd_of_meanwhile]. }
  unfold switchCrewSessionWorkspace; fold s; apply ensures_bind; eapply ensures_mono; [|apply (ensures_config (meanwhile s))].
  intros [prev|x] w1 H1; [destruct H1 as [M1 _]|destruct H1 as [Hx (w1' & M1 & [-> | ->])]].
  2: by apply Hraise, config_error_plain; [|left].
  2: { apply switch_post_plain; [by apply config_error_plain; left|right; fold s].
       split; [apply (agrees_meanwhile s w w1' M1 Ha)|exact (cwd_of_meanwhile s w w1' M1)]. }
  apply ensures_bind; eapply ensures_mono; [|apply (only_reads_lift (meanwhile s))]; intros [[l value]|x] w2 [M2 H2]; [|apply Hraise, config_error_plain; [by transitivity w1|by left]].
  clear H2; pose proof (transitivity M1 M2) as M; cbn beta iota.
  destruct (author_first s (switch_cwd input) l) as [l'|] eqn:Hl; [|by apply Hraise].
  pose proof (authored_cwd_after s (switch_cwd input) l l' value Hl) as Hauth; set (v := with_array "sessions" l' value) in *.
  apply ensures_bind; eapply ensures_mono; [|apply (only_reads_assertValid (meanwhile _))]; intros [plan|x] w3 [M3 H3]; [|apply Hraise, config_error_plain; [by transitivity w2|done]].
  apply (ensures_now (meanwhile _)); intros at_ w4 M4; assert (meanwhile s w w4) as Mw by (transitivity w2; [done|by transitivity w3]).
  apply ensures_bind, ensures_await; intros w5 M5 r w6 [Hu Hx]; cbn in Hu; assert (meanwhile s w w5) as Mw5 by (by transitivity w4).
  destruct r as [u|x]; [|destruct (Hx x eq_refl) as [m ->]; destruct Hu as [->|(u & w7 & Hu & ->)]; [by apply Hraise|left]].
  - by eapply ensures_finish.
  - destruct Hu as (c & Hp & _ & Hc & Hw). split; [by left|]. rewrite <- (meanwhile_authored _ _ _ Mw5). cbn; unfold cwd_of; cbn; fold s.
    destruct (String.eqb_spec c (cwd (previous u))) as [->|]; destruct Hw as [Hcur ->]; cbn; (split; [done|]); eexists; (split; [exact Hc|]);
      [by rewrite Hp|by rewrite lookup_insert_eq, Hcur].
Qed.
(** ** Archiving *)

Definition entries_of (key : string) (v : record) : list json := match member v key with JArray l => l | _ => [] end.

(** [d] is [value] without what belongs to the session [s]; [plan] says which bindings do. *)
Record detached (plan : RuntimePlan) (s : string) (value d : record) (removed : RemovedEntries) : Prop := {
  detached_sessions : entries_of "sessions" d = List.filter (λ e, negb (of_session s e)) (entries_of "sessions" value);
  detached_channels : entries_of "channelBindings" d =
    List.filter (λ e, negb (id_matches (bindingIdsTargetingSession (channelBindings plan) s) "bindingId" "binding_id" e)) (entries_of "channelBindings" value);
  detached_mcps : entries_of "mcpBindings" d =
    List.filter (λ e, negb (id_matches (bindingIdsTargetingSession (mcpBindings plan) s) "bindingId" "binding_id" e)) (entries_of "mcpBindings" value);
  detached_jobs : entries_of "scheduledJobs" d =
    List.filter (λ e, negb (session_matches s "targetSessionId" "target_session_id" e)) (entries_of "scheduledJobs" value);
  detached_counts :
    length (entries_of "sessions" value) = (length (entries_of "sessions" d) + sessionEntriesRemoved removed)%nat ∧
    length (entries_of "channelBindings" value) = (length (entries_of "channelBindings" d) + channelBindingsDetached removed)%nat ∧
    length (entries_of "mcpBindings" value) = (length (entries_of "mcpBindings" d) + mcpBindingsDetached removed)%nat ∧
    length (entries_of "scheduledJobs" value) = (length (entries_of "scheduledJobs" d) + scheduledJobsRemoved removed)%nat;
  detached_others k : k ∉ ["sessions"; "channelBindings"; "mcpBindings"; "scheduledJobs"] → member d k = member value k
}.

Lemma entries_with_ne key key' l v : key ≠ key' → entries_of key' (with_array key l v) = entries_of key' v.
Proof. intros; unfold entries_of, with_array; by rewrite member_set_ne. Qed.

Lemma map_set_set k v v' (o : record) : map_set k v' (map_set k v o) = map_set k v' o.
Proof.
  induction o as [|[k' x] o IH]; cbn; [by rewrite decide_True|].
  destruct (decide (k = k')); cbn; [by rewrite decide_True|]; rewrite decide_False by done; by rewrite IH.
Qed.

Lemma array_ok key v l v1 :
  array key v = Ok (l, v1) → l = entries_of key v ∧ ∀ l', with_array key l' v1 = with_array key l' v.
Proof.
  unfold array, entries_of; destruct (member v key) eqn:E; try done; [|by intros [= <- <-]].
  intros [= <- <-]; split; [done|]; intros l'; apply map_set_set.
Qed.

Lemma filter_negb_length {A} (p : A → bool) (l : list A) :
  length l = (length (List.filter (λ x, negb (p x)) l) + length (List.filter p l))%nat.
Proof. induction l as [|x l IH]; cbn; [done|]; destruct (p x); cbn; lia. Qed.

Lemma detach_session_exact plan s value d removed : detach_session plan s value = Ok (d, removed) → detached plan s value d removed.
Proof.
  unfold detach_session, removeEntriesBySessionId, removeEntriesByIds.
  intros ([l1 v1] & [-> E1]%array_ok & H)%bind_Ok; revert H; rewrite removeEntries_all, E1.
  intros ([l2 v2] & [-> E2]%array_ok & H)%bind_Ok; revert H; rewrite removeEntries_all, E2.
  intros ([l3 v3] & [-> E3]%array_ok & H)%bind_Ok; revert H; rewrite removeEntries_all, E3.
  intros ([l4 v4] & [-> E4]%array_ok & H)%bind_Ok; revert H; rewrite removeEntries_all, E4.
  intros H; injection H as <- <-; clear E1 E2 E3 E4.
  assert (∀ k l v, entries_of k (with_array k l v) = l) as Heq by (intros k l v; unfold entries_of, with_array; by rewrite member_set_eq).
  rewrite !entries_with_ne by done; split; repeat (rewrite !Heq || rewrite !entries_with_ne by done); try done.
  - cbn; split_and!; repeat (rewrite !Heq || rewrite !entries_with_ne by done); apply filter_negb_length.
  - intros k Hk; unfold with_array; rewrite !member_set_ne; [done|set_solver..].
Qed.
Lemma only_reads_references (between : world → world → Prop) `{!PreOrder between} t refs : only_reads between other_error (mark_references t refs) (λ _ _, True).
Proof.
  induction refs as [|r refs IH]; intros w; cbn [mark_references]; [by split|]; destruct (_ && _).
  - apply (ensures_now between); intros at_ w1 M1; apply ensures_bind; eapply ensures_mono; [|apply IH].
    intros [[l b]|x] w2 [M2 H]; (split; [by transitivity w1|done]).
  - apply ensures_bind; eapply ensures_mono; [|apply IH]; by intros [[l b]|x] w2 [M2 H].
Qed.

Lemma only_reads_mark (between : world → world → Prop) `{!PreOrder between} session : only_reads between other_error (markProfileSessionRefArchived session) (λ _ _, True).
Proof.
  eapply (only_reads_bind between); [apply (only_reads_await between _ (λ _ _, True)); by intros w r w' ->|done|]; intros [profile|] w _; [|by split].
  apply ensures_bind; eapply ensures_mono; [|apply (only_reads_references between)]; intros [[l b]|x] w1 [M1 H]; [|done]; cbn beta iota.
  destruct b; [cbn [negb]|by split]; apply (ensures_now between); intros at_ w2 M2; eapply ensures_mono; [|apply (only_reads_await between _ (λ _ _, True))].
  - intros r w3 [M3 H3]; split; [by transitivity w1; [|transitivity w2]|done].
  - by intros ? ? ? ->.
Qed.

Context (profilesDir : string) (skillsDir : option string) (has_chat : bool).

(** The configuration as it is read. *)
Definition with_defaults (o : record) : record := with_default "skillsDir" skillsDir (with_default "profilesDir" (Some profilesDir) o).

Definition untouched (s : string) (w0 w : world) : Prop := authored w = authored w0 ∧ statuses w !! s = statuses w0 !! s.

(** The session is archived and its entries are gone from the file. *)
Definition archived_without (s : string) (w0 w : world) (removed : RemovedEntries) : Prop :=
  ∃ o plan d, authored w0 = JObject o ∧ detached plan s (with_defaults o) d removed ∧ authored w = JObject d ∧
    statuses w !! s = Some "archived".

Definition archive_post (s : string) (w0 : world) (r : outcome crew_error ArchiveCrewSessionResult) (w : world) : Prop :=
  match r with
  | Value res => statuses w0 !! s ≠ Some "archived" ∧ archived_without s w0 w (runtime res)
  | Raise (CrewSessionLifecycleError reasonCode _ _ _) =>
      if String.eqb reasonCode "crew_session_archive_commit_failed" then
        ((∃ o, authored w0 = JObject o ∧ authored w = JObject (with_defaults o)) ∨ rejected_write ∈ mishaps w) ∧
        (statuses w !! s = statuses w0 !! s ∨ late_archive ∈ mishaps w)
      else untouched s w0 w
  | Raise (OtherError _) => untouched s w0 w ∨ ∃ removed, archived_without s w0 w removed
  end.

Lemma untouched_meanwhile s w0 w w' : meanwhile s w w' → untouched s w0 w → untouched s w0 w'.
Proof. unfold untouched; by intros [-> _ -> _]. Qed.

Lemma ensures_commit input s w :
  ensures crew_handles (meanwhile s) (commit_archive has_chat input s)
    (λ r w', authored w' = authored w ∧
       match r with
       | Value _ => statuses w' !! s = Some "archived"
       | Raise _ => statuses w' !! s = statuses w !! s ∨ late_archive ∈ mishaps w'
       end) w.
Proof.
  unfold commit_archive; apply ensures_bind.
  assert (∀ cursor w1, meanwhile s w w1 → ensures crew_handles (meanwhile s)
    (archived ← await (ArchiveSession s); mret (cursor, archived) : Crew (option string * CrewSession))
    (λ r w', authored w' = authored w ∧
       match r with Value _ => statuses w' !! s = Some "archived" | Raise _ => statuses w' !! s = statuses w !! s ∨ late_archive ∈ mishaps w' end)
    w1) as Hgo.
  { intros cursor w1 M1; apply ensures_bind, ensures_await; intros w2 M2 r w3 [Ha _]; cbn in Ha.
    pose proof (transitivity M1 M2) as [Ea _ Es _]; destruct r as [x|x]; [subst w3; split; [done|apply lookup_insert_eq]|].
    destruct Ha as [-> | ->]; (split; [done|]); [by left|right; by left]. }
  destruct (_ && _); [|by apply Hgo].
  apply ensures_bind, ensures_await; intros w1 M1 r w2 [-> _]; destruct r as [e|x]; [by apply Hgo|].
  split; [apply M1|left; apply M1].
Qed.
Lemma ensures_best_effort s {A B} (m : Crew A) (P : world → Prop) (f : () → Crew B) R w :
  ensures crew_handles (meanwhile s) m (λ _ w', P w') w → (∀ w', P w' → ensures crew_handles (meanwhile s) (f ()) R w') →
  ensures crew_handles (meanwhile s) (best_effort m ≫= f) R w.
Proof.
  intros Hm Hf; apply ensures_bind; unfold best_effort; apply ensures_bind, ensures_attempt; eapply ensures_mono; [|exact Hm].
  intros r w' HP; by apply Hf.
Qed.

(** Taking the archive back: the file is as it was read, unless its write was rejected. *)
Lemma ensures_roll_back s w0 o v e p (x : crew_error) w :
  authored w0 = JObject o → v = with_defaults o → (statuses w !! s = statuses w0 !! s ∨ late_archive ∈ mishaps w) →
  ensures crew_handles (meanwhile s)
    (best_effort (await (WriteConfig v)) ≫= λ _, best_effort (await (ApplyConfig e p)) ≫= λ _,
     fails "crew_session_archive_commit_failed" (errorMessage x) true)
    (archive_post s w0) w.
Proof.
  intros Ho -> Hst; set (P w' := (authored w' = JObject (with_defaults o) ∨ rejected_write ∈ mishaps w') ∧
                                 (statuses w' !! s = statuses w0 !! s ∨ late_archive ∈ mishaps w')).
  apply (ensures_best_effort s _ P).
  - apply ensures_await; intros w1 M1 r w2 [Hw _]; cbn in Hw; rewrite <- (meanwhile_status _ _ _ M1), <- (meanwhile_mishaps _ _ _ M1) in Hst.
    destruct r as [[]|y]; subst w2; (split; [|cbn; set_solver]); [by left|right; by left].
  - intros w1 HP; apply (ensures_best_effort s _ P).
    + apply ensures_await; intros w2 M2 r w3 [(Ea & Es & Em & _) _]; unfold P; rewrite Ea, Es, Em.
      destruct M2 as [-> _ -> ->]; exact HP.
    + intros w2 [H1 H2]; split; [destruct H1; [left; eauto|by right]|done].
Qed.

(** After the commit: the profile is brought up to date and the file applied. *)
Lemma ensures_archived s session cursor result removed e p w0 w :
  statuses w0 !! s ≠ Some "archived" → archived_without s w0 w removed →
  ensures crew_handles (meanwhile s)
    (markProfileSessionRefArchived session ≫= λ _, res ← await (ApplyConfig e p);
     mret {| archived := result; commandEventCursor := cursor; runtime := removed; applyResult := res |})
    (archive_post s w0) w.
Proof.
  intros Hne (o & plan & d & Ho & Hd & Hau & Hst).
  assert (∀ w', authored w' = authored w → statuses w' !! s = statuses w !! s → archived_without s w0 w' removed) as Hw.
  { intros w' E1 E2; exists o, plan, d; by rewrite E1, E2. }
  apply ensures_bind; unfold archive_post; eapply ensures_mono; [|apply (only_reads_mark (meanwhile _))].
  intros [[]|x] w1 [M1 Hx]; [|destruct Hx as [m ->]; right; exists removed; apply Hw; apply M1].
  apply ensures_bind, ensures_await; intros w2 M2 r w3 [(Ea & Es & _) Hx']; pose proof (transitivity M1 M2) as [Ea' _ Es' _].
  assert (archived_without s w0 w3 removed) as H3 by (apply Hw; [by rewrite Ea|by rewrite Es]).
  destruct r as [j|x]; [by split|]; destruct (Hx' x eq_refl) as [m ->]; right; by exists removed.
Qed.
Lemma archive_refused s w0 w x : untouched s w0 w → config_error x → archive_post s w0 (Raise x) w.
Proof. intros Hu [[m ->]|[m ->]]; [by left|exact Hu]. Qed.

(** The file is written, and the archive committed or taken back. *)
Lemma ensures_detached s input session o plan d removed w0 w :
  meanwhile s w0 w → statuses w0 !! s ≠ Some "archived" → authored w0 = JObject o → detached plan s (with_defaults o) d removed →
  ensures crew_handles (meanwhile s)
    (await (WriteConfig d) ≫= λ _,
     commit ← attempt (commit_archive has_chat input s);
     match commit with
     | Raise x =>
         best_effort (await (WriteConfig (with_defaults o))) ≫= λ _,
         best_effort (await (ApplyConfig "crew_session_archive_rolled_back" ("Crew session " +:+ s +:+ " archive rolled back"))) ≫= λ _,
         fails "crew_session_archive_commit_failed" (errorMessage x) true
     | Value (cursor, archived) =>
         markProfileSessionRefArchived session ≫= λ _,
         result ← await (ApplyConfig "crew_session_archived" ("Crew session " +:+ s +:+ " archived"));
         mret {| archived := archived; commandEventCursor := cursor; runtime := removed; applyResult := result |}
     end)
    (archive_post s w0) w.
Proof.
  intros M Hne Ho Hd; apply ensures_bind, ensures_await; intros w1 M1 r w2 [Hw Hx]; cbn in Hw.
  destruct (transitivity M M1) as [Ea _ Es _]; destruct r as [[]|x]; [|destruct (Hx x eq_refl) as [m ->]; subst w2; left; by split].
  subst w2; apply ensures_bind, ensures_attempt; eapply ensures_mono; [|apply ensures_commit].
  intros [[cursor result]|x] w2 [Ea2 Hst]; cbn in Ea2, Hst.
  - apply ensures_archived; [done|]; by exists o, plan, d.
  - eapply ensures_roll_back; [done|done|]; by rewrite <- Es.
Qed.

(** C10. Archiving a session, with configuration changes made one after the other, ends.  It
    refuses a session that is archived, of another kind or in a turn, and a configuration the
    core refuses, and changes nothing then.  Where it returns, the session is archived and
    the file has lost the entries and jobs of the session and the bindings that target it, in
    the numbers that are reported, and nothing else; where the commit fails, the file is as
    it was read unless its write was rejected too, and the session is as it was unless the
    core archived it and threw. *)
Theorem archive_session_exact input w :
  mishaps w = [] →
  ensures crew_handles (meanwhile (archive_sessionId input)) (archiveCrewSession profilesDir skillsDir has_chat input)
    (archive_post (archive_sessionId input) w) w.
Proof.
  intros _; set (s := archive_sessionId input); unfold archiveCrewSession; fold s.
  apply ensures_bind; eapply ensures_mono;
    [|apply (only_reads_await (meanwhile s) _ (λ w x, sessionId x = s ∧ statuses w !! s = Some (session_status x)))]; [|intros v r v' [-> Hr]; naive_solver].
  intros [session|x] w1 [M1 H1]; [|apply archive_refused; [split; apply M1|by left]]; destruct H1 as [-> Hst].
  destruct (_ || _); [cbn [negb]|split; apply M1].
  destruct (String.eqb_spec (session_status session) "archived") as [|Hna]; [split; apply M1|].
  rewrite (meanwhile_status _ _ _ M1) in Hst; assert (statuses w !! s ≠ Some "archived") as Hne by congruence.
  apply ensures_bind, ensures_await; intros w2 M2 r w3 [[-> [b ->]] _]; pose proof (transitivity M1 M2) as M; destruct b; [split; apply M|].
  apply ensures_bind; eapply ensures_mono; [|apply (ensures_config (meanwhile s))].
  intros [v|x] w3 H3; [|destruct H3 as [Hx (w3' & M3 & [-> | ->])]; apply archive_refused;
                          [split; apply (transitivity M M3)|by left|split; apply (transitivity M M3)|by left]].
  destruct H3 as [M3 H3]; apply (transitivity M) in M3; clear M; destruct H3 as (o & Ho & ->); rewrite (meanwhile_authored _ _ _ M3) in Ho.
  apply ensures_bind; eapply ensures_mono; [|apply (only_reads_assertValid (meanwhile _))].
  intros [plan|x] w4 [M4 H4]; (apply (transitivity M3) in M4; clear M3); [|apply archive_refused; [split; apply M4|done]].
  apply ensures_bind; eapply ensures_mono; [|apply (only_reads_lift (meanwhile s))].
  intros [[d removed]|x] w5 [M5 H5]; (apply (transitivity M4) in M5; clear M4); [|apply archive_refused; [split; apply M5|by left]].
  apply detach_session_exact in H5; cbn beta iota; apply ensures_bind; eapply ensures_mono; [|apply (only_reads_assertValid (meanwhile _))].
  intros [plan'|x] w6 [M6 H6]; (apply (transitivity M5) in M6; clear M5); [|apply archive_refused; [split; apply M6|done]].
  by apply (ensures_detached s input session o plan).
Qed.
(** ** Creating *)

(** An entry that binds something to the session. *)
Definition targets (s : string) (entry : json) : Prop := entrySessionId entry = Some s.

Lemma materialize_added session configured : ∀ index t bindings ids,
  ∃ added more, materialize session configured index t bindings ids = (bindings ++ added, ids ++ more) ∧
    Forall (targets (sessionId session)) added ∧ length more = length configured.
Proof.
  induction configured as [|b configured IH]; intros index t bindings ids; cbn [materialize].
  { exists [], []; by rewrite !app_nil_r. }
  destruct (bool_decide _).
  - destruct (IH (S index) t bindings (ids ++ [materializedMcpBindingId (desired_id session b index) (sessionId session)]))
      as (added & more & -> & Ha & Hm); rewrite <- app_assoc; eexists added, _; split; [done|]; split; [done|]; cbn; by rewrite Hm.
  - match goal with |- context [materialize _ _ ?i ?t ?bs ?ids] => destruct (IH i t bs ids) as (added & more & -> & Ha & Hm) end.
    rewrite <- !app_assoc; eexists _, _; split; [done|]; split; [by constructor|]; cbn; by rewrite Hm.
Qed.

(** The file has an entry for the session, every entry it had, and bindings of the session. *)
Definition with_session (s : string) (value d : record) : Prop :=
  ((entries_of "sessions" d = entries_of "sessions" value ∧ ∃ e, e ∈ entries_of "sessions" value ∧ targets s e) ∨
   (∃ e, entries_of "sessions" d = entries_of "sessions" value ++ [e] ∧ targets s e) ∧ ∀ e, e ∈ entries_of "sessions" value → ¬ targets s e) ∧
  (∃ more, entries_of "mcpBindings" d = entries_of "mcpBindings" value ++ more ∧ Forall (targets s) more) ∧
  ∀ k, k ∉ ["sessions"; "mcpBindings"] → member d k = member value k.

(** The core has made the session, or had made it for an earlier request, and it is left. *)
Definition left_created (s : string) (w0 w : world) : Prop :=
  ∃ c, sessionId (creation_session c) = s ∧
    statuses w !! s = match creation_outcome c with
                      | replayed => statuses w0 !! s
                      | _ => Some (session_status (creation_session c))
                      end.

Definition create_post (s : string) (w0 : world) (r : outcome crew_error (CreationRecord * json)) (w : world) : Prop :=
  match r with
  | Value (c, _) => sessionId (creation_session c) = s ∧
      ∃ o d, authored w0 = JObject o ∧ with_session s (with_defaults o) d ∧ authored w = JObject d
  | Raise (CrewSessionLifecycleError reasonCode _ _ _) =>
      if String.eqb reasonCode "crew_agent_session_creation_runtime_apply_failed" then
        ((∃ o, authored w0 = JObject o ∧ authored w = JObject (with_defaults o)) ∨ rejected_write ∈ mishaps w) ∧
        (statuses w !! s = statuses w0 !! s ∨ statuses w !! s = Some "archived" ∨ rejected_archive ∈ mishaps w)
      else untouched s w0 w
  | Raise (OtherError _) => authored w = authored w0 ∧ left_created s w0 w
  end.

Lemma session_entry_targets x : targets (sessionId x) (JObject (runtimeSessionEntry x)).
Proof. done. Qed.

Lemma add_session_entry_spec x l :
  (add_session_entry x l = l ∧ ∃ e, e ∈ l ∧ targets (sessionId x) e) ∨
  (∃ e, add_session_entry x l = l ++ [e] ∧ targets (sessionId x) e) ∧ ∀ e, e ∈ l → ¬ targets (sessionId x) e.
Proof.
  unfold add_session_entry; destruct (existsb _ l) eqn:E; [left; split; [done|]|right; split; [by eexists|]].
  - apply existsb_exists in E as (e & He & Hm); exists e; by apply list_elem_of_In in He; apply bool_decide_eq_true in Hm.
  - intros e He Ht; apply not_true_iff_false in E; apply E, existsb_exists; exists e; split; [by apply list_elem_of_In|by apply bool_decide_eq_true].
Qed.

Lemma entries_with_eq key l v : entries_of key (with_array key l v) = l.
Proof. unfold entries_of, with_array; by rewrite member_set_eq. Qed.

Lemma with_session_added x value added :
  Forall (targets (sessionId x)) added →
  let v := with_array "sessions" (add_session_entry x (entries_of "sessions" value)) value in
  with_session (sessionId x) value (with_array "mcpBindings" (entries_of "mcpBindings" v ++ added) v).
Proof.
  intros Ha; pose proof (add_session_entry_spec x (entries_of "sessions" value)) as H1; cbn zeta; unfold with_session.
  rewrite entries_with_eq, entries_with_ne by done; rewrite entries_with_eq, entries_with_ne by done.
  split; [done|]; split; [by exists added|]; intros k Hk; unfold with_array; rewrite !member_set_ne; [done|set_solver..].
Qed.

Lemma only_reads_restore (between : world → world → Prop) `{!PreOrder between} bindings x :
  only_reads between other_error (restoreProfileMcpBindingsForSession bindings x)
    (λ _ p, ∃ added, p.1 = bindings ++ added ∧ Forall (targets (sessionId x)) added).
Proof.
  eapply (only_reads_bind between); [apply (only_reads_await between _ (λ _ _, True)); by intros w r w' ->|done|]; intros [p|] w _; (split; [done|]).
  - destruct (materialize_added x (profileMcpBindingsFromRegistryRecord p) 0 (existing_targets bindings) bindings [])
      as (added & ids & -> & Ha & _); by exists added.
  - exists []; by rewrite app_nil_r.
Qed.

(** The file is written and applied. *)
Lemma ensures_write_created s x d ids w :
  ensures crew_handles (meanwhile s)
    (assertValidRuntimeConfig d ≫= λ _, await (WriteConfig d) ≫= λ _,
     result ← await (ApplyConfig "crew_session_created" ("Crew session " +:+ sessionId x +:+ " created"));
     (match ids with [] => mret () | _ => await (RefreshMcpTools x ids) end) ≫= λ _, mret result)
    (λ r w', match r with Value _ => authored w' = JObject d | Raise _ => statuses w' !! s = statuses w !! s end) w.
Proof.
  apply ensures_bind; eapply ensures_mono; [|apply (only_reads_assertValid (meanwhile _))]; intros [p|y] w4 [M4 _]; [|apply M4].
  apply ensures_bind, ensures_await; intros w5 M5 r w6 [Hw _]; (apply (transitivity M4) in M5; clear M4); cbn in Hw.
  destruct r as [[]|y]; subst w6; [|apply M5]; apply ensures_bind, ensures_await; intros w6 M6 r w7 [(Ea & Es & _) _].
  assert (statuses w7 !! s = statuses w !! s) as Hst by (rewrite Es, (meanwhile_status _ _ _ M6); apply M5).
  destruct r as [j|y]; [|done]; rewrite (meanwhile_authored _ _ _ M6) in Ea; apply ensures_bind.
  destruct ids as [|id ids]; [done|]; apply ensures_await; intros w8 M8 r w9 [-> _].
  destruct r as [[]|y]; [exact (eq_trans (meanwhile_authored _ _ _ M8) Ea)|by rewrite (meanwhile_status _ _ _ M8)].
Qed.

Lemma ensures_apply_creation s x value l v1 w :
  sessionId x = s → array "sessions" value = Ok (l, v1) →
  ensures crew_handles (meanwhile s) (apply_creation x (with_array "sessions" (add_session_entry x l) v1))
    (λ r w', match r with
             | Value _ => ∃ d, with_session s value d ∧ authored w' = JObject d
             | Raise _ => statuses w' !! s = statuses w !! s
             end) w.
Proof.
  intros <- [-> Ev]%array_ok; rewrite Ev; unfold apply_creation; apply ensures_bind; eapply ensures_mono; [|apply (only_reads_lift (meanwhile (sessionId x)))].
  intros [[mcps v3]|y] w1 [M1 H1]; [|apply M1]; apply array_ok in H1 as [-> Ev3]; cbn beta iota.
  apply ensures_bind; eapply ensures_mono; [|apply (only_reads_restore (meanwhile _))].
  intros [[mcps ids]|y] w2 [M2 H2]; (apply (transitivity M1) in M2; clear M1); [|apply M2]; destruct H2 as (added & Em & Ha); cbn [fst] in Em; cbn beta iota; rewrite Em, Ev3.
  eapply ensures_mono; [|apply (ensures_write_created (sessionId x))].
  intros [j|y] w3 H; [eexists; split; [by apply with_session_added|done]|rewrite H; apply M2].
Qed.

(** Taking the creation back. *)
Lemma ensures_uncreate s w0 o x outcome_ e p y w :
  sessionId x = s → authored w0 = JObject o → (outcome_ = replayed → statuses w !! s = statuses w0 !! s) →
  ensures crew_handles (meanwhile s)
    (best_effort (await (WriteConfig (with_defaults o))) ≫= λ _,
     (match outcome_ with
      | replayed => mret ()
      | _ => best_effort (await (ArchiveSession (sessionId x))) ≫= λ _, best_effort (markProfileSessionRefArchived x)
      end) ≫= λ _,
     best_effort (await (ApplyConfig e p)) ≫= λ _,
     fails "crew_agent_session_creation_runtime_apply_failed" (errorMessage y) true)
    (create_post s w0) w.
Proof.
  intros <- Ho Hrep; set (s := sessionId x) in *.
  set (F w' := authored w' = JObject (with_defaults o) ∨ rejected_write ∈ mishaps w').
  set (S w' := statuses w' !! s = statuses w0 !! s ∨ statuses w' !! s = Some "archived" ∨ rejected_archive ∈ mishaps w').
  assert (∀ w w', meanwhile s w w' → F w → F w') as FM by (intros v v' [Ea _ _ Em]; unfold F; by rewrite Ea, Em).
  assert (∀ w w', meanwhile s w w' → S w → S w') as SM by (intros v v' [_ _ Es Em]; unfold S; by rewrite Es, Em).
  apply (ensures_best_effort s _ (λ w', F w' ∧ (outcome_ = replayed → statuses w' !! s = statuses w0 !! s))).
  { apply ensures_await; intros w1 M1 r w2 [Hw _]; cbn in Hw; rewrite <- (meanwhile_status _ _ _ M1) in Hrep.
    destruct r as [[]|z]; subst w2; (split; [|done]); [by left|right; by left]. }
  intros w1 [HF Hrep1]; apply ensures_bind, (ensures_mono _ _ _ (λ r w', r = Value () ∧ F w' ∧ S w')).
  - intros r w2 (-> & HF2 & HS2); apply (ensures_best_effort s _ (λ w', F w' ∧ S w')).
    + apply ensures_await; intros w3 M3 r w4 [(Ea & Es & Em & _) _]; unfold F, S; rewrite Ea, Es, Em; split; [by apply (FM w2)|by apply (SM w2)].
    + intros w3 [H1 H2]; split; [destruct H1; [left; eauto|by right]|done].
  - assert (ensures crew_handles (meanwhile s) (best_effort (await (ArchiveSession s)) ≫= λ _, best_effort (markProfileSessionRefArchived x))
      (λ r w', r = Value () ∧ F w' ∧ S w') w1) as Harchive;
      [|destruct outcome_; [exact Harchive|split; [done|]; split; [done|left; by apply Hrep1]|exact Harchive]].
    apply (ensures_best_effort s _ (λ w', F w' ∧ S w')).
    + apply ensures_await; intros w2 M2 r w3 [Ha _]; apply (FM _ _ M2) in HF; cbn in Ha; unfold F, S.
      destruct r; [subst w3; split; [done|right; left; apply lookup_insert_eq]|].
      destruct Ha as [-> | ->]; (split; [destruct HF; [by left|right; by right]|right]); [right; by left|left; apply lookup_insert_eq].
    + intros w2 [HF2 HS2]; unfold best_effort; apply ensures_bind, ensures_attempt; eapply ensures_mono; [|apply (only_reads_mark (meanwhile _))].
      intros r w3 [M3 _]; split; [done|]; split; [by apply (FM w2)|by apply (SM w2)].
Qed.
Lemma creation_refused s w0 w x : untouched s w0 w → create_post s w0 (Raise (creationError x)) w.
Proof.
  intros Hu; unfold create_post, creationError.
  destruct (List.find _ CREATION_REASON_CODES) as [code|] eqn:E; cbn [default id from_option]; [|exact Hu].
  apply find_some in E as [E _]; destruct (String.eqb_spec code "crew_agent_session_creation_runtime_apply_failed") as [->|]; [|done].
  exfalso; cbn in E; naive_solver.
Qed.

End Facts.

(** ** Runs *)

Module CrewExample.

Lemma absolute_idempotent p q :
  (if Str.startsWith p "/" then Some p else None) = Some q → (if Str.startsWith q "/" then Some q else None) = Some q.
Proof. destruct (Str.startsWith p "/") eqn:E; [|done]; intros H; injection H as <-; by rewrite E. Qed.

#[local] Instance example_core : CoreWorkspaces :=
  {| norm p := if Str.startsWith p "/" then Some p else None; norm_idempotent := absolute_idempotent; session_of k := "session-" +:+ k |}.

Definition session_entry (s dir : string) : json := JObject [("session_id", JString s); ("workspace_cwd", JString dir)].

Definition config : record :=
  [("sessions", JArray [session_entry "a" "/home/a"; session_entry "b" "/home/b"]);
   ("mcpBindings", JArray [JObject [("bindingId", JString "m1"); ("sessionId", JString "a")]]);
   ("scheduledJobs", JArray [JObject [("targetSessionId", JString "a")]; JObject [("targetSessionId", JString "b")]])].

Definition at_home : world :=
  {| authored := JObject config; canonical := {[ "a" := {| cwd := "/home/a"; workspace_revision := 1 |} ]};
     statuses := {[ "a" := "idle" ]}; mishaps := [] |}.

Lemma at_home_agrees : agrees "a" at_home ∧ normalised "a" at_home.
Proof.
  split; [intros a Ha; exists {| cwd := "/home/a"; workspace_revision := 1 |}; vm_compute in Ha; injection Ha as <-; by split|].
  intros c Hc; vm_compute in Hc; by injection Hc as <-.
Qed.

Definition move : SwitchInput := {| switch_sessionId := "a"; switch_cwd := "/srv"; switch_expectedRevision := 1 |}.

Lemma workspace_switch_consistent_witness :
  agrees "a" at_home ∧
  ensures crew_handles (meanwhile "a") (switchCrewSessionWorkspace "/profiles" None move) (switch_post move at_home) at_home.
Proof. split; [apply at_home_agrees|]; apply (workspace_switch_consistent "/profiles" None move at_home); [apply at_home_agrees|apply at_home_agrees|done]. Defined.

Definition leave : ArchiveInput := {| archive_sessionId := "a"; commandName := Some "archive"; requestId := None; actorId := None |}.

Lemma archive_session_exact_witness :
  mishaps at_home = [] ∧
  ensures crew_handles (meanwhile "a") (archiveCrewSession "/profiles" None true leave) (archive_post "/profiles" None "a" at_home) at_home.
Proof. split; [done|]; apply (archive_session_exact "/profiles" None true leave at_home); done. Defined.

Definition ask : CreationRequest :=
  {| expectedProfileRevision := 1; idempotencyKey := "k"; request_profileId := "p"; requestedAt := "now"; workspaceCwd := "/srv" |}.


(** Services that answer, except for the calls that are told to fail; the calls are
    recorded. *)
Definition session_a (w : world) : CrewSession :=
  {| sessionId := "a"; agentId := "agent"; profileId := "p"; session_kind := "full"; session_status := default "" (statuses w !! "a");
     workspace := canonical w !! "a"; maxDurationMs := None; maxDelegationDepth := None; maxMessages := None |}.

Definition profile : ProfileRecord :=
  {| profile_id := "p"; lifecycleStatus := "active"; displayName := None; summary := None; defaultSessionKind := None; profile_agentId := None;
     ownerId := None; promptSoulMarkdown := None; promptMemoryMarkdown := None; activeRuntimeSettingsJson := JNull; sourceAssetRefs := JArray [];
     derivedRuntimeRefs := [[("refKind", JString "session"); ("refId", JString "a")]]; importExport := JNull; profile_revision := 1 |}.

Definition plan : RuntimePlan := {| channelBindings := []; mcpBindings := [{| plan_bindingId := "m1"; plan_sessionId := Some "a" |}] |}.

Definition update (s to : string) (w : world) : SessionWorkspaceUpdateRecord * world :=
  let old := default {| cwd := ""; workspace_revision := 0 |} (canonical w !! s) in
  let new := {| cwd := to; workspace_revision := workspace_revision old + 1 |} in
  ({| current := new; previous := old; updated_session := session_a w |}, with_workspace s new w).

Definition state : Type := world * list string.

Definition serve (fails late : string → bool) B (e : CrewCall B) : state → outcome crew_error B * state :=
  let call {A} (name : string) (a : A) (after : world) (s : state) : outcome crew_error A * state :=
    let log := (snd s ++ [name])%list in
    if fails name then (Raise (OtherError name), (fst s, log))
    else if late name then (Raise (OtherError name), (after, log)) else (Value a, (after, log)) in
  match e in CrewCall B return state → outcome crew_error B * state with
  | SessionById _ => λ s, (Value (session_a (fst s)), s)
  | InFlight _ => λ s, (Value false, s)
  | ReadConfigFile => λ s, (Value (authored (fst s)), s)
  | ValidateConfig _ => λ s, (Value {| ok := true; diagnostics := []; runtimePlan := Some plan |}, s)
  | WriteConfig v => λ s, call "write" () (with_authored (JObject v) (fst s)) s
  | ApplyConfig event _ => λ s, call event JNull (fst s) s
  | UpdateSessionWorkspace x to _ _ => λ s, let '(u, after) := update x to (fst s) in call ("move to " +:+ to) u after s
  | ArchiveSession x => λ s, call "archive" (session_a (fst s)) (with_status x "archived" (fst s)) s
  | CreateCrewAgentSession _ => λ s, (Raise (OtherError "not here"), s)
  | GetProfile _ => λ s, (Value (Some profile), s)
  | UpdateProfile _ => λ s, call "profile" () (fst s) s
  | AppendChatEvent _ k _ => λ s, call k "event" (fst s) s
  | RefreshMcpTools _ _ => λ s, (Value (), s)
  | Now => λ s, (Value "now", s)
  end.

Definition ended {A} (r : option (outcome crew_error A * state)) : option (option string * option string * option string) :=
  (λ '(o, (w, _)), (match o with Value _ => None | Raise (CrewSessionLifecycleError c _ _ _) => Some c | Raise (OtherError m) => Some m end,
                    authored_cwd "a" (authored w), cwd_of "a" w)) <$> r.

Definition nothing (_ : string) : bool := false.

(** What is thrown, and where the file and the core are then: a move; one whose
    configuration is not applied, which is taken back; the same where the way back is refused
    as well; and a first update that fails after its effect, which nobody notices. *)
Example moves :
  let go fails late := ended (perform (serve fails late) (switchCrewSessionWorkspace "/profiles" None move) (at_home, [])) in
  go nothing nothing = Some (None, Some "/srv", Some "/srv") ∧
  go (String.eqb "crew_session_workspace_changed") nothing = Some (Some "crew_session_workspace_changed", Some "/home/a", Some "/home/a") ∧
  go (λ c, String.eqb c "crew_session_workspace_changed" || String.eqb c "move to /home/a") nothing
    = Some (Some "session_workspace_change_reconciled_forward", Some "/srv", Some "/srv") ∧
  go nothing (String.eqb "move to /srv") = Some (Some "move to /srv", Some "/home/a", Some "/srv").
Proof. vm_compute; split_and!; reflexivity. Qed.

Definition archived_state {A} (r : option (outcome crew_error A * state)) : option (option string * option string * list string) :=
  (λ '(o, (w, log)), (match o with Value _ => None | Raise (CrewSessionLifecycleError c _ _ _) => Some c | Raise (OtherError m) => Some m end,
                      statuses w !! "a", log)) <$> r.

(** An archive whose profile cannot be updated throws with the session archived and the
    file not applied; a second attempt is refused. *)
Example archive_left_unapplied :
  let first := perform (serve (String.eqb "profile") nothing) (archiveCrewSession "/profiles" None true leave) (at_home, []) in
  archived_state first = Some (Some "profile", Some "archived", ["write"; "command_completed"; "archive"; "profile"]) ∧
  (first ≫= λ '(_, s), archived_state (perform (serve nothing nothing) (archiveCrewSession "/profiles" None true leave) s))
  = Some (Some "crew_session_already_archived", Some "archived", ["write"; "command_completed"; "archive"; "profile"]).
Proof. vm_compute; split; reflexivity. Qed.

(** The chat says that the session was archived before it is, also when it then is not. *)
Example archive_announced_then_refused :
  archived_state (perform (serve (String.eqb "archive") nothing) (archiveCrewSession "/profiles" None true leave) (at_home, []))
  = Some (Some "crew_session_archive_commit_failed", Some "idle",
          ["write"; "command_completed"; "archive"; "write"; "crew_session_archive_rolled_back"]).
Proof. vm_compute; reflexivity. Qed.

(** The core archives the session and throws: the entries are put back for a session that
    stays archived. *)
Example archive_late :
  (λ '(_, (w, _)), (statuses w !! "a", authored_cwd "a" (authored w))) <$>
    perform (serve nothing (String.eqb "archive")) (archiveCrewSession "/profiles" None true leave) (at_home, [])
  = Some (Some "archived", Some "/home/a").
Proof. vm_compute; reflexivity. Qed.
End CrewExample.
