(* ===== verification/MutationQueue.v ===== *)
(** * The queue of configuration changes

    [createAsyncMutationQueue] and [withAsyncMutationQueue] of
    [ts/packages/brain-island/src/service-app.ts]: every change of the configuration waits for
    the promise of the one before it and settles its own when it has ended, however it ends.
    What runs behind the queue is any operation of [AsyncCalls]; that its own calls are not
    mixed with those of another is what [CrewSessionsFacts] assumes. *)

From stdpp Require Import sets list gmap relations.
From S2P Require Import Prelude AsyncCalls.

Section Queue.
Context {X : Type} {call : Type → Type}.

(** [TakeTail] reads [queue.tail] and puts a new promise there, [Settled] awaits a promise,
    [Release] resolves one; the other calls are those of the operation.  [me] tells the
    operations apart. *)
Inductive QueueCall : Type → Type :=
| TakeTail (me : nat) : QueueCall (nat * nat)
| Settled (promise : nat) : QueueCall ()
| Release (promise : nat) : QueueCall ()
| Inner (B : Type) (e : call B) : QueueCall B.

Fixpoint behind {A} (m : Io X call A) : Io X QueueCall A :=
  match m with
  | Done r => Done r
  | Endless => Endless
  | @Await _ _ _ B e k => Await (Inner B e) (λ r, behind (k r))
  end.

Definition withAsyncMutationQueue {A} (me : nat) (operation : Io X call A) : Io X QueueCall A :=
  '(previous, own) ← await (TakeTail me);
  catch (await (Settled previous)) (λ _, mret ()) ≫= λ _,
  finally (behind operation) (await (Release own)).
End Queue.
Arguments QueueCall : clear implicits.

(** ** The world *)

(** The promises that are not settled are [unsettled], in the order in which they were made;
    the next one made is [next].  [ticket] is the promise of each operation that has made
    one, [busy] the one whose operation has begun to work. *)
Record queue (W : Type) := { unsettled : list nat; next : nat; ticket : gmap nat nat; busy : option nat; shared : W }.
Arguments unsettled {W} q.
Arguments next {W} q.
Arguments ticket {W} q.
Arguments busy {W} q.
Arguments shared {W} q.

Section Exclusion.
Context {X : Type} {call : Type → Type} {W : Type}.
Context (handles : ∀ B, call B → W → outcome X B → W → Prop).
(** what happens to the world besides the operations *)
Context (outside : W → W → Prop).
Context {outside_pre : PreOrder outside}.
(** what every operation finds and leaves *)
Context (keeps : W → Prop).
Context (keeps_outside : ∀ w w', outside w w' → keeps w → keeps w').

(** [createAsyncMutationQueue]: the tail is the promise 0, which is settled. *)
Definition createAsyncMutationQueue (w : W) : queue W := {| unsettled := []; next := 1; ticket := ∅; busy := None; shared := w |}.

Definition queued (me : nat) (q : queue W) : queue W :=
  {| unsettled := unsettled q ++ [next q]; next := S (next q); ticket := <[me := next q]> (ticket q); busy := busy q; shared := shared q |}.
Definition released (p : nat) (q : queue W) : queue W :=
  {| unsettled := List.filter (λ x, negb (x =? p)%nat) (unsettled q); next := next q; ticket := ticket q; busy := None; shared := shared q |}.
Definition worked (w : W) (q : queue W) : queue W :=
  {| unsettled := unsettled q; next := next q; ticket := ticket q; busy := head (unsettled q); shared := w |}.
Definition moved (w : W) (q : queue W) : queue W :=
  {| unsettled := unsettled q; next := next q; ticket := ticket q; busy := busy q; shared := w |}.

(** The tail is the promise that was made last. *)
Definition queue_handles (B : Type) (e : QueueCall call B) : queue W → outcome X B → queue W → Prop :=
  match e in QueueCall _ B return queue W → outcome X B → queue W → Prop with
  | TakeTail me => λ q r q', r = Value (pred (next q), next q) ∧ q' = queued me q
  | Settled p => λ q r q', (p ∉ unsettled q) ∧ r = Value () ∧ q' = q
  | Release p => λ q r q', r = Value () ∧ q' = released p q
  | Inner B e => λ q r q', ∃ w, handles B e (shared q) r w ∧ q' = worked w q
  end.

Inductive queue_outside (q : queue W) : queue W → Prop :=
| outside_world w : outside (shared q) w → queue_outside q (moved w q).

(** ** The protocol *)

Record queue_invariant (q : queue W) : Prop := {
  in_order : unsettled q = seq (next q - length (unsettled q)) (length (unsettled q));
  enough : (length (unsettled q) < next q)%nat;
  tickets_made t n : ticket q !! t = Some n → (n < next q)%nat;
  tickets_apart t t' n : ticket q !! t = Some n → ticket q !! t' = Some n → t = t';
  tickets_owned n : n ∈ unsettled q → ∃ t, ticket q !! t = Some n;
  busy_first n : busy q = Some n → head (unsettled q) = Some n;
  idle_keeps : busy q = None → keeps (shared q)
}.

(** The operation is the one that may work. *)
Definition holds (t : nat) (q : queue W) : Prop := ∃ n, ticket q !! t = Some n ∧ head (unsettled q) = Some n.

Record queue_rely (t : nat) (q q' : queue W) : Prop := {
  rely_ticket : ticket q' !! t = ticket q !! t;
  rely_unsettled n : ticket q !! t = Some n → n ∈ unsettled q → n ∈ unsettled q';
  rely_holds : holds t q → holds t q' ∧ outside (shared q) (shared q');
  rely_busy n : ticket q !! t = Some n → busy q ≠ Some n → busy q' ≠ Some n;
  rely_gone n : ticket q !! t = Some n → n ∉ unsettled q → n ∉ unsettled q'
}.

Definition queue_guard (t B : _) (e : QueueCall call B) : queue W → Prop :=
  match e with
  | TakeTail me => λ q, me = t ∧ ticket q !! t = None ∧ ∀ x, ticket q !! x ≠ Some (next q)
  | Settled p => λ q, ticket q !! t = Some (S p) ∧ S p ∈ unsettled q
  | Release p => λ q, ticket q !! t = Some p ∧ head (unsettled q) = Some p ∧ keeps (shared q)
  | Inner _ _ => λ q, holds t q
  end.

(** An operation that has ended has settled its promise. *)
Definition queue_post (t : nat) (_ : bool) (q : queue W) : Prop := ∃ n, ticket q !! t = Some n ∧ n ∉ unsettled q.

Lemma first_unsettled q p :
  queue_invariant q → head (unsettled q) = Some p →
  ∃ l, unsettled q = p :: l ∧ unsettled (released p q) = l ∧ l = seq (S p) (length l) ∧ (S p + length l = next q)%nat.
Proof.
  intros [Ho He _ _ _ _ _] Hh; destruct (unsettled q) as [|x l] eqn:E; [done|]; injection Hh as ->; exists l; cbn in Ho, He.
  injection Ho as Ep El; set (k := length l) in *; assert (S p = next q - k)%nat as Es by lia; replace (S (next q - S k)) with (S p) in El by lia.
  split; [done|]; split; [|split; [done|lia]]; cbn; rewrite E; cbn; rewrite Nat.eqb_refl; cbn.
  apply List_filter_all; intros y Hy; rewrite El in Hy; apply elem_of_seq in Hy; apply negb_true_iff, Nat.eqb_neq; lia.
Qed.

Lemma holds_one t t' q : queue_invariant q → holds t q → holds t' q → t = t'.
Proof. intros Hi (n & Hn & Hh) (m & Hm & Hh'); rewrite Hh in Hh'; injection Hh' as <-; by eapply tickets_apart. Qed.

Lemma queued_keeps t t' q :
  queue_invariant q → ticket q !! t = None → queue_invariant (queued t q) ∧ (t ≠ t' → queue_rely t' q (queued t q)).
Proof.
  intros Hi Ht; pose proof Hi as [Ho He Hm Ha Hown Hb Hk]; assert (∀ n, head (unsettled q) = Some n → head (unsettled q ++ [next q]) = Some n) as Hhead.
  { by destruct (unsettled q). }
  split; [split; cbn|intros Hne; split; cbn].
  - rewrite length_app; cbn [length]; rewrite Nat.add_1_r; rewrite seq_S; rewrite Ho at 1.
    replace (S (next q) - S _) with (next q - length (unsettled q)) by lia; do 2 f_equal; lia.
  - rewrite length_app; cbn; lia.
  - intros x n; rewrite lookup_insert_Some; intros [[_ <-]|[_ Hn]]; [lia|]; apply Hm in Hn; lia.
  - intros x y n; rewrite !lookup_insert_Some; intros [[<- <-]|[? Hx]] [[<- E]|[? Hy]]; try done; [apply Hm in Hy|subst; apply Hm in Hx|by eapply Ha]; lia.
  - intros n [Hn| ->%list_elem_of_singleton]%elem_of_app; [|exists t; apply lookup_insert_eq].
    destruct (Hown n Hn) as [x Hx]; exists x; rewrite lookup_insert_ne; [done|]; intros ->; congruence.
  - intros n Hn; by apply Hhead, Hb.
  - done.
  - by apply lookup_insert_ne.
  - set_solver.
  - intros (n & Hn & Hh); split; [|done]; exists n; split; [cbn; by rewrite lookup_insert_ne|by apply Hhead].
  - done.
  - intros n Hn Hnot; apply Hm in Hn; intros [?| ->%list_elem_of_singleton]%elem_of_app; [done|lia].
Qed.

Lemma released_keeps t t' p q :
  queue_invariant q → ticket q !! t = Some p → head (unsettled q) = Some p → keeps (shared q) →
  queue_invariant (released p q) ∧ (t ≠ t' → queue_rely t' q (released p q)).
Proof.
  intros Hi Ht Hh Hkeep; destruct (first_unsettled q p Hi Hh) as (l & E & El & Es & En); pose proof Hi as [Ho He Hm Ha Hown Hb Hk].
  split; [split; rewrite ?El; cbn; try done|intros Hne; split; rewrite ?El; cbn; try done].
  - rewrite Es at 1; f_equal; lia.
  - lia.
  - intros n Hn; apply Hown; rewrite E; by right.
  - intros n Hn; rewrite E; intros [-> |?]%elem_of_cons; [|done]; destruct Hne; by eapply Ha.
  - intros Hh'; destruct Hne; eapply holds_one; [done| |done]; by exists p.
  - intros n Hn; rewrite E; set_solver.
Qed.

Lemma worked_keeps t t' w q :
  queue_invariant q → holds t q → queue_invariant (worked w q) ∧ (t ≠ t' → queue_rely t' q (worked w q)).
Proof.
  intros Hi Hh; pose proof Hi as [Ho He Hm Ha Hown Hb Hk]; split; [split; cbn; try done|intros Hne; split; cbn; try done].
  - destruct Hh as (n & _ & Hn); by rewrite Hn.
  - intros Hh'; destruct Hne; by eapply holds_one.
  - intros n Hn _ Hn'; destruct Hne; eapply holds_one; [done|done|]; by exists n.
Qed.

Lemma queue_call_keeps t B (e : QueueCall call B) q r q' :
  queue_invariant q → queue_guard t B e q → queue_handles B e q r q' →
  queue_invariant q' ∧ ∀ t', t ≠ t' → queue_rely t' q q'.
Proof.
  intros Hi; destruct e as [me|p|p|B e]; cbn.
  - intros (-> & Ht & _) [_ ->]; split; [by apply (queued_keeps t 0)|intros t'; by apply queued_keeps].
  - intros _ (_ & _ & ->); split; [done|]; intros t' _; split; try done; by intros.
  - intros (Ht & Hh & Hk) [_ ->]; split; [by apply (released_keeps t 0)|intros t'; by apply (released_keeps t)].
  - intros Hh (w & _ & ->); split; [by apply (worked_keeps t 0)|intros t'; by apply (worked_keeps t)].
Qed.

#[local] Instance queue_rely_pre t : PreOrder (queue_rely t).
Proof.
  split; [intros q; split; try done; by intros|]; intros q1 q2 q3 [A1 A2 A3 A4 A5] [B1 B2 B3 B4 B5]; split.
  - congruence.
  - intros n Hn Hu; apply B2; [congruence|by apply A2].
  - intros Hh; destruct (A3 Hh) as [H2 H12]; destruct (B3 H2) as [H3 H23]; split; [done|by etransitivity].
  - intros n Hn Hb; apply B4; [congruence|by apply A4].
  - intros n Hn Hu; apply B5; [congruence|by apply A5].
Qed.

Lemma queue_outside_keeps q q' : queue_invariant q → queue_outside q q' → queue_invariant q' ∧ ∀ t, queue_rely t q q'.
Proof.
  intros [Ho He Hm Ha Hown Hb Hk] [w Hw]; split; [split; cbn; try done; eauto|].
  intros t; split; cbn; try done; by intros.
Qed.

(** An operation that finds and leaves [keeps], however its calls answer. *)
Definition well_behaved {A} (m : Io X call A) : Prop := ∀ w, keeps w → ensures handles outside m (λ _ w', keeps w') w.

Abbreviation queue_wp := (wp queue_handles queue_invariant queue_rely queue_guard).

(** Behind the queue, an operation makes its calls as if it were alone. *)
Lemma wp_behind t {A} (m : Io X call A) (Q : outcome X A → queue W → Prop) q :
  holds t q → ensures handles outside m (λ _ w, keeps w) (shared q) →
  (∀ r q', holds t q' → ticket q' !! t = ticket q !! t → keeps (shared q') → Q r q') →
  queue_wp t (behind m) Q q.
Proof.
  revert q; induction m as [r| |B e k IH]; intros q Hh Hm HQ; cbn in Hm |- *; [by apply HQ|done|].
  intros q' Hr Hi; destruct (rely_holds _ _ _ Hr Hh) as [Hh' Ho]; split; [done|].
  intros r q'' (w & Hw & ->) Hi'; apply IH; [done|by apply (Hm (shared q'))|].
  intros r' q3 H3 E3; apply HQ; [done|]; rewrite E3; apply Hr.
Qed.

Lemma wp_queue t {A} (m : Io X call A) q :
  well_behaved m → ticket q !! t = None →
  queue_wp t (withAsyncMutationQueue t m) (λ r q, queue_post t (returned r) q) q.
Proof.
  intros Hm Ht; unfold withAsyncMutationQueue; apply wp_bind, wp_await; intros q1 R1 I1; rewrite <- (rely_ticket _ _ _ R1) in Ht.
  split; [split; [done|]; split; [done|]; intros x Hx; apply (tickets_made _ I1) in Hx; lia|]; intros r q2 [-> ->] I2; pose proof (enough _ I1) as He1; cbn beta iota; set (n := next q1) in *.
  assert (ticket (queued t q1) !! t = Some n) as Hn by apply lookup_insert_eq.
  assert (n ∈ unsettled (queued t q1)) as Hu by (cbn; set_solver).
  assert (busy (queued t q1) ≠ Some n) as Hb.
  { cbn; intros Hb%(busy_first _ I1); destruct (first_unsettled _ _ I1 Hb) as (l & _ & _ & _ & E); unfold n in E; lia. }
  apply wp_bind, wp_continue, wp_await; intros q3 R3 I3.
  rewrite <- (rely_ticket _ _ _ R3) in Hn; pose proof (rely_unsettled _ _ _ R3 n ltac:(apply lookup_insert_eq) Hu) as Hu3.
  pose proof (rely_busy _ _ _ R3 n ltac:(apply lookup_insert_eq) Hb) as Hb3.
  assert (S (pred n) = n) as En by lia; split; [by cbn; rewrite En|]; intros r q4 (Hp & -> & ->) _.
  assert (head (unsettled q3) = Some n) as Hh.
  { destruct (head (unsettled q3)) as [p|] eqn:E; [|revert E Hu3; destruct (unsettled q3); [set_solver|done]].
    destruct (first_unsettled _ _ I3 E) as (l & Eu & _ & El & _); rewrite Eu in Hu3, Hp; apply elem_of_cons in Hu3 as [->|Hl]; [done|].
    exfalso; apply Hp; rewrite El in Hl |- *; apply elem_of_seq in Hl; rewrite elem_of_cons, elem_of_seq; lia. }
  assert (keeps (shared q3)) as Hk by (apply (idle_keeps _ I3); destruct (busy q3) as [p|] eqn:E; [|done]; apply (busy_first _ I3) in E; congruence).
  unfold finally; apply wp_continue, wp_behind; [by exists n|by apply Hm|].
  intros r q5 (n' & Hn' & Hh5) E5 Hk5; assert (n' = n) as -> by congruence.
  apply wp_continue, wp_await; intros q6 R6 I6; destruct (rely_holds _ _ _ R6) as [(n' & Hn6 & Hh6) O6]; [by exists n|].
  assert (n' = n) as -> by (rewrite (rely_ticket _ _ _ R6) in Hn6; congruence).
  split; [cbn; eauto|]; intros r' q7 [-> ->] _; destruct (first_unsettled _ _ I6 Hh6) as (l & _ & El & Es & _).
  change (queue_post t (returned r) (released n q6)); exists n; split; [done|]; rewrite El, Es, elem_of_seq; lia.
Qed.

(** ** Operations behind the queue *)

Definition queue_starts (q : queue W) (p : process nat X (QueueCall call)) : Prop :=
  ∃ t A (m : Io X call A), p = Process t (withAsyncMutationQueue t m) ∧ ticket q !! t = None ∧ well_behaved m.

Abbreviation queue_step := (step queue_handles queue_outside queue_starts (λ t t', t ≠ t') false).

(** The operation is about to make a call of its own; it waits for a promise. *)
Definition works (p : process nat X (QueueCall call)) : Prop := ∃ B e k, code p = Await (Inner B e) k.
Definition waits (promise : nat) (p : process nat X (QueueCall call)) : Prop := ∃ k, code p = Await (Settled promise) k.

#[local] Instance ne_symmetric : Symmetric (λ t t' : nat, t ≠ t').
Proof. by intros t t' H E. Qed.

Lemma queue_created w : keeps w → queue_invariant (createAsyncMutationQueue w).
Proof. intros Hk; split; cbn; try done; [lia|set_solver]. Qed.

Lemma queue_starts_well q p : queue_invariant q → queue_starts q p → queue_wp (tag p) (code p) (λ r q, queue_post (tag p) (returned r) q) q.
Proof. intros _ (t & A & m & -> & Ht & Hm); by apply wp_queue. Qed.

Lemma queue_post_stable t b q q' : queue_rely t q q' → queue_post t b q → queue_post t b q'.
Proof. intros Hr (n & Hn & Hu); exists n; rewrite (rely_ticket _ _ _ Hr); split; [done|by eapply rely_gone]. Qed.

Lemma queue_sound w s : keeps w → rtc queue_step (createAsyncMutationQueue w, []) s →
  sound queue_handles (λ t t', t ≠ t') queue_invariant queue_rely queue_guard queue_post s.
Proof.
  intros Hk; eapply (pool_sound (beside_sym := ne_symmetric) _ _ _ _ _ _ _ _ _ (rely_pre := queue_rely_pre)); [|apply queue_outside_keeps|apply queue_starts_well|apply queue_post_stable|by apply queue_created].
  intros t B e q r q' Hi Hg Hh; by eapply queue_call_keeps.
Qed.

(** A promise that is not settled is that of an operation under way. *)
Definition unfinished (q : queue W) (t : nat) : Prop := ∃ n, ticket q !! t = Some n ∧ n ∈ unsettled q.

Lemma call_unfinished t B (e : QueueCall call B) q r q' t' :
  queue_guard t B e q → queue_handles B e q r q' → unfinished q' t' → unfinished q t' ∨ Some t = Some t'.
Proof.
  destruct e as [me|p|p|B e]; cbn.
  - intros (-> & _ & Hnew) [_ ->] (n & Hn & Hu); cbn in *; destruct (decide (t = t')) as [->|Hne]; [by right|left].
    rewrite lookup_insert_ne in Hn by done; exists n; split; [done|]; apply elem_of_app in Hu as [?| ->%list_elem_of_singleton]; [done|].
    by destruct (Hnew t').
  - intros _ (_ & _ & ->); by left.
  - intros _ [_ ->] (n & Hn & Hu); left; exists n; split; [done|]; cbn in Hu; by apply elem_of_List_filter in Hu as [? ?].
  - intros _ (w & _ & ->); by left.
Qed.

Lemma queue_owned w s t : keeps w → rtc queue_step (createAsyncMutationQueue w, []) s → unfinished s.1 t → ∃ p, p ∈ s.2 ∧ tag p = t.
Proof.
  intros Hk Hr Ht; assert (owned unfinished Some s) as Ho.
  { eapply (pool_debts (beside_sym := ne_symmetric) _ _ _ _ _ queue_invariant queue_rely queue_guard queue_post (rely_pre := queue_rely_pre));
      [|apply queue_outside_keeps|apply queue_starts_well|apply queue_post_stable|apply call_unfinished| | |done|by apply queue_created| |exact Hr].
    - intros t' B e q r q' Hi Hg Hh; by eapply queue_call_keeps.
    - by intros q q' t' [v Hv].
    - intros t' b q t1 (n & Hn & Hu) [= <-] (m & Hm & Hu'); congruence.
    - intros t' (n & Hn & Hu); cbn in Hu; set_solver. }
  destruct (Ho t Ht) as (p & Hp & [= <-]); by exists p.
Qed.

(** C7. Operations that run behind the queue do so one after the other, in the order in which
    they were asked for: at most one of those under way is about to make a call of its own,
    and its promise is the first of those that are open.  What each of them finds and leaves
    when it runs alone, however its calls answer, holds whenever none is at work.  The queue
    is never stuck: whatever operations threw, the one whose turn it is is under way and does
    not wait for a promise that is open. *)
Theorem mutation_queue_serializes w s :
  keeps w → rtc queue_step (createAsyncMutationQueue w, []) s →
  (busy s.1 = None → keeps (shared s.1)) ∧
  (∀ p q rest, s.2 ≡ₚ p :: q :: rest → works p → ¬ works q) ∧
  (∀ p, p ∈ s.2 → works p → ∃ n, ticket s.1 !! tag p = Some n ∧ n ∈ unsettled s.1 ∧ ∀ m, m ∈ unsettled s.1 → (n ≤ m)%nat) ∧
  (unsettled s.1 ≠ [] → ∃ p n, p ∈ s.2 ∧ ticket s.1 !! tag p = Some n ∧ head (unsettled s.1) = Some n ∧
                               ∀ m, waits m p → m ∉ unsettled s.1).
Proof.
  intros Hk Hr; pose proof (queue_sound w s Hk Hr) as (Hi & Hw & Hap); split; [by apply idle_keeps|].
  assert (∀ p, p ∈ s.2 → works p → holds (tag p) s.1) as Hholds.
  { clear -Hw Hi outside_pre; intros p Hp (B & e & k & E); rewrite Forall_forall in Hw; specialize (Hw p Hp); rewrite E in Hw.
    by destruct (Hw s.1 ltac:(reflexivity) Hi). }
  split; [|split].
  - intros p q rest Hp Hwp Hwq; assert (tag p = tag q) as Et.
    { eapply holds_one; [done| |]; (apply Hholds; [rewrite Hp; set_solver|done]). }
    rewrite (apart_proper _ _ _ Hp) in Hap; destruct Hap as [[Hne _]%Forall_cons _]; by destruct Hne.
  - intros p Hp Hwp; destruct (Hholds p Hp Hwp) as (n & Hn & Hh); exists n; split; [done|].
    destruct (first_unsettled _ n Hi Hh) as (l & E & _ & El & _); rewrite E; split; [by left|].
    intros m [-> |Hm]%elem_of_cons; [done|]; rewrite El in Hm; apply elem_of_seq in Hm; lia.
  - intros Hne; destruct (unsettled s.1) as [|n l] eqn:E; [done|]; destruct (tickets_owned _ Hi n) as [t Ht]; [rewrite E; by left|].
    destruct (queue_owned w s t Hk Hr) as (p & Hp & Et); [exists n; split; [done|rewrite E; by left]|].
    exists p, n; rewrite Et; split; [done|]; split; [done|]; split; [done|]; intros m [k Ek].
    rewrite Forall_forall in Hw; specialize (Hw p Hp); rewrite Ek in Hw; destruct (Hw s.1 ltac:(reflexivity) Hi) as [[Hm _] _].
    rewrite Et, Ht in Hm; injection Hm as ->; destruct (first_unsettled _ (S m) Hi) as (l' & E' & _ & El & _); [by rewrite E|].
    rewrite E in E'; injection E' as <-; rewrite El; intros [?|Hin]%elem_of_cons; [lia|]; apply elem_of_seq in Hin; lia.
Qed.
End Exclusion.
