(* ===== verification/CrewQueue.v ===== *)
(** * Requests about sessions behind the queue

    Any number of requests to archive, create and move sessions are made at any time; each
    runs behind the queue of configuration changes ([MutationQueue]).  The file then has at
    most one entry for a session, whatever fails: no request overwrites what another has
    written.  A session that the core has and has not archived is in the file as long as no
    reading, writing or archival was rejected and none failed after its effect. *)

From stdpp Require Import sets list gmap strings relations.
From S2P Require Import Prelude JsString Json JsonParse CodexText CodexEvents AsyncCalls CrewSessions CrewSessionsFacts MutationQueue.

(** ** The sessions of the file *)

Definition session_ids (entries : list json) : list string := omap entrySessionId entries.

(** The file can be changed, and [l] are the sessions it has entries for. *)
Definition sessions_of (o : record) : option (list string) :=
  match member o "sessions" with
  | JUndefined => Some []
  | JArray entries => Some (session_ids entries)
  | _ => None
  end.

Definition lists (v : json) (l : list string) : Prop := ∃ o, v = JObject o ∧ sessions_of o = Some l.

Lemma of_session_id s e : of_session s e = bool_decide (entrySessionId e = Some s).
Proof. done. Qed.

Lemma existsb_session s entries : existsb (of_session s) entries = bool_decide (s ∈ session_ids entries).
Proof.
  apply eq_bool_prop_intro; rewrite bool_decide_spec, Is_true_true, existsb_exists; unfold session_ids; rewrite list_elem_of_omap.
  split; intros (e & He & Hs); exists e; [|split; [by apply list_elem_of_In|by apply bool_decide_eq_true]].
  split; [by apply list_elem_of_In|by apply bool_decide_eq_true in Hs].
Qed.

Lemma session_ids_filter s entries :
  session_ids (List.filter (λ e, negb (of_session s e)) entries) = filter (λ x, x ≠ s) (session_ids entries).
Proof.
  unfold session_ids; induction entries as [|e entries IH]; [done|]; cbn [List.filter]; rewrite of_session_id.
  destruct (entrySessionId e) as [x|] eqn:E; [|rewrite bool_decide_false by done; cbn; rewrite E; exact IH].
  destruct (decide (x = s)) as [->|Hne]; cbn [omap list_omap].
  - rewrite bool_decide_true by done; cbn [negb]; rewrite IH; cbn; rewrite E, filter_cons_False by naive_solver; done.
  - rewrite bool_decide_false by naive_solver; cbn; rewrite E, filter_cons_True by done; by f_equal.
Qed.

Lemma author_first_ids s to l l' : author_first s to l = Some l' → session_ids l' = session_ids l.
Proof.
  revert l'; induction l as [|x l IH]; intros l'; [done|]; cbn [author_first].
  assert (∀ r, (x ::.) <$> author_first s to l = Some r → session_ids r = session_ids (x :: l)) as Hrest.
  { intros r (l1 & Hl & ->)%fmap_Some; unfold session_ids in *; cbn; by rewrite (IH _ Hl). }
  destruct (isRecord x) as [o|] eqn:Ex; [|apply Hrest]; destruct (of_session s x); [|apply Hrest].
  destruct x; try done; injection Ex as ->; injection 1 as <-; unfold session_ids; cbn -[entrySessionId author_cwd].
  assert (entrySessionId (JObject (author_cwd to o)) = entrySessionId (JObject o)) as ->; [|done].
  unfold entrySessionId, entrySessionRef, author_cwd; cbn [isRecord]; by rewrite !member_delete_ne, !member_set_ne by done.
Qed.

Lemma add_entry_ids x l :
  session_ids (add_session_entry x l) = if bool_decide (sessionId x ∈ session_ids l) then session_ids l else session_ids l ++ [sessionId x].
Proof.
  unfold add_session_entry; rewrite existsb_session; destruct (bool_decide _); [done|]; unfold session_ids; by rewrite omap_app.
Qed.

Lemma sessions_of_read o l entries o' : sessions_of o = Some l → array "sessions" o = Ok (entries, o') → session_ids entries = l.
Proof. unfold sessions_of, array; destruct (member o "sessions"); try done; injection 1 as <-; by injection 1 as <- _. Qed.

Lemma sessions_of_array o l : sessions_of o = Some l → ∃ entries o', array "sessions" o = Ok (entries, o') ∧ session_ids entries = l.
Proof. unfold sessions_of, array; destruct (member o "sessions"); try done; injection 1 as <-; by eexists _, _. Qed.

Lemma sessions_of_with l o : sessions_of (with_array "sessions" l o) = Some (session_ids l).
Proof. unfold sessions_of, with_array; by rewrite member_set_eq. Qed.

Lemma sessions_of_ne k v o : k ≠ "sessions" → sessions_of (map_set k v o) = sessions_of o.
Proof. intros; unfold sessions_of; by rewrite member_set_ne. Qed.

Lemma sessions_of_array_ne k l o : k ≠ "sessions" → sessions_of (with_array k l o) = sessions_of o.
Proof. apply sessions_of_ne. Qed.

Lemma detach_sessions plan s v l d removed :
  sessions_of v = Some l → detach_session plan s v = Ok (d, removed) → sessions_of d = Some (filter (λ x, x ≠ s) l).
Proof.
  intros Hv; unfold detach_session, removeEntriesBySessionId, removeEntriesByIds.
  intros ([l1 v1] & Ha & H)%bind_Ok; apply (sessions_of_read _ _ _ _ Hv) in Ha as Hids; apply array_ok in Ha as [_ E1]; revert H; rewrite removeEntries_all, E1.
  intros ([l2 v2] & [-> E2]%array_ok & H)%bind_Ok; revert H; rewrite removeEntries_all, E2.
  intros ([l3 v3] & [-> E3]%array_ok & H)%bind_Ok; revert H; rewrite removeEntries_all, E3.
  intros ([l4 v4] & [-> E4]%array_ok & H)%bind_Ok; revert H; rewrite removeEntries_all, E4.
  intros H; injection H as <- _; rewrite !sessions_of_array_ne by done; rewrite sessions_of_with, <- Hids.
  f_equal; apply session_ids_filter.
Qed.

Lemma sessions_default k d o : k ≠ "sessions" → sessions_of (with_default k d o) = sessions_of o.
Proof. intros Hk; unfold with_default; destruct d as [d|]; [|done]; destruct (member o k); try done; by apply sessions_of_ne. Qed.

Lemma sessions_of_defaults profilesDir skillsDir o : sessions_of (with_defaults profilesDir skillsDir o) = sessions_of o.
Proof. unfold with_defaults; rewrite sessions_default by done; by apply (sessions_default "profilesDir" (Some profilesDir)). Qed.

(** ** What the operations keep *)

Definition active (w : world) (s : string) : Prop := ∃ status, statuses w !! s = Some status ∧ status ≠ "archived".

(** The file lists [l], and the core's active sessions are among [F] as long as nothing was
    rejected that had to be done. *)
Definition tracked (l F : list string) (w : world) : Prop :=
  lists (authored w) l ∧ (mishaps w = [] → ∀ s, active w s → s ∈ F).

(** A file with one entry per session, and one for every active session. *)
Definition in_step (w : world) : Prop := ∃ l, NoDup l ∧ tracked l l w.

(** Besides the requests, sessions may end. *)
Definition steady (w w' : world) : Prop :=
  authored w' = authored w ∧ mishaps w' = mishaps w ∧ ∀ s, active w' s → active w s.

#[global] Instance steady_preorder : PreOrder steady.
Proof. split; unfold steady; [done|]; intros x y z (-> & -> & H1) (-> & -> & H2); eauto. Qed.

Lemma tracked_steady l F w w' : steady w w' → tracked l F w → tracked l F w'.
Proof. intros (Ea & Em & Hs) [Hl Hc]; unfold tracked; rewrite Ea, Em; split; [done|]; intros H s Ha; eauto. Qed.

Lemma tracked_mono l F G w : F ⊆ G → tracked l F w → tracked l G w.
Proof. intros HFG [Hl Hc]; split; [done|]; intros Hm s Hs; by apply HFG, Hc. Qed.

Section Tracking.
Context {core : CoreWorkspaces}.

Abbreviation safely := (ensures crew_handles steady).

Lemma steady_apply w w' : applies w w' → steady w w'.
Proof. intros (Ea & Hs & Em & _); split; [done|]; split; [done|]; intros s; unfold active; by rewrite Hs. Qed.

Lemma tracked_write l l' F v w r w' :
  sessions_of v = Some l' → tracked l F w → crew_handles () (WriteConfig v) w r w' →
  match r with Value _ => tracked l' F w' | Raise _ => ∀ G, tracked l G w' end.
Proof.
  intros Hv [Hl Hc] [Hw _]; cbn in Hw; destruct r; subst w'; [split; [by exists v|done]|]; intros G; split; done.
Qed.

Lemma tracked_archive l F s w r w' :
  tracked l F w → crew_handles CrewSession (ArchiveSession s) w r w' →
  match r with Value _ => tracked l (filter (λ x, x ≠ s) F) w' | Raise _ => ∀ G, tracked l G w' end.
Proof.
  intros [Hl Hc] [Hw _]; cbn in Hw; destruct r as [x|x]; [subst w'|by destruct Hw as [-> | ->]].
  split; [done|]; intros Hm s' (st & Hst & Hne); cbn in Hst; apply lookup_insert_Some in Hst as [[<- <-]|[Hs Hst]]; [done|].
  apply list_elem_of_filter; split; [done|]; apply (Hc Hm); by exists st.
Qed.

Lemma tracked_update l F s to n t w r w' : tracked l F w → crew_handles _ (UpdateSessionWorkspace s to n t) w r w' → tracked l F w'.
Proof.
  intros [Hl Hc] [Hu _]; cbn in Hu.
  assert (∀ u w1, workspace_update s to n w u w1 → authored w1 = authored w ∧ mishaps w1 = mishaps w ∧ statuses w1 = statuses w) as Hw.
  { intros u w1 (c & _ & _ & _ & H); by destruct (String.eqb _ _), H as [_ ->]. }
  destruct r as [u|x]; [|destruct Hu as [->|(u & w1 & Hu & ->)]; [done|]]; apply Hw in Hu as (Ea & Em & Es).
  - split; [by rewrite Ea|]; unfold active; by rewrite Em, Es.
  - split; [cbn; by rewrite Ea|done].
Qed.

(** The file is read as [value], which has the same sessions; when it cannot be read, that is
    remembered. *)
Lemma safely_config profilesDir skillsDir l F w :
  tracked l F w →
  safely (readRuntimeConfigFileForMutation profilesDir skillsDir)
    (λ r w', match r with
             | Value value => tracked l F w' ∧ sessions_of value = Some l
             | Raise _ => ∀ G, tracked l G w'
             end) w.
Proof.
  intros Ht; unfold readRuntimeConfigFileForMutation; apply ensures_bind, ensures_await; intros w1 M1 r w2 [Hs _]; cbn in Hs.
  apply (tracked_steady _ _ _ _ M1) in Ht; destruct Ht as [(o & Ho & Hl) Hc]; destruct r as [v|x].
  - destruct Hs as [-> ->]; rewrite Ho; cbn [isRecord]. split; [by split; [exists o|]|].
    change (sessions_of (with_defaults profilesDir skillsDir o) = Some l); by rewrite sessions_of_defaults.
  - subst w2; intros G; split; [by exists o|done].
Qed.

(** A part of an operation that only reads. *)
Lemma safely_reading E {A B} (m : Crew A) (f : A → Crew B) P Q l F w :
  only_reads steady E m P → tracked l F w →
  (∀ a w', tracked l F w' → P w' a → safely (f a) Q w') → (∀ x w', tracked l F w' → Q (Raise x) w') → safely (m ≫= f) Q w.
Proof.
  intros Hm Ht Hf Hx; apply ensures_bind; eapply ensures_mono; [|apply Hm].
  intros [a|x] w1 [M1 H]; apply (tracked_steady _ _ _ _ M1) in Ht; eauto.
Qed.

Lemma safely_valid {B} value (f : RuntimePlan → Crew B) Q l F w :
  tracked l F w → (∀ p w', tracked l F w' → safely (f p) Q w') → (∀ x w', tracked l F w' → Q (Raise x) w') →
  safely (assertValidRuntimeConfig value ≫= f) Q w.
Proof. intros Ht Hf Hx; eapply safely_reading; [apply (only_reads_assertValid steady)|done|eauto|done]. Qed.

Lemma safely_apply e p l F w : tracked l F w → safely (await (ApplyConfig e p)) (λ _ w', tracked l F w') w.
Proof. intros Ht; apply ensures_await; intros w1 M1 r w2 [Ha _]; apply (tracked_steady _ _ w1); [by apply steady_apply|by apply (tracked_steady _ _ w)]. Qed.

Lemma safely_effort {A B} (m : Crew A) (f : () → Crew B) (P : world → Prop) Q w :
  safely m (λ _ w', P w') w → (∀ w', P w' → safely (f ()) Q w') → safely (best_effort m ≫= f) Q w.
Proof.
  intros Hm Hf; apply ensures_bind; unfold best_effort; apply ensures_bind, ensures_attempt; eapply ensures_mono; [|exact Hm].
  intros r w' HP; by apply Hf.
Qed.

(** *** Moving *)

Section Switch.
Context (l : list string).

Abbreviation keeps_list := (λ _ w', tracked l l w').

Lemma safely_settle input prev x comp c w :
  sessions_of prev = Some l → tracked l l w → safely (settle_switch input prev x comp c) keeps_list w.
Proof.
  intros Hp Ht; unfold settle_switch, author_config; revert Hp; unfold sessions_of.
  destruct (member prev "sessions") as [| | | | |entries|]; try done; intros Hp; injection Hp as Hp.
  destruct (author_first _ _ entries) as [l'|] eqn:Hl; [|done]; cbn [fmap option_fmap option_map].
  apply ensures_bind, ensures_attempt, (safely_valid _ _ _ l l); [done| |done]; intros p w1 Ht1.
  apply ensures_await; intros w2 M2 r w3 Hw; apply (tracked_steady _ _ _ _ M2) in Ht1.
  eapply tracked_write in Hw; [|apply sessions_of_with|exact Ht1]; rewrite (author_first_ids _ _ _ _ Hl), Hp in Hw.
  destruct r as [[]|y]; [|by apply Hw]; apply ensures_bind, ensures_attempt.
  destruct comp; (eapply ensures_mono; [|by apply (safely_apply _ _ l l)]); by intros [j|y] w4 H4.
Qed.

Lemma safely_finish input prev v u w :
  sessions_of prev = Some l → sessions_of v = Some l → tracked l l w → safely (finish_switch input prev v u) keeps_list w.
Proof.
  intros Hp Hv Ht.
  assert (∀ x w, tracked l l w → safely (if String.eqb (cwd (current u)) (cwd (previous u)) then raise x else compensate_switch input prev u x) keeps_list w) as Hback.
  { clear w Ht; intros x w Ht; destruct (String.eqb _ _); [done|]; apply ensures_bind, ensures_await; intros w1 M1 r w2 [[-> [t ->]] _].
    apply (tracked_steady _ _ _ _ M1) in Ht; apply ensures_bind, ensures_attempt, ensures_await; intros w2 M2 r w3 Hu.
    eapply tracked_update in Hu; [|by eapply tracked_steady]; apply ensures_bind, ensures_attempt, ensures_bind, ensures_await.
    intros w4 M4 q w5 [[-> _] _]; apply (tracked_steady _ _ _ _ M4) in Hu; destruct q as [s|y]; [|done].
    cbn beta iota; destruct (workspace s); [|done]; by apply safely_settle. }
  unfold finish_switch; apply ensures_bind, ensures_attempt, ensures_bind, ensures_await; intros w1 M1 r w2 Hw.
  eapply tracked_write in Hw; [|exact Hv|by eapply tracked_steady]; destruct r as [[]|x]; [|by apply Hback].
  eapply ensures_mono; [|by apply (safely_apply _ _ l l)]; intros [j|x] w3 H3; [done|by apply Hback].
Qed.

Lemma safely_switch profilesDir skillsDir input w : tracked l l w → safely (switchCrewSessionWorkspace profilesDir skillsDir input) keeps_list w.
Proof.
  intros Ht; unfold switchCrewSessionWorkspace; apply ensures_bind; eapply ensures_mono; [|by apply (safely_config _ _ l l)].
  intros [v|x] w1 H1; [destruct H1 as [Ht1 Hv]|apply H1]; eapply safely_reading; [apply (only_reads_lift steady)|exact Ht1| |done]; clear w1 Ht1.
  intros [entries o] w1 Ht1 Ha; apply (sessions_of_read _ _ _ _ Hv) in Ha; cbn beta iota.
  destruct (author_first _ _ entries) as [l'|] eqn:Hl; [|done]; cbn zeta; apply (safely_valid _ _ _ l l); [done| |done].
  intros p w2 Ht2; apply ensures_bind, ensures_await; intros w3 M3 r w4 [[-> [t ->]] _]; apply (tracked_steady _ _ _ _ M3) in Ht2.
  apply ensures_bind, ensures_await; intros w4 M4 r w5 Hu; eapply tracked_update in Hu; [|by eapply tracked_steady].
  destruct r as [u|x]; [|done]; apply safely_finish; [done| |done]; by rewrite sessions_of_with, (author_first_ids _ _ _ _ Hl), Ha.
Qed.
End Switch.

(** *** Archiving *)

Section Archive.
Context (profilesDir : string) (skillsDir : option string) (has_chat : bool).

Lemma safely_commit input s l F w :
  tracked l F w →
  safely (commit_archive has_chat input s)
    (λ r w', match r with Value _ => tracked l (filter (λ x, x ≠ s) F) w' | Raise _ => tracked l F w' end) w.
Proof.
  intros Ht; unfold commit_archive; apply ensures_bind.
  assert (∀ (c : option string) w, tracked l F w → safely (archived ← await (ArchiveSession s); mret (c, archived))
    (λ r w', match r with Value _ => tracked l (filter (λ x, x ≠ s) F) w' | Raise _ => tracked l F w' end) w) as Hgo.
  { clear w Ht; intros c w Ht; apply ensures_bind, ensures_await; intros w1 M1 r w2 Ha.
    eapply tracked_archive in Ha; [|by eapply tracked_steady]; destruct r; [done|apply Ha]. }
  destruct (_ && _); [|by apply Hgo]; apply ensures_bind, ensures_await; intros w1 M1 r w2 [-> _].
  apply (tracked_steady _ _ _ _ M1) in Ht; destruct r; [by apply Hgo|done].
Qed.

Lemma tracked_in_step l F w : NoDup l → F ⊆ l → tracked l F w → in_step w.
Proof. intros Hn HF Ht; exists l; split; [done|by eapply tracked_mono]. Qed.

Lemma safely_roll_back l l' v e p (x : crew_error) w :
  NoDup l → NoDup l' → sessions_of v = Some l → tracked l' l w →
  safely (best_effort (await (WriteConfig v)) ≫= λ _, best_effort (await (ApplyConfig e p)) ≫= λ _,
          fails "crew_session_archive_commit_failed" (errorMessage x) true : Crew ArchiveCrewSessionResult)
    (λ _ w', in_step w') w.
Proof.
  intros Hn Hn' Hv Ht; apply (safely_effort _ _ in_step).
  - apply ensures_await; intros w1 M1 r w2 Hw; eapply tracked_write in Hw; [|done|by eapply tracked_steady].
    destruct r; [by apply (tracked_in_step l l)|by apply (tracked_in_step l' l')].
  - intros w1 (k & Hk & Hk'); apply (safely_effort _ _ in_step); [|done].
    eapply ensures_mono; [|by apply (safely_apply _ _ k k)]; intros r w2 H2; by exists k.
Qed.

Lemma safely_archive input w : in_step w → safely (archiveCrewSession profilesDir skillsDir has_chat input) (λ _ w', in_step w') w.
Proof.
  intros (l & Hn & Ht); assert (∀ w, tracked l l w → in_step w) as Hin by (intros; by exists l); unfold archiveCrewSession.
  eapply safely_reading; [apply (only_reads_await steady _ (λ _ _, True)); by intros ? ? ? [-> _]|exact Ht| |auto]; clear w Ht; intros session w Ht _.
  set (s := sessionId session); destruct (negb (_ || _)); [by apply Hin|]; destruct (String.eqb _ "archived"); [by apply Hin|].
  eapply safely_reading; [apply (only_reads_await steady _ (λ _ _, True)); by intros ? ? ? [-> _]|exact Ht| |auto]; clear w Ht; intros busy w Ht _.
  destruct busy; [by apply Hin|]; apply ensures_bind; eapply ensures_mono; [|by apply (safely_config _ _ l l)]; clear w Ht.
  intros [v|x] w H; [destruct H as [Ht Hv]|by apply Hin]; apply (safely_valid _ _ _ l l); [done| |auto]; clear w Ht; intros plan w Ht.
  eapply safely_reading; [apply (only_reads_lift steady)|exact Ht| |auto]; clear w Ht; intros [d removed] w Ht Hd; cbn beta iota.
  apply (detach_sessions _ _ _ _ _ _ Hv) in Hd; apply (safely_valid _ _ _ l l); [done| |auto]; clear w Ht; intros plan' w Ht.
  apply ensures_bind, ensures_await; intros w1 M1 r w2 Hw; eapply tracked_write in Hw; [|exact Hd|by eapply tracked_steady].
  destruct r as [[]|x]; [|by apply Hin]; set (l' := filter _ l) in *; assert (NoDup l') as Hn' by (by apply NoDup_filter).
  apply ensures_bind, ensures_attempt; eapply ensures_mono; [|by apply (safely_commit _ _ l' l)].
  intros [[c a]|x] w3 H3; [|by apply (safely_roll_back l l')].
  eapply safely_reading; [apply (only_reads_mark steady)|exact H3| |]; [clear w3 H3; intros [] w3 H3 _|intros; by apply (tracked_in_step l' l')].
  apply ensures_bind; eapply ensures_mono; [|by apply (safely_apply _ _ l' l')]; intros [j|x] w4 H4; by apply (tracked_in_step l' l').
Qed.
End Archive.

(** *** Creating *)

Section Create.
Context (profilesDir : string) (skillsDir : option string).

(** The file is written, with the session, or not. *)
Lemma safely_apply_creation x v l F w :
  sessions_of v = Some l → ∀ k, tracked k F w →
  safely (apply_creation x v) (λ r w', match r with Value _ => tracked l F w' | Raise _ => tracked k F w' ∨ tracked l F w' end) w.
Proof.
  intros Hv k Ht; unfold apply_creation; eapply safely_reading; [apply (only_reads_lift steady)|exact Ht| |by left]; clear w Ht.
  intros [mcps v1] w Ht [-> Ev]%array_ok; cbn beta iota.
  eapply safely_reading; [apply (only_reads_restore steady)|exact Ht| |by left]; clear w Ht; intros [mcps ids] w Ht _; cbn beta iota; rewrite Ev.
  apply (safely_valid _ _ _ k F); [done| |by left]; clear w Ht; intros p w Ht; apply ensures_bind, ensures_await; intros w1 M1 r w2 Hw.
  eapply tracked_write in Hw; [|by rewrite sessions_of_array_ne|by eapply tracked_steady].
  destruct r as [[]|y]; [|by left]; apply ensures_bind; eapply ensures_mono; [|by apply (safely_apply _ _ l F)].
  intros [j|y] w3 H3; [|by right]; apply ensures_bind; destruct ids as [|id ids]; [done|]; apply ensures_await; intros w4 M4 r w5 [-> _].
  apply (tracked_steady _ _ _ _ M4) in H3; destruct r as [[]|y]; [done|by right].
Qed.

Lemma safely_archive_away x l l' F w :
  NoDup l → NoDup l' → F ⊆ sessionId x :: l → l ⊆ l' → tracked l F w ∨ tracked l' [] w ∨ tracked l' F w →
  safely (best_effort (await (ArchiveSession (sessionId x))) ≫= λ _, best_effort (markProfileSessionRefArchived x)) (λ r w', r = Value () ∧ in_step w') w.
Proof.
  intros Hn Hn' HF Hl Ht; assert (∀ k, l ⊆ k → filter (λ y, y ≠ sessionId x) F ⊆ k) as Hfilter.
  { intros k Hk y [Hy HyF]%list_elem_of_filter; apply HF in HyF; set_solver. }
  assert (∃ k G, NoDup k ∧ tracked k G w ∧ filter (λ y, y ≠ sessionId x) G ⊆ k) as (k & G & Hk & Hkt & HG).
  { destruct Ht as [?|[?|?]]; [exists l, F|exists l', []|exists l', F]; split; try done; split; try done; [by apply Hfilter|set_solver|by apply Hfilter]. }
  apply (safely_effort _ _ in_step).
  - apply ensures_await; intros w1 M1 r w2 Ha; eapply tracked_archive in Ha; [|by eapply tracked_steady].
    destruct r; [by eapply tracked_in_step|by apply (tracked_in_step k k)].
  - clear -core; intros w (k & Hk & Ht); unfold best_effort; apply ensures_bind, ensures_attempt; eapply ensures_mono;
      [|apply (only_reads_mark steady)].
    intros r w1 [M1 _]; split; [done|]; exists k; split; [done|by eapply tracked_steady].
Qed.

(** Taking the creation back. *)
Lemma safely_uncreate x outcome_ v l l' F e p y w :
  NoDup l → NoDup l' → l ⊆ l' → F ⊆ sessionId x :: l → F ⊆ l' → (outcome_ = replayed → F ⊆ l) →
  sessions_of v = Some l → tracked l F w ∨ tracked l' F w →
  safely
    (best_effort (await (WriteConfig v)) ≫= λ _,
     (match outcome_ with
      | replayed => mret ()
      | _ => best_effort (await (ArchiveSession (sessionId x))) ≫= λ _, best_effort (markProfileSessionRefArchived x)
      end) ≫= λ _,
     best_effort (await (ApplyConfig e p)) ≫= λ _,
     fails "crew_agent_session_creation_runtime_apply_failed" (errorMessage y) true : Crew (CreationRecord * json))
    (λ _ w', in_step w') w.
Proof.
  intros Hn Hn' Hl HF HF' Hrep Hv Ht; apply (safely_effort _ _ (λ w', tracked l F w' ∨ tracked l' [] w' ∨ tracked l' F w')).
  { apply ensures_await; intros w1 M1 r w2 Hw; destruct Ht as [Ht|Ht];
      (eapply tracked_write in Hw; [|exact Hv|by eapply tracked_steady]); (destruct r; [by left|]); [by left|right; by left]. }
  clear w Ht; intros w Ht; apply ensures_bind, (ensures_mono _ _ _ (λ r w', r = Value () ∧ in_step w')).
  - intros r w1 (-> & k & Hk & Hkt); apply (safely_effort _ _ in_step); [|done].
    eapply ensures_mono; [|by apply (safely_apply _ _ k k)]; intros r w2 H2; by exists k.
  - assert (outcome_ = replayed → in_step w) as Hreplayed.
    { intros E; destruct Ht as [?|[?|?]]; [apply (tracked_in_step l F)|apply (tracked_in_step l' [])|apply (tracked_in_step l' F)]; auto; set_solver. }
    destruct outcome_; [|split; [done|by apply Hreplayed]|]; by apply (safely_archive_away x l l' F).
Qed.

(** What the core has created. *)
Lemma tracked_created c request l w w' :
  tracked l l w → crew_handles _ (CreateCrewAgentSession request) w (Value c) w' →
  ∃ F, tracked l F w' ∧ F ⊆ sessionId (creation_session c) :: l ∧ (creation_outcome c = replayed → F ⊆ l).
Proof.
  intros [Hl Hc] [[_ H] _]; cbn in H; set (s := sessionId (creation_session c)) in *.
  assert (authored w' = authored w ∧ mishaps w' = mishaps w ∧ statuses w' = <[s := session_status (creation_session c)]> (statuses w) →
    tracked l (s :: l) w') as Hnew.
  { intros (Ea & Em & Es); split; [by rewrite Ea|]; rewrite Em; intros Hm s' (st & Hst & Hne); rewrite Es in Hst.
    apply lookup_insert_Some in Hst as [[<- _]|[_ Hst]]; [by left|right; apply (Hc Hm); by exists st]. }
  destruct (creation_outcome c) eqn:E.
  - exists (s :: l); split; [by apply Hnew|by split].
  - exists l; subst w'; split; [done|]; split; [set_solver|done].
  - exists (s :: l); split; [by apply Hnew|by split].
Qed.

Lemma safely_create request w : in_step w → safely (createFreshCrewSession profilesDir skillsDir request) (λ _ w', in_step w') w.
Proof.
  intros (l & Hn & Ht); unfold createFreshCrewSession.
  apply ensures_bind, ensures_catch, ensures_await; intros w1 M1 r w2 Hc; apply (tracked_steady _ _ _ _ M1) in Ht.
  destruct r as [creation|x]; [|destruct Hc as [-> _]; by exists l]; apply (tracked_created _ _ l) in Hc as (F & Hf & HF & Hrep); [|done].
  set (x := creation_session creation) in *; cbn beta iota zeta; apply ensures_bind; eapply ensures_mono; [|by apply (safely_config _ _ l F)].
  clear w w1 w2 M1 Ht Hf; intros [v|y] w H; [destruct H as [Ht Hv]|by exists l]; destruct (sessions_of_array _ _ Hv) as (entries & o & Ha & Hids).
  apply ensures_bind; rewrite Ha; change (ensures crew_handles steady (lift (Ok (entries, o))) ?Q ?w) with (Q (Value (entries, o)) w); cbv beta iota.
  apply array_ok in Ha as [_ Ho]; rewrite Ho; set (v' := with_array "sessions" _ v).
  set (l' := if bool_decide (sessionId x ∈ l) then l else l ++ [sessionId x]).
  assert (sessions_of v' = Some l') as Hv' by (unfold v'; rewrite sessions_of_with, add_entry_ids, Hids; done).
  assert (NoDup l' ∧ l ⊆ l' ∧ F ⊆ l') as (Hn' & Hl & HF').
  { unfold l'; case_bool_decide as Hin; [split; [done|]; split; [done|]; intros y Hy; apply HF in Hy; set_solver|].
    split; [apply NoDup_app; split; [done|]; split; [set_solver|apply NoDup_singleton]|]; set_solver. }
  apply ensures_bind, ensures_attempt; eapply ensures_mono; [|by apply (safely_apply_creation x v' l' F w Hv' l)].
  intros [j|y] w3 H3; [by apply (tracked_in_step l' F)|]; by apply (safely_uncreate x (creation_outcome creation) v l l' F).
Qed.
End Create.
End Tracking.

(** ** Requests *)

Inductive crew_request :=
| ArchiveRequest (input : ArchiveInput)
| CreateRequest (request : CreationRequest)
| SwitchRequest (input : SwitchInput).

Section Requests.
Context {core : CoreWorkspaces}.
Context (profilesDir : string) (skillsDir : option string) (has_chat : bool).

(** A request as the service runs it. *)
Definition request_process (t : nat) (q : crew_request) : process nat crew_error (QueueCall CrewCall) :=
  match q with
  | ArchiveRequest input => Process t (withAsyncMutationQueue t (archiveCrewSession profilesDir skillsDir has_chat input))
  | CreateRequest request => Process t (withAsyncMutationQueue t (createFreshCrewSession profilesDir skillsDir request))
  | SwitchRequest input => Process t (withAsyncMutationQueue t (switchCrewSessionWorkspace profilesDir skillsDir input))
  end.

Definition request_starts (q : queue world) (p : process nat crew_error (QueueCall CrewCall)) : Prop :=
  ∃ t request, p = request_process t request ∧ ticket q !! t = None.

Abbreviation request_step := (step (queue_handles crew_handles) (queue_outside steady) request_starts (λ t t', t ≠ t') false).

Lemma request_starts_well q p : request_starts q p → queue_starts crew_handles steady in_step q p.
Proof.
  intros (t & [input|request|input] & -> & Ht); eexists t, _, _; (split; [done|]); (split; [done|]); intros w Hw.
  - by apply safely_archive.
  - by apply safely_create.
  - destruct Hw as (l & Hn & Hl); eapply ensures_mono; [|by apply (safely_switch l)]; intros r w' H; by exists l.
Qed.

Lemma request_steps s s' :
  rtc request_step s s' → rtc (step (queue_handles crew_handles) (queue_outside steady) (queue_starts crew_handles steady in_step) (λ t t', t ≠ t') false) s s'.
Proof.
  induction 1 as [s|s s1 s' Hs _ IH]; [done|]; eapply rtc_l; [|exact IH]; destruct Hs as [w ps p Hp Hb|w w' ps rest t A B e k r|w ps p rest|w w' ps].
  - apply step_start; [by apply request_starts_well|done].
  - by eapply step_call.
  - by eapply step_end.
  - by apply step_outside.
Qed.

Lemma in_step_steady w w' : steady w w' → in_step w → in_step w'.
Proof. intros Hs (l & Hn & Hl); exists l; split; [done|by eapply tracked_steady]. Qed.

End Requests.

(** ** A run *)

Module QueueExample.
Import CrewExample.
#[local] Existing Instance example_core.

Definition first : process nat crew_error (QueueCall CrewCall) := request_process "/profiles" None true 1 (SwitchRequest move).
Definition second : process nat crew_error (QueueCall CrewCall) := request_process "/profiles" None true 2 (ArchiveRequest leave).

Lemma home_in_step : in_step at_home.
Proof.
  exists ["a"; "b"]; split; [by apply (bool_decide_unpack _)|]; split; [by eexists|].
  intros _ s (st & Hst & _); change (({["a" := "idle"]} : gmap string string) !! s = Some st) in Hst; apply lookup_singleton_Some in Hst as [<- _]; by left.
Qed.

(** Both requests are made, and the second waits behind the first. *)
Lemma both_requested : ∃ s,
  rtc (step (queue_handles crew_handles) (queue_outside steady) (request_starts "/profiles" None true) (λ t t', t ≠ t') false)
    (createAsyncMutationQueue at_home, []) s ∧ busy s.1 = None ∧ unsettled s.1 = [1; 2].
Proof.
  eexists (queued 2 (queued 1 (createAsyncMutationQueue at_home)), _); split; [|done].
  eapply rtc_l; [apply (step_start _ _ _ _ _ _ _ first); [by exists 1, (SwitchRequest move)|done]|].
  eapply rtc_l; [apply (step_start _ _ _ _ _ _ _ second); [by exists 2, (ArchiveRequest leave)|by repeat constructor]|].
  eapply rtc_l; [eapply (step_call _ _ _ _ _ _ _ _ [second] 1); [apply Permutation_swap|by split]|].
  eapply rtc_l; [eapply (step_call _ _ _ _ _ _ _ _ [_] 2); [apply Permutation_swap|by split]|].
  apply rtc_refl.
Qed.


Lemma mutation_queue_serializes_witness : ∃ s : pool,
  rtc (step (queue_handles crew_handles) (queue_outside steady) (request_starts "/profiles" None true) (λ t t', t ≠ t') false)
    (createAsyncMutationQueue at_home, []) s ∧
  (∀ p q rest, s.2 ≡ₚ p :: q :: rest → works p → ¬ works q) ∧
  ∃ p n, p ∈ s.2 ∧ ticket s.1 !! tag p = Some n ∧ head (unsettled s.1) = Some n ∧ ∀ m, waits m p → m ∉ unsettled s.1.
Proof.
  destruct both_requested as (s & Hs & _ & Hu); exists s; split; [exact Hs|].
  destruct (mutation_queue_serializes crew_handles steady in_step in_step_steady at_home s home_in_step (request_steps "/profiles" None true _ _ Hs))
    as (_ & H2 & _ & H3); split; [exact H2|]; apply H3; rewrite Hu; discriminate.
Defined.
End QueueExample.
