(* ===== verification/Curator.v ===== *)
(** * The curator's governance store and lifecycle

    [MemoryCuratorGovernanceStore] and [FileCuratorGovernanceStore] of
    [ts/packages/brain-island/src/curator-mutations.ts] with the governance requests that
    act on them, and [curator-lifecycle.ts].  The planner of the Rust core, the skill
    tool, the files of a skill and the text of the state file are arguments. *)

From Stdlib Require QArith.
From stdpp Require Import sets.
From S2P Require Import Prelude JsString JsDate.
#[local] Open Scope Z_scope.

(** ** Data *)

Record CuratorCandidateSourceRef := { ref_kind : string; ref_ref : string; ref_hash : option string }.

Inductive CuratorMutationOperation :=
| skill_patch (slug : string) (content oldString newString : option string)
| skill_create (slug content : string)
| skill_archive (slug absorbedInto : string)
| sidecar_write (slug filePath fileContent : string).

(** [mutation.type] *)
Definition operation_type (o : CuratorMutationOperation) : string :=
  match o with
  | skill_patch _ _ _ _ => "skill_patch"
  | skill_create _ _ => "skill_create"
  | skill_archive _ _ => "skill_archive"
  | sidecar_write _ _ _ => "sidecar_write"
  end.

Inductive CuratorStoredCandidateStatus := proposed | previewed | approved | applied.
#[global] Instance status_eq : EqDecision CuratorStoredCandidateStatus.
Proof. solve_decision. Defined.

Inductive CuratorCandidateLifecycleState := active | stale | archived.
#[global] Instance lifecycle_state_eq : EqDecision CuratorCandidateLifecycleState.
Proof. solve_decision. Defined.

Record CuratorCandidate := {
  candidateId : string;
  batchId : string;
  kind : string;
  sourceRefs : list CuratorCandidateSourceRef;
  targetRef : string;
  summary : string;
  severity : string;
  confidence : QArith_base.Q;
  proposedAction : string;
  previewSummary : string;
  fingerprint : string;
  candidate_status : CuratorStoredCandidateStatus;
  rollbackSupported : bool
}.

(** [interface CuratorMutationCandidate extends CuratorCandidate] *)
Record CuratorMutationCandidate := {
  base : CuratorCandidate;
  mutation : CuratorMutationOperation;
  expiresAt : option string
}.
Coercion base : CuratorMutationCandidate >-> CuratorCandidate.

Record CuratorCandidateBatch := {
  batch_id : string;
  batch_scopeType : string;
  batch_scopeId : string;
  batch_profileId : option string;
  generatedAt : string;
  batch_dryRun : bool;
  candidateCount : Z;
  reportId : string;
  batch_candidates : list CuratorCandidate;
  skippedReasons : list string
}.

Record CuratorApprovalRecord := {
  approval_candidateId : string;
  approval_actorId : option string;
  approval_reason : string;
  approvedAt : string;
  approval_fingerprint : string
}.

Record CuratorCandidateLifecycle := {
  lifecycle_state : CuratorCandidateLifecycleState;
  reasonCode : option string;
  lastTransitionAt : option string;
  staleAt : option string;
  archivedAt : option string;
  reactivatedAt : option string
}.

Record CuratorStoredCandidate := {
  candidate : CuratorMutationCandidate;
  approval : option CuratorApprovalRecord;
  previewedAt : option string;
  status : CuratorStoredCandidateStatus;
  lifecycle : option CuratorCandidateLifecycle
}.

Inductive CuratorMutationStatus := mutation_applied | mutation_failed | rolled_back | rollback_failed.

(** The members of [SkillManagementResult] that the curator reads. *)
Record SkillManagementResult := {
  manage_action : string;
  manage_slug : string;
  changed : bool;
  skillPath : option string;
  sidecarPath : option string;
  filePath : option string;
  archivePath : option string;
  sidecarArchivePath : option string
}.

(** [changedPaths] *)
Definition changed_paths (m : SkillManagementResult) : list string :=
  omap (λ p, if truthy p then p else None)
    [skillPath m; sidecarPath m; filePath m; archivePath m; sidecarArchivePath m].

Section Snapshots.
(** [CuratorSnapshotRef] *)
Context {SnapshotRef : Type}.

Record CuratorMutationRecord := {
  mutationId : string;
  mutation_candidateId : string;
  mutation_action : string;
  mutation_actorId : option string;
  mutation_reason : string;
  appliedAt : string;
  mutation_status : CuratorMutationStatus;
  mutation_snapshot : SnapshotRef;
  rollbackRef : option string;
  changedPaths : list string;
  management : option SkillManagementResult;
  mutation_error : option string
}.

(** ** [MemoryCuratorGovernanceStore] *)

Record Store := {
  batches : jsmap string CuratorCandidateBatch;
  candidates : jsmap string CuratorStoredCandidate;
  mutations : jsmap string CuratorMutationRecord
}.

Definition empty_store : Store := {| batches := []; candidates := []; mutations := [] |}.

Definition set_candidate (id : string) (c : CuratorStoredCandidate) (s : Store) : Store :=
  {| batches := batches s; candidates := map_set id c (candidates s); mutations := mutations s |}.

Definition requiredCandidate (s : Store) (id : option string) : result CuratorStoredCandidate :=
  match id with
  | None | Some "" => Throw "curator_candidate_id_required"
  | Some id =>
      match map_get id (candidates s) with
      | Some c => Ok c
      | None => Throw "curator_candidate_not_found"
      end
  end.

Definition upsertCandidate (c : CuratorMutationCandidate) (s : Store) : Store :=
  let existing := map_get (candidateId c) (candidates s) in
  set_candidate (candidateId c)
    {| candidate := c; approval := existing ≫= approval; previewedAt := existing ≫= previewedAt;
       status := match existing with Some e => status e | None => candidate_status c end;
       lifecycle := None |} s.

Definition upsertBatch (b : CuratorCandidateBatch) (cs : list CuratorMutationCandidate) (s : Store) : Store :=
  fold_left (λ s c, upsertCandidate c s) cs
    {| batches := map_set (batch_id b) b (batches s); candidates := candidates s; mutations := mutations s |}.

Definition approve (id : string) (a : CuratorApprovalRecord) (s : Store) : result Store :=
  c ← requiredCandidate s (Some id);
  Ok (set_candidate id {| candidate := candidate c; approval := Some a; previewedAt := previewedAt c;
                          status := approved; lifecycle := lifecycle c |} s).

Definition recordPreview (id at_ : string) (s : Store) : result Store :=
  c ← requiredCandidate s (Some id);
  Ok (set_candidate id {| candidate := candidate c; approval := approval c; previewedAt := Some at_;
                          status := previewed; lifecycle := lifecycle c |} s).

(** The mutation is recorded before the candidate is looked up: the store is returned
    with the error. *)
Definition recordApplied (r : CuratorMutationRecord) (s : Store) : Store * result unit :=
  let s1 := {| batches := batches s; candidates := candidates s;
               mutations := map_set (mutationId r) r (mutations s) |} in
  match requiredCandidate s1 (Some (mutation_candidateId r)) with
  | Throw e => (s1, Throw e)
  | Ok c =>
      (set_candidate (mutation_candidateId r)
         {| candidate := candidate c; approval := approval c; previewedAt := previewedAt c;
            status := applied; lifecycle := lifecycle c |} s1, Ok ())
  end.

Definition recordRollback (id : string) (st : CuratorMutationStatus) (s : Store) : result Store :=
  match map_get id (mutations s) with
  | None => Throw "curator_mutation_not_found"
  | Some r =>
      Ok {| batches := batches s; candidates := candidates s;
            mutations := map_set id
              {| mutationId := mutationId r; mutation_candidateId := mutation_candidateId r;
                 mutation_action := mutation_action r; mutation_actorId := mutation_actorId r;
                 mutation_reason := mutation_reason r; appliedAt := appliedAt r; mutation_status := st;
                 mutation_snapshot := mutation_snapshot r;
                 rollbackRef := Some ("curator-rollback:" +:+ id);
                 changedPaths := changedPaths r; management := management r;
                 mutation_error := mutation_error r |} (mutations s) |}
  end.

Definition with_lifecycle (l : CuratorCandidateLifecycle) (c : CuratorStoredCandidate) : CuratorStoredCandidate :=
  {| candidate := candidate c; approval := approval c; previewedAt := previewedAt c; status := status c;
     lifecycle := Some l |}.

Definition updateCandidateLifecycle (id : string) (l : CuratorCandidateLifecycle) (s : Store) : result Store :=
  c ← requiredCandidate s (Some id);
  Ok (set_candidate id (with_lifecycle l c) s).

(** *** Snapshots of the store *)

Record StoreSnapshot := {
  schemaVersion : Z;
  snapshot_batches : list CuratorCandidateBatch;
  snapshot_candidates : list CuratorStoredCandidate;
  snapshot_mutations : list CuratorMutationRecord
}.

Definition snapshot (s : Store) : StoreSnapshot :=
  {| schemaVersion := 1; snapshot_batches := map_values (batches s);
     snapshot_candidates := map_values (candidates s); snapshot_mutations := map_values (mutations s) |}.

Definition replaceSnapshot (p : StoreSnapshot) : result Store :=
  if negb (schemaVersion p =? 1) then Throw "curator_store_schema_unsupported"
  else Ok {| batches := map_of_entries (map (λ b, (batch_id b, b)) (snapshot_batches p));
             candidates := map_of_entries (map (λ c, (candidateId (candidate c), c)) (snapshot_candidates p));
             mutations := map_of_entries (map (λ m, (mutationId m, m)) (snapshot_mutations p)) |}.

Definition new_store (p : option StoreSnapshot) : result Store :=
  match p with Some p => replaceSnapshot p | None => Ok empty_store end.
End Snapshots.
Arguments CuratorMutationRecord : clear implicits.
Arguments Store : clear implicits.
Arguments StoreSnapshot : clear implicits.

(** ** Governance requests *)

Inductive CuratorExecuteAction := request_scan | preview_candidate | approve_candidate | apply_candidate.

Record CuratorExecuteRequest := {
  action : CuratorExecuteAction;
  scopeType : option string;
  scopeId : option string;
  request_candidateId : option string;
  actorId : option string;
  sessionId : option string;
  profileId : option string;
  reason : option string;
  dryRun : bool
}.

Record CuratorExecuteReceipt := {
  receiptId : string;
  receipt_status : string;
  receipt_candidateId : option string;
  auditRef : option string;
  observationRef : option string;
  receipt_summary : string
}.

Record CandidateCurrentness := { sourceCurrent : bool; currentness_reason : option string }.

(** [RustCuratorGovernancePlanInput] *)
Record GovernancePlanInput := {
  plan_action : CuratorExecuteAction;
  plan_candidate_id : string;
  plan_fingerprint : string;
  plan_status : CuratorStoredCandidateStatus;
  plan_lifecycle_state : option CuratorCandidateLifecycleState;
  plan_lifecycle_reason : option string;
  plan_expires_at : option string;
  plan_approval_fingerprint : option string;
  plan_currentness : CandidateCurrentness;
  plan_now : string;
  plan_actor : option string;
  plan_reason : option string;
  plan_dry_run : bool
}.

(** [RustCuratorGovernancePlan] *)
Record GovernancePlan := {
  plan_accepted : bool;
  audit_ref : option string;
  receipt_id : string;
  (** the reason codes of [diagnostics] *)
  diagnostics : list string
}.

(** The result of the skill tool. *)
Record SkillToolDetails := {
  tool_ok : bool;
  tool_reason : option string;
  tool_management : option SkillManagementResult
}.

(** [manageParams] *)
Record ManageParams := {
  manage : string;
  params_slug : string;
  params_content : option string;
  old_string : option string;
  new_string : option string;
  absorbed_into : option string;
  file_path : option string;
  file_content : option string;
  params_dryRun : bool;
  provenance : string
}.

Definition manageParams (c : CuratorMutationCandidate) (dry : bool) : ManageParams :=
  let provenance := "curator:" +:+ candidateId c in
  match mutation c with
  | skill_patch slug content o n =>
      {| manage := "patch"; params_slug := slug; params_content := content; old_string := o; new_string := n;
         absorbed_into := None; file_path := None; file_content := None; params_dryRun := dry;
         provenance := provenance |}
  | skill_create slug content =>
      {| manage := "create"; params_slug := slug; params_content := Some content; old_string := None;
         new_string := None; absorbed_into := None; file_path := None; file_content := None;
         params_dryRun := dry; provenance := provenance |}
  | skill_archive slug absorbedInto =>
      {| manage := "delete"; params_slug := slug; params_content := None; old_string := None;
         new_string := None; absorbed_into := Some absorbedInto; file_path := None; file_content := None;
         params_dryRun := dry; provenance := provenance |}
  | sidecar_write slug path content =>
      {| manage := "write_file"; params_slug := slug; params_content := None; old_string := None;
         new_string := None; absorbed_into := None; file_path := Some path; file_content := Some content;
         params_dryRun := dry; provenance := provenance |}
  end.

(** What the governance uses: the planner, if there is one, the hash of a skill's current
    source, the skill tool, the snapshot taken before a mutation and restored by a
    rollback, the scan, SHA-256 in hexadecimal, and what becomes of [persist]. *)
Class Governance (SnapshotRef : Type) := {
  planner : option (GovernancePlanInput → result GovernancePlan);
  skill_hash : string → result string;
  skill_tool : string → ManageParams → SkillToolDetails;
  take_snapshot : CuratorMutationCandidate → result SnapshotRef;
  restore_snapshot : SnapshotRef → result unit;
  scan : option (CuratorExecuteRequest → result CuratorCandidateBatch);
  digest : list string → string;
  persist : Store SnapshotRef → result unit;
  (** the reason code of an error that is a [CuratorExecuteError] *)
  execute_reason : string → option string
}.

Section Executor.
Context {SnapshotRef : Type} {G : Governance SnapshotRef}.

Fixpoint sources_current (refs : list CuratorCandidateSourceRef) : result CandidateCurrentness :=
  match refs with
  | [] => Ok {| sourceCurrent := true; currentness_reason := None |}
  | r :: rs =>
      if negb (String.eqb (ref_kind r) "skill") || negb (truthy (ref_hash r)) then sources_current rs
      else
        h ← skill_hash (ref_ref r);
        if bool_decide (Some h = ref_hash r) then sources_current rs
        else Ok {| sourceCurrent := false; currentness_reason := Some "curator_candidate_stale" |}
  end.

Definition candidateSourcesCurrent (c : CuratorMutationCandidate) : result CandidateCurrentness :=
  sources_current (sourceRefs c).

(** An optional text that is sent only when it is not empty. *)
Definition present (s : option string) : option string := if truthy s then s else None.

Definition planInput (request : CuratorExecuteRequest) (c : CuratorStoredCandidate) (a : CuratorExecuteAction)
    (now : string) (cur : CandidateCurrentness) : GovernancePlanInput :=
  {| plan_action := a; plan_candidate_id := candidateId (candidate c);
     plan_fingerprint := fingerprint (candidate c); plan_status := status c;
     plan_lifecycle_state := lifecycle_state <$> lifecycle c;
     plan_lifecycle_reason := present (lifecycle c ≫= reasonCode);
     plan_expires_at := present (expiresAt (candidate c));
     plan_approval_fingerprint := present (approval_fingerprint <$> approval c);
     plan_currentness := cur; plan_now := now; plan_actor := present (actorId request);
     plan_reason := present (reason request); plan_dry_run := dryRun request |}.

Definition planCuratorGovernanceTransition (request : CuratorExecuteRequest) (c : CuratorStoredCandidate)
    (a : CuratorExecuteAction) (now : string) (cur : CandidateCurrentness) : result GovernancePlan :=
  match planner with
  | None => Throw "curator_governance_planner_unavailable"
  | Some plan =>
      p ← plan (planInput request c a now cur);
      if plan_accepted p then Ok p
      else Throw (match diagnostics p with d :: _ => d | [] => "curator_governance_rejected" end)
  end.

Definition runSkillMutation (c : CuratorMutationCandidate) (dry : bool) : result SkillManagementResult :=
  let r := skill_tool ("curator:" +:+ candidateId c) (manageParams c dry) in
  match tool_management r with
  | Some m => if tool_ok r then Ok m else Throw (default "curator_skill_mutation_failed" (tool_reason r))
  | None => Throw (default "curator_skill_mutation_failed" (tool_reason r))
  end.

Definition action_name (a : CuratorExecuteAction) : string :=
  match a with
  | request_scan => "request_scan" | preview_candidate => "preview_candidate"
  | approve_candidate => "approve_candidate" | apply_candidate => "apply_candidate"
  end.

Definition receipt (request : CuratorExecuteRequest) (st : string) (id : option string)
    (audit : option string) (text : string) : CuratorExecuteReceipt :=
  {| receiptId := match id with
                  | Some i => i
                  | None => "curator-receipt:" +:+ action_name (action request) +:+ ":"
                            +:+ Str.slice (digest [default "" (request_candidateId request);
                                                   default "" (scopeType request);
                                                   default "" (scopeId request); text]) 0 12
                  end;
     receipt_status := st; receipt_candidateId := request_candidateId request; auditRef := audit;
     observationRef := None; receipt_summary := text |}.

Definition summarizeManagement (prefix : string) (m : SkillManagementResult) : string :=
  prefix +:+ " " +:+ manage_action m +:+ " " +:+ manage_slug m +:+ "; changed="
  +:+ (if changed m then "true" else "false").

(** The candidate of a request, its currentness and the accepted plan. *)
Definition governed (request : CuratorExecuteRequest) (a : CuratorExecuteAction) (now : string) (s : Store SnapshotRef)
    : result (CuratorStoredCandidate * GovernancePlan) :=
  c ← requiredCandidate s (request_candidateId request);
  cur ← candidateSourcesCurrent (candidate c);
  p ← planCuratorGovernanceTransition request c a now cur;
  Ok (c, p).

Definition mutation_record (request : CuratorExecuteRequest) (c : CuratorStoredCandidate) (now : string)
    (snap : SnapshotRef) (m : SkillManagementResult) : CuratorMutationRecord SnapshotRef :=
  let id := "curator-mutation:" +:+ candidateId (candidate c) +:+ ":" +:+ Str.slice (digest [now]) 0 10 in
  {| mutationId := id; mutation_candidateId := candidateId (candidate c);
     mutation_action := operation_type (mutation (candidate c)); mutation_actorId := actorId request;
     mutation_reason := default (default "curator apply" (approval_reason <$> approval c)) (reason request);
     appliedAt := now; mutation_status := mutation_applied; mutation_snapshot := snap;
     rollbackRef := Some ("curator-rollback:" +:+ id); changedPaths := changed_paths m; management := Some m;
     mutation_error := None |}.

(** The store a request ends with and its answer. *)
Definition ends (s : Store SnapshotRef) (r : result CuratorExecuteReceipt) : Store SnapshotRef * result CuratorExecuteReceipt := (s, r).

(** [await persistCuratorStore(options.store); return receipt(...)] *)
Definition persisted (s : Store SnapshotRef) (r : CuratorExecuteReceipt) : Store SnapshotRef * result CuratorExecuteReceipt :=
  (s, _ ← persist s; Ok r).

(** The four actions of [executeCuratorGovernanceRequest]. *)
Definition execute_scan (request : CuratorExecuteRequest) (s : Store SnapshotRef) : Store SnapshotRef * result CuratorExecuteReceipt :=
  match scan with
  | None =>
      ends s (Ok (receipt request "requested" None None
        ("scan requested for " +:+ default "undefined" (scopeType request) +:+ ":"
         +:+ default "undefined" (scopeId request))))
  | Some f =>
      match f request with
      | Throw e => ends s (Throw e)
      | Ok b =>
          persisted (upsertBatch b [] s)
            (receipt request "requested" None (Some (reportId b))
               ("scan produced " +:+ pretty (candidateCount b) +:+ " candidate(s)"))
      end
  end.

Definition execute_preview (request : CuratorExecuteRequest) (now : string) (s : Store SnapshotRef)
    : Store SnapshotRef * result CuratorExecuteReceipt :=
  match ('(c, p) ← governed request preview_candidate now s;
         m ← runSkillMutation (candidate c) true;
         s1 ← recordPreview (candidateId (candidate c)) now s;
         Ok (s1, receipt request "previewed" (Some (receipt_id p)) (audit_ref p) (summarizeManagement "preview" m)))
  with
  | Throw e => ends s (Throw e)
  | Ok (s1, r) => persisted s1 r
  end.

Definition execute_approve (request : CuratorExecuteRequest) (now : string) (s : Store SnapshotRef)
    : Store SnapshotRef * result CuratorExecuteReceipt :=
  match ('(c, p) ← governed request approve_candidate now s;
         s1 ← approve (candidateId (candidate c))
                {| approval_candidateId := candidateId (candidate c); approval_actorId := actorId request;
                   approval_reason := default "curator approval" (reason request); approvedAt := now;
                   approval_fingerprint := fingerprint (candidate c) |} s;
         Ok (s1, receipt request "approved" (Some (receipt_id p)) (audit_ref p) ("approved " +:+ summary (candidate c))))
  with
  | Throw e => ends s (Throw e)
  | Ok (s1, r) => persisted s1 r
  end.

Definition execute_apply (request : CuratorExecuteRequest) (now : string) (s : Store SnapshotRef)
    : Store SnapshotRef * result CuratorExecuteReceipt :=
  match governed request apply_candidate now s with
  | Throw e => ends s (Throw e)
  | Ok (c, p) =>
      if dryRun request then
        ends s (m ← runSkillMutation (candidate c) true;
                Ok (receipt request "previewed" (Some (receipt_id p)) (audit_ref p)
                      (summarizeManagement "dry-run apply" m)))
      else
        match (snap ← take_snapshot (candidate c);
               m ← runSkillMutation (candidate c) false;
               if changed m then Ok (mutation_record request c now snap m) else Throw "curator_mutation_noop")
        with
        | Throw e => ends s (Throw e)
        | Ok record =>
            match recordApplied record s with
            | (s1, Throw e) => ends s1 (Throw e)
            | (s1, Ok _) =>
                persisted s1 (receipt request "applied" (Some (receipt_id p))
                                (Some (default (mutationId record) (audit_ref p)))
                                ("applied " +:+ summary (candidate c)))
            end
        end
  end.

Definition executeCuratorGovernanceRequest (request : CuratorExecuteRequest) (now : string) (s : Store SnapshotRef)
    : Store SnapshotRef * result CuratorExecuteReceipt :=
  match action request with
  | request_scan => execute_scan request s
  | preview_candidate => execute_preview request now s
  | approve_candidate => execute_approve request now s
  | apply_candidate => execute_apply request now s
  end.

(** A failure after the restore, also of [persist], is recorded as a failed rollback. *)
Definition rollbackCuratorMutation (id : string) (s : Store SnapshotRef) : Store SnapshotRef * result (CuratorMutationRecord SnapshotRef) :=
  match map_get id (mutations s) with
  | None => (s, Throw "curator_mutation_not_found")
  | Some r =>
      let failed e s := match recordRollback id rollback_failed s with
                        | Ok s' => (s', _ ← persist s'; Throw (default "curator_rollback_failed" (execute_reason e)))
                        | Throw e' => (s, Throw e')
                        end in
      match restore_snapshot (mutation_snapshot r) with
      | Throw e => failed e s
      | Ok _ =>
          match recordRollback id rolled_back s with
          | Throw e => failed e s
          | Ok s1 =>
              match persist s1 with
              | Throw e => failed e s1
              | Ok _ => (s1, Ok (default r (map_get id (mutations s1))))
              end
          end
      end
  end.
End Executor.

(** ** [FileCuratorGovernanceStore] *)

(** The state file: the text of a snapshot and its reading back ([JSON.stringify] with
    indentation, [JSON.parse]), and whether the n-th write to the disk succeeds.  A write
    goes to a temporary file that is renamed, so a failed one leaves the file. *)
Class StateFile (SnapshotRef : Type) := {
  Text : Type;
  encode_state : StoreSnapshot SnapshotRef → Text;
  decode_state : Text → result (StoreSnapshot SnapshotRef);
  disk : nat → bool;
  decode_encode_state p : decode_state (encode_state p) = Ok p
}.

Section FileStore.
Context {SnapshotRef : Type} {F : StateFile SnapshotRef}.

Record FileStore := { memory : Store SnapshotRef; stateFile : option Text; writes : nat }.

Definition loadGovernanceSnapshot (f : option Text) : result (option (StoreSnapshot SnapshotRef)) :=
  match f with None => Ok None | Some t => p ← decode_state t; Ok (Some p) end.

(** The store that the constructor makes of the state file. *)
Definition load (f : option Text) : result (Store SnapshotRef) := p ← loadGovernanceSnapshot f; new_store p.

Definition openFile (f : option Text) : result FileStore :=
  s ← load f; Ok {| memory := s; stateFile := f; writes := 0 |}.

Definition file_persist (fs : FileStore) : FileStore * result unit :=
  if disk (writes fs)
  then ({| memory := memory fs; stateFile := Some (encode_state (snapshot (memory fs))); writes := S (writes fs) |}, Ok ())
  else ({| memory := memory fs; stateFile := stateFile fs; writes := S (writes fs) |}, Throw "write_failed").

Definition with_memory (s : Store SnapshotRef) (fs : FileStore) : FileStore :=
  {| memory := s; stateFile := stateFile fs; writes := writes fs |}.

(** [super.operation(...); this.persist()] *)
Definition then_persist (op : Store SnapshotRef → Store SnapshotRef * result unit) (fs : FileStore) : FileStore * result unit :=
  match op (memory fs) with
  | (s, Throw e) => (with_memory s fs, Throw e)
  | (s, Ok _) => file_persist (with_memory s fs)
  end.

(** An operation that leaves the store when it throws. *)
Definition all_or_nothing (op : Store SnapshotRef → result (Store SnapshotRef)) (s : Store SnapshotRef)
    : Store SnapshotRef * result unit :=
  match op s with Ok s' => (s', Ok ()) | Throw e => (s, Throw e) end.

Definition file_upsertCandidate (c : CuratorMutationCandidate) (fs : FileStore) : FileStore * result unit :=
  then_persist (λ s, (upsertCandidate c s, Ok ())) fs.

Fixpoint file_upsertCandidates (cs : list CuratorMutationCandidate) (fs : FileStore) : FileStore * result unit :=
  match cs with
  | [] => (fs, Ok ())
  | c :: cs => match file_upsertCandidate c fs with
               | (fs1, Throw e) => (fs1, Throw e)
               | (fs1, Ok _) => file_upsertCandidates cs fs1
               end
  end.

(** [super.upsertBatch] calls the overridden [upsertCandidate], which writes each time. *)
Definition file_upsertBatch (b : CuratorCandidateBatch) (cs : list CuratorMutationCandidate) (fs : FileStore)
    : FileStore * result unit :=
  match file_upsertCandidates cs (with_memory (upsertBatch b [] (memory fs)) fs) with
  | (fs1, Throw e) => (fs1, Throw e)
  | (fs1, Ok _) => file_persist fs1
  end.

Inductive StoreOperation :=
| op_upsertBatch (b : CuratorCandidateBatch) (cs : list CuratorMutationCandidate)
| op_upsertCandidate (c : CuratorMutationCandidate)
| op_approve (id : string) (a : CuratorApprovalRecord)
| op_recordPreview (id at_ : string)
| op_recordApplied (r : CuratorMutationRecord SnapshotRef)
| op_recordRollback (id : string) (st : CuratorMutationStatus)
| op_updateCandidateLifecycle (id : string) (l : CuratorCandidateLifecycle).

Definition file_step (op : StoreOperation) : FileStore → FileStore * result unit :=
  match op with
  | op_upsertBatch b cs => file_upsertBatch b cs
  | op_upsertCandidate c => file_upsertCandidate c
  | op_approve id a => then_persist (all_or_nothing (approve id a))
  | op_recordPreview id t => then_persist (all_or_nothing (recordPreview id t))
  | op_recordApplied r => then_persist (recordApplied r)
  | op_recordRollback id st => then_persist (all_or_nothing (recordRollback id st))
  | op_updateCandidateLifecycle id l => then_persist (all_or_nothing (updateCandidateLifecycle id l))
  end.

(** The states of a file store: opened, then any operations, failing or not. *)
Inductive file_reachable : FileStore → Prop :=
| file_opened f fs : openFile f = Ok fs → file_reachable fs
| file_stepped op fs fs' r : file_reachable fs → file_step op fs = (fs', r) → file_reachable fs'.
End FileStore.
Arguments FileStore : clear implicits.
Arguments FileStore _ {_}.
Arguments StoreOperation : clear implicits.

(** ** The maps of the store *)

Create HintDb curator.

Section StoreFacts.
Context {SnapshotRef : Type}.

(** A map whose entries are filed under their own identifiers, each once. *)
Definition filed {V} (id : V → string) (m : jsmap string V) : Prop :=
  map_wf m ∧ Forall (λ '(k, v), k = id v) m.

Definition keyed (s : Store SnapshotRef) : Prop :=
  filed batch_id (batches s) ∧ filed (λ c, candidateId (candidate c)) (candidates s) ∧ filed mutationId (mutations s).

Lemma filed_nil {V} (id : V → string) : filed id [].
Proof. split; constructor. Qed.

Lemma filed_set {V} (id : V → string) k v m : k = id v → filed id m → filed id (map_set k v m).
Proof.
  intros E [Hw Hm]; split; [by apply map_set_wf|]. apply Forall_forall; intros p [->|Hp]%map_set_elem; [done|].
  by apply (proj1 (Forall_forall _ _) Hm).
Qed.

Lemma filed_get {V} (id : V → string) k v m : filed id m → map_get k m = Some v → id v = k.
Proof. intros [_ Hm] Hp%map_get_elem. symmetry; exact (proj1 (Forall_forall _ _) Hm _ Hp). Qed.

Lemma filed_of_entries {V} (id : V → string) l : filed id (map_of_entries (map (λ v, (id v, v)) l)).
Proof.
  unfold map_of_entries; generalize (filed_nil id); generalize (@nil (string * V)).
  induction l as [|v l IH]; intros m Hm; cbn; [done|]. by apply IH, filed_set.
Qed.

Lemma filed_values {V} (id : V → string) m : filed id m → map_of_entries (map (λ v, (id v, v)) (map_values m)) = m.
Proof.
  intros [Hw Hm]. enough (map (λ v, (id v, v)) (map_values m) = m) as -> by by apply map_of_entries_wf.
  clear Hw; induction Hm as [|[k v] m Hk Hm IH]; [done|]. cbn in Hk |- *. by rewrite Hk; f_equal.
Qed.

(** What a snapshot is read back as. *)
Lemma replace_snapshot (s : Store SnapshotRef) : keyed s → replaceSnapshot (snapshot s) = Ok s.
Proof.
  intros (Hb & Hc & Hm); unfold replaceSnapshot, snapshot; cbn.
  f_equal. destruct s; f_equal; by apply filed_values.
Qed.

Lemma replaceSnapshot_keyed p (s : Store SnapshotRef) : replaceSnapshot p = Ok s → keyed s.
Proof.
  unfold replaceSnapshot; destruct (schemaVersion p =? 1); cbn; [|done]. intros [= <-].
  repeat split; cbn; apply filed_of_entries.
Qed.

Lemma set_candidate_keyed id c (s : Store SnapshotRef) :
  id = candidateId (candidate c) → keyed s → keyed (set_candidate id c s).
Proof. intros E (? & ? & ?); split_and!; cbn; auto using filed_set. Qed.

Lemma requiredCandidate_Ok (s : Store SnapshotRef) id c :
  requiredCandidate s id = Ok c → ∃ i, id = Some i ∧ i ≠ "" ∧ map_get i (candidates s) = Some c.
Proof.
  unfold requiredCandidate; destruct id as [[|a i]|]; try done.
  destruct (map_get _ _) eqn:E; [|done]. intros [= <-]. by exists (String a i).
Qed.

Lemma required_filed (s : Store SnapshotRef) id c :
  keyed s → requiredCandidate s id = Ok c → id = Some (candidateId (candidate c)).
Proof.
  intros (_ & Hc & _) (i & -> & _ & Hi)%requiredCandidate_Ok. f_equal; symmetry.
  exact (filed_get _ _ _ _ Hc Hi).
Qed.

(** An operation that rewrites a candidate it requires. *)
Lemma rewrite_keyed id f (s s' : Store SnapshotRef) :
  (∀ c, candidate (f c) = candidate c) → keyed s →
  (c ← requiredCandidate s (Some id); Ok (set_candidate id (f c) s)) = Ok s' → keyed s'.
Proof.
  intros Hf Hs (c & Hc & [= <-])%bind_Ok. pose proof (required_filed _ _ _ Hs Hc) as [= ->].
  apply set_candidate_keyed; [by rewrite Hf|done].
Qed.

Lemma upsertCandidate_keyed c (s : Store SnapshotRef) : keyed s → keyed (upsertCandidate c s).
Proof. by apply set_candidate_keyed. Qed.

Lemma upsertBatch_keyed b cs (s : Store SnapshotRef) : keyed s → keyed (upsertBatch b cs s).
Proof.
  intros (? & ? & ?); unfold upsertBatch.
  assert (keyed {| batches := map_set (batch_id b) b (batches s); candidates := candidates s; mutations := mutations s |})
    as Hs by (split_and!; cbn; auto using filed_set).
  revert Hs; generalize {| batches := map_set (batch_id b) b (batches s); candidates := candidates s; mutations := mutations s |}.
  induction cs; cbn; auto using upsertCandidate_keyed.
Qed.

Lemma mutation_keyed id r (s : Store SnapshotRef) :
  id = mutationId r → keyed s →
  keyed {| batches := batches s; candidates := candidates s; mutations := map_set id r (mutations s) |}.
Proof. intros E (? & ? & ?); split_and!; cbn; auto using filed_set. Qed.

Lemma recordApplied_keyed r (s s' : Store SnapshotRef) o : recordApplied r s = (s', o) → keyed s → keyed s'.
Proof.
  unfold recordApplied; intros E Hs. pose proof (mutation_keyed _ r _ eq_refl Hs) as H1.
  revert E; case_match eqn:Hc; intros [= <- <-]; [|done]. apply set_candidate_keyed; [|done].
  cbn. by pose proof (required_filed _ _ _ H1 Hc) as [= ->].
Qed.

Lemma recordRollback_keyed id st (s s' : Store SnapshotRef) : recordRollback id st s = Ok s' → keyed s → keyed s'.
Proof.
  unfold recordRollback; destruct (map_get _ _) as [r|] eqn:E; [|done]. intros [= <-] Hs.
  apply mutation_keyed; [|done]. cbn. destruct Hs as (_ & _ & Hm). symmetry; exact (filed_get _ _ _ _ Hm E).
Qed.
End StoreFacts.

#[export] Hint Resolve upsertCandidate_keyed upsertBatch_keyed recordApplied_keyed recordRollback_keyed
  rewrite_keyed mutation_keyed : curator.

(** ** The state file *)

Section FileFacts.
Context {SnapshotRef : Type} {F : StateFile SnapshotRef}.
Implicit Types (fs : FileStore SnapshotRef).

(** The file can be read, and what it holds is a keyed store. *)
Definition durable fs : Prop := keyed (memory fs) ∧ ∃ s, load (stateFile fs) = Ok s ∧ keyed s.

Lemma load_saved (s : Store SnapshotRef) : keyed s → load (Some (encode_state (snapshot s))) = Ok s.
Proof. intros Hs; unfold load; cbn. rewrite decode_encode_state; cbn. by apply replace_snapshot. Qed.

Lemma load_keyed f s : load f = Ok s → keyed s.
Proof.
  unfold load; destruct f as [t|]; cbn; [|by intros [= <-]; repeat split; constructor].
  destruct (decode_state t); cbn; [apply replaceSnapshot_keyed|done].
Qed.

Lemma file_persist_durable fs fs' r : file_persist fs = (fs', r) → durable fs →
  durable fs' ∧ (r = Ok () → load (stateFile fs') = Ok (memory fs')).
Proof.
  unfold file_persist, durable; intros E [Hm (s & Hl & Hs)].
  case_match; simplify_eq; cbn [memory stateFile]; [|by split; [split; [|eauto]|]].
  rewrite load_saved by done. eauto.
Qed.

Lemma then_persist_durable op fs fs' r :
  (∀ s o, op (memory fs) = (s, o) → keyed (memory fs) → keyed s) → then_persist op fs = (fs', r) → durable fs →
  durable fs' ∧ (r = Ok () → load (stateFile fs') = Ok (memory fs')).
Proof.
  unfold then_persist; intros Hop E [Hm Hf]. destruct (op (memory fs)) as [s o] eqn:Eo.
  specialize (Hop s o eq_refl Hm). destruct o; cbn in E; [|by injection E as <- <-; split].
  apply (file_persist_durable _ _ _ E). by split.
Qed.

Lemma file_upsertCandidates_durable cs fs fs' r :
  file_upsertCandidates cs fs = (fs', r) → durable fs → durable fs'.
Proof.
  revert fs; induction cs as [|c cs IH]; intros fs; cbn [file_upsertCandidates]; [by intros [= <- <-]|].
  destruct (file_upsertCandidate c fs) as [fs1 o] eqn:E1; intros E Hd.
  assert (durable fs1) by (eapply then_persist_durable; [|exact E1|done]; intros ? ? [= <- <-]; auto with curator).
  destruct o; [eauto|by injection E as <- <-].
Qed.

Lemma all_or_nothing_keyed op (s s' : Store SnapshotRef) o :
  (∀ s1, op s = Ok s1 → keyed s → keyed s1) → all_or_nothing op s = (s', o) → keyed s → keyed s'.
Proof. unfold all_or_nothing; intros Hop E Hs. case_match; simplify_eq; eauto. Qed.

Lemma file_step_durable op fs fs' r : file_step op fs = (fs', r) → durable fs →
  durable fs' ∧ (r = Ok () → load (stateFile fs') = Ok (memory fs')).
Proof.
  destruct op; cbn [file_step]; try (apply then_persist_durable; eauto with curator;
    intros ? ?; apply all_or_nothing_keyed; intros ? H ?; eauto with curator;
    revert H; apply rewrite_keyed; by intros).
  - unfold file_upsertBatch. destruct (file_upsertCandidates _ _) as [fs1 o] eqn:E1; intros E [Hm Hf].
    apply file_upsertCandidates_durable in E1; [|by split; [apply (upsertBatch_keyed b [])|]].
    destruct o; cbn in E; [by apply (file_persist_durable _ _ _ E)|by injection E as <- <-].
  - apply then_persist_durable. intros ? ? [= <- <-]; auto with curator.
Qed.

Lemma file_reachable_durable fs : file_reachable fs → durable fs.
Proof.
  induction 1 as [f fs Ho|]; [|by eapply file_step_durable]. revert Ho; unfold openFile.
  intros (s & Hl & [= <-])%bind_Ok. split; [by eapply load_keyed|]. cbn. eauto using load_keyed.
Qed.
End FileFacts.

(** C25. [FileCuratorGovernanceStore] loses nothing it acknowledged.  However the store
    was opened and whatever operations ran on it since, with writes that failed among them,
    its state file can be read and gives a store whose maps file every record under its own
    identifier; and when an operation returns, the file it leaves is read back as exactly
    the store in memory. *)
Theorem file_store_durable {SnapshotRef} {F : StateFile SnapshotRef} (fs : FileStore SnapshotRef) :
  file_reachable fs →
  (∃ s, load (stateFile fs) = Ok s ∧ keyed s) ∧
  ∀ op fs', file_step op fs = (fs', Ok ()) → load (stateFile fs') = Ok (memory fs').
Proof.
  intros Hd%file_reachable_durable; split; [apply Hd|]. intros op fs' E.
  by apply (file_step_durable _ _ _ _ E Hd).
Qed.

(** ** Governance requests *)

Section GovernanceFacts.
Context {SnapshotRef : Type} {G : Governance SnapshotRef}.
Implicit Types (s : Store SnapshotRef).

(** The planner accepted the action for the candidate as it is stored. *)
Definition accepted (request : CuratorExecuteRequest) (a : CuratorExecuteAction) (now : string)
    (c : CuratorStoredCandidate) : Prop :=
  ∃ plan cur p, planner = Some plan ∧ candidateSourcesCurrent (candidate c) = Ok cur ∧
    plan (planInput request c a now cur) = Ok p ∧ plan_accepted p = true.

Lemma governed_Ok request a now s c p : keyed s → governed request a now s = Ok (c, p) →
  request_candidateId request = Some (candidateId (candidate c)) ∧
  requiredCandidate s (Some (candidateId (candidate c))) = Ok c ∧ accepted request a now c.
Proof.
  intros Hs (c1 & Hc & (cur & Hcur & (p1 & Hp & [= <- <-])%bind_Ok)%bind_Ok)%bind_Ok.
  pose proof (required_filed _ _ _ Hs Hc) as E. rewrite E in Hc. split_and!; [done..|].
  revert Hp; unfold planCuratorGovernanceTransition, accepted; destruct planner as [plan|]; [|done].
  intros (q & Hq & Ha)%bind_Ok. exists plan, cur, q. destruct (plan_accepted q); naive_solver.
Qed.

(** What a request on the candidate [c] does to the store. *)
Definition effect (request : CuratorExecuteRequest) (now : string) (c : CuratorStoredCandidate) s s' : Prop :=
  let id := candidateId (candidate c) in
  match action request with
  | request_scan => False
  | preview_candidate => recordPreview id now s = Ok s' ∧ ∃ m, runSkillMutation (candidate c) true = Ok m
  | approve_candidate =>
      ∃ a, approve id a s = Ok s' ∧ approval_candidateId a = id ∧ approval_fingerprint a = fingerprint (candidate c) ∧
        approval_actorId a = actorId request ∧ approvedAt a = now
  | apply_candidate =>
      if dryRun request then s' = s ∧ ∃ m, runSkillMutation (candidate c) true = Ok m
      else ∃ snap m, take_snapshot (candidate c) = Ok snap ∧ runSkillMutation (candidate c) false = Ok m ∧
             changed m = true ∧ recordApplied (mutation_record request c now snap m) s = (s', Ok ())
  end.

(** What a scan does to the store: nothing when there is no scanner, and otherwise the batch
    it found is filed. *)
Definition scanned (request : CuratorExecuteRequest) s s' : Prop :=
  candidates s' = candidates s ∧ mutations s' = mutations s ∧
  match scan with
  | None => batches s' = batches s
  | Some f => ∃ b, f request = Ok b ∧ batches s' = map_set (batch_id b) b (batches s)
  end.

(** What a successful request did. *)
Definition carried_out (request : CuratorExecuteRequest) (now : string) s s' : Prop :=
  match action request with
  | request_scan => scanned request s s'
  | a => ∃ c, request_candidateId request = Some (candidateId (candidate c)) ∧
           requiredCandidate s (Some (candidateId (candidate c))) = Ok c ∧
           accepted request a now c ∧ effect request now c s s'
  end.

(** A request that did its work ends in the store [s'] with the answer of [persist]. *)
Definition answered s s' (r : result CuratorExecuteReceipt) : Prop :=
  match r with Ok _ => s' = s ∨ persist s' = Ok () | Throw e => persist s' = Throw e end.

Lemma persisted_answered s s1 s' r r' : persisted s1 r = (s', r') → s' = s1 ∧ answered s s' r'.
Proof. unfold persisted, answered. intros H; injection H as <- <-. destruct (persist s1) as [[]|]; cbn; auto. Qed.

(** The candidate the record names is in the store, so [recordApplied] cannot throw. *)
Lemma recordApplied_returns request c now snap m s s' e :
  requiredCandidate s (Some (candidateId (candidate c))) = Ok c →
  recordApplied (mutation_record request c now snap m) s ≠ (s', Throw e).
Proof.
  intros Hc; unfold recordApplied. cbn [mutation_candidateId mutation_record].
  assert (∀ s1, candidates s1 = candidates s → requiredCandidate s1 (Some (candidateId (candidate c))) = Ok c) as ->
    by (intros s1 E; by rewrite <- Hc; unfold requiredCandidate; rewrite E); done.
Qed.

(** A request is refused without effect or carried out. *)
Definition all_or_none (request : CuratorExecuteRequest) (now : string) s s' (r : result CuratorExecuteReceipt) : Prop :=
  s' = s ∧ (∃ e, r = Throw e) ∨ carried_out request now s s' ∧ answered s s' r.

Lemma execute_scan_spec request now s s' r :
  action request = request_scan → execute_scan request s = (s', r) → all_or_none request now s s' r.
Proof.
  unfold all_or_none, carried_out, scanned, execute_scan. intros ->. destruct scan as [f|].
  - destruct (f request) as [b|e] eqn:Ef; [|intros H; injection H as <- <-; eauto].
    intros [-> ?]%(persisted_answered s). right. split; [|done]. cbn. eauto.
  - intros H; injection H as <- <-. right. split; [done|by left].
Qed.

Lemma execute_preview_spec request now s s' r : keyed s → action request = preview_candidate →
  execute_preview request now s = (s', r) → all_or_none request now s s' r.
Proof.
  unfold all_or_none, carried_out, effect, execute_preview. intros Hs ->.
  case_match eqn:E; [case_match; subst|intros H; injection H as <- <-; eauto].
  apply bind_Ok in E as ([c1 p] & Hg & (m & Hm & (s1 & H1 & [= <- <-])%bind_Ok)%bind_Ok).
  intros [-> ?]%(persisted_answered s). apply governed_Ok in Hg as (? & ? & ?); naive_solver.
Qed.

Lemma execute_approve_spec request now s s' r : keyed s → action request = approve_candidate →
  execute_approve request now s = (s', r) → all_or_none request now s s' r.
Proof.
  unfold all_or_none, carried_out, effect, execute_approve. intros Hs ->.
  case_match eqn:E; [case_match; subst|intros H; injection H as <- <-; eauto].
  apply bind_Ok in E as ([c1 p] & Hg & (s1 & H1 & [= <- <-])%bind_Ok).
  intros [-> ?]%(persisted_answered s). apply governed_Ok in Hg as (? & ? & ?); [|done].
  right. split; [|done]. exists c1; split_and!; [done..|]. by eexists; split; [exact H1|].
Qed.

Lemma execute_apply_spec request now s s' r : keyed s → action request = apply_candidate →
  execute_apply request now s = (s', r) → all_or_none request now s s' r.
Proof.
  unfold all_or_none, carried_out, effect, execute_apply. intros Hs ->.
  destruct (governed _ _ _ _) as [[c p]|] eqn:Hg; [|intros H; injection H as <- <-; eauto].
  apply governed_Ok in Hg as (? & Hc & ?); [|done]. destruct (dryRun request).
  - destruct (runSkillMutation (candidate c) true) eqn:Hm; cbn; intros H'; injection H' as <- <-; [right|eauto].
    split; [naive_solver|by left].
  - case_match eqn:E; [|intros H'; injection H' as <- <-; eauto].
    apply bind_Ok in E as (snap & Hsn & (m & Hm & E)%bind_Ok). destruct (changed m) eqn:?; [simplify_eq|done].
    destruct (recordApplied _ s) as [s1 [[]|]] eqn:Er; [|exfalso; by eapply recordApplied_returns].
    intros [-> ?]%(persisted_answered s). right. split; [|done]. exists c. split_and!; [done..|]. eauto 10.
Qed.

Lemma execute_all_or_none request now s s' r : keyed s →
  executeCuratorGovernanceRequest request now s = (s', r) → all_or_none request now s s' r.
Proof.
  intros Hs; unfold executeCuratorGovernanceRequest.
  destruct (action request) eqn:Ha; eauto using execute_scan_spec, execute_preview_spec, execute_approve_spec, execute_apply_spec.
Qed.

(** The part of the store that a request on a candidate leaves. *)
Definition untouched (id : string) s s' : Prop :=
  batches s' = batches s ∧ ∀ id', id' ≠ id → map_get id' (candidates s') = map_get id' (candidates s).

Lemma rewrite_untouched id f s s' :
  (c ← requiredCandidate s (Some id); Ok (set_candidate id (f c) s)) = Ok s' →
  untouched id s s' ∧ mutations s' = mutations s.
Proof.
  intros (c & _ & [= <-])%bind_Ok; split; [split|]; cbn; [done| |done]. intros; by apply map_get_set_ne.
Qed.

Lemma effect_untouched request now c s s' : effect request now c s s' →
  untouched (candidateId (candidate c)) s s' ∧
  (mutations s' = mutations s ∨
   action request = apply_candidate ∧ dryRun request = false ∧
   ∃ m, mutation_candidateId m = candidateId (candidate c) ∧ mutations s' = map_set (mutationId m) m (mutations s)).
Proof.
  unfold effect; destruct (action request); [done|intros [H _]|intros (? & H & _)|].
  1,2: apply rewrite_untouched in H; naive_solver.
  destruct (dryRun request) eqn:Ed; [by intros [-> _]; split; [split|left]|].
  intros (snap & m & _ & _ & _ & H). unfold recordApplied in H. case_match; [|done].
  injection H as <-; cbn. split; [split; [done|]; cbn; intros; by apply map_get_set_ne|].
  right; split_and!; [done..|]. by exists (mutation_record request c now snap m).
Qed.
End GovernanceFacts.

(** C22. A governance request is all or nothing.  A request that is refused, by a missing
    candidate, by a source that cannot be read, by the planner, by the skill tool, by the
    scanner or by a mutation without a change, leaves the store as it was.  Any other request
    has its one effect, and its answer is that of the write of this store, if one was needed: an error only
    when the write fails.  The effect on a candidate needs the planner's consent to the
    candidate as it is stored, and leaves the batches and every other candidate; a mutation
    is recorded only by an [apply_candidate] that is no dry run.  A scan is not put to the
    planner; it files the batch of the scanner, and leaves all candidates and mutations. *)
Theorem governance_atomic {SnapshotRef} {G : Governance SnapshotRef} request now (s s' : Store SnapshotRef) r :
  keyed s → executeCuratorGovernanceRequest request now s = (s', r) →
  s' = s ∧ (∃ e, r = Throw e) ∨
  match r with Ok _ => s' = s ∨ persist s' = Ok () | Throw e => persist s' = Throw e end ∧
  match action request with
  | request_scan => scanned request s s'
  | a => ∃ c, request_candidateId request = Some (candidateId (candidate c)) ∧
      map_get (candidateId (candidate c)) (candidates s) = Some c ∧
      accepted request a now c ∧ effect request now c s s' ∧ untouched (candidateId (candidate c)) s s' ∧
      (mutations s' = mutations s ∨ a = apply_candidate ∧ dryRun request = false)
  end.
Proof.
  intros Hs [?|[Hc ?]]%execute_all_or_none; [by left|right|done]. split; [done|].
  unfold carried_out in Hc. destruct (action request) eqn:Ea; [done|..];
    destruct Hc as (c & ? & (i & [= <-] & _ & Hc)%requiredCandidate_Ok & ? & He);
    destruct (effect_untouched _ _ _ _ _ He) as [? Hm]; exists c; do 5 (split; [done|]);
    (destruct Hm as [?|(Hx & ? & _)]; [by left|right; by rewrite Ea in Hx]).
Qed.

(** ** An example *)

Module CuratorExample.
Definition candidate1 (id target : string) (refs : list CuratorCandidateSourceRef) : CuratorCandidate :=
  {| candidateId := id; batchId := "b1"; kind := "skill_patch"; sourceRefs := refs; targetRef := target;
     summary := "tighten"; severity := "info"; confidence := QArith_base.Qmake 4 5; proposedAction := ""; previewSummary := "";
     fingerprint := "f1"; candidate_status := proposed; rollbackSupported := true |}.
Definition mutation1 : CuratorMutationCandidate :=
  {| base := candidate1 "c1" "skill:lint" [{| ref_kind := "skill"; ref_ref := "lint"; ref_hash := Some "h" |}];
     mutation := skill_patch "lint" (Some "body") None None; expiresAt := None |}.
Definition batch1 : CuratorCandidateBatch :=
  {| batch_id := "b1"; batch_scopeType := "skills_root"; batch_scopeId := "skills"; batch_profileId := None;
     generatedAt := "2026-01-01T00:00:00.000Z"; batch_dryRun := false; candidateCount := 1; reportId := "r1";
     batch_candidates := [base mutation1]; skippedReasons := [] |}.
Definition done1 : SkillManagementResult :=
  {| manage_action := "patch"; manage_slug := "lint"; changed := true; skillPath := Some "/skills/lint.md";
     sidecarPath := None; filePath := None; archivePath := None; sidecarArchivePath := None |}.

(** A planner that accepts what is current. *)
Definition plan1 (i : GovernancePlanInput) : result GovernancePlan :=
  Ok {| plan_accepted := sourceCurrent (plan_currentness i); audit_ref := None; receipt_id := "receipt"; diagnostics := [] |}.

#[export] Instance governance1 : Governance unit :=
  {| planner := Some plan1; skill_hash := λ _, Ok "h";
     skill_tool := λ _ _, {| tool_ok := true; tool_reason := None; tool_management := Some done1 |};
     take_snapshot := λ _, Ok (); restore_snapshot := λ _, Ok (); scan := None; digest := λ _, "0123456789abcdef";
     persist := λ _, Ok (); execute_reason := Some |}.

(** A file whose text is the snapshot itself, on a disk whose second write fails. *)
#[export] Instance file1 : StateFile unit :=
  {| Text := StoreSnapshot unit; encode_state := λ p, p; decode_state := Ok; disk := λ n, negb (n =? 1)%nat;
     decode_encode_state := λ _, eq_refl |}.

Definition apply1 : CuratorExecuteRequest :=
  {| action := apply_candidate; scopeType := None; scopeId := None; request_candidateId := Some "c1";
     actorId := Some "admin"; sessionId := None; profileId := None; reason := None; dryRun := false |}.
Definition store1 : Store unit := upsertBatch batch1 [mutation1] empty_store.

Lemma store1_keyed : keyed store1.
Proof. apply upsertBatch_keyed. repeat split; constructor. Qed.

Lemma governance_atomic_witness :
  mutations (executeCuratorGovernanceRequest apply1 "now" store1).1 ≠ [] ∧
  untouched "c1" store1 (executeCuratorGovernanceRequest apply1 "now" store1).1.
Proof.
  split; [done|].
  pose proof (governance_atomic apply1 "now" store1 _ _ store1_keyed (surjective_pairing _)) as H.
  change ((executeCuratorGovernanceRequest apply1 "now" store1).2) with
    (Ok (receipt apply1 "applied" (Some "receipt") (Some "curator-mutation:c1:0123456789") "applied tighten")) in H.
  cbv match in H. destruct H as [[_ [e H]]|[_ (c & Hc & _ & _ & _ & Hu & _)]]; [discriminate H|].
  injection Hc as Hc. rewrite <- Hc in Hu. exact Hu.
Defined.

Definition fs1 : FileStore unit := (file_upsertCandidate mutation1 {| memory := empty_store; stateFile := None; writes := 0 |}).1.
(** The write of the second operation fails. *)
Definition fs2 : FileStore unit := (file_step (op_recordPreview "c1" "now") fs1).1.

Lemma fs2_reachable : file_reachable fs2.
Proof.
  apply (file_stepped (op_recordPreview "c1" "now") fs1 _ (Throw "write_failed")); [|reflexivity].
  apply (file_stepped (op_upsertCandidate mutation1) {| memory := empty_store; stateFile := None; writes := 0 |} _ (Ok ()));
    [|reflexivity].
  by apply (file_opened None).
Qed.

Lemma file_store_durable_witness :
  load (stateFile fs2) = Ok (memory fs1) ∧
  let fs3 := (file_step (op_recordPreview "c1" "later") fs2).1 in load (stateFile fs3) = Ok (memory fs3).
Proof.
  split; [reflexivity|].
  exact (proj2 (file_store_durable fs2 fs2_reachable) (op_recordPreview "c1" "later") _ eq_refl).
Defined.

(** A scan that finds an archived candidate again makes it active. *)
Example rescan_reactivates :
  let archived_c1 := {| lifecycle_state := archived; reasonCode := None; lastTransitionAt := None; staleAt := None;
                        archivedAt := Some "now"; reactivatedAt := None |} in
  match updateCandidateLifecycle "c1" archived_c1 store1 with
  | Ok s => lifecycle <$> map_get "c1" (candidates s) = Some (Some archived_c1) ∧
            lifecycle <$> map_get "c1" (candidates (upsertBatch batch1 [mutation1] s)) = Some None
  | Throw _ => False
  end.
Proof. split; reflexivity. Qed.
End CuratorExample.
