(* ===== verification/CuratorLifecycle.v ===== *)
(** * The lifecycle of curator candidates

    [ts/packages/brain-island/src/curator-lifecycle.ts]: a pass over the candidates of a
    governance store asks the planner of the Rust core about each one, stores the lifecycle
    it decides and counts what it did.  The planner, the hash of a skill's source, the
    existence of a file and [Date.parse] are arguments.  The theorem says what the planner is
    told of each candidate, what its plan makes of it and what the report says of it: every
    candidate is judged once, by its own entry and its batch, although the pass reads the
    map it rewrites. *)

From stdpp Require Import sets.
From S2P Require Import Prelude JsString JsDate Curator.
#[local] Open Scope Z_scope.

(** ** Data *)

Record CuratorLifecyclePolicy := { staleAfterMs : Z; archiveAfterMs : Z }.

(** [input.policy?.staleAfterMs ?? 24 * 60 * 60 * 1_000] and the like *)
Definition lifecycle_policy (stale_after archive_after : option Z) : CuratorLifecyclePolicy :=
  {| staleAfterMs := default (24 * 60 * 60 * 1000) stale_after;
     archiveAfterMs := default (7 * 24 * 60 * 60 * 1000) archive_after |}.

Inductive RustCuratorLifecycleTarget := to_active | to_stale | to_archived | to_skipped | to_unchanged.

Record LifecyclePlanInput := {
  in_candidate_id : string;
  in_status : CuratorStoredCandidateStatus;
  in_lifecycle_state : option CuratorCandidateLifecycleState;
  in_lifecycle_reason_code : option string;
  in_age_since_activity_ms : option Z;
  in_stale_duration_ms : option Z;
  in_activity_after_stale : bool;
  in_source_current : bool;
  in_source_current_reason_code : option string;
  in_pinned : bool;
  in_now : string;
  in_policy : CuratorLifecyclePolicy
}.

Record LifecyclePlan := {
  lifecycle_accepted : bool;
  to : RustCuratorLifecycleTarget;
  reason_code : option string;
  resulting_lifecycle_state : option CuratorCandidateLifecycleState;
  (** the reason codes of [diagnostics] *)
  lifecycle_diagnostics : list string
}.

Inductive TransitionTarget := into (l : CuratorCandidateLifecycleState) | skipped.

Record CuratorLifecycleTransition := {
  transition_candidateId : string;
  transition_targetRef : string;
  transition_from : CuratorCandidateLifecycleState;
  transition_to : TransitionTarget;
  transition_reasonCode : string
}.

Record CuratorLifecycleReport := {
  report_active : Z;
  report_stale : Z;
  report_archived : Z;
  reactivated : Z;
  pinnedSkipped : Z;
  unchanged : Z;
  transitions : list CuratorLifecycleTransition
}.

(** What a pass uses. *)
Class LifecycleEnvironment := {
  lifecycle_planner : LifecyclePlanInput → result LifecyclePlan;
  source_hash : string → result string;
  (** a file at the path the segments join to *)
  path_exists : list string → bool;
  lifecycle_dates : DateText
}.

Section Lifecycle.
Context {L : LifecycleEnvironment} {SnapshotRef : Type}.
#[local] Existing Instance lifecycle_dates.
Implicit Types (s : Store SnapshotRef).

(** ** The lifecycles *)

Definition normalizedLifecycle (c : CuratorStoredCandidate) : CuratorCandidateLifecycle :=
  default {| lifecycle_state := active; reasonCode := None; lastTransitionAt := None; staleAt := None;
             archivedAt := None; reactivatedAt := None |} (lifecycle c).

Definition staleLifecycle (now reason : string) : CuratorCandidateLifecycle :=
  {| lifecycle_state := stale; reasonCode := Some reason; lastTransitionAt := Some now; staleAt := Some now;
     archivedAt := None; reactivatedAt := None |}.

Definition activeLifecycle (now reason : string) : CuratorCandidateLifecycle :=
  {| lifecycle_state := active; reasonCode := Some reason; lastTransitionAt := Some now; staleAt := None;
     archivedAt := None; reactivatedAt := Some now |}.

Definition archivedLifecycle (now reason : string) : CuratorCandidateLifecycle :=
  {| lifecycle_state := archived; reasonCode := Some reason; lastTransitionAt := Some now; staleAt := None;
     archivedAt := Some now; reactivatedAt := None |}.

Definition transition (c : CuratorStoredCandidate) (t : TransitionTarget) (reason : string) : CuratorLifecycleTransition :=
  {| transition_candidateId := candidateId (candidate c); transition_targetRef := targetRef (candidate c);
     transition_from := default active (lifecycle_state <$> lifecycle c); transition_to := t;
     transition_reasonCode := reason |}.

(** ** The planner's input *)

(** [left > right] on strings compares their code units. *)
Definition string_gt (l r : string) : bool := match String.compare l r with Gt => true | _ => false end.

Definition maxIso (l r : option string) : option string :=
  match l with
  | None | Some "" => r
  | Some a => match r with None | Some "" => l | Some b => if string_gt a b then l else r end
  end.

Definition latestActivityAt (c : CuratorStoredCandidate) : option string :=
  maxIso (previewedAt c) (approvedAt <$> approval c).

Definition elapsedMs (start : option string) (now : string) : Z :=
  match start with
  | None | Some "" => 0
  | Some a => match date_parse a, date_parse now with Some t0, Some t1 => Z.max 0 (t1 - t0) | _, _ => 0 end
  end.

Definition skillSlugFromTarget (target : string) : option string :=
  if Str.startsWith target "skill:" then Some (Str.slice_from target 6) else None.

Definition isPinnedSkill (skillsDir slug : string) : bool :=
  path_exists [skillsDir; slug +:+ ".pinned"] || path_exists [skillsDir; slug +:+ ".d"; ".pinned"]
  || path_exists [skillsDir; slug; ".pinned"].

(** An unreadable source counts as a changed one. *)
Fixpoint lifecycle_sources_current (refs : list CuratorCandidateSourceRef) : CandidateCurrentness :=
  match refs with
  | [] => {| sourceCurrent := true; currentness_reason := None |}
  | r :: rs =>
      if negb (String.eqb (ref_kind r) "skill") || negb (truthy (ref_hash r)) then lifecycle_sources_current rs
      else match source_hash (ref_ref r) with
           | Ok h => if bool_decide (Some h = ref_hash r) then lifecycle_sources_current rs
                     else {| sourceCurrent := false; currentness_reason := Some "source_changed" |}
           | Throw _ => {| sourceCurrent := false; currentness_reason := Some "source_changed" |}
           end
  end.

Definition rustLifecyclePlanInput (skillsDir now : string) (policy : CuratorLifecyclePolicy)
    (bs : jsmap string CuratorCandidateBatch) (c : CuratorStoredCandidate) : LifecyclePlanInput :=
  let l := normalizedLifecycle c in
  let cur := lifecycle_sources_current (sourceRefs (candidate c)) in
  let latest := latestActivityAt c in
  let activityAt := match latest with
                    | Some a => Some a
                    | None => generatedAt <$> map_get (batchId (candidate c)) bs
                    end in
  {| in_candidate_id := candidateId (candidate c); in_status := status c;
     in_lifecycle_state := lifecycle_state <$> lifecycle c;
     in_lifecycle_reason_code := present (reasonCode l);
     in_age_since_activity_ms := if truthy activityAt then Some (elapsedMs activityAt now) else None;
     in_stale_duration_ms := if truthy (staleAt l) then Some (elapsedMs (staleAt l) now) else None;
     in_activity_after_stale :=
       match latest, staleAt l with
       | Some a, Some b => truthy latest && truthy (staleAt l) && string_gt a b
       | _, _ => false
       end;
     in_source_current := sourceCurrent cur;
     in_source_current_reason_code := present (currentness_reason cur);
     in_pinned := match skillSlugFromTarget (targetRef (candidate c)) with
                  | Some slug => negb (String.eqb slug "") && isPinnedSkill skillsDir slug
                  | None => false
                  end;
     in_now := now; in_policy := policy |}.

(** ** The pass *)

Definition empty_report : CuratorLifecycleReport :=
  {| report_active := 0; report_stale := 0; report_archived := 0; reactivated := 0; pinnedSkipped := 0;
     unchanged := 0; transitions := [] |}.

(** The change of the counters and the transitions. *)
Definition add_report (r d : CuratorLifecycleReport) : CuratorLifecycleReport :=
  {| report_active := report_active r + report_active d; report_stale := report_stale r + report_stale d;
     report_archived := report_archived r + report_archived d; reactivated := reactivated r + reactivated d;
     pinnedSkipped := pinnedSkipped r + pinnedSkipped d; unchanged := unchanged r + unchanged d;
     transitions := transitions r ++ transitions d |}.

(** One arm of the loop's body: the lifecycle it stores, if any, and what it counts. *)
Definition verdict (now : string) (c : CuratorStoredCandidate) (p : LifecyclePlan)
    : option CuratorCandidateLifecycle * CuratorLifecycleReport :=
  let counted a st ar re pi un ts :=
    {| report_active := a; report_stale := st; report_archived := ar; reactivated := re; pinnedSkipped := pi;
       unchanged := un; transitions := ts |} in
  if negb (lifecycle_accepted p) then
    (None, counted 0 0 0 0 0 1 [transition c skipped (default "curator_lifecycle_rejected" (head (lifecycle_diagnostics p)))])
  else
    match to p with
    | to_active =>
        let reason := default "candidate_reactivated" (reason_code p) in
        (Some (activeLifecycle now reason), counted 1 0 0 1 0 0 [transition c (into active) reason])
    | to_stale =>
        let reason := default "candidate_stale" (reason_code p) in
        (Some (staleLifecycle now reason), counted 0 1 0 0 0 0 [transition c (into stale) reason])
    | to_archived =>
        (Some (archivedLifecycle now (default "idle_stale" (reason_code p))),
         counted 0 0 1 0 0 0 [transition c (into archived) (default "candidate_stale_archive_due" (reason_code p))])
    | to_skipped =>
        (None, counted 0 0 0 0 (if bool_decide (reason_code p = Some "skill_pinned") then 1 else 0) 1
                 [transition c skipped (default "candidate_skipped" (reason_code p))])
    | to_unchanged =>
        (None, match resulting_lifecycle_state p with
               | Some active => counted 1 0 0 0 0 1 []
               | Some stale => counted 0 1 0 0 0 1 []
               | Some archived => counted 0 0 1 0 0 1 []
               | None => counted 0 0 0 0 0 1 []
               end)
    end.

(** The body of the loop. *)
Definition lifecycle_step (skillsDir now : string) (policy : CuratorLifecyclePolicy) (c : CuratorStoredCandidate)
    (s : Store SnapshotRef) (r : CuratorLifecycleReport) : Store SnapshotRef * result CuratorLifecycleReport :=
  match lifecycle_planner (rustLifecyclePlanInput skillsDir now policy (batches s) c) with
  | Throw e => (s, Throw e)
  | Ok p =>
      let '(l, d) := verdict now c p in
      match match l with Some l => updateCandidateLifecycle (candidateId (candidate c)) l s | None => Ok s end with
      | Throw e => (s, Throw e)
      | Ok s1 => (s1, Ok (add_report r d))
      end
  end.

(** [for (const stored of store.candidates.values())]: a map's iterator goes through its
    keys in order and reads each value when it comes to it. *)
Fixpoint lifecycle_pass (skillsDir now : string) (policy : CuratorLifecyclePolicy) (keys : list string)
    (s : Store SnapshotRef) (r : CuratorLifecycleReport) : Store SnapshotRef * result CuratorLifecycleReport :=
  match keys with
  | [] => (s, Ok r)
  | k :: keys =>
      match map_get k (candidates s) with
      | None => lifecycle_pass skillsDir now policy keys s r
      | Some c =>
          match lifecycle_step skillsDir now policy c s r with
          | (s1, Throw e) => (s1, Throw e)
          | (s1, Ok r1) => lifecycle_pass skillsDir now policy keys s1 r1
          end
      end
  end.

Definition runCuratorLifecycleTransitions (skillsDir now : string) (policy : CuratorLifecyclePolicy)
    (s : Store SnapshotRef) : Store SnapshotRef * result CuratorLifecycleReport :=
  lifecycle_pass skillsDir now policy (map_keys (candidates s)) s empty_report.

(** ** The pass as a function of the store *)

(** What becomes of one candidate. *)
Definition judge (skillsDir now : string) (policy : CuratorLifecyclePolicy) (bs : jsmap string CuratorCandidateBatch)
    (c : CuratorStoredCandidate) : result (CuratorStoredCandidate * CuratorLifecycleReport) :=
  p ← lifecycle_planner (rustLifecyclePlanInput skillsDir now policy bs c);
  let '(l, d) := verdict now c p in
  match l with
  | None => Ok (c, d)
  | Some l => if String.eqb (candidateId (candidate c)) "" then Throw "curator_candidate_id_required"
              else Ok (with_lifecycle l c, d)
  end.

(** Every candidate in turn, up to the first error. *)
Fixpoint judge_all (skillsDir now : string) (policy : CuratorLifecyclePolicy) (bs : jsmap string CuratorCandidateBatch)
    (m : jsmap string CuratorStoredCandidate) (r : CuratorLifecycleReport)
    : jsmap string CuratorStoredCandidate * result CuratorLifecycleReport :=
  match m with
  | [] => ([], Ok r)
  | (k, c) :: rest =>
      match judge skillsDir now policy bs c with
      | Throw e => ((k, c) :: rest, Throw e)
      | Ok (c', d) => let '(rest', o) := judge_all skillsDir now policy bs rest (add_report r d) in ((k, c') :: rest', o)
      end
  end.

Definition with_candidates (s : Store SnapshotRef) (m : jsmap string CuratorStoredCandidate) : Store SnapshotRef :=
  {| batches := batches s; candidates := m; mutations := mutations s |}.

Lemma map_set_middle (m1 m2 : jsmap string CuratorStoredCandidate) k c c' :
  k ∉ map_keys m1 → map_set k c' (m1 ++ (k, c) :: m2) = m1 ++ (k, c') :: m2.
Proof.
  induction m1 as [|[k1 c1] m1 IH]; cbn; intros Hk; [by rewrite decide_True|].
  apply not_elem_of_cons in Hk as [? ?]. rewrite decide_False by done. by rewrite IH.
Qed.

Lemma map_get_middle (m1 m2 : jsmap string CuratorStoredCandidate) k c :
  k ∉ map_keys m1 → map_get k (m1 ++ (k, c) :: m2) = Some c.
Proof. intros Hk%map_get_None. rewrite map_get_app, Hk; cbn. by rewrite decide_True. Qed.

Lemma wf_middle (m1 m2 : jsmap string CuratorStoredCandidate) k c : map_wf (m1 ++ (k, c) :: m2) → k ∉ map_keys m1.
Proof. unfold map_wf; rewrite map_keys_app, NoDup_app. intros (_ & Hd & _) Hk. apply (Hd k Hk). left. Qed.

(** A step on a candidate that is filed under its identifier. *)
Lemma lifecycle_step_judge skillsDir now policy s m1 m2 c r :
  candidates s = m1 ++ (candidateId (candidate c), c) :: m2 → candidateId (candidate c) ∉ map_keys m1 →
  lifecycle_step skillsDir now policy c s r =
  match judge skillsDir now policy (batches s) c with
  | Throw e => (s, Throw e)
  | Ok (c', d) => (with_candidates s (m1 ++ (candidateId (candidate c), c') :: m2), Ok (add_report r d))
  end.
Proof.
  intros Hs Hk; unfold lifecycle_step, judge. destruct (lifecycle_planner _) as [p|]; [|done].
  cbn [mbind result_bind]. destruct (verdict now c p) as [[l|] d].
  - unfold updateCandidateLifecycle, requiredCandidate. destruct (String.eqb_spec (candidateId (candidate c)) "") as [->|Hn]; [done|].
    rewrite Hs, map_get_middle by done. unfold set_candidate, with_candidates.
    destruct (candidateId (candidate c)) eqn:E; [done|]. cbn [mbind result_bind]. by rewrite Hs, map_set_middle.
  - unfold with_candidates; rewrite <- Hs. by destruct s.
Qed.

Lemma judge_candidate skillsDir now policy bs c c' d :
  judge skillsDir now policy bs c = Ok (c', d) → candidate c' = candidate c.
Proof.
  intros (p & _ & H)%bind_Ok. destruct (verdict now c p) as [[l|] d1]; [destruct (String.eqb _ _)|]; by simplify_eq.
Qed.

Lemma lifecycle_pass_judge skillsDir now policy m2 : ∀ s m1 r,
  candidates s = m1 ++ m2 → filed (λ c, candidateId (candidate c)) (m1 ++ m2) →
  lifecycle_pass skillsDir now policy (map_keys m2) s r =
  (with_candidates s (m1 ++ (judge_all skillsDir now policy (batches s) m2 r).1),
   (judge_all skillsDir now policy (batches s) m2 r).2).
Proof.
  induction m2 as [|[k c] m2 IH]; intros s m1 r Hs Hf; cbn [map_keys fmap list_fmap fst lifecycle_pass judge_all].
  { rewrite <- Hs. by destruct s. }
  assert (k = candidateId (candidate c)) as ->.
  { destruct Hf as [_ Hf]. apply (proj1 (Forall_forall _ _) Hf (k, c)), elem_of_app; right; left. }
  pose proof (wf_middle _ _ _ _ (proj1 Hf)) as Hk.
  rewrite Hs, map_get_middle, (lifecycle_step_judge _ _ _ _ m1 m2) by done.
  destruct (judge skillsDir now policy (batches s) c) as [[c' d]|e] eqn:Ej; [|cbn [fst snd]; rewrite <- Hs; by destruct s].
  change (m2.*1) with (map_keys m2).
  rewrite (IH _ (m1 ++ [(candidateId (candidate c), c')])); cbn [candidates with_candidates batches];
    [|by rewrite <- app_assoc|].
  - destruct (judge_all _ _ _ _ _ _) as [rest o]; cbn. by rewrite <- app_assoc.
  - rewrite <- app_assoc; cbn. rewrite <- (map_set_middle m1 m2 _ c c') by done.
    apply filed_set; [|done]. cbn; by rewrite (judge_candidate _ _ _ _ _ _ _ Ej).
Qed.

(** The transitions that changed a candidate. *)
Definition changes (r : CuratorLifecycleReport) : Z :=
  Z.of_nat (length (List.filter (λ t, match transition_to t with into _ => true | skipped => false end) (transitions r))).

(** What the counters of a pass over [n] candidates say. *)
Definition accounts (n : Z) (r : CuratorLifecycleReport) : Prop :=
  unchanged r + changes r = n ∧ 0 <= pinnedSkipped r <= unchanged r ∧ 0 <= reactivated r <= report_active r ∧
  changes r - reactivated r <= report_stale r + report_archived r ∧
  report_active r + report_stale r + report_archived r <= n.

Lemma accounts_add n n' r d : accounts n r → accounts n' d → accounts (n + n') (add_report r d).
Proof. unfold accounts, changes; cbn. rewrite List.filter_app, length_app; lia. Qed.

Lemma verdict_accounts now c p : accounts 1 (verdict now c p).2.
Proof.
  unfold verdict, accounts, changes. destruct (lifecycle_accepted p); cbn; [|lia].
  destruct (to p); cbn; [lia..| |destruct (resulting_lifecycle_state p) as [[]|]; cbn; lia].
  destruct (bool_decide _); cbn; lia.
Qed.

Lemma judge_all_accounts skillsDir now policy bs m : ∀ n r r',
  accounts n r → (judge_all skillsDir now policy bs m r).2 = Ok r' → accounts (n + Z.of_nat (length m)) r'.
Proof.
  induction m as [|[k c] m IH]; intros n r r' Hr; cbn; [intros [= <-]; by rewrite Z.add_0_r|].
  destruct (judge _ _ _ _ _) as [[c' d]|] eqn:Ej; [|done]. specialize (IH (n + 1) (add_report r d) r').
  destruct (judge_all _ _ _ _ _ _) as [rest o]; cbn in IH |- *; intros ->.
  replace (n + Z.of_nat (S (length m))) with (n + 1 + Z.of_nat (length m)) by lia.
  apply IH; [|done]. apply accounts_add; [done|]. apply bind_Ok in Ej as (p & _ & Ej).
  pose proof (verdict_accounts now c p) as Hv. destruct (verdict now c p) as [[l|] d1]; [destruct (String.eqb _ _)|]; by simplify_eq.
Qed.

(** ** What a pass promises

    Said without the definitions of the pass: what the planner is told about a candidate,
    what its plan makes of it, and what the report says of it. *)

(** The times at which something was done to a candidate. *)
Definition activity (c : CuratorStoredCandidate) : list string :=
  option_list (previewedAt c) ++ option_list (approvedAt <$> approval c).

(** [o] is the latest of them, or [None] when there is none. *)
Definition latest (c : CuratorStoredCandidate) (o : option string) : Prop :=
  match o with
  | Some a => a ∈ activity c ∧ ∀ b, b ∈ activity c → String.compare a b ≠ Lt
  | None => activity c = []
  end.

(** The milliseconds from [a] to [b], zero when they are out of order or no dates. *)
Definition lasted (a b : string) (n : Z) : Prop :=
  (∀ t0 t1, date_parse a = Some t0 → date_parse b = Some t1 → n = Z.max 0 (t1 - t0)) ∧
  (date_parse a = None ∨ date_parse b = None → n = 0).

Definition pinned (skillsDir target : string) : Prop :=
  ∃ slug, slug ≠ "" ∧ target = "skill:" +:+ slug ∧
    (path_exists [skillsDir; slug +:+ ".pinned"] = true ∨ path_exists [skillsDir; slug +:+ ".d"; ".pinned"] = true ∨
     path_exists [skillsDir; slug; ".pinned"] = true).

(** Every skill the candidate was made from has the hash it had then. *)
Definition sources_unchanged (c : CuratorStoredCandidate) : Prop :=
  ∀ ref h, ref ∈ sourceRefs (candidate c) → ref_kind ref = "skill" → ref_hash ref = Some h → h ≠ "" →
    source_hash (ref_ref ref) = Ok h.

(** A member that is sent when the string [o] is there and not empty. *)
Definition sent {A} (o : option string) (P : string → A → Prop) (x : option A) : Prop :=
  (∀ a, o = Some a → a ≠ "" → ∃ n, x = Some n ∧ P a n) ∧ (o = None ∨ o = Some "" → x = None).

(** What the planner is told of a candidate. *)
Record described (skillsDir now : string) (policy : CuratorLifecyclePolicy) (bs : jsmap string CuratorCandidateBatch)
    (c : CuratorStoredCandidate) (i : LifecyclePlanInput) : Prop := {
  described_id : in_candidate_id i = candidateId (candidate c);
  described_status : in_status i = status c;
  described_state : in_lifecycle_state i = lifecycle_state <$> lifecycle c;
  described_context : in_now i = now ∧ in_policy i = policy;
  described_reason : sent (lifecycle c ≫= reasonCode) eq (in_lifecycle_reason_code i);
  described_pinned : in_pinned i = true ↔ pinned skillsDir (targetRef (candidate c));
  described_sources : in_source_current i = true ↔ sources_unchanged c;
  described_sources_reason :
    in_source_current_reason_code i = if in_source_current i then None else Some "source_changed";
  described_staleness :
    sent (lifecycle c ≫= staleAt) (λ a, lasted a now) (in_stale_duration_ms i);
  described_age : "" ∉ activity c → ∃ o, latest c o ∧
    sent (match o with Some a => Some a | None => generatedAt <$> map_get (batchId (candidate c)) bs end)
      (λ a, lasted a now) (in_age_since_activity_ms i);
  described_activity : "" ∉ activity c →
    in_activity_after_stale i = true ↔
    ∃ a b, latest c (Some a) ∧ lifecycle c ≫= staleAt = Some b ∧ b ≠ "" ∧ String.compare a b = Gt
}.

(** The state a plan moves its candidate to. *)
Definition moved (p : LifecyclePlan) : option CuratorCandidateLifecycleState :=
  match lifecycle_accepted p, to p with
  | true, to_active => Some active
  | true, to_stale => Some stale
  | true, to_archived => Some archived
  | _, _ => None
  end.

(** What is stored when the plan names no reason. *)
Definition stored_reason (t : CuratorCandidateLifecycleState) : string :=
  match t with active => "candidate_reactivated" | stale => "candidate_stale" | archived => "idle_stale" end.

(** What becomes of the candidate [c]. *)
Definition becomes (now : string) (p : LifecyclePlan) (c c' : CuratorStoredCandidate) : Prop :=
  match moved p with
  | None => c' = c
  | Some t =>
      candidate c' = candidate c ∧ approval c' = approval c ∧ previewedAt c' = previewedAt c ∧ status c' = status c ∧
      ∃ l, lifecycle c' = Some l ∧ lifecycle_state l = t ∧ lastTransitionAt l = Some now ∧
        reasonCode l = Some (default (stored_reason t) (reason_code p)) ∧
        reactivatedAt l = (if decide (t = active) then Some now else None) ∧
        staleAt l = (if decide (t = stale) then Some now else None) ∧
        archivedAt l = (if decide (t = archived) then Some now else None)
  end.

(** The state the planner says the candidate is in afterwards. *)
Definition ends_in (p : LifecyclePlan) : option CuratorCandidateLifecycleState :=
  match lifecycle_accepted p, to p with true, to_unchanged => resulting_lifecycle_state p | _, _ => moved p end.

(** What the report announces: nothing of a candidate the planner leaves alone. *)
Definition announced (cp : CuratorStoredCandidate * LifecyclePlan) : option CuratorLifecycleTransition :=
  let '(c, p) := cp in
  let say t reason :=
    Some {| transition_candidateId := candidateId (candidate c); transition_targetRef := targetRef (candidate c);
            transition_from := match lifecycle c with Some l => lifecycle_state l | None => active end;
            transition_to := t; transition_reasonCode := reason |} in
  match moved p with
  | Some archived => say (into archived) (default "candidate_stale_archive_due" (reason_code p))
  | Some t => say (into t) (default (stored_reason t) (reason_code p))
  | None =>
      if negb (lifecycle_accepted p) then say skipped (default "curator_lifecycle_rejected" (head (lifecycle_diagnostics p)))
      else match to p with to_skipped => say skipped (default "candidate_skipped" (reason_code p)) | _ => None end
  end.

Definition tally (P : LifecyclePlan → bool) (ps : list LifecyclePlan) : Z := Z.of_nat (length (List.filter P ps)).

(** The report [r] of the plans [ps] for the candidates [cs], on top of the report [r0]. *)
Record tells (r0 : CuratorLifecycleReport) (cs : list CuratorStoredCandidate) (ps : list LifecyclePlan)
    (r : CuratorLifecycleReport) : Prop := {
  tells_active : report_active r = report_active r0 + tally (λ p, bool_decide (ends_in p = Some active)) ps;
  tells_stale : report_stale r = report_stale r0 + tally (λ p, bool_decide (ends_in p = Some stale)) ps;
  tells_archived : report_archived r = report_archived r0 + tally (λ p, bool_decide (ends_in p = Some archived)) ps;
  tells_reactivated : reactivated r = reactivated r0 + tally (λ p, bool_decide (moved p = Some active)) ps;
  tells_unchanged : unchanged r = unchanged r0 + tally (λ p, bool_decide (moved p = None)) ps;
  tells_pinned : pinnedSkipped r = pinnedSkipped r0 +
    tally (λ p, lifecycle_accepted p && match to p with to_skipped => true | _ => false end &&
                bool_decide (reason_code p = Some "skill_pinned")) ps;
  tells_transitions : transitions r = transitions r0 ++ omap announced (zip cs ps)
}.

(** *** The code keeps it *)

Lemma string_gt_spec a b : string_gt a b = true ↔ String.compare a b = Gt.
Proof. unfold string_gt. destruct (String.compare a b); naive_solver. Qed.

Lemma compare_refl a : String.compare a a = Eq.
Proof. pose proof (String.compare_antisym a a) as H. by destruct (String.compare a a). Qed.

Lemma latest_spec c : "" ∉ activity c → latest c (latestActivityAt c).
Proof.
  unfold latest, latestActivityAt, activity. destruct (previewedAt c) as [a|], (approval c) as [x|]; cbn; intros Hne.
  - destruct a as [|ch a]; [set_solver|]. destruct (approvedAt x) as [|ch' b]; [set_solver|]. cbn [maxIso].
    destruct (string_gt _ _) eqn:E; (split; [set_solver|]); intros d.
    + apply string_gt_spec in E. intros [->|[->| []%elem_of_nil]%elem_of_cons]%elem_of_cons; [by rewrite compare_refl|by rewrite E].
    + assert (String.compare (String ch' b) (String ch a) ≠ Lt) as Hn.
      { intros Hl. rewrite String.compare_antisym in Hl. unfold string_gt in E.
        destruct (String.compare (String ch a) (String ch' b)); done. }
      intros [->|[->| []%elem_of_nil]%elem_of_cons]%elem_of_cons; [done|by rewrite compare_refl].
  - destruct a; [set_solver|]. split; [set_solver|]. intros b Hb. assert (b = String a a0) as -> by set_solver. by rewrite compare_refl.
  - split; [set_solver|]. intros b Hb. assert (b = approvedAt x) as -> by set_solver. by rewrite compare_refl.
  - done.
Qed.

Lemma elapsedMs_lasted a now : a ≠ "" → lasted a now (elapsedMs (Some a) now).
Proof.
  intros Ha. unfold lasted, elapsedMs. destruct a as [|ch a]; [done|].
  destruct (date_parse _) as [t0|], (date_parse now) as [t1|]; naive_solver.
Qed.

Lemma sent_elapsed o now : sent o (λ a, lasted a now) (if truthy o then Some (elapsedMs o now) else None).
Proof.
  split; [|by intros [->| ->]]. intros a -> Ha. exists (elapsedMs (Some a) now).
  split; [destruct a; done|by apply elapsedMs_lasted].
Qed.

Lemma sent_present o : sent o eq (present o).
Proof. split; [|by intros [->| ->]]. intros a -> Ha. exists a. destruct a; done. Qed.

Lemma pinned_spec skillsDir target :
  match skillSlugFromTarget target with Some slug => negb (String.eqb slug "") && isPinnedSkill skillsDir slug | None => false end = true
  ↔ pinned skillsDir target.
Proof.
  unfold skillSlugFromTarget, pinned, isPinnedSkill, Str.startsWith, Str.slice_from.
  destruct (Text.startsWith _ _) eqn:E.
  - apply Text.startsWith_spec in E as [r Hr]. replace (drop 6 (chars target)) with r by (by rewrite Hr).
    assert (target = "skill:" +:+ str r) as -> by (apply chars_inj; by rewrite chars_app, chars_str).
    rewrite andb_true_iff, negb_true_iff, String.eqb_neq, !orb_true_iff. split.
    + intros [Hne [[H|H]|H]]; exists (str r); auto.
    + intros (slug & Hne & Ht & H). assert (slug = str r) as -> by (by injection Ht). split; [done|tauto].
  - split; [done|]. intros (slug & _ & -> & _). assert (Text.startsWith (chars "skill:") (chars ("skill:" +:+ slug)) = true) as H;
      [|congruence]. apply Text.startsWith_spec. exists (chars slug). apply chars_app.
Qed.

Lemma sources_spec refs cur :
  lifecycle_sources_current refs = cur →
  (sourceCurrent cur = true ↔
   ∀ ref h, ref ∈ refs → ref_kind ref = "skill" → ref_hash ref = Some h → h ≠ "" → source_hash (ref_ref ref) = Ok h) ∧
  currentness_reason cur = if sourceCurrent cur then None else Some "source_changed".
Proof.
  intros <-. induction refs as [|r refs [IH IHr]]; cbn; [split; [set_solver|done]|].
  destruct (String.eqb_spec (ref_kind r) "skill") as [Hk|Hk]; cbn;
    [|split; [rewrite IH; set_solver|done]].
  destruct (ref_hash r) as [[|ch h]|] eqn:Eh; cbn; [split; [rewrite IH; set_solver|done]| |split; [rewrite IH; set_solver|done]].
  destruct (source_hash (ref_ref r)) as [h'|] eqn:Es; [case_bool_decide as Ed|].
  - injection Ed as ->. split; [rewrite IH; set_solver|done].
  - split; [|done]. split; [done|]. intros H. specialize (H r (String ch h)). rewrite Es, Eh in H. set_solver.
  - split; [|done]. split; [done|]. intros H. specialize (H r (String ch h)). rewrite Es, Eh in H. set_solver.
Qed.

Lemma normalized_staleAt c : staleAt (normalizedLifecycle c) = lifecycle c ≫= staleAt.
Proof. unfold normalizedLifecycle. by destruct (lifecycle c). Qed.

Lemma normalized_reasonCode c : reasonCode (normalizedLifecycle c) = lifecycle c ≫= reasonCode.
Proof. unfold normalizedLifecycle. by destruct (lifecycle c). Qed.

Lemma planner_input_described skillsDir now policy bs c :
  described skillsDir now policy bs c (rustLifecyclePlanInput skillsDir now policy bs c).
Proof.
  pose proof (sources_spec (sourceRefs (candidate c)) _ eq_refl) as [Hs Hr].
  constructor; unfold rustLifecyclePlanInput; cbn; [done..| | | | | | |].
  - rewrite normalized_reasonCode. apply sent_present.
  - apply pinned_spec.
  - exact Hs.
  - rewrite Hr. by destruct (sourceCurrent _).
  - rewrite normalized_staleAt. apply sent_elapsed.
  - intros Hne. exists (latestActivityAt c). split; [by apply latest_spec|]. apply sent_elapsed.
  - intros Hne. rewrite normalized_staleAt. pose proof (latest_spec c Hne) as Hl. split.
    + destruct (latestActivityAt c) as [a|] eqn:Ea; [|done]. destruct (lifecycle c ≫= staleAt) as [b|] eqn:Eb; [|done].
      rewrite !andb_true_iff, string_gt_spec. intros [[_ Hb] ?]. exists a, b. do 2 (split; [done|]). split; [by destruct b|done].
    + intros (a & b & [Ha Hm] & -> & Hb & Hgt). destruct (latestActivityAt c) as [a'|]; cbn in Hl; [|rewrite Hl in Ha; by apply elem_of_nil in Ha].
      destruct Hl as [Ha' Hm']. assert (a' = a) as ->.
      { specialize (Hm _ Ha'); specialize (Hm' _ Ha). rewrite String.compare_antisym in Hm'. apply String.compare_eq_iff.
        destruct (String.compare a a') eqn:E; try done. apply String.compare_eq_iff in E as ->. by rewrite compare_refl. }
      rewrite !andb_true_iff, string_gt_spec. split; [split|done]; [by destruct a|by destruct b].
Qed.

Lemma verdict_becomes now c p :
  becomes now p c (match (verdict now c p).1 with Some l => with_lifecycle l c | None => c end).
Proof. unfold verdict, becomes, moved. destruct (lifecycle_accepted p), (to p); cbn; eauto 20. Qed.

Lemma verdict_moves now c p l d : verdict now c p = (Some l, d) → moved p ≠ None.
Proof. unfold verdict, moved. by destruct (lifecycle_accepted p), (to p); cbn; intros [=]. Qed.

Lemma tally_cons P p ps : tally P (p :: ps) = Z.b2z (P p) + tally P ps.
Proof. unfold tally; cbn [List.filter]. destruct (P p); cbn [length Z.b2z]; lia. Qed.

Lemma verdict_tells now c p r r' cs ps :
  tells (add_report r (verdict now c p).2) cs ps r' → tells r (c :: cs) (p :: ps) r'.
Proof.
  intros [Ha Hs Hx Hr Hu Hp Ht].
  destruct p as [[] [] rc [[]|] ds]; constructor; rewrite ?tally_cons;
    cbn [lifecycle_accepted to reason_code resulting_lifecycle_state lifecycle_diagnostics verdict add_report negb snd
         report_active report_stale report_archived reactivated pinnedSkipped unchanged transitions] in *;
    rewrite ?Ha, ?Hs, ?Hx, ?Hr, ?Hu, ?Hp, ?Ht, <- ?app_assoc, ?Z.add_assoc, ?Z.add_0_r; try done.
  all: try (case_bool_decide; done).
  all: unfold transition; cbn; by destruct (lifecycle c).
Qed.

(** What a pass over the candidates [m] makes of them: it asks the planner about each in
    turn, and stops at the first error. *)
Definition pass_of (skillsDir now : string) (policy : CuratorLifecyclePolicy) (bs : jsmap string CuratorCandidateBatch)
    (m m' : jsmap string CuratorStoredCandidate) (r0 : CuratorLifecycleReport) (o : result CuratorLifecycleReport) : Prop :=
  ∃ handled rest ps handled', m = handled ++ rest ∧ m' = handled' ++ rest ∧
    Forall3 (λ kc p kc', kc'.1 = kc.1 ∧ becomes now p kc.2 kc'.2 ∧
               ∃ i, described skillsDir now policy bs kc.2 i ∧ lifecycle_planner i = Ok p) handled ps handled' ∧
    match o with
    | Ok r => rest = [] ∧ tells r0 (map_values handled) ps r
    | Throw e => ∃ k c rest' i, rest = (k, c) :: rest' ∧ described skillsDir now policy bs c i ∧
        (lifecycle_planner i = Throw e ∨
         candidateId (candidate c) = "" ∧ e = "curator_candidate_id_required" ∧ ∃ p, lifecycle_planner i = Ok p ∧ moved p ≠ None)
    end.

Lemma judge_all_pass skillsDir now policy bs m : ∀ r,
  pass_of skillsDir now policy bs m (judge_all skillsDir now policy bs m r).1 r (judge_all skillsDir now policy bs m r).2.
Proof.
  induction m as [|[k c] m IH]; intros r; cbn.
  { exists [], [], [], []. split_and!; [done..|constructor|done|]. constructor; cbn; unfold tally; cbn; rewrite ?app_nil_r; lia || done. }
  pose proof (planner_input_described skillsDir now policy bs c) as Hd.
  unfold judge. destruct (lifecycle_planner _) as [p|e] eqn:Ep; cbn [mbind result_bind];
    [|exists [], ((k, c) :: m), [], []; split_and!; [done..|constructor|]; do 4 eexists; eauto].
  pose proof (verdict_becomes now c p) as Hb. pose proof (verdict_moves now c p) as Hm. pose proof (λ r' cs ps, verdict_tells now c p r r' cs ps) as Ht.
  destruct (verdict now c p) as [l d]; cbn [fst snd] in *.
  set (c' := match l with Some l => with_lifecycle l c | None => c end) in *.
  assert (pass_of skillsDir now policy bs ((k, c) :: m) ((k, c') :: (judge_all skillsDir now policy bs m (add_report r d)).1) r
            (judge_all skillsDir now policy bs m (add_report r d)).2) as Hall.
  { destruct (IH (add_report r d)) as (h & rest & ps & h' & Em & Em' & Hf & Ho).
    exists ((k, c) :: h), rest, (p :: ps), ((k, c') :: h'). rewrite Em at 1; rewrite Em'. split_and!; [done..|constructor; eauto|].
    destruct (judge_all _ _ _ _ m _).2; [|done]. destruct Ho; split; [done|]. by apply Ht. }
  destruct l as [l|]; [destruct (String.eqb_spec (candidateId (candidate c)) "") as [Hid|]|].
  - exists [], ((k, c) :: m), [], []. split_and!; [done..|constructor|].
    exists k, c, m, (rustLifecyclePlanInput skillsDir now policy bs c). split_and!; [done..|]. right. do 2 (split; [done|]).
    exists p. split; [done|]. by eapply Hm.
  - destruct (judge_all _ _ _ _ m _); exact Hall.
  - destruct (judge_all _ _ _ _ m _); exact Hall.
Qed.
End Lifecycle.

(** C28. A lifecycle pass asks the planner about the candidates of the initial store, each
    once and in order, up to the first error.  The planner is told of a candidate what its
    own entry, its batch and the skills say: its status and lifecycle, whether it is pinned,
    whether its sources still have their hashes, how long ago it was last worked on and made
    stale, and whether it was worked on since.  A candidate becomes what its plan says: one that
    is moved has the new state, the reason and only the new state's time, and nothing else
    of it changes; a skipped, refused or unchanged one is the same.  A returned report counts
    the states the candidates end in, the reactivated, the pinned and the unchanged ones,
    and announces every move, skip and refusal in order; the counters account for all
    candidates.  What was stored before an error stays; batches and mutations are left. *)
Theorem lifecycle_pass_exact {L : LifecycleEnvironment} {SnapshotRef} skillsDir now policy (s : Store SnapshotRef) s' o :
  keyed s → runCuratorLifecycleTransitions skillsDir now policy s = (s', o) →
  pass_of skillsDir now policy (batches s) (candidates s) (candidates s') empty_report o ∧
  batches s' = batches s ∧ mutations s' = mutations s ∧
  ∀ r, o = Ok r → accounts (Z.of_nat (length (candidates s))) r.
Proof.
  intros (_ & Hc & _). unfold runCuratorLifecycleTransitions. rewrite (lifecycle_pass_judge _ _ _ _ _ [] _ eq_refl Hc).
  pose proof (judge_all_pass skillsDir now policy (batches s) (candidates s) empty_report) as Hp.
  intros H; injection H as <- <-. split_and!; [exact Hp|done..|]. intros r Hr.
  apply (judge_all_accounts skillsDir now policy (batches s) (candidates s) 0 empty_report); [|done].
  unfold accounts, changes; cbn; lia.
Qed.

(** ** An example *)

Module LifecycleExample.
(** A planner that makes idle candidates stale and fails for the candidate ["bad"]. *)
Definition plan (i : LifecyclePlanInput) : result LifecyclePlan :=
  if String.eqb (in_candidate_id i) "bad" then Throw "planner" else
  let idle := bool_decide (staleAfterMs (in_policy i) <= default 0 (in_age_since_activity_ms i)) in
  Ok {| lifecycle_accepted := true;
        to := if in_pinned i then to_skipped else if idle then to_stale else to_unchanged;
        reason_code := if in_pinned i then Some "skill_pinned" else None; resulting_lifecycle_state := Some active;
        lifecycle_diagnostics := [] |}.

#[export] Instance environment1 : LifecycleEnvironment :=
  {| lifecycle_planner := plan; source_hash := λ _, Ok "h";
     path_exists := λ p, bool_decide (p = ["/skills"; "fmt.pinned"]); lifecycle_dates := iso_date_text |}.

Definition candidate_of (id target : string) : CuratorMutationCandidate :=
  {| base := CuratorExample.candidate1 id target []; mutation := skill_archive "lint" "fmt"; expiresAt := None |}.
Definition store2 : Store unit :=
  upsertBatch CuratorExample.batch1 [candidate_of "c1" "skill:lint"; candidate_of "c2" "skill:fmt"] empty_store.

Lemma store2_keyed : keyed store2.
Proof. apply upsertBatch_keyed. repeat split; constructor. Qed.

Definition pass2 := runCuratorLifecycleTransitions "/skills" "2026-01-03T00:00:00.000Z" (lifecycle_policy None None) store2.

Lemma lifecycle_pass_exact_witness :
  lifecycle <$> map_get "c1" (candidates pass2.1) = Some (Some (staleLifecycle "2026-01-03T00:00:00.000Z" "candidate_stale")) ∧
  ∃ r, pass2.2 = Ok r ∧ pinnedSkipped r = 1 ∧ accounts 2 r.
Proof.
  split; [vm_compute; reflexivity|].
  pose proof (lifecycle_pass_exact "/skills" "2026-01-03T00:00:00.000Z" (lifecycle_policy None None) store2 _ _ store2_keyed
    (surjective_pairing _)) as (_ & _ & _ & Ha).
  eexists. split_and!; [vm_compute; reflexivity..|]. apply Ha. vm_compute; reflexivity.
Defined.
End LifecycleExample.
