(* ===== verification/CuratorNative.v ===== *)
(** * The curator's native store

    [NativeCuratorGovernanceStore] of [ts/packages/brain-island/src/curator-mutations.ts]:
    the governance store whose [persist] sends every changed candidate and mutation to the
    Rust core through the native bridge, and the snapshots of skill files with the form in
    which the core keeps them.  The bridge, the hash and the file system are arguments.
    The theorems: a persist that returns leaves nothing to send, and a mutation read back
    from the core is rolled back by the same file operations. *)

From stdpp Require Import sets.
From S2P Require Import Prelude JsString Paths Curator.
#[local] Open Scope Z_scope.

(** ** Snapshots of skill files *)

Record CuratorSnapshotRef := {
  snapshotId : string;
  snapshotDir : string;
  snapshot_createdAt : string;
  snapshot_skillPath : string;
  skillExisted : bool;
  skillSnapshotPath : option string;
  snapshot_sidecarPath : option string;
  sidecarExisted : option bool;
  sidecarSnapshotPath : option string;
  snapshot_filePath : option string;
  fileExisted : option bool;
  fileSnapshotPath : option string
}.

(** The operations on files, in the order in which they are awaited. *)
Inductive FileAction :=
| Mkdir (dir : string)
| Copy (from to : string) (recursive : bool)
| Remove (path : string) (recursive : bool)
| WriteFile (path : string).

(** [restoreSnapshot] *)
Definition restoreSnapshot (s : CuratorSnapshotRef) : list FileAction :=
  match (if skillExisted s then present (skillSnapshotPath s) else None) with
  | Some copy => [Mkdir (dirname (snapshot_skillPath s)); Copy copy (snapshot_skillPath s) false]
  | None => [Remove (snapshot_skillPath s) false]
  end ++
  match present (snapshot_filePath s) with
  | Some file =>
      match (if default false (fileExisted s) then present (fileSnapshotPath s) else None) with
      | Some copy => [Mkdir (dirname file); Copy copy file false]
      | None => [Remove file false]
      end
  | None =>
      match present (snapshot_sidecarPath s) with
      | None => []
      | Some dir =>
          Remove dir true ::
          match (if default false (sidecarExisted s) then present (sidecarSnapshotPath s) else None) with
          | Some copy => [Copy copy dir true]
          | None => []
          end
      end
  end.

(** [value.replace(/[^A-Za-z0-9_.-]/g, "_")] *)
Definition safePathPart (v : string) : string :=
  str (map (λ c, if is_lower c || is_upper c || is_digit c || bool_decide (c ∈ chars "_.-") then c else "_"%char) (chars v)).

(** [.replace(/[:.]/g, "-")] *)
Definition snapshot_time (now : string) : string :=
  str (map (λ c, if bool_decide (c ∈ chars ":.") then "-"%char else c) (chars now)).

Definition operation_slug (o : CuratorMutationOperation) : string :=
  match o with
  | skill_patch slug _ _ _ | skill_create slug _ | skill_archive slug _ | sidecar_write slug _ _ => slug
  end.

Definition safeSidecarFilePath (cwd sidecar p : string) : result string :=
  let normalized := str (map (λ c, if Ascii.eqb c "\" then slash else c) (chars p)) in
  let topLevel := default "" (head (Str.split slash normalized)) in
  if Str.startsWith normalized "/" || Text.includes (chars normalized) (chars "..")
     || negb (bool_decide (topLevel ∈ ["references"; "templates"; "scripts"; "assets"]))
  then Throw "curator_invalid_file_path"
  else
    let root := resolve cwd [sidecar] in
    let target := resolve cwd [root; normalized] in
    if negb (String.eqb target root) && Str.startsWith target (root +:+ "/") then Ok target
    else Throw "curator_invalid_file_path".

(** [snapshotBeforeMutation]: what was done to files, and the snapshot or the error. *)
Definition snapshotBeforeMutation (cwd skillsDir : string) (snapshotRoot : option string) (pathExists : string → bool)
    (now : string) (c : CuratorMutationCandidate) : list FileAction * result CuratorSnapshotRef :=
  let timestamp := snapshot_time now in
  let sid := safePathPart (candidateId c) +:+ "-" +:+ timestamp in
  let dir := join_path (default (join_path skillsDir ".curator/snapshots") snapshotRoot) sid in
  let skill := join_path skillsDir (operation_slug (mutation c) +:+ ".md") in
  let sidecar := join_path skillsDir (operation_slug (mutation c) +:+ ".d") in
  let copy src name recursive := if pathExists src then [Copy src (join_path dir name) recursive] else [] in
  let kept src name := if pathExists src then Some (join_path dir name) else None in
  let made (file : option string) : CuratorSnapshotRef :=
    {| snapshotId := sid; snapshotDir := dir; snapshot_createdAt := timestamp; snapshot_skillPath := skill;
       skillExisted := pathExists skill; skillSnapshotPath := kept skill "skill.md";
       snapshot_sidecarPath := if pathExists sidecar then Some sidecar else None;
       sidecarExisted := if pathExists sidecar then Some true else None;
       sidecarSnapshotPath := kept sidecar "sidecar.d"; snapshot_filePath := file;
       fileExisted := pathExists <$> file; fileSnapshotPath := f ← file; kept f "sidecar-file" |} in
  let before := Mkdir dir :: copy skill "skill.md" false ++ copy sidecar "sidecar.d" true in
  match mutation c with
  | sidecar_write _ p _ =>
      match safeSidecarFilePath cwd sidecar p with
      | Throw e => (before, Throw e)
      | Ok file => (before ++ copy file "sidecar-file" false ++ [WriteFile (join_path dir "snapshot.json")], Ok (made (Some file)))
      end
  | _ => (before ++ [WriteFile (join_path dir "snapshot.json")], Ok (made None))
  end.

Section Manifest.
(** the working directory of the process *)
Context (cwd : string).

Definition safeRelative (root target : string) : result string :=
  let resolvedRoot := resolve cwd [root] in
  let resolvedTarget := if is_absolute target then resolve cwd [target] else resolve cwd [resolvedRoot; target] in
  let ref := relative cwd resolvedRoot resolvedTarget in
  if String.eqb ref "" || String.eqb ref "." || Str.startsWith ref "../" || String.eqb ref ".." then
    if String.eqb ref "." then Ok "snapshot" else Throw "curator_snapshot_ref_invalid"
  else Ok ref.

(** [snapshot.x ? safeRelative(root, snapshot.x) : undefined] *)
Definition relative_if (root : string) (p : option string) : result (option string) :=
  match present p with Some t => r ← safeRelative root t; Ok (Some r) | None => Ok None end.

Record SnapshotManifest := {
  snapshotDirRef : string;
  skillPathRef : string;
  manifest_skillExisted : bool;
  skillSnapshotPathRef : option string;
  sidecarPathRef : option string;
  manifest_sidecarExisted : option bool;
  sidecarSnapshotPathRef : option string;
  filePathRef : option string;
  manifest_fileExisted : option bool;
  fileSnapshotPathRef : option string
}.

Definition snapshotManifest (s : CuratorSnapshotRef) (skillsDir snapshotRoot : string) : result SnapshotManifest :=
  dir ← safeRelative snapshotRoot (snapshotDir s);
  skill ← safeRelative skillsDir (snapshot_skillPath s);
  skill_copy ← relative_if snapshotRoot (skillSnapshotPath s);
  sidecar ← relative_if skillsDir (snapshot_sidecarPath s);
  sidecar_copy ← relative_if snapshotRoot (sidecarSnapshotPath s);
  file ← relative_if skillsDir (snapshot_filePath s);
  file_copy ← relative_if snapshotRoot (fileSnapshotPath s);
  Ok {| snapshotDirRef := dir; skillPathRef := skill; manifest_skillExisted := skillExisted s;
        skillSnapshotPathRef := skill_copy; sidecarPathRef := sidecar; manifest_sidecarExisted := sidecarExisted s;
        sidecarSnapshotPathRef := sidecar_copy; filePathRef := file; manifest_fileExisted := fileExisted s;
        fileSnapshotPathRef := file_copy |}.

Definition rooted (root : string) (r : option string) : option string :=
  match present r with Some v => Some (resolve cwd [root; v]) | None => None end.

Definition snapshotFromManifest (id : string) (m : SnapshotManifest) (skillsDir snapshotRoot createdAt : string)
    : CuratorSnapshotRef :=
  {| snapshotId := id;
     snapshotDir := default snapshotRoot (rooted snapshotRoot (Some (snapshotDirRef m)));
     snapshot_createdAt := createdAt;
     snapshot_skillPath := default skillsDir (rooted skillsDir (Some (skillPathRef m)));
     skillExisted := manifest_skillExisted m;
     skillSnapshotPath := rooted snapshotRoot (skillSnapshotPathRef m);
     snapshot_sidecarPath := rooted skillsDir (sidecarPathRef m);
     sidecarExisted := Some (default false (manifest_sidecarExisted m));
     sidecarSnapshotPath := rooted snapshotRoot (sidecarSnapshotPathRef m);
     snapshot_filePath := rooted skillsDir (filePathRef m);
     fileExisted := Some (default false (manifest_fileExisted m));
     fileSnapshotPath := rooted snapshotRoot (fileSnapshotPathRef m) |}.
End Manifest.

(** ** What the core keeps *)

Record NativeCandidateRecord := {
  record_candidateId : string;
  record_batchId : string;
  record_profileId : string;
  record_kind : string;
  record_summary : string;
  record_fingerprint : string;
  candidatePayload : CuratorStoredCandidate * string;
  record_mutation : CuratorMutationOperation;
  record_sourceRefs : list CuratorCandidateSourceRef;
  record_expiresAt : option string;
  record_status : CuratorStoredCandidateStatus;
  lifecycleState : CuratorCandidateLifecycleState;
  lifecycleReasonCode : option string;
  record_revision : Z;
  record_createdAt : string;
  updatedAt : string
}.

Record NativeMutationRecord := {
  native_mutationId : string;
  native_receiptId : string;
  native_candidateId : string;
  native_candidateRevision : Z;
  native_action : string;
  native_actorId : option string;
  native_reason : string;
  native_snapshotId : string;
  payload_management : option SkillManagementResult;
  payload_error : option string;
  payload_manifest : option SnapshotManifest;
  native_changedPaths : list string;
  native_status : CuratorMutationStatus;
  native_revision : Z;
  native_createdAt : string;
  native_appliedAt : option string;
  native_rolledBackAt : option string
}.

Record NativeApprovalRecord := {
  approvalRecordId : string;
  approvalReceiptId : string;
  approvalCandidateId : string;
  approvalCandidateRevision : Z;
  approvalFingerprint : string;
  approvalActorId : option string;
  approvalReason : string;
  approvalApprovedAt : string
}.

Record NativeSnapshotRecord := {
  ns_snapshotId : string;
  ns_candidateId : string;
  snapshotRootRef : string;
  ns_manifest : SnapshotManifest;
  ns_createdAt : string;
  verifiedAt : string
}.

(** [CuratorActivityReceipt] with the idempotency key and the actor it is written with *)
Record CuratorActivityReceipt := {
  sequence : Z;
  activity_receiptId : string;
  correlationId : option string;
  idempotencyKey : string;
  activity_profileId : option string;
  activity_candidateId : option string;
  activity_mutationId : option string;
  activityKind : string;
  outcome : string;
  activity_reasonCode : option string;
  activity_summary : string;
  activity_actorId : option string;
  occurredAt : string
}.

(** A record with the revision it is to replace. *)
Record Write (R : Type) := { write_record : R; expected_revision : option Z }.
Arguments write_record {_} _.
Arguments expected_revision {_} _.

Record GovernanceWrite := {
  write_candidate : option (Write NativeCandidateRecord);
  write_approval : option NativeApprovalRecord;
  write_snapshot : option NativeSnapshotRecord;
  write_mutation : option (Write NativeMutationRecord);
  write_receipt : CuratorActivityReceipt
}.

(** [NativeGovernanceWriteResult]: the revisions of the records written. *)
Record WriteResult := {
  result_candidate : option Z;
  result_mutation : option Z;
  result_receipt : CuratorActivityReceipt
}.

(** What is hashed. *)
Inductive Hashed :=
| HashStored (c : CuratorStoredCandidate)
| HashMutation (m : CuratorMutationRecord CuratorSnapshotRef)
| HashAudit (kind subject : string) (c : CuratorStoredCandidate)
| HashFailure (kind subject : string) (candidateId : option string) (correlation profile : string)
    (actor : option string) (reason now : string).

(** The clock of a store is the time at which it was loaded: [now: () => input.now]. *)
Class NativeEnvironment := {
  native_now : string;
  native_cwd : string;
  native_skillsDir : string;
  native_snapshotRoot : string;
  stableHash : Hashed → string;
  (** the answer of the bridge to the n-th write *)
  applyCuratorGovernanceWrite : nat → GovernanceWrite → result WriteResult;
  publishActivityCallback : option (CuratorActivityReceipt → result unit)
}.

(** ** The store *)

Record NativeStore := {
  memory : Store CuratorSnapshotRef;
  candidateRevisions : jsmap string Z;
  candidateHashes : jsmap string string;
  mutationRevisions : jsmap string Z;
  mutationHashes : jsmap string string;
  persistedApprovalIds : list string;
  candidateProfileIds : jsmap string string;
  activityProjectionFailures : list (string * string);
  lastActivityReceipt : option CuratorActivityReceipt;
  sent : list GovernanceWrite
}.

(** A method of the store: it changes the store, and returns or throws. *)
Definition method (A : Type) : Type := NativeStore → NativeStore * result A.
#[local] Instance method_ret : MRet method := λ A a s, (s, Ok a).
#[local] Instance method_bind : MBind method := λ A B f m s,
  match m s with
  | (s1, Ok a) => f a s1
  | (s1, Throw e) => (s1, Throw e)
  end.
Definition lift {A} (r : result A) : method A := λ s, (s, r).
Definition update (f : NativeStore → NativeStore) : method unit := λ s, (f s, Ok ()).
Definition read {A} (f : NativeStore → A) : method A := λ s, (s, Ok (f s)).

Section Native.
Context {N : NativeEnvironment}.

Definition set_profile (id profile : string) (s : NativeStore) : NativeStore :=
  {| memory := memory s; candidateRevisions := candidateRevisions s; candidateHashes := candidateHashes s;
     mutationRevisions := mutationRevisions s; mutationHashes := mutationHashes s;
     persistedApprovalIds := persistedApprovalIds s; candidateProfileIds := map_set id profile (candidateProfileIds s);
     activityProjectionFailures := activityProjectionFailures s; lastActivityReceipt := lastActivityReceipt s;
     sent := sent s |}.

Definition profile_of (c : CuratorMutationCandidate) (s : NativeStore) : string :=
  match map_get (candidateId c) (candidateProfileIds s) with
  | Some p => p
  | None => default "service" (map_get (batchId c) (batches (memory s)) ≫= batch_profileId)
  end.

Definition profileIdForCandidate (c : CuratorMutationCandidate) : method string := λ s,
  (set_profile (candidateId c) (profile_of c s) s, Ok (profile_of c s)).

Definition approvalId (a : CuratorApprovalRecord) : string := approval_candidateId a +:+ ":" +:+ approval_fingerprint a.

Definition candidateCreatedAt (c : CuratorStoredCandidate) (fallback : string) : string :=
  match previewedAt c with
  | Some t => t
  | None => match approvedAt <$> approval c with
            | Some t => t
            | None => default fallback (lifecycle c ≫= lastTransitionAt)
            end
  end.

Definition candidateActivityKind (c : CuratorStoredCandidate) : string :=
  match lifecycle_state <$> lifecycle c with
  | Some stale => "candidate_staled"
  | Some archived => "candidate_archived"
  | _ => match status c with
         | previewed => "candidate_previewed"
         | approved => "candidate_approved"
         | applied => "mutation_applied"
         | proposed => "candidate_discovered"
         end
  end.

Definition mutationActivityKind (st : CuratorMutationStatus) : string :=
  match st with
  | mutation_applied => "mutation_applied"
  | mutation_failed => "mutation_failed"
  | rolled_back => "rollback_completed"
  | rollback_failed => "rollback_failed"
  end.

Definition auditReceipt (kind subject : string) (c : CuratorStoredCandidate) (now profile : string)
    (actor reason : option string) : CuratorActivityReceipt :=
  let key := stableHash (HashAudit kind subject c) in
  {| sequence := 0; activity_receiptId := "curator-receipt:" +:+ kind +:+ ":" +:+ Str.slice key 0 20;
     correlationId := Some ("curator:" +:+ batchId (candidate c)); idempotencyKey := key;
     activity_profileId := Some profile; activity_candidateId := Some (candidateId (candidate c));
     activity_mutationId := if Str.startsWith kind "mutation_" || Str.startsWith kind "rollback_" then Some subject else None;
     activityKind := kind; outcome := if Str.endsWith kind "failed" then "failed" else "accepted";
     activity_reasonCode := reason; activity_summary := kind +:+ " for " +:+ subject; activity_actorId := actor;
     occurredAt := now |}.

Definition failureAuditReceipt (kind subject : string) (id : option string) (correlation profile : string)
    (actor : option string) (reason now : string) : CuratorActivityReceipt :=
  let key := stableHash (HashFailure kind subject id correlation profile actor reason now) in
  {| sequence := 0; activity_receiptId := "curator-receipt:" +:+ kind +:+ ":" +:+ Str.slice key 0 20;
     correlationId := Some correlation; idempotencyKey := key; activity_profileId := Some profile;
     activity_candidateId := id; activity_mutationId := if String.eqb kind "mutation_failed" then Some subject else None;
     activityKind := kind; outcome := "failed"; activity_reasonCode := Some reason;
     activity_summary := kind +:+ " for " +:+ subject +:+ ": " +:+ reason; activity_actorId := actor; occurredAt := now |}.

(** *** The parts of a write *)

Definition candidateWrite (c : CuratorStoredCandidate) : method (Write NativeCandidateRecord) :=
  profile ← profileIdForCandidate (candidate c);
  s ← read id;
  let cid := candidateId (candidate c) in
  mret {| write_record :=
            {| record_candidateId := cid; record_batchId := batchId (candidate c); record_profileId := profile;
               record_kind := kind (candidate c); record_summary := summary (candidate c);
               record_fingerprint := fingerprint (candidate c); candidatePayload := (c, profile);
               record_mutation := mutation (candidate c); record_sourceRefs := sourceRefs (candidate c);
               record_expiresAt := expiresAt (candidate c); record_status := status c;
               lifecycleState := default active (lifecycle_state <$> lifecycle c);
               lifecycleReasonCode := lifecycle c ≫= reasonCode;
               record_revision := default 0 (map_get cid (candidateRevisions s));
               record_createdAt := candidateCreatedAt c native_now; updatedAt := native_now |};
          expected_revision := map_get cid (candidateRevisions s) |}.

Definition newApproval (c : CuratorStoredCandidate) : method (option NativeApprovalRecord) := λ s,
  (s, Ok (a ← approval c;
          if bool_decide (approvalId a ∈ persistedApprovalIds s) then None
          else Some {| approvalRecordId := approvalId a; approvalReceiptId := "curator-approval:" +:+ approvalId a;
                       approvalCandidateId := approval_candidateId a;
                       approvalCandidateRevision := default 0 (map_get (approval_candidateId a) (candidateRevisions s));
                       approvalFingerprint := approval_fingerprint a; approvalActorId := approval_actorId a;
                       approvalReason := approval_reason a; approvalApprovedAt := approvedAt a |})).

Definition snapshotRecord (m : CuratorMutationRecord CuratorSnapshotRef) : result NativeSnapshotRecord :=
  let snap := mutation_snapshot m in
  root ← safeRelative native_cwd native_snapshotRoot (snapshotDir snap);
  manifest ← snapshotManifest native_cwd snap native_skillsDir native_snapshotRoot;
  Ok {| ns_snapshotId := snapshotId snap; ns_candidateId := mutation_candidateId m; snapshotRootRef := root;
        ns_manifest := manifest; ns_createdAt := snapshot_createdAt snap; verifiedAt := appliedAt m |}.

(** [...(management.x ? { x: safeRelative(skillsDir, management.x) } : {})] *)
Definition safe_path (p : option string) : result (option string) :=
  match present p with Some t => r ← safeRelative native_cwd native_skillsDir t; Ok (Some r) | None => Ok p end.

Definition safeSkillManagement (m : option SkillManagementResult) : result (option SkillManagementResult) :=
  match m with
  | None => Ok None
  | Some m =>
      skill ← safe_path (skillPath m); sidecar ← safe_path (sidecarPath m); file ← safe_path (filePath m);
      archive ← safe_path (archivePath m); sidecar_archive ← safe_path (sidecarArchivePath m);
      Ok (Some {| manage_action := manage_action m; manage_slug := manage_slug m; changed := changed m;
                  skillPath := skill; sidecarPath := sidecar; filePath := file; archivePath := archive;
                  sidecarArchivePath := sidecar_archive |})
  end.

Definition mutation_record_of (m : CuratorMutationRecord CuratorSnapshotRef) (candidateRevision : Z) (revision : Z)
    : result NativeMutationRecord :=
  management ← safeSkillManagement (management m);
  manifest ← snapshotManifest native_cwd (mutation_snapshot m) native_skillsDir native_snapshotRoot;
  paths ← mapR (safeRelative native_cwd native_skillsDir) (changedPaths m);
  Ok {| native_mutationId := mutationId m; native_receiptId := "curator-mutation:" +:+ mutationId m;
        native_candidateId := mutation_candidateId m; native_candidateRevision := candidateRevision;
        native_action := mutation_action m; native_actorId := mutation_actorId m; native_reason := mutation_reason m;
        native_snapshotId := snapshotId (mutation_snapshot m); payload_management := management;
        payload_error := mutation_error m; payload_manifest := Some manifest; native_changedPaths := paths;
        native_status := mutation_status m; native_revision := revision; native_createdAt := appliedAt m;
        native_appliedAt := match mutation_status m with mutation_applied => Some (appliedAt m) | _ => None end;
        native_rolledBackAt := match mutation_status m with rolled_back => Some native_now | _ => None end |}.

Definition mutationWrite (m : CuratorMutationRecord CuratorSnapshotRef) : method (Write NativeMutationRecord) := λ s,
  (s, r ← mutation_record_of m (default 0 (map_get (mutation_candidateId m) (candidateRevisions s)))
            (default 0 (map_get (mutationId m) (mutationRevisions s)));
      Ok {| write_record := r; expected_revision := map_get (mutationId m) (mutationRevisions s) |}).

(** *** Sending *)

(** A write is sent and answered; what was sent is recorded. *)
Definition send (w : GovernanceWrite) : method WriteResult := λ s,
  ({| memory := memory s; candidateRevisions := candidateRevisions s; candidateHashes := candidateHashes s;
      mutationRevisions := mutationRevisions s; mutationHashes := mutationHashes s;
      persistedApprovalIds := persistedApprovalIds s; candidateProfileIds := candidateProfileIds s;
      activityProjectionFailures := activityProjectionFailures s; lastActivityReceipt := lastActivityReceipt s;
      sent := sent s ++ [w] |}, applyCuratorGovernanceWrite (length (sent s)) w).

Definition rememberCandidate (c : CuratorStoredCandidate) (revision : Z) : method unit :=
  update (λ s,
    {| memory := memory s;
       candidateRevisions := map_set (candidateId (candidate c)) revision (candidateRevisions s);
       candidateHashes := map_set (candidateId (candidate c)) (stableHash (HashStored c)) (candidateHashes s);
       mutationRevisions := mutationRevisions s; mutationHashes := mutationHashes s;
       persistedApprovalIds := match approval c with
                               | Some a => set_add (approvalId a) (persistedApprovalIds s)
                               | None => persistedApprovalIds s
                               end;
       candidateProfileIds := candidateProfileIds s; activityProjectionFailures := activityProjectionFailures s;
       lastActivityReceipt := lastActivityReceipt s; sent := sent s |}).

Definition rememberMutation (m : CuratorMutationRecord CuratorSnapshotRef) (revision : Z) : method unit :=
  update (λ s,
    {| memory := memory s; candidateRevisions := candidateRevisions s; candidateHashes := candidateHashes s;
       mutationRevisions := map_set (mutationId m) revision (mutationRevisions s);
       mutationHashes := map_set (mutationId m) (stableHash (HashMutation m)) (mutationHashes s);
       persistedApprovalIds := persistedApprovalIds s; candidateProfileIds := candidateProfileIds s;
       activityProjectionFailures := activityProjectionFailures s; lastActivityReceipt := lastActivityReceipt s;
       sent := sent s |}).

Definition set_activity (failures : list (string * string)) (r : option CuratorActivityReceipt) (s : NativeStore)
    : NativeStore :=
  {| memory := memory s; candidateRevisions := candidateRevisions s; candidateHashes := candidateHashes s;
     mutationRevisions := mutationRevisions s; mutationHashes := mutationHashes s;
     persistedApprovalIds := persistedApprovalIds s; candidateProfileIds := candidateProfileIds s;
     activityProjectionFailures := failures; lastActivityReceipt := r; sent := sent s |}.

(** A failed publication is kept, the last hundred of them, and not thrown. *)
Definition publishActivity (r : CuratorActivityReceipt) : method unit :=
  update (λ s,
    match publishActivityCallback with
    | Some publish =>
        match publish r with
        | Ok _ => set_activity (activityProjectionFailures s) (Some r) s
        | Throw e =>
            let failures := activityProjectionFailures s ++ [(activity_receiptId r, e)] in
            set_activity (if (100 <? length failures)%nat then drop 1 failures else failures) (Some r) s
        end
    | None => set_activity (activityProjectionFailures s) (Some r) s
    end).

(** *** [persist] *)

Definition stored_changed (c : CuratorStoredCandidate) (s : NativeStore) : bool :=
  negb (bool_decide (map_get (candidateId (candidate c)) (candidateHashes s) = Some (stableHash (HashStored c)))).

Definition mutation_changed (m : CuratorMutationRecord CuratorSnapshotRef) (s : NativeStore) : bool :=
  negb (bool_decide (map_get (mutationId m) (mutationHashes s) = Some (stableHash (HashMutation m)))).

(** The body of the first loop for a mutation that changed; the candidates it persisted
    are returned. *)
Definition persist_mutation (m : CuratorMutationRecord CuratorSnapshotRef) (persisted : list string)
    : method (list string) :=
  s ← read id;
  c ← lift (requiredCandidate (memory s) (Some (mutation_candidateId m)));
  let moved := negb (bool_decide (map_get (mutation_candidateId m) (candidateHashes s) = Some (stableHash (HashStored c)))) in
  cw ← (if moved then w ← candidateWrite c; mret (Some w) else mret None);
  aw ← newApproval c;
  s1 ← read id;
  sw ← (match map_get (mutationId m) (mutationRevisions s1) with
        | None => r ← lift (snapshotRecord m); mret (Some r)
        | Some _ => mret None
        end);
  mw ← mutationWrite m;
  profile ← profileIdForCandidate (candidate c);
  answer ← send {| write_candidate := cw; write_approval := aw; write_snapshot := sw; write_mutation := Some mw;
                   write_receipt := auditReceipt (mutationActivityKind (mutation_status m)) (mutationId m) c native_now
                                      profile (mutation_actorId m) (mutation_error m) |};
  persisted ← (match result_candidate answer with
               | Some r => _ ← rememberCandidate c r; mret (set_add (candidateId (candidate c)) persisted)
               | None => mret persisted
               end);
  _ ← (match result_mutation answer with Some r => rememberMutation m r | None => mret () end);
  _ ← publishActivity (result_receipt answer);
  mret persisted.

Fixpoint persist_mutations (ms : list (CuratorMutationRecord CuratorSnapshotRef)) (persisted : list string)
    : method (list string) :=
  match ms with
  | [] => mret persisted
  | m :: ms =>
      changed ← read (mutation_changed m);
      if negb changed then persist_mutations ms persisted
      else persisted ← persist_mutation m persisted; persist_mutations ms persisted
  end.

(** The body of the second loop for a candidate that changed. *)
Definition persist_candidate (c : CuratorStoredCandidate) : method unit :=
  cw ← candidateWrite c;
  aw ← newApproval c;
  profile ← profileIdForCandidate (candidate c);
  answer ← send {| write_candidate := Some cw; write_approval := aw; write_snapshot := None; write_mutation := None;
                   write_receipt := auditReceipt (candidateActivityKind c) (candidateId (candidate c)) c native_now
                                      profile (approval c ≫= approval_actorId) (lifecycle c ≫= reasonCode) |};
  match result_candidate answer with
  | None => lift (Throw "curator_candidate_persist_failed")
  | Some r => _ ← rememberCandidate c r; publishActivity (result_receipt answer)
  end.

Fixpoint persist_candidates (cs : list CuratorStoredCandidate) (persisted : list string) : method unit :=
  match cs with
  | [] => mret ()
  | c :: cs =>
      changed ← read (stored_changed c);
      if bool_decide (candidateId (candidate c) ∈ persisted) || negb changed then persist_candidates cs persisted
      else _ ← persist_candidate c; persist_candidates cs persisted
  end.

Definition native_persist : method unit :=
  s ← read id;
  persisted ← persist_mutations (map_values (mutations (memory s))) [];
  persist_candidates (map_values (candidates (memory s))) persisted.

(** A refused request is recorded as a receipt; when that fails, as a failure. *)
Definition recordRejectedRequest (request : CuratorExecuteRequest) (reasonCode : option string) : method unit := λ s,
  let stored := request_candidateId request ≫= λ i, if String.eqb i "" then None else map_get i (candidates (memory s)) in
  let reason := default "curator_execution_failed" reasonCode in
  let kind := match action request with apply_candidate => "mutation_failed" | _ => "candidate_denied" end in
  let subject := match request_candidateId request with
                 | Some i => i
                 | None => match scopeId request with Some i => i | None => default "service" (scopeType request) end
                 end in
  let '(s1, profile) :=
    match stored with
    | Some c => (set_profile (candidateId (candidate c)) (profile_of (candidate c) s) s, profile_of (candidate c) s)
    | None => (s, match scopeType request, scopeId request with
                  | Some "profile", Some i => if String.eqb i "" then "service" else i
                  | _, _ => "service"
                  end)
    end in
  let correlation := match stored with
                     | Some c => "curator:" +:+ batchId (candidate c)
                     | None => "curator:" +:+ profile
                     end in
  let w := {| write_candidate := None; write_approval := None; write_snapshot := None; write_mutation := None;
              write_receipt := failureAuditReceipt kind subject (request_candidateId request) correlation profile
                                 (actorId request) reason native_now |} in
  match (answer ← send w; publishActivity (result_receipt answer)) s1 with
  | (s2, Ok _) => (s2, Ok ())
  | (s2, Throw e) =>
      (set_activity (activityProjectionFailures s2 ++
                       [("curator-unrecorded:" +:+ kind +:+ ":" +:+ subject, "failed to record curator failure: " +:+ e)])
         (lastActivityReceipt s2) s2, Ok ())
  end.

(** ** Loading *)

Definition mutationFromNativeRecord (r : NativeMutationRecord) : result (CuratorMutationRecord CuratorSnapshotRef) :=
  match payload_manifest r with
  | None => Throw "curator_snapshot_unavailable"
  | Some manifest =>
      Ok {| mutationId := native_mutationId r; mutation_candidateId := native_candidateId r;
            mutation_action := native_action r; mutation_actorId := native_actorId r;
            mutation_reason := native_reason r; appliedAt := default (native_createdAt r) (native_appliedAt r);
            mutation_status := native_status r;
            mutation_snapshot := snapshotFromManifest native_cwd (native_snapshotId r) manifest native_skillsDir
                                   native_snapshotRoot (native_createdAt r);
            rollbackRef := Some ("curator-rollback:" +:+ native_mutationId r); changedPaths := native_changedPaths r;
            management := payload_management r; mutation_error := payload_error r |}
  end.

(** A page of a list of the core. *)
Record NativePage (T : Type) := { items : list T; next_offset : option nat }.
Arguments items {_} _.
Arguments next_offset {_} _.

(** [for (;;)]: with the fuel given, or [None] when it is used up. *)
Fixpoint listAllNativePages {T} (read : nat → NativePage T) (fuel offset : nat) (acc : list T) : option (list T) :=
  match fuel with
  | O => None
  | S fuel =>
      let page := read offset in
      match next_offset page with
      | None => Some (acc ++ items page)
      | Some o => listAllNativePages read fuel o (acc ++ items page)
      end
  end.

Definition load_candidate (s : NativeStore) (r : NativeCandidateRecord) : NativeStore :=
  let '(stored, profile) := candidatePayload r in
  let cid := record_candidateId r in
  {| memory := {| batches := batches (memory s); candidates := map_set cid stored (candidates (memory s));
                  mutations := mutations (memory s) |};
     candidateRevisions := map_set cid (record_revision r) (candidateRevisions s);
     candidateHashes := map_set cid (stableHash (HashStored stored)) (candidateHashes s);
     mutationRevisions := mutationRevisions s; mutationHashes := mutationHashes s;
     persistedApprovalIds := match approval stored with
                             | Some a => set_add (approvalId a) (persistedApprovalIds s)
                             | None => persistedApprovalIds s
                             end;
     candidateProfileIds := map_set cid profile (candidateProfileIds s);
     activityProjectionFailures := activityProjectionFailures s; lastActivityReceipt := lastActivityReceipt s;
     sent := sent s |}.

Definition load_mutation (s : NativeStore) (r : NativeMutationRecord) : result NativeStore :=
  m ← mutationFromNativeRecord r;
  Ok {| memory := {| batches := batches (memory s); candidates := candidates (memory s);
                     mutations := map_set (native_mutationId r) m (mutations (memory s)) |};
        candidateRevisions := candidateRevisions s; candidateHashes := candidateHashes s;
        mutationRevisions := map_set (native_mutationId r) (native_revision r) (mutationRevisions s);
        mutationHashes := map_set (native_mutationId r) (stableHash (HashMutation m)) (mutationHashes s);
        persistedApprovalIds := persistedApprovalIds s; candidateProfileIds := candidateProfileIds s;
        activityProjectionFailures := activityProjectionFailures s; lastActivityReceipt := lastActivityReceipt s;
        sent := sent s |}.

Definition native_empty : NativeStore :=
  {| memory := empty_store; candidateRevisions := []; candidateHashes := []; mutationRevisions := [];
     mutationHashes := []; persistedApprovalIds := []; candidateProfileIds := []; activityProjectionFailures := [];
     lastActivityReceipt := None; sent := [] |}.

(** [NativeCuratorGovernanceStore.load] *)
Definition native_load (cs : list NativeCandidateRecord) (ms : list NativeMutationRecord)
    (latest : option CuratorActivityReceipt) : result NativeStore :=
  s ← foldM load_mutation (fold_left load_candidate cs native_empty) ms;
  Ok (set_activity (activityProjectionFailures s) latest s).
End Native.

(** ** References that lead back *)

Section ManifestFacts.
Context (cwd : string).

Lemma target_resolved root t :
  (if is_absolute t then resolve cwd [t] else resolve cwd [resolve cwd [root]; t]) = resolve cwd [root; t].
Proof.
  unfold resolve. destruct (is_absolute t) eqn:E; f_equal.
  - unfold resolve_segments; cbn [fold_left]. by rewrite E.
  - rewrite !resolve_from by done. by rewrite resolve_path_text by apply resolve_normal.
Qed.

(** A reference is not empty and leads from the directory to what the path names. *)
Lemma safeRelative_leads root t r :
  safeRelative cwd root t = Ok r → r ≠ "" ∧ resolve cwd [root; r] = resolve cwd [root; t].
Proof.
  unfold safeRelative. rewrite target_resolved. unfold resolve.
  pose proof (resolve_normal cwd [root]) as HR. pose proof (resolve_normal cwd [root; t]) as HT.
  revert HT; generalize (normalize (resolve_segments cwd [root; t])); intros T HT.
  pose proof (escapes_relative cwd (path_text (normalize (resolve_segments cwd [root]))) (path_text T)) as He.
  rewrite !resolve_path_text in He by done. destruct (decide (normalize (resolve_segments cwd [root]) `prefix_of` T)) as [[rest ->]|Hn].
  - rewrite relative_prefix by done. apply Forall_app in HT as [_ Hrest].
    assert (String.eqb (str (Text.join [slash] rest)) "." = false) as ->.
    { apply String.eqb_neq; intros E%(f_equal chars). rewrite chars_str in E. by apply (join_ne_dot rest). }
    match goal with |- context [if ?b then _ else _] => destruct b eqn:E end; [done|]. intros [= <-]. rewrite !orb_false_iff in E. destruct E as [[[E _] _] _].
    apply String.eqb_neq in E. split; [done|]. rewrite resolve_relative; [done..|]. by intros ->.
  - intros H; exfalso; revert H. set (ref := relative _ _ _) in *.
    destruct (String.eqb ref ".") eqn:Ed.
    + apply String.eqb_eq in Ed. rewrite Ed in He. exfalso. apply Hn, He. done.
    + destruct (Str.startsWith ref "../") eqn:E1; [by rewrite !orb_true_r|].
      destruct (String.eqb ref "..") eqn:E2; [by rewrite !orb_true_r|]. exfalso. apply Hn, He. done.
Qed.

(** An absolute path in normal form. *)
Definition absolute (p : string) : Prop := resolve cwd [p] = p.

Lemma absolute_from root p : absolute p → p ≠ "" ∧ resolve cwd [root; p] = p.
Proof.
  unfold absolute; intros E. assert (is_absolute p = true) as Ha by (rewrite <- E; apply is_absolute_path_text).
  split; [by intros ->|]. rewrite <- E at 2. unfold resolve, resolve_segments; cbn [fold_left]. by rewrite Ha.
Qed.

Definition snapshot_paths (s : CuratorSnapshotRef) : list string :=
  [snapshotDir s; snapshot_skillPath s] ++
  omap id [skillSnapshotPath s; snapshot_sidecarPath s; sidecarSnapshotPath s; snapshot_filePath s; fileSnapshotPath s].

Lemma present_ne (p : string) : p ≠ "" → present (Some p) = Some p.
Proof. by destruct p. Qed.

Lemma rooted_leads root p r : absolute p → safeRelative cwd root p = Ok r → rooted cwd root (Some r) = Some p.
Proof.
  intros [_ Ha]%(absolute_from root) [Hne E]%safeRelative_leads. unfold rooted. rewrite present_ne by done. by rewrite E, Ha.
Qed.

Lemma rooted_back root p r : (∀ t, p = Some t → absolute t) → relative_if cwd root p = Ok r → rooted cwd root r = p.
Proof.
  unfold relative_if; intros Ha. destruct p as [t|]; [|by intros [= <-]].
  specialize (Ha t eq_refl). rewrite present_ne by apply (absolute_from root), Ha.
  intros (r' & Hr & [= <-])%bind_Ok. by apply rooted_leads.
Qed.

Lemma path_text_absolute l : Forall normal_segment l → absolute (path_text l).
Proof. intros Hl; unfold absolute, resolve. by rewrite resolve_path_text. Qed.

Lemma join_path_absolute d p :
  is_absolute d = true → p ≠ "" → last (chars p) ≠ Some slash → absolute (join_path d p).
Proof. intros; by apply join_path_normal. Qed.

Lemma sidecar_file_absolute d p f : safeSidecarFilePath cwd d p = Ok f → absolute f.
Proof.
  unfold safeSidecarFilePath. repeat case_match; try done. intros [= <-]. apply path_text_absolute, resolve_normal.
Qed.

(** A name with a suffix that is no slash *)
Lemma suffixed a b : b ≠ "" → last (chars b) ≠ Some slash → a +:+ b ≠ "" ∧ last (chars (a +:+ b)) ≠ Some slash.
Proof.
  intros Hb Hl. split; [destruct a; [done|discriminate]|]. rewrite chars_app, last_app. destruct (last (chars b)) eqn:E; [done|].
  apply last_None in E. apply (f_equal str) in E; by rewrite str_chars in E.
Qed.

Lemma snapshot_time_last now : last (chars now) ≠ Some slash → last (chars (snapshot_time now)) ≠ Some slash.
Proof.
  unfold snapshot_time; intros Hn. rewrite chars_str.
  change (map ?f (chars now)) with (f <$> chars now). rewrite fmap_last.
  destruct (last (chars now)) as [c|]; cbn; [|done]. intros E; injection E as E. case_bool_decide; [discriminate E|congruence].
Qed.

(** The paths of a snapshot that was taken are absolute when its directories are. *)
Lemma snapshot_taken_absolute skillsDir snapshotRoot pathExists now c acts s :
  is_absolute skillsDir = true → (∀ r, snapshotRoot = Some r → is_absolute r = true) → last (chars now) ≠ Some slash →
  snapshotBeforeMutation cwd skillsDir snapshotRoot pathExists now c = (acts, Ok s) → Forall absolute (snapshot_paths s).
Proof.
  intros Hd Hr Hn. unfold snapshotBeforeMutation, snapshot_paths. cbv zeta.
  set (root := default _ snapshotRoot). set (sid := _ +:+ _).
  assert (is_absolute root = true) as Hroot.
  { destruct snapshotRoot as [r|]; [by apply Hr|]. by apply join_path_normal. }
  assert (sid ≠ "" ∧ last (chars sid) ≠ Some slash) as [Hs1 Hs2].
  { unfold sid. split; [destruct (safePathPart _); discriminate|]. rewrite !chars_app, app_assoc, last_app.
    pose proof (snapshot_time_last _ Hn). destruct (last (chars (snapshot_time now))); [done|]. by rewrite last_app. }
  destruct (join_path_normal root sid Hroot Hs1 Hs2) as [Hdir _]. pose proof (join_path_absolute root sid Hroot Hs1 Hs2).
  assert (∀ slug x, x ≠ "" → last (chars x) ≠ Some slash → absolute (join_path skillsDir (slug +:+ x))) as Hj
    by (intros slug x Hx Hl; destruct (suffixed slug x Hx Hl); by apply join_path_absolute).
  set (dir := join_path root sid) in *.
  assert (absolute (join_path dir "skill.md") ∧ absolute (join_path dir "sidecar.d") ∧ absolute (join_path dir "sidecar-file"))
    as (? & ? & ?) by (split_and!; by apply join_path_absolute).
  pose proof (λ slug, Hj slug ".md" ltac:(done) ltac:(done)) as Hmd. pose proof (λ slug, Hj slug ".d" ltac:(done) ltac:(done)) as Hsd.
  clearbody dir. clear Hj Hdir Hs1 Hs2.
  intros E. destruct (mutation c); cbn [operation_slug] in E; [..|destruct (safeSidecarFilePath _ _ _) as [f|] eqn:Ef; [|done]];
    apply pair_equal_spec in E as [_ E]; injection E as E; subst s; cbn [snapshotDir snapshot_skillPath skillSnapshotPath snapshot_sidecarPath sidecarSnapshotPath
      snapshot_filePath fileSnapshotPath]; repeat case_match; repeat constructor;
    first [done|apply Hmd|apply Hsd|by eapply sidecar_file_absolute].
Qed.

(** A snapshot is read back with the same paths. *)
Lemma snapshot_back s m skillsDir snapshotRoot t :
  Forall absolute (snapshot_paths s) → snapshotManifest cwd s skillsDir snapshotRoot = Ok m →
  snapshotFromManifest cwd (snapshotId s) m skillsDir snapshotRoot t =
  {| snapshotId := snapshotId s; snapshotDir := snapshotDir s; snapshot_createdAt := t;
     snapshot_skillPath := snapshot_skillPath s; skillExisted := skillExisted s; skillSnapshotPath := skillSnapshotPath s;
     snapshot_sidecarPath := snapshot_sidecarPath s; sidecarExisted := Some (default false (sidecarExisted s));
     sidecarSnapshotPath := sidecarSnapshotPath s; snapshot_filePath := snapshot_filePath s;
     fileExisted := Some (default false (fileExisted s)); fileSnapshotPath := fileSnapshotPath s |}.
Proof.
  unfold snapshotManifest; intros Ha. rewrite Forall_forall in Ha.
  intros (d & Hd & (k & Hk & (kc & Hkc & (sc & Hsc & (scc & Hscc & (f & Hf & (fc & Hfc & [= <-])
    %bind_Ok)%bind_Ok)%bind_Ok)%bind_Ok)%bind_Ok)%bind_Ok)%bind_Ok.
  assert (∀ p, p ∈ [skillSnapshotPath s; snapshot_sidecarPath s; sidecarSnapshotPath s; snapshot_filePath s; fileSnapshotPath s] →
    ∀ t, p = Some t → absolute t) as Ho.
  { intros p Hp t' ->. apply Ha. unfold snapshot_paths. apply elem_of_app; right.
    apply list_elem_of_omap. by exists (Some t'). }
  unfold snapshotFromManifest; cbn [snapshotDirRef skillPathRef manifest_skillExisted skillSnapshotPathRef sidecarPathRef
    manifest_sidecarExisted sidecarSnapshotPathRef filePathRef manifest_fileExisted fileSnapshotPathRef].
  apply rooted_leads in Hd, Hk; [|apply Ha; right; left|apply Ha; left].
  apply rooted_back in Hkc, Hsc, Hscc, Hf, Hfc; [|apply Ho; set_solver..]. by rewrite Hd, Hk, Hkc, Hsc, Hscc, Hf, Hfc.
Qed.
End ManifestFacts.

(** C27. A mutation can be rolled back after a restart.  What [persist] writes of a mutation
    whose snapshot has absolute paths is read back by [load] as the same mutation, with the
    same status, and its rollback is the same sequence of file operations; the changed paths
    are kept relative to the skills directory and name the same files. *)
Theorem mutation_survives_restart {N : NativeEnvironment} (m : CuratorMutationRecord CuratorSnapshotRef) crev rev r :
  Forall (absolute native_cwd) (snapshot_paths (mutation_snapshot m)) → mutation_record_of m crev rev = Ok r →
  ∃ m', mutationFromNativeRecord r = Ok m' ∧ mutationId m' = mutationId m ∧
    mutation_candidateId m' = mutation_candidateId m ∧ mutation_action m' = mutation_action m ∧
    mutation_actorId m' = mutation_actorId m ∧ mutation_reason m' = mutation_reason m ∧ appliedAt m' = appliedAt m ∧
    mutation_status m' = mutation_status m ∧ mutation_error m' = mutation_error m ∧
    restoreSnapshot (mutation_snapshot m') = restoreSnapshot (mutation_snapshot m) ∧
    Forall2 (λ p p', resolve native_cwd [native_skillsDir; p'] = resolve native_cwd [native_skillsDir; p])
      (changedPaths m) (changedPaths m').
Proof.
  intros Ha (mg & _ & (mf & Hmf & (ps & Hps & [= <-])%bind_Ok)%bind_Ok)%bind_Ok.
  eexists; split; [reflexivity|]. cbn [mutationId mutation_candidateId mutation_action mutation_actorId mutation_reason
    appliedAt mutation_status mutation_error mutation_snapshot changedPaths native_mutationId native_candidateId
    native_action native_actorId native_reason native_createdAt native_appliedAt native_status native_snapshotId
    payload_error native_changedPaths]. split_and!; try done.
  - by destruct (mutation_status m).
  - rewrite (snapshot_back _ _ _ _ _ _ Ha Hmf). done.
  - apply mapR_Forall2 in Hps. eapply Forall2_impl; [exact Hps|]. by intros p p' [_ ?]%safeRelative_leads.
Qed.

(** ** A persist that returns leaves nothing to send *)

(** The core answers a write with the revision of every record that was in it. *)
Class Acknowledges (N : NativeEnvironment) : Prop := {
  acknowledges_mutation n w r :
    applyCuratorGovernanceWrite n w = Ok r → is_Some (write_mutation w) → is_Some (result_mutation r);
}.

Section PersistFacts.
Context {N : NativeEnvironment}.
Implicit Types (s : NativeStore).

Lemma method_bind_Ok {A B} (m : method A) (f : A → method B) s s' b :
  (m ≫= f) s = (s', Ok b) → ∃ a s1, m s = (s1, Ok a) ∧ f a s1 = (s', Ok b).
Proof. unfold mbind, method_bind. destruct (m s) as [s1 [a|e]]; [eauto|done]. Qed.

(** The store's data and what it remembers of the core's are left. *)
Definition same s s' : Prop :=
  memory s' = memory s ∧ candidateHashes s' = candidateHashes s ∧ mutationHashes s' = mutationHashes s.
#[local] Instance same_preorder : PreOrder same.
Proof. split; [by intros s|]. intros s1 s2 s3 (? & ? & ?) (? & ? & ?); unfold same; by split_and!; etransitivity. Qed.

(** A method that only reads or sends. *)
Definition reads {A} (m : method A) : Prop := ∀ s s' a, m s = (s', Ok a) → same s s'.

Lemma reads_ret {A} (a : A) : reads (mret a).
Proof. by intros s s' b [= <- _]. Qed.
Lemma reads_bind {A B} (m : method A) (f : A → method B) : reads m → (∀ a, reads (f a)) → reads (m ≫= f).
Proof. intros Hm Hf s s' b (a & s1 & H1 & H2)%method_bind_Ok. etransitivity; [by eapply Hm|by eapply Hf]. Qed.
Lemma reads_read {A} (f : NativeStore → A) : reads (read f).
Proof. by intros s s' a [= <- _]. Qed.
Lemma reads_lift {A} (r : result A) : reads (lift r).
Proof. by intros s s' a [= <- _]. Qed.
Lemma reads_profile c : reads (profileIdForCandidate c).
Proof. by intros s s' a [= <- _]. Qed.
Lemma reads_approval c : reads (newApproval c).
Proof. by intros s s' a [= <- _]. Qed.
Lemma reads_mutationWrite m : reads (mutationWrite m).
Proof. intros s s' a E; unfold mutationWrite in E. by injection E as <- _. Qed.
Lemma reads_send w : reads (send w).
Proof. intros s s' a E; unfold send in E. by injection E as <- _. Qed.
Lemma reads_publish r : reads (publishActivity r).
Proof.
  intros s s' a E; unfold publishActivity, update in E. injection E as <-.
  destruct publishActivityCallback as [f|]; [destruct (f r)|]; done.
Qed.
Lemma reads_candidateWrite c : reads (candidateWrite c).
Proof. apply reads_bind; [apply reads_profile|]. intros p. apply reads_bind; [apply reads_read|]. intros s. apply reads_ret. Qed.

Lemma reads_candidate c (b : bool) :
  reads (if b then w ← candidateWrite c; mret (Some w) else mret None : method (option (Write NativeCandidateRecord))).
Proof. destruct b; [apply reads_bind; [apply reads_candidateWrite|]; intros w|]; apply reads_ret. Qed.

Lemma reads_snapshot m s1 :
  reads (match map_get (mutationId m) (mutationRevisions s1) with
         | None => r ← lift (snapshotRecord m); mret (Some r)
         | Some _ => mret None
         end : method (option NativeSnapshotRecord)).
Proof. destruct (map_get _ _); [|apply reads_bind; [apply reads_lift|]; intros r]; apply reads_ret. Qed.

(** What sending a changed mutation remembers. *)
Lemma persist_mutation_Ok `{!Acknowledges N} m l l' s s' : persist_mutation m l s = (s', Ok l') →
  ∃ c, requiredCandidate (memory s) (Some (mutation_candidateId m)) = Ok c ∧ memory s' = memory s ∧
    mutationHashes s' = map_set (mutationId m) (stableHash (HashMutation m)) (mutationHashes s) ∧
    (l' = l ∧ candidateHashes s' = candidateHashes s ∨
     l' = set_add (candidateId (candidate c)) l ∧
     candidateHashes s' = map_set (candidateId (candidate c)) (stableHash (HashStored c)) (candidateHashes s)).
Proof.
  unfold persist_mutation. intros (x & s1 & [= <- <-] & E)%method_bind_Ok.
  apply method_bind_Ok in E as (c & s2 & [= <- Hc] & E). exists c; split; [done|].
  apply method_bind_Ok in E as (cw & s3 & H3%reads_candidate & E).
  apply method_bind_Ok in E as (aw & s4 & H4%reads_approval & E).
  apply method_bind_Ok in E as (x & s5 & H5%reads_read & E).
  apply method_bind_Ok in E as (sw & s6 & H6%reads_snapshot & E).
  apply method_bind_Ok in E as (mw & s7 & H7%reads_mutationWrite & E).
  apply method_bind_Ok in E as (pr & s8 & H8%reads_profile & E).
  apply method_bind_Ok in E as (answer & s9 & H9 & E).
  assert (same s s9) as (Hm & Hc9 & Hm9)
    by (apply reads_send in H9; by transitivity s3; [|transitivity s4; [|transitivity s5; [|transitivity s6;
        [|transitivity s7; [|transitivity s8]]]]]).
  assert (is_Some (result_mutation answer)) as [rev Hrev].
  { unfold send in H9. injection H9 as _ H9. by apply (acknowledges_mutation _ _ _ H9). }
  rewrite Hrev in E. rewrite <- Hm, <- Hc9, <- Hm9. clear -E. destruct (result_candidate answer) as [rc|].
  - apply method_bind_Ok in E as (? & ? & (? & ? & [= <-] & [= <- <-])%method_bind_Ok & E).
    apply method_bind_Ok in E as (? & ? & [= <-] & (? & ? & (K1 & K2 & K3)%reads_publish & [= <- <-])%method_bind_Ok).
    rewrite K1, K2, K3. split_and!; [done..|]. by right.
  - apply method_bind_Ok in E as (? & ? & [= <- <-] & E).
    apply method_bind_Ok in E as (? & ? & [= <-] & (? & ? & (K1 & K2 & K3)%reads_publish & [= <- <-])%method_bind_Ok).
    rewrite K1, K2, K3. split_and!; [done..|]. by left.
Qed.

(** What sending a changed candidate remembers. *)
Lemma persist_candidate_Ok c s s' : persist_candidate c s = (s', Ok ()) →
  memory s' = memory s ∧ mutationHashes s' = mutationHashes s ∧
  candidateHashes s' = map_set (candidateId (candidate c)) (stableHash (HashStored c)) (candidateHashes s).
Proof.
  unfold persist_candidate. intros (cw & s1 & H1%reads_candidateWrite & E)%method_bind_Ok.
  apply method_bind_Ok in E as (aw & s2 & H2%reads_approval & E).
  apply method_bind_Ok in E as (pr & s3 & H3%reads_profile & E).
  apply method_bind_Ok in E as (answer & s4 & H4%reads_send & E).
  assert (same s s4) as (Hm & Hc & Hh) by (by transitivity s1; [|transitivity s2; [|transitivity s3]]).
  destruct (result_candidate answer); [|done].
  apply method_bind_Ok in E as (? & ? & [= <-] & (K1 & K2 & K3)%reads_publish). rewrite K1, K2, K3; cbn. by rewrite Hm, Hc, Hh.
Qed.

(** The core has the candidate, or the mutation, as it is. *)
Definition knows_candidate s (c : CuratorStoredCandidate) : Prop :=
  map_get (candidateId (candidate c)) (candidateHashes s) = Some (stableHash (HashStored c)).
Definition knows_mutation s (m : CuratorMutationRecord CuratorSnapshotRef) : Prop :=
  map_get (mutationId m) (mutationHashes s) = Some (stableHash (HashMutation m)).

Lemma filed_unique {V} (id : V → string) m v v' :
  filed id m → v ∈ map_values m → v' ∈ map_values m → id v = id v' → v = v'.
Proof.
  intros [Hw Hf] ([k x] & -> & Hx)%list_elem_of_fmap ([k' x'] & -> & Hx')%list_elem_of_fmap E. cbn in *.
  rewrite Forall_forall in Hf. pose proof (Hf _ Hx) as Hk. pose proof (Hf _ Hx') as Hk'. cbn in Hk, Hk'.
  apply (map_get_wf _ _ _ Hw) in Hx, Hx'. congruence.
Qed.

Section Persist.
Context (mem : Store CuratorSnapshotRef) (Hmem : keyed mem).

Definition knows_listed (l : list string) s : Prop :=
  ∀ c, c ∈ map_values (candidates mem) → candidateId (candidate c) ∈ l → knows_candidate s c.

Lemma knows_after_set c s s' :
  c ∈ map_values (candidates mem) →
  candidateHashes s' = map_set (candidateId (candidate c)) (stableHash (HashStored c)) (candidateHashes s) →
  knows_candidate s' c ∧ ∀ c', c' ∈ map_values (candidates mem) → knows_candidate s c' → knows_candidate s' c'.
Proof.
  unfold knows_candidate; intros Hc ->. split; [by rewrite map_get_set_eq|]. intros c' Hc' Hk.
  destruct (decide (candidateId (candidate c) = candidateId (candidate c'))) as [E|Hne]; [|by rewrite map_get_set_ne].
  apply (filed_unique _ _ c c' (proj1 (proj2 Hmem))) in E as <-; [|done..]. by rewrite map_get_set_eq.
Qed.

Lemma required_value id c : requiredCandidate mem id = Ok c → c ∈ map_values (candidates mem).
Proof.
  intros (i & _ & _ & H%map_get_elem)%requiredCandidate_Ok. apply list_elem_of_fmap. by exists (i, c).
Qed.

Lemma knows_mutation_set m s s' :
  m ∈ map_values (mutations mem) →
  mutationHashes s' = map_set (mutationId m) (stableHash (HashMutation m)) (mutationHashes s) →
  knows_mutation s' m ∧ ∀ m', m' ∈ map_values (mutations mem) → knows_mutation s m' → knows_mutation s' m'.
Proof.
  unfold knows_mutation; intros Hm ->. split; [by rewrite map_get_set_eq|]. intros m' Hm' Hk.
  destruct (decide (mutationId m = mutationId m')) as [E|Hne]; [|by rewrite map_get_set_ne].
  apply (filed_unique _ _ m m' (proj2 (proj2 Hmem))) in E as <-; [|done..]. by rewrite map_get_set_eq.
Qed.

Lemma persist_mutations_Ok `{!Acknowledges N} ms : ∀ l l' s s',
  (∀ m, m ∈ ms → m ∈ map_values (mutations mem)) → memory s = mem → knows_listed l s →
  persist_mutations ms l s = (s', Ok l') →
  memory s' = mem ∧ knows_listed l' s' ∧
  (∀ c, c ∈ map_values (candidates mem) → knows_candidate s c → knows_candidate s' c) ∧
  ∀ m, m ∈ map_values (mutations mem) → knows_mutation s m ∨ m ∈ ms → knows_mutation s' m.
Proof.
  induction ms as [|m ms IH]; intros l l' s s' Hin Hs Hl; cbn [persist_mutations].
  { intros [= <- <-]. split_and!; try done. intros m _ [?|?%not_elem_of_nil]; done. }
  intros (b & s1 & [= <- <-] & E)%method_bind_Ok. unfold mutation_changed in E. rewrite negb_involutive in E.
  assert (∀ m', m' ∈ ms → m' ∈ map_values (mutations mem)) as Hin' by (intros; apply Hin; by right).
  case_bool_decide as Hk.
  { destruct (IH _ _ _ _ Hin' Hs Hl E) as (? & ? & ? & Hm). split_and!; try done.
    intros m' Hm' [?|[->|?]%elem_of_cons]; apply Hm; auto. }
  apply method_bind_Ok in E as (l1 & s1 & (c & Hc & Hs1 & Hm1 & Hc1)%persist_mutation_Ok & E). rewrite Hs in Hc.
  apply required_value in Hc as Hv. destruct (knows_mutation_set m s s1 ltac:(apply Hin; left) Hm1) as [Hmm Hmo].
  assert (knows_listed l1 s1 ∧ ∀ c', c' ∈ map_values (candidates mem) → knows_candidate s c' → knows_candidate s1 c') as [Hl1 Ho].
  { destruct Hc1 as [[-> Eh]|[-> Eh]]; [unfold knows_listed, knows_candidate in *; by rewrite Eh|].
    destruct (knows_after_set c s s1 Hv Eh) as [Hc1 Ho]. split; [|done]. intros c' Hc' [E'|?]%elem_of_set_add; [|auto].
    by apply (filed_unique _ _ c' c (proj1 (proj2 Hmem))) in E' as ->. }
  destruct (IH l1 l' s1 s' Hin' ltac:(congruence) Hl1 E) as (? & ? & Hoc & Hm). split_and!; auto.
  intros m' Hm' [?|[->|?]%elem_of_cons]; apply Hm; auto.
Qed.

Lemma persist_candidates_Ok cs l : ∀ s s',
  (∀ c, c ∈ cs → c ∈ map_values (candidates mem)) → memory s = mem → knows_listed l s →
  persist_candidates cs l s = (s', Ok ()) →
  memory s' = mem ∧ mutationHashes s' = mutationHashes s ∧
  ∀ c, c ∈ map_values (candidates mem) → knows_candidate s c ∨ c ∈ cs → knows_candidate s' c.
Proof.
  induction cs as [|c cs IH]; intros s s' Hin Hs Hl; cbn [persist_candidates].
  { intros [= <-]. split_and!; try done. intros c _ [?|?%not_elem_of_nil]; done. }
  intros (b & s1 & [= <- <-] & E)%method_bind_Ok. unfold stored_changed in E. rewrite negb_involutive in E.
  assert (∀ c', c' ∈ cs → c' ∈ map_values (candidates mem)) as Hin' by (intros; apply Hin; by right).
  destruct (_ || _) eqn:Eb.
  - assert (knows_candidate s c) as Hc.
    { apply orb_true_iff in Eb as [?%bool_decide_eq_true|?%bool_decide_eq_true]; [apply Hl; [apply Hin; left|done]|done]. }
    destruct (IH _ _ Hin' Hs Hl E) as (? & ? & Hk). split_and!; try done.
    intros c' Hc' [?|[->|?]%elem_of_cons]; apply Hk; auto.
  - apply method_bind_Ok in E as ([] & s1 & (Hs1 & Hm1 & Hc1)%persist_candidate_Ok & E).
    destruct (knows_after_set c s s1 ltac:(apply Hin; left) Hc1) as [Hc Ho].
    destruct (IH s1 s' Hin' ltac:(congruence) ltac:(intros c' ? ?; apply Ho; auto) E) as (? & Hm & Hk).
    split_and!; [done|congruence|]. intros c' Hc' [?|[->|?]%elem_of_cons]; apply Hk; auto.
Qed.
End Persist.

Lemma persist_mutations_idle ms l s : (∀ m, m ∈ ms → knows_mutation s m) → persist_mutations ms l s = (s, Ok l).
Proof.
  induction ms as [|m ms IH]; intros Hk; [done|]. cbn [persist_mutations]. unfold mbind, method_bind, read, mutation_changed.
  rewrite bool_decide_eq_true_2 by (apply Hk; left). apply IH. intros; apply Hk; by right.
Qed.

Lemma persist_candidates_idle cs l s : (∀ c, c ∈ cs → knows_candidate s c) → persist_candidates cs l s = (s, Ok ()).
Proof.
  induction cs as [|c cs IH]; intros Hk; [done|]. cbn [persist_candidates]. unfold mbind, method_bind, read, stored_changed.
  rewrite (bool_decide_eq_true_2 (map_get _ _ = _)) by (apply Hk; left). rewrite orb_true_r. apply IH. intros; apply Hk; by right.
Qed.
End PersistFacts.

#[export] Hint Resolve reads_ret reads_read reads_lift reads_profile reads_approval reads_mutationWrite reads_send
  reads_publish reads_candidateWrite : curator.

(** Persisting is complete and idempotent.  When the core acknowledges the mutations it
    is sent, a [persist] that returns has left the store's data as it was, the core has
    every candidate and every mutation in its current form, and another [persist] sends
    nothing. *)
Theorem native_persist_settles {N : NativeEnvironment} `{!Acknowledges N} (s s' : NativeStore) :
  keyed (memory s) → native_persist s = (s', Ok ()) →
  memory s' = memory s ∧
  (∀ c, c ∈ map_values (candidates (memory s)) → knows_candidate s' c) ∧
  (∀ m, m ∈ map_values (mutations (memory s)) → knows_mutation s' m) ∧
  native_persist s' = (s', Ok ()).
Proof.
  intros Hk (x & s0 & [= <- <-] & (l & s1 & E1 & E2)%method_bind_Ok)%method_bind_Ok.
  destruct (persist_mutations_Ok (memory s) Hk _ [] l s s1 (λ _ H, H) eq_refl ltac:(by intros c _ ?%not_elem_of_nil) E1)
    as (Hm1 & Hl & _ & Hmut).
  destruct (persist_candidates_Ok (memory s) Hk _ l s1 s' (λ _ H, H) Hm1 Hl E2) as (Hm2 & Hh & Hcand).
  assert (∀ c, c ∈ map_values (candidates (memory s)) → knows_candidate s' c) as Hc by auto.
  assert (∀ m, m ∈ map_values (mutations (memory s)) → knows_mutation s' m) as Hmu
    by (intros m Hm; unfold knows_mutation; rewrite Hh; apply Hmut; auto).
  split_and!; [done..|]. unfold native_persist, mbind, method_bind, read. cbn [id].
  rewrite Hm2, persist_mutations_idle by done. by apply persist_candidates_idle.
Qed.

(** Reading pages of a list, [limit] at a time, gives the list. *)
Lemma pages_complete {T} (l : list T) (limit fuel : nat) : (0 < limit)%nat → (length l < fuel)%nat →
  listAllNativePages
    (λ o, {| items := take limit (drop o l); next_offset := if (o + limit <? length l)%nat then Some (o + limit)%nat else None |})
    fuel 0 [] = Some l.
Proof.
  intros Hl. enough (∀ fuel o acc, (length l < fuel + o)%nat → l = acc ++ drop o l → listAllNativePages
    (λ o, {| items := take limit (drop o l); next_offset := if (o + limit <? length l)%nat then Some (o + limit)%nat else None |})
    fuel o acc = Some l ∨ (length l < o)%nat) as H.
  { intros Hf. destruct (H fuel 0%nat [] ltac:(lia) eq_refl); [done|lia]. }
  clear fuel; induction fuel as [|fuel IH]; intros o acc Hf Hacc; [right; lia|]. cbn [listAllNativePages next_offset items].
  assert (l = (acc ++ take limit (drop o l)) ++ drop (o + limit) l) as Hnext.
  { rewrite <- app_assoc, <- drop_drop, take_drop. done. }
  destruct (Nat.ltb_spec (o + limit) (length l)).
  - destruct (IH (o + limit)%nat (acc ++ take limit (drop o l))) as [->|]; [lia|done|by left|lia].
  - left. rewrite (drop_ge l (o + limit)), app_nil_r in Hnext by done. by rewrite <- Hnext.
Qed.

(** ** An example *)

Module NativeExample.
Definition answer (n : nat) (w : GovernanceWrite) : WriteResult :=
  {| result_candidate := match write_candidate w with Some _ => Some (Z.of_nat n + 1) | None => None end;
     result_mutation := match write_mutation w with Some _ => Some (Z.of_nat n + 1) | None => None end;
     result_receipt := write_receipt w |}.

#[export] Instance native1 : NativeEnvironment :=
  {| native_now := "2026-01-01T00:00:00.000Z"; native_cwd := "/"; native_skillsDir := "/skills";
     native_snapshotRoot := "/backup";
     stableHash := λ h, match h with
                        | HashStored c => candidateId (candidate c) | HashMutation m => mutationId m
                        | HashAudit k i _ => k +:+ i | HashFailure k i _ _ _ _ _ _ => k +:+ i
                        end;
     applyCuratorGovernanceWrite := λ n w, Ok (answer n w); publishActivityCallback := None |}.

#[export] Instance native1_acknowledges : Acknowledges native1.
Proof. split; intros n w r [= <-] [m Hm]; cbn. rewrite Hm. by eexists. Qed.

Definition snapshot1 : CuratorSnapshotRef :=
  {| snapshotId := "c1-now"; snapshotDir := "/backup/c1-now"; snapshot_createdAt := "now";
     snapshot_skillPath := "/skills/lint.md"; skillExisted := true; skillSnapshotPath := Some "/backup/c1-now/skill.md";
     snapshot_sidecarPath := Some "/skills/lint.d"; sidecarExisted := Some true;
     sidecarSnapshotPath := Some "/backup/c1-now/sidecar.d"; snapshot_filePath := None; fileExisted := None;
     fileSnapshotPath := None |}.
Definition mutation_1 : CuratorMutationRecord CuratorSnapshotRef :=
  {| mutationId := "m1"; mutation_candidateId := "c1"; mutation_action := "skill_patch"; mutation_actorId := None;
     mutation_reason := "curator apply"; appliedAt := "2026-01-02T00:00:00.000Z"; mutation_status := mutation_applied;
     mutation_snapshot := snapshot1; rollbackRef := None; changedPaths := ["/skills/lint.md"];
     management := Some CuratorExample.done1; mutation_error := None |}.

(** A store with a candidate and its mutation, neither known to the core. *)
Definition store3 : NativeStore :=
  {| memory := (recordApplied mutation_1 (upsertBatch CuratorExample.batch1 [CuratorExample.mutation1] empty_store)).1;
     candidateRevisions := []; candidateHashes := []; mutationRevisions := []; mutationHashes := [];
     persistedApprovalIds := []; candidateProfileIds := []; activityProjectionFailures := [];
     lastActivityReceipt := None; sent := [] |}.

Lemma store3_keyed : keyed (memory store3).
Proof.
  apply (recordApplied_keyed mutation_1 (upsertBatch CuratorExample.batch1 [CuratorExample.mutation1] empty_store) _ (Ok ()));
    [reflexivity|]. apply upsertBatch_keyed. repeat split; constructor.
Qed.

Lemma store3_persists : native_persist store3 = ((native_persist store3).1, Ok ()).
Proof. vm_compute. reflexivity. Qed.

Lemma native_persist_settles_witness :
  length (sent (native_persist store3).1) = 1%nat ∧
  native_persist (native_persist store3).1 = ((native_persist store3).1, Ok ()).
Proof.
  split; [vm_compute; reflexivity|].
  destruct (native_persist_settles store3 (native_persist store3).1 store3_keyed store3_persists) as (_ & _ & _ & H). exact H.
Defined.

Definition record1 : result NativeMutationRecord := mutation_record_of mutation_1 0 0.

Lemma snapshot1_absolute : Forall (absolute native_cwd) (snapshot_paths (mutation_snapshot mutation_1)).
Proof. repeat constructor. Qed.

Lemma mutation_survives_restart_witness :
  match record1 with
  | Ok r => ∃ m', mutationFromNativeRecord r = Ok m' ∧
              restoreSnapshot (mutation_snapshot m') =
              [Mkdir "/skills"; Copy "/backup/c1-now/skill.md" "/skills/lint.md" false; Remove "/skills/lint.d" true;
               Copy "/backup/c1-now/sidecar.d" "/skills/lint.d" true]
  | Throw _ => False
  end.
Proof.
  destruct record1 as [r|] eqn:E; [|discriminate E].
  destruct (mutation_survives_restart mutation_1 0 0 r snapshot1_absolute E) as (m' & Hm & _ & _ & _ & _ & _ & _ & _ & _ & Hr & _).
  exists m'; split; [exact Hm|]. rewrite Hr. vm_compute. reflexivity.
Defined.

(** The times the store writes are the time at which it was loaded, not that of the
    mutation. *)
Example written_time_frozen : map (λ w, occurredAt (write_receipt w)) (sent (native_persist store3).1) = [native_now].
Proof. reflexivity. Qed.
End NativeExample.
