(* ===== verification/StaticSite.v ===== *)
(** * The host's static site

    [static-site-routes.ts], [host-route-results.ts] and [host-shell-routes.ts] of
    [ts/packages/service-host/src]: which file of the site directory answers a request, and
    with which headers.  The working directory, [decodeURIComponent] and the files are the
    class [SiteEnvironment], about which nothing is assumed: a file that is served lies
    below the site directory whatever the decoding does. *)

From stdpp Require Import sets.
From S2P Require Import Prelude JsString JsonParse Paths.

(** ** Results of routes *)

Record HostRouteError := { error_code : string; error_reason_code : string; error_message : string; retryable : bool }.

Inductive HostRouteResult :=
| Raw (file contentType cacheControl : string)  (** the stream of a file with its headers *)
| Json (status : Z) (requestId : string) (error : HostRouteError)
| Html (status : Z) (headers : list (string * string)) (body : string).

Definition hostFailure (status : Z) (requestId : string) (error : HostRouteError) : HostRouteResult :=
  Json status requestId error.

(** ** The site *)

Class SiteEnvironment := {
  site_cwd : string;
  decodeURIComponent : string → option string;
  is_file : string → bool;
  exists_path : string → bool
}.

Record StaticSiteRouteRequest := { method : option string; pathname : string; route_requestId : string }.

(** [basename] and [extname] of [node:path], for a resolved path *)
Definition basename (p : string) : text := default [] (last (Text.split slash (chars p))).

Definition extname (p : string) : text :=
  let '(after, rest) := span (λ c, negb (Ascii.eqb c ".")) (reverse (basename p)) in
  match rest with
  | dot :: _ :: _ => if bool_decide (basename p = chars "..") then [] else dot :: reverse after
  | _ => []
  end.

Definition staticContentType (p : string) : string :=
  let e := str (Text.toLowerCase (extname p)) in
  if String.eqb e ".html" then "text/html; charset=utf-8"
  else if String.eqb e ".js" then "application/javascript; charset=utf-8"
  else if String.eqb e ".css" then "text/css; charset=utf-8"
  else if String.eqb e ".json" then "application/json; charset=utf-8"
  else if String.eqb e ".svg" then "image/svg+xml"
  else if String.eqb e ".ico" then "image/x-icon"
  else if String.eqb e ".png" then "image/png"
  else if String.eqb e ".woff2" then "font/woff2"
  else "application/octet-stream".

Definition is_alnum (c : ascii) : bool := is_lower c || is_upper c || is_digit c.

(** [/-[a-z0-9]{16,}\./i]: at a hyphen, the letters and digits that follow it are all
    those before the dot. *)
Fixpoint fingerprinted (t : text) : bool :=
  match t with
  | [] => false
  | c :: r =>
      Ascii.eqb c "-" && (let '(run, rest) := span is_alnum r in
                          (16 <=? length run)%nat && match rest with d :: _ => Ascii.eqb d "." | [] => false end)
      || fingerprinted r
  end.

Section Site.
Context `{SiteEnvironment}.

Definition staticServingEnabled (root : option string) : bool :=
  match root with Some r => exists_path r | None => false end.

(** A refused path is its reason code and message. *)
Definition resolveStaticSitePath (root path : string) : string + (string * string) :=
  match mapM decodeURIComponent (List.filter (λ s, negb (String.eqb s "")) (Str.split slash path)) with
  | None => inr ("static_path_invalid", "static path contains invalid percent encoding")
  | Some segments =>
      if existsb (λ s, String.eqb s "." || String.eqb s ".." || Str.startsWith s ".") segments
      then inr ("static_path_forbidden", "static path contains a forbidden segment")
      else
        let resolvedRoot := resolve site_cwd [root] in
        let resolvedPath :=
          match segments with
          | [] => resolve site_cwd [resolvedRoot; "index.html"]
          | _ => resolve site_cwd (resolvedRoot :: segments)
          end in
        let relativePath := relative site_cwd resolvedRoot resolvedPath in
        if String.eqb relativePath ".." || Str.startsWith relativePath "../"
           || String.eqb (resolve site_cwd [resolvedPath]) resolvedRoot
        then inr ("static_path_traversal", "static path escapes the configured static directory")
        else inl resolvedPath
  end.

Definition existingStaticFile (path : string) : option string :=
  if is_file path then Some path
  else let indexPath := resolve site_cwd [path; "index.html"] in
       if is_file indexPath then Some indexPath else None.

Definition staticCacheControl (root file : string) : string :=
  if String.eqb (relative site_cwd root file) "index.html" || bool_decide (basename file = chars "index.html")
  then "no-cache"
  else if fingerprinted (basename file) then "public, max-age=31536000, immutable" else "no-cache".

Definition staticFileResponse (root file : string) : HostRouteResult :=
  Raw file (staticContentType file) (staticCacheControl root file).

(** [(request.method ?? "GET").toUpperCase() !== "GET"]; on 8-bit code units the texts that
    become [GET] in upper case are those that become [get] in lower case. *)
Definition is_get (m : option string) : bool := String.eqb (Str.toLowerCase (default "GET" m)) "get".

Definition handleStaticSiteRequest (request : StaticSiteRouteRequest) (root : option string) : HostRouteResult :=
  let failure status code reason message :=
    hostFailure status (route_requestId request)
      {| error_code := code; error_reason_code := reason; error_message := message; retryable := false |} in
  if negb (is_get (method request)) then
    failure 405%Z "method_not_allowed" "static_method_not_allowed" "static files only support GET"
  else
    match root with
    | None => failure 404%Z "not_found" "static_site_disabled" "static site serving is not configured"
    | Some root =>
        match resolveStaticSitePath root (pathname request) with
        | inr (reason, message) => failure 403%Z "forbidden" reason message
        | inl candidate =>
            match existingStaticFile candidate with
            | Some file => staticFileResponse root file
            | None =>
                let indexPath := resolve site_cwd [root; "index.html"] in
                if is_file indexPath then staticFileResponse root indexPath
                else failure 404%Z "not_found" "static_index_missing"
                       ("static site index.html was not found in " +:+ root)
            end
        end
    end.

(** ** The host's shell *)

Definition isAdminPanelRoute (path : string) (staticEnabled : bool) : bool :=
  String.eqb path "/admin" || String.eqb path "/admin/" || negb staticEnabled && String.eqb path "/".

Definition htmlResponse (body : string) : HostRouteResult :=
  Html 200%Z [("content-type", "text/html; charset=utf-8"); ("cache-control", "no-store")] body.

(** The header [x-request-id], or an identifier made of the clock. *)
Definition requestId (header : option string) (now : Z) : string :=
  match header with
  | Some v => if String.eqb (Str.trim v) "" then "req_" +:+ pretty now else Str.trim v
  | None => "req_" +:+ pretty now
  end.

(** [None] leaves the request to the service's own routes. *)
Definition handleHostShellRequest (path : string) (m header : option string) (now : Z) (root : option string)
    (adminPanelHtml : string) : option HostRouteResult :=
  if isAdminPanelRoute path (staticServingEnabled root) then Some (htmlResponse adminPanelHtml)
  else if negb (Str.startsWith path "/v1/") && staticServingEnabled root then
    Some (handleStaticSiteRequest {| method := m; pathname := path; route_requestId := requestId header now |} root)
  else None.
End Site.

(** ** Below a directory *)

Section SiteFacts.
Context `{SiteEnvironment}.

Definition root_segments (root : string) : list text := normalize (resolve_segments site_cwd [root]).

(** The path names something strictly below the directory. *)
Definition below (root path : string) : Prop :=
  ∃ rest, rest ≠ [] ∧ Forall normal_segment rest ∧ path = path_text (root_segments root ++ rest).

Lemma resolved_below root P :
  Forall normal_segment P →
  (String.eqb (relative site_cwd (resolve site_cwd [root]) (path_text P)) ".."
   || Str.startsWith (relative site_cwd (resolve site_cwd [root]) (path_text P)) "../"
   || String.eqb (resolve site_cwd [path_text P]) (resolve site_cwd [root])) = false ↔ below root (path_text P).
Proof.
  intros HP. pose proof (resolve_normal site_cwd [root] : Forall _ (root_segments root)) as HR.
  rewrite orb_false_iff, escapes_relative. unfold resolve. fold (root_segments root).
  rewrite !resolve_path_text by done. split.
  - intros [[rest ->] Hne]. exists rest; split_and!; [|by apply Forall_app in HP as [_ ?]|done].
    intros ->. rewrite app_nil_r, String.eqb_refl in Hne. done.
  - intros (rest & Hne & Hrest & E). apply (path_text_inj site_cwd) in E as ->; [|done|by apply Forall_app].
    split; [by exists rest|]. apply String.eqb_neq; intros E.
    apply (path_text_inj site_cwd) in E; [|by apply Forall_app|done]. apply Hne.
    by apply (app_inv_head (root_segments root)); rewrite app_nil_r.
Qed.

(** The segments of a request's path. *)
Definition decoded (path : string) : option (list string) :=
  mapM decodeURIComponent (List.filter (λ s, negb (String.eqb s "")) (Str.split slash path)).

Definition target (root : string) (segments : list string) : string :=
  resolve site_cwd (resolve site_cwd [root] :: match segments with [] => ["index.html"] | _ => segments end).

(** A path is accepted exactly when it decodes, no segment begins with a dot and the path
    it resolves to is strictly below the directory. *)
Lemma resolveStaticSitePath_exact root path p :
  resolveStaticSitePath root path = inl p ↔
  ∃ segments, decoded path = Some segments ∧ Forall (λ s, Str.startsWith s "." = false) segments ∧
    p = target root segments ∧ below root p.
Proof.
  unfold resolveStaticSitePath, target, decoded. destruct (mapM _ _) as [segments|]; [|naive_solver].
  assert (existsb (λ s, String.eqb s "." || String.eqb s ".." || Str.startsWith s ".") segments = false ↔
    Forall (λ s, Str.startsWith s "." = false) segments) as Hdot.
  { rewrite <- not_true_iff_false, existsb_exists, Forall_forall. setoid_rewrite orb_true_iff. setoid_rewrite orb_true_iff.
    split.
    - intros Hn s Hs. apply not_true_iff_false; intros E; apply Hn. exists s. rewrite list_elem_of_In in Hs. auto.
    - intros Hf (s & Hs%list_elem_of_In & [[->%String.eqb_eq| ->%String.eqb_eq]|E]); specialize (Hf _ Hs); first [discriminate Hf | congruence]. }
  destruct (existsb _ segments).
  { split; [done|]. intros (? & [= <-] & Hf & _). by apply Hdot in Hf. }
  destruct Hdot as [Hdot _]; specialize (Hdot eq_refl).
  set (parts := match segments with [] => ["index.html"] | _ => segments end).
  replace (match segments with [] => resolve site_cwd [resolve site_cwd [root]; "index.html"]
           | _ => resolve site_cwd (resolve site_cwd [root] :: segments) end)
    with (resolve site_cwd (resolve site_cwd [root] :: parts)) by (unfold parts; by destruct segments).
  unfold resolve at 1 3 5. pose proof (resolved_below root _ (resolve_normal site_cwd (resolve site_cwd [root] :: parts))) as Hb.
  cbv zeta. destruct (_ || _) eqn:E.
  - split; [done|]. intros (? & [= <-] & _ & -> & Hbelow). by apply Hb in Hbelow.
  - destruct Hb as [Hb _]; specialize (Hb eq_refl). split; [intros [= <-]; eauto 10|naive_solver].
Qed.

Lemma below_child root p s : normal_segment s → below root p → below root (resolve site_cwd [p; str s]).
Proof.
  intros Hs (rest & Hne & Hrest & ->). exists (rest ++ [s]). split_and!.
  - by destruct rest.
  - apply Forall_app; split; [done|by constructor].
  - unfold resolve. rewrite resolve_child, resolve_path_text, <- app_assoc; [done| |done].
    apply Forall_app; split; [apply resolve_normal|done].
Qed.

Lemma below_root_child root s : normal_segment s → below root (resolve site_cwd [root; str s]).
Proof. intros Hs. exists [s]; split_and!; [done|by constructor|]. unfold resolve; by rewrite resolve_child. Qed.

Lemma index_normal : normal_segment (chars "index.html").
Proof. split_and!; [done..|]. by apply (bool_decide_unpack _). Qed.

Lemma existingStaticFile_below root p file :
  below root p → existingStaticFile p = Some file → below root file ∧ is_file file = true.
Proof.
  unfold existingStaticFile; intros Hp. destruct (is_file p) eqn:E; [by intros [= <-]|].
  destruct (is_file (resolve _ _)) eqn:Ei; [|done]. intros [= <-]; split; [|done].
  exact (below_child root p _ index_normal Hp).
Qed.

Lemma cache_of_index root file : basename file = chars "index.html" → staticCacheControl root file = "no-cache".
Proof. intros E; unfold staticCacheControl. by rewrite E, orb_true_r. Qed.
End SiteFacts.

(** C26. The static site answers with a file only below its directory.  Whatever
    [decodeURIComponent] makes of the request's path and whatever the files are, a file is
    sent only for a [GET], it exists and lies strictly below the configured directory, and
    an [index.html] is never cached; every other answer is a failure with the request's own
    identifier: 405 exactly for other methods, 403 with the reason for which the path was
    refused, 404 when no site is configured or it has no index. *)
Theorem static_site_confined `{SiteEnvironment} request root :
  match handleStaticSiteRequest request root with
  | Raw file ct cc =>
      is_get (method request) = true ∧ is_file file = true ∧ ct = staticContentType file ∧
      (basename file = chars "index.html" → cc = "no-cache") ∧ ∃ r, root = Some r ∧ below r file
  | Json status id e =>
      id = route_requestId request ∧ retryable e = false ∧
      (status = 405 ∧ is_get (method request) = false ∨
       is_get (method request) = true ∧
       (status = 404 ∧ root = None ∨
        ∃ r, root = Some r ∧
          (status = 403 ∧ resolveStaticSitePath r (pathname request) = inr (error_reason_code e, error_message e) ∨
           status = 404 ∧ is_file (resolve site_cwd [r; "index.html"]) = false)))%Z
  | Html _ _ _ => False
  end.
Proof.
  unfold handleStaticSiteRequest. destruct (is_get (method request)) eqn:Eg; cbn [negb]; [|by cbn; auto].
  destruct root as [r|]; [|cbn; auto 10].
  destruct (resolveStaticSitePath r (pathname request)) as [p|[reason message]] eqn:Ep; [|cbn; eauto 10].
  apply resolveStaticSitePath_exact in Ep as (segments & _ & _ & _ & Hp).
  destruct (existingStaticFile p) as [file|] eqn:Ef.
  - apply (existingStaticFile_below r) in Ef as [? ?]; [|done]. cbn; split_and!; eauto using cache_of_index.
  - destruct (is_file (resolve site_cwd [r; "index.html"])) eqn:Ei; [|cbn; eauto 12].
    cbn; split_and!; eauto using cache_of_index. exists r; split; [done|].
    exact (below_root_child r _ index_normal).
Qed.

(** ** Examples *)

Module SiteExample.
Definition hex_value (c : ascii) : option N :=
  let n := code c in
  if is_digit c then Some (n - 48)%N
  else if ((97 <=? n) && (n <=? 102))%N then Some (n - 87)%N
  else if ((65 <=? n) && (n <=? 70))%N then Some (n - 55)%N else None.

(** Percent decoding of ASCII. *)
Fixpoint percent_decode (t : text) : option text :=
  match t with
  | [] => Some []
  | c :: r =>
      if Ascii.eqb c "%" then
        match r with
        | x :: y :: r' =>
            a ← hex_value x; b ← hex_value y;
            if (16 * a + b <? 128)%N then cons (Ascii.ascii_of_N (16 * a + b)) <$> percent_decode r' else None
        | _ => None
        end
      else cons c <$> percent_decode r
  end.

#[export] Instance site1 : SiteEnvironment :=
  {| site_cwd := "/"; decodeURIComponent := λ s, str <$> percent_decode (chars s);
     is_file := λ p, bool_decide (p ∈ ["/srv/site/.env"; "/srv/site/index.html"; "/srv/site/app-0123456789abcdef.js"]);
     exists_path := λ _, true |}.

Definition get (path : string) : HostRouteResult :=
  handleStaticSiteRequest {| method := Some "GET"; pathname := path; route_requestId := "r" |} (Some "/srv/site").

Example site_files :
  get "/" = Raw "/srv/site/index.html" "text/html; charset=utf-8" "no-cache" ∧
  get "/app-0123456789abcdef.js"
  = Raw "/srv/site/app-0123456789abcdef.js" "application/javascript; charset=utf-8" "public, max-age=31536000, immutable" ∧
  get "/settings/profile" = Raw "/srv/site/index.html" "text/html; charset=utf-8" "no-cache".
Proof. split_and!; vm_compute; reflexivity. Qed.

(** A file whose name begins with a dot is refused, also in its encoded form, but the
    segment that hides the dot behind an encoded slash is not. *)
Example encoded_slash_reaches_hidden :
  resolveStaticSitePath "/srv/site" "/.env" = inr ("static_path_forbidden", "static path contains a forbidden segment") ∧
  resolveStaticSitePath "/srv/site" "/%2eenv" = inr ("static_path_forbidden", "static path contains a forbidden segment") ∧
  get "/x%2F..%2F.env" = Raw "/srv/site/.env" "application/octet-stream" "no-cache".
Proof. split_and!; vm_compute; reflexivity. Qed.

Example encoded_escape_refused :
  resolveStaticSitePath "/srv/site" "/x%2F..%2F..%2Fsecret"
  = inr ("static_path_traversal", "static path escapes the configured static directory") ∧
  resolveStaticSitePath "/srv/site" "/%2Fetc/passwd"
  = inr ("static_path_traversal", "static path escapes the configured static directory").
Proof. split_and!; vm_compute; reflexivity. Qed.
End SiteExample.
