(* ===== verification/ToolExecution.v ===== *)
(** * The execution of a brain's tool calls

    [ts/packages/brain-island/src/tool-execution-host.ts]: a tool request of a brain is
    prepared, its arguments parsed and a debug record started; executed, its images kept and
    the record ended; and its result turned into the text the brain gets.  The debug
    references that are attached to the events of a tool call are here too.

    The debug store, the tools and the store of images are calls, [HostCall], as is the bridge
    that [BrainHost] uses.  The updates a tool reports are returned with its result: they are
    recorded and handed on in their order, but when in the course of the tool is left open.
    A value that [JSON.stringify] refuses is not a [json]. *)

From stdpp Require Import sets list strings.
From S2P Require Import Prelude JsString Json JsonParse CodexText CodexEvents DebugStore ToolCallDebug AsyncCalls.

(** ** Data *)

Record BrainHostToolRequest := { callId : string; providerItemId : option string; name : string; argumentsJson : string }.

Inductive BrainToolContent := TextItem (t : string) | ImageItem (data mimeType : string).

Inductive BrainToolTurnDisposition := complete_turn | suspend_external.

Record BrainToolResult := { content : list BrainToolContent; details : json; turnDisposition : option BrainToolTurnDisposition }.

(** Numbers are kept by their texts. *)
Record BrainToolMediaReference := {
  attachmentId : string; filename : string; reference_mimeType : string; byteSize : string; width : string; height : string; downloadUrl : string
}.

(** A tool: how it is executed, and [prepareArguments], which may throw. *)
Record BrainTool := { tool_name : string; with_context : bool; prepareArguments : option (json → result json) }.

Record PreparedBrainHostToolRequest := {
  request : BrainHostToolRequest; tool : option BrainTool; params : json; prepared_debugDetailId : option string;
  preparationError : option string
}.

Record BrainHostToolFailure := { toolName : string; reasonCode : string; retryable : bool; action : option string; detail : string }.

Record BrainHostToolExecutionResult := {
  output : string; failure : option BrainHostToolFailure; result_turnDisposition : option BrainToolTurnDisposition;
  stateFingerprint : option string
}.

(** ** Events of a brain *)

Inductive BrainEvent :=
| brain_started
| text_delta (t : string)
| reasoning_delta (t : string) (format : option string)
| phase_change (phase : string) (message : option string)
| tool_call_started (toolName : string) (metadata : option ToolCallMetadata)
| tool_call_finished (toolName : string) (isError : bool) (metadata : option ToolCallMetadata)
| provider_status (level message : string) (metadataJson : option string)
| brain_finished.

Definition event_type (e : BrainEvent) : string :=
  match e with
  | brain_started => "started"
  | text_delta _ => "text_delta"
  | reasoning_delta _ _ => "reasoning_delta"
  | phase_change _ _ => "phase_change"
  | tool_call_started _ _ => "tool_call_started"
  | tool_call_finished _ _ _ => "tool_call_finished"
  | provider_status _ _ _ => "provider_status"
  | brain_finished => "finished"
  end.

Record BrainEventEnvelope := { event_wakeId : string; event_sessionId : string; event : BrainEvent }.

Inductive BrainWakeStreamItem :=
| event_item (e : BrainEventEnvelope)
| actions_item (actions : list json)
| wake_failed_item (wakeId message : string) (reasonCode : option string).

(** ** Calls *)

Record HostResult := {
  submitted_callId : string; submitted_output : string; status : string; submitted_retryable : bool; submitted_reasonCode : option string;
  submitted_action : option string; submitted_summary : option string; submitted_debugDetailId : option string;
  submitted_fingerprint : option string; submitted_disposition : option BrainToolTurnDisposition
}.

(** What the members that are only passed on hold is JSON. *)
Record NativeBufferedBrainRunDrain := {
  items : list BrainWakeStreamItem; toolRequests : list BrainHostToolRequest; streamRetentionMetrics : json; terminal : bool;
  yielded : bool; attention : option json; continuationState : json; terminalReasonCode : option string; providerState : json;
  transportMetrics : json; credentialSecretUpdate : json; drain_error : option string
}.

Inductive HostCall : Type → Type :=
| DebugStart (callId toolName : string) (arguments : json) : HostCall (option string)
| DebugUpdate (id : string) (partialResult : json) : HostCall ()
| DebugFinish (id : string) (finalResult : json) : HostCall ()
| DebugFail (id : string) (e : string) : HostCall ()
| ExecuteTool (tool : BrainTool) (callId : string) (params : json) : HostCall (list BrainToolResult * outcome string BrainToolResult)
| PersistImages (callId toolName : string) (r : BrainToolResult) : HostCall (list BrainToolMediaReference)
| PrepareToolResolution : HostCall ()
| ResolveTools : HostCall (list BrainTool)
| SelectionActions : HostCall (list json)
| StartBrainRun (tools : list BrainTool) : HostCall string
| SignalAborted : HostCall bool
| RequestCancel : HostCall bool
| CancelBrainRun (reasonCode summary : string) : HostCall ()
| DrainBrainRun (maxItems : nat) : HostCall NativeBufferedBrainRunDrain
| SubmitEvent (e : BrainEventEnvelope) : HostCall ()
| SubmitBrainHostResult (r : HostResult) : HostCall ()
| PlanActions (events : list BrainEventEnvelope) (toolActions : list json) : HostCall (list json)
| Delay : HostCall ().

(** An error is kept by its message, a [BufferedBrainWakeError] with its members. *)
Inductive host_error :=
| HostError (message : string)
| BufferedBrainWakeError (code source message : string) (transportMetrics : json) (brainEventCounts brainStreamItemCounts : jsmap string nat)
    (streamRetentionMetrics : json).

Definition host_message (x : host_error) : string := match x with HostError m | BufferedBrainWakeError _ _ m _ _ _ _ => m end.

Abbreviation Host := (Io host_error HostCall).

Section Execution.
Context `{!JsonText}.
(** the message of the [SyntaxError] of a text *)
Context (parse_error : string → string).

(** ** Preparation *)

Definition prepared_with (r : BrainHostToolRequest) (t : option BrainTool) (p : json) (id e : option string) : PreparedBrainHostToolRequest :=
  {| request := r; tool := t; params := p; prepared_debugDetailId := id; preparationError := e |}.

Definition raw_arguments (r : BrainHostToolRequest) : option json :=
  match Str.trim (argumentsJson r) with "" => Some (JObject []) | _ => JSON_parse (argumentsJson r) end.

Definition prepareBrainHostToolRequest (toolsByName : jsmap string BrainTool) (r : BrainHostToolRequest) : Host PreparedBrainHostToolRequest :=
  let unparsed := JObject [("argumentsJson", JString (argumentsJson r))] in
  match map_get (name r) toolsByName with
  | None =>
      id ← await (DebugStart (callId r) (name r) unparsed);
      mret (prepared_with r None JUndefined id (Some ("Tool " +:+ name r +:+ " is not available in this brain session.")))
  | Some t =>
      match raw_arguments r with
      | None =>
          id ← await (DebugStart (callId r) (name r) unparsed);
          mret (prepared_with r (Some t) JUndefined id
                  (Some ("Tool " +:+ name r +:+ " arguments were not valid JSON: " +:+ parse_error (argumentsJson r))))
      | Some raw =>
          catch
            (prepared ← match prepareArguments t with
                        | Some f => match f raw with Ok p => mret p | Throw m => raise (HostError m) end
                        | None => mret raw
                        end;
             id ← await (DebugStart (callId r) (name r) (JObject [("rawArguments", raw); ("preparedArguments", prepared)]));
             mret (prepared_with r (Some t) prepared id None))
            (λ x,
             id ← await (DebugStart (callId r) (name r) (JObject [("rawArguments", raw)]));
             mret (prepared_with r (Some t) JUndefined id
                     (Some ("Tool " +:+ name r +:+ " argument preparation failed: " +:+ host_message x))))
      end
  end.

(** ** What a result says *)

Definition isRecord (v : json) : option (list (string * json)) := match v with JObject o => Some o | _ => None end.

Definition stringField (o : list (string * json)) (k : string) : option string :=
  match member o k with JString "" => None | JString s => Some s | _ => None end.

(** a number that is not finite is written as [null] *)
Definition numberField (o : list (string * json)) (k : string) : option string :=
  match member o k with JNumber "null" => None | JNumber t => Some t | _ => None end.

Fixpoint first_some {A B} (f : A → option B) (l : list A) : option B :=
  match l with [] => None | x :: l => match f x with Some y => Some y | None => first_some f l end end.

Definition brainToolStateFingerprint (r : BrainToolResult) : option string :=
  o ← isRecord (details r);
  or_else
    (first_some (λ k, v ← stringField o k; match Str.trim v with "" => None | t => Some (Str.slice (k +:+ ":" +:+ t) 0 512) end)
       ["stateFingerprint"; "state_fingerprint"; "effectFingerprint"; "effect_fingerprint"])
    (first_some (λ k, match member o k with
                      | JString v | JNumber v => Some (Str.slice (k +:+ ":" +:+ v) 0 512)
                      | _ => None
                      end)
       ["revision"; "resourceRevision"; "resource_revision"; "effectRevision"; "effect_revision"]).

Definition bool_text (b : bool) : string := if b then "true" else "false".

Definition brainHostToolFailureFromResult (tool : string) (r : BrainToolResult) : option BrainHostToolFailure :=
  o ← isRecord (details r);
  let unsuccessful := match member o "ok" with JBool false => true | _ => is_string "failed" (member o "action") end in
  if negb unsuccessful then None
  else
    let reason := default "tool_reported_unsuccessful_result"
      (or_else (stringField o "reasonCode") (or_else (stringField o "reason_code") (or_else (stringField o "code") (stringField o "action")))) in
    let retry := match member o "retryable" with JBool b => b | _ => true end in
    let parts := [match stringField o "message" with Some m => tool +:+ " failed: " +:+ m | None => tool +:+ " returned ok=false" end]
      ++ option_list ((λ v, "operation=" +:+ v) <$> stringField o "operation")
      ++ option_list ((λ v, "backend=" +:+ v) <$> stringField o "backend")
      ++ ["reason=" +:+ reason]
      ++ option_list ((λ v, "status=" +:+ v) <$> numberField o "statusCode")
      ++ ["retryable=" +:+ bool_text retry] in
    Some {| toolName := tool; reasonCode := reason; retryable := retry; action := stringField o "action"; detail := Str.join " " parts |}.

Definition brainToolResultIsUnsuccessful (r : BrainToolResult) : bool :=
  match brainHostToolFailureFromResult "tool" r with Some _ => true | None => false end.

(** ** The text and the record of a result *)

(** [JSON.stringify(value, null, 2)] *)
Definition line_break (indent : string) : string := String newline indent.

Definition bracketed (opening closing indent : string) (l : list string) : string :=
  match l with
  | [] => opening +:+ closing
  | _ => let inner := line_break (indent +:+ "  ") in
         opening +:+ inner +:+ Str.join ("," +:+ inner) l +:+ line_break indent +:+ closing
  end.

Fixpoint stringify_indented (indent : string) (v : json) : option string :=
  match v with
  | JArray l => Some (bracketed "[" "]" indent (map (λ x, default "null" (stringify_indented (indent +:+ "  ") x)) l))
  | JObject o =>
      Some (bracketed "{" "}" indent
              (flat_map (λ p, match p with
                              | (k, x) => match stringify_indented (indent +:+ "  ") x with
                                          | Some t => [quote k +:+ ": " +:+ t]
                                          | None => []
                                          end
                              end) o))
  | _ => stringify v
  end.

(** [JSON.stringify] of [undefined] is [undefined]. *)
Definition safeJsonStringify (v : json) : option string := stringify_indented "" v.

(** Each image with the reference that its place among the images has. *)
Fixpoint with_references (l : list BrainToolContent) (refs : list BrainToolMediaReference)
    : list (BrainToolContent * option BrainToolMediaReference) :=
  match l with
  | [] => []
  | TextItem t :: l => (TextItem t, None) :: with_references l refs
  | ImageItem d m :: l => (ImageItem d m, head refs) :: with_references l (tail refs)
  end.

Definition content_line (p : BrainToolContent * option BrainToolMediaReference) : string :=
  match p with
  | (TextItem t, _) => t
  | (ImageItem _ m, None) => "[image:" +:+ m +:+ ";unavailable]"
  | (ImageItem _ _, Some r) =>
      "[image attachment_id=" +:+ attachmentId r +:+ " filename=" +:+ filename r +:+ " mime_type=" +:+ reference_mimeType r
      +:+ " byte_size=" +:+ byteSize r +:+ " width=" +:+ width r +:+ " height=" +:+ height r +:+ " download_url=" +:+ downloadUrl r +:+ "]"
  end.

Definition lines (sep : string) (l : list string) : string := Str.join sep (List.filter (λ t, negb (String.eqb t "")) l).
Definition line_feed : string := String newline "".

Definition brainToolResultToHostOutput (r : BrainToolResult) (refs : list BrainToolMediaReference) : string :=
  let content := lines line_feed (map content_line (with_references (content r) refs)) in
  let output := match safeJsonStringify (details r) with
                | None | Some "{}" => content
                | Some d => lines (line_feed +:+ line_feed) [content; "Details:" +:+ line_feed +:+ d]
                end in
  match output with "" => "(tool returned no content)" | _ => output end.

Definition debug_content (p : BrainToolContent * option BrainToolMediaReference) : json :=
  match p with
  | (TextItem t, _) => JObject [("type", JString "text"); ("text", JString t)]
  | (ImageItem _ m, ref) =>
      JObject ([("type", JString "image"); ("mimeType", JString m); ("data", JString "[redacted media bytes]")]
        ++ match ref with
           | None => []
           | Some r => [("attachment", JObject [("attachment_id", JString (attachmentId r)); ("filename", JString (filename r));
                          ("mime_type", JString (reference_mimeType r)); ("byte_size", JNumber (byteSize r)); ("width", JNumber (width r));
                          ("height", JNumber (height r)); ("download_url", JString (downloadUrl r))])]
           end)
  end.

Definition disposition_text (d : BrainToolTurnDisposition) : string :=
  match d with complete_turn => "complete_turn" | suspend_external => "suspend_external" end.

Definition brainToolResultToDebugValue (r : BrainToolResult) (refs : list BrainToolMediaReference) : json :=
  JObject ([("content", JArray (map debug_content (with_references (content r) refs))); ("details", details r)]
    ++ option_list ((λ d, ("turnDisposition", JString (disposition_text d))) <$> turnDisposition r)).

(** ** Execution *)

Definition failDebugRecord (p : PreparedBrainHostToolRequest) (e : string) : Host () :=
  match prepared_debugDetailId p with None | Some "" => mret () | Some id => await (DebugFail id e) end.

Definition unsuccessful_call (p : PreparedBrainHostToolRequest) (code : string) (retry : bool) (text : string) : BrainHostToolExecutionResult :=
  {| output := text;
     failure := Some {| toolName := name (request p); reasonCode := code; retryable := retry; action := Some "failed"; detail := text |};
     result_turnDisposition := None; stateFingerprint := None |}.

Definition record_update (p : PreparedBrainHostToolRequest) (u : BrainToolResult) : Host () :=
  match prepared_debugDetailId p with None | Some "" => mret () | Some id => await (DebugUpdate id (brainToolResultToDebugValue u [])) end.

Definition has_image (r : BrainToolResult) : bool := existsb (λ c, match c with ImageItem _ _ => true | _ => false end) (content r).

(** What follows once the tool has returned [r], with what is kept of its images. *)
Definition finish_call (p : PreparedBrainHostToolRequest) (r : BrainToolResult) (refs : list BrainToolMediaReference) : Host BrainHostToolExecutionResult :=
  let failure := brainHostToolFailureFromResult (name (request p)) r in
  match prepared_debugDetailId p with
  | None | Some "" => mret ()
  | Some id =>
      await (DebugFinish id (brainToolResultToDebugValue r refs)) ≫= λ _,
      match failure with Some f => await (DebugFail id (detail f)) | None => mret () end
  end ≫= λ _,
  mret {| output := brainToolResultToHostOutput r refs; failure := failure; result_turnDisposition := turnDisposition r;
          stateFingerprint := brainToolStateFingerprint r |}.

Definition after_tool (toolMediaSink : bool) (p : PreparedBrainHostToolRequest) (r : BrainToolResult) : Host BrainHostToolExecutionResult :=
  let failure := brainHostToolFailureFromResult (name (request p)) r in
  match failure, toolMediaSink, has_image r with
  | None, true, true =>
      kept ← attempt (await (PersistImages (callId (request p)) (name (request p)) r));
      match kept with
      | Value refs => finish_call p r refs
      | Raise x =>
          let detail := "Tool " +:+ name (request p) +:+ " media persistence failed: " +:+ host_message x in
          failDebugRecord p detail ≫= λ _, mret (unsuccessful_call p "tool_media_persistence_failed" false detail)
      end
  | _, _, _ => finish_call p r []
  end.

(** The result, and the updates that [onUpdate] was given. *)
Definition executePreparedBrainHostToolRequest (toolMediaSink : bool) (p : PreparedBrainHostToolRequest)
    : Host (list BrainToolResult * BrainHostToolExecutionResult) :=
  match preparationError p, tool p with
  | Some (String _ _ as e), _ =>
      failDebugRecord p e ≫= λ _, mret ([], unsuccessful_call p "tool_preparation_failed" false e)
  | _, None =>
      let output := "Tool " +:+ name (request p) +:+ " is not available in this brain session." in
      failDebugRecord p output ≫= λ _, mret ([], unsuccessful_call p "tool_unavailable" false output)
  | _, Some t =>
      '(updates, r) ← await (ExecuteTool t (callId (request p)) (params p));
      result ← catch
        (for_each (λ _ u, record_update p u) () updates ≫= λ _,
         match r with Value r => after_tool toolMediaSink p r | Raise m => raise (HostError m) end)
        (λ x,
         failDebugRecord p (host_message x) ≫= λ _,
         mret (unsuccessful_call p "tool_exception" true ("Tool " +:+ name (request p) +:+ " failed: " +:+ host_message x)));
      mret (updates, result)
  end.
End Execution.

(** ** Debug references *)

Record BrainHostToolDebugReferences := { startByToolName : jsmap string (list string); finishByToolName : jsmap string (list string) }.

Definition createBrainHostToolDebugReferences : BrainHostToolDebugReferences := {| startByToolName := []; finishByToolName := [] |}.

Definition pushDebugReference (refs : jsmap string (list string)) (tool id : string) : jsmap string (list string) :=
  map_set tool (default [] (map_get tool refs) ++ [id]) refs.

Definition add_reference (refs : BrainHostToolDebugReferences) (p : PreparedBrainHostToolRequest) : BrainHostToolDebugReferences :=
  match prepared_debugDetailId p with
  | None | Some "" => refs
  | Some id => {| startByToolName := pushDebugReference (startByToolName refs) (name (request p)) id;
                  finishByToolName := pushDebugReference (finishByToolName refs) (name (request p)) id |}
  end.

Definition addPreparedBrainHostToolDebugReferences (refs : BrainHostToolDebugReferences) (l : list PreparedBrainHostToolRequest)
    : BrainHostToolDebugReferences := fold_left add_reference l refs.

(** [refs?.shift()], and the deletion of a list that became empty *)
Definition take_reference (refs : jsmap string (list string)) (tool : string) : option string * jsmap string (list string) :=
  match map_get tool refs with
  | None | Some [] => (None, refs)
  | Some ("" :: l) => (None, map_set tool l refs)
  | Some [id] => (Some id, map_delete tool refs)
  | Some (id :: l) => (Some id, map_set tool l refs)
  end.

Definition with_event (e : BrainEventEnvelope) (ev : BrainEvent) : BrainEventEnvelope :=
  {| event_wakeId := event_wakeId e; event_sessionId := event_sessionId e; event := ev |}.

Definition withBrainHostToolDebugReference (item : BrainWakeStreamItem) (refs : BrainHostToolDebugReferences)
    : BrainWakeStreamItem * BrainHostToolDebugReferences :=
  match item with
  | event_item e =>
      match event e with
      | tool_call_started t m =>
          let '(id, starts) := take_reference (startByToolName refs) t in
          (match id with
           | None => item
           | _ => event_item (with_event e (tool_call_started t (withToolCallDebugReference m id)))
           end,
           {| startByToolName := starts; finishByToolName := finishByToolName refs |})
      | tool_call_finished t b m =>
          let '(id, finishes) := take_reference (finishByToolName refs) t in
          (match id with
           | None => item
           | _ => event_item (with_event e (tool_call_finished t b (withToolCallDebugReference m id)))
           end,
           {| startByToolName := startByToolName refs; finishByToolName := finishes |})
      | _ => (item, refs)
      end
  | _ => (item, refs)
  end.
