(* ===== verification/BrainHost.v ===== *)
(** * The run of a buffered brain

    [runBufferedBrainHost] of [ts/packages/brain-island/src/buffered-brain-host.ts]: a native
    run is started and drained until it ends.  Each drain brings items of the stream, which
    are counted, annotated and projected, and requests for tools, each of which is executed
    and answered before the next; the end of the run, an error of it or of the host, ends the
    loop.  The listener that cancels the run when the wake is aborted runs beside it, and
    shares the flag that [RequestCancel] tests and sets.  The tools may add to the actions of
    the selection as they run, so these are read where the source reads them.

    The loop has no bound in the source; here it has [rounds] of them, and is [Endless] when
    they are used up. *)

From stdpp Require Import sets list strings.
From S2P Require Import Prelude JsString Json JsonParse CodexText CodexEvents DebugStore ToolCallDebug AsyncCalls ToolExecution.

(** The options that decide something: [submitEvent], [planActions] and [toolMediaSink] by
    whether they are given. *)
Record HostOptions := {
  moduleLabel : string; option_wakeId : string; option_sessionId : string; initial_events : list BrainEventEnvelope;
  submitEvent : bool; planActions : bool; toolMediaSink : bool
}.

Record StreamFailure := { failure_reasonCode : string; failure_source : string; failure_message : string }.

(** The variables of the loop. *)
Record RunState := {
  events : list BrainEventEnvelope; streamActions : list json; brainEventCounts : jsmap string nat; brainStreamItemCounts : jsmap string nat;
  streamFailure : option StreamFailure; requestedTurnDisposition : option BrainToolTurnDisposition;
  toolDebugReferences : BrainHostToolDebugReferences
}.

Inductive RunOutcome := completed_run | yielded_run | attention_required.

Record BufferedBrainHostRunResult := {
  result_events : list BrainEventEnvelope; result_actions : list json; result_providerState : json; result_outcome : RunOutcome;
  result_continuationState : json; result_attention : option json; result_transportMetrics : json; result_credentialSecretUpdate : json;
  result_eventCounts : jsmap string nat; result_itemCounts : jsmap string nat; result_streamRetentionMetrics : json
}.

Definition incrementCount (counts : jsmap string nat) (k : string) : jsmap string nat := map_set k (S (default 0 (map_get k counts))) counts.

Definition item_type (i : BrainWakeStreamItem) : string :=
  match i with event_item _ => "event" | actions_item _ => "actions" | wake_failed_item _ _ _ => "wake_failed" end.

(** *** Changes of the state *)

Definition with_events (l : list BrainEventEnvelope) (st : RunState) : RunState :=
  {| events := l; streamActions := streamActions st; brainEventCounts := brainEventCounts st; brainStreamItemCounts := brainStreamItemCounts st;
     streamFailure := streamFailure st; requestedTurnDisposition := requestedTurnDisposition st; toolDebugReferences := toolDebugReferences st |}.
Definition with_counts (ec ic : jsmap string nat) (st : RunState) : RunState :=
  {| events := events st; streamActions := streamActions st; brainEventCounts := ec; brainStreamItemCounts := ic;
     streamFailure := streamFailure st; requestedTurnDisposition := requestedTurnDisposition st; toolDebugReferences := toolDebugReferences st |}.
Definition with_debug_references (refs : BrainHostToolDebugReferences) (st : RunState) : RunState :=
  {| events := events st; streamActions := streamActions st; brainEventCounts := brainEventCounts st; brainStreamItemCounts := brainStreamItemCounts st;
     streamFailure := streamFailure st; requestedTurnDisposition := requestedTurnDisposition st; toolDebugReferences := refs |}.
Definition with_projection (actions : list json) (f : option StreamFailure) (st : RunState) : RunState :=
  {| events := events st; streamActions := streamActions st ++ actions; brainEventCounts := brainEventCounts st;
     brainStreamItemCounts := brainStreamItemCounts st; streamFailure := or_else (streamFailure st) f;
     requestedTurnDisposition := requestedTurnDisposition st; toolDebugReferences := toolDebugReferences st |}.
Definition with_disposition (d : BrainToolTurnDisposition) (st : RunState) : RunState :=
  {| events := events st; streamActions := streamActions st; brainEventCounts := brainEventCounts st; brainStreamItemCounts := brainStreamItemCounts st;
     streamFailure := streamFailure st; requestedTurnDisposition := Some d; toolDebugReferences := toolDebugReferences st |}.

Section Host.
Context `{!JsonText}.
Context (parse_error : string → string).
Context (o : HostOptions).

(** ** The stream *)

(** The actions of an item, and the failure it reports. *)
Definition projectStreamItem (item : BrainWakeStreamItem) : Host (list json * option StreamFailure) :=
  match item with
  | event_item e => await (SubmitEvent e) ≫= λ _, mret ([], None)
  | actions_item l => mret (l, None)
  | wake_failed_item wake message code =>
      mret ([], Some {| failure_reasonCode := default "brain_unavailable" code; failure_source := "native_brain_stream";
                        failure_message := moduleLabel o +:+ " wake " +:+ wake +:+ " failed: " +:+ message |})
  end.

Definition is_text_delta (e : BrainEvent) : bool := match e with text_delta _ => true | _ => false end.

Definition count_item (item : BrainWakeStreamItem) (st : RunState) : RunState :=
  with_counts (match item with event_item e => incrementCount (brainEventCounts st) (event_type (event e)) | _ => brainEventCounts st end)
              (incrementCount (brainStreamItemCounts st) (item_type item)) st.

(** One item of a drain. *)
Definition stream_item (st : RunState) (item : BrainWakeStreamItem) : Host RunState :=
  let '(debugItem, refs) := withBrainHostToolDebugReference item (toolDebugReferences st) in
  let st := with_debug_references refs (count_item item st) in
  let project st := '(actions, f) ← projectStreamItem debugItem; mret (with_projection actions f st) in
  match debugItem with
  | event_item e =>
      let st := if negb (submitEvent o) || is_text_delta (event e) then with_events (events st ++ [e]) st else st in
      if submitEvent o then project st else mret st
  | _ => project st
  end.

(** ** The tools *)

Definition update_texts (u : BrainToolResult) : list string := omap (λ c, match c with TextItem t => Some t | _ => None end) (content u).

Definition update_event (p : PreparedBrainHostToolRequest) (u : BrainToolResult) : BrainEventEnvelope :=
  let d := recordValue (details u) in
  let status := default "update" (stringField d "status") in
  let text := Str.slice (Str.trim (Str.join line_feed (update_texts u))) 0 2000 in
  {| event_wakeId := option_wakeId o; event_sessionId := option_sessionId o;
     event := provider_status (if String.eqb status "failed" then "error" else "info")
       (match text with "" => "Tool " +:+ name (request p) +:+ " reported " +:+ status +:+ "." | _ => text end)
       (stringify (JObject
          [("source", JString "tool_status"); ("tool_name", JString (name (request p))); ("tool_call_id", JString (callId (request p)));
           ("status", JString status); ("provider_id", from_option JString JUndefined (stringField d "providerId"));
           ("provider_job_id", from_option JString JUndefined (stringField d "jobId"))])) |}.

Definition projectToolUpdate (p : PreparedBrainHostToolRequest) (st : RunState) (u : BrainToolResult) : Host RunState :=
  if submitEvent o then await (SubmitEvent (update_event p u)) ≫= λ _, mret st
  else mret (with_events (events st ++ [update_event p u]) st).

Definition host_result (p : PreparedBrainHostToolRequest) (out : BrainHostToolExecutionResult) : HostResult :=
  {| submitted_callId := callId (request p); submitted_output := output out;
     status := match failure out with
               | Some f => match action f with Some "denied" => "denied" | _ => "failed" end
               | None => "succeeded"
               end;
     submitted_retryable := default false (retryable <$> failure out); submitted_reasonCode := reasonCode <$> failure out;
     submitted_action := failure out ≫= action; submitted_summary := detail <$> failure out;
     submitted_debugDetailId := prepared_debugDetailId p; submitted_fingerprint := stateFingerprint out;
     submitted_disposition := result_turnDisposition out |}.

#[global] Instance disposition_eq_dec : EqDecision BrainToolTurnDisposition.
Proof. solve_decision. Defined.

Definition request_disposition (wakeId : string) (d : NativeBufferedBrainRunDrain) (st : RunState) (next : option BrainToolTurnDisposition)
    : Host RunState :=
  match next, requestedTurnDisposition st with
  | None, _ => mret st
  | Some x, None => mret (with_disposition x st)
  | Some x, Some y =>
      if bool_decide (x = y) then mret (with_disposition x st)
      else raise (BufferedBrainWakeError "conflicting_tool_turn_disposition" "brain_tool_host"
             ("wake " +:+ wakeId +:+ " received conflicting tool turn dispositions " +:+ disposition_text y +:+ " and " +:+ disposition_text x)
             (transportMetrics d) (brainEventCounts st) (brainStreamItemCounts st) (streamRetentionMetrics d))
  end.

(** One prepared request of a drain. *)
Definition tool_request (wakeId : string) (d : NativeBufferedBrainRunDrain) (st : RunState) (p : PreparedBrainHostToolRequest) : Host RunState :=
  '(updates, out) ← executePreparedBrainHostToolRequest (toolMediaSink o) p;
  st ← for_each (projectToolUpdate p) st updates;
  await (SubmitBrainHostResult (host_result p out)) ≫= λ _,
  request_disposition wakeId d st (result_turnDisposition out).

(** ** The run *)

Definition cancelBufferedWake (wakeId : string) : Host () :=
  first ← await RequestCancel;
  if first : bool then await (CancelBrainRun "host_cancelled" ("wake " +:+ wakeId +:+ " was cancelled by an explicit host signal")) else mret ().

Definition prepare_requests (toolsByName : jsmap string BrainTool) (l : list BrainHostToolRequest) : Host (list PreparedBrainHostToolRequest) :=
  for_each (λ acc r, p ← prepareBrainHostToolRequest parse_error toolsByName r; mret (acc ++ [p])) [] l.

Definition buffered_wake_error (d : NativeBufferedBrainRunDrain) (st : RunState) (f : StreamFailure) : host_error :=
  BufferedBrainWakeError (failure_reasonCode f) (failure_source f) (failure_message f) (transportMetrics d) (brainEventCounts st)
    (brainStreamItemCounts st) (streamRetentionMetrics d).

Definition terminal_failure (wakeId e : string) (d : NativeBufferedBrainRunDrain) : StreamFailure :=
  {| failure_reasonCode := default "provider_error" (terminalReasonCode d); failure_source := "native_brain_terminal";
     failure_message := moduleLabel o +:+ " buffered wake " +:+ wakeId +:+ " failed: " +:+ e |}.

Definition run_result (selectionActions planned : list json) (d : NativeBufferedBrainRunDrain) (st : RunState) : BufferedBrainHostRunResult :=
  {| result_events := if submitEvent o then [] else events st; result_actions := selectionActions ++ streamActions st ++ planned;
     result_providerState := providerState d;
     result_outcome := match attention d with Some _ => attention_required | None => if yielded d then yielded_run else completed_run end;
     result_continuationState := continuationState d; result_attention := attention d; result_transportMetrics := transportMetrics d;
     result_credentialSecretUpdate := credentialSecretUpdate d; result_eventCounts := brainEventCounts st;
     result_itemCounts := brainStreamItemCounts st; result_streamRetentionMetrics := streamRetentionMetrics d |}.

Definition plans (d : NativeBufferedBrainRunDrain) (st : RunState) : bool :=
  match requestedTurnDisposition st, attention d with None, None => negb (yielded d) && planActions o | _, _ => false end.

(** What a drain leads to: the end of the run, or another round. *)
Definition settle_round (wakeId : string) (d : NativeBufferedBrainRunDrain) (st : RunState)
    : Host (option BufferedBrainHostRunResult) :=
  match drain_error d, terminal d, streamFailure st with
  | Some e, _, f => raise (buffered_wake_error d st (default (terminal_failure wakeId e d) f))
  | None, true, Some f => raise (buffered_wake_error d st f)
  | None, true, None =>
      planned ← (if plans d st
                 then selectionActions ← await SelectionActions; await (PlanActions (events st) (selectionActions ++ streamActions st))
                 else mret []);
      selectionActions ← await SelectionActions;
      mret (Some (run_result selectionActions planned d st))
  | None, false, _ => await Delay ≫= λ _, mret None
  end.

Definition round (wakeId : string) (toolsByName : jsmap string BrainTool) (st : RunState)
    : Host (RunState * option BufferedBrainHostRunResult) :=
  aborted ← await SignalAborted;
  (if aborted : bool then cancelBufferedWake wakeId else mret ()) ≫= λ _,
  d ← await (DrainBrainRun 32);
  prepared ← prepare_requests toolsByName (toolRequests d);
  let st := with_debug_references (addPreparedBrainHostToolDebugReferences (toolDebugReferences st) prepared) st in
  st ← for_each stream_item st (items d);
  st ← for_each (tool_request wakeId d) st prepared;
  result ← settle_round wakeId d st;
  mret (st, result).

Fixpoint drain_run (rounds : nat) (wakeId : string) (toolsByName : jsmap string BrainTool) (st : RunState)
    : Host BufferedBrainHostRunResult :=
  match rounds with
  | O => Endless
  | S rounds =>
      '(st, result) ← round wakeId toolsByName st;
      match result with Some r => mret r | None => drain_run rounds wakeId toolsByName st end
  end.

Definition initial_state : RunState :=
  {| events := initial_events o; streamActions := []; brainEventCounts := []; brainStreamItemCounts := []; streamFailure := None;
     requestedTurnDisposition := None; toolDebugReferences := createBrainHostToolDebugReferences |}.

Definition tools_by_name (l : list BrainTool) : jsmap string BrainTool := fold_left (λ m t, map_set (tool_name t) t m) l [].

Definition runBufferedBrainHost (rounds : nat) : Host BufferedBrainHostRunResult :=
  await PrepareToolResolution ≫= λ _,
  tools ← await ResolveTools;
  wakeId ← await (StartBrainRun tools);
  drain_run rounds wakeId (tools_by_name tools) initial_state.
End Host.
