(* ===== verification/BrainHostFacts.v ===== *)
(** * What the run of a buffered brain promises

    However the bridge, the tools and the stores answer, and whenever the wake is aborted:
    requests for a tool are answered at most once, in the order in which they came; a tool
    runs at most once for a request; the debug record of a call says what its answer says; the
    run is cancelled at most once.  When the run returns, every request is answered, all turn
    dispositions agree, and after one nothing is planned, every item is counted and every
    event is handed on, in order.  When it throws, something was rejected, reported as failed
    or contradictory. *)

From stdpp Require Import sets list gmap strings.
From S2P Require Import Prelude JsString Json JsonParse CodexText CodexEvents DebugStore ToolCallDebug AsyncCalls ToolExecution BrainHost.

(** ** The world *)

(** What the services have seen: the requests and items that were drained, the calls for which
    a tool ran, the answers, each with what its debug record said when it was given, the events
    that were accepted, how each debug record was ended last, how often actions were
    planned, and whether a call was rejected or a drain reported an error.  The native run
    has at most [left] drains that neither end it nor report an error. *)
Record ledger := {
  left : nat; drained : list BrainHostToolRequest; stream : list BrainWakeStreamItem; executed : list string;
  submitted : list (HostResult * option bool); sent : list BrainEventEnvelope; records : gmap string bool; planned : nat; trouble : bool
}.

(** The signal, the flag [cancelRequested], and how often the native run was cancelled. *)
Record cancellation := { aborted : bool; cancelRequested : bool; cancels : nat }.

Record world := { log : ledger; abort : cancellation }.

Definition set_records (m : gmap string bool) (l : ledger) : ledger :=
  {| left := left l; drained := drained l; stream := stream l; executed := executed l; submitted := submitted l; sent := sent l;
     records := m; planned := planned l; trouble := trouble l |}.
Definition ran (id : string) (l : ledger) : ledger :=
  {| left := left l; drained := drained l; stream := stream l; executed := executed l ++ [id]; submitted := submitted l; sent := sent l;
     records := records l; planned := planned l; trouble := trouble l |}.
Definition answered (r : HostResult) (l : ledger) : ledger :=
  {| left := left l; drained := drained l; stream := stream l; executed := executed l;
     submitted := submitted l ++ [(r, submitted_debugDetailId r ≫= λ d, records l !! d)]; sent := sent l;
     records := records l; planned := planned l; trouble := trouble l |}.
Definition accepted (e : BrainEventEnvelope) (l : ledger) : ledger :=
  {| left := left l; drained := drained l; stream := stream l; executed := executed l; submitted := submitted l; sent := sent l ++ [e];
     records := records l; planned := planned l; trouble := trouble l |}.
Definition has_planned (l : ledger) : ledger :=
  {| left := left l; drained := drained l; stream := stream l; executed := executed l; submitted := submitted l; sent := sent l;
     records := records l; planned := S (planned l); trouble := trouble l |}.
Definition has_drained (n : nat) (d : NativeBufferedBrainRunDrain) (l : ledger) : ledger :=
  {| left := n; drained := drained l ++ toolRequests d; stream := stream l ++ items d; executed := executed l; submitted := submitted l;
     sent := sent l; records := records l; planned := planned l; trouble := trouble l || bool_decide (is_Some (drain_error d)) |}.
Definition refuse (l : ledger) : ledger :=
  {| left := left l; drained := drained l; stream := stream l; executed := executed l; submitted := submitted l; sent := sent l;
     records := records l; planned := planned l; trouble := true |}.

Definition ends_run (d : NativeBufferedBrainRunDrain) : bool := terminal d || bool_decide (is_Some (drain_error d)).

(** A call of the debug store answers; a tool answers, with a result or with what it threw; the
    signal, the timer and the actions of the selection are there.  Any other call may be
    rejected. *)
Definition log_handles (B : Type) (e : HostCall B) : ledger → outcome host_error B → ledger → Prop :=
  match e in HostCall B return ledger → outcome host_error B → ledger → Prop with
  | DebugStart _ _ _ => λ l r l', ∃ id, r = Value id ∧ l' = set_records (from_option (λ d, delete d (records l)) (records l) id) l
  | DebugUpdate _ _ => λ l r l', r = Value () ∧ l' = l
  | DebugFinish id _ => λ l r l', r = Value () ∧ l' = set_records (<[id := true]> (records l)) l
  | DebugFail id _ => λ l r l', r = Value () ∧ l' = set_records (<[id := false]> (records l)) l
  | ExecuteTool _ id _ => λ l r l', (∃ v, r = Value v) ∧ l' = ran id l
  | SubmitEvent e => λ l r l', match r with Value _ => l' = accepted e l | Raise _ => l' = refuse l end
  | SubmitBrainHostResult x => λ l r l', match r with Value _ => l' = answered x l | Raise _ => l' = refuse l end
  | PlanActions _ _ => λ l r l', match r with Value _ => l' = has_planned l | Raise _ => l' = refuse (has_planned l) end
  | DrainBrainRun _ => λ l r l',
      match r with
      | Value d => ∃ n, l' = has_drained n d l ∧ (ends_run d = false → left l = S n)
      | Raise _ => l' = refuse l
      end
  | PrepareToolResolution | ResolveTools | StartBrainRun _ => λ l r l', match r with Value _ => l' = l | Raise _ => l' = refuse l end
  | SignalAborted | SelectionActions | Delay => λ l r l', (∃ v, r = Value v) ∧ l' = l
  | _ => λ l _ l', l' = l
  end.

Definition host_handles (B : Type) (e : HostCall B) : world → outcome host_error B → world → Prop :=
  match e in HostCall B return world → outcome host_error B → world → Prop with
  | SignalAborted => λ w r w', w' = w ∧ r = Value (aborted (abort w))
  | RequestCancel => λ w r w',
      log w' = log w ∧ r = Value (negb (cancelRequested (abort w))) ∧
      abort w' = {| aborted := aborted (abort w); cancelRequested := true; cancels := cancels (abort w) |}
  | CancelBrainRun _ _ => λ w r w',
      log w' = match r with Value _ => log w | Raise _ => refuse (log w) end ∧ abort w' = {| aborted := aborted (abort w); cancelRequested := cancelRequested (abort w); cancels := S (cancels (abort w)) |}
  | e => λ w r w', log_handles _ e (log w) r (log w') ∧ abort w' = abort w
  end.

(** The wake may be aborted at any time: its listener, where it has been added, cancels the
    run unless the flag is set. *)
Inductive abort_step (a : cancellation) : cancellation → Prop :=
| no_abort : abort_step a a
| abort_unheard : abort_step a {| aborted := true; cancelRequested := cancelRequested a; cancels := cancels a |}
| abort_heard : cancelRequested a = false → abort_step a {| aborted := true; cancelRequested := true; cancels := S (cancels a) |}.

Definition host_between (w w' : world) : Prop := log w' = log w ∧ abort_step (abort w) (abort w').

(** ** Operations that do not cancel *)

Definition settled (a : cancellation) : Prop := cancels a ≤ 1 ∧ (cancelRequested a = false → cancels a = 0).

Lemma abort_settled a a' : abort_step a a' → settled a → settled a'.
Proof. destruct 1 as [| |H]; intros [Hc H0]; split; cbn; try done; by rewrite (H0 H). Qed.

Definition quiet {B} (e : HostCall B) : Prop := match e with RequestCancel | CancelBrainRun _ _ => False | _ => True end.

(** [m] ends with [Q] of the ledger, and the run is not cancelled twice. *)
Definition logs {A} (m : Host A) (Q : outcome host_error A → ledger → Prop) (l : ledger) : Prop :=
  ∀ a, settled a → ensures host_handles host_between m (λ r w', settled (abort w') ∧ Q r (log w')) {| log := l; abort := a |}.

Lemma logs_mono {A} (m : Host A) (Q Q' : outcome host_error A → ledger → Prop) l :
  (∀ r l, Q r l → Q' r l) → logs m Q l → logs m Q' l.
Proof. intros HQ Hm a Ha; eapply ensures_mono; [|by apply Hm]; intros r w [Hs H]; auto. Qed.

Lemma logs_ret {A} (x : A) (Q : outcome host_error A → ledger → Prop) l : Q (Value x) l → logs (mret x) Q l.
Proof. intros HQ a Ha; by split. Qed.

Lemma logs_raise {A} x (Q : outcome host_error A → ledger → Prop) l : Q (Raise x) l → logs (raise x) Q l.
Proof. intros HQ a Ha; by split. Qed.

Lemma logs_continue {A B} (m : Host A) (k : outcome host_error A → Host B) Q l :
  logs m (λ r l, logs (k r) Q l) l → logs (continue m k) Q l.
Proof.
  intros Hm a Ha; apply ensures_continue; eapply ensures_mono; [|by apply Hm]; intros r [l' a'] [Hs H]; by apply H.
Qed.

Lemma logs_bind {A B} (m : Host A) (f : A → Host B) Q l :
  logs m (λ r l, match r with Value x => logs (f x) Q l | Raise x => Q (Raise x) l end) l → logs (m ≫= f) Q l.
Proof. intros Hm; apply logs_continue; eapply logs_mono; [|done]; intros [x|x] l' H; [done|by apply logs_raise]. Qed.

Lemma logs_catch {A} (m : Host A) (h : host_error → Host A) Q l :
  logs m (λ r l, match r with Value x => Q (Value x) l | Raise x => logs (h x) Q l end) l → logs (catch m h) Q l.
Proof. intros Hm; apply logs_continue; eapply logs_mono; [|done]; intros [x|x] l' H; [by apply logs_ret|done]. Qed.

Lemma logs_attempt {A} (m : Host A) Q l : logs m (λ r l, Q (Value r) l) l → logs (attempt m) Q l.
Proof. intros Hm; apply logs_continue; eapply logs_mono; [|done]; intros r l' H; by apply logs_ret. Qed.

Lemma logs_await {A} (e : HostCall A) Q l :
  quiet e → (∀ r l', log_handles A e l r l' → Q r l') → logs (await e) Q l.
Proof.
  intros He HQ a Ha [l1 a1] [E Hs] r [l2 a2] Hh; cbn in E, Hs; subst l1; apply (abort_settled _ _ Hs) in Ha.
  destruct e; cbn in He; try done; cbn -[log_handles] in Hh |- *; destruct Hh as [Hh E];
    try (injection Hh as -> ->; split; [done|apply HQ; cbn; eauto 6]);
    cbn -[log_handles] in E; subst a2; (split; [exact Ha|by apply HQ]).
Qed.

Lemma logs_for_each {A B} (step : B → A → Host B) (I : list A → B → ledger → Prop) (E : host_error → ledger → Prop) acc xs l :
  (∀ x xs b l, I (x :: xs) b l → logs (step b x) (λ r l, match r with Value b => I xs b l | Raise e => E e l end) l) →
  I xs acc l → logs (for_each step acc xs) (λ r l, match r with Value b => I [] b l | Raise e => E e l end) l.
Proof.
  intros Hs; revert acc l; induction xs as [|x xs IH]; intros acc l HI; [by apply logs_ret|]; cbn [for_each].
  apply logs_bind; eapply logs_mono; [|by apply Hs]; intros [b|e] l' H; [by apply IH|done].
Qed.

(** The run is cancelled by whoever sets the flag. *)
Lemma cancel_once wakeId l :
  logs (cancelBufferedWake wakeId) (λ r l', match r with Value _ => l' = l | Raise _ => l' = refuse l end) l.
Proof.
  intros a Ha; apply ensures_bind, ensures_await; intros [l1 a1] [E1 H1] r [l2 a2] (E2 & Hr & Ha2); cbn in *; subst r l1 l2 a2.
  apply (abort_settled _ _ H1) in Ha; cbn; destruct (cancelRequested a1) eqn:Ec; cbn; [by split; [|done]; destruct Ha|].
  destruct Ha as [_ Ha]; specialize (Ha Ec).
  intros [l3 a3] [E3 H3] r [l4 a4] [E4 Ha4]; cbn in *; subst l3 l4 a4; split; [|by destruct r].
  inversion H3 as [|H|]; subst; cbn in *; try done; split; cbn; try done; lia.
Qed.

(** ** One call of a tool *)

Section Calls.
Context `{!JsonText}.
Context (parse_error : string → string).

(** The call changes the debug records only, and may have run its tool. *)
Definition worked_on (id : string) (l l' : ledger) : Prop :=
  ∃ m, l' = set_records m l ∨ l' = set_records m (ran id l).

(** The record of the call, if it has one, says whether it succeeded. *)
Definition record_says (p : PreparedBrainHostToolRequest) (ok : bool) (l : ledger) : Prop :=
  match prepared_debugDetailId p with None | Some "" => True | Some d => records l !! d = Some ok end.

Lemma worked_refl id l : worked_on id l l.
Proof. exists (records l); left; by destruct l. Qed.

Lemma worked_ran id l : worked_on id l (ran id l).
Proof. exists (records l); right; by destruct l. Qed.

Lemma worked_record id m l l' : worked_on id l l' → worked_on id l (set_records m l').
Proof. intros [m' [->| ->]]; exists m; [left|right]; done. Qed.

Lemma fail_record p e Q l :
  (∀ m, record_says p false (set_records m l) → Q (Value ()) (set_records m l)) → logs (failDebugRecord p e) Q l.
Proof.
  unfold failDebugRecord, record_says; destruct (prepared_debugDetailId p) as [[|c d]|]; intros HQ.
  1, 3: apply logs_ret; specialize (HQ (records l)); destruct l; by apply HQ.
  apply logs_await; [done|]; cbn; intros r l' [-> ->]; apply HQ; cbn; apply lookup_insert_eq.
Qed.

Definition concluded (p : PreparedBrainHostToolRequest) (l0 : ledger) (r : outcome host_error BrainHostToolExecutionResult) (l : ledger) : Prop :=
  ∃ out, r = Value out ∧ worked_on (callId (request p)) l0 l ∧ record_says p (bool_decide (failure out = None)) l.

Lemma fail_concluded p e l0 code retry text l :
  worked_on (callId (request p)) l0 l → logs (failDebugRecord p e ≫= λ _, mret (unsuccessful_call p code retry text)) (concluded p l0) l.
Proof.
  intros Hw; apply logs_bind, fail_record; intros m Hm; apply logs_ret; eexists; split_and!; [done|by apply worked_record|exact Hm].
Qed.

Lemma finish_concluded p r refs l0 l :
  worked_on (callId (request p)) l0 l → logs (finish_call p r refs) (concluded p l0) l.
Proof.
  intros Hw; unfold finish_call, concluded, record_says; destruct (prepared_debugDetailId p) as [[|c d]|].
  1, 3: by apply logs_bind, logs_ret, logs_ret; eexists.
  apply logs_bind, logs_bind, logs_await; [done|]; cbn; intros x l1 [-> ->].
  destruct (brainHostToolFailureFromResult _ r) as [f|].
  - apply logs_await; [done|]; cbn; intros x l2 [-> ->]; apply logs_ret; eexists; split_and!; [done|by do 2 apply worked_record|].
    cbn; apply lookup_insert_eq.
  - apply logs_ret, logs_ret; eexists; split_and!; [done|by apply worked_record|]; cbn; apply lookup_insert_eq.
Qed.

Lemma after_tool_concluded sink p r l0 l :
  worked_on (callId (request p)) l0 l → logs (after_tool sink p r) (concluded p l0) l.
Proof.
  intros Hw; unfold after_tool; destruct (brainHostToolFailureFromResult _ r); [by apply finish_concluded|].
  destruct sink; [|by apply finish_concluded]; destruct (has_image r); [|by apply finish_concluded].
  apply logs_bind, logs_attempt, logs_await; [done|]; cbn; intros [refs|x] l' ->; [by apply finish_concluded|by apply fail_concluded].
Qed.

Lemma updates_recorded p updates l : logs (for_each (λ _ u, record_update p u) () updates) (λ r l', r = Value () ∧ l' = l) l.
Proof.
  eapply logs_mono; [|apply (logs_for_each _ (λ _ _ l', l' = l) (λ _ _, False)); [|done]]; [intros [[]|x] l'; naive_solver|].
  intros u us [] l' ->; unfold record_update; destruct (prepared_debugDetailId p) as [[|c d]|]; try by apply logs_ret.
  apply logs_await; [done|]; by intros r l' [-> ->].
Qed.

Definition called (p : PreparedBrainHostToolRequest) (l0 : ledger) (r : outcome host_error (list BrainToolResult * BrainHostToolExecutionResult))
    (l : ledger) : Prop :=
  ∃ updates out, r = Value (updates, out) ∧ worked_on (callId (request p)) l0 l ∧ record_says p (bool_decide (failure out = None)) l.

(** A prepared request is concluded, however its tool ends; its tool runs at most once. *)
Lemma execute_called sink p l : logs (executePreparedBrainHostToolRequest sink p) (called p l) l.
Proof.
  assert (∀ e code text, logs (failDebugRecord p e ≫= λ _, mret ([], unsuccessful_call p code false text)) (called p l) l) as Hfail.
  { intros e code text; apply logs_bind, fail_record; intros m Hm; apply logs_ret; eexists [], _; split_and!; [done| |exact Hm].
    apply worked_record, worked_refl. }
  assert (∀ t, logs ('(updates, r) ← await (ExecuteTool t (callId (request p)) (params p));
      result ← catch
        (for_each (λ _ u, record_update p u) () updates ≫= λ _,
         match r with Value r => after_tool sink p r | Raise m => raise (HostError m) end)
        (λ x, failDebugRecord p (host_message x) ≫= λ _,
         mret (unsuccessful_call p "tool_exception" true ("Tool " +:+ name (request p) +:+ " failed: " +:+ host_message x)));
      mret (updates, result)) (called p l) l) as Htool.
  { intros t; apply logs_bind, logs_await; [done|]; cbn -[for_each]; intros r0 l' [[[updates r] ->] ->]; apply logs_bind.
    apply (logs_mono _ (concluded p l)); [intros x l' (out & -> & Hw & Hr); apply logs_ret; by exists updates, out|].
    apply logs_catch, logs_bind; eapply logs_mono; [|apply updates_recorded]; intros x l' [-> ->]; destruct r as [r|m].
    - eapply logs_mono; [|apply after_tool_concluded, worked_ran]; intros x l' (out & -> & ?); by exists out.
    - apply logs_raise, fail_concluded, worked_ran. }
  unfold executePreparedBrainHostToolRequest; destruct (preparationError p) as [[|c e]|]; [|apply Hfail|];
    (destruct (tool p) as [t|]; [apply Htool|apply Hfail]).
Qed.

Lemma start_logs id tool args Q l :
  (∀ d m, Q (Value d) (set_records m l)) → logs (await (DebugStart id tool args)) Q l.
Proof. intros HQ; apply logs_await; [done|]; cbn; intros r l' (d & -> & ->); apply HQ. Qed.

Lemma prepare_logs tools r l :
  logs (prepareBrainHostToolRequest parse_error tools r) (λ x l', ∃ p m, x = Value p ∧ request p = r ∧ l' = set_records m l) l.
Proof.
  assert (∀ args (f : option string → PreparedBrainHostToolRequest), (∀ d, request (f d) = r) →
    logs (id ← await (DebugStart (callId r) (name r) args); mret (f id)) (λ x l', ∃ p m, x = Value p ∧ request p = r ∧ l' = set_records m l) l) as Hstart.
  { intros args f Hf; apply logs_bind, start_logs; intros d m; apply logs_ret; by exists (f d), m. }
  unfold prepareBrainHostToolRequest; destruct (map_get (name r) tools) as [t|]; [|by apply Hstart].
  destruct (raw_arguments r) as [raw|]; [|by apply Hstart].
  apply logs_catch; destruct (prepareArguments t) as [f|]; [destruct (f raw) as [y|y]|].
  2: apply logs_bind, logs_raise; by apply Hstart.
  all: apply logs_bind, logs_ret, logs_bind, start_logs; intros d m; apply logs_ret; by eexists _, m.
Qed.

Lemma prepare_requests_logs tools rs l :
  logs (prepare_requests parse_error tools rs) (λ x l', ∃ ps m, x = Value ps ∧ map request ps = rs ∧ l' = set_records m l) l.
Proof.
  eapply logs_mono; [|apply (logs_for_each _ (λ rest ps l', map request ps ++ rest = rs ∧ ∃ m, l' = set_records m l) (λ _ _, False))].
  - intros [ps|x] l'; [|done]; rewrite app_nil_r; intros [Hp [m ->]]; by exists ps, m.
  - intros r rest ps l' [Hps [m ->]]; apply logs_bind; eapply logs_mono; [|apply prepare_logs].
    intros x l' (p & m' & -> & Hr & ->); apply logs_ret; split; [rewrite map_app, <- Hps, <- Hr, <- (assoc_L (++)); done|by exists m'].
  - split; [done|]; exists (records l); by destruct l.
Qed.
End Calls.

(** ** What holds between two steps of the run *)

Definition events_of (l : list BrainWakeStreamItem) : list BrainEventEnvelope := omap (λ i, match i with event_item e => Some e | _ => None end) l.

(** An event without the reference that was attached to it. *)
Definition erase (e : BrainEventEnvelope) : BrainEventEnvelope :=
  with_event e (match event e with
                | tool_call_started t _ => tool_call_started t None
                | tool_call_finished t b _ => tool_call_finished t b None
                | ev => ev
                end).

Definition occurrences (t : string) (l : list string) : nat := length (filter (λ x, x = t) l).
Definition counts_all (counts : jsmap string nat) (l : list string) : Prop := ∀ t, default 0 (map_get t counts) = occurrences t l.

Definition event_types (l : list BrainWakeStreamItem) : list string := map (λ e, event_type (event e)) (events_of l).

Lemma counts_increment counts l t : counts_all counts l → counts_all (incrementCount counts t) (l ++ [t]).
Proof.
  intros H x; unfold incrementCount, occurrences; rewrite filter_app, length_app; destruct (decide (x = t)) as [->|Hne].
  - rewrite map_get_set_eq, filter_cons_True by done; cbn; rewrite H; unfold occurrences; lia.
  - rewrite map_get_set_ne, filter_cons_False by done; cbn; rewrite H; unfold occurrences; lia.
Qed.

Definition answered_ids (l : ledger) : list string := map (λ x, submitted_callId x.1) (submitted l).
Definition drained_ids (l : ledger) : list string := map callId (drained l).

(** What the debug record of a call said when its answer was given is what the answer says. *)
Definition record_agrees (x : HostResult * option bool) : Prop :=
  match submitted_debugDetailId x.1 with None | Some "" => True | Some _ => x.2 = Some (String.eqb (status x.1) "succeeded") end.

(** What holds even where the run throws. *)
Definition orderly (l : ledger) : Prop :=
  answered_ids l `prefix_of` drained_ids l ∧ executed l `sublist_of` drained_ids l ∧ Forall record_agrees (submitted l).

(** Why the run may throw: a call was rejected or a drain reported an error, the stream said that
    the wake failed, or two tools asked for different dispositions. *)
Definition excused (l : ledger) : Prop :=
  trouble l = true ∨ (∃ w m c, wake_failed_item w m c ∈ stream l) ∨
  ∃ x y d e, x ∈ submitted l ∧ y ∈ submitted l ∧ submitted_disposition x.1 = Some d ∧ submitted_disposition y.1 = Some e ∧ d ≠ e.

Definition fails_orderly (l : ledger) : Prop := orderly l ∧ excused l.

Lemma refuse_orderly l : orderly l → fails_orderly (refuse l).
Proof. intros Ho; split; [exact Ho|by left]. Qed.

Section Steps.
Context `{!JsonText}.
Context (parse_error : string → string).
Context (o : HostOptions).

Definition delivered (st : RunState) (l : ledger) : list BrainEventEnvelope := if submitEvent o then sent l else events st.

(** The items but [rest] have been seen, the requests but [pending] answered, and a tool of
    [running] may have run. *)
Record under_way (n : nat) (t : bool) (rest : list BrainWakeStreamItem) (pending : list BrainHostToolRequest) (running : list string)
    (st : RunState) (l : ledger) : Prop := {
  way_left : left l = n;
  way_trouble : trouble l = t;
  way_stream : ∃ seen, stream l = seen ++ rest ∧ counts_all (brainStreamItemCounts st) (map item_type seen)
    ∧ counts_all (brainEventCounts st) (event_types seen) ∧ map erase (events_of seen) `sublist_of` map erase (delivered st l);
  way_ids : drained_ids l = answered_ids l ++ map callId pending;
  way_running : running `prefix_of` map callId pending;
  way_executed : executed l `sublist_of` answered_ids l ++ running;
  way_records : Forall record_agrees (submitted l);
  way_disposition : Forall (λ x, ∀ d, submitted_disposition x.1 = Some d → requestedTurnDisposition st = Some d) (submitted l);
  way_planned : planned l = 0;
  way_failure : ∀ f, streamFailure st = Some f → ∃ w m c, wake_failed_item w m c ∈ stream l;
  way_asked : ∀ d, requestedTurnDisposition st = Some d → ∃ x, x ∈ submitted l ∧ submitted_disposition x.1 = Some d
}.

Lemma under_way_orderly n t rest pending running st l : under_way n t rest pending running st l → orderly l.
Proof.
  intros [_ _ _ Hids [k Hk] Hex Hrec _ _ _ _]; split_and!; [rewrite Hids; by eexists| |done].
  rewrite Hids, Hk, (assoc_L (++)); by apply sublist_inserts_r.
Qed.

(** *** The stream *)

Lemma reference_erased item refs item' refs' :
  withBrainHostToolDebugReference item refs = (item', refs') →
  match item with event_item e => ∃ e', item' = event_item e' ∧ erase e' = erase e | _ => item' = item end.
Proof.
  destruct item as [e|a|a b c]; cbn; [|by injection 1|by injection 1].
  destruct e as [wake session ev]; unfold erase, with_event; destruct ev as [|x|x f|x f|t m|t b m|x y z|]; cbn; try (injection 1 as <- _; by eexists).
  - destruct (take_reference (startByToolName refs) t) as [[id|] starts]; injection 1 as <- _; by eexists.
  - destruct (take_reference (finishByToolName refs) t) as [[id|] finishes]; injection 1 as <- _; by eexists.
Qed.

Lemma stream_seen n (t : bool) item rest pending running st l st' l' :
  under_way n t (item :: rest) pending running st l →
  left l' = left l → drained l' = drained l → stream l' = stream l → executed l' = executed l → submitted l' = submitted l → planned l' = planned l → trouble l' = trouble l →
  brainStreamItemCounts st' = brainStreamItemCounts (count_item item st) → brainEventCounts st' = brainEventCounts (count_item item st) →
  requestedTurnDisposition st' = requestedTurnDisposition st →
  (∀ f, streamFailure st' = Some f → streamFailure st = Some f ∨ ∃ w m c, item = wake_failed_item w m c) →
  map erase (delivered st' l') = map erase (delivered st l) ++ map erase (events_of [item]) → under_way n t rest pending running st' l'.
Proof.
  intros [Hl Ht (seen & Hs & Hi & He & Hd) Hids Hr Hx Hrec Hdisp Hp Hf Ha] El Edr Es Ex Esub Ep Et Ei Ee Ed Efail Edel.
  split; unfold drained_ids, answered_ids in *; rewrite ?El, ?Edr, ?Ex, ?Esub, ?Ep, ?Et, ?Ed, ?Es; try done.
  2: { intros f [[w (m & c & Hin)]%Hf|(w & m & c & ->)]%Efail; exists w, m, c; [exact Hin|rewrite Hs; set_solver]. }
  exists (seen ++ [item]); split; [by rewrite Hs, <- (assoc_L (++))|]; rewrite Ei, Ee, Edel; unfold event_types, events_of.
  rewrite omap_app, !map_app; split; [by apply counts_increment|]; split; [|by apply sublist_app].
  destruct item; cbn; rewrite ?app_nil_r; [by apply counts_increment|done|done].
Qed.

Lemma item_under_way n (t : bool) item rest pending running st l :
  under_way n t (item :: rest) pending running st l →
  logs (stream_item o st item) (λ r l', match r with Value st' => under_way n t rest pending running st' l' | Raise _ => fails_orderly l' end) l.
Proof.
  intros Hway; unfold stream_item; destruct (withBrainHostToolDebugReference item (toolDebugReferences st)) as [item' refs] eqn:E.
  apply reference_erased in E; destruct item as [e|acts|w m c]; [destruct E as (e' & -> & He)|subst item'|subst item'].
  2, 3: apply logs_bind, logs_ret, logs_ret; eapply stream_seen; [exact Hway|done..| |unfold delivered; cbn; by rewrite app_nil_r].
  2, 3: cbn; intros f; destruct (streamFailure st); eauto 7.
  cbn [projectStreamItem]; destruct (submitEvent o) eqn:Hsub; cbn [negb orb].
  - apply logs_bind, logs_bind, logs_await; [done|]; cbn; intros [[]|x] l' ->; [|by eapply refuse_orderly, under_way_orderly].
    apply logs_ret, logs_ret; destruct (is_text_delta (event e')); (eapply stream_seen; [exact Hway|done..|cbn; intros f; destruct (streamFailure st); by auto|]);
      unfold delivered; cbn; rewrite Hsub, map_app; cbn; by rewrite He.
  - apply logs_ret; eapply stream_seen; [exact Hway|done..|cbn; by left|]; unfold delivered; cbn; rewrite Hsub, map_app; cbn; by rewrite He.
Qed.

(** *** The tools *)

Lemma way_more n (t : bool) rest pending running st l st' l' :
  under_way n t rest pending running st l →
  left l' = left l → drained l' = drained l → stream l' = stream l → executed l' = executed l → submitted l' = submitted l → planned l' = planned l → trouble l' = trouble l →
  brainStreamItemCounts st' = brainStreamItemCounts st → brainEventCounts st' = brainEventCounts st →
  requestedTurnDisposition st' = requestedTurnDisposition st → streamFailure st' = streamFailure st →
  map erase (delivered st l) `sublist_of` map erase (delivered st' l') → under_way n t rest pending running st' l'.
Proof.
  intros [Hl Ht (seen & Hs & Hi & He & Hd) Hids Hr Hx Hrec Hdisp Hp Hf Ha] El Edr Es Ex Esub Ep Et Ei Ee Ed Efail Edel.
  split; unfold drained_ids, answered_ids in *; rewrite ?El, ?Edr, ?Ex, ?Esub, ?Ep, ?Et, ?Ed, ?Efail, ?Es; try done.
  exists seen; rewrite Ei, Ee; split_and!; [done..|]; by etrans.
Qed.

Lemma update_under_way n (t : bool) pending running p st u ok l :
  under_way n t [] pending running st l ∧ record_says p ok l →
  logs (projectToolUpdate o p st u)
    (λ r l', match r with Value st' => under_way n t [] pending running st' l' ∧ record_says p ok l' | Raise _ => fails_orderly l' end) l.
Proof.
  intros [Hway Hrec]; unfold projectToolUpdate; destruct (submitEvent o) eqn:Hsub.
  - apply logs_bind, logs_await; [done|]; intros [[]|x] l' Hl; cbn in Hl; subst l'; [|by eapply refuse_orderly, under_way_orderly].
    apply logs_ret; split; [|done]; eapply way_more; [exact Hway|done..|]; unfold delivered; rewrite Hsub; cbn.
    rewrite map_app; by apply sublist_inserts_r.
  - apply logs_ret; split; [|done]; eapply way_more; [exact Hway|done..|]; unfold delivered; rewrite Hsub; cbn.
    rewrite map_app; by apply sublist_inserts_r.
Qed.

Lemma executed_under_way n (t : bool) r pending st l l' :
  under_way n t [] (r :: pending) [] st l → worked_on (callId r) l l' → under_way n t [] (r :: pending) [callId r] st l'.
Proof.
  intros [Hl Ht Hs Hids _ Hx Hrec Hdisp Hp Hf Ha] [m [->| ->]]; rewrite app_nil_r in Hx; split; try done; try (by exists (map callId pending)).
  - by apply sublist_inserts_r.
  - by apply sublist_app.
Qed.

Lemma status_says (p : PreparedBrainHostToolRequest) out : String.eqb (status (host_result p out)) "succeeded" = bool_decide (failure out = None).
Proof.
  cbn; destruct (failure out) as [f|]; [rewrite bool_decide_false by done|done].
  destruct (action f) as [a|]; [|done]; by repeat (destruct a as [|[[] [] [] [] [] [] [] []] a]; try done).
Qed.

Lemma answer_agrees p out l :
  record_says p (bool_decide (failure out = None)) l → Forall record_agrees (submitted l) → Forall record_agrees (submitted (answered (host_result p out) l)).
Proof.
  rewrite <- (status_says p); intros Hsay Hrec; apply Forall_app; split; [done|]; apply Forall_singleton; revert Hsay; unfold record_agrees, record_says.
  cbn [fst snd submitted_debugDetailId host_result]; destruct (prepared_debugDetailId p) as [[|c d]|]; done.
Qed.

Lemma answered_ids_more p out l : answered_ids (answered (host_result p out) l) = answered_ids l ++ [callId (request p)].
Proof. unfold answered_ids; cbn; by rewrite map_app. Qed.

Lemma answered_orderly n (t : bool) p out pending st l :
  under_way n t [] (request p :: pending) [callId (request p)] st l → record_says p (bool_decide (failure out = None)) l →
  orderly (answered (host_result p out) l).
Proof.
  intros [_ _ _ Hids _ Hx Hrec _ _ _ _] Hsay; unfold orderly; rewrite answered_ids_more; split_and!; [| |by apply answer_agrees].
  - exists (map callId pending); by rewrite <- (assoc_L (++)).
  - change (drained_ids (answered (host_result p out) l)) with (drained_ids l); rewrite Hids; cbn [map]; rewrite cons_middle, (assoc_L (++)).
    by apply sublist_inserts_r.
Qed.

(** The answers but the last have agreed on [requestedTurnDisposition]. *)
Lemma answered_under_way n (t : bool) p out pending st l d st' :
  under_way n t [] (request p :: pending) [callId (request p)] st l → record_says p (bool_decide (failure out = None)) l →
  d = requestedTurnDisposition st' → (requestedTurnDisposition st = d ∨ requestedTurnDisposition st = None) →
  (∀ x, result_turnDisposition out = Some x → d = Some x) →
  (∀ x, d = Some x → requestedTurnDisposition st = Some x ∨ result_turnDisposition out = Some x) → streamFailure st' = streamFailure st →
  brainStreamItemCounts st' = brainStreamItemCounts st → brainEventCounts st' = brainEventCounts st → events st' = events st →
  under_way n t [] pending [] st' (answered (host_result p out) l).
Proof.
  intros [Hl Ht (seen & Hs & Hi & He & Hd) Hids Hr Hx Hrec Hdisp Hp Hf Ha] Hsay -> Hreq Hout Hfrom Efail Ei Ee Eev.
  split; rewrite ?Efail; try done.
  - exists seen; rewrite Ei, Ee; split_and!; try done; unfold delivered in *; cbn; by rewrite Eev.
  - rewrite answered_ids_more, <- (assoc_L (++)); exact Hids.
  - by exists (map callId pending).
  - rewrite answered_ids_more, app_nil_r; exact Hx.
  - by apply answer_agrees.
  - apply Forall_app; split; [|apply Forall_singleton; by intros x; apply Hout].
    eapply Forall_impl; [exact Hdisp|]; intros x H' d Hx'; specialize (H' d Hx'); destruct Hreq as [<-|]; congruence.
  - intros d [(x & Hin & Hx')%Ha|Hd']%Hfrom; [exists x|eexists (host_result p out, _)]; (split; [|done]); apply elem_of_app; [by left|right; by left].
Qed.

Lemma request_under_way n (t : bool) wakeId d p pending st l :
  under_way n t [] (request p :: pending) [] st l →
  logs (tool_request o wakeId d st p) (λ r l', match r with Value st' => under_way n t [] pending [] st' l' | Raise _ => fails_orderly l' end) l.
Proof.
  intros Hway; apply logs_bind; eapply logs_mono; [|apply execute_called]; intros r l1 (updates & out & -> & Hw & Hsay).
  pose proof (executed_under_way _ _ _ _ _ _ _ Hway Hw) as Hway1; clear Hway Hw; apply logs_bind.
  eapply logs_mono; [|apply (logs_for_each _ (λ _ st' l', under_way n t [] (request p :: pending) [callId (request p)] st' l'
    ∧ record_says p (bool_decide (failure out = None)) l') (λ _, fails_orderly)); [intros u us st' l'; apply update_under_way|done]].
  intros [st'|x] l2 H2; [|done]; destruct H2 as [Hway2 Hsay2]; apply logs_bind, logs_await; [done|]; intros [[]|x] l3 Hl3; cbn in Hl3; subst l3;
    [|by eapply refuse_orderly, under_way_orderly].
  pose proof (λ d' st'', answered_under_way n t p out pending st' l2 d' st'' Hway2 Hsay2) as Hnext; unfold request_disposition.
  destruct (result_turnDisposition out) as [x|] eqn:Ex; [|by apply logs_ret, (Hnext (requestedTurnDisposition st')); auto].
  destruct (requestedTurnDisposition st') as [y|] eqn:Ey.
  - destruct (bool_decide_reflect (x = y)) as [->|Hne].
    + apply logs_ret, (Hnext (Some y)); auto; intros z [= ->]; auto.
    + apply logs_raise; split; [by eapply answered_orderly|]. right; right.
      destruct (way_asked _ _ _ _ _ _ _ Hway2 _ Ey) as (z & Hz & Hzy). eexists (host_result p out, _), z, x, y.
      split_and!; [apply elem_of_app; right; by left|apply elem_of_app; by left|exact Ex|exact Hzy|exact Hne].
  - apply logs_ret, (Hnext (Some x)); auto; intros z [= ->]; auto.
Qed.

(** *** The rounds *)

(** What holds where the run returns [x]. *)
Definition finished (x : BufferedBrainHostRunResult) (l : ledger) : Prop :=
  answered_ids l = drained_ids l ∧
  (∃ d, Forall (λ y, ∀ d', submitted_disposition y.1 = Some d' → d = Some d') (submitted l) ∧
        (planned l ≠ 0 → planned l = 1 ∧ d = None ∧ result_outcome x = completed_run)) ∧
  counts_all (result_itemCounts x) (map item_type (stream l)) ∧ counts_all (result_eventCounts x) (event_types (stream l)) ∧
  map erase (events_of (stream l)) `sublist_of` map erase (if submitEvent o then sent l else result_events x).

Lemma run_finished t st d selection planned l k :
  under_way (left l) t [] [] [] st l → (k = has_planned l ∧ plans o d st = true ∨ k = l) →
  orderly k ∧ finished (run_result o selection planned d st) k.
Proof.
  intros Hway Hk; split; [apply under_way_orderly in Hway; by destruct Hk as [[-> _]| ->]|].
  destruct Hway as [_ _ (seen & Hs & Hi & He & Hd) Hids _ _ _ Hdisp Hp _ _]; rewrite app_nil_r in Hs; subst seen; cbn in Hids; rewrite app_nil_r in Hids.
  assert (answered_ids k = answered_ids l ∧ drained_ids k = drained_ids l ∧ submitted k = submitted l ∧ stream k = stream l ∧ sent k = sent l)
    as (Ea & Edr & Esub & Es & Esent) by (by destruct Hk as [[-> _]| ->]).
  unfold finished; rewrite Ea, Edr, Esub, Es, Esent; split_and!; [done| |done|done|unfold delivered in Hd; cbn; by destruct (submitEvent o)].
  exists (requestedTurnDisposition st); split; [done|]; destruct Hk as [[-> Hplan]| ->]; [|lia]; intros _; cbn; split; [by rewrite Hp|].
  unfold plans in Hplan; destruct (requestedTurnDisposition st), (attention d); try done; destruct (yielded d); done.
Qed.

Lemma settle_under_way n (t : bool) wakeId d st l :
  under_way n t [] [] [] st l → (is_Some (drain_error d) → t = true) →
  logs (settle_round o wakeId d st)
    (λ r l', match r with
             | Value None => ends_run d = false ∧ under_way n t [] [] [] st l'
             | Value (Some x) => orderly l' ∧ finished x l'
             | Raise _ => fails_orderly l'
             end) l.
Proof.
  intros Hway Htr; assert (orderly l) as Ho by (by eapply under_way_orderly); unfold settle_round.
  destruct (drain_error d) as [e|] eqn:Ee.
  { apply logs_raise; split; [done|left]. rewrite (way_trouble _ _ _ _ _ _ _ Hway). apply Htr; by eexists. }
  destruct (terminal d) eqn:Et.
  2: { apply logs_bind, logs_await; [done|]; intros r l' Hl; cbn in Hl; destruct Hl as [[v ->] ->].
       apply logs_ret; split; [unfold ends_run; rewrite Et, Ee; done|done]. }
  destruct (streamFailure st) as [f|] eqn:Ef.
  { apply logs_raise; split; [done|right; left]. by apply (way_failure _ _ _ _ _ _ _ Hway f). }
  rewrite <- (way_left _ _ _ _ _ _ _ Hway) in Hway.
  assert (∀ planned k, (k = has_planned l ∧ plans o d st = true ∨ k = l) →
    logs (selectionActions ← await SelectionActions; mret (Some (run_result o selectionActions planned d st)))
      (λ r l', match r with Value None => ends_run d = false ∧ under_way n t [] [] [] st l' | Value (Some x) => orderly l' ∧ finished x l' | Raise _ => fails_orderly l' end) k)
    as Hend.
  { intros planned k Hk; pose proof (λ s, run_finished t st d s planned l k Hway Hk) as Hfin.
    apply logs_bind, logs_await; [done|]; intros r l' Hl; cbn in Hl; destruct Hl as [[s ->] ->]; by apply logs_ret. }
  apply logs_bind; destruct (plans o d st) eqn:Ep; [|apply logs_ret, Hend; by right].
  apply logs_bind, logs_await; [done|]; intros r l' Hl; cbn in Hl; destruct Hl as [[s ->] ->].
  apply logs_await; [done|]; intros [planned|x] l' Hl; cbn in Hl; subst l'; [apply Hend; by left|by apply refuse_orderly].
Qed.

Definition round_post (n : nat) (r : outcome host_error (RunState * option BufferedBrainHostRunResult)) (l : ledger) : Prop :=
  match r with
  | Value (st, None) => ∃ n' t', n = S n' ∧ under_way n' t' [] [] [] st l
  | Value (_, Some x) => orderly l ∧ finished x l
  | Raise _ => fails_orderly l
  end.

Lemma way_drained n n' (t : bool) d refs m st l :
  under_way n t [] [] [] st l → under_way n' (t || bool_decide (is_Some (drain_error d))) (items d) (toolRequests d) [] (with_debug_references refs st) (set_records m (has_drained n' d l)).
Proof.
  intros [_ Ht (seen & Hs & Hi & He & Hd) Hids _ Hx Hrec Hdisp Hp Hf Ha]; rewrite app_nil_r in Hs; subst seen; cbn in Hids; rewrite app_nil_r in Hids.
  split; try done; [cbn; by rewrite Ht|by exists (stream l)| |apply prefix_nil|].
  2: { intros f (w & m' & c & Hin)%Hf; exists w, m', c; apply elem_of_app; by left. }
  unfold drained_ids in *; cbn; rewrite map_app, Hids; done.
Qed.

Lemma round_under_way n (t : bool) wakeId tools st l :
  under_way n t [] [] [] st l → logs (round parse_error o wakeId tools st) (round_post n) l.
Proof.
  intros Hway; assert (orderly l) as Ho by (by eapply under_way_orderly).
  apply logs_bind, logs_await; [done|]; intros r l' Hl; cbn in Hl; destruct Hl as [[ab ->] ->]; apply logs_bind.
  apply (logs_mono _ (λ r l', match r with Value _ => l' = l | Raise _ => l' = refuse l end));
    [|destruct ab; [apply cancel_once|by apply logs_ret]]; intros [[]|x] l' ->; [|by apply refuse_orderly].
  apply logs_bind, logs_await; [done|]; intros [d|x] l' Hl; cbn in Hl; [|subst l'; by apply refuse_orderly].
  destruct Hl as (n' & -> & Hn); rewrite (way_left _ _ _ _ _ _ _ Hway) in Hn; set (t' := t || bool_decide (is_Some (drain_error d))).
  apply logs_bind; eapply logs_mono; [|apply prepare_requests_logs].
  intros r l' (ps & m & -> & Hps & ->); apply logs_bind.
  eapply logs_mono; [|apply (logs_for_each _ (λ rest st' l', under_way n' t' rest (toolRequests d) [] st' l') (λ _, fails_orderly));
    [intros i rest st' l'; apply item_under_way|apply (way_drained n), Hway]].
  intros [st1|x] l1 Hway1; [|done]; rewrite <- Hps in Hway1; apply logs_bind.
  eapply logs_mono; [|apply (logs_for_each _ (λ rest st' l', under_way n' t' [] (map request rest) [] st' l') (λ _, fails_orderly));
    [intros p rest st' l'; apply request_under_way|exact Hway1]].
  intros [st2|x] l2 Hway2; [|done]; apply logs_bind; eapply logs_mono; [|apply (settle_under_way n' t' wakeId d st2 l2); [exact Hway2|]].
  2: { intros Hd; unfold t'; by rewrite (bool_decide_true _ Hd), orb_true_r. }
  intros [[x|]|x] l3 H3; [by apply logs_ret|apply logs_ret; destruct H3 as [He ?]; by exists n', t'; rewrite Hn|done].
Qed.

Definition run_post (r : outcome host_error BufferedBrainHostRunResult) (l : ledger) : Prop :=
  orderly l ∧ match r with Value x => finished x l | Raise _ => excused l end.

Lemma drain_run_post n (t : bool) rounds wakeId tools st l :
  under_way n t [] [] [] st l → n < rounds → logs (drain_run parse_error o rounds wakeId tools st) run_post l.
Proof.
  revert n t st l; induction rounds as [|rounds IH]; intros n t st l Hway Hn; [lia|]; cbn [drain_run].
  apply logs_bind; eapply logs_mono; [|by apply (round_under_way n t)]; intros [[st' [x|]]|x] l' H'; [by apply logs_ret| |exact H'].
  destruct H' as (n' & t' & -> & Hway'); apply (IH n' t'); [done|lia].
Qed.
End Steps.

(** Nothing has happened yet, and the run is not cancelled; the wake may already be aborted. *)
Definition fresh (n : nat) (w : world) : Prop :=
  (∃ m, log w = {| left := n; drained := []; stream := []; executed := []; submitted := []; sent := []; records := m; planned := 0; trouble := false |}) ∧
  cancelRequested (abort w) = false ∧ cancels (abort w) = 0.

Definition host_promise (o : HostOptions) (r : outcome host_error BufferedBrainHostRunResult) (w : world) : Prop :=
  cancels (abort w) ≤ 1 ∧ run_post o r (log w).

(** C4. The run of a buffered brain returns or throws, if the native run has only so many
    drains that neither end it nor report an error.  Whenever the wake is aborted and whatever
    is answered or rejected, the answers are given in the order in which the requests were drained,
    one for each; a tool runs at most once for a request, in that order; the debug record of a
    call, when its answer is given, is ended as the answer says; and the native run is cancelled
    at most once.  Where the run returns, every request has been answered, all turn dispositions
    the tools asked for are the same one, actions are planned only if there is none and the
    run completed, the counts are those of the items that were drained, and every event was
    handed on, in order.  Where it throws, requests may be left unanswered and events not
    handed on; it does so only if a call was rejected or a drain reported an error, if the
    stream said that the wake failed, or if two tools asked for different dispositions. *)
Theorem brain_host_answers `{!JsonText} (parse_error : string → string) (o : HostOptions) (n rounds : nat) (w : world) :
  fresh n w → n < rounds →
  ensures host_handles host_between (runBufferedBrainHost parse_error o rounds) (host_promise o) w.
Proof.
  destruct w as [l a]; intros [[m Hl] [Hr Hc]] Hn; cbn in Hl, Hr, Hc; subst l.
  set (l := {| left := n |}); assert (settled a) as Ha by (split; [rewrite Hc; lia|done]).
  assert (under_way o n false [] [] [] (initial_state o) l) as Hway.
  { split; try done; [|by apply Forall_nil..]; exists []; split_and!; try done; apply sublist_nil_l. }
  assert (orderly l) as Ho by (by eapply under_way_orderly).
  assert (logs (runBufferedBrainHost parse_error o rounds) (run_post o) l) as Hlogs; [|eapply ensures_mono; [|by apply Hlogs]; intros r w' [[? _] ?]; by split].
  apply logs_bind, logs_await; [done|]; intros [[]|x] l' Hl; cbn in Hl; subst l'; [|by apply refuse_orderly].
  apply logs_bind, logs_await; [done|]; intros [tools|x] l' Hl; cbn in Hl; subst l'; [|by apply refuse_orderly].
  apply logs_bind, logs_await; [done|]; intros [wakeId|x] l' Hl; cbn in Hl; subst l'; [|by apply refuse_orderly].
  by apply (drain_run_post _ _ n false).
Qed.

(** ** A run *)

Module HostExample.
#[local] Existing Instance literal_json.

Definition options : HostOptions :=
  {| moduleLabel := "chat-completions"; option_wakeId := "w"; option_sessionId := "s"; initial_events := []; submitEvent := true;
     planActions := true; toolMediaSink := false |}.

Definition request_of (id tool args : string) : BrainHostToolRequest :=
  {| callId := id; providerItemId := None; name := tool; argumentsJson := args |}.

Definition drain_of (its : list BrainWakeStreamItem) (reqs : list BrainHostToolRequest) (last : bool) : NativeBufferedBrainRunDrain :=
  {| items := its; toolRequests := reqs; streamRetentionMetrics := JNull; terminal := last; yielded := false; attention := None;
     continuationState := JUndefined; terminalReasonCode := None; providerState := JUndefined; transportMetrics := JUndefined;
     credentialSecretUpdate := JUndefined; drain_error := None |}.

Definition started : BrainWakeStreamItem :=
  event_item {| event_wakeId := "w"; event_sessionId := "s"; event := tool_call_started "read" None |}.

(** A bridge that plays [script]; [rejects] says whether it rejects events. *)
Record stage := { script : list NativeBufferedBrainRunDrain; answers : list HostResult; seen_events : list BrainEventEnvelope; cancelled : bool }.

Definition read_tool : BrainTool := {| tool_name := "read"; with_context := false; prepareArguments := None |}.

Definition serve (rejects : bool) (B : Type) (e : HostCall B) : stage → outcome host_error B * stage :=
  match e in HostCall B return stage → outcome host_error B * stage with
  | DebugStart id _ _ => λ w, (Value (Some ("d-" +:+ id)), w)
  | DebugUpdate _ _ | DebugFinish _ _ | DebugFail _ _ | PrepareToolResolution | Delay => λ w, (Value (), w)
  | ExecuteTool _ _ _ => λ w, (Value ([], Value {| content := [TextItem "ok"]; details := JUndefined; turnDisposition := None |}), w)
  | PersistImages _ _ _ => λ w, (Value [], w)
  | ResolveTools => λ w, (Value [read_tool], w)
  | SelectionActions => λ w, (Value [], w)
  | StartBrainRun _ => λ w, (Value "w", w)
  | SignalAborted => λ w, (Value false, w)
  | RequestCancel => λ w, (Value true, w)
  | CancelBrainRun _ _ => λ w, (Value (), {| script := script w; answers := answers w; seen_events := seen_events w; cancelled := true |})
  | DrainBrainRun _ => λ w,
      match script w with
      | [] => (Raise (HostError "unknown wake"), w)
      | d :: ds => (Value d, {| script := ds; answers := answers w; seen_events := seen_events w; cancelled := cancelled w |})
      end
  | SubmitEvent e => λ w,
      if rejects then (Raise (HostError "rejected"), w)
      else (Value (), {| script := script w; answers := answers w; seen_events := seen_events w ++ [e]; cancelled := cancelled w |})
  | SubmitBrainHostResult r => λ w,
      (Value (), {| script := script w; answers := answers w ++ [r]; seen_events := seen_events w; cancelled := cancelled w |})
  | PlanActions _ _ => λ w, (Value [JString "planned"], w)
  end.

Definition stage0 : stage :=
  {| script := [drain_of [started] [request_of "c1" "read" "{}"; request_of "c2" "write" "{}"; request_of "c3" "read" "{"] false; drain_of [] [] true];
     answers := []; seen_events := []; cancelled := false |}.

Definition run (rejects : bool) := perform (serve rejects) (runBufferedBrainHost (λ _, "bad") options 5) stage0.

(** Three requests, of which one is for a tool the session does not have and one has broken
    arguments, are answered in order, and the run completes. *)
Example run_answers :
  match run false with
  | Some (Value x, w) =>
      map (λ r, (submitted_callId r, status r, submitted_output r)) (answers w)
      = [("c1", "succeeded", "ok"); ("c2", "failed", "Tool write is not available in this brain session.");
         ("c3", "failed", "Tool read arguments were not valid JSON: bad")]
      ∧ result_outcome x = completed_run ∧ result_actions x = [JString "planned"]
      ∧ result_itemCounts x = [("event", 1)] ∧ result_eventCounts x = [("tool_call_started", 1)]
      ∧ map event (seen_events w) = [tool_call_started "read" (withToolCallDebugReference None (Some "d-c1"))]
  | _ => False
  end.
Proof. vm_compute; done. Qed.

(** An event that is rejected ends the host's run, and leaves the native run as it is: neither
    cancelled nor drained to its end. *)
Lemma rejected_event_leaves_run :
  match run true with Some (Raise _, w) => cancelled w = false ∧ length (script w) = 1 ∧ answers w = [] | _ => False end.
Proof. vm_compute; done. Qed.

(** The text a tool's result becomes. *)
Example output_text :
  brainToolResultToHostOutput {| content := [TextItem "a"; TextItem ""; ImageItem "zz" "image/png"]; details := JObject [("n", JArray [JNumber "1"])]; turnDisposition := None |} []
  = Str.join line_feed ["a"; "[image:image/png;unavailable]"; ""; "Details:"; "{"; "  " +:+ quote "n" +:+ ": ["; "    1"; "  ]"; "}"].
Proof. reflexivity. Qed.

Definition world0 : world :=
  {| log := {| left := 2; drained := []; stream := []; executed := []; submitted := []; sent := []; records := ∅; planned := 0; trouble := false |};
     abort := {| aborted := true; cancelRequested := false; cancels := 0 |} |}.

Lemma brain_host_answers_witness :
  fresh 2 world0 ∧
  ensures host_handles host_between (runBufferedBrainHost (λ _, "bad") options 3) (host_promise options) world0.
Proof.
  assert (fresh 2 world0) as Hfresh by (split; [by exists ∅|done]).
  split; [exact Hfresh|]; apply (brain_host_answers (λ _, "bad") options 2 3 world0 Hfresh); lia.
Defined.
End HostExample.
